(* ===== verification/_CoqProject ===== *)
-Q . S2P
Prelude.v
Gas.v
Uint.v
Uint512.v
Int256.v
Dec.v
Keys.v
WriteLog.v
GovTypes.v
Token.v
Epoch.v
Params.v
Epoched.v
Slash.v
Unbond.v
ValidatorSet.v
ValidatorSetInv.v
Lifecycle.v
ValidatorEpochs.v
Tx.v
WlStorage.v
BlockAlloc.v
Fees.v
Proposal.v
Agreement.v
BridgePool.v
EthBridge.v
Bonds.v
Inflation.v
Governance.v
EpochInflation.v
GovernanceVp.v
