(* ===== verification/Prelude.v ===== *)
(** * Namada: a verification development

    Namada is a proof-of-stake ledger on CometBFT with shielded transfers, an
    Ethereum bridge and IBC. This library models the parts of it that decide what
    the state of the ledger is, in Rocq definitions translated from the Rust
    sources under [src/], and proves what they promise.

    ** How the parts interact

    A client signs a transaction ([Tx]). A node checks it for the mempool, a
    proposer fills a block with what the mempool holds, the other validators check
    the block ([Proposal], [BlockAlloc], [Agreement]); wrappers pay fees ([Fees])
    and gas ([Gas]). Writes go through a log ([WriteLog]) in front of the database
    ([WlStorage]) under storage keys ([Keys]), and are checked by validity
    predicates ([Token], [EthBridge], [GovernanceVp]). Proof of stake keeps bonds
    ([Bonds]), redelegations ([Unbond]), validator sets ([ValidatorSet],
    [ValidatorSetInv], [Lifecycle], [ValidatorEpochs]), slashes ([Slash]) and pays
    rewards ([Inflation]), on data that is kept per epoch ([Epoched], [Epoch],
    [Params]). At the start of an epoch the shell applies the inflation of proof of
    stake and that of public goods funding ([EpochInflation]). The bridge mints, escrows, relays and refunds ([EthBridge]) and
    proves its pool to Ethereum ([BridgePool]). Proposals are created, voted on
    with the stake of the voters, tallied and carried out at the start of an epoch,
    and public goods funding mints and pays what they decided ([GovTypes],
    [Governance], [GovernanceVp]). All amounts are 256-bit integers
    and fixed-point decimals ([Uint], [Uint512], [Int256], [Dec]).

    ** Conventions

    - A Rust function that can fail is an [outcome]: [Ok], [Err] with the source's
      error, or [Panic] ([unwrap], [expect], an overflow with
      [overflow-checks = true], a division by zero).
    - Code that writes storage is a state-passing function [st S E A] on a record
      of the values it owns; a failed run keeps the writes that were made, as in
      the source, and a caller that drops a failed transaction says so.
    - A [u64], an epoch, a height and a [Uint] are integers [Z] with the range as
      an invariant; a [HashMap] or [BTreeMap] is a [gmap], iterated in key order
      where the source is ordered; a lazy map under an absent key is empty.
    - Third-party code is a class of operations with a class of the laws that the
      repository relies on: [UintOps] (the [uint] crate), [AddressCodec] and
      [Base32Hex] (bech32m, base32hex), [TxEnv] and [TxBorsh] (SHA-256, signatures,
      encodings), [Keccak], [PoolCodec], [WasmRun], [FeeCodec], [VoteExts]. Each
      has a concrete instance ([Ref], [RefCodec], [RefTx], [RefStorage], [RefFees],
      [RefShell], [RefPool], [RefBridge], [RefPos], [RefRewards], [RefEpoch],
      [RefGov], [RefGovVp]) on which the witnesses run. The run of the code of a proposal and
      the encoding of stored values are arguments of [Governance].

    ** The files and what their theorems show

    - [Prelude]: outcomes, the state monad with its total-correctness predicate
      [st_wp], ordered iteration, sums over lists and finite maps.
    - [Gas] ([core/src/ledger/gas.rs]): meters consume exactly the sum of what is
      charged or report exhaustion; the gas of parallel validity predicates does
      not depend on the schedule.
    - [Uint], [Uint512], [Int256], [Dec] ([core/src/types/uint.rs], [dec.rs],
      [token.rs]): Knuth division of 512-bit products is Euclidean division and
      never stops; signed arithmetic refines the integers; decimals round towards
      zero.
    - [Keys], [WriteLog], [WlStorage] ([core/src/types/storage.rs],
      [core/src/ledger/storage/]): the log refines a store with savepoints, in its
      state and in what it reads, collects the verifiers of changed keys and blocks
      replays exactly; iteration by prefix terminates and yields what reads return,
      while no transaction is between its precommit and its commit; epochs
      advance.
    - [Token] ([core/src/ledger/storage_api/token.rs],
      [shared/src/ledger/native_vp/multitoken.rs]): transfers, minting and burning,
      supplies as sums of balances, and the predicate that guards them: balances
      change by what is minted, and only the IBC account mints, IBC tokens.
    - [Epoch], [Params], [Epoched] ([proof_of_stake/src/epoched.rs],
      [parameters.rs]): trimmed histories answer like timelines that are never
      trimmed.
    - [Slash], [Unbond], [ValidatorSet], [ValidatorSetInv], [Lifecycle],
      [ValidatorEpochs], [Bonds], [Inflation], [EpochInflation]
      ([proof_of_stake/src/], [core/src/ledger/inflation.rs],
      [apps/src/lib/node/ledger/shell/finalize_block.rs]): the two slashing routines
      agree on slashes of different epochs; unbonding is last in, first out and splits
      redelegated tokens without loss; validator sets hold the highest stakes under
      any sequence of operations over any number of epochs; the account of proof of stake covers all bonds and
      unbonds under any sequence of operations with slashes; inflation is capped,
      minted in full and enough for every claim, and public goods funding makes no
      more than it mints and pays its fundings in order.
    - [Tx] ([core/src/proto/types.rs]): accepted signatures come from the account's
      keys over the hashed sections; signing and offline signing complete.
    - [BlockAlloc], [Fees], [Proposal], [Agreement]
      ([apps/src/lib/node/ledger/shell/], [shared/src/ledger/protocol/mod.rs]):
      blocks fit their space and gas when every transaction fits its bin; fees that
      are not unshielded are paid or the wrapper fails without other effects; an
      accepted proposal is sound; what an honest proposer builds from fitting
      transactions is accepted by validators in the same state.
    - [BridgePool], [EthBridge] ([core/src/ledger/eth_bridge/],
      [ethereum_bridge/src/], [shared/src/ledger/native_vp/ethereum_bridge/]):
      membership proofs verify and are sound; events keep the escrows sufficient
      and deliver every transfer in full; what the predicates of the bridge protect and what they miss.
    - [GovTypes], [Governance], [GovernanceVp] ([core/src/ledger/governance/],
      [core/src/ledger/pgf/], [core/src/ledger/storage_api/],
      [apps/src/lib/node/ledger/shell/governance.rs], [shared/src/ledger/governance/],
      [shared/src/ledger/pgf/]): the tally counts every unit of power once, in any
      order; the predicates protect proposals, votes, deposits and stewards, and
      accept what the code that creates proposals writes; proposals on stewards are
      carried out; and where the node and the predicates do not do what they mean to:
      the power of validators, the marks of executed proposals, the type and the
      registration of proposals, the deposits of rejected ones.

    ** Bounds and fuel

    Loops over storage are structural on the list that is iterated. The merging
    iterators of [WlStorage] and the limb loops of [Uint512] recurse on a measure
    that the theorems show is enough. Theorems on decimals bound the amounts by
    10^24, that is 10^18 whole tokens, far above any supply, so that products of
    decimals fit 255 bits; other bounds are those of the types. The digits of a
    number in a key are printed with fuel 20, which is enough for 64 bits.

    ** Not modelled

    - The command line, client, wallet, configuration, node processes, oracle and
      SDK: they parse, print and do input and output around the ledger.
    - RocksDB, the wasm virtual machine, IBC, MASP and the sparse Merkle trees:
      calls of third-party libraries, which appear as parameters where the ledger
      depends on them.
    - The guest code of transactions and validity predicates in wasm.
    - The loop of block finalisation as a whole; its fee, reward and epoch parts
      are in [Fees], [ValidatorEpochs], [EpochInflation] and [WlStorage].
    - The votes of validators on Ethereum events, the predicates of proof of stake and
      of the protocol parameters, and the files of offline votes.
    - Log messages, except where their arguments can panic, debug assertions and the
      texts of errors. *)

From stdpp Require Import sorting base numbers list gmap sets option.
From Stdlib Require Import ZArith Lia.

(** ** Outcome of a fallible computation

    A Rust function returns a value, an error of its [Result] type, or stops
    the thread: [unwrap] of [None], an explicit [panic!], or an arithmetic
    overflow (the workspace compiles with [overflow-checks = true]). *)
Inductive outcome (E A : Type) : Type :=
| Ok (a : A)
| Err (e : E)
| Panic.
Arguments Ok {E A} a.
Arguments Err {E A} e.
Arguments Panic {E A}.

#[export] Instance outcome_eq_dec `{EqDecision E, EqDecision A} :
  EqDecision (outcome E A).
Proof. solve_decision. Defined.

Section outcome_ops.
Context {E A B : Type}.

Definition out_bind (m : outcome E A) (k : A -> outcome E B) : outcome E B :=
  match m with
  | Ok a => k a
  | Err e => Err e
  | Panic => Panic
  end.

(** [Option::ok_or] *)
Definition ok_or (o : option A) (e : E) : outcome E A :=
  match o with
  | Some a => Ok a
  | None => Err e
  end.

(** [Option::unwrap] and [Option::expect] *)
Definition unwrap (o : option A) : outcome E A :=
  match o with
  | Some a => Ok a
  | None => Panic
  end.

Lemma out_bind_Ok (m : outcome E A) (k : A -> outcome E B) (b : B) :
  out_bind m k = Ok b <-> exists a, m = Ok a /\ k a = Ok b.
Proof.
  destruct m; simpl; split; intros H.
  - by eexists.
  - by destruct H as (? & [= ->] & ?).
  - done.
  - by destruct H as (? & ? & _).
  - done.
  - by destruct H as (? & ? & _).
Qed.

Lemma ok_or_Ok (o : option A) (e : E) (a : A) :
  ok_or o e = Ok a <-> o = Some a.
Proof. destruct o; simpl; split; congruence. Qed.

Lemma unwrap_Ok (o : option A) (a : A) :
  unwrap o = Ok a <-> o = Some a.
Proof. destruct o; simpl; split; congruence. Qed.
End outcome_ops.

(** A [for] loop over an accumulator whose body may stop early. *)
Fixpoint out_fold {E A B} (f : A -> B -> outcome E A) (l : list B) (a : A)
  : outcome E A :=
  match l with
  | [] => Ok a
  | b :: l' => out_bind (f a b) (fun a' => out_fold f l' a')
  end.

Lemma out_fold_app {E A B} (f : A -> B -> outcome E A) l k a :
  out_fold f (l ++ k) a = out_bind (out_fold f l a) (out_fold f k).
Proof.
  revert a; induction l as [|b l IH]; intros a; [done|].
  simpl. destruct (f a b); simpl; auto.
Qed.

(** A property kept by every iteration of a loop that returns *)
Lemma out_fold_inv {E A B} (P : A -> Prop) (f : A -> B -> outcome E A) l a a' :
  (forall a b a', In b l -> P a -> f a b = Ok a' -> P a') ->
  P a -> out_fold f l a = Ok a' -> P a'.
Proof.
  revert a; induction l as [|b l IH]; intros a Hf Ha Hr; simpl in *; [congruence|].
  apply out_bind_Ok in Hr as (a1 & H1 & Hr). eapply (IH a1); eauto.
Qed.

Declare Scope outcome_scope.
Delimit Scope outcome_scope with out.
Notation "'let*' x ':=' m 'in' k" := (out_bind m (fun x => k))
  (at level 10, x name, m at level 100, k at level 200) : outcome_scope.
Notation "'let*' ' p ':=' m 'in' k" := (out_bind m (fun p => k))
  (at level 10, p strict pattern, m at level 100, k at level 200)
  : outcome_scope.

(** ** State passing with errors

    A Rust method on [&mut self] (or on a [&mut S] storage) that returns a
    [Result]: the state written before an early return stays written. *)
Definition st (S E A : Type) : Type := S -> S * outcome E A.

Section st_ops.
Context {S E : Type}.

Definition st_ret {A} (a : A) : st S E A := fun s => (s, Ok a).
Definition st_err {A} (e : E) : st S E A := fun s => (s, Err e).
Definition st_panic {A} : st S E A := fun s => (s, Panic).
Definition st_lift {A} (o : outcome E A) : st S E A := fun s => (s, o).
Definition st_get {A} (f : S -> A) : st S E A := fun s => (s, Ok (f s)).
Definition st_mod (f : S -> S) : st S E unit := fun s => (f s, Ok tt).
Definition st_bind {A B} (m : st S E A) (k : A -> st S E B) : st S E B :=
  fun s =>
    match m s with
    | (s', Ok a) => k a s'
    | (s', Err e) => (s', Err e)
    | (s', Panic) => (s', Panic)
    end.

(** A [for] loop whose body may return early with [?]. *)
Fixpoint st_iter {A} (f : A -> st S E unit) (l : list A) : st S E unit :=
  match l with
  | [] => st_ret tt
  | a :: l' => st_bind (f a) (fun _ => st_iter f l')
  end.

Lemma st_bind_Ok {A B} (m : st S E A) (k : A -> st S E B) s s' b :
  st_bind m k s = (s', Ok b) <->
  exists s1 a, m s = (s1, Ok a) /\ k a s1 = (s', Ok b).
Proof.
  unfold st_bind. split.
  - destruct (m s) as [s1 [a|e|]]; [eauto|done|done].
  - by intros (s1 & a & -> & ?).
Qed.

Lemma st_iter_app {A} (f : A -> st S E unit) l k s :
  st_iter f (l ++ k) s = st_bind (st_iter f l) (fun _ => st_iter f k) s.
Proof.
  revert s; induction l as [|a l IH]; intros s; [done|].
  simpl. unfold st_bind in *. destruct (f a s) as [s1 [[]|e|]]; auto.
Qed.

(** Loop invariants: a property kept by every successful iteration. *)
Lemma st_iter_inv {A} (f : A -> st S E unit) (I : S -> Prop) l s s' :
  (forall a s s', In a l -> I s -> f a s = (s', Ok tt) -> I s') ->
  I s -> st_iter f l s = (s', Ok tt) -> I s'.
Proof.
  revert s; induction l as [|a l IH]; intros s Hf Hs Hrun; simpl in *.
  - by injection Hrun as <-.
  - apply st_bind_Ok in Hrun as (s1 & [] & Ha & Hrun).
    eapply (IH s1); eauto.
Qed.

(** Total correctness: the run returns, and its result and final state satisfy
    [Q]. *)
Definition st_wp {A} (m : st S E A) (Q : A -> S -> Prop) (s : S) : Prop :=
  exists s' a, m s = (s', Ok a) /\ Q a s'.

Lemma st_wp_bind {A B} (m : st S E A) (k : A -> st S E B) Q s :
  st_wp m (fun a s' => st_wp (k a) Q s') s -> st_wp (st_bind m k) Q s.
Proof.
  intros (s1 & a & Hm & s2 & b & Hk & HQ). exists s2, b. split; [|done].
  unfold st_bind. by rewrite Hm.
Qed.

Lemma st_wp_mono {A} (m : st S E A) (Q R : A -> S -> Prop) s :
  st_wp m Q s -> (forall a s', Q a s' -> R a s') -> st_wp m R s.
Proof. intros (s1 & a & Hm & HQ) HR. exists s1, a. auto. Qed.

Lemma st_wp_lift {A} (o : outcome E A) a (Q : A -> S -> Prop) s : o = Ok a -> Q a s -> st_wp (st_lift o) Q s.
Proof. intros -> ?. by exists s, a. Qed.
Lemma st_wp_get {A} (f : S -> A) (Q : A -> S -> Prop) s : Q (f s) s -> st_wp (st_get f) Q s.
Proof. intros ?. by exists s, (f s). Qed.
Lemma st_wp_mod (f : S -> S) (Q : unit -> S -> Prop) s : Q tt (f s) -> st_wp (st_mod f) Q s.
Proof. intros ?. by exists (f s), tt. Qed.
Lemma st_wp_ret {A} (a : A) (Q : A -> S -> Prop) s : Q a s -> st_wp (st_ret a) Q s.
Proof. intros ?. by exists s, a. Qed.

(** The rule of [for] loops: an invariant indexed by the iterations to come *)
Lemma st_wp_iter {A} (f : A -> st S E unit) (I : list A -> S -> Prop) l s :
  (forall a l s, I (a :: l) s -> st_wp (f a) (fun _ => I l) s) -> I l s -> st_wp (st_iter f l) (fun _ => I []) s.
Proof.
  intros Hf. revert s. induction l as [|a l IH]; intros s Hs; [by apply st_wp_ret|].
  apply st_wp_bind. eapply st_wp_mono; [by apply Hf|]. intros [] s'. apply IH.
Qed.
End st_ops.

(** What a run does to the state whatever its outcome: [R] relates the state
    before to the state after. *)
Section st_keeps.
Context {S E : Type} (R : S -> S -> Prop) `{!PreOrder R}.

Definition st_keeps {A} (m : st S E A) : Prop := forall s, R s (m s).1.

Lemma keeps_same {A} (f : S -> outcome E A) : st_keeps (fun s => (s, f s)).
Proof using Type*. intros s. reflexivity. Qed.
Lemma keeps_mod (f : S -> S) : (forall s, R s (f s)) -> st_keeps (st_mod f).
Proof. done. Qed.
Lemma keeps_bind {A B} (m : st S E A) (k : A -> st S E B) :
  st_keeps m -> (forall a, st_keeps (k a)) -> st_keeps (st_bind m k).
Proof using Type*.
  intros Hm Hk s. unfold st_bind. specialize (Hm s). destruct (m s) as [s1 [a| |]]; [|done..].
  etransitivity; [apply Hm|apply Hk].
Qed.
Lemma keeps_ret {A} (a : A) : st_keeps (st_ret a).
Proof using Type*. apply keeps_same. Qed.
Lemma keeps_err {A} (e : E) : st_keeps (st_err (A:=A) e).
Proof using Type*. apply keeps_same. Qed.
Lemma keeps_panic {A} : st_keeps (st_panic (A:=A)).
Proof using Type*. apply keeps_same. Qed.
Lemma keeps_lift {A} (o : outcome E A) : st_keeps (st_lift o).
Proof using Type*. apply keeps_same. Qed.
Lemma keeps_get {A} (f : S -> A) : st_keeps (st_get f).
Proof using Type*. apply keeps_same. Qed.
End st_keeps.
Create HintDb keeps.
#[export] Hint Resolve keeps_ret keeps_err keeps_panic keeps_lift keeps_get : keeps.
(** Go through the binds and matches of a definition *)
Ltac keeps_step :=
  first [apply keeps_bind; [typeclasses eauto| |intros ?] | case_match | solve [eauto with keeps typeclass_instances]].

Declare Scope st_scope.
Delimit Scope st_scope with st.
Notation "'let!' x ':=' m 'in' k" := (st_bind m (fun x => k))
  (at level 10, x name, m at level 100, k at level 200) : st_scope.
Notation "'let!' ' p ':=' m 'in' k" := (st_bind m (fun p => k))
  (at level 10, p strict pattern, m at level 100, k at level 200) : st_scope.
Notation "'do!' m 'in' k" := (st_bind m (fun _ => k))
  (at level 10, m at level 100, k at level 200) : st_scope.

(** ** 64-bit unsigned integers

    A [u64] is a [Z]; the operators below write out the range checks of the
    Rust operators. [u64_add] and its siblings are the plain operators [+],
    [-], [*], which stop the thread out of range. *)
Definition U64_MAX : Z := (2 ^ 64 - 1)%Z.
Definition in_u64 (z : Z) : Prop := (0 <= z <= U64_MAX)%Z.

#[export] Instance in_u64_dec z : Decision (in_u64 z).
Proof. unfold in_u64. apply _. Defined.

Section u64_ops.
Local Open Scope Z_scope.

Definition u64_checked_add (a b : Z) : option Z :=
  if a + b <=? U64_MAX then Some (a + b) else None.
Definition u64_checked_sub (a b : Z) : option Z :=
  if b <=? a then Some (a - b) else None.
Definition u64_checked_mul (a b : Z) : option Z :=
  if a * b <=? U64_MAX then Some (a * b) else None.

Definition u64_add {E} (a b : Z) : outcome E Z := unwrap (u64_checked_add a b).
Definition u64_sub {E} (a b : Z) : outcome E Z := unwrap (u64_checked_sub a b).
Definition u64_mul {E} (a b : Z) : outcome E Z := unwrap (u64_checked_mul a b).

Lemma u64_checked_add_Some a b c :
  u64_checked_add a b = Some c <-> c = a + b /\ a + b <= U64_MAX.
Proof.
  unfold u64_checked_add. destruct (Z.leb_spec (a + b) U64_MAX);
    split; intros; simplify_eq; intuition (try discriminate; try lia; congruence).
Qed.

Lemma u64_checked_add_None a b :
  u64_checked_add a b = None <-> U64_MAX < a + b.
Proof.
  unfold u64_checked_add. destruct (Z.leb_spec (a + b) U64_MAX);
    split; intros; simplify_eq; intuition (try discriminate; try lia; congruence).
Qed.

Lemma u64_checked_sub_Some a b c :
  u64_checked_sub a b = Some c <-> c = a - b /\ b <= a.
Proof.
  unfold u64_checked_sub. destruct (Z.leb_spec b a);
    split; intros; simplify_eq; intuition (try discriminate; try lia; congruence).
Qed.

Lemma u64_checked_mul_Some a b c :
  u64_checked_mul a b = Some c <-> c = a * b /\ a * b <= U64_MAX.
Proof.
  unfold u64_checked_mul. destruct (Z.leb_spec (a * b) U64_MAX);
    split; intros; simplify_eq; intuition (try discriminate; try lia; congruence).
Qed.

Lemma u64_add_ok {E} a b : a + b <= U64_MAX -> u64_add (E:=E) a b = Ok (a + b).
Proof. intros. unfold u64_add. apply unwrap_Ok, u64_checked_add_Some. lia. Qed.
Lemma u64_sub_ok {E} a b : b <= a -> u64_sub (E:=E) a b = Ok (a - b).
Proof. intros. unfold u64_sub. apply unwrap_Ok, u64_checked_sub_Some. lia. Qed.
End u64_ops.

(** ** Sums of integer lists *)
Definition sumZ (l : list Z) : Z := foldr Z.add 0%Z l.

#[global] Arguments sumZ : simpl never.

Section sums.
Local Open Scope Z_scope.

Lemma sumZ_nil : sumZ [] = 0.
Proof. done. Qed.

Lemma sumZ_cons z l : sumZ (z :: l) = z + sumZ l.
Proof. done. Qed.

Lemma sumZ_app l k : sumZ (l ++ k) = sumZ l + sumZ k.
Proof. induction l; simpl; rewrite ?sumZ_nil, ?sumZ_cons; lia. Qed.

Lemma sumZ_nonneg l : Forall (fun z => 0 <= z) l -> 0 <= sumZ l.
Proof. induction 1; rewrite ?sumZ_nil, ?sumZ_cons; lia. Qed.

#[export] Instance sumZ_Permutation : Proper (Permutation ==> eq) sumZ.
Proof. induction 1; rewrite ?sumZ_cons; lia. Qed.

Lemma fold_left_add_sumZ l a : fold_left Z.add l a = a + sumZ l.
Proof.
  revert a; induction l; intros; simpl; rewrite ?IHl, ?sumZ_nil, ?sumZ_cons; lia.
Qed.
End sums.

(** ** Sums over finite maps *)
Definition msum `{Countable K} {V} (f : K -> V -> Z) (m : gmap K V) : Z :=
  sumZ ((fun e => f e.1 e.2) <$> map_to_list m).

Section map_sums.
Context `{Countable K} {V : Type} (f : K -> V -> Z).
Local Open Scope Z_scope.

(** The contribution of one key *)
Definition mterm (m : gmap K V) (k : K) : Z := from_option (f k) 0 (m !! k).

Lemma msum_empty : msum f (∅ : gmap K V) = 0.
Proof. unfold msum. by rewrite map_to_list_empty. Qed.

Lemma msum_insert_new (m : gmap K V) k v : m !! k = None -> msum f (<[k := v]> m) = f k v + msum f m.
Proof.
  intros Hk. unfold msum. rewrite map_to_list_insert by done.
  by rewrite fmap_cons, sumZ_cons.
Qed.

Lemma msum_delete (m : gmap K V) k : msum f (delete k m) = msum f m - mterm m k.
Proof.
  unfold mterm. destruct (m !! k) as [v|] eqn:Hk; simpl.
  - rewrite <- (insert_delete_id m k v) at 2 by done.
    rewrite msum_insert_new by apply lookup_delete_eq. lia.
  - rewrite delete_id by done. lia.
Qed.

Lemma msum_insert (m : gmap K V) k v : msum f (<[k := v]> m) = msum f m - mterm m k + f k v.
Proof.
  rewrite <- insert_delete_eq, msum_insert_new by apply lookup_delete_eq.
  rewrite msum_delete. lia.
Qed.

Lemma msum_nonneg (m : gmap K V) : (forall k v, m !! k = Some v -> 0 <= f k v) -> 0 <= msum f m.
Proof.
  intros Hf. unfold msum. apply sumZ_nonneg, Forall_fmap, Forall_forall.
  intros [k v] Hkv. apply Hf. by apply elem_of_map_to_list, list_elem_of_In.
Qed.

Lemma msum_zero (m : gmap K V) : (forall k v, m !! k = Some v -> f k v = 0) -> msum f m = 0.
Proof.
  intros Hf. unfold msum.
  assert (Forall (fun e => f e.1 e.2 = 0) (map_to_list m)) as Hall.
  { apply Forall_forall. intros [k v] Hkv. apply Hf. by apply elem_of_map_to_list, list_elem_of_In. }
  induction Hall as [|e l He _ IH]; [done|]. rewrite fmap_cons, sumZ_cons. lia.
Qed.

Lemma mterm_le_msum (m : gmap K V) k :
  (forall k v, m !! k = Some v -> 0 <= f k v) -> mterm m k <= msum f m.
Proof.
  intros Hf. assert (0 <= msum f (delete k m)) as Hd.
  { apply msum_nonneg. intros k' v Hk'. apply Hf. by apply lookup_delete_Some in Hk' as [_ ?]. }
  rewrite msum_delete in Hd. lia.
Qed.

(** Two maps that agree outside a list of keys differ in sum by the terms of
    these keys. *)
Lemma msum_diff (ks : list K) (m m' : gmap K V) : NoDup ks ->
  (forall k, k ∉ ks -> m !! k = m' !! k) ->
  msum f m' - msum f m = sumZ ((fun k => mterm m' k - mterm m k) <$> ks).
Proof.
  intros Hnd. revert m. induction Hnd as [|k ks Hk Hnd IH]; intros m Hag.
  - assert (m = m') as -> by (apply map_eq; intros; apply Hag, not_elem_of_nil).
    rewrite fmap_nil, sumZ_nil. lia.
  - rewrite fmap_cons, sumZ_cons.
    set (m1 := partial_alter (fun _ => m' !! k) k m).
    assert (msum f m1 = msum f m - mterm m k + mterm m' k) as H1.
    { unfold m1, mterm. destruct (m' !! k) as [v|] eqn:Hm'; simpl.
      - apply msum_insert.
      - change (partial_alter (fun _ => None) k m) with (delete k m).
        rewrite msum_delete. unfold mterm. lia. }
    assert (msum f m' - msum f m1 = sumZ ((fun k => mterm m' k - mterm m k) <$> ks)) as H2.
    { rewrite IH.
      - f_equal. apply list_fmap_ext. intros i k' Hi. f_equal. unfold mterm, m1.
        rewrite lookup_partial_alter_ne; [done|]. intros ->. apply Hk.
        by eapply list_elem_of_lookup_2.
      - intros k' Hk'. unfold m1. destruct (decide (k' = k)) as [-> | Hne].
        + by rewrite lookup_partial_alter_eq.
        + rewrite lookup_partial_alter_ne by done. apply Hag. set_solver. }
    lia.
Qed.

(** The sum over a list of keys that contains all keys with a term *)
Lemma msum_support (ks : list K) (m : gmap K V) : NoDup ks ->
  (forall k, k ∉ ks -> mterm m k = 0) -> msum f m = sumZ (mterm m <$> ks).
Proof.
  intros Hnd Hz. set (rest := filter (fun k => k ∉ ks) (elements (dom m))).
  assert (NoDup (ks ++ rest)) as Hnd'.
  { apply list.NoDup_app. split_and!; [done| |apply list.NoDup_filter, NoDup_elements].
    intros k Hk [Hn _]%list_elem_of_filter. done. }
  pose proof (msum_diff (ks ++ rest) ∅ m Hnd') as Hd. rewrite msum_empty in Hd.
  rewrite fmap_app, sumZ_app in Hd.
  assert (forall l, sumZ ((fun k => mterm m k - mterm ∅ k) <$> l) = sumZ (mterm m <$> l)) as Hl.
  { intros l. f_equal. apply list_fmap_ext. intros i k _. unfold mterm. rewrite lookup_empty. simpl. lia. }
  rewrite !Hl in Hd.
  assert (sumZ (mterm m <$> rest) = 0) as Hr.
  { assert (Forall (fun k => k ∉ ks) rest) as Hall.
    { apply Forall_forall. intros k Hk%list_elem_of_In. by apply list_elem_of_filter in Hk as [? _]. }
    clear -Hz Hall. clearbody rest. induction Hall as [|k l Hk _ IH]; [done|].
    by rewrite fmap_cons, sumZ_cons, IH, (Hz k Hk). }
  rewrite Hr in Hd. rewrite Z.sub_0_r, Z.add_0_r in Hd. apply Hd. intros k Hk.
  rewrite lookup_empty. symmetry. apply not_elem_of_dom. intros Hdom. apply Hk. apply elem_of_app.
  destruct (decide (k ∈ ks)); [by left|]. right. apply list_elem_of_filter. split; [done|].
  by apply elem_of_elements.
Qed.
End map_sums.

(** ** Stable sorting

    [slice::sort_by], and the iteration order of a [BTreeMap] or [BTreeSet]. *)
Section sort_le.
Context {A : Type} (le : A -> A -> bool).

Fixpoint insert_le (x : A) (l : list A) : list A :=
  match l with
  | [] => [x]
  | y :: l' => if le x y then x :: y :: l' else y :: insert_le x l'
  end.
Definition sort_le (l : list A) : list A := foldr insert_le [] l.

Lemma insert_le_perm x l : Permutation (insert_le x l) (x :: l).
Proof.
  induction l as [|y l IH]; simpl; [done|]. destruct (le x y); [done|].
  rewrite IH. constructor.
Qed.

Lemma sort_le_perm l : Permutation (sort_le l) l.
Proof. induction l; simpl; [done|]. by rewrite insert_le_perm, IHl. Qed.

Lemma insert_le_sorted x l : (forall x y, le x y || le y x) ->
  (forall x y z, le x y -> le y z -> le x z) -> StronglySorted le l -> StronglySorted le (insert_le x l).
Proof.
  intros Htot Htr. induction 1 as [|y l Hl IH Hy]; simpl; [repeat constructor|].
  destruct (le x y) eqn:Hxy.
  - constructor; [by constructor|]. constructor; [by rewrite Hxy|].
    eapply Forall_impl; [|exact Hy]. intros z Hz. eapply Htr; [|exact Hz]. by rewrite Hxy.
  - constructor; [done|]. rewrite insert_le_perm. constructor; [|done].
    specialize (Htot x y). by rewrite Hxy in Htot.
Qed.

Lemma sort_le_sorted l : (forall x y, le x y || le y x) ->
  (forall x y z, le x y -> le y z -> le x z) -> StronglySorted le (sort_le l).
Proof. intros Htot Htr. induction l; simpl; [constructor|]. by apply insert_le_sorted. Qed.
End sort_le.

(** Sorting by an integer key *)
Section sort_by.
Context {A : Type} (key : A -> Z).
Local Open Scope Z_scope.

Definition sort_by (l : list A) : list A := sort_le (fun x y => key x <=? key y) l.
Definition key_le (x y : A) : Prop := key x <= key y.

Lemma sort_by_perm l : Permutation (sort_by l) l.
Proof. apply sort_le_perm. Qed.

Lemma insert_by_sorted x l : StronglySorted key_le l ->
  StronglySorted key_le (insert_le (fun x y => key x <=? key y) x l).
Proof.
  induction 1 as [|y l Hl IH Hy]; simpl; [repeat constructor|].
  destruct (Z.leb_spec (key x) (key y)).
  - constructor; [by constructor|]. constructor; [done|].
    eapply Forall_impl; [|exact Hy]. intros z Hz. unfold key_le in *. lia.
  - constructor; [done|]. rewrite insert_le_perm. constructor; [unfold key_le; lia|done].
Qed.

Lemma sort_by_sorted l : StronglySorted key_le (sort_by l).
Proof. unfold sort_by. induction l; simpl; [constructor|]. by apply insert_by_sorted. Qed.

(** A sorted list is left as it is. *)
Lemma sort_by_id l : StronglySorted key_le l -> sort_by l = l.
Proof.
  unfold sort_by. induction 1 as [|x l Hl IH Hx]; simpl; [done|]. rewrite IH.
  destruct Hx as [|y l Hy Hl']; simpl; [done|].
  destruct (Z.leb_spec (key x) (key y)); [done|]. unfold key_le in Hy. lia.
Qed.
End sort_by.

(** The entries of a [BTreeMap] in the order of their keys *)
Definition bt_list {V} (m : gmap Z V) : list (Z * V) := sort_by fst (map_to_list m).

Lemma bt_list_perm {V} (m : gmap Z V) : Permutation (bt_list m) (map_to_list m).
Proof. apply sort_by_perm. Qed.

Lemma elem_of_bt_list {V} (m : gmap Z V) k v : (k, v) ∈ bt_list m <-> m !! k = Some v.
Proof. rewrite bt_list_perm. apply elem_of_map_to_list. Qed.

(** [Iterator::filter] with a test that may stop *)
Fixpoint out_filter {E A} (f : A -> outcome E bool) (l : list A) : outcome E (list A) :=
  match l with
  | [] => Ok []
  | a :: l' =>
      out_bind (f a) (fun b => out_bind (out_filter f l') (fun r => Ok (if b then a :: r else r)))
  end.

(** [Iterator::map] with a function that may stop *)
Fixpoint out_map {E A B} (f : A -> outcome E B) (l : list A) : outcome E (list B) :=
  match l with
  | [] => Ok []
  | a :: l' => out_bind (f a) (fun b => out_bind (out_map f l') (fun r => Ok (b :: r)))
  end.

Lemma out_map_ok {E A B} (f : A -> outcome E B) (g : A -> B) l :
  (forall a, In a l -> f a = Ok (g a)) -> out_map f l = Ok (g <$> l).
Proof.
  induction l as [|a l IH]; intros Hf; [done|]. simpl. rewrite Hf by (by left). simpl.
  by rewrite IH by (intros; apply Hf; by right).
Qed.

Lemma out_filter_ok {E A} (f : A -> outcome E bool) (p : A -> bool) l :
  (forall a, In a l -> f a = Ok (p a)) -> out_filter f l = Ok (List.filter p l).
Proof.
  induction l as [|a l IH]; intros Hf; [done|]. simpl. rewrite Hf by (by left). simpl.
  rewrite IH by (intros; apply Hf; by right). done.
Qed.

(** ** Automation *)
Create HintDb namada.
#[export] Hint Resolve sumZ_nonneg : namada.
#[export] Hint Rewrite @fmap_app @fmap_cons @fmap_nil
  sumZ_app sumZ_cons sumZ_nil : namada.

(** Normalise sums of integer lists. *)
Ltac sum_simpl := autorewrite with namada in *.

(** Steps through a state-passing run under [st_wp] *)
Ltac st_get := apply st_wp_bind, st_wp_get; cbv beta.
Ltac st_mod := apply st_wp_bind, st_wp_mod; cbv beta.
Ltac st_lift tac := apply st_wp_bind; eapply st_wp_lift; [tac|cbv beta].
Ltac st_call lem := apply st_wp_bind; eapply st_wp_mono; [eapply lem|cbv beta].
Ltac st_tail lem := eapply st_wp_mono; [eapply lem|cbv beta].

(** Split every boolean test and [match] in sight. *)
Ltac case_all :=
  repeat (case_match || case_bool_decide || case_decide); simplify_eq/=.
