(* ===== verification/Gas.v ===== *)
(** * Gas metering ([src/core/src/ledger/gas.rs]) *)
From stdpp Require Import base numbers list.
From Stdlib Require Import ZArith Lia.
From S2P Require Import Prelude.
Local Open Scope Z_scope.
Local Open Scope outcome_scope.
Local Open Scope st_scope.

Inductive Error :=
| TransactionGasExceededError
| BlockGasExceeded
| GasOverflow.

#[export] Instance Error_eq_dec : EqDecision Error.
Proof. solve_decision. Defined.

Definition COMPILE_GAS_PER_BYTE : Z := 24.
Definition PARALLEL_GAS_DIVIDER : Z := 10.
Definition WASM_CODE_VALIDATION_GAS_PER_BYTE : Z := 1.
Definition WRAPPER_TX_VALIDATION_GAS : Z := 58371.
Definition PHYSICAL_STORAGE_LATENCY_PER_BYTE : Z := 75.
Definition STORAGE_OCCUPATION_GAS_PER_BYTE : Z :=
  100 + PHYSICAL_STORAGE_LATENCY_PER_BYTE.
Definition NETWORK_TRANSMISSION_GAS_PER_BYTE : Z := 13.
Definition MEMORY_ACCESS_GAS_PER_BYTE : Z := 2.
Definition STORAGE_ACCESS_GAS_PER_BYTE : Z :=
  3 + PHYSICAL_STORAGE_LATENCY_PER_BYTE.
Definition STORAGE_WRITE_GAS_PER_BYTE : Z :=
  MEMORY_ACCESS_GAS_PER_BYTE + 848 + STORAGE_OCCUPATION_GAS_PER_BYTE.
Definition SCALE : Z := 10000.
Definition GAS_LIMIT_RESOLUTION : Z := 1.

Module Meter.

(** Gas in sub-units. *)
Record Gas := mkGas { sub : Z }.

#[export] Instance Gas_eq_dec : EqDecision Gas.
Proof. solve_decision. Defined.

Definition gas_default : Gas := mkGas 0.
Definition gas_wf (g : Gas) : Prop := in_u64 (sub g).

Definition checked_add (g rhs : Gas) : option Gas :=
  mkGas <$> u64_checked_add (sub g) (sub rhs).
Definition checked_sub (g rhs : Gas) : option Gas :=
  mkGas <$> u64_checked_sub (sub g) (sub rhs).
Definition get_whole_gas_units (g : Gas) : outcome Error Z :=
  let quotient := sub g / SCALE in
  if sub g mod SCALE =? 0 then Ok quotient else u64_add quotient 1.
Definition from_whole_units (whole : Z) : outcome Error Gas :=
  let* s := u64_mul whole SCALE in Ok (mkGas s).
Definition gas_div (g : Gas) (rhs : Z) : outcome Error Gas :=
  if rhs =? 0 then Panic else Ok (mkGas (sub g / rhs)).

(** ** [trait GasMetering] *)
Class GasMetering (M : Type) := {
  consume : Z -> st M Error unit;
  get_tx_consumed_gas : M -> Gas;
  get_gas_limit : M -> Gas
}.

Section provided_methods.
Context `{GasMetering M}.

Definition add_compiling_gas (bytes_len : Z) : st M Error unit :=
  let! gas := st_lift
    (ok_or (u64_checked_mul bytes_len COMPILE_GAS_PER_BYTE) GasOverflow) in
  consume gas.

Definition add_wasm_load_from_storage_gas (bytes_len : Z) : st M Error unit :=
  let! gas := st_lift
    (ok_or (u64_checked_mul bytes_len STORAGE_ACCESS_GAS_PER_BYTE)
       GasOverflow) in
  consume gas.

Definition add_wasm_validation_gas (bytes_len : Z) : st M Error unit :=
  let! gas := st_lift
    (ok_or (u64_checked_mul bytes_len WASM_CODE_VALIDATION_GAS_PER_BYTE)
       GasOverflow) in
  consume gas.

(** The costs charged one after the other, each with [?]. *)
Definition consume_all (costs : list Z) : st M Error unit :=
  st_iter consume costs.
End provided_methods.

(** ** Transaction meter *)
Record TxGasMeter := mkTxGasMeter {
  tx_gas_limit : Gas;
  transaction_gas : Gas
}.

Definition tx_consume (gas : Z) : st TxGasMeter Error unit := fun m =>
  match checked_add (transaction_gas m) (mkGas gas) with
  | None => (m, Err GasOverflow)
  | Some g =>
      let m' := mkTxGasMeter (tx_gas_limit m) g in
      if sub (tx_gas_limit m) <? sub g
      then (m', Err TransactionGasExceededError)
      else (m', Ok tt)
  end.

#[export] Instance TxGasMeter_metering : GasMetering TxGasMeter := {
  consume := tx_consume;
  get_tx_consumed_gas := transaction_gas;
  get_gas_limit := tx_gas_limit
}.

(** ** Gas limit of a wrapper transaction
    ([src/core/src/types/transaction/wrapper.rs]) *)
Record GasLimit := mkGasLimit { multiplier : Z }.

Definition gas_limit_from_u64 (amount : Z) : outcome Error GasLimit :=
  let* floor := u64_mul GAS_LIMIT_RESOLUTION (amount / GAS_LIMIT_RESOLUTION) in
  if floor <? amount
  then let* m := u64_add (amount / GAS_LIMIT_RESOLUTION) 1 in Ok (mkGasLimit m)
  else Ok (mkGasLimit (amount / GAS_LIMIT_RESOLUTION)).

Definition gas_limit_to_u64 (limit : GasLimit) : outcome Error Z :=
  u64_mul (multiplier limit) GAS_LIMIT_RESOLUTION.

Definition gas_from_limit (value : GasLimit) : outcome Error Gas :=
  let* v := gas_limit_to_u64 value in
  let* s := u64_mul v SCALE in
  Ok (mkGas s).

Definition tx_meter_new (limit : GasLimit) : outcome Error TxGasMeter :=
  let* g := gas_from_limit limit in Ok (mkTxGasMeter g gas_default).

Definition tx_meter_new_from_sub_limit (limit : Gas) : TxGasMeter :=
  mkTxGasMeter limit gas_default.

Definition add_wrapper_gas (tx_bytes_len : Z) : st TxGasMeter Error unit :=
  let! _ := consume WRAPPER_TX_VALIDATION_GAS in
  let! gas := st_lift
    (ok_or (u64_checked_mul tx_bytes_len
              (STORAGE_OCCUPATION_GAS_PER_BYTE
               + NETWORK_TRANSMISSION_GAS_PER_BYTE)) GasOverflow) in
  consume gas.

Definition get_available_gas (m : TxGasMeter) : Gas :=
  default gas_default (checked_sub (tx_gas_limit m) (transaction_gas m)).

(** ** Validity predicate meter *)
Record VpGasMeter := mkVpGasMeter {
  vp_tx_gas_limit : Gas;
  initial_gas : Gas;
  current_gas : Gas
}.

Definition vp_consume (gas : Z) : st VpGasMeter Error unit := fun m =>
  match checked_add (current_gas m) (mkGas gas) with
  | None => (m, Err GasOverflow)
  | Some g =>
      let m' := mkVpGasMeter (vp_tx_gas_limit m) (initial_gas m) g in
      match checked_add (initial_gas m) g with
      | None => (m', Err GasOverflow)
      | Some current_total =>
          if sub (vp_tx_gas_limit m) <? sub current_total
          then (m', Err TransactionGasExceededError)
          else (m', Ok tt)
      end
  end.

#[export] Instance VpGasMeter_metering : GasMetering VpGasMeter := {
  consume := vp_consume;
  get_tx_consumed_gas := initial_gas;
  get_gas_limit := vp_tx_gas_limit
}.

Definition new_from_tx_meter (m : TxGasMeter) : VpGasMeter :=
  mkVpGasMeter (tx_gas_limit m) (transaction_gas m) gas_default.

(** ** Gas of the validity predicates run in parallel *)
Record VpsGas := mkVpsGas { max : Gas; rest : list Gas }.

Definition vps_default : VpsGas := mkVpsGas gas_default [].

Fixpoint try_sum (acc : Gas) (l : list Gas) : outcome Error Gas :=
  match l with
  | [] => Ok acc
  | g :: l' => let* acc' := ok_or (checked_add acc g) GasOverflow in
               try_sum acc' l'
  end.

Definition get_current_gas (v : VpsGas) : outcome Error Gas :=
  let* total := try_sum gas_default (rest v) in
  let* parallel_gas := gas_div total PARALLEL_GAS_DIVIDER in
  ok_or (checked_add (max v) parallel_gas) GasOverflow.

Definition check_limit `{GasMetering M} (v : VpsGas) (gas_meter : M) :
    outcome Error unit :=
  let* current := get_current_gas v in
  let* total :=
    ok_or (checked_add (get_tx_consumed_gas gas_meter) current) GasOverflow in
  if sub (get_gas_limit gas_meter) <? sub total
  then Err TransactionGasExceededError
  else Ok tt.

Definition vps_set (vp_gas_meter : VpGasMeter) : st VpsGas Error unit := fun v =>
  let v' :=
    if sub (max v) <? sub (current_gas vp_gas_meter)
    then mkVpsGas (current_gas vp_gas_meter) (rest v ++ [max v])
    else mkVpsGas (max v) (rest v ++ [current_gas vp_gas_meter]) in
  (v', check_limit v' vp_gas_meter).

Definition vps_merge (other : VpsGas) (tx_gas_meter : TxGasMeter) :
    st VpsGas Error unit := fun v =>
  let v1 :=
    if sub (max v) <? sub (max other)
    then mkVpsGas (max other) (rest v ++ [max v])
    else mkVpsGas (max v) (rest v ++ [max other]) in
  let v' := mkVpsGas (max v1) (rest v1 ++ rest other) in
  (v', check_limit v' tx_gas_meter).

Definition add_vps_gas (vps_gas : VpsGas) : st TxGasMeter Error unit :=
  let! g := st_lift (get_current_gas vps_gas) in
  consume (sub g).

(** ** What a meter promises

    [used] is the gas a meter has counted so far, against the limit of the
    transaction. *)
Class MeterLaws (M : Type) `{GasMetering M} := {
  used : M -> Z;
  meter_wf : M -> Prop;
  consume_fits (m : M) (g : Z) :
    meter_wf m -> 0 <= g -> used m + g <= sub (get_gas_limit m) ->
    exists m', consume g m = (m', Ok tt) /\ used m' = used m + g;
  consume_exceeds (m : M) (g : Z) :
    meter_wf m -> in_u64 g -> sub (get_gas_limit m) < used m + g ->
    exists m' e, consume g m = (m', Err e) /\
      (e = TransactionGasExceededError /\ used m' = used m + g \/
       e = GasOverflow /\ U64_MAX < used m + g /\ used m <= used m');
  consume_wf (m m' : M) (g : Z) r :
    meter_wf m -> in_u64 g -> consume g m = (m', r) ->
    meter_wf m' /\ get_gas_limit m' = get_gas_limit m
}.

Lemma checked_add_Some g h k :
  checked_add g h = Some k <-> sub k = sub g + sub h /\ sub g + sub h <= U64_MAX.
Proof.
  unfold checked_add. rewrite fmap_Some. setoid_rewrite u64_checked_add_Some.
  destruct k as [k]. split.
  - by intros (? & [-> ?] & [= ->]).
  - simpl; intros [-> ?]. eauto.
Qed.

Lemma checked_add_None g h : checked_add g h = None <-> U64_MAX < sub g + sub h.
Proof. unfold checked_add. by rewrite fmap_None, u64_checked_add_None. Qed.

(** Case analysis on a checked addition, with its arithmetic meaning. *)
Ltac case_checked_add :=
  match goal with
  | |- context [checked_add ?g ?h] =>
      let E := fresh "Hadd" in
      destruct (checked_add g h) eqn:E;
      [apply checked_add_Some in E | apply checked_add_None in E]
  | H : context [checked_add ?g ?h] |- _ =>
      let E := fresh "Hadd" in
      destruct (checked_add g h) eqn:E;
      [apply checked_add_Some in E | apply checked_add_None in E]
  end.
Ltac meter_cases :=
  repeat (case_checked_add || case_match); simplify_eq/=;
  rewrite ?Z.ltb_lt, ?Z.ltb_ge in *.

#[export] Program Instance TxGasMeter_laws : MeterLaws TxGasMeter := {
  used m := sub (transaction_gas m);
  meter_wf m := gas_wf (tx_gas_limit m) /\ gas_wf (transaction_gas m)
}.
Next Obligation.
  intros m g [Hl Hg] H0 Hfit. unfold gas_wf, in_u64 in *. simpl. unfold tx_consume.
  meter_cases; try lia. eexists; split; [done|]. simpl; lia.
Qed.
Next Obligation.
  intros m g [Hl Hg] H0 Hexc. unfold gas_wf, in_u64 in *. simpl. unfold tx_consume.
  meter_cases; try lia; do 2 eexists; (split; [done|]); simpl; intuition lia.
Qed.
Next Obligation.
  intros m m' g r [Hl Hg] H0 Hrun. unfold gas_wf, in_u64 in *.
  simpl in Hrun. unfold tx_consume in Hrun. meter_cases; intuition lia.
Qed.

#[export] Program Instance VpGasMeter_laws : MeterLaws VpGasMeter := {
  used m := sub (initial_gas m) + sub (current_gas m);
  meter_wf m := gas_wf (vp_tx_gas_limit m) /\ gas_wf (initial_gas m) /\
                gas_wf (current_gas m)
}.
Next Obligation.
  intros m g (Hl & Hi & Hc) H0 Hfit. unfold gas_wf, in_u64 in *. simpl.
  unfold vp_consume. meter_cases; try lia. eexists; split; [done|]. simpl; lia.
Qed.
Next Obligation.
  intros m g (Hl & Hi & Hc) H0 Hexc. unfold gas_wf, in_u64 in *. simpl.
  unfold vp_consume.
  meter_cases; try lia; do 2 eexists; (split; [done|]); simpl; intuition lia.
Qed.
Next Obligation.
  intros m m' g r (Hl & Hi & Hc) H0 Hrun. unfold gas_wf, in_u64 in *.
  simpl in Hrun. unfold vp_consume in Hrun. meter_cases; intuition lia.
Qed.

(** Charging the wrapper gas fails with an error, never by a panic. *)
Lemma add_wrapper_gas_total len m : (add_wrapper_gas len m).2 <> Panic.
Proof.
  unfold add_wrapper_gas, st_bind, st_lift, consume, TxGasMeter_metering, tx_consume.
  destruct (checked_add (transaction_gas m) _); [|done]. destruct (_ <? _); [done|].
  destruct (u64_checked_mul len _); cbn [ok_or]; [|done]. cbn [transaction_gas tx_gas_limit].
  destruct (checked_add g _); [|done]. by destruct (_ <? _).
Qed.

Section metering.
Context `{MeterLaws M}.

Lemma consume_inv (m : M) (g : Z) :
  meter_wf m -> in_u64 g ->
  match consume g m with
  | (m', Ok _) => used m' = used m + g /\ used m' <= sub (get_gas_limit m)
  | (m', Err _) => sub (get_gas_limit m) < used m + g /\ used m <= used m'
  | (_, Panic) => False
  end.
Proof.
  intros Hwf Hg.
  destruct (Z.le_gt_cases (used m + g) (sub (get_gas_limit m))) as [Hle|Hgt].
  - destruct (consume_fits m g) as (m' & -> & Hu);
      [done|unfold in_u64 in *; lia|done|]. rewrite Hu. lia.
  - destruct (consume_exceeds m g) as (m' & e & -> & Hu); [done..|lia|].
    unfold in_u64 in *; split; [lia|]. destruct Hu as [[_ Hu]|(_ & _ & Hu)]; lia.
Qed.

(** C36. Metering is exact: from a meter within its limit, charging a list of
    costs one after the other succeeds exactly when their sum fits in what
    the limit leaves, and then the meter has counted that sum. *)
Theorem consume_all_exact (m : M) (costs : list Z) :
  meter_wf m -> Forall in_u64 costs -> used m <= sub (get_gas_limit m) ->
  ((exists m', consume_all costs m = (m', Ok tt)) <->
   used m + sumZ costs <= sub (get_gas_limit m)) /\
  (forall m', consume_all costs m = (m', Ok tt) ->
     used m' = used m + sumZ costs).
Proof.
  unfold consume_all. revert m.
  induction costs as [|g gs IH]; intros m Hwf Hgs Hu; simpl; sum_simpl.
  { split; [split; intros; [lia|by eexists]|]. intros ? [= <-]. lia. }
  apply Forall_cons in Hgs as [Hg Hgs].
  assert (0 <= sumZ gs) as Hs.
  { apply sumZ_nonneg. eapply Forall_impl; [exact Hgs|]. unfold in_u64; lia. }
  pose proof (consume_inv m g Hwf Hg) as Hstep. unfold st_bind.
  destruct (consume g m) as [m1 [[]|e|]] eqn:Hc; [|split|done].
  - destruct (consume_wf m m1 g _ Hwf Hg Hc) as [Hwf1 Hlim].
    destruct Hstep as [Hu1 Hle]. rewrite <-Hlim in Hle.
    specialize (IH m1 Hwf1 Hgs Hle) as [IHiff IHval].
    rewrite Hlim, Hu1 in *. split; [rewrite IHiff; lia|].
    intros m' Hrun. rewrite (IHval m' Hrun). lia.
  - split; [by intros [? ?]|lia].
  - done.
Qed.

(** Running out of gas is final: once a charge has been refused for
    exceeding the limit, every later sequence of charges on the meter is
    refused. *)
Theorem consume_exceeded_sticky (m m' : M) (g : Z) (costs : list Z) :
  meter_wf m -> in_u64 g -> Forall in_u64 costs -> costs <> [] ->
  consume g m = (m', Err TransactionGasExceededError) ->
  exists m'' e, consume_all costs m' = (m'', Err e).
Proof.
  intros Hwf Hg Hcosts Hne Hc.
  assert (sub (get_gas_limit m) < used m') as Hover.
  { destruct (Z.le_gt_cases (used m + g) (sub (get_gas_limit m))) as [Hle|Hgt].
    - destruct (consume_fits m g) as (? & Hc' & _);
        [done|unfold in_u64 in *; lia|done|]. congruence.
    - destruct (consume_exceeds m g) as (? & e & Hc' & Hu); [done..|lia|].
      rewrite Hc in Hc'. simplify_eq.
      destruct Hu as [[_ Hu]|(? & _)]; [lia|done]. }
  destruct (consume_wf m m' g _ Hwf Hg Hc) as [Hwf' Hlim].
  destruct costs as [|h hs]; [done|]. apply Forall_cons in Hcosts as [Hh _].
  destruct (consume_exceeds m' h) as (m'' & e & Hrun & _);
    [done|done|rewrite Hlim; unfold in_u64 in *; lia|].
  exists m'', e. unfold consume_all. simpl. unfold st_bind. by rewrite Hrun.
Qed.
End metering.

Definition meter_example : TxGasMeter := mkTxGasMeter (mkGas 100) (mkGas 10).

Lemma consume_all_exact_witness :
  exists m', consume_all [30; 60] meter_example = (m', Ok tt) /\ used m' = 100.
Proof.
  destruct (consume_all_exact meter_example [30; 60]) as [Hiff Hval];
    [vm_compute; intuition congruence|repeat constructor; vm_compute; congruence
    |vm_compute; congruence|].
  destruct Hiff as [_ Hrun]. destruct Hrun as [m' Hm']; [vm_compute; congruence|].
  exists m'. split; [exact Hm'|]. exact (Hval m' Hm').
Defined.

Lemma consume_exceeded_sticky_witness :
  exists m'' e,
    consume_all [1; 2] (mkTxGasMeter (mkGas 100) (mkGas 110)) = (m'', Err e).
Proof.
  apply (consume_exceeded_sticky meter_example _ 100 [1; 2]);
    [vm_compute; intuition congruence|vm_compute; intuition congruence
    |repeat constructor; vm_compute; congruence|done|reflexivity].
Defined.

(** ** Parallel runs of validity predicates *)

(** The gas counts gathered in a [VpsGas], the largest one included. *)
Definition bag (v : VpsGas) : list Z := sub (max v) :: (sub <$> rest v).
Definition vps_wf (v : VpsGas) : Prop :=
  gas_wf (max v) /\ Forall (fun g => gas_wf g /\ sub g <= sub (max v)) (rest v).

Lemma try_sum_spec l acc :
  Forall gas_wf l -> gas_wf acc ->
  try_sum acc l =
    if sub acc + sumZ (sub <$> l) <=? U64_MAX
    then Ok (mkGas (sub acc + sumZ (sub <$> l))) else Err GasOverflow.
Proof.
  revert acc. induction l as [|g l IH]; intros acc Hl Hacc; csimpl; sum_simpl.
  { simpl. rewrite Z.add_0_r. unfold gas_wf, in_u64 in Hacc.
    destruct (Z.leb_spec (sub acc) U64_MAX); [by destruct acc|lia]. }
  apply Forall_cons in Hl as [Hg Hl].
  assert (0 <= sumZ (sub <$> l)).
  { apply sumZ_nonneg, Forall_fmap. eapply Forall_impl; [exact Hl|].
    unfold gas_wf, in_u64; simpl; lia. }
  unfold gas_wf, in_u64 in *. case_checked_add; simpl.
  - rewrite IH; [|done|lia]. destruct Hadd as [-> ?].
    by rewrite Z.add_assoc.
  - by rewrite (proj2 (Z.leb_gt _ _)) by lia.
Qed.

(** What [get_current_gas] computes, as a function of the largest count and of
    the sum of all counts. *)
Definition parallel_gas_spec (m total : Z) : outcome Error Gas :=
  if total - m <=? U64_MAX
  then if m + (total - m) / PARALLEL_GAS_DIVIDER <=? U64_MAX
       then Ok (mkGas (m + (total - m) / PARALLEL_GAS_DIVIDER))
       else Err GasOverflow
  else Err GasOverflow.

Lemma get_current_gas_spec v :
  vps_wf v -> get_current_gas v = parallel_gas_spec (sub (max v)) (sumZ (bag v)).
Proof.
  intros [Hm Hr]. unfold get_current_gas, parallel_gas_spec, bag. sum_simpl.
  rewrite try_sum_spec; [|eapply Forall_impl; [exact Hr|]; by intros ? []
                         |vm_compute; intuition congruence]. simpl.
  replace (sub (max v) + sumZ (sub <$> rest v) - sub (max v))
    with (sumZ (sub <$> rest v)) by lia.
  change (0 + sumZ (sub <$> rest v)) with (sumZ (sub <$> rest v)).
  case_match; simpl; [|done]. case_checked_add; simpl in *.
  - destruct Hadd as [Hg ?]. destruct g; simpl in *. subst.
    rewrite (proj2 (Z.leb_le _ _)) by lia. done.
  - rewrite (proj2 (Z.leb_gt _ _)) by lia. done.
Qed.

(** The gas counts that a run of the predicates gathers: the parallel runs
    start from the default value, record one predicate at a time with [set],
    and are joined with [merge]. Errors do not undo the recording. *)
Inductive vps_run : list Z -> VpsGas -> Prop :=
| vps_run_default : vps_run [] vps_default
| vps_run_set gs v v' (m : VpGasMeter) r :
    vps_run gs v -> gas_wf (current_gas m) -> vps_set m v = (v', r) ->
    vps_run (sub (current_gas m) :: gs) v'
| vps_run_merge gs hs v w v' (m : TxGasMeter) r :
    vps_run gs v -> vps_run hs w -> vps_merge w m v = (v', r) ->
    vps_run (gs ++ hs) v'.

(** Recording one more count, the step shared by [set] and [merge]. *)
Definition record_gas (g : Gas) (v : VpsGas) : VpsGas :=
  if sub (max v) <? sub g
  then mkVpsGas g (rest v ++ [max v])
  else mkVpsGas (max v) (rest v ++ [g]).

Lemma rest_le_mono (l : list Gas) (m n : Z) :
  m <= n ->
  Forall (fun g => gas_wf g /\ sub g <= m) l ->
  Forall (fun g => gas_wf g /\ sub g <= n) l.
Proof. intros ? Hl. eapply Forall_impl; [exact Hl|]. intros ? []; split; [done|lia]. Qed.

Lemma record_gas_spec g v :
  gas_wf g -> vps_wf v ->
  vps_wf (record_gas g v) /\ sumZ (bag (record_gas g v)) = sub g + sumZ (bag v) /\
  sub (max (record_gas g v)) = Z.max (sub g) (sub (max v)).
Proof.
  intros Hg [Hm Hr]. unfold record_gas, vps_wf, bag.
  destruct (Z.ltb_spec (sub (max v)) (sub g)) as [Hlt|Hge]; simpl; sum_simpl; simpl.
  - split; [|split; lia]. split; [done|]. apply Forall_app; split.
    + eapply rest_le_mono; [|exact Hr]. lia.
    + repeat constructor; [apply Hm..|lia].
  - split; [|split; lia]. split; [done|]. apply Forall_app; split; [done|].
    repeat constructor; [apply Hg..|lia].
Qed.

Lemma foldr_max_app (gs hs : list Z) :
  foldr Z.max 0 (gs ++ hs) = Z.max (foldr Z.max 0 gs) (foldr Z.max 0 hs).
Proof.
  assert (forall l, 0 <= foldr Z.max 0 l) as Hpos by (intros l; induction l; simpl; lia).
  induction gs; simpl; [|lia]. specialize (Hpos hs). lia.
Qed.

Lemma vps_run_wf gs v :
  vps_run gs v ->
  vps_wf v /\ sumZ (bag v) = sumZ gs /\ sub (max v) = foldr Z.max 0 gs.
Proof.
  induction 1 as [|gs v v' m r _ (Hwf & Hsum & Hmax) Hm Hset
                 |gs hs v w v' m r _ (Hwf & Hsum & Hmax) _ (Hwf' & Hsum' & Hmax') Hmg].
  - split; [split; [by vm_compute|by constructor]|done].
  - injection Hset as <- _. change (if _ <? _ then _ else _)
      with (record_gas (current_gas m) v).
    destruct (record_gas_spec (current_gas m) v) as (? & -> & ->); [done..|].
    split; [done|]. sum_simpl. simpl. lia.
  - injection Hmg as <- _. change (if _ <? _ then _ else _)
      with (record_gas (max w) v).
    destruct (record_gas_spec (max w) v) as ([Hm Hr] & Hs & Hmx); [apply Hwf'|done|].
    rewrite foldr_max_app, <-Hmax, <-Hmax'.
    unfold vps_wf, bag in *; simpl in *. sum_simpl. split; [|split; lia].
    split; [done|]. apply Forall_app; split; [done|].
    eapply rest_le_mono; [|apply Hwf']. lia.
Qed.

Lemma foldr_max_Permutation (l k : list Z) :
  l ≡ₚ k -> foldr Z.max 0 l = foldr Z.max 0 k.
Proof. induction 1; simpl; lia. Qed.

(** The gas charged for the validity predicates does not depend on how
    their runs are scheduled: any two ways of recording and merging the same
    gas counts give the same result of [get_current_gas], errors included. *)
Theorem vps_gas_schedule_independent gs hs v w :
  vps_run gs v -> vps_run hs w -> gs ≡ₚ hs ->
  get_current_gas v = get_current_gas w.
Proof.
  intros Hv Hw Hperm.
  apply vps_run_wf in Hv as (Hwf & Hsum & Hmax), Hw as (Hwf' & Hsum' & Hmax').
  rewrite !get_current_gas_spec by done.
  rewrite Hsum, Hsum', Hmax, Hmax'.
  by rewrite (foldr_max_Permutation _ _ Hperm), (sumZ_Permutation _ _ Hperm).
Qed.

Definition vp_meter (gas : Z) : VpGasMeter :=
  mkVpGasMeter (mkGas 1000) (mkGas 0) (mkGas gas).

Lemma vps_gas_schedule_independent_witness :
  get_current_gas (mkVpsGas (mkGas 50) [mkGas 0; mkGas 30]) =
  get_current_gas (mkVpsGas (mkGas 50) [mkGas 0; mkGas 30; mkGas 0]).
Proof.
  apply (vps_gas_schedule_independent [30; 50] ([50] ++ [30])).
  - eapply (vps_run_set [50] (mkVpsGas (mkGas 50) [mkGas 0]) _ (vp_meter 30));
      [|by vm_compute|reflexivity].
    eapply (vps_run_set [] vps_default _ (vp_meter 50)); [|by vm_compute|reflexivity].
    constructor.
  - eapply (vps_run_merge [50] [30] (mkVpsGas (mkGas 50) [mkGas 0])
              (mkVpsGas (mkGas 30) [mkGas 0]) _
              (mkTxGasMeter (mkGas 1000) (mkGas 0))); [..|reflexivity].
    + eapply (vps_run_set [] vps_default _ (vp_meter 50)); [|by vm_compute|reflexivity].
      constructor.
    + eapply (vps_run_set [] vps_default _ (vp_meter 30)); [|by vm_compute|reflexivity].
      constructor.
  - constructor.
Defined.

(** Whole gas units are the sub-units divided by [SCALE] and rounded up, the
    computation never overflows, and converting whole units to gas and back
    gives the same number. *)
Theorem whole_gas_units_ceil (g : Gas) :
  gas_wf g ->
  (exists w, get_whole_gas_units g = Ok w /\ 0 <= w /\
             (w - 1) * SCALE < sub g <= w * SCALE) /\
  (forall w, from_whole_units w = Ok g -> get_whole_gas_units g = Ok w).
Proof.
  unfold gas_wf, in_u64, get_whole_gas_units, from_whole_units. intros Hg.
  assert (SCALE = 10000) as HS by done.
  pose proof (Z.div_mod (sub g) SCALE ltac:(done)) as Hdm.
  pose proof (Z.mod_pos_bound (sub g) SCALE ltac:(done)) as Hmb.
  assert (U64_MAX = 18446744073709551615) as HM by done.
  split.
  - destruct (Z.eqb_spec (sub g mod SCALE) 0) as [H0|H0].
    + eexists; split; [reflexivity|]. lia.
    + rewrite u64_add_ok by lia. eexists; split; [reflexivity|]. lia.
  - intros w Hw. apply out_bind_Ok in Hw as (s & Hs & [= <-]). simpl in *.
    apply unwrap_Ok, u64_checked_mul_Some in Hs as [-> _].
    rewrite Z.mod_mul, Z.div_mul by done. done.
Qed.

Lemma whole_gas_units_ceil_witness :
  (exists w, get_whole_gas_units (mkGas 10001) = Ok w /\ 0 <= w /\
             (w - 1) * SCALE < 10001 <= w * SCALE).
Proof. apply (whole_gas_units_ceil (mkGas 10001)). vm_compute; intuition congruence. Defined.

End Meter.
