(* ===== verification/Uint.v ===== *)
(** * 256-bit integers: [core/src/types/uint.rs]

    [Uint] is generated by the [construct_uint!] macro of the external crate
    [uint]; its generated methods are the operations of the class [UintOps],
    what the code relies on is the class [UintLaws], and [uint_ref] is a
    concrete implementation used by the witnesses. On top of it this file has
    the methods the repository defines itself: the binary greatest common
    divisor, two's complement negation and the signed type [I256]. A [Uint] is
    its value, a [Z] in the range of 256 bits; [word x i] is the [i]-th limb
    [x.0[i]]. The 512-bit division is in [Uint512]. *)

From S2P Require Import Prelude.
From stdpp Require Import base numbers list option.
From Stdlib Require Import ZArith Lia Znumtheory.
Local Open Scope Z_scope.
Local Open Scope outcome_scope.

(** ** Limbs *)
Definition W : Z := 2 ^ 64.

(** The value of an array of limbs, least significant first. *)
Fixpoint val (ws : list Z) : Z :=
  match ws with
  | [] => 0
  | w :: ws' => w + W * val ws'
  end.

(** [x.0[i]] *)
Definition word (x : Z) (i : nat) : Z := (x / W ^ Z.of_nat i) `mod` W.

(** [x.0] *)
Definition words4 (x : Z) : list Z := word x <$> [0; 1; 2; 3]%nat.

Definition is_word (w : Z) : Prop := 0 <= w < W.

(** [u64::leading_zeros] *)
Definition u64_leading_zeros (w : Z) : Z :=
  if w =? 0 then 64 else 63 - Z.log2 w.

Definition MAX_VALUE : Z := val [U64_MAX; U64_MAX; U64_MAX; U64_MAX].
Definition MAX_SIGNED_VALUE : Z :=
  val [U64_MAX; U64_MAX; U64_MAX; 9223372036854775807].
Definition MINUS_ZERO : Z := val [0; 0; 0; 9223372036854775808].

Definition in_u256 (x : Z) : Prop := 0 <= x <= MAX_VALUE.

#[export] Instance in_u256_dec x : Decision (in_u256 x).
Proof. unfold in_u256. apply _. Defined.

Lemma MAX_VALUE_eq : MAX_VALUE = 2 ^ 256 - 1.
Proof. reflexivity. Qed.
Lemma MAX_SIGNED_VALUE_eq : MAX_SIGNED_VALUE = 2 ^ 255 - 1.
Proof. reflexivity. Qed.
Lemma MINUS_ZERO_eq : MINUS_ZERO = 2 ^ 255.
Proof. reflexivity. Qed.

(** ** The generated type

    [None] in the result of an operator ([+], [-], [*], [/], [%]) is the
    panic the crate documents. *)
Class UintOps : Type := {
  uint_checked_add : Z -> Z -> option Z;
  uint_checked_sub : Z -> Z -> option Z;
  uint_checked_mul : Z -> Z -> option Z;
  uint_checked_div : Z -> Z -> option Z;
  uint_checked_pow : Z -> Z -> option Z;
  uint_overflowing_add : Z -> Z -> Z * bool;
  uint_op_add : Z -> Z -> option Z;
  uint_op_sub : Z -> Z -> option Z;
  uint_op_mul : Z -> Z -> option Z;
  uint_div_mod : Z -> Z -> option (Z * Z);
  uint_exp10 : Z -> option Z;
  uint_shl : Z -> Z -> Z;
  uint_shr : Z -> Z -> Z;
  uint_bitor : Z -> Z -> Z;
  uint_bitand : Z -> Z -> Z;
  uint_trailing_zeros : Z -> Z;
  uint_bits : Z -> Z;
  (* helpers the macro generates for its own division *)
  uint_words : Z -> Z;
  uint_div_mod_word : Z -> Z -> Z -> Z * Z;
  uint_split_u128 : Z -> Z * Z;
  uint_full_mul_u64 : Z -> Z -> list Z;
  uint_full_mul : Z -> Z -> list Z;
  uint_sub_slice : list Z -> list Z -> list Z * bool;
  uint_add_slice : list Z -> list Z -> list Z * bool
}.

(** The documented behaviour, on values in range. *)
Class UintLaws (U : UintOps) : Prop := {
  uint_checked_add_law a b : in_u256 a -> in_u256 b ->
    uint_checked_add a b = if a + b <=? MAX_VALUE then Some (a + b) else None;
  uint_checked_sub_law a b : in_u256 a -> in_u256 b ->
    uint_checked_sub a b = if b <=? a then Some (a - b) else None;
  uint_checked_mul_law a b : in_u256 a -> in_u256 b ->
    uint_checked_mul a b = if a * b <=? MAX_VALUE then Some (a * b) else None;
  uint_checked_div_law a b : in_u256 a -> in_u256 b ->
    uint_checked_div a b = if b =? 0 then None else Some (a / b);
  uint_checked_pow_law a b : in_u256 a -> in_u256 b ->
    uint_checked_pow a b = if a ^ b <=? MAX_VALUE then Some (a ^ b) else None;
  uint_overflowing_add_law a b : in_u256 a -> in_u256 b ->
    uint_overflowing_add a b = ((a + b) `mod` 2 ^ 256, MAX_VALUE <? a + b);
  uint_op_add_law a b : in_u256 a -> in_u256 b ->
    uint_op_add a b = if a + b <=? MAX_VALUE then Some (a + b) else None;
  uint_op_sub_law a b : in_u256 a -> in_u256 b ->
    uint_op_sub a b = if b <=? a then Some (a - b) else None;
  uint_op_mul_law a b : in_u256 a -> in_u256 b ->
    uint_op_mul a b = if a * b <=? MAX_VALUE then Some (a * b) else None;
  uint_div_mod_law a b : in_u256 a -> in_u256 b ->
    uint_div_mod a b = if b =? 0 then None else Some (a / b, a `mod` b);
  uint_exp10_law n : 0 <= n <= 255 ->
    uint_exp10 n = if 10 ^ n <=? MAX_VALUE then Some (10 ^ n) else None;
  uint_shl_law a s : in_u256 a -> 0 <= s < 256 ->
    uint_shl a s = (a * 2 ^ s) `mod` 2 ^ 256;
  uint_shr_law a s : in_u256 a -> 0 <= s < 256 -> uint_shr a s = a / 2 ^ s;
  uint_bitor_law a b : in_u256 a -> in_u256 b -> uint_bitor a b = Z.lor a b;
  uint_bitand_law a b : in_u256 a -> in_u256 b -> uint_bitand a b = Z.land a b;
  uint_trailing_zeros_law a : in_u256 a -> a <> 0 ->
    0 <= uint_trailing_zeros a /\
    exists k, a = 2 ^ uint_trailing_zeros a * k /\ Z.Odd k;
  uint_bits_law a : in_u256 a ->
    uint_bits a = if a =? 0 then 0 else Z.log2 a + 1;
  uint_words_law b : 0 < b -> uint_words b = (b + 63) / 64;
  uint_div_mod_word_law h l y : is_word h -> is_word l -> is_word y -> h < y ->
    uint_div_mod_word h l y = ((h * W + l) / y, (h * W + l) `mod` y);
  uint_split_u128_law x : 0 <= x < W * W -> uint_split_u128 x = (x / W, x `mod` W);
  uint_full_mul_u64_law a q : in_u256 a -> is_word q ->
    length (uint_full_mul_u64 a q) = 5%nat /\
    Forall is_word (uint_full_mul_u64 a q) /\ val (uint_full_mul_u64 a q) = a * q;
  uint_full_mul_law a b : in_u256 a -> in_u256 b ->
    length (uint_full_mul a b) = 8%nat /\
    Forall is_word (uint_full_mul a b) /\ val (uint_full_mul a b) = a * b;
  (* [a -= b] over the common length, with the borrow out of the last pair *)
  uint_sub_slice_law a b : Forall is_word a -> Forall is_word b ->
    (length b <= length a)%nat ->
    exists lo, length lo = length b /\ Forall is_word lo /\
      (uint_sub_slice a b).1 = lo ++ drop (length b) a /\
      val lo = val (take (length b) a) - val b
               + (if (uint_sub_slice a b).2 then W ^ Z.of_nat (length b) else 0);
  uint_add_slice_law a b : Forall is_word a -> Forall is_word b ->
    (length b <= length a)%nat ->
    exists lo, length lo = length b /\ Forall is_word lo /\
      (uint_add_slice a b).1 = lo ++ drop (length b) a /\
      val lo = val (take (length b) a) + val b
               - (if (uint_add_slice a b).2 then W ^ Z.of_nat (length b) else 0)
}.

(** ** Limb lists *)
Lemma W_pos : 0 < W.
Proof. done. Qed.
#[export] Hint Resolve W_pos : namada.

Lemma val_app ws vs : val (ws ++ vs) = val ws + W ^ Z.of_nat (length ws) * val vs.
Proof.
  induction ws as [|w ws IH]; cbn [val app length]; [lia|].
  rewrite IH, Nat2Z.inj_succ, Z.pow_succ_r by lia. ring.
Qed.

Lemma val_bounds ws : Forall is_word ws -> 0 <= val ws < W ^ Z.of_nat (length ws).
Proof.
  induction 1 as [|w ws Hw _ IH]; cbn [val length]; [lia|].
  rewrite Nat2Z.inj_succ, Z.pow_succ_r by lia. unfold is_word in Hw. nia.
Qed.

Lemma word_is_word x i : is_word (word x i).
Proof. apply Z.mod_pos_bound, W_pos. Qed.

(** The limbs of a number below [W ^ n]. *)
Fixpoint limbs (n : nat) (x : Z) : list Z :=
  match n with
  | O => []
  | S n' => x `mod` W :: limbs n' (x / W)
  end.

Lemma limbs_length n x : length (limbs n x) = n.
Proof. revert x; induction n; intros; simpl; auto. Qed.

Lemma limbs_words n x : Forall is_word (limbs n x).
Proof.
  revert x; induction n; intros; simpl; constructor; auto.
  apply Z.mod_pos_bound, W_pos.
Qed.

Lemma val_limbs n x : 0 <= x < W ^ Z.of_nat n -> val (limbs n x) = x.
Proof.
  revert x; induction n as [|n IH]; intros x Hx; cbn [limbs val]; [simpl in Hx; lia|].
  rewrite Nat2Z.inj_succ, Z.pow_succ_r in Hx by lia.
  pose proof (Z_div_mod_eq_full x W). pose proof W_pos.
  rewrite IH; [lia|]. split; [apply Z.div_pos; lia|apply Z.div_lt_upper_bound; lia].
Qed.

Lemma limbs_val ws : Forall is_word ws -> limbs (length ws) (val ws) = ws.
Proof.
  induction 1 as [|w ws Hw _ IH]; cbn [limbs val length]; [done|].
  unfold is_word in Hw. rewrite Z.add_comm, Z.mul_comm.
  rewrite Z.div_add_l, Z.add_comm, Z_mod_plus_full, Z.mod_small by lia.
  rewrite (Z.div_small w), Z.add_0_r by lia. by rewrite IH.
Qed.

(** Equal values, equal limbs. *)
Lemma val_inj ws vs : Forall is_word ws -> Forall is_word vs ->
  length ws = length vs -> val ws = val vs -> ws = vs.
Proof.
  intros Hw Hv Hl Hval. rewrite <- (limbs_val ws), <- (limbs_val vs) by done.
  by rewrite Hl, Hval.
Qed.

Lemma words4_limbs x : words4 x = limbs 4 x.
Proof.
  unfold words4, word. cbn [fmap list_fmap limbs].
  rewrite !Z.div_div by (unfold W; lia).
  change (W ^ Z.of_nat 0) with 1. rewrite Z.div_1_r. reflexivity.
Qed.

Lemma val_words4 x : in_u256 x -> val (words4 x) = x.
Proof.
  intros Hx. rewrite words4_limbs. apply val_limbs.
  unfold in_u256 in Hx. rewrite MAX_VALUE_eq in Hx. change (W ^ Z.of_nat 4) with (2 ^ 256). lia.
Qed.

(** ** A concrete implementation *)
Module Ref.
Fixpoint ctz (p : positive) : Z :=
  match p with
  | xO p' => 1 + ctz p'
  | _ => 0
  end.

Definition trailing_zeros (x : Z) : Z :=
  match x with
  | Zpos p => ctz p
  | _ => 256
  end.

(** Limb by limb addition of [s * b] with carry, [s] the sign. *)
Fixpoint slice (s : Z) (a b : list Z) (c : Z) : list Z * Z :=
  match a, b with
  | x :: a', y :: b' =>
      let t := x + s * y + c in
      let '(r, c') := slice s a' b' (t / W) in (t `mod` W :: r, c')
  | _, _ => (a, c)
  end.

Definition capped (x : Z) : option Z := if x <=? MAX_VALUE then Some x else None.

Definition uint_ref : UintOps := {|
  uint_checked_add a b := capped (a + b);
  uint_checked_sub a b := if b <=? a then Some (a - b) else None;
  uint_checked_mul a b := capped (a * b);
  uint_checked_div a b := if b =? 0 then None else Some (a / b);
  uint_checked_pow a b := capped (a ^ b);
  uint_overflowing_add a b := ((a + b) `mod` 2 ^ 256, MAX_VALUE <? a + b);
  uint_op_add a b := capped (a + b);
  uint_op_sub a b := if b <=? a then Some (a - b) else None;
  uint_op_mul a b := capped (a * b);
  uint_div_mod a b := if b =? 0 then None else Some (a / b, a `mod` b);
  uint_exp10 n := capped (10 ^ n);
  uint_shl a s := (a * 2 ^ s) `mod` 2 ^ 256;
  uint_shr a s := a / 2 ^ s;
  uint_bitor := Z.lor;
  uint_bitand := Z.land;
  uint_trailing_zeros := trailing_zeros;
  uint_bits a := if a =? 0 then 0 else Z.log2 a + 1;
  uint_words b := (b + 63) / 64;
  uint_div_mod_word h l y := ((h * W + l) / y, (h * W + l) `mod` y);
  uint_split_u128 x := (x / W, x `mod` W);
  uint_full_mul_u64 a q := limbs 5 (a * q);
  uint_full_mul a b := limbs 8 (a * b);
  uint_sub_slice a b := let '(r, c) := slice (-1) a b 0 in (r, c <? 0);
  uint_add_slice a b := let '(r, c) := slice 1 a b 0 in (r, 0 <? c)
|}.

Lemma ctz_spec p : 0 <= ctz p /\ exists k, Zpos p = 2 ^ ctz p * k /\ Z.Odd k.
Proof.
  induction p as [p _|p [IHp (k & Hk & Ho)]|]; cbn [ctz].
  - split; [lia|]. exists (Zpos p~1). split; [lia|]. exists (Zpos p). lia.
  - split; [lia|]. exists k. split; [|done].
    rewrite Z.pow_add_r, (Pos2Z.inj_xO p), Hk by lia. ring.
  - split; [lia|]. exists 1. split; [lia|]. by exists 0.
Qed.

Lemma slice_spec s a b c : Forall is_word a -> Forall is_word b ->
  (length b <= length a)%nat ->
  exists lo, length lo = length b /\ Forall is_word lo /\
    (slice s a b c).1 = lo ++ drop (length b) a /\
    val lo = val (take (length b) a) + s * val b + c
             - (slice s a b c).2 * W ^ Z.of_nat (length b).
Proof.
  intros Ha Hb. revert a Ha c.
  induction Hb as [|y b Hy Hb IH]; intros a Ha c Hl.
  - exists []. destruct Ha; simpl; repeat split; auto; lia.
  - destruct Ha as [|x a Hx Ha]; simpl in Hl; [lia|].
    destruct (IH a Ha ((x + s * y + c) / W)) as (lo & Hlo & Hw & He & Hv); [lia|].
    exists ((x + s * y + c) `mod` W :: lo). cbn [slice length take drop val].
    destruct (slice s a b ((x + s * y + c) / W)) as [r c'] eqn:E.
    cbn [fst snd] in *. split; [by rewrite Hlo|]. split.
    + constructor; [apply Z.mod_pos_bound, W_pos|done].
    + split; [by rewrite He|]. rewrite Hv, Nat2Z.inj_succ, Z.pow_succ_r by lia.
      pose proof (Z_div_mod_eq_full (x + s * y + c) W). nia.
Qed.

Lemma slice_carry s a b c : -1 <= s <= 1 -> Forall is_word a -> Forall is_word b ->
  Z.min s 0 <= c <= Z.max s 0 -> Z.min s 0 <= (slice s a b c).2 <= Z.max s 0.
Proof.
  intros Hs Ha Hb. revert a Ha c.
  induction Hb as [|y b Hy Hb IH]; intros a Ha c Hc; destruct Ha as [|x a Hx Ha];
    cbn [slice]; [done..|].
  destruct (slice s a b _) as [r c'] eqn:E. cbn [snd].
  specialize (IH a Ha ((x + s * y + c) / W)). rewrite E in IH. apply IH.
  pose proof (Z_div_mod_eq_full (x + s * y + c) W).
  pose proof (Z.mod_pos_bound (x + s * y + c) W W_pos). unfold is_word in *.
  assert (s = -1 \/ s = 0 \/ s = 1) as [-> | [-> | ->]] by lia; nia.
Qed.

Lemma uint_ref_laws : UintLaws uint_ref.
Proof.
  constructor; try done.
  - intros [|p|p] Ha Hn; [done| |unfold in_u256 in Ha; lia]. apply ctz_spec.
  - intros a q Ha Hq. cbn [uint_full_mul_u64 uint_ref]. split; [apply limbs_length|].
    split; [apply limbs_words|]. apply val_limbs.
    change (W ^ Z.of_nat 5) with (2 ^ 256 * W). unfold in_u256, is_word in *.
    rewrite MAX_VALUE_eq in Ha. nia.
  - intros a b Ha Hb. cbn [uint_full_mul uint_ref]. split; [apply limbs_length|].
    split; [apply limbs_words|]. apply val_limbs.
    change (W ^ Z.of_nat 8) with (2 ^ 256 * 2 ^ 256). unfold in_u256 in *.
    rewrite MAX_VALUE_eq in *. nia.
  - intros a b Ha Hb Hl. cbn [uint_sub_slice uint_ref].
    destruct (slice_spec (-1) a b 0 Ha Hb Hl) as (lo & ? & ? & He & Hv).
    pose proof (slice_carry (-1) a b 0 ltac:(lia) Ha Hb ltac:(lia)) as Hc.
    destruct (slice (-1) a b 0) as [r c]. cbn [fst snd] in *.
    exists lo. do 3 (split; [done|]). destruct (Z.ltb_spec c 0).
    + assert (c = -1) as -> by lia. lia.
    + assert (c = 0) as -> by lia. lia.
  - intros a b Ha Hb Hl. cbn [uint_add_slice uint_ref].
    destruct (slice_spec 1 a b 0 Ha Hb Hl) as (lo & ? & ? & He & Hv).
    pose proof (slice_carry 1 a b 0 ltac:(lia) Ha Hb ltac:(lia)) as Hc.
    destruct (slice 1 a b 0) as [r c]. cbn [fst snd] in *.
    exists lo. do 3 (split; [done|]). destruct (Z.ltb_spec 0 c).
    + assert (c = 1) as -> by lia. lia.
    + assert (c = 0) as -> by lia. lia.
Qed.
End Ref.
