(* ===== verification/Uint512.v ===== *)
(** * 512-bit division: [Uint::div_mod_512] of [core/src/types/uint.rs]

    The product of two [Uint]s has eight limbs; the repository divides it by a
    [Uint] with Knuth's Algorithm D on limb arrays. The file translates the
    routines limb by limb, with the panics of checked [u64] arithmetic, and
    shows that they compute the Euclidean quotient and remainder without ever
    stopping. Arrays are lists of limbs; all indices the code uses are inside
    the fixed array lengths. *)

From S2P Require Import Prelude Uint.
From stdpp Require Import base numbers list option.
From Stdlib Require Import ZArith Lia.
Local Open Scope Z_scope.
Local Open Scope outcome_scope.

(** ** Definitions *)
Section defs.
Context {U : UintOps} {E : Type}.

Definition N_WORDS : nat := 4.

(** [x << s] on a [u64], [s < 64] *)
Definition u64_shl (x s : Z) : Z := (x * 2 ^ s) `mod` W.
(** [x >> s] on a [u64], [s < 64] *)
Definition u64_shr (x s : Z) : Z := x / 2 ^ s.

Fixpoint bits_512_loop (arr : list Z) (ix : list nat) : Z :=
  match ix with
  | [] => 64 - u64_leading_zeros (arr !!! 0%nat)
  | i :: ix' =>
      let k := (length arr - i)%nat in
      if 0 <? arr !!! k
      then 64 * (Z.of_nat k + 1) - u64_leading_zeros (arr !!! k)
      else bits_512_loop arr ix'
  end.

Definition bits_512 (arr : list Z) : Z :=
  bits_512_loop arr (seq 1 (length arr - 1)).

(** The closure runs from the most significant limb down. *)
Definition div_mod_small_512 (slf : list Z) (other : Z) : list Z * Z :=
  foldr (fun d '(out, rem) =>
           let '(q, r) := uint_div_mod_word rem d other in (q :: out, r))
        ([], 0) slf.

Definition shr_512 (original : list Z) (shift : Z) : outcome E (list Z) :=
  let ret := replicate (2 * N_WORDS) 0 in
  let word_shift := Z.to_nat (shift / 64) in
  let bit_shift := shift `mod` 64 in
  let ret :=
    foldl (fun ret i => <[(i - word_shift)%nat := u64_shr (original !!! i) bit_shift]> ret)
          ret (seq word_shift (length original - word_shift)) in
  if 0 <? bit_shift then
    out_fold (fun ret i =>
        let* x := u64_add (ret !!! (i - word_shift - 1)%nat)
                          (u64_shl (original !!! i) (64 - bit_shift)) in
        Ok (<[(i - word_shift - 1)%nat := x]> ret))
      (seq (word_shift + 1) (length original - (word_shift + 1))) ret
  else Ok ret.

Definition full_shl_512 (slf : list Z) (shift : Z) : outcome E (list Z) :=
  let u_lo := u64_shl (slf !!! 0%nat) shift in
  let* u_hi := shr_512 slf (64 - shift) in
  Ok (u_lo :: u_hi).

Definition full_shr_512 (u : list Z) (shift : Z) : list Z :=
  let res := foldl (fun res i => <[i := u64_shr (u !!! i) shift]> res)
                   (replicate (2 * N_WORDS) 0) (seq 0 (2 * N_WORDS)) in
  if 0 <? shift then
    foldl (fun res i =>
             <[(i - 1)%nat := Z.lor (res !!! (i - 1)%nat)
                                    (u64_shl (u !!! i) (64 - shift))]> res)
          res (seq 1 (2 * N_WORDS))
  else res.

(** The correction loop of step D3; it runs at most twice, so two units of
    fuel are enough ([q_hat_loop_ok]). *)
Fixpoint q_hat_loop (fuel : nat) (v_n_1 v_n_2 u_2 q_hat r_hat : Z)
  : outcome E Z :=
  match fuel with
  | O => Panic
  | S fuel' =>
      let '(hi, lo) := uint_split_u128 (q_hat * v_n_2) in
      if (hi <? r_hat) || ((hi =? r_hat) && (lo <=? u_2)) then Ok q_hat
      else
        let* q_hat' := u64_sub q_hat 1 in
        let new_r_hat := (r_hat + v_n_1) `mod` W in
        if W <=? r_hat + v_n_1 then Ok q_hat'
        else q_hat_loop fuel' v_n_1 v_n_2 u_2 q_hat' new_r_hat
  end.

Definition q_hat_guess (u : list Z) (n j : nat) (v_n_1 v_n_2 : Z) : outcome E Z :=
  let u_jn := u !!! (j + n)%nat in
  if u_jn <? v_n_1 then
    let '(q_hat, r_hat) := uint_div_mod_word u_jn (u !!! (j + n - 1)%nat) v_n_1 in
    q_hat_loop 2 v_n_1 v_n_2 (u !!! (j + n - 2)%nat) q_hat r_hat
  else Ok U64_MAX.

(** One iteration of the [for j] loop: the shifted remainder [u] and the
    quotient [q]. *)
Definition knuth_step (v : Z) (n : nat) (uq : list Z * list Z) (j : nat)
  : outcome E (list Z * list Z) :=
  let '(u, q) := uq in
  let* q_hat := q_hat_guess u n j (word v (n - 1)) (word v (n - 2)) in
  let q_hat_v := uint_full_mul_u64 v q_hat in
  let '(uj, c) := uint_sub_slice (drop j u) (take (n + 1) q_hat_v) in
  let u := take j u ++ uj in
  if c then
    let* q_hat := u64_sub q_hat 1 in
    let '(uj, c) := uint_add_slice (drop j u) (take n (words4 v)) in
    let u := take j u ++ uj in
    let u := <[(j + n)%nat := (u !!! (j + n)%nat + Z.b2z c) `mod` W]> u in
    Ok (u, <[j := q_hat]> q)
  else Ok (u, <[j := q_hat]> q).

Definition div_mod_knuth_512 (slf : list Z) (v : Z) (n m : nat)
  : outcome E (list Z * Z) :=
  let shift := u64_leading_zeros (word v (n - 1)) in
  let v := uint_shl v shift in
  let* u := full_shl_512 slf shift in
  let q := replicate (2 * N_WORDS) 0 in
  let* '(u, q) := out_fold (knuth_step v n) (rev (seq 0 (m + 1))) (u, q) in
  let remainder := full_shr_512 u shift in
  Ok (q, val (take N_WORDS remainder)).

Definition div_mod_512 (slf : list Z) (other : Z) : outcome E (list Z * Z) :=
  let my_bits := bits_512 slf in
  let your_bits := uint_bits other in
  if your_bits =? 0 then Panic else
  if my_bits <? your_bits then
    Ok (replicate (2 * N_WORDS) 0, val (take N_WORDS slf))
  else if your_bits <=? 64 then
    Ok (div_mod_small_512 slf (word other 0))
  else
    let my_words := uint_words my_bits in
    let your_words := uint_words your_bits in
    let n := Z.to_nat your_words in
    let m := Z.to_nat (my_words - your_words) in
    div_mod_knuth_512 slf other n m.

Definition any_nonzero (arr : list Z) : bool :=
  existsb (fun w => negb (w =? 0)) (take 4 arr).

Definition checked_mul_div (slf num denom : Z) : outcome E (option (Z * Z)) :=
  if denom =? 0 then Ok None
  else
    let prod := uint_full_mul slf num in
    let* '(quotient, remainder) := div_mod_512 prod denom in
    if any_nonzero (drop N_WORDS quotient) then Ok None
    else Ok (Some (val (take N_WORDS quotient), remainder)).

Definition mul_div (slf num denom : Z) : outcome E (Z * Z) :=
  let prod := uint_full_mul slf num in
  let* '(quotient, remainder) := div_mod_512 prod denom in
  Ok (val (take N_WORDS quotient), remainder).

(** [Uint::fixed_precision_div] *)
Definition fixed_precision_div (slf rhs denom : Z) : outcome E (option Z) :=
  match uint_checked_pow 10 denom with
  | None => Ok None
  | Some res =>
      let* r := checked_mul_div res slf rhs in
      Ok (fst <$> r)
  end.
End defs.

(** ** Limb arithmetic *)
Lemma two_pow_split s : 0 <= s <= 64 -> 2 ^ s * 2 ^ (64 - s) = W.
Proof. intros. rewrite <- Z.pow_add_r by lia. unfold W. f_equal. lia. Qed.

Lemma pow2_pos s : 0 <= s -> 0 < 2 ^ s.
Proof. intros. apply Z.pow_pos_nonneg; lia. Qed.

Lemma Wpow_pos n : 0 < W ^ Z.of_nat n.
Proof. apply Z.pow_pos_nonneg; [done|lia]. Qed.

(** Splitting a limb at bit [s]. *)
Lemma u64_shl_eq x s : 0 <= s <= 64 -> u64_shl x s = (x `mod` 2 ^ (64 - s)) * 2 ^ s.
Proof.
  intros Hs. unfold u64_shl. rewrite <- (two_pow_split s), (Z.mul_comm (2 ^ s)) by lia.
  pose proof (pow2_pos s ltac:(lia)). pose proof (pow2_pos (64 - s) ltac:(lia)).
  apply Z.mul_mod_distr_r; lia.
Qed.

Lemma u64_shr_bounds x s : is_word x -> 0 <= s <= 64 -> 0 <= u64_shr x s < 2 ^ (64 - s).
Proof.
  intros [H0 H1] Hs. unfold u64_shr. pose proof (pow2_pos s ltac:(lia)).
  split; [apply Z.div_pos; lia|]. apply Z.div_lt_upper_bound; [lia|].
  by rewrite two_pow_split.
Qed.

Lemma u64_shl_bounds x s : 0 <= s <= 64 -> 0 <= u64_shl x s <= W - 2 ^ s.
Proof.
  intros Hs. rewrite u64_shl_eq by done. pose proof (pow2_pos s ltac:(lia)).
  pose proof (Z.mod_pos_bound x (2 ^ (64 - s)) (pow2_pos (64 - s) ltac:(lia))).
  pose proof (two_pow_split s Hs). nia.
Qed.

Lemma lor_disjoint a b k : 0 <= k -> 0 <= a < 2 ^ k -> Z.lor a (b * 2 ^ k) = a + b * 2 ^ k.
Proof.
  intros Hk Ha. rewrite <- Z.shiftl_mul_pow2 by done.
  assert (Z.land a (Z.shiftl b k) = 0) as Hl.
  { apply Z.bits_inj'. intros i Hi.
    rewrite Z.land_spec, Z.bits_0, Z.shiftl_spec by done.
    destruct (Z.ltb_spec i k).
    - rewrite (Z.testbit_neg_r b) by lia. apply andb_false_r.
    - destruct (Z.eq_dec a 0) as [-> | ]; [by rewrite Z.bits_0|].
      rewrite (Z.bits_above_log2 a i); [done|lia|].
      apply Z.lt_le_trans with k; [apply Z.log2_lt_pow2; lia|done]. }
  rewrite <- Z.lxor_lor by done. symmetry. by apply Z.add_nocarry_lxor.
Qed.

(** ** Bit lengths *)
Lemma log2_top lo w k : 0 <= k -> 0 <= lo < 2 ^ k -> 0 < w ->
  Z.log2 (lo + 2 ^ k * w) = k + Z.log2 w.
Proof.
  intros Hk Hlo Hw. pose proof (Z.log2_spec w Hw) as [H1 H2].
  pose proof (Z.log2_nonneg w). pose proof (pow2_pos k Hk).
  apply Z.log2_unique; [lia|].
  rewrite Z.pow_succ_r, Z.pow_add_r by lia. rewrite Z.pow_succ_r in H2 by lia. nia.
Qed.

Lemma Wpow_two n : W ^ Z.of_nat n = 2 ^ (64 * Z.of_nat n).
Proof. unfold W. rewrite <- Z.pow_mul_r by lia. done. Qed.

Definition bits (x : Z) : Z := if x =? 0 then 0 else Z.log2 x + 1.

Lemma bits_snoc lo w : Forall is_word lo -> 0 < w ->
  bits (val (lo ++ [w])) = 64 * (Z.of_nat (length lo) + 1) - u64_leading_zeros w.
Proof.
  intros Hlo Hw. pose proof (val_bounds lo Hlo). rewrite val_app. cbn [val].
  rewrite Z.mul_0_r, Z.add_0_r. pose proof (Wpow_pos (length lo)).
  unfold bits, u64_leading_zeros.
  rewrite (proj2 (Z.eqb_neq _ _)), (proj2 (Z.eqb_neq w 0)) by nia.
  rewrite Wpow_two in *. rewrite log2_top by lia. lia.
Qed.

Lemma val_zeros n : val (replicate n 0) = 0.
Proof. induction n; cbn [replicate val]; lia. Qed.

Lemma bits_512_loop_spec z lo : Forall is_word lo -> lo <> [] ->
  bits_512_loop (lo ++ replicate z 0) (seq (z + 1) (length lo - 1)) = bits (val lo).
Proof.
  revert z. induction lo as [|w lo IH] using rev_ind; intros z Hw Hne; [done|].
  apply Forall_app in Hw as [Hlo Hw]. apply Forall_inv in Hw.
  rewrite length_app, Nat.add_sub. cbn [length].
  destruct (decide (0 < w)) as [Hp|Hp].
  - rewrite bits_snoc by done. destruct lo as [|x lo].
    + simpl. lia.
    + cbn [length seq bits_512_loop]. rewrite !length_app, length_replicate. cbn [length].
      replace (S (length lo) + 1 + z - (z + 1))%nat with (S (length lo)) by lia.
      rewrite lookup_total_app_l, lookup_total_app_r by (rewrite ?length_app; simpl; lia).
      cbn [length]. rewrite Nat.sub_diag. cbn [list_lookup_total lookup_total].
      rewrite (proj2 (Z.ltb_lt 0 w)) by done. done.
  - assert (w = 0) as -> by (unfold is_word in Hw; lia).
    destruct (decide (lo = [])) as [-> | Hn]; [done|].
    rewrite <- (app_assoc lo). change ([0] ++ replicate z 0) with (replicate (S z) 0).
    rewrite val_app. cbn [val]. rewrite Z.mul_0_r, Z.add_0_r, <- (IH (S z)) by done.
    destruct lo as [|x lo]; [done|]. cbn [length]. rewrite Nat.sub_succ, Nat.sub_0_r.
    cbn [seq bits_512_loop]. rewrite length_app, length_replicate. cbn [length].
    replace (S (length lo) + S z - (z + 1))%nat with (S (length lo)) by lia.
    rewrite lookup_total_app_r by (simpl; lia). cbn [length].
    rewrite Nat.sub_diag. done.
Qed.

Lemma bits_512_spec ws : Forall is_word ws -> ws <> [] -> bits_512 ws = bits (val ws).
Proof.
  intros Hw Hn. rewrite <- (bits_512_loop_spec 0 ws Hw Hn).
  simpl. by rewrite app_nil_r.
Qed.

(** [bits] orders numbers by powers of two. *)
Lemma bits_lt_pow x k : 0 <= x -> 0 <= k -> bits x <= k <-> x < 2 ^ k.
Proof.
  intros Hx Hk. unfold bits. destruct (Z.eqb_spec x 0) as [-> | Hn].
  - pose proof (pow2_pos k Hk). lia.
  - rewrite Z.log2_lt_pow2 by lia. lia.
Qed.

(** ** Shifts *)
(** A right shift by [s <= 64] bits, limb by limb. *)
Fixpoint shr_limbs (s : Z) (ws : list Z) : list Z :=
  match ws with
  | [] => []
  | w :: ws' => (u64_shr w s + u64_shl (hd 0 ws') (64 - s)) :: shr_limbs s ws'
  end.

Lemma shr_limbs_words s ws : 0 <= s <= 64 -> Forall is_word ws ->
  Forall is_word (shr_limbs s ws).
Proof.
  intros Hs. induction 1 as [|w ws Hw _ IH]; cbn [shr_limbs]; constructor; [|done].
  pose proof (u64_shr_bounds w s Hw Hs).
  pose proof (u64_shl_bounds (hd 0 ws) (64 - s) ltac:(lia)). split; lia.
Qed.

Lemma shr_limbs_val s ws : 0 <= s <= 64 ->
  2 ^ s * val (shr_limbs s ws) + (hd 0 ws) `mod` 2 ^ s = val ws.
Proof.
  intros Hs. induction ws as [|w ws IH]; cbn [shr_limbs val hd].
  - rewrite Z.mod_0_l by (pose proof (pow2_pos s ltac:(lia)); lia). lia.
  - rewrite u64_shl_eq by lia. unfold u64_shr.
    replace (64 - (64 - s)) with s by lia. pose proof (two_pow_split s Hs).
    pose proof (Z_div_mod_eq_full w (2 ^ s)).
    rewrite !Z.mul_add_distr_l. nia.
Qed.

Lemma shr_limbs_div s ws : 0 <= s <= 64 ->
  val (shr_limbs s ws) = val ws / 2 ^ s.
Proof.
  intros Hs. pose proof (shr_limbs_val s ws Hs).
  pose proof (Z.mod_pos_bound (hd 0 ws) (2 ^ s) (pow2_pos s ltac:(lia))).
  apply Z.div_unique with ((hd 0 ws) `mod` 2 ^ s); [by left|lia].
Qed.

Lemma shr_limbs_length s ws : length (shr_limbs s ws) = length ws.
Proof. induction ws; simpl; auto. Qed.

Lemma u64_shl_0 s : u64_shl 0 s = 0.
Proof. done. Qed.

Lemma length8 {A} (l : list A) : length l = 8%nat ->
  exists a b c d e f g h, l = [a; b; c; d; e; f; g; h].
Proof. intros. do 9 (destruct l as [|? l]; try discriminate). eauto 10. Qed.

Lemma shr_add_ok {E} x y s : is_word x -> 0 <= s <= 64 ->
  u64_add (E:=E) (u64_shr x s) (u64_shl y (64 - s)) =
  Ok (u64_shr x s + u64_shl y (64 - s)).
Proof.
  intros Hx Hs. apply u64_add_ok. pose proof (u64_shr_bounds x s Hx Hs).
  pose proof (u64_shl_bounds y (64 - s) ltac:(lia)). unfold U64_MAX. unfold W in *. lia.
Qed.

Lemma shr_512_ok {E} slf s : length slf = 8%nat -> Forall is_word slf -> 1 <= s <= 64 ->
  shr_512 (E:=E) slf s = Ok (shr_limbs s slf).
Proof.
  intros Hl Hw Hs.
  destruct (length8 slf Hl) as (a & b & c & d & e & f & g & h & ->). clear Hl.
  repeat match goal with H : Forall is_word _ |- _ => inversion_clear H end.
  unfold shr_512. destruct (decide (s = 64)) as [-> | Hn].
  - change (Z.to_nat (64 / 64)) with 1%nat. change (64 `mod` 64) with 0.
    cbn -[u64_shr u64_shl]. change (64 - 64) with 0.
    unfold u64_shr, u64_shl. change (2 ^ 64) with W. change (2 ^ 0) with 1.
    unfold is_word in *. rewrite !Z.div_1_r, !Z.mul_1_r.
    rewrite !Z.div_small, !Z.mod_small by (unfold W in *; lia). done.
  - rewrite Z.div_small, Z.mod_small by lia. change (Z.to_nat 0) with 0%nat.
    rewrite (proj2 (Z.ltb_lt 0 s)) by lia.
    cbn -[u64_shr u64_shl u64_add Z.sub].
    repeat (rewrite shr_add_ok by (done || lia); cbn -[u64_shr u64_shl u64_add Z.sub]).
    rewrite u64_shl_0, Z.add_0_r. done.
Qed.

Lemma full_shl_512_ok {E} slf s : length slf = 8%nat -> Forall is_word slf -> 0 <= s <= 63 ->
  exists u, full_shl_512 (E:=E) slf s = Ok u /\ length u = 9%nat /\
    Forall is_word u /\ val u = val slf * 2 ^ s.
Proof.
  intros Hl Hw Hs. unfold full_shl_512. rewrite shr_512_ok by (done || lia). simpl.
  eexists. split; [done|]. cbn [length]. rewrite shr_limbs_length, Hl. split; [done|]. split.
  - constructor; [apply Z.mod_pos_bound, W_pos|]. by apply shr_limbs_words; [lia|].
  - cbn [val]. pose proof (shr_limbs_val (64 - s) slf ltac:(lia)) as Hv.
    rewrite u64_shl_eq, <- (two_pow_split s), <- Hv by lia.
    destruct slf as [|x slf]; [done|]. cbn [hd]. simpl (_ !!! _). ring.
Qed.

Lemma shr_lor_eq x y s : is_word x -> 0 <= s <= 64 ->
  Z.lor (u64_shr x s) (u64_shl y (64 - s)) = u64_shr x s + u64_shl y (64 - s).
Proof.
  intros Hx Hs. rewrite u64_shl_eq by lia. apply lor_disjoint; [lia|].
  by apply u64_shr_bounds.
Qed.

Lemma full_shr_512_ok u s : length u = 9%nat -> Forall is_word u -> 0 <= s <= 63 ->
  val u < W ^ Z.of_nat 8 ->
  length (full_shr_512 u s) = 8%nat /\ Forall is_word (full_shr_512 u s) /\
  val (full_shr_512 u s) = val u / 2 ^ s.
Proof.
  intros Hl Hw Hs Hv.
  assert (exists w x, u = w ++ [x] /\ length w = 8%nat) as (w & x & -> & Hlw).
  { destruct u as [|x u _] using rev_ind; [done|]. rewrite length_app in Hl.
    exists u, x. split; [done|simpl in Hl; lia]. }
  apply Forall_app in Hw as [Hw Hx]. apply Forall_inv in Hx.
  rewrite val_app, Hlw in Hv. cbn [val] in Hv. pose proof (val_bounds w Hw).
  assert (x = 0) as ->.
  { unfold is_word in Hx. rewrite Hlw in *. pose proof (Wpow_pos 8). nia. }
  assert (full_shr_512 (w ++ [0]) s = shr_limbs s w) as ->.
  { destruct (length8 w Hlw) as (a & b & c & d & e & f & g & h & ->). clear -Hw Hs.
    repeat match goal with H : Forall is_word _ |- _ => inversion_clear H end.
    unfold full_shr_512. destruct (Z.ltb_spec 0 s) as [Hp|Hp].
    - cbn -[u64_shr u64_shl Z.lor Z.sub]. by rewrite !shr_lor_eq by (done || lia).
    - assert (s = 0) as -> by lia. cbn -[u64_shr u64_shl].
      unfold u64_shl. rewrite !Z_mod_mult, !Z.add_0_r. done. }
  rewrite shr_limbs_length, shr_limbs_div by lia. split; [done|].
  split; [apply shr_limbs_words; [lia|done]|].
  rewrite val_app. cbn [val]. f_equal. lia.
Qed.

(** ** Division by one limb *)
Lemma div_mod_small_512_ok {U : UintOps} `{!UintLaws U} slf d :
  Forall is_word slf -> is_word d -> 0 < d ->
  exists q r, div_mod_small_512 slf d = (q, r) /\ length q = length slf /\
    Forall is_word q /\ val slf = val q * d + r /\ 0 <= r < d.
Proof.
  intros Hw Hd Hp. induction Hw as [|w ws Hw _ IH].
  - exists [], 0. repeat split; [constructor|lia..].
  - destruct IH as (q & r & He & Hl & Hq & Hv & Hr).
    assert (is_word r) as Hrw by (unfold is_word in *; lia).
    eexists ((r * W + w) / d :: q), ((r * W + w) `mod` d).
    cbn [div_mod_small_512 foldr]. unfold div_mod_small_512 in He. rewrite He.
    rewrite uint_div_mod_word_law by (done || lia). cbn [length val].
    pose proof (Z_div_mod_eq_full (r * W + w) d). pose proof (Z.mod_pos_bound (r * W + w) d Hp).
    split; [done|]. split; [by rewrite Hl|]. split; [|split; [nia|done]].
    constructor; [|done]. unfold is_word in *.
    split; [apply Z.div_pos; nia|apply Z.div_lt_upper_bound; nia].
Qed.

(** ** The quotient digit *)
Section q_hat.
Context {U : UintOps} {HU : UintLaws U} {E : Type}.
(** The top of the remainder and of the normalised divisor: [P] is the weight
    of the limbs below the third and the second one. *)
Variables P X V x2 x1 x0 xl v1 v2 vl : Z.
Hypothesis HP : 0 < P.
Hypothesis HX : X = ((x2 * W + x1) * W + x0) * P + xl.
Hypothesis HV : V = (v1 * W + v2) * P + vl.
Hypothesis Hxl : 0 <= xl < P.
Hypothesis Hvl : 0 <= vl < P.
Hypothesis Hx2 : is_word x2.
Hypothesis Hx1 : is_word x1.
Hypothesis Hx0 : is_word x0.
Hypothesis Hv1 : is_word v1.
Hypothesis Hv2 : is_word v2.
Hypothesis Hnorm : W <= 2 * v1.

Lemma q_hat_upper q r : q * v1 + r = x2 * W + x1 -> r < v1 -> 0 <= q -> X < V * (q + 1).
Proof.
  intros Hq Hr Hq0. unfold is_word in *.
  assert (x2 * W + x1 + 1 <= v1 * (q + 1)) as H1 by lia.
  assert (X < (x2 * W + x1 + 1) * (W * P)) as H2 by nia.
  assert (v1 * (W * P) <= V) as H3 by nia.
  assert (0 < W * P) by nia. nia.
Qed.

Lemma q_hat_too_big q r : q * v1 + r = x2 * W + x1 -> 0 <= q ->
  W * r + x0 < q * v2 -> X < V * q.
Proof.
  intros Hq Hq0 Ht. unfold is_word in *.
  assert (((x2 * W + x1) * W + x0 + 1) * P <= (v1 * W + v2) * P * q) as H1.
  { replace ((v1 * W + v2) * P * q) with ((q * v1 * W + q * v2) * P) by ring.
    apply Z.mul_le_mono_nonneg_r; [lia|]. nia. }
  assert ((v1 * W + v2) * P * q <= V * q) by nia. nia.
Qed.

Lemma q_hat_small_enough q r : q * v1 + r = x2 * W + x1 -> 0 <= q < W ->
  q * v2 <= W * r + x0 -> V * (q - 1) <= X.
Proof.
  intros Hq Hq0 Ht. unfold is_word in *.
  destruct (Z.eq_dec q 0) as [-> | Hn]; [nia|].
  assert ((v1 * W + v2 + 1) * (q - 1) <= (x2 * W + x1) * W + x0) as H1.
  { replace ((v1 * W + v2 + 1) * (q - 1))
      with (q * v1 * W + q * v2 + q - v1 * W - v2 - 1) by ring.
    assert (q * v1 * W = (x2 * W + x1) * W - r * W) by nia.
    assert (W <= v1 * W) by nia. lia. }
  assert (V * (q - 1) <= (v1 * W + v2 + 1) * P * (q - 1)) by nia. nia.
Qed.

Lemma q_hat_loop_ok fuel q r : q * v1 + r = x2 * W + x1 -> 0 <= q < W -> 0 <= r < W ->
  X < V * (q + 1) -> W <= r + Z.of_nat fuel * v1 ->
  exists q', q_hat_loop (E:=E) fuel v1 v2 x0 q r = Ok q' /\
    0 <= q' < W /\ X < V * (q' + 1) /\ V * (q' - 1) <= X.
Proof.
  revert q r. induction fuel as [|fuel IH]; intros q r Hq Hq0 Hr Hlt Hf; [simpl in Hf; lia|].
  cbn [q_hat_loop]. rewrite uint_split_u128_law by (unfold is_word in *; nia).
  pose proof (Z_div_mod_eq_full (q * v2) W) as Hdm.
  pose proof (Z.mod_pos_bound (q * v2) W W_pos) as Hmb.
  destruct (_ || _) eqn:Ht.
  - exists q. split; [done|]. split; [done|]. split; [done|].
    apply q_hat_small_enough with r; [done..|].
    rewrite orb_true_iff, andb_true_iff, Z.ltb_lt, Z.eqb_eq, Z.leb_le in Ht.
    unfold is_word in *. nia.
  - rewrite orb_false_iff, andb_false_iff, Z.ltb_ge, Z.eqb_neq, Z.leb_gt in Ht.
    assert (X < V * q) as Hlt'.
    { apply q_hat_too_big with r; [done|lia|]. unfold is_word in *. nia. }
    assert (0 < q) by (unfold is_word in *; nia).
    rewrite u64_sub_ok by lia. cbn [out_bind].
    assert ((q - 1) * v1 + (r + v1) = x2 * W + x1) as Hq' by lia.
    destruct (Z.leb_spec W (r + v1)) as [Ho|Ho].
    + exists (q - 1). split; [done|]. split; [lia|]. split; [by rewrite Z.sub_add|].
      apply q_hat_small_enough with (r + v1); [done|lia|]. unfold is_word in *.
      assert ((q - 1) * v2 <= W * W) by nia. assert (W * W <= W * (r + v1)) by nia. lia.
    + rewrite Z.mod_small by (unfold is_word in *; lia).
      apply IH; [done|lia|unfold is_word in *; lia|by rewrite Z.sub_add|].
      rewrite Nat2Z.inj_succ in Hf. lia.
Qed.

Lemma q_hat_ok (XV : X < V * W) :
  exists q, (if x2 <? v1 then
               let '(q, r) := uint_div_mod_word x2 x1 v1 in
               q_hat_loop (E:=E) 2 v1 v2 x0 q r
             else Ok U64_MAX) = Ok q /\
    0 <= q < W /\ X < V * (q + 1) /\ V * (q - 1) <= X.
Proof.
  unfold is_word in *. destruct (Z.ltb_spec x2 v1) as [Hlt|Hge].
  - rewrite uint_div_mod_word_law by (unfold is_word; lia).
    pose proof (Z_div_mod_eq_full (x2 * W + x1) v1).
    pose proof (Z.mod_pos_bound (x2 * W + x1) v1 ltac:(lia)).
    assert (0 <= (x2 * W + x1) / v1 < W).
    { split; [apply Z.div_pos; nia|apply Z.div_lt_upper_bound; nia]. }
    apply q_hat_loop_ok; [lia|done|lia| |simpl; lia].
    apply q_hat_upper with ((x2 * W + x1) `mod` v1); lia.
  - assert (x2 = v1) as ->.
    { destruct (Z.le_gt_cases x2 v1) as [|Hgt]; [lia|].
      assert (V < (v1 + 1) * (W * P)) by nia.
      assert (x2 * (W * P) * W <= X) by nia.
      assert ((v1 + 1) * (W * P) <= x2 * (W * P)) by nia. nia. }
    exists U64_MAX. change U64_MAX with (W - 1). split; [done|]. split; [lia|].
    split; [by rewrite Z.sub_add|].
    assert (V * (W - 2) <= (v1 + 1) * (W * P) * (W - 2)) by (unfold W in *; nia).
    assert ((v1 + 1) * (W * P) * (W - 2) <= v1 * W * (W * P)) by (unfold W in *; nia).
    nia.
Qed.
End q_hat.

(** ** One step of the division *)
Lemma val_take k ws : Forall is_word ws -> val ws < W ^ Z.of_nat k -> val (take k ws) = val ws.
Proof.
  intros Hw Hlt. destruct (decide (length ws <= k)%nat); [by rewrite take_ge|].
  assert (val ws = val (take k ws) + W ^ Z.of_nat k * val (drop k ws)) as Heq.
  { rewrite <- (take_drop k ws) at 1. by rewrite val_app, length_take_le by lia. }
  pose proof (val_bounds _ (Forall_take _ k _ Hw)).
  pose proof (val_bounds _ (Forall_drop _ k _ Hw)).
  pose proof (Wpow_pos k).
  assert (val (drop k ws) = 0) as Hz by nia. rewrite Hz in Heq. lia.
Qed.

Lemma val_limbs_mod n x : val (limbs n x) = x `mod` W ^ Z.of_nat n.
Proof.
  revert x. induction n as [|n IH]; intros x; cbn [limbs val]; [by rewrite Z.mod_1_r|].
  rewrite IH, Nat2Z.inj_succ, Z.pow_succ_r, Z.rem_mul_r by (done || apply Wpow_pos || lia).
  done.
Qed.

Lemma limbs_take k n x : (k <= n)%nat -> take k (limbs n x) = limbs k x.
Proof.
  revert k x. induction n as [|n IH]; intros [|k] x Hk; cbn [limbs take]; [done|lia|done|].
  by rewrite IH by lia.
Qed.

Lemma limbs_app k n x : limbs (k + n) x = limbs k x ++ limbs n (x / W ^ Z.of_nat k).
Proof.
  revert x. induction k as [|k IH]; intros x; cbn [limbs app Nat.add].
  - by rewrite Z.div_1_r.
  - rewrite IH, Z.div_div by (done || apply Wpow_pos).
    rewrite Nat2Z.inj_succ, Z.pow_succ_r by lia. done.
Qed.

(** The divisor below its two leading limbs. *)
Lemma limbs_top2 n x : (2 <= n)%nat ->
  limbs n x = limbs (n - 2) x ++ [word x (n - 2); word x (n - 1)].
Proof.
  intros Hn. replace n with ((n - 2) + 2)%nat at 1 by lia. rewrite limbs_app.
  cbn [limbs]. f_equal. f_equal. f_equal. unfold word. f_equal.
  pose proof (Wpow_pos (n - 2)). rewrite Z.div_div by (done || lia). f_equal.
  replace (n - 1)%nat with (S (n - 2)) by lia.
  rewrite Nat2Z.inj_succ, Z.pow_succ_r by lia. lia.
Qed.

Lemma val_insert_zero ws j d : (j < length ws)%nat -> ws !!! j = 0 ->
  val (<[j := d]> ws) = val ws + d * W ^ Z.of_nat j.
Proof.
  revert j. induction ws as [|w ws IH]; intros [|j] Hj Hz; simpl in Hj; [lia|lia| |].
  - simpl in Hz |- *. lia.
  - change (<[S j:=d]> (w :: ws)) with (w :: <[j:=d]> ws). cbn [val].
    rewrite IH, Nat2Z.inj_succ, Z.pow_succ_r by (done || lia). lia.
Qed.

Section step.
Context {U : UintOps} {HU : UintLaws U} {E : Type}.
Variables (v : Z) (n : nat).
Hypothesis Hn : (2 <= n <= 4)%nat.
Hypothesis Hv : 0 <= v < W ^ Z.of_nat n.
Hypothesis Hnorm : W <= 2 * word v (n - 1).

Lemma v_u256 : in_u256 v.
Proof.
  unfold in_u256. rewrite MAX_VALUE_eq. change (2 ^ 256) with (W ^ 4).
  pose proof (Z.pow_le_mono_r W (Z.of_nat n) 4 W_pos ltac:(lia)). lia.
Qed.

Lemma v_top : v = (word v (n - 1) * W + word v (n - 2)) * W ^ Z.of_nat (n - 2)
                  + val (limbs (n - 2) v).
Proof.
  rewrite <- (val_limbs n v) at 1 by done. rewrite limbs_top2 by lia.
  rewrite val_app, limbs_length. cbn [val]. ring.
Qed.

(** [q_hat_guess] on a remainder split at limb [j]. *)
Lemma q_hat_guess_ok lo m x0 x1 x2 hi :
  length m = (n - 2)%nat -> Forall is_word (m ++ [x0; x1; x2]) ->
  val (m ++ [x0; x1; x2]) < v * W ->
  exists q, q_hat_guess (E:=E) (lo ++ (m ++ [x0; x1; x2]) ++ hi) n (length lo)
              (word v (n - 1)) (word v (n - 2)) = Ok q /\
    is_word q /\ val (m ++ [x0; x1; x2]) < v * (q + 1) /\
    v * (q - 1) <= val (m ++ [x0; x1; x2]).
Proof.
  intros Hm Hw Hlt. unfold q_hat_guess.
  assert (forall k, (n - 2 <= k <= n)%nat ->
    (lo ++ (m ++ [x0; x1; x2]) ++ hi) !!! (length lo + k)%nat =
    [x0; x1; x2] !!! (k - (n - 2))%nat) as Hix.
  { intros k Hk. rewrite lookup_total_app_r by lia.
    replace (length lo + k - length lo)%nat with k by lia.
    rewrite lookup_total_app_l by (rewrite length_app; simpl; lia).
    rewrite lookup_total_app_r by lia. by rewrite Hm. }
  rewrite <- !Nat.add_sub_assoc by lia. rewrite !Hix by lia.
  replace (n - (n - 2))%nat with 2%nat by lia.
  replace (n - 1 - (n - 2))%nat with 1%nat by lia. rewrite Nat.sub_diag.
  cbn [lookup_total list_lookup_total].
  apply Forall_app in Hw as [Hm' Hx].
  repeat match goal with H : Forall is_word (_ :: _) |- _ => inversion_clear H end.
  pose proof (val_bounds m Hm') as Hb. rewrite Hm in Hb.
  pose proof (val_bounds _ (limbs_words (n - 2) v)) as Hb'. rewrite limbs_length in Hb'.
  apply (q_hat_ok (W ^ Z.of_nat (n - 2)) _ _ _ _ _ (val m) _ _ (val (limbs (n - 2) v)));
    try done.
  - apply Wpow_pos.
  - rewrite val_app, Hm. cbn [val]. ring.
  - apply v_top.
  - apply word_is_word.
  - apply word_is_word.
Qed.
(** [u] from limb [j] on: [n - 2] limbs, the three leading ones, and the rest. *)
Lemma split_at_digit (u : list Z) j : (j + n < length u)%nat ->
  exists lo m x0 x1 x2 hi, u = lo ++ (m ++ [x0; x1; x2]) ++ hi /\
    length lo = j /\ length m = (n - 2)%nat.
Proof.
  intros Hl. exists (take j u), (take (n - 2) (drop j u)).
  assert (3 <= length (drop (n - 2) (drop j u)))%nat as Hr
    by (rewrite !length_drop; lia).
  destruct (drop (n - 2) (drop j u)) as [|x0 [|x1 [|x2 hi]]] eqn:Hd; simpl in Hr; [lia..|].
  exists x0, x1, x2, hi. split; [|split].
  - rewrite <- app_assoc. cbn [app]. rewrite <- Hd. by rewrite !take_drop.
  - rewrite length_take. lia.
  - rewrite length_take, length_drop. lia.
Qed.

(** The limbs of [q_hat * v] that matter. *)
Lemma q_hat_v_ok q : is_word q ->
  length (take (n + 1) (uint_full_mul_u64 v q)) = (n + 1)%nat /\
  Forall is_word (take (n + 1) (uint_full_mul_u64 v q)) /\
  val (take (n + 1) (uint_full_mul_u64 v q)) = v * q.
Proof.
  intros Hq. destruct (uint_full_mul_u64_law v q v_u256 Hq) as (Hl & Hw & Hval).
  split; [rewrite length_take, Hl; lia|]. split; [by apply Forall_take|].
  rewrite val_take; [done|done|]. rewrite Hval, Nat.add_1_r, Nat2Z.inj_succ, Z.pow_succ_r by lia.
  unfold is_word in Hq. nia.
Qed.

Lemma take_words4_v : take n (words4 v) = limbs n v.
Proof. rewrite words4_limbs. apply limbs_take. lia. Qed.

(** Adding the divisor back makes up for the borrow. *)
Lemma add_back_ok x hi q X : length x = (n + 1)%nat -> Forall is_word x ->
  val x = X - v * q + W ^ Z.of_nat (n + 1) -> 0 <= X - v * (q - 1) < v ->
  Forall is_word hi ->
  exists x' c, uint_add_slice (x ++ hi) (take n (words4 v)) = (x' ++ hi, c) /\
    length x' = (n + 1)%nat /\
    Forall is_word (<[n := (x' !!! n + Z.b2z c) `mod` W]> x') /\
    val (<[n := (x' !!! n + Z.b2z c) `mod` W]> x') = X - v * (q - 1).
Proof.
  intros Hl Hw Hval Hr Hhi. rewrite take_words4_v.
  destruct (uint_add_slice_law (x ++ hi) (limbs n v)) as (lo & Hlo & Hlw & Hfst & Hlv);
    [by apply Forall_app|apply limbs_words|rewrite length_app, limbs_length; lia|].
  destruct (uint_add_slice (x ++ hi) (limbs n v)) as [r c]. cbn [fst snd] in *.
  rewrite limbs_length in *.
  assert (exists y0 y, x = y0 ++ [y] /\ length y0 = n) as (y0 & y & -> & Hy0).
  { destruct x as [|y y0 _] using rev_ind; [simpl in Hl; lia|].
    exists y0, y. rewrite length_app in Hl. simpl in Hl. split; [done|lia]. }
  rewrite <- app_assoc in *. rewrite drop_app_length' in Hfst by done.
  rewrite take_app_length' in Hlv by done.
  exists (lo ++ [y]), c. rewrite Hfst. rewrite <- app_assoc. split; [done|].
  apply Forall_app in Hw as [Hy0w Hyw]. apply Forall_inv in Hyw.
  rewrite length_app, Hlo. split; [done|].
  rewrite lookup_total_app_r, insert_app_r_alt by lia. rewrite Hlo, Nat.sub_diag.
  cbn [lookup_total list_lookup_total list_insert insert].
  rewrite val_limbs in Hlv by done. rewrite val_app in Hval |- *. cbn [val] in *.
  rewrite Hy0 in Hval. rewrite Hlo.
  rewrite Nat.add_1_r, Nat2Z.inj_succ, Z.pow_succ_r in Hval by lia.
  pose proof (val_bounds lo Hlw) as Hlb. rewrite Hlo in Hlb.
  pose proof (Wpow_pos n). unfold is_word in Hyw.
  assert (W ^ Z.of_nat n * (y + Z.b2z c - W) = X - v * (q - 1) - val lo) as Hbal
    by (destruct c; cbn [Z.b2z]; lia).
  assert (y + Z.b2z c = W) as Hy by nia. rewrite Hy in Hbal |- *.
  rewrite Z_mod_same_full. split; [|lia].
  apply Forall_app. split; [done|]. constructor; [|constructor]. split; [lia|done].
Qed.
(** The limbs above the digit are zero and the middle ones hold the value. *)
Lemma digit_bound lo x hi : length x = (n + 1)%nat ->
  Forall is_word lo -> Forall is_word x -> Forall is_word hi ->
  val (lo ++ x ++ hi) < v * W ^ Z.of_nat (length lo + 1) ->
  val hi = 0 /\ val x < v * W.
Proof.
  intros Hl Hlo Hx Hhi. rewrite !val_app, Hl, !Nat.add_1_r, !Nat2Z.inj_succ, !Z.pow_succ_r by lia.
  pose proof (val_bounds lo Hlo). pose proof (val_bounds x Hx). pose proof (val_bounds hi Hhi).
  pose proof (Wpow_pos (length lo)). pose proof (Wpow_pos n). pose proof W_pos. intros Hlt.
  assert (val x + W * W ^ Z.of_nat n * val hi < v * W) as Hlt' by nia.
  assert (val hi = 0) as Hz.
  { destruct (Z.eq_dec (val hi) 0) as [|Hne]; [done|].
    assert (v * W <= W * W ^ Z.of_nat n) by nia.
    assert (W * W ^ Z.of_nat n * 1 <= W * W ^ Z.of_nat n * val hi)
      by (apply Z.mul_le_mono_nonneg_l; nia). lia. }
  split; [done|]. rewrite Hz, Z.mul_0_r in Hlt'. lia.
Qed.

Lemma digit_done lo X P T d : 0 <= lo < P -> 0 <= X - v * d < v ->
  lo + P * (X - v * d + T * 0) < v * P /\
  lo + P * (X + T * 0) = d * v * P + (lo + P * (X - v * d + T * 0)).
Proof.
  intros Hlo Hd. rewrite Z.mul_0_r, !Z.add_0_r. split; [|ring].
  assert (P * (X - v * d + 1) <= P * v) by (apply Z.mul_le_mono_nonneg_l; lia). lia.
Qed.

Lemma knuth_step_ok u q j : length u = 9%nat -> Forall is_word u -> (j + n <= 8)%nat ->
  val u < v * W ^ Z.of_nat (j + 1) ->
  exists u' d, knuth_step (E:=E) v n (u, q) j = Ok (u', <[j := d]> q) /\
    is_word d /\ length u' = 9%nat /\ Forall is_word u' /\
    val u' < v * W ^ Z.of_nat j /\ val u = d * v * W ^ Z.of_nat j + val u'.
Proof.
  intros Hl Hw Hj Hlt.
  destruct (split_at_digit u j) as (lo & m & x0 & x1 & x2 & hi & -> & <- & Hm); [lia|].
  apply Forall_app in Hw as [Hlo Hw]. apply Forall_app in Hw as [Hx Hhi].
  assert (length (m ++ [x0; x1; x2]) = (n + 1)%nat) as Hlx by (rewrite length_app; simpl; lia).
  destruct (digit_bound lo _ hi Hlx Hlo Hx Hhi Hlt) as [Hhi0 HX].
  destruct (q_hat_guess_ok lo m x0 x1 x2 hi Hm Hx HX) as (q1 & Hg & Hq1 & Hup & Hdn).
  unfold knuth_step. rewrite Hg. cbn [out_bind].
  set (x := m ++ [x0; x1; x2]) in *. clearbody x. clear Hg Hm x0 x1 x2 m.
  destruct (q_hat_v_ok q1 Hq1) as (Hql & Hqw & Hqv).
  rewrite !drop_app_length, !take_app_length.
  destruct (uint_sub_slice_law (x ++ hi) (take (n + 1) (uint_full_mul_u64 v q1)))
    as (r & Hrl & Hrw & Hfst & Hrv);
    [by apply Forall_app|done|rewrite length_app; lia|].
  destruct (uint_sub_slice _ _) as [uj c]. cbn [fst snd] in *.
  rewrite Hql, drop_app_length', take_app_length' in * by done. subst uj. rewrite Hqv in Hrv.
  pose proof (val_bounds r Hrw) as Hrb. rewrite Hrl in Hrb.
  pose proof (val_bounds x Hx). pose proof (val_bounds lo Hlo).
  pose proof (Wpow_pos (length lo)).
  destruct c.
  - assert (0 < q1).
    { destruct (Z.eq_dec q1 0) as [-> |]; unfold is_word in Hq1; lia. }
    rewrite u64_sub_ok by lia. cbn [out_bind].
    destruct (add_back_ok r hi q1 (val x)) as (r' & c & Has & Hrl' & Hrw' & Hrv'); [done..|lia|done|].
    rewrite Has, lookup_total_app_r, insert_app_r_alt by lia.
    replace (length lo + n - length lo)%nat with n by lia.
    rewrite lookup_total_app_l, insert_app_l by lia.
    exists (lo ++ <[n:=(r' !!! n + Z.b2z c) `mod` W]> r' ++ hi), (q1 - 1).
    split; [done|]. split; [unfold is_word in *; lia|].
    rewrite !length_app, length_insert in *. split; [lia|].
    split; [by rewrite !Forall_app|]. rewrite !val_app, Hrv', length_insert, Hhi0, Hrl', Hlx.
    apply digit_done; [done|lia].
  - exists (lo ++ r ++ hi), q1. split; [done|]. split; [done|].
    rewrite !length_app in *. split; [lia|]. split; [by rewrite !Forall_app|].
    rewrite !val_app, Hhi0, Hrv, Hrl, Hlx, Z.add_0_r.
    apply digit_done; [done|lia].
Qed.

(** The loop from digit [m] down to digit [0]. *)
Lemma knuth_loop_ok m u q : length u = 9%nat -> Forall is_word u ->
  length q = 8%nat -> Forall is_word q -> (m + n <= 8)%nat ->
  (forall i, (i <= m)%nat -> q !!! i = 0) -> val u < v * W ^ Z.of_nat (m + 1) ->
  exists u' q', out_fold (knuth_step (E:=E) v n) (rev (seq 0 (m + 1))) (u, q) = Ok (u', q') /\
    length u' = 9%nat /\ Forall is_word u' /\ length q' = 8%nat /\ Forall is_word q' /\
    val q * v + val u = val q' * v + val u' /\ val u' < v.
Proof.
  revert u q. induction m as [|m IH]; intros u q Hul Huw Hql Hqw Hm Hz Hlt;
    rewrite (Nat.add_1_r) , seq_S, rev_app_distr; cbn [rev app out_fold Nat.add];
    (edestruct (knuth_step_ok u q) as (u1 & d & Hs & Hd & Hl1 & Hw1 & Hlt1 & Hv1);
      [done|done|exact Hm|done|]); rewrite Hs; cbn [out_bind].
  - rewrite Z.mul_1_r in *. exists u1, (<[0%nat := d]> q).
    rewrite length_insert, val_insert_zero by (done || lia || (apply Hz; lia)).
    do 3 (split; [done|]). split; [done|]. split; [by apply Forall_insert|].
    split; [simpl; lia|lia].
  - destruct (IH u1 (<[S m := d]> q)) as (u' & q' & Hf & Hrest);
      [done|done|by rewrite length_insert|by apply Forall_insert|lia| |by rewrite Nat.add_1_r|].
    + intros i Hi. rewrite list_lookup_total_insert_ne by lia. apply Hz. lia.
    + rewrite Nat.add_1_r in Hf. exists u', q'. split; [done|]. rewrite val_insert_zero in Hrest by (lia || (apply Hz; lia)).
      destruct Hrest as (? & ? & ? & ? & Hb & ?). do 4 (split; [done|]). split; [lia|done].
Qed.
End step.

(** ** Correctness of the division *)
Lemma normalise n v : (1 <= n)%nat -> W ^ Z.of_nat (n - 1) <= v < W ^ Z.of_nat n ->
  let s := u64_leading_zeros (word v (n - 1)) in
  0 <= s <= 63 /\ v * 2 ^ s < W ^ Z.of_nat n /\ W <= 2 * word (v * 2 ^ s) (n - 1).
Proof.
  intros Hn Hv s. set (T := W ^ Z.of_nat (n - 1)) in *.
  assert (W ^ Z.of_nat n = W * T) as HT.
  { unfold T. replace n with (S (n - 1)) at 1 by lia.
    by rewrite Nat2Z.inj_succ, Z.pow_succ_r by lia. }
  assert (0 < T) as HTp by apply Wpow_pos. rewrite HT in *.
  assert (forall x, 0 <= x < W * T -> word x (n - 1) = x / T) as Hword.
  { intros x Hx. unfold word. apply Z.mod_small.
    split; [apply Z.div_pos; lia|apply Z.div_lt_upper_bound; lia]. }
  set (t := word v (n - 1)) in *.
  assert (t = v / T) as Ht by (apply Hword; lia).
  pose proof (Z_div_mod_eq_full v T) as Hdm. pose proof (Z.mod_pos_bound v T HTp).
  assert (0 < t) as Htp by (rewrite Ht; apply Z.div_str_pos; lia).
  assert (t < W) as HtW by apply word_is_word.
  destruct (Z.log2_spec t Htp) as [Hl1 Hl2]. pose proof (Z.log2_nonneg t).
  assert (Z.log2 t <= 63) as Hlog.
  { apply Z.lt_succ_r, Z.log2_lt_pow2; [done|]. done. }
  assert (s = 63 - Z.log2 t) as Hs.
  { unfold s, u64_leading_zeros. rewrite (proj2 (Z.eqb_neq _ _)); lia. }
  assert (2 ^ s * 2 ^ Z.succ (Z.log2 t) = W) as HW1.
  { rewrite <- Z.pow_add_r by lia. unfold W. f_equal. lia. }
  assert (2 * (2 ^ s * 2 ^ Z.log2 t) = W) as HW2.
  { rewrite <- HW1, Z.pow_succ_r by lia. ring. }
  pose proof (pow2_pos s ltac:(lia)).
  assert ((t + 1) * 2 ^ s <= W) as Hup by nia.
  assert (v < (t + 1) * T) as Hvt by nia.
  assert (v * 2 ^ s < W * T) as Hlt by nia.
  split; [lia|]. split; [done|]. rewrite Hword by nia.
  assert (t * 2 ^ s <= v * 2 ^ s / T).
  { apply Z.div_le_lower_bound; [done|]. nia. }
  nia.
Qed.

Section division.
Context {U : UintOps} {HU : UintLaws U} {E : Type}.

Lemma div_mod_knuth_512_ok slf v n m : length slf = 8%nat -> Forall is_word slf ->
  (2 <= n <= 4)%nat -> W ^ Z.of_nat (n - 1) <= v < W ^ Z.of_nat n ->
  (n + m <= 8)%nat -> val slf < W ^ Z.of_nat (n + m) ->
  exists q r, div_mod_knuth_512 (E:=E) slf v n m = Ok (q, r) /\
    length q = 8%nat /\ Forall is_word q /\ val slf = val q * v + r /\ 0 <= r < v.
Proof.
  intros Hl Hw Hn Hv Hnm Hlt. unfold div_mod_knuth_512.
  destruct (normalise n v ltac:(lia) Hv) as (Hs & Hv' & Hnorm).
  set (s := u64_leading_zeros (word v (n - 1))) in *. clearbody s.
  pose proof (pow2_pos s ltac:(lia)) as Hsp.
  assert (0 <= v) as Hv0 by (pose proof (Wpow_pos (n - 1)); lia).
  assert (W ^ Z.of_nat n <= 2 ^ 256) as HW4.
  { change (2 ^ 256) with (W ^ 4). apply Z.pow_le_mono_r; [done|lia]. }
  rewrite uint_shl_law by (unfold in_u256; rewrite ?MAX_VALUE_eq; lia).
  rewrite Z.mod_small by nia.
  destruct (full_shl_512_ok (E:=E) slf s Hl Hw Hs) as (u & -> & Hul & Huw & Huv).
  cbn [out_bind].
  destruct (knuth_loop_ok (E:=E) (v * 2 ^ s) n Hn ltac:(nia) Hnorm m u
              (replicate (2 * N_WORDS) 0))
    as (u' & q & Hf & Hul' & Huw' & Hql & Hqw & Hbal & Hlt').
  - done.
  - done.
  - done.
  - apply Forall_replicate. split; [lia|done].
  - lia.
  - intros i Hi. apply lookup_total_replicate_2. unfold N_WORDS. lia.
  - rewrite Huv.
    assert (W * W ^ Z.of_nat (n - 1) <= 2 * (v * 2 ^ s)) as Hbig.
    { pose proof (word_is_word (v * 2 ^ s) (n - 1)) as Hww. unfold word in Hnorm, Hww.
      pose proof (Wpow_pos (n - 1)) as Hp.
      pose proof (Z.mul_div_le (v * 2 ^ s) _ Hp).
      pose proof (Z.mod_le (v * 2 ^ s / W ^ Z.of_nat (n - 1)) W
                    ltac:(apply Z.div_pos; nia) W_pos). nia. }
    assert (2 * 2 ^ s <= W) as Hs2.
    { change W with (2 * 2 ^ 63). apply Z.mul_le_mono_nonneg_l; [lia|].
      apply Z.pow_le_mono_r; lia. }
    replace (Z.of_nat (n + m)) with (Z.of_nat (n - 1) + Z.of_nat (m + 1)) in Hlt by lia.
    rewrite Z.pow_add_r in Hlt by lia. pose proof (Wpow_pos (m + 1)).
    pose proof (Wpow_pos (n - 1)). pose proof (val_bounds slf Hw). nia.
  - rewrite Hf. cbn [out_bind]. rewrite val_zeros, Huv in Hbal.
    pose proof (val_bounds u' Huw') as Hub.
    destruct (full_shr_512_ok u' s Hul' Huw' Hs) as (Hrl & Hrw & Hrv).
    { apply Z.lt_trans with (2 ^ 256); [clear -Hv' HW4 Hlt'; lia|done]. }
    assert (val u' = (val slf - val q * v) * 2 ^ s) as Hrem by lia.
    rewrite Hrem, Z.div_mul in Hrv by lia.
    assert (0 <= val slf - val q * v < v) as Hrb by nia.
    exists q, (val slf - val q * v). split.
    + rewrite val_take, Hrv; [done|done|]. rewrite Hrv.
      change (W ^ Z.of_nat N_WORDS) with (2 ^ 256). lia.
    + split; [done|]. split; [done|]. split; [lia|done].
Qed.
Lemma bits_pow_le x : 0 < x -> 2 ^ (bits x - 1) <= x.
Proof.
  intros Hx. unfold bits. rewrite (proj2 (Z.eqb_neq x 0)) by lia.
  rewrite Z.add_simpl_r. by apply Z.log2_spec.
Qed.

Lemma bits_pow_lt x : 0 <= x -> x < 2 ^ bits x.
Proof.
  intros Hx. apply bits_lt_pow; [done| |lia]. unfold bits.
  destruct (x =? 0); [lia|]. pose proof (Z.log2_nonneg x). lia.
Qed.

Lemma bits_words x : 0 < x ->
  W ^ ((bits x + 63) / 64 - 1) <= x < W ^ ((bits x + 63) / 64) /\ 1 <= (bits x + 63) / 64.
Proof.
  intros Hx. pose proof (bits_pow_le x Hx). pose proof (bits_pow_lt x ltac:(lia)).
  assert (0 < bits x).
  { unfold bits. rewrite (proj2 (Z.eqb_neq x 0)) by lia. pose proof (Z.log2_nonneg x). lia. }
  pose proof (Z_div_mod_eq_full (bits x + 63) 64).
  pose proof (Z.mod_pos_bound (bits x + 63) 64 ltac:(lia)).
  unfold W. rewrite <- !Z.pow_mul_r by lia. split; [split|lia].
  - apply Z.le_trans with (2 ^ (bits x - 1)); [apply Z.pow_le_mono_r; lia|done].
  - apply Z.lt_le_trans with (2 ^ bits x); [done|apply Z.pow_le_mono_r; lia].
Qed.

Lemma div_mod_512_ok slf v : length slf = 8%nat -> Forall is_word slf ->
  in_u256 v -> v <> 0 ->
  exists q r, div_mod_512 (E:=E) slf v = Ok (q, r) /\ length q = 8%nat /\
    Forall is_word q /\ val slf = val q * v + r /\ 0 <= r < v.
Proof.
  intros Hl Hw Hv Hn. unfold div_mod_512. rewrite uint_bits_law by done.
  fold (bits v). rewrite bits_512_spec by (done || by intros ->).
  unfold in_u256 in Hv. rewrite MAX_VALUE_eq in Hv.
  pose proof (val_bounds slf Hw) as Hsb. rewrite Hl in Hsb.
  pose proof (bits_pow_le v ltac:(lia)) as Hvle.
  pose proof (bits_words v ltac:(lia)) as [Hvw Hvw1].
  rewrite (proj2 (Z.eqb_neq (bits v) 0)) by (intros Hz; rewrite Hz in Hvw1; by destruct Hvw1).
  destruct (Z.ltb_spec (bits (val slf)) (bits v)) as [Hlt|Hge].
  { assert (val slf < v) as Hsv.
    { apply Z.lt_le_trans with (2 ^ (bits v - 1)); [|done].
      apply bits_lt_pow; [lia| |lia]. unfold bits in *. destruct (val slf =? 0); [lia|].
      pose proof (Z.log2_nonneg (val slf)). lia. }
    eexists _, _. split; [done|]. split; [done|].
    split; [apply Forall_replicate; split; [lia|done]|].
    rewrite val_zeros, val_take; [lia|done|]. change (W ^ Z.of_nat N_WORDS) with (2 ^ 256). lia. }
  destruct (Z.leb_spec (bits v) 64) as [Hsm|Hlg].
  { apply bits_lt_pow in Hsm; [|lia..]. change (2 ^ 64) with W in Hsm.
    assert (word v 0 = v) as ->.
    { unfold word. change (W ^ Z.of_nat 0) with 1. rewrite Z.div_1_r. apply Z.mod_small. lia. }
    destruct (div_mod_small_512_ok slf v Hw ltac:(split; lia) ltac:(lia)) as (q & r & -> & Hql & ?).
    exists q, r. rewrite Hql. split; [done|]. by split. }
  assert (0 < val slf) as Hsp.
  { destruct (Z.eq_dec (val slf) 0) as [Hz|]; [|lia]. rewrite Hz in Hge.
    change (bits 0) with 0 in Hge. lia. }
  pose proof (bits_words (val slf) Hsp) as [Hsw Hsw1].
  rewrite !uint_words_law by (clear -Hlg Hge; lia).
  assert (bits v <= 256) as Hb4 by (apply bits_lt_pow; lia).
  assert (bits (val slf) <= 512) as Hb8.
  { apply bits_lt_pow; [lia..|]. change (2 ^ 512) with (W ^ Z.of_nat 8). lia. }
  set (n := (bits v + 63) / 64) in *. set (k := (bits (val slf) + 63) / 64) in *.
  assert (2 <= n <= 4) as Hn24.
  { unfold n. clear -Hb4 Hlg. Z.to_euclidean_division_equations. lia. }
  assert (n <= k <= 8) as Hnk.
  { split; [apply Z.div_le_mono; lia|].
    unfold k. clear -Hb8. Z.to_euclidean_division_equations. lia. }
  clear -Hl Hw Hvw Hsw Hn24 Hnk HU.
  apply div_mod_knuth_512_ok; [done|done|lia| |lia|].
  - replace (Z.of_nat (Z.to_nat n - 1)) with (n - 1) by lia. by rewrite Z2Nat.id by lia.
  - replace (Z.of_nat (Z.to_nat n + Z.to_nat (k - n))) with k by lia. lia.
Qed.
(** The quotient and the remainder, as arrays, are determined by their values. *)
Lemma div_mod_512_eq slf v : length slf = 8%nat -> Forall is_word slf ->
  in_u256 v -> v <> 0 ->
  div_mod_512 (E:=E) slf v = Ok (limbs 8 (val slf / v), val slf `mod` v).
Proof.
  intros Hl Hw Hv Hn.
  destruct (div_mod_512_ok slf v Hl Hw Hv Hn) as (q & r & -> & Hql & Hqw & Heq & Hr).
  rewrite <- (limbs_val q Hqw), Hql. do 3 f_equal.
  - apply Z.div_unique with r; [by left|lia].
  - apply Z.mod_unique with (val q); [by left|lia].
Qed.

Lemma any_nonzero_spec q : 0 <= q < 2 ^ 512 ->
  any_nonzero (limbs 4 (q / 2 ^ 256)) = (MAX_VALUE <? q).
Proof.
  intros Hq. rewrite MAX_VALUE_eq. destruct (Z.ltb_spec (2 ^ 256 - 1) q) as [Hlt|Hge].
  - apply not_false_iff_true. intros Hz.
    assert (0 < q / 2 ^ 256) as Hpos by (apply Z.div_str_pos; lia).
    rewrite <- (val_limbs 4 (q / 2 ^ 256)) in Hpos.
    + unfold any_nonzero in Hz. cbn [limbs take existsb] in Hz. cbn [limbs val] in Hpos.
      rewrite !orb_false_iff, !negb_false_iff, !Z.eqb_eq in Hz. lia.
    + change (W ^ Z.of_nat 4) with (2 ^ 256). split; [lia|].
      apply Z.div_lt_upper_bound; [lia|]. change (2 ^ 256 * 2 ^ 256) with (2 ^ 512). lia.
  - by rewrite Z.div_small by lia.
Qed.

Lemma checked_mul_div_eq a num d : in_u256 a -> in_u256 num -> in_u256 d ->
  checked_mul_div (E:=E) a num d =
  Ok (if (d =? 0) || (MAX_VALUE <? a * num / d) then None
      else Some (a * num / d, (a * num) `mod` d)).
Proof.
  intros Ha Hb Hd. unfold checked_mul_div.
  destruct (Z.eqb_spec d 0) as [-> | Hn]; [done|]. cbn [orb].
  destruct (uint_full_mul_law a num Ha Hb) as (Hl & Hw & Hv).
  rewrite div_mod_512_eq, Hv by done. cbn [out_bind].
  set (q := a * num / d).
  assert (0 <= q < 2 ^ 512) as Hq.
  { unfold q, in_u256 in *. rewrite MAX_VALUE_eq in *. split; [apply Z.div_pos; nia|].
    apply Z.div_lt_upper_bound; [lia|]. change (2 ^ 512) with (2 ^ 256 * 2 ^ 256). nia. }
  unfold N_WORDS. rewrite limbs_take by lia.
  replace (drop 4 (limbs 8 q)) with (limbs 4 (q / W ^ 4))
    by (change 8%nat with (4 + 4)%nat; by rewrite limbs_app, drop_app_length' by done).
  change (W ^ 4) with (2 ^ 256).
  rewrite any_nonzero_spec by done.
  destruct (Z.ltb_spec MAX_VALUE q) as [Hlt|Hge]; [done|].
  rewrite MAX_VALUE_eq in Hge. rewrite val_limbs; [done|].
  change (W ^ Z.of_nat 4) with (2 ^ 256). lia.
Qed.

Lemma fixed_precision_div_eq a b k : in_u256 a -> in_u256 b -> 0 <= k <= 255 ->
  fixed_precision_div (E:=E) a b k =
  Ok (if (MAX_VALUE <? 10 ^ k) || (b =? 0) || (MAX_VALUE <? 10 ^ k * a / b)
      then None else Some (10 ^ k * a / b)).
Proof.
  intros Ha Hb Hk. unfold fixed_precision_div.
  rewrite uint_checked_pow_law by (unfold in_u256; rewrite MAX_VALUE_eq; lia).
  destruct (Z.leb_spec (10 ^ k) MAX_VALUE) as [Hle|Hgt].
  - rewrite (proj2 (Z.ltb_ge _ _) Hle). cbn [orb].
    assert (in_u256 (10 ^ k)) by (split; [apply Z.pow_nonneg; lia|done]).
    rewrite checked_mul_div_eq by done.
    cbn [out_bind]. by destruct (_ || _).
  - by rewrite (proj2 (Z.ltb_lt _ _) Hgt).
Qed.
End division.

(** ** Properties *)

(** C19. The limb-level division of a 512-bit number by a 256-bit one (Knuth's
    Algorithm D, with the one-limb and the small-dividend cases) computes the
    Euclidean quotient, in eight limbs, and the remainder: none of its checked
    subtractions underflows, its correction loop ends, and it stops only for a
    zero divisor. *)
Theorem div_mod_512_correct {U : UintOps} {HU : UintLaws U} {E} (slf : list Z) (v : Z)
  (Hlen : length slf = 8%nat) (Hw : Forall is_word slf) (Hv : in_u256 v) :
  div_mod_512 (E:=E) slf v =
  if v =? 0 then Panic else Ok (limbs 8 (val slf / v), val slf `mod` v).
Proof.
  destruct (Z.eqb_spec v 0) as [-> | Hn]; [|by apply div_mod_512_eq].
  unfold div_mod_512. by rewrite uint_bits_law.
Qed.

(** [(2^448 + 7) / (2^192 + 5)] takes the Knuth branch. *)
Lemma div_mod_512_correct_witness :
  div_mod_512 (U:=Ref.uint_ref) (E:=unit) (limbs 8 (2 ^ 448 + 7)) (2 ^ 192 + 5) =
  Ok (limbs 8 ((2 ^ 448 + 7) / (2 ^ 192 + 5)), (2 ^ 448 + 7) `mod` (2 ^ 192 + 5)).
Proof.
  apply (div_mod_512_correct (HU:=Ref.uint_ref_laws) (limbs 8 (2 ^ 448 + 7)) (2 ^ 192 + 5)).
  - reflexivity.
  - apply limbs_words.
  - split; vm_compute; discriminate.
Defined.

(** Scaling a number by a ratio is exact: [checked_mul_div] returns the
    quotient and the remainder of the full product, [None] exactly for a zero
    denominator or a quotient over 256 bits, [mul_div] returns the quotient
    reduced to 256 bits, and [fixed_precision_div] is the rounded-down quotient
    at the given number of decimals; none of them stops on a nonzero
    denominator. *)
Theorem mul_div_exact {U : UintOps} {HU : UintLaws U} {E} (a b d k : Z)
  (Ha : in_u256 a) (Hb : in_u256 b) (Hd : in_u256 d) (Hk : 0 <= k <= 255) :
  checked_mul_div (E:=E) a b d =
    Ok (if (d =? 0) || (MAX_VALUE <? a * b / d) then None
        else Some (a * b / d, (a * b) `mod` d)) /\
  (d <> 0 -> mul_div (E:=E) a b d = Ok ((a * b / d) `mod` 2 ^ 256, (a * b) `mod` d)) /\
  fixed_precision_div (E:=E) a b k =
    Ok (if (MAX_VALUE <? 10 ^ k) || (b =? 0) || (MAX_VALUE <? 10 ^ k * a / b)
        then None else Some (10 ^ k * a / b)).
Proof.
  split; [by apply checked_mul_div_eq|]. split; [|by apply fixed_precision_div_eq].
  intros Hn. unfold mul_div. destruct (uint_full_mul_law a b Ha Hb) as (Hl & Hw & Hv).
  rewrite div_mod_512_eq, Hv by done. cbn [out_bind]. rewrite limbs_take by (unfold N_WORDS; lia).
  do 2 f_equal. change (2 ^ 256) with (W ^ Z.of_nat N_WORDS). apply val_limbs_mod.
Qed.

Lemma mul_div_exact_witness :
  checked_mul_div (U:=Ref.uint_ref) (E:=unit) MAX_VALUE MAX_VALUE MAX_VALUE
  = Ok (Some (MAX_VALUE, 0)).
Proof.
  destruct (mul_div_exact (HU:=Ref.uint_ref_laws) (E:=unit) MAX_VALUE MAX_VALUE MAX_VALUE 12)
    as [H _]; [split; vm_compute; discriminate..|split; discriminate|].
  rewrite H. reflexivity.
Defined.
