(* ===== verification/Int256.v ===== *)
(** * Signed 256-bit integers and the [Integer] trait: [core/src/types/uint.rs]

    [I256] wraps a [Uint] in two's complement, without the pattern [2^255]
    ([MINUS_ZERO]); [sval] is the integer it stands for and [i256_wf] the
    invariant of the type. The operations are translated on the wrapped [Uint]
    and related to integer arithmetic. The file also has the binary greatest
    common divisor of the [Integer] instance of [Uint]. *)

From S2P Require Import Prelude Uint Uint512.
From stdpp Require Import base numbers list option.
From Stdlib Require Import ZArith Lia Znumtheory.
Local Open Scope Z_scope.
Local Open Scope outcome_scope.

(** ** Operators of [Uint] with their panics *)
Section uint_operators.
Context {U : UintOps} {E : Type}.
Definition uint_add (a b : Z) : outcome E Z := unwrap (uint_op_add a b).
Definition uint_sub (a b : Z) : outcome E Z := unwrap (uint_op_sub a b).
Definition uint_mul (a b : Z) : outcome E Z := unwrap (uint_op_mul a b).
Definition uint_div (a b : Z) : outcome E Z :=
  unwrap (fst <$> uint_div_mod a b).
Definition uint_rem (a b : Z) : outcome E Z :=
  unwrap (snd <$> uint_div_mod a b).
End uint_operators.

(** ** [impl Integer for Uint] *)
Section integer.
Context {U : UintOps} {E : Type}.

Definition div_floor (a b : Z) : outcome E Z := uint_div a b.
Definition mod_floor (a b : Z) : outcome E Z := uint_rem a b.

Fixpoint gcd_loop (fuel : nat) (u v : Z) : outcome E Z :=
  match fuel with
  | O => Panic
  | S fuel' =>
      let v := uint_shr v (uint_trailing_zeros v) in
      let '(u, v) := if v <? u then (v, u) else (u, v) in
      let* v := uint_sub v u in
      if v =? 0 then Ok u else gcd_loop fuel' u v
  end.

(** Every iteration removes at least one bit from the pair, so 512 iterations
    are enough. *)
Definition gcd (a b : Z) : outcome E Z :=
  if a =? 0 then Ok a else
  if b =? 0 then Ok b else
  let shift := uint_trailing_zeros (uint_bitor a b) in
  let u := uint_shr a shift in
  let v := uint_shr b shift in
  let u := uint_shr u (uint_trailing_zeros u) in
  let* u := gcd_loop 512 u v in
  Ok (uint_shl u shift).

Definition lcm (a b : Z) : outcome E Z :=
  let* p := uint_mul a b in
  let* g := gcd a b in
  uint_div p g.

Definition divides (a b : Z) : outcome E bool :=
  let* r := uint_rem b a in Ok (r =? 0).

Definition is_even (a : Z) : bool := negb (uint_bitand a 1 =? 1).
Definition is_odd (a : Z) : bool := negb (is_even a).
Definition div_rem (a b : Z) : outcome E (Z * Z) := unwrap (uint_div_mod a b).
End integer.

(** ** Two's complement *)
Section i256.
Context {U : UintOps} {E : Type}.

Definition canonical (x : Z) : Z := if x =? MINUS_ZERO then 0 else x.

Definition negate (x : Z) : Z :=
  let output := (fun byte => Z.lxor byte U64_MAX) <$> words4 x in
  canonical (uint_overflowing_add (val output) 1).1.

Definition non_negative (x : Z) : bool := 0 <? u64_leading_zeros (word x 3).
Definition is_negative (x : Z) : bool := negb (non_negative x).
Definition i256_is_zero (x : Z) : bool := x =? 0.
Definition is_positive (x : Z) : bool := non_negative x && negb (i256_is_zero x).
Definition abs (x : Z) : Z := if non_negative x then x else negate x.
Definition neg (x : Z) : Z := negate x.

(** [TryFrom<Uint> for I256] *)
Definition try_from_uint (value : Z) : option Z :=
  if value <=? MAX_SIGNED_VALUE then Some value else None.

(** [From<u64> for I256] *)
Definition i256_from_u64 (v : Z) : outcome E Z := unwrap (try_from_uint v).

(** [Add<I256> for I256] *)
Definition i256_add (a b : Z) : outcome E Z :=
  let* r :=
    match non_negative a, non_negative b with
    | true, true => uint_add a b
    | false, false => let* s := uint_add (abs a) (abs b) in Ok (neg s)
    | true, false =>
        if abs b <=? a then uint_sub a (abs b)
        else let* s := uint_sub (abs b) a in Ok (neg s)
    | false, true =>
        if abs a <=? b then uint_sub b (abs a)
        else let* s := uint_sub (abs a) b in Ok (neg s)
    end in
  Ok (canonical r).

(** [Sub for I256] *)
Definition i256_sub (a b : Z) : outcome E Z := i256_add a (neg b).

Definition i256_checked_add (a b : Z) : outcome E (option Z) :=
  if Bool.eqb (non_negative a) (non_negative b) then
    Ok (v ← uint_checked_add (abs a) (abs b);
        (fun v => if negb (non_negative a) then neg v else v) <$> try_from_uint v)
  else let* s := i256_add a b in Ok (Some s).

Definition i256_checked_sub (a b : Z) : outcome E (option Z) :=
  i256_checked_add a (neg b).

(** [PartialOrd for I256] *)
Definition i256_cmp (a b : Z) : comparison :=
  match non_negative a, non_negative b with
  | true, false => Gt
  | false, true => Lt
  | true, true => abs a ?= abs b
  | false, false => abs b ?= abs a
  end.

(** [Mul<Uint> for I256] *)
Definition i256_mul_uint (a rhs : Z) : outcome E Z :=
  let* prod := uint_mul (abs a) rhs in
  Ok (if is_negative a then neg prod else prod).

(** [Mul for I256] *)
Definition i256_mul (a b : Z) : outcome E Z :=
  if is_negative b then i256_mul_uint (neg a) (abs b)
  else i256_mul_uint a (abs b).

Definition i256_checked_mul (a v : Z) : option Z :=
  let is_neg := xorb (is_negative a) (is_negative v) in
  p ← uint_checked_mul (abs a) (abs v);
  unsigned_res ← try_from_uint p;
  Some (if is_neg then neg unsigned_res else unsigned_res).

(** [Div<Uint> for I256]: a zero divisor gives zero *)
Definition i256_div_uint (a rhs : Z) : outcome E Z :=
  let* quot := fixed_precision_div (abs a) rhs 0 in
  let quot := default 0 quot in
  Ok (if is_negative a then neg quot else quot).

(** [Div<I256> for I256] *)
Definition i256_div (a b : Z) : outcome E Z :=
  if is_negative b then let* q := i256_div_uint a (abs b) in Ok (neg q)
  else i256_div_uint a (abs b).

(** [Rem for I256] *)
Definition i256_rem (a b : Z) : outcome E Z :=
  let* r := uint_rem (abs a) (abs b) in
  Ok (if is_negative a then neg r else r).

(** [Sum for I256] *)
Definition i256_sum (l : list Z) : outcome E Z := out_fold i256_add l 0.

(** [From<i128> for I256] *)
Definition i256_from_i128 (v : Z) : outcome E Z :=
  if v <? 0 then (if v =? - 2 ^ 127 then Panic else Ok (neg (- v))) else Ok v.

(** [TryFrom<Amount> for u128] *)
Definition u128_try_from_amount (v : Z) : option Z :=
  if existsb (fun w => negb (w =? 0)) (drop 2 (words4 v)) then None
  else Some (v `mod` 2 ^ 128).

(** [x as i128] for a [u128] *)
Definition u128_as_i128 (x : Z) : Z := if x <? 2 ^ 127 then x else x - 2 ^ 128.

(** [TryFrom<I256> for i128] *)
Definition i128_try_from_i256 (v : Z) : outcome unit Z :=
  if negb (non_negative v) then
    let* x := ok_or (u128_try_from_amount (abs v)) tt in
    let i := u128_as_i128 x in
    if i =? - 2 ^ 127 then Panic else Ok (- i)
  else
    let* x := ok_or (u128_try_from_amount (abs v)) tt in
    Ok (u128_as_i128 x).

(** [I256::from_masp_denominated]; [denom] is the limb, 0 to 3 *)
Definition i256_from_masp_denominated (value : Z) (denom : nat) : option Z :=
  let is_neg := value <? 0 in
  let result := val (<[denom := Z.abs value `mod` W]> [0; 0; 0; 0]) in
  if result <=? MAX_SIGNED_VALUE then
    Some (if is_neg then canonical (negate result) else canonical result)
  else None.

(** [MaspDenom::denominate_i128] of [core/src/types/token.rs] *)
Definition denominate_i128 (denom : nat) (amount : Z) : Z :=
  let v := word (abs amount) denom in
  if is_negative amount then - v else v.
End i256.

(** ** The integer an [I256] stands for *)
Definition sval (x : Z) : Z := if x <? 2 ^ 255 then x else x - 2 ^ 256.
Definition i256_wf (x : Z) : Prop := in_u256 x /\ x <> MINUS_ZERO.
(** The representation of an integer in range. *)
Definition srep (z : Z) : Z := z `mod` 2 ^ 256.
Definition in_i256 (z : Z) : Prop := Z.abs z <= MAX_SIGNED_VALUE.

Lemma sval_bounds x : i256_wf x -> in_i256 (sval x).
Proof.
  unfold i256_wf, in_u256, in_i256, sval. rewrite MAX_VALUE_eq, MAX_SIGNED_VALUE_eq, MINUS_ZERO_eq.
  intros [Hx Hn]. destruct (Z.ltb_spec x (2 ^ 255)); lia.
Qed.

Lemma srep_sval x : in_u256 x -> srep (sval x) = x.
Proof.
  unfold in_u256, srep, sval. rewrite MAX_VALUE_eq. intros Hx.
  destruct (Z.ltb_spec x (2 ^ 255)); [rewrite Z.mod_small; lia|].
  symmetry. apply Z.mod_unique with (-1); lia.
Qed.

Lemma srep_pos z : 0 <= z -> in_i256 z -> srep z = z.
Proof. unfold in_i256, srep. rewrite MAX_SIGNED_VALUE_eq. intros. rewrite Z.mod_small; lia. Qed.

Lemma srep_neg z : z < 0 -> in_i256 z -> srep z = z + 2 ^ 256.
Proof.
  unfold in_i256, srep. rewrite MAX_SIGNED_VALUE_eq. intros.
  symmetry. apply Z.mod_unique with (-1); lia.
Qed.

Lemma sval_srep z : in_i256 z -> sval (srep z) = z.
Proof.
  intros Hz. pose proof Hz as Hz'. unfold in_i256 in Hz'. rewrite MAX_SIGNED_VALUE_eq in Hz'.
  unfold sval. destruct (Z_lt_le_dec z 0).
  - rewrite srep_neg by done. destruct (Z.ltb_spec (z + 2 ^ 256) (2 ^ 255)); lia.
  - rewrite srep_pos by done. destruct (Z.ltb_spec z (2 ^ 255)); lia.
Qed.

Lemma srep_wf z : in_i256 z -> i256_wf (srep z).
Proof.
  intros Hz. pose proof Hz as Hz'. unfold in_i256 in Hz'. rewrite MAX_SIGNED_VALUE_eq in Hz'.
  unfold i256_wf, in_u256. rewrite MAX_VALUE_eq, MINUS_ZERO_eq. destruct (Z_lt_le_dec z 0).
  - rewrite srep_neg by done. lia.
  - rewrite srep_pos by done. lia.
Qed.

Lemma sval_inj x y : i256_wf x -> i256_wf y -> sval x = sval y -> x = y.
Proof. intros [Hx _] [Hy _] He. by rewrite <- (srep_sval x), <- (srep_sval y), He. Qed.

Lemma word3 x : in_u256 x -> word x 3 = x / 2 ^ 192.
Proof.
  intros Hx. unfold in_u256 in Hx. rewrite MAX_VALUE_eq in Hx. unfold word.
  change (W ^ Z.of_nat 3) with (2 ^ 192). apply Z.mod_small.
  split; [apply Z.div_pos; lia|apply Z.div_lt_upper_bound; [lia|]].
  change (2 ^ 192 * W) with (2 ^ 256). lia.
Qed.

Lemma non_negative_spec x : in_u256 x -> non_negative x = (0 <=? sval x).
Proof.
  intros Hx. unfold non_negative. rewrite word3 by done. pose proof Hx as Hx'.
  unfold in_u256 in Hx'. rewrite MAX_VALUE_eq in Hx'. unfold sval, u64_leading_zeros.
  assert (0 <= x / 2 ^ 192) by (apply Z.div_pos; lia).
  destruct (Z.ltb_spec x (2 ^ 255)) as [Hlt|Hge].
  - rewrite (proj2 (Z.leb_le 0 x)) by lia. apply Z.ltb_lt.
    destruct (Z.eqb_spec (x / 2 ^ 192) 0); [lia|].
    assert (x / 2 ^ 192 < 2 ^ 63) by (apply Z.div_lt_upper_bound; lia).
    assert (Z.log2 (x / 2 ^ 192) < 63) by (apply Z.log2_lt_pow2; lia). lia.
  - rewrite (proj2 (Z.leb_gt 0 (x - 2 ^ 256))) by lia. apply Z.ltb_ge.
    assert (2 ^ 63 <= x / 2 ^ 192) by (apply Z.div_le_lower_bound; lia).
    destruct (Z.eqb_spec (x / 2 ^ 192) 0); [lia|].
    assert (63 <= Z.log2 (x / 2 ^ 192)) by (apply Z.log2_le_pow2; lia). lia.
Qed.

(** Flipping every bit of every limb. *)
Lemma lxor_word w : is_word w -> Z.lxor w U64_MAX = U64_MAX - w.
Proof.
  intros Hw. change U64_MAX with (Z.ones 64).
  assert (Z.ldiff w (Z.ones 64) = 0) as Hd.
  { rewrite Z.ldiff_ones_r by lia. rewrite Z.shiftr_div_pow2 by lia.
    rewrite Z.div_small by exact Hw. done. }
  rewrite Z.sub_nocarry_ldiff by done. apply Z.bits_inj'. intros i Hi.
  apply (f_equal (fun z => Z.testbit z i)) in Hd. revert Hd.
  rewrite !Z.ldiff_spec, Z.lxor_spec, Z.bits_0.
  destruct (Z.testbit w i), (Z.testbit (Z.ones 64) i); simpl; congruence.
Qed.

Lemma val_flip ws : Forall is_word ws ->
  val ((fun w => Z.lxor w U64_MAX) <$> ws) = W ^ Z.of_nat (length ws) - 1 - val ws.
Proof.
  induction 1 as [|w ws Hw _ IH]; [done|].
  rewrite fmap_cons. cbn [val length]. rewrite IH, lxor_word by done.
  rewrite Nat2Z.inj_succ, Z.pow_succ_r by lia. change U64_MAX with (W - 1). ring.
Qed.

Section i256_lemmas.
Context {U : UintOps} {HU : UintLaws U} {E : Type}.

Lemma negate_eq x : in_u256 x -> negate x = canonical ((- x) `mod` 2 ^ 256).
Proof.
  intros Hx. unfold negate. rewrite words4_limbs, val_flip, limbs_length by apply limbs_words.
  rewrite <- words4_limbs, val_words4 by done. change (W ^ Z.of_nat 4) with (2 ^ 256).
  unfold in_u256 in Hx. rewrite MAX_VALUE_eq in Hx.
  rewrite uint_overflowing_add_law by (unfold in_u256; rewrite MAX_VALUE_eq; lia).
  cbn [fst]. f_equal. replace (2 ^ 256 - 1 - x + 1) with (- x + 1 * 2 ^ 256) by lia.
  by rewrite Z_mod_plus_full.
Qed.

Lemma canonical_id x : x <> MINUS_ZERO -> canonical x = x.
Proof. intros. unfold canonical. by rewrite (proj2 (Z.eqb_neq _ _)). Qed.

Lemma canonical_idem x : canonical (canonical x) = canonical x.
Proof. unfold canonical. destruct (x =? MINUS_ZERO) eqn:Hx; [done|by rewrite Hx]. Qed.

Lemma canonical_u256 x : in_u256 x -> in_u256 (canonical x).
Proof. unfold canonical. destruct (_ =? _); [|done]. by unfold in_u256. Qed.

Lemma canonical_srep z : in_i256 z -> canonical (srep z) = srep z.
Proof. intros Hz. apply canonical_id, srep_wf, Hz. Qed.

Lemma neg_rep s : 0 <= s <= MAX_SIGNED_VALUE -> neg s = srep (- s).
Proof.
  intros Hs. unfold neg. rewrite negate_eq; [apply canonical_srep|].
  - unfold in_i256. lia.
  - unfold in_u256. rewrite MAX_VALUE_eq, MAX_SIGNED_VALUE_eq in *. lia.
Qed.

Lemma neg_spec x : i256_wf x -> neg x = srep (- sval x).
Proof.
  intros Hx. unfold neg. rewrite negate_eq by apply Hx.
  pose proof (sval_bounds x Hx) as Hb. unfold in_i256 in Hb.
  rewrite <- (canonical_srep (- sval x)) by (unfold in_i256; lia). f_equal.
  unfold srep, sval. destruct (x <? 2 ^ 255); [done|].
  replace (- (x - 2 ^ 256)) with (- x + 1 * 2 ^ 256) by lia. by rewrite Z_mod_plus_full.
Qed.

Lemma abs_spec x : i256_wf x -> abs x = Z.abs (sval x).
Proof.
  intros Hx. unfold abs. rewrite non_negative_spec by apply Hx.
  pose proof (sval_bounds x Hx) as Hb. unfold in_i256 in Hb.
  destruct (Z.leb_spec 0 (sval x)).
  - rewrite <- (srep_sval x) at 1 by apply Hx. rewrite srep_pos; [lia|done..].
  - change (negate x) with (neg x). rewrite neg_spec by done.
    rewrite srep_pos by (unfold in_i256; lia). lia.
Qed.

Lemma is_negative_spec x : in_u256 x -> is_negative x = (sval x <? 0).
Proof. intros. unfold is_negative. rewrite non_negative_spec by done. by rewrite Z.ltb_antisym. Qed.

Lemma uint_add_ok a b : in_u256 a -> in_u256 b -> a + b <= MAX_VALUE ->
  uint_add (E:=E) a b = Ok (a + b).
Proof.
  intros Ha Hb Hs. unfold uint_add. rewrite uint_op_add_law by done.
  by rewrite (proj2 (Z.leb_le _ _) Hs).
Qed.

Lemma uint_sub_ok a b : in_u256 a -> in_u256 b -> b <= a ->
  uint_sub (E:=E) a b = Ok (a - b).
Proof.
  intros Ha Hb Hs. unfold uint_sub. rewrite uint_op_sub_law by done.
  by rewrite (proj2 (Z.leb_le _ _) Hs).
Qed.

Lemma uint_mul_eq a b : in_u256 a -> in_u256 b ->
  uint_mul (E:=E) a b = if a * b <=? MAX_VALUE then Ok (a * b) else Panic.
Proof.
  intros Ha Hb. unfold uint_mul. rewrite uint_op_mul_law by done. by destruct (_ <=? _).
Qed.

Lemma uint_div_eq a b : in_u256 a -> in_u256 b ->
  uint_div (E:=E) a b = if b =? 0 then Panic else Ok (a / b).
Proof.
  intros Ha Hb. unfold uint_div. rewrite uint_div_mod_law by done. by destruct (_ =? _).
Qed.

Lemma uint_rem_eq a b : in_u256 a -> in_u256 b ->
  uint_rem (E:=E) a b = if b =? 0 then Panic else Ok (a `mod` b).
Proof.
  intros Ha Hb. unfold uint_rem. rewrite uint_div_mod_law by done. by destruct (_ =? _).
Qed.

Lemma add_opposite p m : in_u256 p -> in_u256 m -> 2 ^ 255 < m ->
  (let* r := if 2 ^ 256 - m <=? p then uint_sub p (2 ^ 256 - m)
             else let* s := uint_sub (E:=E) (2 ^ 256 - m) p in Ok (neg s) in
   Ok (canonical r)) = Ok (canonical ((p + m) `mod` 2 ^ 256)).
Proof.
  intros Hp Hm Hlt. assert (in_u256 (2 ^ 256 - m)) as Hm'
    by (unfold in_u256 in *; rewrite MAX_VALUE_eq in *; lia).
  destruct (Z.leb_spec (2 ^ 256 - m) p); rewrite uint_sub_ok by (done || lia); cbn [out_bind];
    unfold in_u256 in *; rewrite MAX_VALUE_eq in *.
  - do 2 f_equal. apply Z.mod_unique with 1; lia.
  - unfold neg. rewrite negate_eq, canonical_idem by (unfold in_u256; rewrite MAX_VALUE_eq; lia).
    replace (- (2 ^ 256 - m - p)) with (p + m + (-1) * 2 ^ 256) by lia.
    by rewrite Z_mod_plus_full.
Qed.

(** Addition is modulo [2^256], with the minus zero pattern read as zero. *)
Lemma i256_add_wrap a b : i256_wf a -> i256_wf b ->
  i256_add (E:=E) a b = Ok (canonical ((a + b) `mod` 2 ^ 256)).
Proof.
  intros Ha Hb. pose proof Ha as [Ha1 Ha2]. pose proof Hb as [Hb1 Hb2].
  pose proof Ha1 as Ha3. pose proof Hb1 as Hb3. unfold i256_add.
  rewrite !non_negative_spec, !abs_spec by done.
  unfold in_u256, sval in *. rewrite MAX_VALUE_eq, MINUS_ZERO_eq in *.
  destruct (Z.ltb_spec a (2 ^ 255)), (Z.ltb_spec b (2 ^ 255));
    repeat match goal with |- context [0 <=? ?x] => destruct (Z.leb_spec 0 x); [|try lia] end;
    try lia;
    rewrite ?(Z.abs_neq (a - 2 ^ 256)), ?(Z.abs_neq (b - 2 ^ 256)), ?Z.opp_sub_distr by lia.
  - rewrite uint_add_ok by (done || rewrite MAX_VALUE_eq; lia). cbn [out_bind].
    by rewrite (Z.mod_small (a + b)) by lia.
  - replace (- b + 2 ^ 256) with (2 ^ 256 - b) by lia. apply add_opposite; done || lia.
  - replace (- a + 2 ^ 256) with (2 ^ 256 - a) by lia. rewrite (Z.add_comm a b).
    apply add_opposite; done || lia.
  - rewrite uint_add_ok by (unfold in_u256; rewrite MAX_VALUE_eq; lia). cbn [out_bind].
    unfold neg. rewrite negate_eq, canonical_idem by (unfold in_u256; rewrite MAX_VALUE_eq; lia).
    replace (- (- a + 2 ^ 256 + (- b + 2 ^ 256))) with (a + b + (-2) * 2 ^ 256) by lia.
    by rewrite Z_mod_plus_full.
Qed.

Lemma sval_mod x : sval x `mod` 2 ^ 256 = x `mod` 2 ^ 256.
Proof.
  unfold sval. destruct (x <? 2 ^ 255); [done|].
  replace (x - 2 ^ 256) with (x + (-1) * 2 ^ 256) by lia. by rewrite Z_mod_plus_full.
Qed.

Lemma i256_add_ok a b : i256_wf a -> i256_wf b -> in_i256 (sval a + sval b) ->
  i256_add (E:=E) a b = Ok (srep (sval a + sval b)).
Proof.
  intros Ha Hb Hs. rewrite i256_add_wrap by done. rewrite <- canonical_srep by done.
  unfold srep. by rewrite (Z.add_mod (sval a)), !sval_mod, <- Z.add_mod by lia.
Qed.

Lemma neg_wf a : i256_wf a -> i256_wf (neg a) /\ sval (neg a) = - sval a.
Proof.
  intros Ha. pose proof (sval_bounds a Ha) as Hb. unfold in_i256 in Hb.
  rewrite neg_spec by done. split; [apply srep_wf|apply sval_srep]; unfold in_i256; lia.
Qed.

Lemma i256_sub_ok a b : i256_wf a -> i256_wf b -> in_i256 (sval a - sval b) ->
  i256_sub (E:=E) a b = Ok (srep (sval a - sval b)).
Proof.
  intros Ha Hb Hs. destruct (neg_wf b Hb) as [Hn Hv]. unfold i256_sub.
  rewrite i256_add_ok, Hv by (done || by rewrite Hv). done.
Qed.
Lemma abs_u256 a : i256_wf a -> in_u256 (Z.abs (sval a)).
Proof.
  intros Ha. pose proof (sval_bounds a Ha) as Hb. unfold in_i256, in_u256 in *.
  rewrite MAX_VALUE_eq, MAX_SIGNED_VALUE_eq in *. lia.
Qed.

Definition in_i256b (z : Z) : bool := Z.abs z <=? MAX_SIGNED_VALUE.

Lemma in_i256b_spec z : reflect (in_i256 z) (in_i256b z).
Proof. apply iff_reflect. unfold in_i256, in_i256b. by rewrite Z.leb_le. Qed.

(** A sign put back on a magnitude. *)
Lemma signed_magnitude (neg_sign : bool) m z : 0 <= m <= MAX_SIGNED_VALUE ->
  z = (if neg_sign then - m else m) -> (if neg_sign then neg m else m) = srep z.
Proof.
  intros Hm ->. destruct neg_sign; [by apply neg_rep|].
  rewrite srep_pos; [done|lia|]. unfold in_i256. lia.
Qed.

Lemma MAX_SIGNED_le : MAX_SIGNED_VALUE <= MAX_VALUE.
Proof. done. Qed.

Lemma i256_checked_add_eq a b : i256_wf a -> i256_wf b ->
  i256_checked_add (E:=E) a b =
  Ok (if in_i256b (sval a + sval b) then Some (srep (sval a + sval b)) else None).
Proof.
  intros Ha Hb. unfold i256_checked_add.
  pose proof (sval_bounds a Ha) as Hba. pose proof (sval_bounds b Hb) as Hbb.
  unfold in_i256 in *. rewrite !non_negative_spec, !abs_spec by (apply Ha || apply Hb || done).
  destruct (Bool.eqb _ _) eqn:Hsg.
  - rewrite uint_checked_add_law by (by apply abs_u256).
    assert (Z.abs (sval a) + Z.abs (sval b) = Z.abs (sval a + sval b)) as ->.
    { apply Bool.eqb_prop in Hsg.
      destruct (Z.leb_spec 0 (sval a)), (Z.leb_spec 0 (sval b)); try done; lia. }
    rewrite (proj2 (Z.leb_le (Z.abs (sval a + sval b)) MAX_VALUE))
      by (rewrite MAX_VALUE_eq, MAX_SIGNED_VALUE_eq in *; lia).
    cbn [mbind option_bind]. unfold try_from_uint, in_i256b.
    destruct (Z.leb_spec (Z.abs (sval a + sval b)) MAX_SIGNED_VALUE) as [Hle|]; [|done].
    simpl. do 2 f_equal. apply signed_magnitude; [lia|].
    apply Bool.eqb_prop in Hsg.
    destruct (Z.leb_spec 0 (sval a)), (Z.leb_spec 0 (sval b)); try done; simpl; lia.
  - assert (in_i256 (sval a + sval b)) as Hin.
    { unfold in_i256. destruct (Z.leb_spec 0 (sval a)), (Z.leb_spec 0 (sval b)); try done; lia. }
    rewrite i256_add_ok by done. cbn [out_bind]. by destruct (in_i256b_spec (sval a + sval b)).
Qed.

Lemma i256_checked_sub_eq a b : i256_wf a -> i256_wf b ->
  i256_checked_sub (E:=E) a b =
  Ok (if in_i256b (sval a - sval b) then Some (srep (sval a - sval b)) else None).
Proof.
  intros Ha Hb. destruct (neg_wf b Hb) as [Hn Hv]. unfold i256_checked_sub.
  by rewrite i256_checked_add_eq, Hv by done.
Qed.

Lemma i256_cmp_spec a b : i256_wf a -> i256_wf b -> i256_cmp a b = (sval a ?= sval b).
Proof.
  intros Ha Hb. unfold i256_cmp.
  rewrite !non_negative_spec, !abs_spec by (apply Ha || apply Hb || done).
  destruct (Z.leb_spec 0 (sval a)), (Z.leb_spec 0 (sval b)).
  - by rewrite !Z.abs_eq by lia.
  - symmetry. apply Z.compare_gt_iff. lia.
  - symmetry. apply Z.compare_lt_iff. lia.
  - rewrite !Z.abs_neq by lia. by rewrite <- Z.compare_opp, !Z.opp_involutive.
Qed.

Lemma i256_mul_uint_ok a r : i256_wf a -> in_u256 r -> in_i256 (sval a * r) ->
  i256_mul_uint (E:=E) a r = Ok (srep (sval a * r)).
Proof.
  intros Ha Hr Hp. unfold i256_mul_uint. rewrite abs_spec, is_negative_spec by (apply Ha || done).
  rewrite uint_mul_eq by (done || by apply abs_u256).
  assert (Z.abs (sval a) * r = Z.abs (sval a * r)) as ->.
  { unfold in_u256 in Hr. rewrite Z.abs_mul, (Z.abs_eq r); lia. }
  unfold in_i256 in Hp. pose proof MAX_SIGNED_le.
  rewrite (proj2 (Z.leb_le _ _)) by lia. cbn [out_bind]. f_equal.
  apply signed_magnitude; [lia|]. unfold in_u256 in Hr. destruct (Z.ltb_spec (sval a) 0); nia.
Qed.

Lemma i256_mul_ok a b : i256_wf a -> i256_wf b -> in_i256 (sval a * sval b) ->
  i256_mul (E:=E) a b = Ok (srep (sval a * sval b)).
Proof.
  intros Ha Hb Hp. unfold i256_mul. rewrite abs_spec, is_negative_spec by (apply Hb || done).
  destruct (neg_wf a Ha) as [Hn Hv]. pose proof (abs_u256 b Hb).
  destruct (Z.ltb_spec (sval b) 0).
  - rewrite i256_mul_uint_ok, Hv by (done || rewrite Hv; rewrite Z.abs_neq by lia;
      by rewrite Z.mul_opp_opp). rewrite Z.abs_neq by lia. by rewrite Z.mul_opp_opp.
  - rewrite i256_mul_uint_ok by (done || by rewrite Z.abs_eq by lia). by rewrite Z.abs_eq by lia.
Qed.

Lemma i256_checked_mul_eq a b : i256_wf a -> i256_wf b ->
  i256_checked_mul a b =
  if in_i256b (sval a * sval b) then Some (srep (sval a * sval b)) else None.
Proof.
  intros Ha Hb. unfold i256_checked_mul.
  rewrite !abs_spec, !is_negative_spec by (apply Ha || apply Hb || done).
  rewrite uint_checked_mul_law by (by apply abs_u256). rewrite <- Z.abs_mul.
  unfold in_i256b, try_from_uint. pose proof MAX_SIGNED_le.
  destruct (Z.leb_spec (Z.abs (sval a * sval b)) MAX_VALUE);
    cbn [mbind option_bind];
    destruct (Z.leb_spec (Z.abs (sval a * sval b)) MAX_SIGNED_VALUE); try lia; try done.
  cbn [mbind option_bind]. f_equal. apply signed_magnitude; [lia|].
  destruct (Z.ltb_spec (sval a) 0), (Z.ltb_spec (sval b) 0); simpl; nia.
Qed.

(** Rounds towards zero; a zero divisor gives zero. *)
Lemma i256_div_uint_eq a r : i256_wf a -> in_u256 r ->
  i256_div_uint (E:=E) a r = Ok (srep (Z.quot (sval a) r)).
Proof.
  intros Ha Hr. unfold i256_div_uint. rewrite abs_spec, is_negative_spec by (apply Ha || done).
  pose proof (sval_bounds a Ha) as Hb. unfold in_i256, in_u256 in *. pose proof MAX_SIGNED_le.
  rewrite fixed_precision_div_eq by (done || lia || by apply abs_u256).
  cbn [out_bind]. rewrite Z.pow_0_r, Z.mul_1_l. f_equal.
  destruct (Z.eqb_spec r 0) as [-> | Hn].
  { rewrite orb_true_r. simpl. rewrite Z.quot_0_r_ext by done. destruct (_ <? _); [|done].
    by rewrite neg_rep. }
  assert (0 <= Z.abs (sval a) / r <= Z.abs (sval a)) as Hq.
  { split; [apply Z.div_pos; lia|apply Z.div_le_upper_bound; nia]. }
  rewrite (proj2 (Z.ltb_ge MAX_VALUE (_ / _))) by lia. cbn [orb].
  change (MAX_VALUE <? 1) with false. simpl. apply signed_magnitude; [lia|].
  destruct (Z.ltb_spec (sval a) 0).
  - rewrite Z.abs_neq, <- Z.quot_div_nonneg, <- Z.quot_opp_l by lia. f_equal. lia.
  - rewrite Z.abs_eq, <- Z.quot_div_nonneg by lia. done.
Qed.

Lemma i256_div_eq a b : i256_wf a -> i256_wf b ->
  i256_div (E:=E) a b = Ok (srep (Z.quot (sval a) (sval b))).
Proof.
  intros Ha Hb. unfold i256_div. rewrite abs_spec, is_negative_spec by (apply Hb || done).
  pose proof (abs_u256 b Hb). rewrite !i256_div_uint_eq by done. cbn [out_bind].
  destruct (Z.ltb_spec (sval b) 0); [|by rewrite Z.abs_eq by lia]. f_equal.
  assert (in_i256 (Z.quot (sval a) (Z.abs (sval b)))) as Hin.
  { pose proof (sval_bounds a Ha). unfold in_i256 in *.
    rewrite <- Z.quot_abs, Z.abs_involutive, Z.quot_div_nonneg by lia.
    apply Z.div_le_upper_bound; nia. }
  rewrite neg_spec by (by apply srep_wf). rewrite sval_srep by done.
  rewrite (Z.abs_neq (sval b)), Z.quot_opp_r, Z.opp_involutive by lia. done.
Qed.

Lemma i256_rem_eq a b : i256_wf a -> i256_wf b ->
  i256_rem (E:=E) a b =
  if sval b =? 0 then Panic else Ok (srep (Z.rem (sval a) (sval b))).
Proof.
  intros Ha Hb. unfold i256_rem. rewrite !abs_spec, is_negative_spec by (apply Ha || done).
  rewrite uint_rem_eq by (by apply abs_u256).
  destruct (Z.eqb_spec (sval b) 0) as [-> |Hn]; [done|].
  rewrite (proj2 (Z.eqb_neq _ _)) by lia. cbn [out_bind]. f_equal.
  pose proof (Z.mod_pos_bound (Z.abs (sval a)) (Z.abs (sval b)) ltac:(lia)) as Hm.
  pose proof (sval_bounds b Hb) as Hbb. unfold in_i256 in Hbb.
  apply signed_magnitude; [lia|]. rewrite <- (Z.rem_abs_r (sval a) (sval b)) by lia.
  destruct (Z.ltb_spec (sval a) 0).
  - rewrite (Z.abs_neq (sval a)), <- Z.rem_mod_nonneg, Z.rem_opp_l by lia. lia.
  - rewrite (Z.abs_eq (sval a)), <- Z.rem_mod_nonneg by lia. done.
Qed.
End i256_lemmas.

(** ** The binary greatest common divisor *)
Lemma gcd_double u x : Z.Odd u -> Z.gcd u (2 * x) = Z.gcd u x.
Proof.
  intros Ho. apply Z.divide_antisym_nonneg; try apply Z.gcd_nonneg.
  - apply Z.gcd_greatest; [apply Z.gcd_divide_l|].
    apply Z.gauss with 2; [apply Z.gcd_divide_r|].
    destruct (Z.gcd_divide_l u (2 * x)) as [q Hq]. set (g := Z.gcd u (2 * x)) in *.
    assert (Z.Odd g) as [k ->].
    { destruct (Z.Even_or_Odd g) as [[k Hk]|]; [|done]. exfalso.
      destruct Ho as [j Hj]. rewrite Hk in Hq. lia. }
    rewrite Z.gcd_comm, Z.add_comm, (Z.mul_comm 2), Z.gcd_add_mult_diag_r. done.
  - apply Z.gcd_greatest; [apply Z.gcd_divide_l|].
    apply Z.divide_trans with x; [apply Z.gcd_divide_r|by exists 2].
Qed.

Lemma gcd_pow2 u x k : Z.Odd u -> 0 <= k -> Z.gcd u (2 ^ k * x) = Z.gcd u x.
Proof.
  intros Ho Hk. revert k Hk. apply (natlike_ind (fun k => Z.gcd u (2 ^ k * x) = Z.gcd u x)).
  - by rewrite Z.pow_0_r, Z.mul_1_l.
  - intros k Hk IH. rewrite Z.pow_succ_r, <- Z.mul_assoc, gcd_double by done. done.
Qed.

Section gcd_proof.
Context {U : UintOps} {HU : UintLaws U} {E : Type}.

(** Shifting out the trailing zeros leaves the odd part. *)
Lemma odd_part x : in_u256 x -> x <> 0 ->
  let o := uint_shr x (uint_trailing_zeros x) in
  Z.Odd o /\ 0 < o /\ in_u256 o /\ exists k, 0 <= k < 256 /\ x = 2 ^ k * o /\ (o = x \/ 1 <= k).
Proof.
  intros Hx Hn o. destruct (uint_trailing_zeros_law x Hx Hn) as (Hk0 & k & Hk & Ho).
  set (t := uint_trailing_zeros x) in *. pose proof (pow2_pos t Hk0).
  unfold in_u256 in Hx. rewrite MAX_VALUE_eq in Hx.
  assert (0 < k) as Hkp by nia.
  assert (t < 256) as Ht by (apply (Z.pow_lt_mono_r_iff 2); nia || lia).
  assert (o = k) as ->.
  { unfold o. rewrite uint_shr_law by (unfold in_u256; rewrite ?MAX_VALUE_eq; lia).
    rewrite Hk, Z.mul_comm, Z.div_mul by lia. done. }
  split; [done|]. split; [done|].
  split; [unfold in_u256; rewrite MAX_VALUE_eq; nia|]. exists t. split; [lia|].
  split; [done|]. destruct (Z.eq_dec t 0) as [Hz|]; [left|right; lia].
  rewrite Hz in Hk. lia.
Qed.

Lemma gcd_loop_ok fuel u v : in_u256 u -> in_u256 v -> Z.Odd u -> 0 < u -> v <> 0 ->
  Z.log2 u + Z.log2 (uint_shr v (uint_trailing_zeros v)) < Z.of_nat fuel ->
  gcd_loop (E:=E) fuel u v = Ok (Z.gcd u v).
Proof.
  revert u v. induction fuel as [|fuel IH]; intros u v Hu Hv Ho Hup Hvn Hf.
  { pose proof (Z.log2_nonneg u). pose proof (Z.log2_nonneg (uint_shr v (uint_trailing_zeros v))).
    simpl in Hf. lia. }
  cbn [gcd_loop]. destruct (odd_part v Hv Hvn) as (Hwo & Hwp & Hw & k & Hk & Hvk & _).
  set (w := uint_shr v (uint_trailing_zeros v)) in *. clearbody w.
  rewrite Hvk, gcd_pow2 by (done || lia). clear Hvk Hv Hvn v Hk k.
  assert (exists a b, (if w <? u then (w, u) else (u, w)) = (a, b) /\ a <= b /\ 0 < a /\
    in_u256 a /\ in_u256 b /\ Z.Odd a /\ Z.Odd b /\ Z.gcd u w = Z.gcd a b /\
    Z.log2 a + Z.log2 b < Z.of_nat (S fuel)) as (a & b & -> & Hab & Ha & Hau & Hbu & Hao & Hbo & Hg & Hfu).
  { destruct (Z.ltb_spec w u); eexists _, _; split_and!; done || lia || apply Z.gcd_comm. }
  rewrite Hg, uint_sub_ok by done. cbn [out_bind].
  destruct (Z.eqb_spec (b - a) 0) as [Hz|Hnz].
  { replace b with a by lia. rewrite Z.gcd_diag_nonneg by lia. done. }
  assert (in_u256 (b - a)) as Hd by (unfold in_u256 in *; lia).
  rewrite IH; [| done | done | done | done | done |].
  - f_equal. by rewrite Z.gcd_sub_diag_r.
  - destruct (odd_part (b - a) Hd Hnz) as (Hoo & Hop & _ & k & Hk & Hdk & Hor).
    set (o := uint_shr (b - a) (uint_trailing_zeros (b - a))) in *. clearbody o.
    assert (o * 2 <= b).
    { destruct Hor as [-> | Hk1].
      - exfalso. destruct Hoo as [x Hx], Hao as [y Hy], Hbo as [z Hzz]. lia.
      - assert (2 ^ 1 <= 2 ^ k) by (apply Z.pow_le_mono_r; lia). nia. }
    assert (Z.succ (Z.log2 o) <= Z.log2 b).
    { rewrite <- Z.log2_double by done. apply Z.log2_le_mono. lia. }
    lia.
Qed.

(** The common power of two of two numbers is that of their bitwise or. *)
Lemma common_twos a b s k : 0 <= s -> Z.lor a b = 2 ^ s * k -> Z.Odd k ->
  exists a' b', a = 2 ^ s * a' /\ b = 2 ^ s * b' /\ (Z.Odd a' \/ Z.Odd b').
Proof.
  intros Hs Hl Hk.
  assert (forall i, Z.testbit (Z.lor a b) i = Z.testbit k (i - s)) as Hbit.
  { intros i. rewrite Hl, Z.mul_comm, <- Z.shiftl_mul_pow2 by done.
    destruct (Z_lt_le_dec i 0); [by rewrite !Z.testbit_neg_r by lia|].
    by apply Z.shiftl_spec. }
  assert (forall x, (forall i, i < s -> Z.testbit x i = false) -> x = 2 ^ s * (x / 2 ^ s)) as Hdiv.
  { intros x Hx. assert (x `mod` 2 ^ s = 0) as Hm.
    { apply Z.bits_inj'. intros i Hi. rewrite Z.bits_0. destruct (Z_lt_le_dec i s).
      - rewrite Z.mod_pow2_bits_low by lia. by apply Hx.
      - by rewrite Z.mod_pow2_bits_high by lia. }
    pose proof (pow2_pos s Hs). pose proof (Z_div_mod_eq_full x (2 ^ s)). lia. }
  assert (forall i, i < s -> Z.testbit a i = false /\ Z.testbit b i = false) as Hlow.
  { intros i Hi. specialize (Hbit i). rewrite Z.lor_spec, (Z.testbit_neg_r k) in Hbit by lia.
    by apply orb_false_iff in Hbit. }
  exists (a / 2 ^ s), (b / 2 ^ s). split; [apply Hdiv; intros; by apply Hlow|].
  split; [apply Hdiv; intros; by apply Hlow|].
  specialize (Hbit s). rewrite Z.lor_spec, Z.sub_diag, Z.bit0_odd in Hbit.
  rewrite (proj2 (Z.odd_spec k) Hk), !Z.testbit_odd, !Z.shiftr_div_pow2 in Hbit by done.
  apply orb_true_iff in Hbit as [H|H]; apply Z.odd_spec in H; auto.
Qed.

Lemma lor_u256 a b : in_u256 a -> in_u256 b -> in_u256 (Z.lor a b).
Proof.
  unfold in_u256 in *. rewrite MAX_VALUE_eq in *. intros Ha Hb.
  split; [apply Z.lor_nonneg; lia|].
  apply Z.lt_succ_r. change (Z.succ (2 ^ 256 - 1)) with (2 ^ 256).
  apply Z.log2_lt_cancel. rewrite Z.log2_lor, Z.log2_pow2 by lia.
  assert (forall x, 0 <= x <= 2 ^ 256 - 1 -> Z.log2 x < 256) as Hlog.
  { intros x Hx. apply Z.le_lt_trans with (Z.log2 (2 ^ 256 - 1)); [|done].
    apply Z.log2_le_mono. lia. }
  apply Z.max_lub_lt; apply Hlog; lia.
Qed.

Lemma log2_u256 x : in_u256 x -> Z.log2 x <= 255.
Proof.
  intros Hx. unfold in_u256 in Hx. rewrite MAX_VALUE_eq in Hx.
  replace 255 with (Z.log2 (2 ^ 256 - 1)) by done. apply Z.log2_le_mono. lia.
Qed.

Lemma gcd_ok a b : in_u256 a -> in_u256 b -> a <> 0 -> b <> 0 ->
  gcd (E:=E) a b = Ok (Z.gcd a b).
Proof.
  intros Ha Hb Han Hbn. unfold gcd.
  rewrite (proj2 (Z.eqb_neq a 0)), (proj2 (Z.eqb_neq b 0)), uint_bitor_law by done.
  pose proof (lor_u256 a b Ha Hb) as Hl.
  assert (Z.lor a b <> 0) as Hln by (rewrite Z.lor_eq_0_iff; lia).
  destruct (uint_trailing_zeros_law _ Hl Hln) as (Hs & k & Hk & Hko).
  set (s := uint_trailing_zeros (Z.lor a b)) in *. clearbody s.
  destruct (common_twos a b s k Hs Hk Hko) as (a' & b' & -> & -> & Hodd).
  pose proof (pow2_pos s Hs). unfold in_u256 in Ha, Hb. rewrite MAX_VALUE_eq in Ha, Hb.
  assert (0 < a') by nia. assert (0 < b') by nia.
  assert (s < 256) as Hs2 by (apply (Z.pow_lt_mono_r_iff 2); nia || lia).
  rewrite (uint_shr_law (2 ^ s * a')), (uint_shr_law (2 ^ s * b'))
    by (unfold in_u256; rewrite ?MAX_VALUE_eq; lia).
  rewrite !(Z.mul_comm (2 ^ s)), !Z.div_mul by lia.
  assert (in_u256 a') as Ha' by (unfold in_u256; rewrite MAX_VALUE_eq; nia).
  assert (in_u256 b') as Hb' by (unfold in_u256; rewrite MAX_VALUE_eq; nia).
  destruct (odd_part a' Ha' ltac:(nia)) as (Hoo & Hop & Hou & j & Hj & Haj & Hor).
  set (o := uint_shr a' (uint_trailing_zeros a')) in *. clearbody o.
  assert (Z.gcd o b' = Z.gcd a' b') as Hg.
  { destruct Hodd as [Hod|Hod].
    - destruct Hor as [-> | Hj1]; [done|]. exfalso. destruct Hod as [x Hx].
      replace j with (Z.succ (j - 1)) in Haj by lia. rewrite Z.pow_succ_r in Haj by lia. lia.
    - rewrite Haj, (Z.gcd_comm (2 ^ j * o)), gcd_pow2 by (done || lia). apply Z.gcd_comm. }
  rewrite gcd_loop_ok, Hg; [|done|done|done|done|nia|].
  - cbn [out_bind]. rewrite Z.gcd_mul_mono_r_nonneg by lia.
    assert (0 < Z.gcd a' b' <= a').
    { split; [pose proof (Z.gcd_nonneg a' b'); assert (Z.gcd a' b' <> 0); [|lia];
        rewrite Z.gcd_eq_0; nia|]. apply Z.divide_pos_le; [nia|apply Z.gcd_divide_l]. }
    rewrite uint_shl_law by (unfold in_u256; rewrite ?MAX_VALUE_eq; nia).
    rewrite Z.mod_small by nia. done.
  - destruct (odd_part b' Hb' ltac:(nia)) as (_ & _ & Hbu & _).
    pose proof (log2_u256 o Hou). pose proof (log2_u256 _ Hbu). lia.
Qed.
End gcd_proof.

(** ** Conversions *)
Section conversions.
Context {U : UintOps} {HU : UintLaws U} {E : Type}.

Lemma val_single d w : (d < 4)%nat -> val (<[d := w]> [0; 0; 0; 0]) = w * W ^ Z.of_nat d.
Proof.
  intros Hd. rewrite val_insert_zero; [simpl; lia|simpl; lia|].
  do 4 (destruct d as [|d]; [done|]). lia.
Qed.

Lemma word_part x d : in_u256 x -> (d < 4)%nat -> 0 <= word x d * W ^ Z.of_nat d <= x.
Proof.
  intros Hx Hd. pose proof (word_is_word x d) as [Hw _]. pose proof (Wpow_pos d).
  split; [nia|]. unfold word.
  pose proof (Z.mod_le (x / W ^ Z.of_nat d) W
    ltac:(apply Z.div_pos; unfold in_u256 in Hx; lia) W_pos).
  pose proof (Z.mul_div_le x (W ^ Z.of_nat d) ltac:(done)). nia.
Qed.

(** The part of an amount in one limb, with the sign of the amount. *)
Definition part (x : Z) (d : nat) : Z :=
  Z.sgn (sval x) * (word (Z.abs (sval x)) d * W ^ Z.of_nat d).

Lemma part_bounds x d : i256_wf x -> (d < 4)%nat -> in_i256 (part x d).
Proof.
  intros Hx Hd. pose proof (word_part _ d (abs_u256 x Hx) Hd) as Hp.
  pose proof (sval_bounds x Hx) as Hb. unfold in_i256, part in *.
  rewrite Z.abs_mul. destruct (Z.sgn_spec (sval x)) as [[? ->]|[[? ->]|[? ->]]]; lia.
Qed.

Lemma from_masp_part x d : i256_wf x -> (d < 4)%nat ->
  i256_from_masp_denominated (denominate_i128 d x) d = Some (srep (part x d)).
Proof.
  intros Hx Hd. pose proof (part_bounds x d Hx Hd) as Hb.
  pose proof (word_part _ d (abs_u256 x Hx) Hd) as Hp.
  unfold i256_from_masp_denominated, denominate_i128.
  rewrite abs_spec, is_negative_spec by (apply Hx || done).
  set (w := word (Z.abs (sval x)) d) in *. assert (is_word w) as Hw by apply word_is_word.
  assert (Z.abs (if sval x <? 0 then - w else w) `mod` W = w) as ->.
  { unfold is_word in Hw. destruct (_ <? _); rewrite ?Z.abs_opp, Z.abs_eq, Z.mod_small; lia. }
  rewrite val_single by done. pose proof (sval_bounds x Hx) as Hsb. unfold in_i256 in Hsb.
  rewrite (proj2 (Z.leb_le _ _)) by lia. f_equal.
  rewrite <- (canonical_srep (part x d)) by done.
  assert ((if (if sval x <? 0 then - w else w) <? 0 then negate (w * W ^ Z.of_nat d)
           else w * W ^ Z.of_nat d) = srep (part x d)) as <-.
  { apply signed_magnitude; [lia|]. unfold part. fold w. unfold is_word in Hw.
    pose proof (Wpow_pos d).
    destruct (Z.ltb_spec (sval x) 0).
    - rewrite Z.sgn_neg by lia. destruct (Z.ltb_spec (- w) 0); [lia|].
      assert (w = 0) as -> by lia. lia.
    - destruct (Z.ltb_spec w 0); [lia|]. destruct (Z.eq_dec (sval x) 0) as [Hz|].
      + unfold w in *. rewrite Hz in Hp |- *. simpl in Hp |- *. lia.
      + rewrite Z.sgn_pos by lia. lia. }
  by destruct (_ <? 0).
Qed.

Lemma part_sum x : i256_wf x -> part x 0 + part x 1 + part x 2 + part x 3 = sval x.
Proof.
  intros Hx. unfold part. pose proof (val_words4 _ (abs_u256 x Hx)) as Hv.
  unfold words4 in Hv. rewrite !fmap_cons, fmap_nil in Hv. cbn [val] in Hv.
  transitivity (Z.abs (sval x) * Z.sgn (sval x)); [|apply Z.abs_sgn].
  revert Hv. generalize (word (Z.abs (sval x)) 0), (word (Z.abs (sval x)) 1),
    (word (Z.abs (sval x)) 2), (word (Z.abs (sval x)) 3). intros w0 w1 w2 w3 <-.
  change (W ^ Z.of_nat 0) with 1. change (W ^ Z.of_nat 1) with W.
  change (W ^ Z.of_nat 2) with (W * W). change (W ^ Z.of_nat 3) with (W * W * W). ring.
Qed.
End conversions.

(** ** Properties *)

(** C37. [I256] implements the integers of absolute value at most
    [MAX_SIGNED_VALUE]: on well-formed values the operators return the
    representation of the exact result when it is in range, the checked
    operations detect exactly the results out of range, division rounds towards
    zero and gives zero for a zero divisor, the remainder stops for a zero
    divisor and follows the sign of the dividend, and the order is the order of
    the integers. *)
Theorem i256_refines_Z {U : UintOps} {HU : UintLaws U} {E} (a b : Z)
  (Ha : i256_wf a) (Hb : i256_wf b) :
  (in_i256 (sval a + sval b) -> i256_add (E:=E) a b = Ok (srep (sval a + sval b))) /\
  (in_i256 (sval a - sval b) -> i256_sub (E:=E) a b = Ok (srep (sval a - sval b))) /\
  (in_i256 (sval a * sval b) -> i256_mul (E:=E) a b = Ok (srep (sval a * sval b))) /\
  i256_checked_add (E:=E) a b =
    Ok (if in_i256b (sval a + sval b) then Some (srep (sval a + sval b)) else None) /\
  i256_checked_sub (E:=E) a b =
    Ok (if in_i256b (sval a - sval b) then Some (srep (sval a - sval b)) else None) /\
  i256_checked_mul a b =
    (if in_i256b (sval a * sval b) then Some (srep (sval a * sval b)) else None) /\
  i256_div (E:=E) a b = Ok (srep (Z.quot (sval a) (sval b))) /\
  i256_rem (E:=E) a b =
    (if sval b =? 0 then Panic else Ok (srep (Z.rem (sval a) (sval b)))) /\
  i256_cmp a b = (sval a ?= sval b) /\
  abs a = Z.abs (sval a) /\ neg a = srep (- sval a) /\
  (forall z, in_i256 z -> i256_wf (srep z) /\ sval (srep z) = z).
Proof.
  split_and!; intros; auto using i256_add_ok, i256_sub_ok, i256_mul_ok, i256_checked_add_eq,
    i256_checked_sub_eq, i256_checked_mul_eq, i256_div_eq, i256_rem_eq, i256_cmp_spec,
    abs_spec, neg_spec, srep_wf, sval_srep.
Qed.

Lemma i256_refines_Z_witness :
  i256_mul (U:=Ref.uint_ref) (E:=unit) (srep (-7)) (srep 6) = Ok (srep (-42)).
Proof.
  destruct (i256_refines_Z (HU:=Ref.uint_ref_laws) (E:=unit) (srep (-7)) (srep 6))
    as (_ & _ & Hmul & _); [split; [split|]; vm_compute; discriminate..|].
  rewrite Hmul by (vm_compute; discriminate). reflexivity.
Defined.

(** The plain addition of [I256] never stops: a sum out of range comes back
    as a value of the type that is not the sum, off by [2^256], or zero when the
    sum is exactly [2^255] in absolute value. *)
Theorem i256_add_overflow_silent {U : UintOps} {HU : UintLaws U} {E} (a b : Z)
  (Ha : i256_wf a) (Hb : i256_wf b) (Hout : ~ in_i256 (sval a + sval b)) :
  exists r, i256_add (E:=E) a b = Ok r /\ i256_wf r /\
    sval r = if Z.abs (sval a + sval b) =? 2 ^ 255 then 0
             else sval a + sval b - Z.sgn (sval a + sval b) * 2 ^ 256.
Proof.
  eexists. split; [by apply i256_add_wrap|].
  rewrite Z.add_mod, <- (sval_mod a), <- (sval_mod b), <- Z.add_mod by lia.
  pose proof (sval_bounds a Ha) as Hba. pose proof (sval_bounds b Hb) as Hbb.
  unfold in_i256 in *. rewrite MAX_SIGNED_VALUE_eq in *. set (z := sval a + sval b) in *.
  unfold canonical. rewrite MINUS_ZERO_eq.
  destruct (Z.eqb_spec (Z.abs z) (2 ^ 255)) as [He|Hne].
  - assert (z `mod` 2 ^ 256 = 2 ^ 255) as ->; [|by split; [split; vm_compute|]].
    destruct (Z_lt_le_dec z 0); symmetry;
      [apply Z.mod_unique with (-1); lia|apply Z.mod_unique with 0; lia].
  - assert (srep (z - Z.sgn z * 2 ^ 256) = z `mod` 2 ^ 256) as Hm.
    { unfold srep. replace (z - Z.sgn z * 2 ^ 256) with (z + (- Z.sgn z) * 2 ^ 256) by lia.
      apply Z_mod_plus_full. }
    assert (in_i256 (z - Z.sgn z * 2 ^ 256)) as Hin.
    { unfold in_i256. rewrite MAX_SIGNED_VALUE_eq. destruct (Z.sgn_spec z) as [[? ->]|[[? ->]|[? ->]]]; lia. }
    pose proof (srep_wf _ Hin) as [Hu Hmz]. rewrite MINUS_ZERO_eq in Hmz.
    rewrite <- Hm, (proj2 (Z.eqb_neq _ _) Hmz).
    split; [by apply srep_wf|by apply sval_srep].
Qed.

Lemma i256_add_overflow_silent_witness :
  exists r, i256_add (U:=Ref.uint_ref) (E:=unit) MAX_SIGNED_VALUE 1 = Ok r /\ sval r = 0.
Proof.
  destruct (i256_add_overflow_silent (HU:=Ref.uint_ref_laws) (E:=unit) MAX_SIGNED_VALUE 1)
    as (r & Hadd & _ & Hv);
    [split; [split|]; vm_compute; discriminate..|vm_compute; auto|].
  exists r. split; [exact Hadd|]. rewrite Hv. reflexivity.
Defined.

(** The binary algorithm ends and returns the greatest common divisor of
    two nonzero numbers; when one of them is zero it returns zero, not the
    other one. The least common multiple is exact when the product fits. *)
Theorem gcd_lcm_correct {U : UintOps} {HU : UintLaws U} {E} (a b : Z)
  (Ha : in_u256 a) (Hb : in_u256 b) :
  gcd (E:=E) a b = Ok (if (a =? 0) || (b =? 0) then 0 else Z.gcd a b) /\
  (a <> 0 -> b <> 0 ->
   lcm (E:=E) a b = if a * b <=? MAX_VALUE then Ok (Z.lcm a b) else Panic).
Proof.
  split.
  - destruct (Z.eqb_spec a 0) as [-> |Hna]; [done|].
    destruct (Z.eqb_spec b 0) as [-> |Hnb].
    + unfold gcd. by rewrite (proj2 (Z.eqb_neq a 0) Hna).
    + by apply gcd_ok.
  - intros Hna Hnb. unfold lcm. rewrite gcd_ok, uint_mul_eq by done.
    destruct (Z.leb_spec (a * b) MAX_VALUE) as [Hle|]; [|done]. cbn [out_bind].
    unfold in_u256 in *.
    assert (0 < Z.gcd a b <= a).
    { split; [pose proof (Z.gcd_nonneg a b); assert (Z.gcd a b <> 0); [|lia];
        rewrite Z.gcd_eq_0; lia|]. apply Z.divide_pos_le; [lia|apply Z.gcd_divide_l]. }
    rewrite uint_div_eq by (unfold in_u256; nia).
    rewrite (proj2 (Z.eqb_neq _ _)) by lia. f_equal. unfold Z.lcm.
    rewrite Z.divide_div_mul_exact by (lia || apply Z.gcd_divide_r).
    rewrite Z.abs_eq; [done|]. apply Z.mul_nonneg_nonneg; [lia|]. apply Z.div_pos; lia.
Qed.

Lemma gcd_lcm_correct_witness :
  gcd (U:=Ref.uint_ref) (E:=unit) 84 36 = Ok 12 /\
  gcd (U:=Ref.uint_ref) (E:=unit) 0 36 = Ok 0.
Proof.
  split.
  - destruct (gcd_lcm_correct (HU:=Ref.uint_ref_laws) (E:=unit) 84 36) as [H _];
      [split; vm_compute; discriminate..|exact H].
  - destruct (gcd_lcm_correct (HU:=Ref.uint_ref_laws) (E:=unit) 0 36) as [H _];
      [split; vm_compute; discriminate..|exact H].
Defined.

(** A change splits into four MASP amounts, one per limb, with its sign;
    converting each part back and adding the parts up gives the change. *)
Theorem masp_parts_sum {U : UintOps} {HU : UintLaws U} {E} (x : Z) (Hx : i256_wf x) :
  exists ps,
    mapM (fun d => i256_from_masp_denominated (denominate_i128 d x) d) [0; 1; 2; 3]%nat
      = Some ps /\
    i256_sum (E:=E) ps = Ok x.
Proof.
  exists (srep <$> (part x <$> [0; 1; 2; 3]%nat)). cbn [mapM fmap list_fmap].
  rewrite !from_masp_part by (done || lia). split; [done|].
  pose proof (part_sum x Hx) as Hsum. pose proof (sval_bounds x Hx) as Hb.
  pose proof (fun d Hd => word_part _ d (abs_u256 x Hx) Hd) as Hw.
  pose proof (Hw 0%nat ltac:(lia)). pose proof (Hw 1%nat ltac:(lia)).
  pose proof (Hw 2%nat ltac:(lia)). pose proof (Hw 3%nat ltac:(lia)).
  assert (in_i256 (part x 0 + part x 1)) as H01 by (revert Hsum Hb; unfold part, in_i256;
    destruct (Z.sgn_spec (sval x)) as [[? ->]|[[? ->]|[? ->]]]; lia).
  assert (in_i256 (part x 0 + part x 1 + part x 2)) as H012 by (revert Hsum Hb; unfold part, in_i256;
    destruct (Z.sgn_spec (sval x)) as [[? ->]|[[? ->]|[? ->]]]; lia).
  unfold i256_sum. cbn [out_fold]. change 0 with (srep 0).
  assert (forall d, (d < 4)%nat -> in_i256 (part x d)) as Hp by (intros; by apply part_bounds).
  assert (forall y z, in_i256 y -> in_i256 z -> in_i256 (y + z) ->
    i256_add (E:=E) (srep y) (srep z) = Ok (srep (y + z))) as Hadd.
  { intros. rewrite i256_add_ok; rewrite ?sval_srep; auto using srep_wf. }
  do 4 (rewrite Hadd; cbn [out_bind]; rewrite ?Z.add_0_l;
    [|done || (apply Hp; lia) || (by rewrite Hsum)..]).
  rewrite Hsum. f_equal. by apply srep_sval, Hx.
Qed.

Lemma masp_parts_sum_witness :
  exists ps, mapM (fun d => i256_from_masp_denominated (U:=Ref.uint_ref)
      (denominate_i128 (U:=Ref.uint_ref) d (srep (- (5 * W + 3)))) d) [0; 1; 2; 3]%nat = Some ps /\
    i256_sum (U:=Ref.uint_ref) (E:=unit) ps = Ok (srep (- (5 * W + 3))).
Proof.
  apply (masp_parts_sum (HU:=Ref.uint_ref_laws) (E:=unit) (srep (- (5 * W + 3)))).
  split; [split|]; vm_compute; discriminate.
Defined.
