(* ===== verification/Dec.v ===== *)
(** * Token amounts and fixed-point decimals

    [core/src/types/token.rs] ([Amount], [DenominatedAmount]) and
    [core/src/types/dec.rs] ([Dec]). An [Amount] is its raw [Uint]; a [Dec] is
    its raw [I256], the decimal times [10^12]; both are [Z] with the operations
    of [Uint] and [Int256]. Printing and parsing are left out. *)

From S2P Require Import Prelude Uint Uint512 Int256.
From stdpp Require Import base numbers list option.
From Stdlib Require Import ZArith Lia.
Local Open Scope Z_scope.
Local Open Scope outcome_scope.

(** ** Amounts *)
Section amount.
Context {U : UintOps} {E : Type}.

Definition NATIVE_MAX_DECIMAL_PLACES : Z := 6.
Definition NATIVE_SCALE : Z := 1000000.

(** [Amount::change] *)
Definition change (a : Z) : outcome E Z := unwrap (try_from_uint a).
Definition from_change (c : Z) : Z := abs c.
Definition spend (a amount : Z) : outcome E Z := unwrap (uint_checked_sub a amount).
Definition can_spend (a amount : Z) : bool := amount <=? a.
Definition receive (a amount : Z) : outcome E Z := unwrap (uint_checked_add a amount).
Definition native_whole (amount : Z) : outcome E Z := uint_mul amount NATIVE_SCALE.
Definition amount_is_zero (a : Z) : bool := a =? 0.

Definition amount_checked_add (a b : Z) : option Z :=
  result ← uint_checked_add a b;
  if result <=? MAX_VALUE then Some result else None.
Definition checked_signed_add (a b : Z) : option Z :=
  result ← uint_checked_add a b;
  if result <=? MAX_SIGNED_VALUE then Some result else None.
Definition amount_checked_sub (a b : Z) : option Z := uint_checked_sub a b.
Definition amount_checked_div (a b : Z) : option Z := uint_checked_div a b.
Definition amount_checked_mul (a b : Z) : option Z := uint_checked_mul a b.

(** [AmountParseError] *)
Inductive AmountParseError : Type :=
| ScaleTooLarge (n m : Z)
| InvalidRange
| ConvertToDecimal
| FromString
| NotNumeric
| PrecisionOverflow
| PrecisionDecrease.

Definition from_uint (u denom : Z) : outcome AmountParseError Z :=
  if denom =? 0 then Ok u
  else match (scaling ← uint_checked_pow 10 denom; uint_checked_mul scaling u) with
       | Some amount => Ok amount
       | None => Err ConvertToDecimal
       end.

(** [Amount::from_masp_denominated] and [MaspDenom::denominate] *)
Definition from_masp_denominated (v : Z) (denom : nat) : Z :=
  val (<[denom := v]> [0; 0; 0; 0]).
Definition denominate (denom : nat) (amount : Z) : Z := word amount denom.

(** Operators on amounts *)
Definition amount_add (a b : Z) : outcome E Z := uint_add a b.
Definition amount_sub (a b : Z) : outcome E Z := uint_sub a b.
Definition amount_mul (a b : Z) : outcome E Z := uint_mul a b.
Definition amount_div_u64 (a b : Z) : outcome E Z := uint_div a b.
Definition amount_sum (l : list Z) : outcome E Z := out_fold amount_add l 0.

(** [Mul<(u64, u64)> for Amount]: [x * (a, b) = (a * (x / b), x % b)] *)
Definition amount_mul_frac (x a b : Z) : outcome E (Z * Z) :=
  let* q := uint_div x b in
  let* amt := uint_mul q a in
  let* r := uint_rem x b in
  Ok (amt, r).
End amount.

(** ** Decimals *)
Definition POS_DECIMAL_PRECISION : Z := 12.

Section dec.
Context {U : UintOps} {E : Type}.

(** [Uint::exp10(POS_DECIMAL_PRECISION)] *)
Definition dec_scale : outcome E Z := unwrap (uint_exp10 POS_DECIMAL_PRECISION).

Definition trunc_div (a b : Z) : outcome E (option Z) :=
  let is_neg := xorb (is_negative a) (is_negative b) in
  let* r := fixed_precision_div (abs a) (abs b) POS_DECIMAL_PRECISION in
  match r with
  | Some res =>
      Ok ((fun res => if is_neg then neg res else res) <$> try_from_uint res)
  | None => Ok None
  end.

Definition dec_zero : Z := 0.
Definition dec_is_zero (a : Z) : bool := a =? dec_zero.
Definition dec_one : outcome E Z := let* s := dec_scale in uint_mul 1 s.
Definition dec_add (a b : Z) : outcome E Z := i256_add a b.
Definition dec_two : outcome E Z :=
  let* a := dec_one in let* b := dec_one in dec_add a b.

(** [Dec::new]; [mantissa.abs()] of the least [i128] stops *)
Definition dec_new (mantissa scale : Z) : outcome E (option Z) :=
  if POS_DECIMAL_PRECISION <? scale then Ok None
  else if mantissa =? - 2 ^ 127 then Panic
  else if U64_MAX <? Z.abs mantissa then Ok None
  else
    let* p := unwrap (uint_exp10 (POS_DECIMAL_PRECISION - scale)) in
    match uint_checked_mul p (Z.abs mantissa) with
    | Some res => Ok (Some (if mantissa <? 0 then neg res else res))
    | None => Ok None
    end.

Definition dec_sub (a b : Z) : outcome E Z := i256_sub a b.
Definition dec_gt (a b : Z) : bool :=
  match i256_cmp a b with Gt => true | _ => false end.
Definition abs_diff (a b : Z) : outcome E Z :=
  if dec_gt a b then dec_sub a b else dec_sub b a.
Definition to_i256 (a : Z) : outcome E Z := let* s := dec_scale in i256_div_uint a s.
Definition to_uint (a : Z) : outcome E (option Z) :=
  if is_negative a then Ok None
  else let* s := dec_scale in let* q := uint_div (abs a) s in Ok (Some q).
Definition dec_checked_sub (a b : Z) : outcome E (option Z) :=
  if dec_gt a b then let* d := dec_sub a b in Ok (Some d) else Ok None.
Definition dec_checked_mul (a b : Z) : outcome E (option Z) :=
  match i256_checked_mul a b with
  | None => Ok None
  | Some result =>
      let* s := dec_scale in let* q := i256_div_uint result s in Ok (Some q)
  end.

Definition ceil (a : Z) : outcome E Z :=
  if is_negative a then to_i256 a
  else
    let* floor := to_i256 a in
    let* d := dec_sub a floor in
    if dec_is_zero d then Ok floor else i256_add floor 1.

(** [From<Amount>], [TryFrom<Uint>], [From<u64>], [From<i128>], [From<I256>] *)
Definition dec_from_amount (amt : Z) : outcome E Z :=
  match try_from_uint amt with
  | Some raw =>
      let* s := unwrap (uint_exp10 (POS_DECIMAL_PRECISION - NATIVE_MAX_DECIMAL_PLACES)) in
      i256_mul_uint raw s
  | None => Ok dec_zero
  end.
Definition dec_try_from_uint (value : Z) : outcome unit Z :=
  let* i := ok_or (try_from_uint value) tt in
  let* s := unwrap (uint_exp10 POS_DECIMAL_PRECISION) in i256_mul_uint i s.
Definition dec_from_u64 (num : Z) : outcome E Z :=
  let* i := i256_from_u64 num in let* s := dec_scale in i256_mul_uint i s.
Definition dec_from_i128 (num : Z) : outcome E Z :=
  let* i := i256_from_i128 num in let* s := dec_scale in i256_mul_uint i s.
Definition dec_from_i256 (num : Z) : outcome E Z :=
  let* s := dec_scale in i256_mul_uint num s.

Definition dec_add_u64 (a rhs : Z) : outcome E Z :=
  let* i := i256_from_u64 rhs in i256_add a i.
Definition dec_sum (l : list Z) : outcome E Z := out_fold dec_add l dec_zero.
Definition dec_mul_u64 (a rhs : Z) : outcome E Z := i256_mul_uint a rhs.

(** [Mul<Amount> for Dec] *)
Definition dec_mul_amount (d amt : Z) : outcome E Z :=
  if negb (is_negative d) then
    let* p := amount_mul amt (abs d) in
    amount_div_u64 p (10 ^ POS_DECIMAL_PRECISION)
  else Panic.

(** [Mul<Change> for Dec] *)
Definition dec_mul_change (d c : Z) : outcome E Z :=
  let* tot := i256_mul c d in
  i256_div_uint tot (10 ^ POS_DECIMAL_PRECISION).

Definition dec_mul (a b : Z) : outcome E Z :=
  let* prod := i256_mul a b in
  let* s := dec_scale in
  i256_div_uint prod s.
Definition dec_div (a b : Z) : outcome E Z :=
  let* r := trunc_div a b in unwrap r.
Definition dec_div_u64 (a rhs : Z) : outcome E Z := i256_div_uint a rhs.
Definition dec_neg (a : Z) : Z := neg a.

(** [From<Dec> for Amount] *)
Definition amount_from_dec (d : Z) : outcome E Z :=
  if negb (is_negative d) then let* s := dec_scale in uint_div (abs d) s else Panic.

(** [Amount::mul_ceil] *)
Definition amount_mul_ceil (a dec : Z) : outcome E Z :=
  if is_negative dec then Panic
  else
    let* tot := uint_mul a (abs dec) in
    let denom := 10 ^ POS_DECIMAL_PRECISION in
    let* floor_div := uint_div tot denom in
    let* rem := uint_rem tot denom in
    if negb (rem =? 0) then uint_add floor_div 1 else Ok floor_div.

(** [I256::mul_ceil] *)
Definition i256_mul_ceil (a dec : Z) : outcome E Z :=
  let is_res_negative := xorb (is_negative a) (is_negative dec) in
  let* tot := uint_mul (abs a) (abs dec) in
  let denom := 10 ^ POS_DECIMAL_PRECISION in
  let* floor_div := uint_div tot denom in
  let* rem := uint_rem tot denom in
  let* abs_res := if negb (rem =? 0) && negb is_res_negative
                  then uint_add floor_div 1 else Ok floor_div in
  Ok (if is_res_negative then neg abs_res else abs_res).
End dec.

(** ** Denominated amounts *)
Record DenominatedAmount : Type := mkDenominated { da_amount : Z; da_denom : Z }.

#[export] Instance DenominatedAmount_eq_dec : EqDecision DenominatedAmount.
Proof. solve_decision. Defined.

Section denominated.
Context {U : UintOps} {E : Type}.

Definition denominated_native (amount : Z) : DenominatedAmount :=
  mkDenominated amount NATIVE_MAX_DECIMAL_PLACES.

Fixpoint canonical_loop (n : nat) (value denom : Z) : outcome E (Z * Z) :=
  match n with
  | O => Ok (value, denom)
  | S n' =>
      let* '(div, rem) := unwrap (uint_div_mod value 10) in
      if rem =? 0 then
        (if denom =? 0 then Panic else canonical_loop n' div (denom - 1))
      else canonical_loop n' value denom
  end.

(** [DenominatedAmount::canonical] *)
Definition da_canonical (a : DenominatedAmount) : outcome E DenominatedAmount :=
  let* '(value, denom) := canonical_loop (Z.to_nat (da_denom a)) (da_amount a) (da_denom a) in
  Ok (mkDenominated value denom).

Definition increase_precision (a : DenominatedAmount) (denom : Z)
  : outcome AmountParseError DenominatedAmount :=
  if denom <? da_denom a then Err PrecisionDecrease
  else
    ok_or (scaling ← uint_checked_pow 10 (denom - da_denom a);
           amount ← uint_checked_mul (da_amount a) scaling;
           Some (mkDenominated amount denom)) PrecisionOverflow.

Definition da_scale (a : DenominatedAmount) (denom : Z) : outcome AmountParseError Z :=
  let* x := increase_precision a denom in Ok (da_amount x).

(** [Result::ok] *)
Definition out_ok {F A} (o : outcome F A) : option A :=
  match o with Ok a => Some a | _ => None end.

Definition da_checked_mul (a b : DenominatedAmount) : option DenominatedAmount :=
  amount ← amount_checked_mul (da_amount a) (da_amount b);
  if da_denom a + da_denom b <=? 255
  then Some (mkDenominated amount (da_denom a + da_denom b)) else None.

(** Bring two amounts to the larger precision. *)
Definition da_align (a b : DenominatedAmount)
  : option (DenominatedAmount * DenominatedAmount) :=
  if da_denom a <? da_denom b then
    lhs ← out_ok (increase_precision a (da_denom b)); Some (lhs, b)
  else
    rhs ← out_ok (increase_precision b (da_denom a)); Some (a, rhs).

Definition da_checked_sub (a b : DenominatedAmount) : option DenominatedAmount :=
  '(lhs, rhs) ← da_align a b;
  amount ← amount_checked_sub (da_amount lhs) (da_amount rhs);
  Some (mkDenominated amount (da_denom lhs)).

Definition da_checked_add (a b : DenominatedAmount) : option DenominatedAmount :=
  '(lhs, rhs) ← da_align a b;
  amount ← amount_checked_add (da_amount lhs) (da_amount rhs);
  Some (mkDenominated amount (da_denom lhs)).

(** [PartialOrd for DenominatedAmount] *)
Definition da_cmp (a b : DenominatedAmount) : outcome E comparison :=
  if da_denom a <? da_denom b then
    let diff := da_denom b - da_denom a in
    let* s := unwrap (uint_exp10 diff) in
    let* '(div, rem) := unwrap (uint_div_mod (da_amount b) s) in
    let* div_ceil := if rem =? 0 then Ok div else uint_add div 1 in
    Ok (match da_amount a ?= div_ceil with
        | Eq => if rem =? 0 then Eq else Gt
        | ord => ord
        end)
  else
    let diff := da_denom a - da_denom b in
    let* s := unwrap (uint_exp10 diff) in
    let* '(div, rem) := unwrap (uint_div_mod (da_amount a) s) in
    let* div_ceil := if rem =? 0 then Ok div else uint_add div 1 in
    Ok (match div_ceil ?= da_amount b with
        | Eq => if rem =? 0 then Eq else Lt
        | ord => ord
        end).
End denominated.

(** ** Values of the operations *)
(** The scale of a [Dec]; a [Dec] [d] stands for [sval d / SC]. *)
Definition SC : Z := 10 ^ 12.

Lemma SC_pos : 0 < SC.
Proof. done. Qed.

Lemma SC_u256 : in_u256 SC.
Proof. split; vm_compute; discriminate. Qed.
#[export] Hint Resolve SC_pos SC_u256 : namada.

(** Division towards zero, by magnitude and sign. *)
Lemma quot_signs a b : b <> 0 ->
  Z.quot a b = if xorb (a <? 0) (b <? 0) then - (Z.abs a / Z.abs b) else Z.abs a / Z.abs b.
Proof.
  intros Hb. rewrite <- Z.quot_div_nonneg by lia.
  destruct (Z.ltb_spec a 0), (Z.ltb_spec b 0); cbn [xorb].
  - rewrite !Z.abs_neq by lia. by rewrite Z.quot_opp_opp.
  - rewrite Z.abs_neq, Z.abs_eq by lia. rewrite Z.quot_opp_l by done. lia.
  - rewrite Z.abs_eq, Z.abs_neq by lia. rewrite Z.quot_opp_r by done. lia.
  - by rewrite !Z.abs_eq by lia.
Qed.

Section dec_lemmas.
Context {U : UintOps} {HU : UintLaws U} {E : Type}.

Lemma dec_scale_ok : dec_scale (E:=E) = Ok SC.
Proof. unfold dec_scale. by rewrite uint_exp10_law by (unfold POS_DECIMAL_PRECISION; lia). Qed.

Lemma quot_in_i256 z s : 0 < s -> in_i256 z -> in_i256 (Z.quot z s).
Proof.
  unfold in_i256. intros Hs Hz. rewrite <- Z.quot_abs, Z.quot_div_nonneg by lia.
  rewrite (Z.abs_eq s) by lia. apply Z.le_trans with (Z.abs z); [|done].
  apply Z.div_le_upper_bound; nia.
Qed.

Lemma dec_mul_eq a b : i256_wf a -> i256_wf b -> in_i256 (sval a * sval b) ->
  dec_mul (E:=E) a b = Ok (srep (Z.quot (sval a * sval b) SC)).
Proof.
  intros Ha Hb Hp. unfold dec_mul. rewrite i256_mul_ok, dec_scale_ok by done. cbn [out_bind].
  rewrite i256_div_uint_eq, sval_srep by (done || by apply srep_wf || apply SC_u256). done.
Qed.

Lemma dec_checked_mul_eq a b : i256_wf a -> i256_wf b ->
  dec_checked_mul (E:=E) a b =
  Ok (if in_i256b (sval a * sval b) then Some (srep (Z.quot (sval a * sval b) SC)) else None).
Proof.
  intros Ha Hb. unfold dec_checked_mul. rewrite i256_checked_mul_eq by done.
  destruct (in_i256b_spec (sval a * sval b)); [|done]. rewrite dec_scale_ok. cbn [out_bind].
  by rewrite i256_div_uint_eq, sval_srep by (done || by apply srep_wf || apply SC_u256).
Qed.

Lemma trunc_div_eq a b : i256_wf a -> i256_wf b ->
  trunc_div (E:=E) a b =
  Ok (if (sval b =? 0) || negb (in_i256b (Z.quot (sval a * SC) (sval b))) then None
      else Some (srep (Z.quot (sval a * SC) (sval b)))).
Proof.
  intros Ha Hb. unfold trunc_div.
  rewrite !is_negative_spec, !abs_spec by (apply Ha || apply Hb || done).
  rewrite fixed_precision_div_eq by (apply abs_u256; done) || (unfold POS_DECIMAL_PRECISION; lia).
  change (10 ^ POS_DECIMAL_PRECISION) with SC. change (MAX_VALUE <? SC) with false. cbn [orb].
  destruct (Z.eqb_spec (sval b) 0) as [Hz|Hn]; [by rewrite Hz|].
  rewrite (proj2 (Z.eqb_neq _ _)) by lia. cbn [orb out_bind].
  set (m := SC * Z.abs (sval a) / Z.abs (sval b)).
  assert (0 <= m) by (unfold m; pose proof SC_pos; apply Z.div_pos; lia).
  assert (Z.quot (sval a * SC) (sval b) =
    if xorb (sval a <? 0) (sval b <? 0) then - m else m) as ->.
  { rewrite quot_signs by done. unfold m. pose proof SC_pos.
    rewrite Z.abs_mul, (Z.abs_eq SC), (Z.mul_comm SC) by lia.
    replace (sval a * SC <? 0) with (sval a <? 0); [done|].
    destruct (Z.ltb_spec (sval a) 0), (Z.ltb_spec (sval a * SC) 0); (done || nia). }
  set (sg := xorb (sval a <? 0) (sval b <? 0)). unfold in_i256b, try_from_uint.
  assert (Z.abs (if sg then - m else m) = m) as -> by (destruct sg; lia).
  pose proof MAX_SIGNED_le. destruct (Z.leb_spec m MAX_SIGNED_VALUE) as [Hle|Hgt]; cbn [negb].
  - rewrite (proj2 (Z.ltb_ge _ _)), (proj2 (Z.leb_le _ _) Hle) by lia. simpl.
    do 2 f_equal. by apply signed_magnitude.
  - destruct (Z.ltb_spec MAX_VALUE m); [done|]. by rewrite (proj2 (Z.leb_gt _ _) Hgt).
Qed.

(** A non-negative rate. *)
Definition rate_ok (d : Z) : Prop := i256_wf d /\ 0 <= sval d.

Lemma rate_abs d : rate_ok d -> abs d = sval d /\ is_negative d = false /\ in_u256 (sval d).
Proof.
  intros [Hd Hs]. rewrite abs_spec, is_negative_spec by (apply Hd || done).
  pose proof (abs_u256 d Hd) as Hu. rewrite Z.abs_eq in * by done.
  split; [done|]. split; [by apply Z.ltb_ge|done].
Qed.

Lemma mul_u256 a b : in_u256 a -> in_u256 b -> a * b <= MAX_VALUE -> in_u256 (a * b).
Proof. unfold in_u256. nia. Qed.

Lemma dec_mul_amount_eq d x : rate_ok d -> in_u256 x ->
  dec_mul_amount (E:=E) d x =
  if x * sval d <=? MAX_VALUE then Ok (x * sval d / SC) else Panic.
Proof.
  intros Hd Hx. destruct (rate_abs d Hd) as (Ha & Hn & Hu). unfold dec_mul_amount.
  rewrite Ha, Hn. cbn [negb]. unfold amount_mul, amount_div_u64. rewrite uint_mul_eq by done.
  destruct (Z.leb_spec (x * sval d) MAX_VALUE); [|done]. cbn [out_bind].
  change (10 ^ POS_DECIMAL_PRECISION) with SC.
  by rewrite uint_div_eq by (by apply mul_u256 || apply SC_u256).
Qed.

(** The quotient by [s], rounded up. *)
Definition div_ceil (x s : Z) : Z := if x `mod` s =? 0 then x / s else x / s + 1.

Lemma div_ceil_eq x s : 0 < s -> div_ceil x s = - (- x / s).
Proof.
  intros Hs. unfold div_ceil. destruct (Z.eqb_spec (x `mod` s) 0) as [Hm|Hm].
  - rewrite Z.div_opp_l_z by lia. lia.
  - rewrite Z.div_opp_l_nz by lia. lia.
Qed.

Lemma amount_mul_ceil_eq d x : rate_ok d -> in_u256 x ->
  amount_mul_ceil (E:=E) x d =
  if x * sval d <=? MAX_VALUE then Ok (div_ceil (x * sval d) SC) else Panic.
Proof.
  intros Hd Hx. destruct (rate_abs d Hd) as (Ha & Hn & Hu). unfold amount_mul_ceil.
  rewrite Ha, Hn, uint_mul_eq by done.
  destruct (Z.leb_spec (x * sval d) MAX_VALUE) as [Hle|]; [|done]. cbn [out_bind].
  change (10 ^ POS_DECIMAL_PRECISION) with SC.
  pose proof (mul_u256 x (sval d) Hx Hu Hle) as Hp.
  rewrite uint_div_eq, uint_rem_eq by (done || apply SC_u256).
  change (SC =? 0) with false. cbn [out_bind]. unfold div_ceil.
  destruct (Z.eqb_spec ((x * sval d) `mod` SC) 0) as [Hz|Hz]; cbn [negb]; [done|].
  unfold in_u256 in *. pose proof SC_pos.
  assert (0 <= x * sval d / SC) by (apply Z.div_pos; lia).
  assert (x * sval d / SC * 2 <= x * sval d).
  { pose proof (Z.mul_div_le (x * sval d) SC SC_pos). unfold SC in *. lia. }
  rewrite uint_add_ok; [done|..]; unfold in_u256; rewrite MAX_VALUE_eq in *; lia.
Qed.

Lemma to_i256_eq a : i256_wf a -> to_i256 (E:=E) a = Ok (srep (Z.quot (sval a) SC)).
Proof.
  intros Ha. unfold to_i256. rewrite dec_scale_ok. cbn [out_bind].
  by rewrite i256_div_uint_eq by (done || apply SC_u256).
Qed.

Lemma ceil_eq a : i256_wf a ->
  ceil (E:=E) a =
  Ok (srep (if sval a <=? 0 then Z.quot (sval a) SC else sval a / SC + 1)).
Proof.
  intros Ha. pose proof (sval_bounds a Ha) as Hb.
  unfold ceil. rewrite is_negative_spec, to_i256_eq by (apply Ha || done). cbn [out_bind].
  destruct (Z.ltb_spec (sval a) 0) as [Hn|Hn].
  { by rewrite (proj2 (Z.leb_le _ _)) by lia. }
  rewrite Z.quot_div_nonneg by (done || lia). unfold in_i256 in Hb. pose proof SC_pos.
  assert (0 <= sval a / SC) by (apply Z.div_pos; lia).
  assert (sval a / SC * 2 <= sval a).
  { pose proof (Z.mul_div_le (sval a) SC SC_pos). unfold SC in *. lia. }
  assert (in_i256 (sval a / SC)) as Hf by (unfold in_i256; lia).
  unfold dec_sub. rewrite i256_sub_ok, sval_srep by
    (done || by apply srep_wf || (rewrite sval_srep by done; unfold in_i256; lia)).
  cbn [out_bind]. unfold dec_is_zero, dec_zero.
  rewrite srep_pos by (unfold in_i256; lia).
  destruct (Z.eqb_spec (sval a - sval a / SC) 0) as [Hz|Hz].
  - rewrite (proj2 (Z.leb_le _ _)) by lia. done.
  - rewrite (proj2 (Z.leb_gt _ _)) by lia. rewrite i256_add_ok.
    + rewrite sval_srep by done. done.
    + by apply srep_wf.
    + split; [split|]; vm_compute; discriminate.
    + rewrite sval_srep by done. change (sval 1) with 1. unfold in_i256.
      rewrite MAX_SIGNED_VALUE_eq in *. lia.
Qed.
End dec_lemmas.

(** ** Denominated amounts *)
(** [a] and [b] stand for [da_amount / 10 ^ da_denom]; scaled to a common
    denominator. *)
Definition da_wf (a : DenominatedAmount) : Prop :=
  in_u256 (da_amount a) /\ 0 <= da_denom a <= 255.
Definition da_scaled (a b : DenominatedAmount) : Z := da_amount a * 10 ^ da_denom b.

Section denominated_lemmas.
Context {U : UintOps} {HU : UintLaws U} {E : Type}.

Lemma pow10_pos k : 0 <= k -> 0 < 10 ^ k.
Proof. intros. apply Z.pow_pos_nonneg; lia. Qed.

Lemma u8_u256 k : 0 <= k <= 255 -> in_u256 k.
Proof. intros. unfold in_u256. rewrite MAX_VALUE_eq. lia. Qed.

Lemma increase_precision_eq a k : da_wf a -> 0 <= k <= 255 ->
  increase_precision a k =
  if k <? da_denom a then Err PrecisionDecrease
  else if (10 ^ (k - da_denom a) <=? MAX_VALUE) &&
          (da_amount a * 10 ^ (k - da_denom a) <=? MAX_VALUE)
       then Ok (mkDenominated (da_amount a * 10 ^ (k - da_denom a)) k)
       else Err PrecisionOverflow.
Proof.
  intros [Ha Hd] Hk. unfold increase_precision.
  destruct (Z.ltb_spec k (da_denom a)); [done|].
  rewrite uint_checked_pow_law by (apply u8_u256; lia).
  destruct (Z.leb_spec (10 ^ (k - da_denom a)) MAX_VALUE); cbn [mbind option_bind andb]; [|done].
  pose proof (pow10_pos (k - da_denom a) ltac:(lia)).
  rewrite uint_checked_mul_law by (done || (unfold in_u256; lia)).
  by destruct (_ <=? _).
Qed.

Lemma align_denoms a b : da_denom a <= da_denom b -> 0 <= da_denom a ->
  10 ^ da_denom b = 10 ^ (da_denom b - da_denom a) * 10 ^ da_denom a.
Proof. intros. rewrite <- Z.pow_add_r by lia. f_equal. lia. Qed.

(** Comparison of [x] with [y / s] through the rounded-up quotient. *)
Lemma cmp_div_ceil x y s : 0 < s ->
  (match x ?= div_ceil y s with
   | Eq => if y `mod` s =? 0 then Eq else Gt
   | ord => ord
   end) = (x * s ?= y).
Proof.
  intros Hs. pose proof (Z_div_mod_eq_full y s). pose proof (Z.mod_pos_bound y s Hs).
  unfold div_ceil. destruct (Z.eqb_spec (y `mod` s) 0) as [Hz|Hz].
  - destruct (Z.compare_spec x (y / s)) as [-> |Hlt|Hgt]; symmetry;
      [apply Z.compare_eq_iff|apply Z.compare_lt_iff|apply Z.compare_gt_iff]; nia.
  - destruct (Z.compare_spec x (y / s + 1)) as [-> |Hlt|Hgt]; symmetry;
      [apply Z.compare_gt_iff|apply Z.compare_lt_iff|apply Z.compare_gt_iff]; nia.
Qed.

Lemma pow10_le_max k : 0 <= k <= 77 -> 10 ^ k <= MAX_VALUE.
Proof.
  intros Hk. apply Z.le_trans with (10 ^ 77); [apply Z.pow_le_mono_r; lia|].
  vm_compute. discriminate.
Qed.

(** The common part of the two branches of the comparison. *)
Lemma exp10_div_ceil {A} (f : Z -> Z -> A) y k : in_u256 y -> 0 <= k <= 77 ->
  (let* s := unwrap (uint_exp10 k) in
   let* '(div, rem) := unwrap (uint_div_mod y s) in
   let* c := if rem =? 0 then Ok div else uint_add div 1 in
   Ok (f rem c)) = Ok (E:=E) (f (y `mod` 10 ^ k) (div_ceil y (10 ^ k))).
Proof.
  intros Hy Hk. pose proof (pow10_pos k ltac:(lia)). pose proof (pow10_le_max k Hk).
  rewrite uint_exp10_law, (proj2 (Z.leb_le _ _)) by lia. cbn [unwrap out_bind].
  rewrite uint_div_mod_law by (done || (unfold in_u256; lia)).
  rewrite (proj2 (Z.eqb_neq (10 ^ k) 0)) by lia. cbn [unwrap out_bind]. unfold div_ceil.
  destruct (Z.eqb_spec (y `mod` 10 ^ k) 0) as [Hz|Hz]; [done|].
  set (s := 10 ^ k) in *. unfold in_u256 in Hy.
  assert (s <> 1) by (intros Hs1; by rewrite Hs1, Z.mod_1_r in Hz).
  assert (0 <= y / s) by (apply Z.div_pos; lia).
  assert (y / s * 2 <= y) by (pose proof (Z.mul_div_le y s ltac:(lia)); nia).
  rewrite uint_add_ok; [done|..]; unfold in_u256; rewrite MAX_VALUE_eq in *; lia.
Qed.

Lemma da_cmp_ok a b : da_wf a -> da_wf b -> Z.abs (da_denom a - da_denom b) <= 77 ->
  da_cmp (E:=E) a b = Ok (da_scaled a b ?= da_scaled b a).
Proof.
  intros [Ha Hda] [Hb Hdb] Hd. unfold da_cmp, da_scaled.
  destruct (Z.ltb_spec (da_denom a) (da_denom b)).
  - etransitivity; [apply (exp10_div_ceil (fun rem c => match da_amount a ?= c with
      | Eq => if rem =? 0 then Eq else Gt | ord => ord end)); [done|lia]|].
    rewrite cmp_div_ceil by (apply pow10_pos; lia).
    rewrite (align_denoms a b), Z.mul_assoc by lia.
    by rewrite <- Zmult_compare_compat_r by (apply Z.lt_gt, pow10_pos; lia).
  - etransitivity; [apply (exp10_div_ceil (fun rem c => match c ?= da_amount b with
      | Eq => if rem =? 0 then Eq else Lt | ord => ord end)); [done|lia]|].
    f_equal. pose proof (pow10_pos (da_denom a - da_denom b) ltac:(lia)) as Hp.
    pose proof (cmp_div_ceil (da_amount b) (da_amount a) _ Hp) as Hcc.
    rewrite (align_denoms b a), Z.mul_assoc by lia.
    rewrite <- Zmult_compare_compat_r by (apply Z.lt_gt, pow10_pos; lia).
    rewrite (Z.compare_antisym (da_amount b * _)), <- Hcc.
    rewrite (Z.compare_antisym (da_amount b)).
    destruct (da_amount b ?= _); simpl; [by destruct (_ =? 0)|done|done].
Qed.
(** Stripping trailing zeros keeps the value and ends at the shortest form. *)
Lemma canonical_loop_ok n v d : in_u256 v -> Z.of_nat n <= d ->
  exists v' d', canonical_loop (E:=E) n v d = Ok (v', d') /\
    d - Z.of_nat n <= d' <= d /\ v = v' * 10 ^ (d - d') /\ in_u256 v' /\
    (d' = d - Z.of_nat n \/ v' `mod` 10 <> 0).
Proof.
  revert v d. induction n as [|n IH]; intros v d Hv Hd; cbn [canonical_loop].
  - exists v, d. rewrite Z.sub_diag, Z.pow_0_r. split_and!; try done || lia.
  - rewrite uint_div_mod_law by (done || apply u8_u256; lia). cbn [unwrap out_bind].
    change (10 =? 0) with false. cbn [unwrap out_bind]. unfold in_u256 in Hv.
    destruct (Z.eqb_spec (v `mod` 10) 0) as [Hz|Hz].
    + rewrite (proj2 (Z.eqb_neq d 0)) by lia.
      pose proof (Z_div_mod_eq_full v 10).
      destruct (IH (v / 10) (d - 1)) as (v' & d' & -> & Hb & He & Hu & Hor).
      { unfold in_u256. split; [apply Z.div_pos; lia|apply Z.div_le_upper_bound; lia]. }
      { lia. }
      exists v', d'. split_and!; try done || lia.
      replace (d - d') with (Z.succ (d - 1 - d')) by lia.
      rewrite Z.pow_succ_r by lia. lia.
    + assert (forall m, canonical_loop (E:=E) m v d = Ok (v, d)) as ->.
      { intros m. induction m as [|m IHm]; cbn [canonical_loop]; [done|].
        rewrite uint_div_mod_law by (unfold in_u256; done || (apply u8_u256; lia)).
        cbn [unwrap out_bind]. change (10 =? 0) with false. cbn [unwrap out_bind].
        by rewrite (proj2 (Z.eqb_neq _ _) Hz). }
      exists v, d. rewrite Z.sub_diag, Z.pow_0_r. split_and!; done || lia.
Qed.

Lemma da_align_ok a b l r : da_wf a -> da_wf b -> da_align a b = Some (l, r) ->
  let k := Z.max (da_denom a) (da_denom b) in
  da_wf l /\ da_wf r /\ da_denom l = k /\
  da_amount l = da_amount a * 10 ^ (k - da_denom a) /\
  da_amount r = da_amount b * 10 ^ (k - da_denom b).
Proof.
  intros Ha Hb Hal k. pose proof Ha as [Ha1 Ha2]. pose proof Hb as [Hb1 Hb2].
  unfold da_align in Hal. unfold k. clear k.
  destruct (Z.ltb_spec (da_denom a) (da_denom b)).
  - rewrite increase_precision_eq, (proj2 (Z.ltb_ge _ _)) in Hal by (done || lia).
    destruct ((_ <=? _) && (_ <=? _)) eqn:Hf; simpl in Hal; simplify_eq/=.
    apply andb_true_iff in Hf as [_ Hf%Z.leb_le].
    pose proof (pow10_pos (da_denom r - da_denom a) ltac:(lia)).
    rewrite Z.max_r, Z.sub_diag, Z.pow_0_r, Z.mul_1_r by lia.
    split_and!; try done. unfold da_wf, in_u256 in *. cbn [da_amount da_denom]. nia.
  - rewrite increase_precision_eq, (proj2 (Z.ltb_ge _ _)) in Hal by (done || lia).
    destruct ((_ <=? _) && (_ <=? _)) eqn:Hf; simpl in Hal; simplify_eq/=.
    apply andb_true_iff in Hf as [_ Hf%Z.leb_le].
    pose proof (pow10_pos (da_denom l - da_denom b) ltac:(lia)).
    rewrite Z.max_l, Z.sub_diag, Z.pow_0_r, Z.mul_1_r by lia.
    split_and!; try done. unfold da_wf, in_u256 in *. cbn [da_amount da_denom]. nia.
Qed.
End denominated_lemmas.

(** ** Properties *)

(** C38. Decimal arithmetic is exact up to truncation: addition and
    subtraction are exact in range, a product and a quotient are the real
    result truncated towards zero at twelve decimals, the checked product
    fails exactly when the raw product is out of range, and the checked
    quotient fails exactly for a zero divisor or a result out of range. The
    dividend is scaled in 512 bits, so that the quotient does not fail when the
    scaled dividend overflows 256 bits, as the comments of the code say; nor does
    the checked product overflow for large arguments. *)
Theorem dec_arithmetic {U : UintOps} {HU : UintLaws U} {E} (a b : Z)
  (Ha : i256_wf a) (Hb : i256_wf b) :
  (in_i256 (sval a + sval b) -> dec_add (E:=E) a b = Ok (srep (sval a + sval b))) /\
  (in_i256 (sval a - sval b) -> dec_sub (E:=E) a b = Ok (srep (sval a - sval b))) /\
  (in_i256 (sval a * sval b) ->
     dec_mul (E:=E) a b = Ok (srep (Z.quot (sval a * sval b) SC))) /\
  dec_checked_mul (E:=E) a b =
    Ok (if in_i256b (sval a * sval b) then Some (srep (Z.quot (sval a * sval b) SC)) else None) /\
  trunc_div (E:=E) a b =
    Ok (if (sval b =? 0) || negb (in_i256b (Z.quot (sval a * SC) (sval b))) then None
        else Some (srep (Z.quot (sval a * SC) (sval b)))) /\
  to_i256 (E:=E) a = Ok (srep (Z.quot (sval a) SC)).
Proof.
  split_and!; intros; auto using i256_add_ok, i256_sub_ok, dec_mul_eq, dec_checked_mul_eq,
    trunc_div_eq, to_i256_eq.
Qed.

Lemma dec_arithmetic_witness :
  trunc_div (U:=Ref.uint_ref) (E:=unit) (srep (-3 * SC)) (srep (2 * SC))
  = Ok (Some (srep (-1500000000000))).
Proof.
  destruct (dec_arithmetic (HU:=Ref.uint_ref_laws) (E:=unit) (srep (-3 * SC)) (srep (2 * SC)))
    as (_ & _ & _ & _ & Hdiv & _); [split; [split|]; vm_compute; discriminate..|].
  exact Hdiv.
Defined.

(** Splitting an amount by a rate loses nothing: for a rate [d] between
    zero and one, the part rounded up ([mul_ceil], what a slash takes) and the
    part of the complement rounded down add up to the amount, and the rounded
    up part exceeds the rounded down one by at most one unit. *)
Theorem rate_split {U : UintOps} {HU : UintLaws U} {E} (d x : Z)
  (Hd : rate_ok d) (Hd1 : sval d <= SC) (Hx : in_u256 x) (Hfit : x * SC <= MAX_VALUE) :
  exists one cd up down rest,
    dec_one (E:=E) = Ok one /\ dec_sub (E:=E) one d = Ok cd /\
    amount_mul_ceil (E:=E) x d = Ok up /\
    dec_mul_amount (E:=E) d x = Ok down /\
    dec_mul_amount (E:=E) cd x = Ok rest /\
    up + rest = x /\ down <= up <= down + 1 /\ 0 <= up <= x.
Proof.
  pose proof Hd as [Hdw Hd0]. pose proof SC_pos as HS.
  assert (in_i256 SC) as HSi by (vm_compute; discriminate).
  assert (in_i256 (SC - sval d)) as Hci by (unfold in_i256 in *; lia).
  assert (rate_ok (srep (SC - sval d))) as Hcr.
  { split; [by apply srep_wf|]. rewrite sval_srep by done. lia. }
  unfold in_u256 in Hx.
  exists SC, (srep (SC - sval d)), (div_ceil (x * sval d) SC), (x * sval d / SC),
    (x * (SC - sval d) / SC).
  rewrite amount_mul_ceil_eq, !dec_mul_amount_eq, sval_srep by done.
  rewrite !(proj2 (Z.leb_le _ MAX_VALUE)) by nia.
  split_and!; try done.
  - unfold dec_one. rewrite dec_scale_ok. cbn [out_bind].
    rewrite uint_mul_eq by (apply SC_u256 || apply u8_u256; lia). done.
  - unfold dec_sub. rewrite <- (srep_pos SC) by (done || lia).
    rewrite i256_sub_ok; rewrite ?sval_srep by done; auto using srep_wf.
  - rewrite div_ceil_eq by done. rewrite Z.mul_sub_distr_l, (Z.add_comm _ (_ / _)).
    replace (x * SC - x * sval d) with (- (x * sval d) + x * SC) by lia.
    rewrite Z.div_add by lia. lia.
  - unfold div_ceil. destruct (_ =? 0); lia.
  - unfold div_ceil. destruct (_ =? 0); lia.
  - rewrite div_ceil_eq by done. apply Z.opp_nonneg_nonpos.
    apply Z.div_le_upper_bound; nia.
  - rewrite div_ceil_eq by done. apply Z.opp_le_mono. rewrite Z.opp_involutive.
    apply Z.div_le_lower_bound; nia.
Qed.

Lemma rate_split_witness :
  exists one cd up down rest,
    dec_one (U:=Ref.uint_ref) (E:=unit) = Ok one /\
    dec_sub (U:=Ref.uint_ref) (E:=unit) one 333333333333 = Ok cd /\
    amount_mul_ceil (U:=Ref.uint_ref) (E:=unit) 100 333333333333 = Ok up /\
    dec_mul_amount (U:=Ref.uint_ref) (E:=unit) 333333333333 100 = Ok down /\
    dec_mul_amount (U:=Ref.uint_ref) (E:=unit) cd 100 = Ok rest /\
    up + rest = 100 /\ down <= up <= down + 1 /\ 0 <= up <= 100.
Proof.
  apply (rate_split (HU:=Ref.uint_ref_laws) (E:=unit) 333333333333 100);
    [split; [split; [split|]|]|..]; try split; vm_compute; discriminate.
Defined.

(** [Dec::ceil] rounds a positive decimal to one more than its integer
    part, also when the decimal is an integer: the test for an exact integer
    compares the raw values at different scales and succeeds only for zero. *)
Theorem ceil_overshoots_integers {U : UintOps} {HU : UintLaws U} {E} (n : Z)
  (Hn : 0 < n) (Hin : in_i256 (n * SC)) :
  ceil (E:=E) (srep (n * SC)) = Ok (srep (n + 1)).
Proof.
  rewrite ceil_eq, sval_srep by (done || by apply srep_wf). pose proof SC_pos.
  rewrite (proj2 (Z.leb_gt _ _)) by nia. by rewrite Z.div_mul by lia.
Qed.

Lemma ceil_overshoots_integers_witness :
  ceil (U:=Ref.uint_ref) (E:=unit) (srep (1 * SC)) = Ok (srep 2).
Proof.
  apply (ceil_overshoots_integers (HU:=Ref.uint_ref_laws) (E:=unit) 1);
    [lia|vm_compute; discriminate].
Defined.

(** Amounts of different denominations: the comparison is the comparison
    of the values (for denominations at most 77 places apart), the checked sum
    and difference are taken exactly at the finer denomination, and the
    canonical form is the shortest representation of the same value. *)
Theorem denominated_amounts {U : UintOps} {HU : UintLaws U} {E} (a b : DenominatedAmount)
  (Ha : da_wf a) (Hb : da_wf b) :
  (Z.abs (da_denom a - da_denom b) <= 77 ->
   da_cmp (E:=E) a b = Ok (da_scaled a b ?= da_scaled b a)) /\
  (forall c, da_checked_add a b = Some c ->
     da_denom c = Z.max (da_denom a) (da_denom b) /\
     da_amount c = da_amount a * 10 ^ (da_denom c - da_denom a)
                   + da_amount b * 10 ^ (da_denom c - da_denom b)) /\
  (forall c, da_checked_sub a b = Some c ->
     da_denom c = Z.max (da_denom a) (da_denom b) /\
     da_amount c = da_amount a * 10 ^ (da_denom c - da_denom a)
                   - da_amount b * 10 ^ (da_denom c - da_denom b)) /\
  exists c, da_canonical (E:=E) a = Ok c /\ 0 <= da_denom c <= da_denom a /\
     da_amount a = da_amount c * 10 ^ (da_denom a - da_denom c) /\
     (da_denom c = 0 \/ da_amount c `mod` 10 <> 0).
Proof.
  split; [intros; by apply da_cmp_ok|]. split_and!.
  - intros c Hc. unfold da_checked_add in Hc.
    destruct (da_align a b) as [[l r]|] eqn:Hal; simpl in Hc; [|done].
    destruct (da_align_ok a b l r Ha Hb Hal) as (Hl & Hr & Hdl & Hal' & Har).
    unfold amount_checked_add in Hc. rewrite uint_checked_add_law in Hc by (apply Hl || apply Hr).
    repeat (case_match; simplify_eq/=). rewrite <- Hdl in *. lia.
  - intros c Hc. unfold da_checked_sub in Hc.
    destruct (da_align a b) as [[l r]|] eqn:Hal; simpl in Hc; [|done].
    destruct (da_align_ok a b l r Ha Hb Hal) as (Hl & Hr & Hdl & Hal' & Har).
    unfold amount_checked_sub in Hc. rewrite uint_checked_sub_law in Hc by (apply Hl || apply Hr).
    repeat (case_match; simplify_eq/=). rewrite <- Hdl in *. lia.
  - destruct Ha as [Hau Had]. unfold da_canonical.
    destruct (canonical_loop_ok (E:=E) (Z.to_nat (da_denom a)) (da_amount a) (da_denom a))
      as (v & d & -> & Hd & Hv & _ & Hor); [done|lia|]. cbn [out_bind].
    exists (mkDenominated v d). cbn [da_amount da_denom]. split_and!; done || lia.
Qed.

Lemma denominated_amounts_witness :
  da_cmp (U:=Ref.uint_ref) (E:=unit) (mkDenominated 15 1) (mkDenominated 1499 3) = Ok Gt.
Proof.
  destruct (denominated_amounts (HU:=Ref.uint_ref_laws) (E:=unit)
              (mkDenominated 15 1) (mkDenominated 1499 3)) as [H _];
    [split; split; vm_compute; discriminate..|].
  apply H. vm_compute. discriminate.
Defined.
