(* ===== verification/Keys.v ===== *)
(** * Storage keys: [core/src/types/storage.rs], [core/src/types/address.rs]

    A storage key is a list of segments, each an address or a string; this file
    has the segments with their string form, the operations of [Key], the
    order-preserving encoding of integers as segments, and the keys of the
    token accounts of [core/src/types/token.rs] with their recognisers. Rust
    strings are lists of characters. The bech32m form of an address and the
    base32hex encoding of bytes come from external crates and are the classes
    [AddressCodec] and [Base32Hex]. *)

From S2P Require Import Prelude.
From stdpp Require Import base numbers list strings countable gmap option.
From Stdlib Require Import ZArith Lia Ascii String.
Local Open Scope Z_scope.
Local Open Scope outcome_scope.

Notation str := (list ascii).
Definition lit (s : string) : str := list_ascii_of_string s.

(** ** Addresses *)
Inductive InternalAddress : Type :=
| PoS
| PosSlashPool
| Parameters
| Ibc
| IbcToken (hash : Z)
| Governance
| EthBridge
| EthBridgePool
| Erc20 (eth : Z)
| Nut (eth : Z)
| Multitoken
| Pgf
| Masp.

(** Hashes are the numbers their bytes spell. *)
Inductive Address : Type :=
| Established (hash : Z)
| Implicit (hash : Z)
| Internal (a : InternalAddress).

#[export] Instance InternalAddress_eq_dec : EqDecision InternalAddress.
Proof. solve_decision. Defined.
#[export] Instance Address_eq_dec : EqDecision Address.
Proof. solve_decision. Defined.

Definition internal_code (a : InternalAddress) : Z * Z :=
  match a with
  | PoS => (0, 0) | PosSlashPool => (1, 0) | Parameters => (2, 0) | Ibc => (3, 0)
  | IbcToken h => (4, h) | Governance => (5, 0) | EthBridge => (6, 0)
  | EthBridgePool => (7, 0) | Erc20 h => (8, h) | Nut h => (9, h)
  | Multitoken => (10, 0) | Pgf => (11, 0) | Masp => (12, 0)
  end.
Definition internal_decode (c : Z * Z) : InternalAddress :=
  match c with
  | (0, _) => PoS | (1, _) => PosSlashPool | (2, _) => Parameters | (3, _) => Ibc
  | (4, h) => IbcToken h | (5, _) => Governance | (6, _) => EthBridge
  | (7, _) => EthBridgePool | (8, h) => Erc20 h | (9, h) => Nut h
  | (10, _) => Multitoken | (11, _) => Pgf | _ => Masp
  end.

#[export] Instance InternalAddress_countable : Countable InternalAddress.
Proof. apply (inj_countable' internal_code internal_decode). by intros []. Defined.

#[export] Instance Address_countable : Countable Address.
Proof.
  refine (inj_countable'
    (fun a => match a with
              | Established h => inl h
              | Implicit h => inr (inl h)
              | Internal i => inr (inr i)
              end)
    (fun c => match c with
              | inl h => Established h
              | inr (inl h) => Implicit h
              | inr (inr i) => Internal i
              end) _).
  by intros [].
Defined.

(** [Address::encode] and [Address::decode] *)
Class AddressCodec : Type := {
  addr_encode : Address -> str;
  addr_decode : str -> option Address
}.
Class AddressCodecLaws (C : AddressCodec) : Prop := {
  addr_decode_encode a : addr_decode (addr_encode a) = Some a;
  (* the bech32m alphabet has no separator *)
  addr_encode_chars a : "/"%char ∉ addr_encode a
}.

(** ** Segments *)
Definition KEY_SEGMENT_SEPARATOR : ascii := "/"%char.
Definition RESERVED_ADDRESS_PREFIX : ascii := "#"%char.
Definition RESERVED_VP_KEY : str := lit "?".

Inductive DbKeySeg : Type :=
| AddressSeg (a : Address)
| StringSeg (s : str).

#[export] Instance DbKeySeg_eq_dec : EqDecision DbKeySeg.
Proof. solve_decision. Defined.
#[export] Instance DbKeySeg_countable : Countable DbKeySeg.
Proof.
  refine (inj_countable'
    (fun s => match s with AddressSeg a => inl a | StringSeg s => inr s end)
    (fun c => match c with inl a => AddressSeg a | inr s => StringSeg s end) _).
  by intros [].
Defined.

(** [Key { segments }] *)
Notation Key := (list DbKeySeg).

Inductive KeyError : Type :=
| ParseAddress
| ParseAddressFromKey
| ParseKeySeg
| InvalidKeySeg (s : str)
| EmptyKey
| MissingSegments.

Section segments.
Context {C : AddressCodec}.

Definition seg_raw (s : DbKeySeg) : str :=
  match s with
  | AddressSeg a => RESERVED_ADDRESS_PREFIX :: addr_encode a
  | StringSeg s => s
  end.

Definition seg_parse (s : str) : outcome KeyError DbKeySeg :=
  if bool_decide (KEY_SEGMENT_SEPARATOR ∈ s) then Err (InvalidKeySeg s)
  else match s with
       | c :: rest =>
           if bool_decide (c = RESERVED_ADDRESS_PREFIX)
           then let* a := ok_or (addr_decode rest) ParseAddress in Ok (AddressSeg a)
           else Ok (StringSeg s)
       | [] => Ok (StringSeg s)
       end.

(** [KeySeg for Address] *)
Definition addr_seg_parse (s : str) : outcome KeyError Address :=
  match s with
  | c :: rest =>
      if bool_decide (c = RESERVED_ADDRESS_PREFIX) then ok_or (addr_decode rest) ParseAddress
      else Err ParseAddressFromKey
  | [] => Err ParseAddressFromKey
  end.
End segments.

(** [str::split(char)]: at least one piece. *)
Fixpoint split_on (c : ascii) (s : str) : list str :=
  match s with
  | [] => [[]]
  | x :: s' =>
      if bool_decide (x = c) then [] :: split_on c s'
      else match split_on c s' with
           | [] => [[x]]
           | p :: ps => (x :: p) :: ps
           end
  end.

(** [\[String\]::join] *)
Fixpoint join_with (c : ascii) (ps : list str) : str :=
  match ps with
  | [] => []
  | [p] => p
  | p :: ps' => p ++ c :: join_with c ps'
  end.

(** ** Keys *)
Section keys.
Context {C : AddressCodec}.

(** [Display for Key] *)
Definition key_to_string (k : Key) : str :=
  join_with KEY_SEGMENT_SEPARATOR (seg_raw <$> k).

Fixpoint parse_segments (ps : list str) : outcome KeyError Key :=
  match ps with
  | [] => Ok []
  | p :: ps' =>
      let* s := seg_parse p in
      let* k := parse_segments ps' in
      Ok (s :: k)
  end.

Definition key_parse (s : str) : outcome KeyError Key :=
  match s with
  | [] => Err ParseKeySeg
  | _ => parse_segments (split_on KEY_SEGMENT_SEPARATOR s)
  end.

(** [Key::push], of a segment given by its string form *)
Definition key_push (k : Key) (raw : str) : outcome KeyError Key :=
  let* s := seg_parse raw in Ok (k ++ [s]).

Definition with_segment (k : Key) (s : DbKeySeg) : Key := k ++ [s].
Definition key_join (k other : Key) : Key := k ++ other.
Definition find_addresses (k : Key) : list Address :=
  omap (fun s => match s with AddressSeg a => Some a | StringSeg _ => None end) k.
Definition key_len (k : Key) : Z := Z.of_nat (List.length (key_to_string k)).
Definition key_is_empty (k : Key) : bool := key_len k =? 0.
Definition split_last (k : Key) : option (Key * DbKeySeg) :=
  match rev k with
  | [] => None
  | l :: p => Some (rev p, l)
  end.
Definition validity_predicate (a : Address) : Key :=
  [AddressSeg a; StringSeg RESERVED_VP_KEY].
Definition is_validity_predicate (k : Key) : option Address :=
  match k with
  | [AddressSeg a; StringSeg sub_key] =>
      if bool_decide (sub_key = RESERVED_VP_KEY) then Some a else None
  | _ => None
  end.

Definition sub_key (k : Key) : outcome KeyError Key :=
  match k with
  | _ :: rest => match rest with [] => Err MissingSegments | _ => Ok rest end
  | [] => Err EmptyKey
  end.

Definition split_prefix (k prefix : Key) : option (option Key) :=
  if (List.length k <? List.length prefix)%nat then None
  else if bool_decide (k = prefix) then Some None
  else
    let self_prefix := take (List.length prefix) k in
    let rest := drop (List.length prefix) k in
    if bool_decide (self_prefix = prefix) then Some (Some rest) else None.
End keys.

(** ** Integers as segments *)
Class Base32Hex : Type := {
  b32_encode : list Z -> str;
  b32_decode : str -> option (list Z)
}.

(** Lexicographic order. *)
Fixpoint lex (a b : list Z) : comparison :=
  match a, b with
  | [], [] => Eq
  | [], _ => Lt
  | _, [] => Gt
  | x :: a', y :: b' => match x ?= y with Eq => lex a' b' | c => c end
  end.
(** [Ord for String] *)
Definition str_cmp (a b : str) : comparison :=
  lex ((fun c => Z.of_N (N_of_ascii c)) <$> a) ((fun c => Z.of_N (N_of_ascii c)) <$> b).

Definition is_byte (b : Z) : Prop := 0 <= b < 256.
Class Base32HexLaws (B : Base32Hex) : Prop := {
  b32_decode_encode bs : Forall is_byte bs -> b32_decode (b32_encode bs) = Some bs;
  (* base32hex is the variant that preserves the order of the bytes *)
  b32_order a b : Forall is_byte a -> Forall is_byte b -> List.length a = List.length b ->
    str_cmp (b32_encode a) (b32_encode b) = lex a b
}.

(** [to_be_bytes] and [from_be_bytes] of an integer of [n] bytes *)
Fixpoint to_be_bytes (n : nat) (x : Z) : list Z :=
  match n with
  | O => []
  | S n' => x / 256 ^ Z.of_nat n' :: to_be_bytes n' (x `mod` 256 ^ Z.of_nat n')
  end.
Definition from_be_bytes (bs : list Z) : Z := fold_left (fun a b => a * 256 + b) bs 0.

Section int_segments.
Context {B : Base32Hex}.

(** [KeySeg for $unsigned], of [n] bytes *)
Definition int_raw (n : nat) (x : Z) : str := b32_encode (to_be_bytes n x).
(** [copy_from_slice] stops when the lengths differ *)
Definition int_parse (n : nat) (s : str) : outcome KeyError Z :=
  let* bytes := ok_or (b32_decode s) ParseKeySeg in
  if (List.length bytes =? n)%nat then Ok (from_be_bytes bytes) else Panic.

(** [x as $unsigned] and [x as $signed] *)
Definition as_unsigned (n : nat) (x : Z) : Z := x `mod` 2 ^ (8 * Z.of_nat n).
Definition as_signed (n : nat) (x : Z) : Z :=
  if x <? 2 ^ (8 * Z.of_nat n - 1) then x else x - 2 ^ (8 * Z.of_nat n).

(** [KeySeg for $signed]: the bit pattern with its sign bit flipped *)
Definition signed_raw (n : nat) (x : Z) : str :=
  int_raw n (Z.lxor (as_unsigned n x) (2 ^ (8 * Z.of_nat n - 1))).
Definition signed_parse (n : nat) (s : str) : outcome KeyError Z :=
  let* complemented := int_parse n s in
  Ok (as_signed n (Z.lxor complemented (2 ^ (8 * Z.of_nat n - 1)))).

(** [KeySeg for Epoch]: [raw] prints decimals, [parse] reads base32hex *)
Definition epoch_parse (s : str) : outcome KeyError Z := int_parse 8 s.
Definition epoch_to_db_key (e : Z) : DbKeySeg := StringSeg (int_raw 8 e).
End int_segments.

(** ** Keys of the token accounts *)
Section token_keys.
Context {C : AddressCodec}.

Definition BALANCE_STORAGE_KEY : str := lit "balance".
Definition DENOM_STORAGE_KEY : str := lit "denomination".
Definition MINTER_STORAGE_KEY : str := lit "minter".
Definition MINTED_STORAGE_KEY : str := lit "minted".

(** [.push(..).expect(..)] *)
Definition push_expect {E} (k : Key) (raw : str) : outcome E Key :=
  match key_push k raw with Ok k' => Ok k' | _ => Panic end.

Definition balance_prefix {E} (token : Address) : outcome E Key :=
  let* k := push_expect [AddressSeg (Internal Multitoken)] (seg_raw (AddressSeg token)) in
  push_expect k BALANCE_STORAGE_KEY.
Definition balance_key {E} (token owner : Address) : outcome E Key :=
  let* k := balance_prefix token in
  push_expect k (seg_raw (AddressSeg owner)).
Definition minter_key {E} (token : Address) : outcome E Key :=
  let* k := push_expect [AddressSeg (Internal Multitoken)] (seg_raw (AddressSeg token)) in
  push_expect k MINTER_STORAGE_KEY.
Definition minted_balance_key {E} (token : Address) : outcome E Key :=
  let* k := balance_prefix token in
  push_expect k MINTED_STORAGE_KEY.
Definition denom_key {E} (token : Address) : outcome E Key :=
  push_expect [AddressSeg token] DENOM_STORAGE_KEY.

Definition is_balance_key (token_addr : Address) (k : Key) : option Address :=
  match k with
  | [AddressSeg addr; AddressSeg token; StringSeg balance; AddressSeg owner] =>
      if bool_decide (addr = Internal Multitoken) && bool_decide (token = token_addr)
         && bool_decide (balance = BALANCE_STORAGE_KEY)
      then Some owner else None
  | _ => None
  end.
Definition is_any_token_balance_key (k : Key) : option (Address * Address) :=
  match k with
  | [AddressSeg addr; AddressSeg token; StringSeg balance; AddressSeg owner] =>
      if bool_decide (addr = Internal Multitoken)
         && bool_decide (balance = BALANCE_STORAGE_KEY)
      then Some (token, owner) else None
  | _ => None
  end.
Definition is_any_minter_key (k : Key) : option Address :=
  match k with
  | [AddressSeg addr; AddressSeg token; StringSeg minter] =>
      if bool_decide (addr = Internal Multitoken)
         && bool_decide (minter = MINTER_STORAGE_KEY)
      then Some token else None
  | _ => None
  end.
Definition is_any_minted_balance_key (k : Key) : option Address :=
  match k with
  | [AddressSeg addr; AddressSeg token; StringSeg balance; StringSeg owner] =>
      if bool_decide (addr = Internal Multitoken)
         && bool_decide (balance = BALANCE_STORAGE_KEY)
         && bool_decide (owner = MINTED_STORAGE_KEY)
      then Some token else None
  | _ => None
  end.
End token_keys.

(** ** Lemmas on strings *)
Lemma split_on_no_sep c s : c ∉ s -> split_on c s = [s].
Proof.
  induction s as [|x s IH]; intros Hn; [done|]. cbn [split_on].
  rewrite not_elem_of_cons in Hn. destruct Hn as [Hx Hs].
  rewrite bool_decide_false by done. by rewrite IH.
Qed.

Lemma split_on_app c p s : c ∉ p -> split_on c (p ++ c :: s) = p :: split_on c s.
Proof.
  induction p as [|x p IH]; intros Hn; cbn [app split_on].
  - by rewrite bool_decide_true.
  - rewrite not_elem_of_cons in Hn. destruct Hn as [Hx Hp].
    rewrite bool_decide_false by done. by rewrite IH.
Qed.

Lemma split_join c ps : ps <> [] -> Forall (fun p => c ∉ p) ps ->
  split_on c (join_with c ps) = ps.
Proof.
  induction ps as [|p ps IH]; intros Hne Hf; [done|].
  inversion_clear Hf as [|? ? Hp Hps]. destruct ps as [|q ps].
  - by apply split_on_no_sep.
  - cbn [join_with]. rewrite split_on_app by done. f_equal. by apply IH.
Qed.

(** A segment that survives printing. *)
Definition seg_ok (s : DbKeySeg) : Prop :=
  match s with
  | AddressSeg _ => True
  | StringSeg s => KEY_SEGMENT_SEPARATOR ∉ s /\ hd_error s <> Some RESERVED_ADDRESS_PREFIX
  end.

Section key_lemmas.
Context {C : AddressCodec} {HC : AddressCodecLaws C}.

Lemma seg_raw_no_sep s : seg_ok s -> KEY_SEGMENT_SEPARATOR ∉ seg_raw s.
Proof.
  destruct s as [a|s]; [|by intros []]. intros _. simpl. rewrite not_elem_of_cons.
  split; [done|apply addr_encode_chars].
Qed.

Lemma seg_parse_raw s : seg_ok s -> seg_parse (seg_raw s) = Ok s.
Proof.
  intros Hs. unfold seg_parse. rewrite bool_decide_false by (by apply seg_raw_no_sep).
  destruct s as [a|s]; simpl.
  - by rewrite addr_decode_encode.
  - destruct s as [|c s]; [done|]. destruct Hs as [_ Hc].
    rewrite bool_decide_false; [done|]. intros ->. by apply Hc.
Qed.

Lemma parse_segments_raw k : Forall seg_ok k -> parse_segments (seg_raw <$> k) = Ok k.
Proof.
  induction 1 as [|s k Hs _ IH]; [done|]. rewrite fmap_cons. cbn [parse_segments].
  by rewrite seg_parse_raw, IH.
Qed.

Lemma key_parse_to_string k : Forall seg_ok k -> key_to_string k <> [] ->
  key_parse (key_to_string k) = Ok k.
Proof.
  intros Hseg Hne. unfold key_parse.
  destruct (key_to_string k) eqn:Hs; [done|]. rewrite <- Hs.
  unfold key_to_string. rewrite split_join; [by apply parse_segments_raw| |].
  - intros Hk%fmap_nil_inv. by subst.
  - apply Forall_fmap. eapply Forall_impl; [|exact Hseg]. apply seg_raw_no_sep.
Qed.

Lemma push_expect_raw {E} k s : seg_ok s -> push_expect (E:=E) k (seg_raw s) = Ok (k ++ [s]).
Proof. intros Hs. unfold push_expect, key_push. by rewrite seg_parse_raw. Qed.

Lemma push_expect_lit {E} k s : seg_ok (StringSeg s) ->
  push_expect (E:=E) k s = Ok (k ++ [StringSeg s]).
Proof. apply (push_expect_raw k (StringSeg s)). Qed.

Lemma balance_key_ok {E} t o : balance_key (E:=E) t o =
  Ok [AddressSeg (Internal Multitoken); AddressSeg t; StringSeg BALANCE_STORAGE_KEY; AddressSeg o].
Proof.
  unfold balance_key, balance_prefix. rewrite push_expect_raw by done. cbn [out_bind].
  rewrite push_expect_lit by (split; [set_solver|done]). cbn [out_bind].
  by rewrite push_expect_raw.
Qed.

Lemma minted_balance_key_ok {E} t : minted_balance_key (E:=E) t =
  Ok [AddressSeg (Internal Multitoken); AddressSeg t; StringSeg BALANCE_STORAGE_KEY;
      StringSeg MINTED_STORAGE_KEY].
Proof.
  unfold minted_balance_key, balance_prefix. rewrite push_expect_raw by done. cbn [out_bind].
  rewrite push_expect_lit by (split; [set_solver|done]). cbn [out_bind].
  by rewrite push_expect_lit by (split; [set_solver|done]).
Qed.

Lemma minter_key_ok {E} t : minter_key (E:=E) t =
  Ok [AddressSeg (Internal Multitoken); AddressSeg t; StringSeg MINTER_STORAGE_KEY].
Proof.
  unfold minter_key. rewrite push_expect_raw by done. cbn [out_bind].
  by rewrite push_expect_lit by (split; [set_solver|done]).
Qed.
End key_lemmas.

Lemma is_any_token_balance_key_Some k t o : is_any_token_balance_key k = Some (t, o) <->
  k = [AddressSeg (Internal Multitoken); AddressSeg t; StringSeg BALANCE_STORAGE_KEY; AddressSeg o].
Proof.
  split; [|intros ->; unfold is_any_token_balance_key; by rewrite !bool_decide_true].
  unfold is_any_token_balance_key. intros H. repeat (case_match; simplify_eq).
  match goal with H : _ && _ = true |- _ =>
    apply andb_true_iff in H as [->%bool_decide_eq_true ->%bool_decide_eq_true] end. done.
Qed.

Lemma is_balance_key_Some k t o : is_balance_key t k = Some o <->
  k = [AddressSeg (Internal Multitoken); AddressSeg t; StringSeg BALANCE_STORAGE_KEY; AddressSeg o].
Proof.
  split; [|intros ->; unfold is_balance_key; by rewrite !bool_decide_true].
  unfold is_balance_key. intros H. repeat (case_match; simplify_eq).
  match goal with H : _ && _ && _ = true |- _ =>
    apply andb_true_iff in H as [[->%bool_decide_eq_true ->%bool_decide_eq_true]%andb_true_iff
      ->%bool_decide_eq_true] end. done.
Qed.

Lemma is_any_minted_balance_key_Some k t : is_any_minted_balance_key k = Some t <->
  k = [AddressSeg (Internal Multitoken); AddressSeg t; StringSeg BALANCE_STORAGE_KEY;
       StringSeg MINTED_STORAGE_KEY].
Proof.
  split; [|intros ->; unfold is_any_minted_balance_key; by rewrite !bool_decide_true].
  unfold is_any_minted_balance_key. intros H. repeat (case_match; simplify_eq).
  match goal with H : _ && _ && _ = true |- _ =>
    apply andb_true_iff in H as [[->%bool_decide_eq_true ->%bool_decide_eq_true]%andb_true_iff
      ->%bool_decide_eq_true] end. done.
Qed.

Lemma is_any_minter_key_Some k t : is_any_minter_key k = Some t <->
  k = [AddressSeg (Internal Multitoken); AddressSeg t; StringSeg MINTER_STORAGE_KEY].
Proof.
  split; [|intros ->; unfold is_any_minter_key; by rewrite !bool_decide_true].
  unfold is_any_minter_key. intros H. repeat (case_match; simplify_eq).
  match goal with H : _ && _ = true |- _ => apply andb_true_iff in H as [->%bool_decide_eq_true ->%bool_decide_eq_true] end. done.
Qed.

(** ** Lemmas on byte strings *)
Lemma pow256_pos n : 0 < 256 ^ Z.of_nat n.
Proof. apply Z.pow_pos_nonneg; lia. Qed.

Lemma to_be_bytes_length n x : List.length (to_be_bytes n x) = n.
Proof. revert x; induction n; intros; simpl; auto. Qed.

Lemma to_be_bytes_ok n x : 0 <= x < 256 ^ Z.of_nat n -> Forall is_byte (to_be_bytes n x).
Proof.
  revert x. induction n as [|n IH]; intros x Hx; cbn [to_be_bytes]; constructor.
  - rewrite Nat2Z.inj_succ, Z.pow_succ_r in Hx by lia. pose proof (pow256_pos n).
    split; [apply Z.div_pos; lia|apply Z.div_lt_upper_bound; lia].
  - apply IH. apply Z.mod_pos_bound, pow256_pos.
Qed.

Lemma from_be_bytes_acc bs a :
  fold_left (fun a b => a * 256 + b) bs a =
  a * 256 ^ Z.of_nat (List.length bs) + from_be_bytes bs.
Proof.
  unfold from_be_bytes. revert a. induction bs as [|b bs IH]; intros a; cbn [fold_left List.length].
  - lia.
  - rewrite IH, (IH (0 * 256 + b)), Nat2Z.inj_succ, Z.pow_succ_r by lia. ring.
Qed.

Lemma from_be_bytes_range bs : Forall is_byte bs -> 0 <= from_be_bytes bs < 256 ^ Z.of_nat (List.length bs).
Proof.
  induction 1 as [|b bs Hb _ IH]; [cbn; lia|]. unfold from_be_bytes. cbn [fold_left List.length].
  rewrite from_be_bytes_acc, Nat2Z.inj_succ, Z.pow_succ_r by lia. unfold is_byte in Hb. nia.
Qed.
Lemma from_to_be_bytes n x : 0 <= x < 256 ^ Z.of_nat n -> from_be_bytes (to_be_bytes n x) = x.
Proof.
  revert x. induction n as [|n IH]; intros x Hx; [unfold from_be_bytes; simpl in *; lia|].
  cbn [to_be_bytes]. unfold from_be_bytes. cbn [fold_left].
  rewrite from_be_bytes_acc, to_be_bytes_length, IH by (apply Z.mod_pos_bound, pow256_pos).
  pose proof (pow256_pos n). pose proof (Z_div_mod_eq_full x (256 ^ Z.of_nat n)). lia.
Qed.

Lemma lex_be_bytes n x y : 0 <= x < 256 ^ Z.of_nat n -> 0 <= y < 256 ^ Z.of_nat n ->
  lex (to_be_bytes n x) (to_be_bytes n y) = (x ?= y).
Proof.
  revert x y. induction n as [|n IH]; intros x y Hx Hy.
  - simpl in *. assert (x = 0) as -> by lia. by assert (y = 0) as -> by lia.
  - cbn [to_be_bytes lex]. pose proof (pow256_pos n) as Hp.
    pose proof (Z_div_mod_eq_full x (256 ^ Z.of_nat n)).
    pose proof (Z_div_mod_eq_full y (256 ^ Z.of_nat n)).
    pose proof (Z.mod_pos_bound x _ Hp). pose proof (Z.mod_pos_bound y _ Hp).
    destruct (Z.compare_spec (x / 256 ^ Z.of_nat n) (y / 256 ^ Z.of_nat n)) as [He|Hl|Hg].
    + rewrite IH by done.
      destruct (Z.compare_spec (x `mod` 256 ^ Z.of_nat n) (y `mod` 256 ^ Z.of_nat n)); symmetry;
        [apply Z.compare_eq_iff|apply Z.compare_lt_iff|apply Z.compare_gt_iff]; lia.
    + symmetry. apply Z.compare_lt_iff. nia.
    + symmetry. apply Z.compare_gt_iff. nia.
Qed.

(** Flipping the sign bit shifts the range of the signed integers to that of
    the unsigned ones. *)
Lemma flip_sign n x : (1 <= n)%nat ->
  - 2 ^ (8 * Z.of_nat n - 1) <= x < 2 ^ (8 * Z.of_nat n - 1) ->
  Z.lxor (as_unsigned n x) (2 ^ (8 * Z.of_nat n - 1)) = x + 2 ^ (8 * Z.of_nat n - 1).
Proof.
  intros Hn Hx. unfold as_unsigned. set (k := 8 * Z.of_nat n - 1) in *.
  assert (0 <= k) as Hk by lia. replace (8 * Z.of_nat n) with (Z.succ k) by lia.
  rewrite Z.pow_succ_r by done. pose proof (Z.pow_pos_nonneg 2 k ltac:(lia) Hk) as Hp.
  assert (forall z, 0 <= z < 2 ^ k -> Z.lxor z (2 ^ k) = z + 2 ^ k) as Hlow.
  { intros z Hz. symmetry. apply Z.add_nocarry_lxor. apply Z.bits_inj'. intros i Hi.
    rewrite Z.land_spec, Z.bits_0, Z.pow2_bits_eqb by done.
    destruct (Z.eqb_spec k i) as [<- |]; [|apply andb_false_r].
    destruct (Z.eq_dec z 0) as [-> | ]; [by rewrite Z.bits_0|].
    rewrite (Z.bits_above_log2 z k); [done|lia|apply Z.log2_lt_pow2; lia]. }
  destruct (Z_lt_le_dec x 0).
  - assert (x `mod` (2 * 2 ^ k) = (x + 2 ^ k) + 2 ^ k) as ->.
    { symmetry. apply Z.mod_unique with (-1); lia. }
    rewrite <- (Hlow (x + 2 ^ k)) by lia. by rewrite Z.lxor_assoc, Z.lxor_nilpotent, Z.lxor_0_r.
  - rewrite Z.mod_small by lia. apply Hlow. lia.
Qed.

(** ** Concrete encodings *)
Module RefCodec.
Fixpoint pos_chars (p : positive) : str :=
  match p with
  | xO p' => "q"%char :: pos_chars p'
  | xI p' => "p"%char :: pos_chars p'
  | xH => []
  end.
Fixpoint chars_pos (s : str) : positive :=
  match s with
  | [] => xH
  | c :: s' => if bool_decide (c = "q"%char) then xO (chars_pos s') else xI (chars_pos s')
  end.

Lemma chars_pos_chars p : chars_pos (pos_chars p) = p.
Proof.
  induction p as [p IH|p IH|]; cbn [pos_chars chars_pos]; [| |done].
  - rewrite bool_decide_false by done. by rewrite IH.
  - rewrite bool_decide_true by done. by rewrite IH.
Qed.

Definition codec : AddressCodec := {|
  addr_encode a := pos_chars (encode a);
  addr_decode s := decode (chars_pos s)
|}.

Lemma codec_laws : AddressCodecLaws codec.
Proof.
  constructor.
  - intros a. simpl. by rewrite chars_pos_chars, decode_encode.
  - intros a. simpl. induction (encode a) as [p IH|p IH|]; cbn [pos_chars];
      [rewrite not_elem_of_cons; by split..|apply not_elem_of_nil].
Qed.

Definition base32 : Base32Hex := {|
  b32_encode bs := (fun b => ascii_of_N (Z.to_N b)) <$> bs;
  b32_decode s := Some ((fun c => Z.of_N (N_of_ascii c)) <$> s)
|}.

Lemma byte_ascii b : is_byte b -> Z.of_N (N_of_ascii (ascii_of_N (Z.to_N b))) = b.
Proof. intros Hb. unfold is_byte in Hb. rewrite N_ascii_embedding by lia. lia. Qed.

Lemma bytes_ascii bs : Forall is_byte bs ->
  (fun c => Z.of_N (N_of_ascii c)) <$> ((fun b => ascii_of_N (Z.to_N b)) <$> bs) = bs.
Proof.
  induction 1 as [|b bs Hb _ IH]; [done|]. rewrite !fmap_cons, IH, byte_ascii by done. done.
Qed.

Lemma base32_laws : Base32HexLaws base32.
Proof.
  constructor.
  - intros bs Hbs. simpl. by rewrite bytes_ascii.
  - intros a b Ha Hb _. unfold str_cmp. simpl. by rewrite !bytes_ascii.
Qed.
End RefCodec.

(** ** Properties *)

(** Printing a key and parsing the result gives the key back, for keys
    whose string segments contain no separator and do not start with the
    address prefix. *)
Theorem key_round_trip {C : AddressCodec} {HC : AddressCodecLaws C} (k : Key)
  (Hseg : Forall seg_ok k) (Hne : key_to_string k <> []) :
  key_parse (key_to_string k) = Ok k.
Proof. by apply key_parse_to_string. Qed.

Lemma key_round_trip_witness :
  key_parse (C:=RefCodec.codec)
    (key_to_string (C:=RefCodec.codec) [AddressSeg (Internal PoS); StringSeg (lit "params")])
  = Ok [AddressSeg (Internal PoS); StringSeg (lit "params")].
Proof.
  apply (key_round_trip (HC:=RefCodec.codec_laws) [AddressSeg (Internal PoS); StringSeg (lit "params")]).
  - repeat constructor; [|discriminate]. vm_compute. intros H. repeat (inversion H as [|? ? ? H']; clear H; rename H' into H).
  - discriminate.
Defined.

(** [split_prefix] inverts [join]: it returns the rest of a key after a
    prefix, [Some(None)] when there is none, and [None] exactly when the key
    does not start with the prefix. *)
Theorem split_prefix_spec (k p : Key) :
  (forall s, split_prefix k p = Some (Some s) <-> k = key_join p s /\ s <> []) /\
  (split_prefix k p = Some None <-> k = p) /\
  (split_prefix k p = None <-> forall s, k <> key_join p s).
Proof.
  assert (forall s, split_prefix (key_join p s) p = Some (if s then None else Some s)) as Hj.
  { intros s. unfold split_prefix, key_join. rewrite length_app.
    destruct (Nat.ltb_spec (List.length p + List.length s) (List.length p)); [lia|].
    rewrite take_app_length, drop_app_length, (bool_decide_true (p = p)) by done.
    destruct s as [|x s]; [by rewrite app_nil_r, bool_decide_true|].
    rewrite bool_decide_false; [done|]. intros Hl%(f_equal List.length).
    rewrite length_app in Hl. simpl in Hl. lia. }
  assert ((exists s, k = key_join p s) \/ split_prefix k p = None) as [[s ->] | Hn].
  { unfold split_prefix, key_join. destruct (_ <? _)%nat; [by right|].
    destruct (bool_decide_reflect (k = p)) as [-> |]; [left; exists []; by rewrite app_nil_r|].
    destruct (bool_decide_reflect (take (List.length p) k = p)) as [Ht|]; [|by right].
    left. exists (drop (List.length p) k). rewrite <- Ht at 1. by rewrite take_drop. }
  - rewrite Hj. split_and!.
    + intros t. split; [destruct s; [done|]; intros [= <-]; done|].
      intros [Ht Hne]. apply app_inv_head in Ht as ->. by destruct t.
    + split; [destruct s; [|done]; intros _; by apply app_nil_r|].
      intros He. unfold key_join in He. rewrite <- (app_nil_r p) in He at 2.
      by apply app_inv_head in He as ->.
    + split; [done|]. intros Hall. by destruct (Hall s).
  - assert (forall s, k <> key_join p s) as Hno by (intros s ->; by rewrite Hj in Hn).
    rewrite Hn. split_and!; [|split; [done|]|done].
    + intros s. split; [done|]. intros [Hk _]. by destruct (Hno s).
    + intros ->. destruct (Hno []). unfold key_join. by rewrite app_nil_r.
Qed.

(** Integers as key segments: the string form of unsigned and of signed
    integers orders like the integers, so that iterating keys in the order of
    the database goes through the integers in their order, and parses back. *)
Theorem int_segment_order {B : Base32Hex} {HB : Base32HexLaws B} (n : nat) (x y : Z)
  (Hn : (1 <= n)%nat) :
  (0 <= x < 256 ^ Z.of_nat n -> 0 <= y < 256 ^ Z.of_nat n ->
   str_cmp (int_raw n x) (int_raw n y) = (x ?= y) /\ int_parse n (int_raw n x) = Ok x) /\
  (- 2 ^ (8 * Z.of_nat n - 1) <= x < 2 ^ (8 * Z.of_nat n - 1) ->
   - 2 ^ (8 * Z.of_nat n - 1) <= y < 2 ^ (8 * Z.of_nat n - 1) ->
   str_cmp (signed_raw n x) (signed_raw n y) = (x ?= y) /\
   signed_parse n (signed_raw n x) = Ok x).
Proof.
  assert (forall x, 0 <= x < 256 ^ Z.of_nat n -> int_parse n (int_raw n x) = Ok x) as Hparse.
  { intros z Hz. unfold int_parse, int_raw. rewrite b32_decode_encode by (by apply to_be_bytes_ok).
    cbn [ok_or out_bind]. rewrite to_be_bytes_length, Nat.eqb_refl. by rewrite from_to_be_bytes. }
  assert (forall x y, 0 <= x < 256 ^ Z.of_nat n -> 0 <= y < 256 ^ Z.of_nat n ->
    str_cmp (int_raw n x) (int_raw n y) = (x ?= y)) as Hord.
  { intros a b Ha Hb. unfold int_raw. rewrite b32_order; [by apply lex_be_bytes| | |].
    - by apply to_be_bytes_ok. - by apply to_be_bytes_ok. - by rewrite !to_be_bytes_length. }
  split; [auto|]. intros Hx Hy.
  assert (256 ^ Z.of_nat n = 2 * 2 ^ (8 * Z.of_nat n - 1)) as Hp.
  { change 256 with (2 ^ 8). rewrite <- Z.pow_mul_r, <- Z.pow_succ_r by lia. f_equal. lia. }
  unfold signed_raw, signed_parse. rewrite !flip_sign by done. split.
  - rewrite Hord by lia. by rewrite !(Z.add_comm _ (2 ^ _)), Z.add_compare_mono_l.
  - rewrite Hparse by lia. cbn [out_bind]. f_equal.
    rewrite <- (flip_sign n x), Z.lxor_assoc, Z.lxor_nilpotent, Z.lxor_0_r by done.
    unfold as_signed, as_unsigned. set (k := 8 * Z.of_nat n - 1) in *.
    replace (8 * Z.of_nat n) with (Z.succ k) by lia. rewrite Z.pow_succ_r by lia.
    destruct (Z_lt_le_dec x 0).
    + assert (x `mod` (2 * 2 ^ k) = x + 2 * 2 ^ k) as ->
        by (symmetry; apply Z.mod_unique with (-1); lia).
      destruct (Z.ltb_spec (x + 2 * 2 ^ k) (2 ^ k)); lia.
    + rewrite Z.mod_small by lia. destruct (Z.ltb_spec x (2 ^ k)); lia.
Qed.

Lemma int_segment_order_witness :
  str_cmp (signed_raw (B:=RefCodec.base32) 8 (-5)) (signed_raw (B:=RefCodec.base32) 8 3) = Lt.
Proof.
  destruct (int_segment_order (HB:=RefCodec.base32_laws) 8 (-5) 3 ltac:(lia)) as [_ H].
  apply H; split; vm_compute; congruence.
Defined.
