(* ===== verification/WriteLog.v ===== *)
(** * The write log: [core/src/ledger/storage/write_log.rs]

    Writes of a transaction go to [tx_write_log]; parts of it can be set aside
    in [tx_precommit_write_log]; a transaction accepted by the validity
    predicates is merged into [block_write_log], which is applied to the
    storage at the end of the block. The generator of established addresses
    hashes with an external crate and is a parameter; the database is the map
    of the in-memory [MockDB]. Iteration over a hash map is [map_fold], whose
    order is unspecified. *)

From S2P Require Import Prelude Gas Keys.
From stdpp Require Import base numbers list strings countable gmap gmultiset sets fin_maps option.
From Stdlib Require Import ZArith Lia Ascii String.
Local Open Scope Z_scope.
Local Open Scope st_scope.

Notation Hash := Z.
Notation bytes := (list Z).
Definition HASH_LENGTH : Z := 32.
(** The bytes of a hash *)
Definition hash_bytes (h : Hash) : bytes := to_be_bytes 32 h.

Inductive Error : Type :=
| StorageError
| UpdateTemporaryValue
| UpdateVpOfNewAccount
| DeleteVp
| WriteTempAfterDelete
| ReplayProtection.

#[export] Instance Error_eq_dec : EqDecision Error.
Proof. solve_decision. Defined.

Inductive StorageModification : Type :=
| Write (value : bytes)
| Delete
| InitAccount (vp_code_hash : Hash)
| Temp (value : bytes).

#[export] Instance StorageModification_eq_dec : EqDecision StorageModification.
Proof. solve_decision. Defined.

Inductive ReProtStorageModification : Type :=
| RWrite
| RDelete
| RFinalize.

#[export] Instance ReProt_eq_dec : EqDecision ReProtStorageModification.
Proof. solve_decision. Defined.

Record IbcEvent : Type := mkIbcEvent { event_type : str; attributes : list (str * str) }.

#[export] Instance IbcEvent_eq_dec : EqDecision IbcEvent.
Proof. solve_decision. Defined.
#[export] Instance IbcEvent_countable : Countable IbcEvent.
Proof.
  refine (inj_countable' (fun e => (event_type e, attributes e))
            (fun p => mkIbcEvent p.1 p.2) _).
  by intros [].
Defined.

Notation modifications := (gmap Key StorageModification).

(** [EstablishedAddressGen::generate_address] *)
Class AddressGen : Type := {
  gen : Type;
  generate_address : gen -> Address * gen
}.

Section write_log.
Context {C : AddressCodec} {G : AddressGen}.

Record WriteLog : Type := mkWriteLog {
  address_gen : option gen;
  block_write_log : modifications;
  tx_write_log : modifications;
  tx_precommit_write_log : modifications;
  ibc_events : gset IbcEvent;
  replay_protection : gmap Hash ReProtStorageModification
}.

Definition default_write_log : WriteLog := mkWriteLog None ∅ ∅ ∅ ∅ ∅.

Definition set_tx (m : modifications) (w : WriteLog) : WriteLog :=
  mkWriteLog (address_gen w) (block_write_log w) m (tx_precommit_write_log w)
    (ibc_events w) (replay_protection w).
Definition set_block (m : modifications) (w : WriteLog) : WriteLog :=
  mkWriteLog (address_gen w) m (tx_write_log w) (tx_precommit_write_log w)
    (ibc_events w) (replay_protection w).
Definition set_precommit (m : modifications) (w : WriteLog) : WriteLog :=
  mkWriteLog (address_gen w) (block_write_log w) (tx_write_log w) m
    (ibc_events w) (replay_protection w).
Definition set_gen (g : option gen) (w : WriteLog) : WriteLog :=
  mkWriteLog g (block_write_log w) (tx_write_log w) (tx_precommit_write_log w)
    (ibc_events w) (replay_protection w).
Definition set_events (e : gset IbcEvent) (w : WriteLog) : WriteLog :=
  mkWriteLog (address_gen w) (block_write_log w) (tx_write_log w)
    (tx_precommit_write_log w) e (replay_protection w).
Definition set_replay (r : gmap Hash ReProtStorageModification) (w : WriteLog) : WriteLog :=
  mkWriteLog (address_gen w) (block_write_log w) (tx_write_log w)
    (tx_precommit_write_log w) (ibc_events w) r.

Definition blen (v : bytes) : Z := Z.of_nat (List.length v).

(** The bytes a read of an entry is charged for *)
Definition entry_len (key : Key) (v : StorageModification) : Z :=
  match v with
  | Write value => key_len key + blen value
  | Delete => key_len key
  | InitAccount _ => key_len key + HASH_LENGTH
  | Temp value => key_len key + blen value
  end.

Definition read_cost {E} (key : Key) (o : option StorageModification) : outcome E Z :=
  match o with
  | Some v => u64_mul (entry_len key v) MEMORY_ACCESS_GAS_PER_BYTE
  | None => u64_mul (key_len key) MEMORY_ACCESS_GAS_PER_BYTE
  end.

(** The entry [read] finds: transaction, then precommit, then block *)
Definition find (w : WriteLog) (key : Key) : option StorageModification :=
  match tx_write_log w !! key with
  | Some v => Some v
  | None =>
      match tx_precommit_write_log w !! key with
      | Some v => Some v
      | None => block_write_log w !! key
      end
  end.

Definition read {E} (key : Key) (w : WriteLog)
  : outcome E (option StorageModification * Z) :=
  out_bind (read_cost key (find w key)) (fun gas => Ok (find w key, gas)).

Definition read_pre {E} (key : Key) (w : WriteLog)
  : outcome E (option StorageModification * Z) :=
  let v := block_write_log w !! key in
  out_bind (read_cost key v) (fun gas => Ok (v, gas)).

(** [HashMap::insert], with the previous value *)
Definition tx_insert (key : Key) (v : StorageModification)
  : st WriteLog Error (option StorageModification) :=
  fun w => (set_tx (<[key := v]> (tx_write_log w)) w, Ok (tx_write_log w !! key)).
Definition block_insert (key : Key) (v : StorageModification)
  : st WriteLog Error (option StorageModification) :=
  fun w => (set_block (<[key := v]> (block_write_log w)) w, Ok (block_write_log w !! key)).

Definition write (key : Key) (value : bytes) : st WriteLog Error (Z * Z) :=
  let len := blen value in
  let gas := key_len key + len in
  let! prev := tx_insert key (Write value) in
  let! size_diff :=
    match prev with
    | Some (Write value) => st_ret (len - blen value)
    | Some Delete => st_ret len
    | Some (InitAccount _) => st_err UpdateVpOfNewAccount
    | Some (Temp _) => st_err UpdateTemporaryValue
    | None => st_ret len
    end in
  let! g := st_lift (u64_mul gas STORAGE_WRITE_GAS_PER_BYTE) in
  st_ret (g, size_diff).

Definition protocol_write (key : Key) (value : bytes) : st WriteLog Error unit :=
  let! prev := block_insert key (Write value) in
  match prev with
  | Some (InitAccount _) => st_err UpdateVpOfNewAccount
  | Some (Temp _) => st_err UpdateTemporaryValue
  | Some (Write _) | Some Delete | None => st_ret tt
  end.

Definition write_temp (key : Key) (value : bytes) : st WriteLog Error (Z * Z) :=
  let len := blen value in
  let gas := key_len key + len in
  let! prev := tx_insert key (Temp value) in
  let! size_diff :=
    match prev with
    | Some (Write value) => st_ret (len - blen value)
    | Some Delete => st_err WriteTempAfterDelete
    | Some (InitAccount _) => st_err UpdateVpOfNewAccount
    | Some (Temp value) => st_ret (len - blen value)
    | None => st_ret len
    end in
  let! g := st_lift (u64_mul gas MEMORY_ACCESS_GAS_PER_BYTE) in
  st_ret (g, size_diff).

Definition delete (key : Key) : st WriteLog Error (Z * Z) :=
  match is_validity_predicate key with
  | Some _ => st_err DeleteVp
  | None =>
      let! prev := tx_insert key Delete in
      let! size_diff :=
        match prev with
        | Some (Write value) => st_ret (blen value)
        | Some Delete => st_ret 0
        | Some (InitAccount _) => st_err DeleteVp
        | Some (Temp value) => st_ret (blen value)
        | None => st_ret 0
        end in
      let gas := key_len key + size_diff in
      let! g := st_lift (u64_mul gas STORAGE_WRITE_GAS_PER_BYTE) in
      st_ret (g, - size_diff)
  end.

Definition protocol_delete (key : Key) : st WriteLog Error unit :=
  match is_validity_predicate key with
  | Some _ => st_err DeleteVp
  | None =>
      let! prev := block_insert key Delete in
      match prev with
      | Some (InitAccount _) => st_err DeleteVp
      | Some (Write _) | Some Delete | Some (Temp _) | None => st_ret tt
      end
  end.

Definition init_account (storage_address_gen : gen) (vp_code_hash : Hash)
  : st WriteLog Error (Address * Z) :=
  let! g := st_get (fun w => default storage_address_gen (address_gen w)) in
  let '(addr, g') := generate_address g in
  do! st_mod (set_gen (Some g')) in
  let key := validity_predicate addr in
  let! gas := st_lift (u64_mul (key_len key + HASH_LENGTH) STORAGE_WRITE_GAS_PER_BYTE) in
  let! _prev := tx_insert key (InitAccount vp_code_hash) in
  st_ret (addr, gas).

Definition emit_ibc_event (event : IbcEvent) : st WriteLog Error Z :=
  let len := foldl (fun acc '(k, v) =>
      acc + Z.of_nat (List.length (k : str)) + Z.of_nat (List.length (v : str)))
    0 (attributes event) in
  do! st_mod (fun w => set_events ({[ event ]} ∪ ibc_events w) w) in
  st_lift (u64_mul len MEMORY_ACCESS_GAS_PER_BYTE).

Definition get_keys (w : WriteLog) : gset Key := dom (tx_write_log w).
Definition get_keys_with_precommit (w : WriteLog) : gset Key :=
  dom (tx_precommit_write_log w) ∪ dom (tx_write_log w).

(** Whether an entry initialises an account, and which *)
Definition initialized_by (e : Key * StorageModification) : option Address :=
  match is_validity_predicate e.1, e.2 with
  | Some address, InitAccount _ => Some address
  | _, _ => None
  end.

Definition get_initialized_accounts (w : WriteLog) : list Address :=
  omap initialized_by (map_to_list (tx_write_log w)).

Definition get_partitioned_keys (w : WriteLog) : gset Key * gset Address :=
  (list_to_set (fst <$> filter (fun e => initialized_by e = None) (map_to_list (tx_write_log w))),
   list_to_set (omap initialized_by (map_to_list (tx_write_log w)))).

Definition take_ibc_events : st WriteLog Error (gset IbcEvent) :=
  fun w => (set_events ∅ w, Ok (ibc_events w)).

(** [HashMap::extend]: the new entries win *)
Definition extend (m new : modifications) : modifications := new ∪ m.

Definition precommit_tx (w : WriteLog) : WriteLog :=
  let tx_log := tx_write_log w in
  let w := set_tx ∅ w in
  set_precommit (extend (tx_precommit_write_log w) tx_log) w.

Definition is_temp (v : StorageModification) : bool :=
  match v with Temp _ => true | _ => false end.

Definition commit_tx (w : WriteLog) : WriteLog :=
  let w := precommit_tx w in
  let log := filter (fun e => is_temp e.2 = false) (tx_precommit_write_log w) in
  let w := set_precommit ∅ w in
  let w := set_block (extend (block_write_log w) log) w in
  set_events ∅ w.

Definition drop_tx (w : WriteLog) : WriteLog := set_tx ∅ (set_precommit ∅ w).
Definition drop_tx_keep_precommit (w : WriteLog) : WriteLog := set_tx ∅ w.

(** ** Committing a block *)
Record Storage : Type := mkStorage {
  subspace : gmap Key bytes;
  replay_last : gset Hash;
  replay_all : gset Hash;
  storage_address_gen : gen
}.

Definition apply_entry (key : Key) (entry : StorageModification) (db : gmap Key bytes)
  : gmap Key bytes :=
  match entry with
  | Write value => <[key := value]> db
  | Delete => base.delete key db
  | InitAccount vp_code_hash => <[key := hash_bytes vp_code_hash]> db
  | Temp _ => db
  end.

Definition apply_replay (hash : Hash) (entry : ReProtStorageModification)
    (r : gset Hash * gset Hash) : gset Hash * gset Hash :=
  let '(last, all) := r in
  match entry with
  | RWrite => ({[ hash ]} ∪ last, all)
  | RDelete => (last ∖ {[ hash ]}, all)
  | RFinalize => (last ∖ {[ hash ]}, {[ hash ]} ∪ all)
  end.

Definition commit_block (w : WriteLog) (s : Storage) : WriteLog * Storage :=
  let db := map_fold apply_entry (subspace s) (block_write_log w) in
  let '(last, all) := map_fold apply_replay (replay_last s, replay_all s) (replay_protection w) in
  let s := mkStorage db last all (default (storage_address_gen s) (address_gen w)) in
  (set_replay ∅ (set_block ∅ (set_gen None w)), s).

(** ** Verifiers of a transaction *)
Definition key_verifiers (verifiers_from_tx : gset Address) (initialized : list Address)
    (key : Key) : gset Address :=
  match is_any_token_balance_key key with
  | Some (token, owner) =>
      match token with
      | Internal (Nut _) => {[ token; Internal Multitoken; owner ]}
      | _ => {[ Internal Multitoken; owner ]}
      end
  | None =>
      match is_any_minted_balance_key key, is_any_minter_key key with
      | None, None =>
          list_to_set (filter (fun addr => ~ (addr ∈ verifiers_from_tx \/ addr ∈ initialized))
                              (find_addresses key))
      | _, _ => {[ Internal Multitoken ]}
      end
  end.

Definition verifiers_and_changed_keys (verifiers_from_tx : gset Address) (w : WriteLog)
  : gset Address * gset Key :=
  let changed_keys := get_keys w in
  let initialized_accounts := get_initialized_accounts w in
  (foldl (fun vs key => key_verifiers verifiers_from_tx initialized_accounts key ∪ vs)
         verifiers_from_tx (elements changed_keys), changed_keys).

(** ** Iteration by prefix: the entries by printed key *)
Definition insert_match (prefix : Key) (key : Key) (v : StorageModification)
    (acc : gmap str StorageModification) : gmap str StorageModification :=
  match split_prefix key prefix with
  | Some _ => <[key_to_string key := v]> acc
  | None => acc
  end.
Definition iter_prefix_pre (prefix : Key) (w : WriteLog) : gmap str StorageModification :=
  map_fold (insert_match prefix) ∅ (block_write_log w).
Definition iter_prefix_post (prefix : Key) (w : WriteLog) : gmap str StorageModification :=
  map_fold (insert_match prefix) (iter_prefix_pre prefix w) (tx_write_log w).

(** ** Replay protection *)
Definition has_replay_protection_entry (hash : Hash) (w : WriteLog) : option bool :=
  (fun action => match action with RDelete => false | _ => true end)
    <$> replay_protection w !! hash.

Definition replay_insert (hash : Hash) (v : ReProtStorageModification)
  : st WriteLog Error (option ReProtStorageModification) :=
  fun w => (set_replay (<[hash := v]> (replay_protection w)) w, Ok (replay_protection w !! hash)).

Definition write_tx_hash (hash : Hash) : st WriteLog Error unit :=
  let! prev := replay_insert hash RWrite in
  match prev with Some _ => st_err ReplayProtection | None => st_ret tt end.
Definition delete_tx_hash (hash : Hash) : st WriteLog Error unit :=
  let! prev := replay_insert hash RDelete in
  match prev with
  | None => st_ret tt
  | Some RFinalize => st_ret tt
  | Some _ => st_err ReplayProtection
  end.
Definition finalize_tx_hash (hash : Hash) : st WriteLog Error unit :=
  let! prev := replay_insert hash RFinalize in
  match prev with Some _ => st_err ReplayProtection | None => st_ret tt end.
End write_log.

(** ** Abstract specification

    The log and the storage together are a store with savepoints: what is
    durable, what the block has accepted, and two layers of changes that are
    pending on top of the block, the ones before the savepoint of the current
    transaction and the ones after it. *)
Definition view : Type := Key -> option bytes.

(** A pending change: a new value, or none, to be kept; or a temporary value, in
    front of what the block has *)
Inductive change : Type := Persist (o : option bytes) | Temporary (v : bytes).
Definition layer : Type := Key -> option change.
Definition no_changes : layer := fun _ => None.
Definition over (x y : layer) : layer := fun k => match x k with Some c => Some c | None => y k end.
Definition resolve (c : option change) (below : option bytes) : option bytes :=
  match c with Some (Persist o) => o | _ => below end.

Record AbsStore : Type := mkAbs { a_durable : view; a_block : view; a_saved : layer; a_tx : layer }.
(** What the transaction would leave behind *)
Definition a_pending (a : AbsStore) : layer := over (a_tx a) (a_saved a).
Definition a_view (a : AbsStore) : view := fun k => resolve (a_pending a k) (a_block a k).

(** Pointwise equality of stores *)
Definition abs_eq (a b : AbsStore) : Prop :=
  forall k, a_durable a k = a_durable b k /\ a_block a k = a_block b k /\ a_saved a k = a_saved b k /\ a_tx a k = a_tx b k.

#[export] Instance abs_eq_equiv : Equivalence abs_eq.
Proof.
  split.
  - intros a k. done.
  - intros a b H k. destruct (H k) as (? & ? & ? & ?). auto.
  - intros a b c H1 H2 k. destruct (H1 k) as (-> & -> & -> & ->). apply H2.
Qed.

Definition upd {A} (f : Key -> A) (k : Key) (v : A) : Key -> A :=
  fun k' => if decide (k' = k) then v else f k'.

Inductive event : Type :=
| EvWrite (k : Key) (v : bytes)
| EvTemp (k : Key) (v : bytes)
| EvDelete (k : Key)
| EvInit (k : Key) (h : Hash)
| EvPrecommit
| EvCommitTx
| EvDropTx
| EvDropTxKeepPrecommit
| EvProtocolWrite (k : Key) (v : bytes)
| EvProtocolDelete (k : Key)
| EvCommitBlock
| EvElse.

(** What each event does; the code of an account is never deleted. *)
Definition spec_step (e : event) (a : AbsStore) : AbsStore :=
  let '(mkAbs d b s t) := a in
  match e with
  | EvWrite k v => mkAbs d b s (upd t k (Some (Persist (Some v))))
  | EvTemp k v => mkAbs d b s (upd t k (Some (Temporary v)))
  | EvDelete k => if is_validity_predicate k then a else mkAbs d b s (upd t k (Some (Persist None)))
  | EvInit k h => mkAbs d b s (upd t k (Some (Persist (Some (hash_bytes h)))))
  | EvPrecommit => mkAbs d b (over t s) no_changes
  | EvCommitTx => mkAbs d (a_view a) no_changes no_changes
  | EvDropTx => mkAbs d b no_changes no_changes
  | EvDropTxKeepPrecommit => mkAbs d b s no_changes
  | EvProtocolWrite k v => mkAbs d (upd b k (Some v)) s t
  | EvProtocolDelete k => if is_validity_predicate k then a else mkAbs d (upd b k None) s t
  | EvCommitBlock => mkAbs b b s t
  | EvElse => a
  end.

#[export] Instance spec_step_proper e : Proper (abs_eq ==> abs_eq) (spec_step e).
Proof.
  intros [d b s t] [d' b' s' t'] H.
  assert ((forall k, d k = d' k) /\ (forall k, b k = b' k) /\ (forall k, s k = s' k) /\ (forall k, t k = t' k))
    as (Hd & Hb & Hs & Ht) by (split_and!; intros k; apply (H k)).
  destruct e; intros k'; cbn [spec_step]; unfold a_view, a_pending, over, upd; repeat case_match; cbn; rewrite ?Hd, ?Hb, ?Hs, ?Ht; try done;
    split_and!; try case_decide; rewrite ?Hd, ?Hb, ?Hs, ?Ht; done.
Qed.

Section refinement.
Context {C : AddressCodec} {G : AddressGen}.

(** The value an entry stands for, over what is below it *)
Definition value_of (o : option StorageModification) (base : option bytes) : option bytes :=
  match o with
  | Some (Write v) => Some v
  | Some Delete => None
  | Some (InitAccount h) => Some (hash_bytes h)
  | Some (Temp _) | None => base
  end.

Definition block_view (w : WriteLog) (s : Storage) : view :=
  fun k => value_of (block_write_log w !! k) (subspace s !! k).
Definition change_of (e : StorageModification) : change :=
  match e with
  | Write v => Persist (Some v)
  | Delete => Persist None
  | InitAccount h => Persist (Some (hash_bytes h))
  | Temp v => Temporary v
  end.
Definition layer_of (m : modifications) : layer := fun k => change_of <$> m !! k.

Definition abs (ws : WriteLog * Storage) : AbsStore :=
  mkAbs (fun k => subspace ws.2 !! k) (block_view ws.1 ws.2) (layer_of (tx_precommit_write_log ws.1)) (layer_of (tx_write_log ws.1)).

(** The operations, in any order and with any result *)
Inductive step : WriteLog * Storage -> event -> WriteLog * Storage -> Prop :=
| step_write k v w s : step (w, s) (EvWrite k v) ((write k v w).1, s)
| step_temp k v w s : step (w, s) (EvTemp k v) ((write_temp k v w).1, s)
| step_delete k w s : step (w, s) (EvDelete k) ((delete k w).1, s)
| step_init g h w w' a gas s :
    init_account g h w = (w', Ok (a, gas)) -> step (w, s) (EvInit (validity_predicate a) h) (w', s)
| step_init_fail g h w w' r s :
    init_account g h w = (w', r) -> (forall x, r <> Ok x) -> step (w, s) EvElse (w', s)
| step_precommit w s : step (w, s) EvPrecommit (precommit_tx w, s)
| step_commit_tx w s : step (w, s) EvCommitTx (commit_tx w, s)
| step_drop_tx w s : step (w, s) EvDropTx (drop_tx w, s)
| step_drop_tx_keep_precommit w s : step (w, s) EvDropTxKeepPrecommit (drop_tx_keep_precommit w, s)
| step_protocol_write k v w s : step (w, s) (EvProtocolWrite k v) ((protocol_write k v w).1, s)
| step_protocol_delete k w s : step (w, s) (EvProtocolDelete k) ((protocol_delete k w).1, s)
| step_commit_block w s : step (w, s) EvCommitBlock (commit_block w s)
| step_emit_ibc_event e w s : step (w, s) EvElse ((emit_ibc_event e w).1, s)
| step_take_ibc_events w s : step (w, s) EvElse ((take_ibc_events w).1, s)
| step_write_tx_hash h w s : step (w, s) EvElse ((write_tx_hash h w).1, s)
| step_delete_tx_hash h w s : step (w, s) EvElse ((delete_tx_hash h w).1, s)
| step_finalize_tx_hash h w s : step (w, s) EvElse ((finalize_tx_hash h w).1, s).

Inductive steps : WriteLog * Storage -> list event -> WriteLog * Storage -> Prop :=
| steps_nil x : steps x [] x
| steps_cons x e y es z : step x e y -> steps y es z -> steps x (e :: es) z.

(** *** Lemmas *)
Lemma apply_entry_lookup k key e db :
  apply_entry key e db !! k =
  if decide (k = key) then value_of (Some e) (db !! k) else db !! k.
Proof.
  destruct (decide (k = key)) as [-> | Hn], e; simpl;
    by rewrite ?lookup_insert_eq, ?lookup_delete_eq, ?lookup_insert_ne, ?lookup_delete_ne by done.
Qed.

(** Applying a block's entries, in whatever order. *)
Lemma fold_entries_lookup (m : modifications) db k :
  map_fold apply_entry db m !! k = value_of (m !! k) (db !! k).
Proof.
  apply (map_fold_weak_ind (fun r m => r !! k = value_of (m !! k) (db !! k))).
  - by rewrite lookup_empty.
  - intros i x m' r Hi IH. rewrite apply_entry_lookup.
    destruct (decide (k = i)) as [-> | Hn].
    + rewrite lookup_insert_eq, IH, Hi. by destruct x.
    + by rewrite lookup_insert_ne by done.
Qed.

Lemma change_value e base : resolve (Some (change_of e)) base = value_of (Some e) base.
Proof. by destruct e. Qed.
Lemma layer_union (m n : modifications) k : layer_of (m ∪ n) k = over (layer_of m) (layer_of n) k.
Proof. unfold layer_of, over. rewrite lookup_union. by destruct (m !! k), (n !! k). Qed.
Lemma layer_empty k : layer_of ∅ k = no_changes k.
Proof. unfold layer_of. by rewrite lookup_empty. Qed.
Lemma layer_insert (m : modifications) key e k : layer_of (<[key := e]> m) k = upd (layer_of m) key (Some (change_of e)) k.
Proof. unfold layer_of, upd. case_decide; subst; [by rewrite lookup_insert_eq|by rewrite lookup_insert_ne by done]. Qed.
(** Committing the entries that are not temporary *)
Lemma commit_filter (m b : modifications) k base :
  value_of ((filter (fun e => is_temp e.2 = false) m ∪ b) !! k) base = resolve (layer_of m k) (value_of (b !! k) base).
Proof.
  unfold layer_of. rewrite lookup_union, map_lookup_filter.
  destruct (m !! k) as [x|] eqn:Hm, (b !! k) as [y|] eqn:Hb; simpl; [| |done|done];
    destruct x; simpl; rewrite ?option_guard_True, ?option_guard_False by done; done.
Qed.

(** The operations change one log at one key only, whatever they return. *)
Lemma write_state k v w : (write k v w).1 = set_tx (<[k := Write v]> (tx_write_log w)) w.
Proof. unfold write, tx_insert, st_bind, st_ret, st_err, st_lift. by repeat case_match; simplify_eq/=. Qed.
Lemma write_temp_state k v w : (write_temp k v w).1 = set_tx (<[k := Temp v]> (tx_write_log w)) w.
Proof. unfold write_temp, tx_insert, st_bind, st_ret, st_err, st_lift. by repeat case_match; simplify_eq/=. Qed.
Lemma delete_state k w : (delete k w).1 = if is_validity_predicate k then w else set_tx (<[k := Delete]> (tx_write_log w)) w.
Proof. unfold delete, tx_insert, st_bind, st_ret, st_err, st_lift. by repeat case_match; simplify_eq/=. Qed.
Lemma protocol_write_state k v w : (protocol_write k v w).1 = set_block (<[k := Write v]> (block_write_log w)) w.
Proof. unfold protocol_write, block_insert, st_bind, st_ret, st_err. by repeat case_match; simplify_eq/=. Qed.
Lemma protocol_delete_state k w : (protocol_delete k w).1 = if is_validity_predicate k then w else set_block (<[k := Delete]> (block_write_log w)) w.
Proof. unfold protocol_delete, block_insert, st_bind, st_ret, st_err. by repeat case_match; simplify_eq/=. Qed.
(** The views do not depend on the rest of the log. *)
Definition same_logs (w w' : WriteLog) : Prop :=
  block_write_log w' = block_write_log w /\ tx_write_log w' = tx_write_log w /\ tx_precommit_write_log w' = tx_precommit_write_log w.
Lemma same_logs_abs w w' s : same_logs w w' -> abs_eq (abs (w', s)) (abs (w, s)).
Proof. intros (Hb & Ht & Hp) k. unfold abs, block_view. cbn. by rewrite Hb, Ht, Hp. Qed.
Lemma init_account_state g h w w' r : init_account g h w = (w', r) ->
  (exists a gas, r = Ok (a, gas) /\ same_logs (set_tx (<[validity_predicate a := InitAccount h]> (tx_write_log w)) w) w') \/ (forall x, r <> Ok x) /\ same_logs w w'.
Proof.
  unfold init_account, st_bind, st_get, st_mod, st_lift, tx_insert, st_ret. intros H. repeat (case_match; simplify_eq/=); [left; by eexists _, _|right; by split..].
Qed.
Lemma replay_insert_abs {A} h v (K : option ReProtStorageModification -> st WriteLog Error A) w s :
  (forall o w', ((K o) w').1 = w') -> abs_eq (abs ((st_bind (replay_insert h v) K w).1, s)) (abs (w, s)).
Proof. intros HK. unfold st_bind, replay_insert. rewrite HK. by apply same_logs_abs. Qed.

Lemma tx_insert_abs k e w s :
  abs_eq (abs (set_tx (<[k := e]> (tx_write_log w)) w, s))
    (mkAbs (fun k => subspace s !! k) (block_view w s) (layer_of (tx_precommit_write_log w)) (upd (layer_of (tx_write_log w)) k (Some (change_of e)))).
Proof. intros k'. cbn. split_and!; [done..|]. apply layer_insert. Qed.
Lemma block_insert_abs k e w s :
  abs_eq (abs (set_block (<[k := e]> (block_write_log w)) w, s))
    (mkAbs (fun k => subspace s !! k) (upd (block_view w s) k (value_of (Some e) (subspace s !! k))) (layer_of (tx_precommit_write_log w)) (layer_of (tx_write_log w))).
Proof.
  intros k'. cbn. unfold block_view, upd. cbn. split_and!; [done| |done..].
  case_decide; [subst; by rewrite lookup_insert_eq|by rewrite lookup_insert_ne by done].
Qed.
Lemma commit_tx_abs w s : abs_eq (abs (commit_tx w, s)) (spec_step EvCommitTx (abs (w, s))).
Proof.
  intros k. cbn. unfold block_view, a_view, a_pending. cbn. unfold extend. split_and!; [done| |apply layer_empty|apply layer_empty].
  rewrite commit_filter, layer_union. done.
Qed.

Lemma step_refines x e y : step x e y -> abs_eq (abs y) (spec_step e (abs x)).
Proof.
  destruct 1 as [k v w s|k v w s|k w s|g h w w' a gas s H|g h w w' r s H Hr|w s|w s|w s|w s|k v w s|k w s|w s|e w s|w s|h w s|h w s|h w s].
  - rewrite write_state. apply (tx_insert_abs k (Write v)).
  - rewrite write_temp_state. apply (tx_insert_abs k (Temp v)).
  - rewrite delete_state. cbn [spec_step abs fst snd]. destruct (is_validity_predicate k); [reflexivity|]. apply (tx_insert_abs k Delete).
  - destruct (init_account_state _ _ _ _ _ H) as [(a' & gas' & [= <- <-] & Hl)|[Hn _]]; [|by destruct (Hn (a, gas))].
    etransitivity; [by apply same_logs_abs|]. apply (tx_insert_abs (validity_predicate a) (InitAccount h)).
  - destruct (init_account_state _ _ _ _ _ H) as [(a & gas & -> & _)|[_ Hl]]; [by destruct (Hr (a, gas))|]. by apply same_logs_abs.
  - intros k. cbn. split_and!; [done|done|apply layer_union|apply layer_empty].
  - apply commit_tx_abs.
  - intros k. cbn. split_and!; [done|done|apply layer_empty|apply layer_empty].
  - intros k. cbn. split_and!; [done..|apply layer_empty].
  - rewrite protocol_write_state. apply (block_insert_abs k (Write v)).
  - rewrite protocol_delete_state. cbn [spec_step abs fst snd]. destruct (is_validity_predicate k); [reflexivity|]. apply (block_insert_abs k Delete).
  - unfold commit_block. destruct (map_fold apply_replay _ _) as [last all].
    intros k. cbn. unfold block_view. cbn. rewrite lookup_empty. cbn. rewrite fold_entries_lookup. done.
  - by apply same_logs_abs.
  - by apply same_logs_abs.
  - apply replay_insert_abs. by intros [] ?.
  - apply replay_insert_abs. by intros [[]|] ?.
  - apply replay_insert_abs. by intros [] ?.
Qed.
Lemma steps_refine x es y : steps x es y ->
  abs_eq (abs y) (foldl (fun a e => spec_step e a) (abs x) es).
Proof.
  intros Hs. assert (forall a, abs_eq (abs x) a ->
    abs_eq (abs y) (foldl (fun a e => spec_step e a) a es)) as H; [|by apply H].
  induction Hs as [x|x e y es z Hst _ IH]; intros a Ha; cbn [foldl]; [done|].
  apply IH. etransitivity; [by apply step_refines|]. by rewrite Ha.
Qed.

(** *** Verifiers *)
Lemma verifiers_spec from_tx w a :
  a ∈ (verifiers_and_changed_keys from_tx w).1 <->
  a ∈ from_tx \/
  exists k, k ∈ dom (tx_write_log w) /\
    a ∈ key_verifiers from_tx (get_initialized_accounts w) k.
Proof.
  unfold verifiers_and_changed_keys. cbn [fst].
  set (f := key_verifiers from_tx (get_initialized_accounts w)).
  assert (forall l vs, a ∈ foldl (fun vs key => f key ∪ vs) vs l <->
    a ∈ vs \/ exists k, k ∈ l /\ a ∈ f k) as Hl.
  { induction l as [|k l IH]; intros vs; cbn [foldl].
    - split; [by left|]. intros [|(k & Hk & _)]; [done|by apply elem_of_nil in Hk].
    - rewrite IH. set_solver. }
  rewrite Hl. unfold get_keys. setoid_rewrite elem_of_elements. done.
Qed.

(** *** Iteration by prefix *)
Definition key_ok (k : Key) : Prop := Forall seg_ok k /\ key_to_string k <> [].

Lemma fold_match_lookup {HC : AddressCodecLaws C} (prefix : Key) (m : modifications) acc k :
  (forall k', k' ∈ dom m -> key_ok k') -> key_ok k ->
  map_fold (insert_match prefix) acc m !! key_to_string k =
  match split_prefix k prefix, m !! k with
  | Some _, Some v => Some v
  | _, _ => acc !! key_to_string k
  end.
Proof.
  intros Hm Hk.
  apply (map_fold_weak_ind (fun r m => (forall k', k' ∈ dom m -> key_ok k') ->
    r !! key_to_string k = match split_prefix k prefix, m !! k with
      | Some _, Some v => Some v | _, _ => acc !! key_to_string k end)); [| |done].
  - intros _. rewrite lookup_empty. by destruct (split_prefix k prefix).
  - intros i x m' r Hi IH Hd.
    assert (forall k', k' ∈ dom m' -> key_ok k') as Hd' by (intros; apply Hd; set_solver).
    specialize (IH Hd'). unfold insert_match.
    destruct (decide (k = i)) as [-> | Hn].
    + rewrite lookup_insert_eq, Hi in *.
      destruct (split_prefix i prefix); [by rewrite lookup_insert_eq|done].
    + rewrite lookup_insert_ne by done. rewrite <- IH.
      destruct (split_prefix i prefix); [|done]. apply lookup_insert_ne. intros He.
      apply Hn. destruct (Hd i) as [Hi1 Hi2]; [set_solver|]. destruct Hk as [Hk1 Hk2].
      apply (f_equal key_parse) in He. rewrite !key_parse_to_string in He by done.
      by injection He.
Qed.

(** *** Replay protection *)
Lemma fold_replay_lookup (m : gmap Hash ReProtStorageModification) last all h :
  (h ∈ (map_fold apply_replay (last, all) m).1 <->
   match m !! h with Some RWrite => True | Some _ => False | None => h ∈ last end) /\
  (h ∈ (map_fold apply_replay (last, all) m).2 <->
   match m !! h with Some RFinalize => True | _ => h ∈ all end).
Proof.
  apply (map_fold_weak_ind (fun r m =>
    (h ∈ r.1 <-> match m !! h with Some RWrite => True | Some _ => False | None => h ∈ last end) /\
    (h ∈ r.2 <-> match m !! h with Some RFinalize => True | _ => h ∈ all end))).
  - rewrite lookup_empty. done.
  - intros i x m' [l a] Hi [IH1 IH2]. cbn [fst snd] in *.
    destruct (decide (h = i)) as [-> | Hn].
    + rewrite lookup_insert_eq, Hi in *. destruct x; simpl; set_solver.
    + rewrite lookup_insert_ne by done. rewrite <- IH1, <- IH2. destruct x; simpl; set_solver.
Qed.
End refinement.

(** ** Properties *)

(** A generator for the witnesses. *)
Definition counter_gen : AddressGen := {| gen := Z; generate_address n := (Established n, n + 1) |}.

Definition empty_storage : @Storage counter_gen := @mkStorage counter_gen ∅ ∅ ∅ 0.

(** What a read of the log finds is what the store holds. *)
Lemma read_abs {C : AddressCodec} {G : AddressGen} {E} (w : WriteLog) (s : Storage) k o g : read (E:=E) k w = Ok (o, g) ->
  match a_pending (abs (w, s)) k with Some (Temporary v) => o = Some (Temp v) | _ => value_of o (subspace s !! k) = a_view (abs (w, s)) k end.
Proof.
  unfold read. intros Hr. apply out_bind_Ok in Hr as (? & _ & [= <- _]). unfold a_view, a_pending, over, find. cbn. unfold layer_of.
  destruct (tx_write_log w !! k) as [e|]; [by destruct e|]. cbn. by destruct (tx_precommit_write_log w !! k) as [[]|].
Qed.
Lemma read_pre_abs {C : AddressCodec} {G : AddressGen} {E} (w : WriteLog) (s : Storage) k o g : read_pre (E:=E) k w = Ok (o, g) -> value_of o (subspace s !! k) = a_block (abs (w, s)) k.
Proof. unfold read_pre. intros Hr. by apply out_bind_Ok in Hr as (? & _ & [= <- _]). Qed.

(** C11. The write log with the storage refines a store with savepoints: along
    any sequence of operations, whatever they return, the durable values, the
    values of the block and the two layers of pending changes are those of the
    specification, and reads return what the specification holds. In particular
    a dropped transaction leaves the values of the block, a transaction that
    fails after its savepoint leaves those of the savepoint, a committed one
    becomes the block's, and committing a block makes its values durable. *)
Theorem write_log_refines {C : AddressCodec} {G : AddressGen}
  (x y : WriteLog * Storage) (es : list event) (Hs : steps x es y) :
  let a := foldl (fun a e => spec_step e a) (abs x) es in
  abs_eq (abs y) a /\
  forall k, (forall o g, read (E:=Error) k y.1 = Ok (o, g) ->
      match a_pending a k with Some (Temporary v) => o = Some (Temp v) | _ => value_of o (a_durable a k) = a_view a k end) /\
    (forall o g, read_pre (E:=Error) k y.1 = Ok (o, g) -> value_of o (a_durable a k) = a_block a k).
Proof.
  intros a. assert (abs_eq (abs y) a) as Ha by (by apply steps_refine). split; [done|]. intros k. destruct y as [w s].
  destruct (Ha k) as (Hd & Hb & Hsv & Ht). unfold a_view, a_pending, over in *. rewrite <- Hd, <- Hb, <- Hsv, <- Ht. split.
  - intros o g. exact (read_abs w s k o g).
  - intros o g. exact (read_pre_abs w s k o g).
Qed.

Lemma write_log_refines_witness :
  exists y,
    steps (C:=RefCodec.codec) (G:=counter_gen)
      (default_write_log, empty_storage)
      [EvWrite [StringSeg (lit "a")] [1]; EvPrecommit; EvWrite [StringSeg (lit "a")] [2];
       EvDropTxKeepPrecommit; EvProtocolWrite [StringSeg (lit "b")] [3]; EvCommitTx; EvCommitBlock] y /\
    a_durable (abs y) [StringSeg (lit "a")] = Some [1] /\ a_durable (abs y) [StringSeg (lit "b")] = Some [3].
Proof.
  assert (exists y, steps (C:=RefCodec.codec) (G:=counter_gen)
      (default_write_log, empty_storage)
      [EvWrite [StringSeg (lit "a")] [1]; EvPrecommit; EvWrite [StringSeg (lit "a")] [2];
       EvDropTxKeepPrecommit; EvProtocolWrite [StringSeg (lit "b")] [3]; EvCommitTx; EvCommitBlock] y) as [y Hs].
  { eexists. repeat (eapply steps_cons; [constructor|]). apply steps_nil. }
  exists y. split; [exact Hs|]. destruct (write_log_refines _ _ _ Hs) as [Ha _].
  destruct (Ha [StringSeg (lit "a")]) as [H1 _]. destruct (Ha [StringSeg (lit "b")]) as [H2 _].
  split; [rewrite H1; reflexivity|rewrite H2; reflexivity].
Defined.



(** C27. Replay protection: recording a transaction hash succeeds exactly when
    the block has no request on it yet, and then the hash counts as processed;
    committing the block puts written hashes in the last-block set, moves
    finalized ones to the set of all blocks, removes deleted ones, and leaves
    every other hash as it was. *)
Theorem replay_protection_exact {C : AddressCodec} {G : AddressGen}
  (h : Hash) (w : WriteLog) (s : Storage) :
  ((write_tx_hash h w).2 = Ok tt <-> has_replay_protection_entry h w = None) /\
  has_replay_protection_entry h (write_tx_hash h w).1 = Some true /\
  has_replay_protection_entry h (finalize_tx_hash h w).1 = Some true /\
  has_replay_protection_entry h (delete_tx_hash h w).1 = Some false /\
  (h ∈ replay_last (commit_block w s).2 <->
     match replay_protection w !! h with
     | Some RWrite => True
     | Some _ => False
     | None => h ∈ replay_last s
     end) /\
  (h ∈ replay_all (commit_block w s).2 <->
     match replay_protection w !! h with
     | Some RFinalize => True
     | _ => h ∈ replay_all s
     end) /\
  replay_protection (commit_block w s).1 = ∅.
Proof.
  destruct (fold_replay_lookup (replay_protection w) (replay_last s) (replay_all s) h) as [H1 H2].
  unfold write_tx_hash, finalize_tx_hash, delete_tx_hash, has_replay_protection_entry,
    replay_insert, st_bind, commit_block.
  destruct (map_fold apply_replay _ _) as [l a]. cbn [fst snd] in *. split_and!; try done.
  - destruct (replay_protection w !! h); simpl; done.
  - destruct (replay_protection w !! h); simpl; by rewrite lookup_insert_eq.
  - destruct (replay_protection w !! h); simpl; by rewrite lookup_insert_eq.
  - destruct (replay_protection w !! h) as [[]|]; simpl; by rewrite lookup_insert_eq.
Qed.

(** A failed write is not undone: writing over a temporary value returns
    an error, yet the temporary value is gone, and if the transaction were
    committed the new value would be persisted. *)
Theorem failed_write_overwrites_temp {C : AddressCodec} {G : AddressGen}
  (k : Key) (v t : bytes) (w : WriteLog) (Ht : tx_write_log w !! k = Some (Temp t)) :
  exists w', write k v w = (w', Err UpdateTemporaryValue) /\
    tx_write_log w' !! k = Some (Write v) /\
    block_write_log (commit_tx w') !! k = Some (Write v).
Proof.
  unfold write, st_bind, tx_insert. rewrite Ht. simpl. eexists. split; [done|].
  cbn [tx_write_log set_tx]. split; [apply lookup_insert_eq|].
  simpl. unfold extend. rewrite lookup_union_l'; [|]; rewrite map_lookup_filter,
    lookup_union_l' by (rewrite lookup_insert_eq; eauto); rewrite lookup_insert_eq; simpl;
    by rewrite ?option_guard_True by done.
Qed.

Lemma failed_write_overwrites_temp_witness :
  let k := [StringSeg (lit "a")] in
  let w := (write_temp (C:=RefCodec.codec) (G:=counter_gen) k [7] default_write_log).1 in
  exists w', write (C:=RefCodec.codec) k [8] w = (w', Err UpdateTemporaryValue) /\
    tx_write_log w' !! k = Some (Write [8]) /\
    block_write_log (commit_tx w') !! k = Some (Write [8]).
Proof.
  intros k w. apply (failed_write_overwrites_temp (C:=RefCodec.codec) (G:=counter_gen) k [8] [7] w).
  reflexivity.
Defined.

(** Iteration by prefix returns, for a key under the prefix, the entry of
    the transaction or else of the block; this is the entry [read] returns
    unless the key has an entry in the precommit log, which the iteration does
    not look at. *)
Theorem iter_prefix_post_spec {C : AddressCodec} {HC : AddressCodecLaws C} {G : AddressGen}
  (w : WriteLog) (prefix k : Key)
  (Hw : forall k', k' ∈ dom (tx_write_log w) ∪ dom (block_write_log w) -> key_ok k')
  (Hk : key_ok k) (Hp : split_prefix k prefix <> None) :
  iter_prefix_post prefix w !! key_to_string k =
    match tx_write_log w !! k with Some v => Some v | None => block_write_log w !! k end /\
  (tx_precommit_write_log w !! k = None ->
   iter_prefix_post prefix w !! key_to_string k = find w k) /\
  (tx_write_log w !! k = None -> block_write_log w !! k = None ->
   iter_prefix_post prefix w !! key_to_string k = None /\
   find w k = tx_precommit_write_log w !! k).
Proof.
  assert (iter_prefix_post prefix w !! key_to_string k =
    match tx_write_log w !! k with Some v => Some v | None => block_write_log w !! k end) as He.
  { unfold iter_prefix_post, iter_prefix_pre.
    rewrite !fold_match_lookup by (done || set_solver).
    rewrite lookup_empty. destruct (split_prefix k prefix); [|done].
    by destruct (tx_write_log w !! k), (block_write_log w !! k). }
  rewrite He. unfold find. split; [done|]. split.
  - intros ->. done.
  - intros -> ->. by destruct (tx_precommit_write_log w !! k).
Qed.

Lemma iter_prefix_post_spec_witness :
  let k := [StringSeg (lit "a")] in
  let w := precommit_tx (write (C:=RefCodec.codec) (G:=counter_gen) k [7] default_write_log).1 in
  iter_prefix_post (C:=RefCodec.codec) k w !! key_to_string (C:=RefCodec.codec) k = None /\
  find w k = Some (Write [7]).
Proof.
  intros k w.
  destruct (iter_prefix_post_spec (HC:=RefCodec.codec_laws) (G:=counter_gen) w k k)
    as (_ & _ & H).
  - intros k' Hk'. exfalso. revert Hk'. unfold w, precommit_tx. simpl.
    rewrite !dom_empty_L. set_solver.
  - split; [|discriminate]. repeat constructor; [set_solver|discriminate].
  - discriminate.
  - apply H; reflexivity.
Defined.
