(* ===== verification/GovTypes.v ===== *)
(** * Data of governance and of public goods funding

    The types of [core/src/ledger/governance/storage/proposal.rs],
    [core/src/ledger/governance/storage/vote.rs],
    [core/src/ledger/governance/utils.rs] and [core/src/ledger/pgf/storage/steward.rs]
    that are kept in the storage. A [HashSet] is a list in the order in which it
    happens to be iterated. *)

From Stdlib Require Import ZArith Lia.
From stdpp Require Import base numbers list gmap countable.
From S2P Require Import Prelude Keys.

Local Open Scope Z_scope.

(** ** Proposals *)
Inductive AddRemove (T : Type) : Type :=
| Add (t : T)
| Remove (t : T).
Arguments Add {T}.
Arguments Remove {T}.
Record PGFTarget : Type := mkTarget { target : Address; target_amount : Z }.
Inductive PGFAction : Type :=
| Continuous (a : AddRemove PGFTarget)
| Retro (t : PGFTarget).
(** [Hash] is the hash of the code *)
Inductive ProposalType : Type :=
| DefaultProposal (code : option Z)
| PGFSteward (stewards : list (AddRemove Address))
| PGFPayment (payments : list PGFAction).
Record StoragePgfFunding : Type := mkFunding { detail : PGFTarget; funding_id : Z }.
Definition is_default (p : ProposalType) : bool := match p with DefaultProposal _ => true | _ => false end.

(** ** Votes *)
Inductive VoteType : Type := VoteDefault | VotePGFSteward | VotePGFPayment.
Inductive StorageProposalVote : Type :=
| Yay (t : VoteType)
| Nay
| Abstain.
Definition is_yay (v : StorageProposalVote) : bool := match v with Yay _ => true | _ => false end.
Definition is_nay (v : StorageProposalVote) : bool := match v with Nay => true | _ => false end.
Definition is_abstain (v : StorageProposalVote) : bool := match v with Abstain => true | _ => false end.
(** The discriminants are equal. *)
Definition is_same_side (v w : StorageProposalVote) : bool :=
  match v, w with
  | Yay _, Yay _ | Nay, Nay | Abstain, Abstain => true
  | _, _ => false
  end.
Definition proposal_type_eq (p : ProposalType) (t : VoteType) : bool :=
  match p, t with
  | DefaultProposal _, VoteDefault | PGFSteward _, VotePGFSteward | PGFPayment _, VotePGFPayment => true
  | _, _ => false
  end.
Definition is_compatible (v : StorageProposalVote) (p : ProposalType) : bool :=
  match v with
  | Yay t => proposal_type_eq p t
  | Nay => true
  | Abstain => true
  end.

(** [StorageProposalVote::build] of what a client asks for *)
Inductive ProposalVote : Type := AskYay | AskNay | AskAbstain.
Definition vote_build (proposal_vote : ProposalVote) (proposal_type : ProposalType) : option StorageProposalVote :=
  match proposal_vote, proposal_type with
  | AskYay, DefaultProposal _ => Some (Yay VoteDefault)
  | AskYay, PGFSteward _ => Some (Yay VotePGFSteward)
  | AskYay, PGFPayment _ => Some (Yay VotePGFPayment)
  | AskNay, _ => Some Nay
  | AskAbstain, _ => None
  end.
Lemma built_votes_compatible v p w : vote_build v p = Some w -> is_compatible w p = true.
Proof. by destruct v, p; intros [= <-]. Qed.

(** ** Results *)
Inductive TallyResult : Type := Passed | Rejected.
Record ProposalResult : Type := mkResult {
  tally_result : TallyResult;
  total_voting_power : Z;
  total_yay_power : Z;
  total_nay_power : Z;
  total_abstain_power : Z
}.

(** ** Stewards *)
Record StewardDetail : Type := mkSteward { steward_address : Address; reward_distribution : gmap Address Z }.

(** What governance and public goods funding store *)
Inductive gov_value : Type :=
| GType (p : ProposalType)
| GVote (v : StorageProposalVote)
| GResult (r : ProposalResult)
| GSteward (s : StewardDetail)
| GFunding (f : StoragePgfFunding).

#[export] Instance AddRemove_eq_dec {T} `{EqDecision T} : EqDecision (AddRemove T).
Proof. solve_decision. Defined.
#[export] Instance PGFTarget_eq_dec : EqDecision PGFTarget.
Proof. solve_decision. Defined.
#[export] Instance PGFAction_eq_dec : EqDecision PGFAction.
Proof. solve_decision. Defined.
#[export] Instance ProposalType_eq_dec : EqDecision ProposalType.
Proof. solve_decision. Defined.
#[export] Instance StoragePgfFunding_eq_dec : EqDecision StoragePgfFunding.
Proof. solve_decision. Defined.
#[export] Instance VoteType_eq_dec : EqDecision VoteType.
Proof. solve_decision. Defined.
#[export] Instance StorageProposalVote_eq_dec : EqDecision StorageProposalVote.
Proof. solve_decision. Defined.
#[export] Instance TallyResult_eq_dec : EqDecision TallyResult.
Proof. solve_decision. Defined.
#[export] Instance ProposalResult_eq_dec : EqDecision ProposalResult.
Proof. solve_decision. Defined.
#[export] Instance StewardDetail_eq_dec : EqDecision StewardDetail.
Proof. solve_decision. Defined.
#[export] Instance gov_value_eq_dec : EqDecision gov_value.
Proof. solve_decision. Defined.
