(* ===== verification/Token.v ===== *)
(** * Token accounts

    The protocol operations on balances of [core/src/ledger/storage_api/token.rs]
    and the validity predicate of the multitoken account,
    [shared/src/ledger/native_vp/multitoken.rs]. The storage is a map from keys
    to typed values; reading a value of another type is a decoding error. *)

From S2P Require Import Prelude Uint Int256 Dec Keys GovTypes.
From stdpp Require Import base numbers list strings countable gmap fin_maps option.
From Stdlib Require Import ZArith Lia Ascii String.
Local Open Scope Z_scope.

Inductive value : Type :=
| VAmount (a : Z)
| VAddress (a : Address)
| VDenom (d : Z)
| VU64 (n : Z)
| VDec (d : Z)
| VBytes (b : list Z)
| VUnit
| VGov (g : gov_value)
| VOther.

#[export] Instance value_eq_dec : EqDecision value.
Proof. solve_decision. Defined.

Inductive token_error : Type :=
| DecodeError
| InsufficientSource
| DestOverflow
| BalanceOverflow
| SupplyOverflow.

Notation store := (gmap Key value).

(** [storage.read::<Amount>(key)] *)
Definition decode_amount (v : option value) : outcome token_error (option Z) :=
  match v with
  | Some (VAmount a) => Ok (Some a)
  | Some _ => Err DecodeError
  | None => Ok None
  end.
Definition decode_address (v : option value) : outcome token_error (option Address) :=
  match v with
  | Some (VAddress a) => Ok (Some a)
  | Some _ => Err DecodeError
  | None => Ok None
  end.

Definition store_read (k : Key) : st store token_error (option Z) :=
  fun s => (s, decode_amount (s !! k)).
Definition store_write (k : Key) (a : Z) : st store token_error unit :=
  st_mod (fun s => <[k := VAmount a]> s).

(** ** Operations of the protocol *)
Section operations.
Context {U : UintOps} {C : AddressCodec}.
Local Open Scope st_scope.

Definition read_balance (token owner : Address) : st store token_error Z :=
  let! key := st_lift (balance_key token owner) in
  let! balance := store_read key in
  st_ret (default 0 balance).

Definition read_total_supply (token : Address) : st store token_error Z :=
  let! key := st_lift (minted_balance_key token) in
  let! balance := store_read key in
  st_ret (default 0 balance).

Definition transfer (token src dest : Address) (amount : Z) : st store token_error unit :=
  if amount_is_zero amount then st_ret tt
  else
    let! src_key := st_lift (balance_key token src) in
    let! src_balance := read_balance token src in
    match amount_checked_sub src_balance amount with
    | Some new_src_balance =>
        let! dest_key := st_lift (balance_key token dest) in
        let! dest_balance := read_balance token dest in
        match amount_checked_add dest_balance amount with
        | Some new_dest_balance =>
            do! store_write src_key new_src_balance in
            store_write dest_key new_dest_balance
        | None => st_err DestOverflow
        end
    | None => st_err InsufficientSource
    end.

Definition credit_tokens (token dest : Address) (amount : Z) : st store token_error unit :=
  let! key := st_lift (balance_key token dest) in
  let! cur_balance := read_balance token dest in
  let! new_balance := st_lift (ok_or (amount_checked_add cur_balance amount) BalanceOverflow) in
  let! total_supply_key := st_lift (minted_balance_key token) in
  let! cur_supply := store_read total_supply_key in
  let cur_supply := default 0 cur_supply in
  let! new_supply := st_lift (ok_or (amount_checked_add cur_supply amount) SupplyOverflow) in
  do! store_write key new_balance in
  store_write total_supply_key new_supply.

Definition burn (token source : Address) (amount : Z) : st store token_error unit :=
  let! key := st_lift (balance_key token source) in
  let! balance := read_balance token source in
  let! amount_to_burn :=
    match amount_checked_sub balance amount with
    | Some new_balance => do! store_write key new_balance in st_ret amount
    | None => do! store_write key 0 in st_ret balance
    end in
  let! total_supply := read_total_supply source in
  let new_total_supply := default 0 (amount_checked_sub total_supply amount_to_burn) in
  let! total_supply_key := st_lift (minted_balance_key token) in
  store_write total_supply_key new_total_supply.
End operations.

(** ** The multitoken validity predicate *)
Section multitoken_vp.
Context {U : UintOps} {C : AddressCodec}.
Local Open Scope outcome_scope.

(** The states before and after the transaction *)
Variables pre post : store.

Definition is_valid_minter (token : Address) (verifiers : gset Address)
  : outcome token_error bool :=
  match token with
  | Internal (IbcToken _) =>
      let* key := minter_key token in
      let* minter := decode_address (post !! key) in
      match minter with
      | Some m => if bool_decide (m = Internal Ibc)
                  then Ok (bool_decide (m ∈ verifiers)) else Ok false
      | None => Ok false
      end
  | _ => Ok false
  end.

(** The change of the amount under a key *)
Definition key_diff (key : Key) : outcome token_error Z :=
  let* p := decode_amount (pre !! key) in
  let* q := decode_amount (post !! key) in
  let* qc := change (default 0 q) in
  let* pc := change (default 0 p) in
  i256_sub qc pc.

(** [match m.get_mut(token) { Some(c) => *c += diff, None => m.insert(token, diff) }] *)
Definition accumulate (m : gmap Address Z) (token : Address) (diff : Z)
  : outcome token_error (gmap Address Z) :=
  match m !! token with
  | Some c => let* s := i256_add c diff in Ok (<[token := s]> m)
  | None => Ok (<[token := diff]> m)
  end.

(** The loop over the changed keys; [None] is an early [return Ok(false)] *)
Fixpoint vp_loop (verifiers : gset Address) (keys : list Key) (changes mints : gmap Address Z)
  : outcome token_error (option (gmap Address Z * gmap Address Z)) :=
  match keys with
  | [] => Ok (Some (changes, mints))
  | key :: keys' =>
      match is_any_token_balance_key key with
      | Some (token, _) =>
          let* diff := key_diff key in
          let* changes := accumulate changes token diff in
          vp_loop verifiers keys' changes mints
      | None =>
          match is_any_minted_balance_key key with
          | Some token =>
              let* diff := key_diff key in
              let* mints := accumulate mints token diff in
              let* ok := is_valid_minter token verifiers in
              if ok then vp_loop verifiers keys' changes mints else Ok None
          | None =>
              match is_any_minter_key key with
              | Some token =>
                  let* ok := is_valid_minter token verifiers in
                  if ok then vp_loop verifiers keys' changes mints else Ok None
              | None =>
                  if bool_decide (head key = Some (AddressSeg (Internal Multitoken)))
                  then Ok None
                  else vp_loop verifiers keys' changes mints
              end
          end
      end
  end.

Definition validate_tx (keys_changed : list Key) (verifiers : gset Address)
  : outcome token_error bool :=
  let* r := vp_loop verifiers keys_changed ∅ ∅ in
  match r with
  | None => Ok false
  | Some (changes, mints) =>
      Ok (forallb (fun e : Address * Z => e.2 =? default 0 (mints !! e.1)) (map_to_list changes))
  end.
End multitoken_vp.

(** ** Balances and supply *)
Definition bkey (t o : Address) : Key :=
  [AddressSeg (Internal Multitoken); AddressSeg t; StringSeg BALANCE_STORAGE_KEY; AddressSeg o].
Definition mkey (t : Address) : Key :=
  [AddressSeg (Internal Multitoken); AddressSeg t; StringSeg BALANCE_STORAGE_KEY;
   StringSeg MINTED_STORAGE_KEY].

Definition rkey (t : Address) : Key :=
  [AddressSeg (Internal Multitoken); AddressSeg t; StringSeg MINTER_STORAGE_KEY].

Definition amount_of (v : value) : Z := match v with VAmount a => a | _ => 0 end.
Definition bal (s : store) (t o : Address) : Z := from_option amount_of 0 (s !! bkey t o).
Definition minted (s : store) (t : Address) : Z := from_option amount_of 0 (s !! mkey t).

(** The sum of all balances of a token *)
Definition bal_entry (t : Address) (k : Key) (v : value) : Z :=
  match is_balance_key t k with Some _ => amount_of v | None => 0 end.
Definition total (s : store) (t : Address) : Z := msum (bal_entry t) s.

(** Balances and supplies are amounts. *)
Definition amount_key (k : Key) : Prop :=
  is_any_token_balance_key k <> None \/ is_any_minted_balance_key k <> None.
Definition store_wf (s : store) : Prop :=
  forall k v, s !! k = Some v -> amount_key k -> exists a, v = VAmount a /\ in_u256 a.

(** The recorded supply of a token is the sum of its balances. *)
Definition supply_inv (s : store) (t : Address) : Prop := total s t = minted s t.

Lemma is_any_bkey t o : is_any_token_balance_key (bkey t o) = Some (t, o).
Proof. by apply is_any_token_balance_key_Some. Qed.
Lemma amount_key_bkey t o : amount_key (bkey t o).
Proof. left. by rewrite is_any_bkey. Qed.
Lemma amount_key_mkey t : amount_key (mkey t).
Proof. right. by rewrite (proj2 (is_any_minted_balance_key_Some (mkey t) t)). Qed.

Lemma is_balance_key_bkey t o : is_balance_key t (bkey t o) = Some o.
Proof. unfold is_balance_key, bkey. by rewrite !bool_decide_true. Qed.
Lemma is_balance_key_other t t' o : t <> t' -> is_balance_key t (bkey t' o) = None.
Proof. intros. unfold is_balance_key, bkey. by rewrite (bool_decide_false (t' = t)), andb_false_r by done. Qed.
Lemma is_balance_key_mkey t t' : is_balance_key t (mkey t') = None.
Proof. done. Qed.

Lemma bal_entry_bkey t o v : bal_entry t (bkey t o) v = amount_of v.
Proof. unfold bal_entry. by rewrite is_balance_key_bkey. Qed.
Lemma bal_entry_none t k v : is_balance_key t k = None -> bal_entry t k v = 0.
Proof. intros Hk. unfold bal_entry. by rewrite Hk. Qed.

Lemma mterm_total s t o : mterm (bal_entry t) s (bkey t o) = bal s t o.
Proof.
  unfold mterm, bal. destruct (s !! bkey t o) as [v|]; [|done]. apply bal_entry_bkey.
Qed.

Lemma total_set_bal s t o a : total (<[bkey t o := VAmount a]> s) t = total s t - bal s t o + a.
Proof. unfold total. by rewrite msum_insert, mterm_total, bal_entry_bkey. Qed.

Lemma total_set_other s t k v : is_balance_key t k = None -> total (<[k := v]> s) t = total s t.
Proof.
  intros Hk. unfold total. rewrite msum_insert, bal_entry_none by done. unfold mterm.
  destruct (s !! k); simpl; rewrite ?bal_entry_none by done; lia.
Qed.

Lemma bal_set_eq s t o a : bal (<[bkey t o := VAmount a]> s) t o = a.
Proof. unfold bal. by rewrite lookup_insert_eq. Qed.
Lemma bal_set_ne s t o k v : k <> bkey t o -> bal (<[k := v]> s) t o = bal s t o.
Proof. intros. unfold bal. by rewrite lookup_insert_ne. Qed.
Lemma minted_set_ne s t k v : k <> mkey t -> minted (<[k := v]> s) t = minted s t.
Proof. intros. unfold minted. by rewrite lookup_insert_ne. Qed.
Lemma minted_set_eq s t a : minted (<[mkey t := VAmount a]> s) t = a.
Proof. unfold minted. by rewrite lookup_insert_eq. Qed.

Lemma store_wf_set s k a : store_wf s -> in_u256 a -> store_wf (<[k := VAmount a]> s).
Proof.
  intros Hs Ha k' v Hk' Hak. apply lookup_insert_Some in Hk' as [[<- <-]|[_ Hk']]; eauto.
Qed.

Lemma bal_range s t o : store_wf s -> in_u256 (bal s t o).
Proof.
  intros Hs. unfold bal. destruct (s !! bkey t o) as [v|] eqn:Hv; simpl.
  - destruct (Hs _ _ Hv (amount_key_bkey t o)) as (a & -> & Ha). done.
  - by vm_compute.
Qed.
Lemma minted_range s t : store_wf s -> in_u256 (minted s t).
Proof.
  intros Hs. unfold minted. destruct (s !! mkey t) as [v|] eqn:Hv; simpl.
  - destruct (Hs _ _ Hv (amount_key_mkey t)) as (a & -> & Ha). done.
  - by vm_compute.
Qed.
#[export] Hint Resolve bal_range minted_range store_wf_set : namada.

Section operations_lemmas.
Context {U : UintOps} {HU : UintLaws U} {C : AddressCodec} {HC : AddressCodecLaws C}.

Lemma balance_key_bkey {E} t o : balance_key (E:=E) t o = Ok (bkey t o).
Proof. apply balance_key_ok. Qed.
Lemma minted_key_mkey {E} t : minted_balance_key (E:=E) t = Ok (mkey t).
Proof. apply minted_balance_key_ok. Qed.

Lemma store_read_amount s k : store_wf s -> amount_key k ->
  exists o, store_read k s = (s, Ok o) /\ default 0 o = from_option amount_of 0 (s !! k).
Proof.
  intros Hs Hk. unfold store_read, decode_amount. destruct (s !! k) as [v|] eqn:Hv; eauto.
  destruct (Hs _ _ Hv Hk) as (a & -> & _). eauto.
Qed.

Lemma read_balance_ok s t o : store_wf s -> read_balance t o s = (s, Ok (bal s t o)).
Proof.
  intros Hs. unfold read_balance, st_bind, st_lift, st_ret. rewrite balance_key_bkey.
  destruct (store_read_amount s (bkey t o) Hs (amount_key_bkey t o)) as (x & -> & Hx).
  by rewrite Hx.
Qed.

Lemma read_total_supply_ok s t : store_wf s -> read_total_supply t s = (s, Ok (minted s t)).
Proof.
  intros Hs. unfold read_total_supply, st_bind, st_lift, st_ret. rewrite minted_key_mkey.
  destruct (store_read_amount s (mkey t) Hs (amount_key_mkey t)) as (x & -> & Hx).
  by rewrite Hx.
Qed.

Lemma amount_checked_add_eq a b : in_u256 a -> in_u256 b ->
  amount_checked_add a b = if a + b <=? MAX_VALUE then Some (a + b) else None.
Proof.
  intros Ha Hb. unfold amount_checked_add. rewrite uint_checked_add_law by done.
  destruct (a + b <=? MAX_VALUE) eqn:He; [|done]. simpl. by rewrite He.
Qed.

Lemma amount_checked_sub_eq a b : in_u256 a -> in_u256 b ->
  amount_checked_sub a b = if b <=? a then Some (a - b) else None.
Proof. apply uint_checked_sub_law. Qed.

(** What a transfer does, with its three outcomes. *)
Lemma transfer_eq s t src dest amt : store_wf s -> in_u256 amt -> amt <> 0 ->
  transfer t src dest amt s =
  if negb (amt <=? bal s t src) then (s, Err InsufficientSource)
  else if negb (bal s t dest + amt <=? MAX_VALUE) then (s, Err DestOverflow)
  else (<[bkey t dest := VAmount (bal s t dest + amt)]>
          (<[bkey t src := VAmount (bal s t src - amt)]> s), Ok tt).
Proof.
  intros Hs Ha Hn. unfold transfer, amount_is_zero.
  rewrite (proj2 (Z.eqb_neq amt 0) Hn). unfold st_bind, st_lift, st_err.
  rewrite !balance_key_bkey, read_balance_ok, amount_checked_sub_eq by auto with namada.
  destruct (amt <=? bal s t src); [|done]. cbn [negb].
  rewrite read_balance_ok, amount_checked_add_eq by auto with namada.
  destruct (bal s t dest + amt <=? MAX_VALUE); done.
Qed.

Lemma credit_tokens_eq s t dest amt : store_wf s -> in_u256 amt ->
  credit_tokens t dest amt s =
  if negb (bal s t dest + amt <=? MAX_VALUE) then (s, Err BalanceOverflow)
  else if negb (minted s t + amt <=? MAX_VALUE) then (s, Err SupplyOverflow)
  else (<[mkey t := VAmount (minted s t + amt)]>
          (<[bkey t dest := VAmount (bal s t dest + amt)]> s), Ok tt).
Proof.
  intros Hs Ha. unfold credit_tokens, st_bind, st_lift.
  rewrite balance_key_bkey, read_balance_ok, amount_checked_add_eq by auto with namada.
  destruct (bal s t dest + amt <=? MAX_VALUE); [|done]. cbn [negb ok_or].
  rewrite minted_key_mkey.
  destruct (store_read_amount s (mkey t) Hs (amount_key_mkey t)) as (x & Hx & Hd).
  rewrite Hx. cbv beta zeta. rewrite Hd. fold (minted s t).
  rewrite amount_checked_add_eq by auto with namada.
  by destruct (minted s t + amt <=? MAX_VALUE).
Qed.

Lemma burn_eq s t src amt : store_wf s -> in_u256 amt ->
  let burned := Z.min amt (bal s t src) in
  burn t src amt s =
  (<[mkey t := VAmount (Z.max 0 (minted s src - burned))]>
     (<[bkey t src := VAmount (bal s t src - burned)]> s), Ok tt).
Proof.
  intros Hs Ha burned. unfold burn, st_bind, st_lift.
  pose proof (bal_range s t src Hs) as Hb. pose proof (minted_range s src Hs) as Hm.
  rewrite balance_key_bkey, read_balance_ok, amount_checked_sub_eq by auto with namada.
  assert (in_u256 burned /\ in_u256 (bal s t src - burned)) as [Hbu Hnb].
  { unfold burned, in_u256 in *. lia. }
  assert (forall a b, in_u256 a -> in_u256 b ->
    default 0 (amount_checked_sub a b) = Z.max 0 (a - b)) as Hsat.
  { intros a b ? ?. rewrite amount_checked_sub_eq by done. destruct (Z.leb_spec b a); simpl; lia. }
  unfold store_write, st_mod, st_ret.
  destruct (Z.leb_spec amt (bal s t src)).
  - replace burned with amt in * by (unfold burned; lia).
    rewrite read_total_supply_ok, minted_set_ne by (done || by apply store_wf_set).
    by rewrite minted_key_mkey, Hsat.
  - replace burned with (bal s t src) in * by (unfold burned; lia). rewrite Z.sub_diag in *.
    rewrite read_total_supply_ok, minted_set_ne by (done || by apply store_wf_set).
    by rewrite minted_key_mkey, Hsat.
Qed.
End operations_lemmas.

(** ** What the predicate accepts *)
Section vp_lemmas.
Context {U : UintOps} {HU : UintLaws U} {C : AddressCodec} {HC : AddressCodecLaws C}.
Variables pre post : store.
Local Open Scope outcome_scope.

(** The amount under a key and its change *)
Definition amt (s : store) (k : Key) : Z := from_option amount_of 0 (s !! k).
Definition diff (k : Key) : Z := amt post k - amt pre k.

(** The sum of a quantity over the balance keys of a token *)
Definition over (t : Address) (g : Key -> Z) (keys : list Key) : Z :=
  sumZ ((fun k => match is_balance_key t k with Some _ => g k | None => 0 end) <$> keys).

(** An accumulator that holds [z t] for each token [t] *)
Definition holds (m : gmap Address Z) (z : Address -> Z) : Prop :=
  forall t, m !! t = Some (srep (z t)) \/ (m !! t = None /\ z t = 0).

Lemma key_diff_inv k d : store_wf pre -> store_wf post -> amount_key k ->
  key_diff pre post k = Ok d ->
  d = srep (diff k) /\ 0 <= amt pre k <= MAX_SIGNED_VALUE /\ 0 <= amt post k <= MAX_SIGNED_VALUE.
Proof.
  intros Hpre Hpost Hk Hd. unfold key_diff in Hd.
  apply out_bind_Ok in Hd as (p & Hp & Hd). apply out_bind_Ok in Hd as (q & Hq & Hd).
  apply out_bind_Ok in Hd as (qc & Hqc & Hd). apply out_bind_Ok in Hd as (pc & Hpc & Hd).
  assert (forall s v, store_wf s -> decode_amount (s !! k) = Ok v ->
    default 0 v = amt s k /\ in_u256 (amt s k)) as Hdec.
  { intros s v Hs Hv. unfold amt. destruct (s !! k) as [x|] eqn:Hx; simpl in *.
    - destruct (Hs _ _ Hx Hk) as (a & -> & Ha). by simplify_eq/=.
    - by simplify_eq/=. }
  destruct (Hdec pre p Hpre Hp) as [Ep Rp]. destruct (Hdec post q Hpost Hq) as [Eq Rq].
  rewrite Ep in Hpc. rewrite Eq in Hqc. unfold in_u256 in *.
  assert (forall x c, change x = Ok (E:=token_error) c -> 0 <= x -> c = srep x /\ in_i256 x /\ x <= MAX_SIGNED_VALUE)
    as Hch.
  { intros x c Hx Hx0. unfold change, try_from_uint in Hx. apply unwrap_Ok in Hx.
    destruct (Z.leb_spec x MAX_SIGNED_VALUE); simplify_eq.
    assert (in_i256 c) by (unfold in_i256; lia). split; [by rewrite srep_pos|done]. }
  destruct (Hch _ _ Hpc) as (-> & Ip & Lp); [lia|]. destruct (Hch _ _ Hqc) as (-> & Iq & Lq); [lia|].
  rewrite i256_sub_ok in Hd; rewrite ?sval_srep by done; auto using srep_wf.
  - rewrite !sval_srep in Hd by done. simplify_eq. unfold diff. lia.
  - unfold in_i256. lia.
Qed.

Lemma accumulate_holds m z t d m' : holds m z -> in_i256 (z t) -> in_i256 d ->
  in_i256 (z t + d) -> accumulate m t (srep d) = Ok m' ->
  holds m' (fun t' => if decide (t' = t) then z t + d else z t').
Proof.
  intros Hm Hz Hd Hs Ha t'. unfold accumulate in Ha.
  destruct (Hm t) as [He|[He Hz0]]; rewrite He in Ha.
  - rewrite i256_add_ok in Ha; rewrite ?sval_srep by done; auto using srep_wf.
    rewrite !sval_srep in Ha by done. simplify_eq/=.
    destruct (decide (t' = t)) as [-> |]; [left; by rewrite lookup_insert_eq|].
    rewrite lookup_insert_ne by done. apply Hm.
  - simplify_eq/=. destruct (decide (t' = t)) as [-> |].
    + left. rewrite lookup_insert_eq, Hz0. done.
    + rewrite lookup_insert_ne by done. apply Hm.
Qed.

Lemma over_cons t g k keys : over t g (k :: keys) =
  match is_balance_key t k with Some _ => g k | None => 0 end + over t g keys.
Proof. done. Qed.

Lemma amt_nonneg s k t o : store_wf s -> is_balance_key t k = Some o -> 0 <= amt s k.
Proof.
  intros Hs Hk. unfold amt. destruct (s !! k) as [v|] eqn:Hv; [|done]. simpl.
  destruct (Hs _ _ Hv) as (a & -> & Ha); [|apply Ha].
  apply is_balance_key_Some in Hk as ->. apply amount_key_bkey.
Qed.

(** The changes are bounded by the amounts. *)
Lemma over_abs t keys : store_wf pre -> store_wf post ->
  Z.abs (over t diff keys) <= over t (fun k => amt pre k + amt post k) keys.
Proof.
  intros Hpre Hpost. induction keys as [|k keys IH]; [done|]. rewrite !over_cons.
  destruct (is_balance_key t k) as [o|] eqn:Hk; [|lia].
  pose proof (amt_nonneg pre k t o Hpre Hk). pose proof (amt_nonneg post k t o Hpost Hk).
  unfold diff in *. lia.
Qed.

Lemma accumulate_ne m t d m' t' : accumulate m t d = Ok m' -> t <> t' -> m' !! t' = m !! t'.
Proof.
  unfold accumulate. destruct (m !! t).
  - intros (? & _ & [= <-])%out_bind_Ok Hne. by rewrite lookup_insert_ne.
  - intros [= <-] Hne. by rewrite lookup_insert_ne.
Qed.

Lemma holds_ext m z z' : (forall t, z t = z' t) -> holds m z -> holds m z'.
Proof. intros Hz Hm t. rewrite <- Hz. apply Hm. Qed.

(** Keys that are not balances do not count. *)
Lemma over_skip g k keys t : is_any_token_balance_key k = None ->
  over t g (k :: keys) = over t g keys.
Proof.
  intros Hk. rewrite over_cons. destruct (is_balance_key t k) as [o|] eqn:Hb; [|done].
  apply is_balance_key_Some, is_any_token_balance_key_Some in Hb. congruence.
Qed.

(** The only tokens a transaction can mint: the minter of an IBC token is the IBC
    account, whose predicate is run. *)
Definition mintable (vs : gset Address) (t : Address) : Prop :=
  (exists h, t = Internal (IbcToken h)) /\ post !! rkey t = Some (VAddress (Internal Ibc)) /\ Internal Ibc ∈ vs.
Lemma is_valid_minter_inv vs t : is_valid_minter post t vs = Ok true -> mintable vs t.
Proof using HC.
  unfold is_valid_minter. destruct t as [| |[]]; try done. rewrite minter_key_ok. cbn [out_bind]. fold (rkey (Internal (IbcToken hash))).
  destruct (post !! rkey (Internal (IbcToken hash))) as [[]|] eqn:Hr; cbn; try done. case_bool_decide; [|done].
  intros [= Hin%bool_decide_eq_true]. subst. split; [by eexists|]. split; [exact Hr|done].
Qed.

(** The keys of the predicate a transaction may change *)
Definition key_allowed (vs : gset Address) (k : Key) : Prop :=
  (forall t, is_any_minted_balance_key k = Some t \/ is_any_minter_key k = Some t -> mintable vs t) /\
  (is_any_token_balance_key k = None -> is_any_minted_balance_key k = None -> is_any_minter_key k = None ->
   head k <> Some (AddressSeg (Internal Multitoken))).

(** The minted amount a list of keys changes *)
Definition mint_over (t : Address) (keys : list Key) : Z := if decide (mkey t ∈ keys) then diff (mkey t) else 0.
Lemma mint_over_skip t k keys : k <> mkey t -> mint_over t (k :: keys) = mint_over t keys.
Proof. intros Hk. unfold mint_over. do 2 case_decide; set_solver. Qed.
Lemma mint_over_here t keys : mkey t ∉ keys -> mint_over t (mkey t :: keys) = diff (mkey t) /\ mint_over t keys = 0.
Proof. intros Hk. unfold mint_over. do 2 case_decide; set_solver. Qed.

Lemma accumulate_some m t d m' t' : accumulate m t d = Ok m' -> is_Some (m !! t') \/ t' = t -> is_Some (m' !! t').
Proof.
  unfold accumulate. destruct (m !! t); [intros (? & _ & [= <-])%out_bind_Ok|intros [= <-]]; rewrite lookup_insert_is_Some;
    intros [?| ->]; [destruct (decide (t = t')); auto|by left|destruct (decide (t = t')); auto|by left].
Qed.

(** What one run of the loop establishes *)
Record loop_result (vs : gset Address) (keys : list Key) (ch ch' mi' : gmap Address Z) (z y : Address -> Z) : Prop := {
  lr_changes : holds ch' (fun t => z t + over t diff keys);
  lr_mints : holds mi' (fun t => y t + mint_over t keys);
  lr_seen : forall t, is_Some (ch !! t) \/ (exists o, bkey t o ∈ keys) -> is_Some (ch' !! t);
  lr_allowed : Forall (key_allowed vs) keys;
  lr_range : forall t, mkey t ∈ keys -> in_i256 (diff (mkey t)) }.

Lemma loop_result_skip vs k keys ch ch' mi' z y : is_any_token_balance_key k = None -> (forall t, k <> mkey t) ->
  key_allowed vs k -> loop_result vs keys ch ch' mi' z y -> loop_result vs (k :: keys) ch ch' mi' z y.
Proof.
  intros Hb Hm Hk [H1 H2 H3 H4 H5]. split; [| | |by constructor|intros t [He|?]%elem_of_cons; [by destruct (Hm t)|by apply H5]].
  - eapply holds_ext; [|exact H1]. intros t. by rewrite over_skip.
  - eapply holds_ext; [|exact H2]. intros t. by rewrite mint_over_skip.
  - intros t [Hs|[o [He|Hin]%elem_of_cons]]; [by apply H3; left| |by apply H3; right; exists o].
    rewrite <- He, is_any_bkey in Hb. done.
Qed.
Lemma loop_result_balance vs t o keys ch ch1 ch' mi' z y : is_Some (ch1 !! t) -> (forall t', is_Some (ch !! t') -> is_Some (ch1 !! t')) ->
  loop_result vs keys ch1 ch' mi' (fun t' => if decide (t' = t) then z t + diff (bkey t o) else z t') y ->
  loop_result vs (bkey t o :: keys) ch ch' mi' z y.
Proof.
  intros Ht Hch [H1 H2 H3 H4 H5]. split.
  - eapply holds_ext; [|exact H1]. intros t'. rewrite over_cons. cbv beta.
    destruct (decide (t' = t)) as [-> |]; [rewrite is_balance_key_bkey; lia|rewrite is_balance_key_other by done; lia].
  - eapply holds_ext; [|exact H2]. intros t'. by rewrite mint_over_skip.
  - intros t' [Hs|[o' [[= -> ->]|Hin]%elem_of_cons]]; apply H3; [left; by apply Hch|by left|right; by exists o'].
  - constructor; [|done]. split; [intros t' [Hm|Hm]; done|]. by rewrite is_any_bkey.
  - intros t' [He|?]%elem_of_cons; [done|by apply H5].
Qed.
Lemma loop_result_mint vs t keys ch ch' mi' z y : mkey t ∉ keys -> mintable vs t -> in_i256 (diff (mkey t)) ->
  loop_result vs keys ch ch' mi' z (fun t' => if decide (t' = t) then y t + diff (mkey t) else y t') ->
  loop_result vs (mkey t :: keys) ch ch' mi' z y.
Proof.
  intros Hk Ht Hr [H1 H2 H3 H4 H5]. split.
  - eapply holds_ext; [|exact H1]. intros t'. by rewrite over_skip.
  - eapply holds_ext; [|exact H2]. intros t'. cbv beta. destruct (decide (t' = t)) as [-> |Hne].
    + destruct (mint_over_here t keys Hk) as [-> ->]. lia.
    + rewrite mint_over_skip; [done|]. intros He. by injection He as ->.
  - intros t' [Hs|[o [He|Hin]%elem_of_cons]]; apply H3; [by left|done|right; by exists o].
  - constructor; [|done]. split.
    + intros t' [Hm%is_any_minted_balance_key_Some|Hm]; [by injection Hm as <-|done].
    + intros _ Hn. by rewrite (proj2 (is_any_minted_balance_key_Some (mkey t) t)) in Hn.
  - intros t' [He|?]%elem_of_cons; [by injection He as ->|by apply H5].
Qed.

(** The accumulated changes and mints are exact while the amounts involved stay
    in range, and only keys that may be changed are. *)
Lemma vp_loop_inv vs keys ch mi ch' mi' z y :
  store_wf pre -> store_wf post -> NoDup keys ->
  vp_loop pre post vs keys ch mi = Ok (Some (ch', mi')) -> holds ch z -> holds mi y ->
  (forall t, Z.abs (z t) + over t (fun k => amt pre k + amt post k) keys <= MAX_SIGNED_VALUE) ->
  (forall t, mkey t ∈ keys -> y t = 0) -> loop_result vs keys ch ch' mi' z y.
Proof.
  intros Hpre Hpost. revert ch mi z y. induction keys as [|k keys IH]; intros ch mi z y Hnd Hrun Hh Hm Hb Hy.
  { simpl in Hrun. simplify_eq. split; [| |intros t [?|[o Hin%elem_of_nil]]; done|done|by intros t ?%elem_of_nil].
    - eapply holds_ext; [|exact Hh]. intros t. unfold over. rewrite fmap_nil, sumZ_nil. lia.
    - eapply holds_ext; [|exact Hm]. intros t. unfold mint_over. rewrite decide_False by apply not_elem_of_nil. lia. }
  apply list.NoDup_cons in Hnd as [Hk Hnd]. cbn [vp_loop] in Hrun.
  assert (forall t, mkey t ∈ keys -> y t = 0) as Hy' by (intros t ?; apply Hy; by right).
  destruct (is_any_token_balance_key k) as [[tk o]|] eqn:Hbk.
  - apply out_bind_Ok in Hrun as (d & Hd & Hrun). apply out_bind_Ok in Hrun as (ch1 & Ha & Hrun).
    apply is_any_token_balance_key_Some in Hbk as ->. fold (bkey tk o) in *.
    destruct (key_diff_inv _ _ Hpre Hpost (amount_key_bkey tk o) Hd) as (-> & Rp & Rq).
    pose proof (Hb tk) as Hbt. rewrite over_cons, is_balance_key_bkey in Hbt.
    pose proof (over_abs tk keys Hpre Hpost) as Hov.
    assert (Z.abs (diff (bkey tk o)) <= amt pre (bkey tk o) + amt post (bkey tk o)) as Hdf by (unfold diff; lia).
    pose proof (fun t' => accumulate_some _ _ _ _ t' Ha) as Hsome.
    apply (accumulate_holds _ z) in Ha; [|done|unfold in_i256; lia..].
    apply (loop_result_balance vs tk o keys ch ch1); [by apply Hsome; right|by intros t' ?; apply Hsome; left|].
    apply (IH ch1 mi); try done. intros t'. specialize (Hb t'). rewrite over_cons in Hb.
    destruct (decide (t' = tk)) as [-> |Hne]; [lia|]. by rewrite is_balance_key_other in Hb.
  - assert (forall t', Z.abs (z t') + over t' (fun k => amt pre k + amt post k) keys <= MAX_SIGNED_VALUE) as Hb'
      by (intros t'; specialize (Hb t'); by rewrite over_skip in Hb).
    destruct (is_any_minted_balance_key k) as [tk|] eqn:Hmk.
    + apply is_any_minted_balance_key_Some in Hmk as ->. fold (mkey tk) in *.
      apply out_bind_Ok in Hrun as (d & Hd & Hrun). apply out_bind_Ok in Hrun as (mi1 & Ha & Hrun).
      apply out_bind_Ok in Hrun as (ok & Hv & Hrun). destruct ok; [|done]. apply is_valid_minter_inv in Hv.
      destruct (key_diff_inv _ _ Hpre Hpost (amount_key_mkey tk) Hd) as (-> & Rp & Rq).
      assert (y tk = 0) as Hy0 by (apply Hy; by left).
      apply (accumulate_holds _ y) in Ha; [|done|unfold in_i256, diff; lia..].
      apply loop_result_mint; [done|done|unfold in_i256, diff; lia|]. apply (IH ch mi1); try done. intros t Ht. case_decide; [by subst|by apply Hy'].
    + assert (forall t, k <> mkey t) as Hkt
        by (intros t ->; by rewrite (proj2 (is_any_minted_balance_key_Some (mkey t) t)) in Hmk).
      destruct (is_any_minter_key k) as [tk|] eqn:Hrk.
      * apply out_bind_Ok in Hrun as (ok & Hv & Hrun). destruct ok; [|done]. apply is_valid_minter_inv in Hv.
        apply loop_result_skip; [done..| |by apply (IH ch mi)]. split; [intros t []; congruence|by rewrite Hrk].
      * case_bool_decide; [done|]. apply loop_result_skip; [done..| |by apply (IH ch mi)]. split; [intros t []; congruence|done].
Qed.

(** The sum of the balances changes by the changes of the balance keys. *)
Lemma total_diff t keys : NoDup keys -> (forall k, k ∉ keys -> pre !! k = post !! k) ->
  total post t - total pre t = over t diff keys.
Proof.
  intros Hnd Hag. unfold total. rewrite (msum_diff (bal_entry t) keys pre post Hnd Hag). unfold over. f_equal.
  apply list_fmap_ext. intros i k _. unfold mterm, diff, amt, bal_entry.
  destruct (is_balance_key t k), (pre !! k), (post !! k); simpl; done.
Qed.
Lemma minted_diff t keys : (forall k, k ∉ keys -> pre !! k = post !! k) -> minted post t - minted pre t = mint_over t keys.
Proof.
  intros Hag. unfold mint_over, minted, diff, amt. case_decide as Hk; [done|]. rewrite (Hag _ Hk). lia.
Qed.
Lemma over_notin t g keys : (forall o, bkey t o ∉ keys) -> over t g keys = 0.
Proof.
  induction keys as [|k keys IH]; intros Hk; [done|]. rewrite over_cons, IH by set_solver.
  destruct (is_balance_key t k) as [o|] eqn:Hb; [|done]. apply is_balance_key_Some in Hb as ->. exfalso. apply (Hk o). by left.
Qed.
Lemma bal_key_seen t (keys : list Key) : (forall o, bkey t o ∉ keys) \/ exists o, bkey t o ∈ keys.
Proof.
  induction keys as [|k keys [IH|[o IH]]]; [left; intros o; apply not_elem_of_nil| |right; exists o; by right].
  destruct (is_balance_key t k) as [o|] eqn:Hb.
  - apply is_balance_key_Some in Hb. right. exists o. rewrite Hb. by left.
  - left. intros o [He|]%elem_of_cons; [|by apply (IH o)]. by rewrite <- He, is_balance_key_bkey in Hb.
Qed.

Lemma validate_tx_inv vs keys :
  store_wf pre -> store_wf post -> NoDup keys ->
  (forall k, k ∉ keys -> pre !! k = post !! k) ->
  (forall t, over t (fun k => amt pre k + amt post k) keys <= MAX_SIGNED_VALUE) ->
  validate_tx pre post keys vs = Ok true ->
  Forall (key_allowed vs) keys /\
  forall t, (exists o, bkey t o ∈ keys) -> total post t - total pre t = minted post t - minted pre t.
Proof.
  intros Hpre Hpost Hnd Hag Hb Hv. unfold validate_tx in Hv.
  apply out_bind_Ok in Hv as ([[ch mi]|] & Hrun & Hv); [|done].
  destruct (vp_loop_inv vs keys ∅ ∅ ch mi (fun _ => 0) (fun _ => 0) Hpre Hpost Hnd Hrun) as [Hh Hm Hsn Hall Hrg];
    [by right|by right|by intros t'; specialize (Hb t'); rewrite Z.abs_0|done|].
  split; [done|]. intros t Ho. rewrite (total_diff t keys), (minted_diff t keys) by done.
  destruct (Hsn t (or_intror Ho)) as [c Hc]. injection Hv as Hv. rewrite forallb_forall in Hv.
  specialize (Hv (t, c)). cbn [fst snd] in Hv.
  assert (c = default 0 (mi !! t)) as He by (apply Z.eqb_eq, Hv, list_elem_of_In, elem_of_map_to_list; done).
  assert (in_i256 (over t diff keys)) as Hr.
  { pose proof (over_abs t keys Hpre Hpost). specialize (Hb t). unfold in_i256. lia. }
  specialize (Hh t). specialize (Hm t). cbv beta in Hh, Hm. rewrite Hc, Z.add_0_l in Hh. rewrite Z.add_0_l in Hm.
  assert (c = srep (over t diff keys)) as -> by (destruct Hh as [Hs|[? _]]; [by injection Hs|done]).
  destruct Hm as [Hm|[Hm Hm0]]; rewrite Hm in He; cbn in He.
  - rewrite <- (sval_srep (over t diff keys)), He by done. apply sval_srep. unfold mint_over. case_decide; [by apply Hrg|done].
  - rewrite Hm0, <- (sval_srep (over t diff keys)), He by done. done.
Qed.
(** A token that is not an IBC token cannot be minted. *)
Lemma validate_tx_conserves vs keys t :
  store_wf pre -> store_wf post -> NoDup keys ->
  (forall k, k ∉ keys -> pre !! k = post !! k) ->
  (forall t, over t (fun k => amt pre k + amt post k) keys <= MAX_SIGNED_VALUE) ->
  (forall h, t <> Internal (IbcToken h)) ->
  validate_tx pre post keys vs = Ok true ->
  total post t = total pre t /\ minted post t = minted pre t.
Proof.
  intros Hpre Hpost Hnd Hag Hb Ht Hv. destruct (validate_tx_inv vs keys) as [Hall Hc]; [done..|].
  assert (minted post t = minted pre t) as Hm.
  { pose proof (minted_diff t keys Hag) as Hd. unfold mint_over in Hd. case_decide as Hk; [|lia].
    rewrite list.Forall_forall in Hall. destruct (Hall _ Hk) as [Hmk _].
    destruct (Hmk t) as [[h ->] _]; [left; by apply is_any_minted_balance_key_Some|]. by destruct (Ht h). }
  split; [|done]. destruct (bal_key_seen t keys) as [Hn|Ho]; [|specialize (Hc t Ho); lia].
  pose proof (total_diff t keys Hnd Hag) as Hd. rewrite over_notin in Hd by done. lia.
Qed.
End vp_lemmas.

(** ** Properties *)

(** C33. A transfer between two accounts succeeds exactly when the source
    covers the amount and the destination does not overflow; it then moves
    exactly the amount, touches no other key, and conserves the sum of all
    balances of the token; a transfer that fails changes nothing. *)
Theorem transfer_correct {U : UintOps} {HU : UintLaws U} {C : AddressCodec}
  {HC : AddressCodecLaws C} (s : store) (t src dest : Address) (amount : Z)
  (Hs : store_wf s) (Ha : in_u256 amount) (Hne : src <> dest) :
  let (s', r) := transfer t src dest amount s in
  (r = Ok tt <-> amount = 0 \/ (amount <= bal s t src /\ bal s t dest + amount <= MAX_VALUE)) /\
  (r = Ok tt ->
     bal s' t src = bal s t src - amount /\ bal s' t dest = bal s t dest + amount /\
     total s' t = total s t /\ store_wf s' /\
     forall k, k <> bkey t src -> k <> bkey t dest -> s' !! k = s !! k) /\
  (r <> Ok tt -> s' = s /\ r <> Panic).
Proof.
  assert (bkey t src <> bkey t dest) as Hk by (intros He; by injection He).
  destruct (Z.eq_dec amount 0) as [-> | Hn].
  { unfold transfer, amount_is_zero. simpl. split_and!; [by split; auto| |done].
    intros _. split_and!; try done; lia. }
  rewrite transfer_eq by done.
  pose proof (bal_range s t src Hs). pose proof (bal_range s t dest Hs). unfold in_u256 in *.
  destruct (Z.leb_spec amount (bal s t src)); cbn [negb].
  2: { split_and!; [|done|done]. split; [done|lia]. }
  destruct (Z.leb_spec (bal s t dest + amount) MAX_VALUE); cbn [negb].
  2: { split_and!; [|done|done]. split; [done|lia]. }
  split_and!; [by split; auto| |done]. intros _.
  rewrite bal_set_eq, bal_set_ne, bal_set_eq by done. split_and!; try done.
  - rewrite !total_set_bal, bal_set_ne by done. lia.
  - apply store_wf_set; [apply store_wf_set; [done|]|]; unfold in_u256; lia.
  - intros k Hk1 Hk2. by rewrite !lookup_insert_ne by done.
Qed.

(** A store with a balance of 10 of token 1 for account 2. *)
Definition sample_store : store := {[ bkey (Established 1) (Established 2) := VAmount 10;
                                      mkey (Established 1) := VAmount 10 ]}.

Lemma sample_store_wf : store_wf sample_store.
Proof.
  intros k v Hk _. unfold sample_store in Hk.
  apply lookup_insert_Some in Hk as [[<- <-]|[_ Hk]].
  - exists 10. split; [reflexivity|split; vm_compute; discriminate].
  - apply lookup_singleton_Some in Hk as [<- <-].
    exists 10. split; [reflexivity|split; vm_compute; discriminate].
Qed.

Lemma transfer_correct_witness :
  total (transfer (U:=Ref.uint_ref) (C:=RefCodec.codec) (Established 1) (Established 2)
           (Established 3) 4 sample_store).1 (Established 1) = total sample_store (Established 1).
Proof.
  pose proof (transfer_correct (HU:=Ref.uint_ref_laws) (HC:=RefCodec.codec_laws) sample_store
    (Established 1) (Established 2) (Established 3) 4 sample_store_wf) as H.
  destruct (transfer _ _ _ _ sample_store) as [s' r] eqn:E.
  destruct H as (H1 & H2 & _); [split; vm_compute; discriminate|discriminate|].
  apply H2, H1. right. split; vm_compute; discriminate.
Defined.

(** The recorded supply stays the sum of the balances: transfers between
    distinct accounts and minting by the protocol keep the invariant. *)
Theorem supply_preserved {U : UintOps} {HU : UintLaws U} {C : AddressCodec}
  {HC : AddressCodecLaws C} (s s' : store) (t a b : Address) (amount : Z)
  (Hs : store_wf s) (Hi : supply_inv s t) (Ha : in_u256 amount)
  (Hop : (a <> b /\ transfer t a b amount s = (s', Ok tt)) \/
         credit_tokens t a amount s = (s', Ok tt)) :
  supply_inv s' t /\ store_wf s'.
Proof.
  pose proof (bal_range s t a Hs). pose proof (bal_range s t b Hs).
  pose proof (minted_range s t Hs). unfold supply_inv, in_u256 in *.
  destruct Hop as [[Hne Ht] | Hc].
  - destruct (Z.eq_dec amount 0) as [-> | Hn].
    { unfold transfer, amount_is_zero, st_ret in Ht. simpl in Ht. by simplify_eq. }
    rewrite transfer_eq in Ht by done. repeat (case_match; simplify_eq/=).
    assert (bkey t a <> bkey t b) by (intros He; by injection He).
    rewrite !total_set_bal, !minted_set_ne, bal_set_ne by done. split; [lia|].
    apply store_wf_set; [apply store_wf_set; [done|]|]; unfold in_u256; lia.
  - rewrite credit_tokens_eq in Hc by done. repeat (case_match; simplify_eq/=).
    rewrite total_set_other, total_set_bal, minted_set_eq by done. split; [lia|].
    apply store_wf_set; [apply store_wf_set; [done|]|]; unfold in_u256; lia.
Qed.

Lemma supply_preserved_witness :
  supply_inv (credit_tokens (U:=Ref.uint_ref) (C:=RefCodec.codec) (Established 1) (Established 3) 5
                sample_store).1 (Established 1).
Proof.
  assert ((credit_tokens (U:=Ref.uint_ref) (C:=RefCodec.codec) (Established 1) (Established 3) 5
             sample_store).2 = Ok tt) as Hr by (vm_compute; reflexivity).
  destruct (credit_tokens (U:=Ref.uint_ref) (C:=RefCodec.codec) (Established 1) (Established 3) 5
              sample_store) as [s' r] eqn:E.
  eapply (supply_preserved (HU:=Ref.uint_ref_laws) (HC:=RefCodec.codec_laws) sample_store s'
    (Established 1) (Established 3) (Established 3) 5 sample_store_wf).
  - vm_compute. reflexivity.
  - split; vm_compute; discriminate.
  - right. rewrite E. simpl in Hr. by rewrite Hr.
Defined.

(** A transfer from an account to itself creates tokens: the destination
    balance is read before the source is debited and is written last, so the
    balance and the sum of all balances grow by the amount. *)
Theorem self_transfer_mints {U : UintOps} {HU : UintLaws U} {C : AddressCodec}
  {HC : AddressCodecLaws C} (s : store) (t a : Address) (amount : Z)
  (Hs : store_wf s) (Ha : in_u256 amount) (Hn : amount <> 0)
  (Hb : amount <= bal s t a) (Ho : bal s t a + amount <= MAX_VALUE) :
  exists s', transfer t a a amount s = (s', Ok tt) /\
    bal s' t a = bal s t a + amount /\ total s' t = total s t + amount.
Proof.
  rewrite transfer_eq by done.
  rewrite (proj2 (Z.leb_le _ _) Hb), (proj2 (Z.leb_le _ _) Ho). eexists. split; [done|].
  rewrite bal_set_eq. split; [done|]. rewrite !total_set_bal, bal_set_eq. lia.
Qed.

Lemma self_transfer_mints_witness :
  exists s', transfer (U:=Ref.uint_ref) (C:=RefCodec.codec) (Established 1) (Established 2)
      (Established 2) 4 sample_store = (s', Ok tt) /\
    bal s' (Established 1) (Established 2) = 14 /\ total s' (Established 1) = 14.
Proof.
  destruct (self_transfer_mints (HU:=Ref.uint_ref_laws) (HC:=RefCodec.codec_laws) sample_store
    (Established 1) (Established 2) 4 sample_store_wf) as (s' & H1 & H2 & H3);
    [split; vm_compute; discriminate|discriminate|vm_compute; discriminate..|].
  exists s'. split; [exact H1|]. split; [exact H2|]. rewrite H3. reflexivity.
Defined.

(** Burning reads the supply of the wrong account: the new supply of the
    token is computed from the supply recorded for the source account, so for
    an account that is not itself a token the supply becomes zero. *)
Theorem burn_resets_supply {U : UintOps} {HU : UintLaws U} {C : AddressCodec}
  {HC : AddressCodecLaws C} (s : store) (t a : Address) (amount : Z)
  (Hs : store_wf s) (Ha : in_u256 amount) (Hm : s !! mkey a = None) :
  exists s', burn t a amount s = (s', Ok tt) /\ minted s' t = 0 /\
    total s' t = total s t - Z.min amount (bal s t a).
Proof.
  rewrite burn_eq by done. eexists. split; [done|].
  rewrite minted_set_eq, total_set_other, total_set_bal by done.
  assert (minted s a = 0) as -> by (unfold minted; by rewrite Hm).
  pose proof (bal_range s t a Hs). unfold in_u256 in *. lia.
Qed.

Lemma burn_resets_supply_witness :
  exists s', burn (U:=Ref.uint_ref) (C:=RefCodec.codec) (Established 1) (Established 2) 4
      sample_store = (s', Ok tt) /\
    minted s' (Established 1) = 0 /\ total s' (Established 1) = 6.
Proof.
  destruct (burn_resets_supply (HU:=Ref.uint_ref_laws) (HC:=RefCodec.codec_laws) sample_store
    (Established 1) (Established 2) 4 sample_store_wf) as (s' & H1 & H2 & H3);
    [split; vm_compute; discriminate|reflexivity|].
  exists s'. split; [exact H1|]. split; [exact H2|]. rewrite H3. reflexivity.
Defined.

(** C23. What the multitoken predicate guarantees when it accepts the changes of
    a transaction, provided that for each token the balances before and after
    under the changed keys add up to at most [MAX_SIGNED_VALUE]. The balances of
    every token with a changed balance, IBC tokens included, change in sum by
    what its recorded supply changes; the balances of the other tokens do not
    change. The supply and the minter of a token change only for an IBC token
    whose minter is the IBC account, with the predicate of that account among the
    verifiers, so every other token keeps its supply and the sum of its balances.
    And no other key of the multitoken account is changed. *)
Theorem multitoken_vp_conserves {U : UintOps} {HU : UintLaws U} {C : AddressCodec}
  {HC : AddressCodecLaws C} (pre post : store) (vs : gset Address) (keys : list Key)
  (Hpre : store_wf pre) (Hpost : store_wf post) (Hnd : NoDup keys)
  (Hag : forall k, k ∉ keys -> pre !! k = post !! k)
  (Hb : forall t, over t (fun k => amt pre k + amt post k) keys <= MAX_SIGNED_VALUE)
  (Hv : validate_tx pre post keys vs = Ok true) :
  (forall t, (exists o, bkey t o ∈ keys) -> total post t - total pre t = minted post t - minted pre t) /\
  (forall t, (forall o, bkey t o ∉ keys) -> total post t = total pre t) /\
  (forall t, minted post t <> minted pre t \/ post !! rkey t <> pre !! rkey t ->
     (exists h, t = Internal (IbcToken h)) /\ post !! rkey t = Some (VAddress (Internal Ibc)) /\ Internal Ibc ∈ vs) /\
  (forall t, (forall h, t <> Internal (IbcToken h)) -> total post t = total pre t /\ minted post t = minted pre t) /\
  (forall k, k ∈ keys -> head k = Some (AddressSeg (Internal Multitoken)) ->
     exists t, (exists o, k = bkey t o) \/ k = mkey t \/ k = rkey t).
Proof.
  destruct (validate_tx_inv pre post vs keys) as [Hall Hc]; [done..|]. rewrite list.Forall_forall in Hall. split_and!.
  - done.
  - intros t Ho. pose proof (total_diff pre post t keys Hnd Hag) as Hd. rewrite over_notin in Hd by done. lia.
  - intros t Hch. destruct (decide (mkey t ∈ keys)) as [Hk|Hk].
    { apply (Hall _ Hk). left. by apply is_any_minted_balance_key_Some. }
    destruct (decide (rkey t ∈ keys)) as [Hr|Hr]; [apply (Hall _ Hr); right; by apply is_any_minter_key_Some|].
    destruct Hch as [Hch|Hch]; [|by rewrite (Hag _ Hr) in Hch]. unfold minted in Hch. by rewrite (Hag _ Hk) in Hch.
  - intros t Ht. by apply (validate_tx_conserves pre post vs keys t).
  - intros k Hk Hh. destruct (Hall _ Hk) as [_ Ho].
    destruct (is_any_token_balance_key k) as [[t o]|] eqn:H1.
    { apply is_any_token_balance_key_Some in H1. exists t. left. by exists o. }
    destruct (is_any_minted_balance_key k) as [t|] eqn:H2; [apply is_any_minted_balance_key_Some in H2; exists t; auto|].
    destruct (is_any_minter_key k) as [t|] eqn:H3; [apply is_any_minter_key_Some in H3; exists t; auto|]. by destruct (Ho eq_refl eq_refl eq_refl).
Qed.

(** A transfer of one token and a mint of an IBC token *)
Lemma multitoken_vp_conserves_witness :
  let ibc := Internal (IbcToken 7) in
  let pre := <[rkey ibc := VAddress (Internal Ibc)]> sample_store in
  let post := <[mkey ibc := VAmount 5]> (<[bkey ibc (Established 2) := VAmount 5]>
                (<[bkey (Established 1) (Established 3) := VAmount 4]>
                (<[bkey (Established 1) (Established 2) := VAmount 6]> pre))) in
  total post ibc - total pre ibc = 5 /\ total post (Established 1) = total pre (Established 1).
Proof.
  intros ibc pre post.
  destruct (multitoken_vp_conserves (HU:=Ref.uint_ref_laws) (HC:=RefCodec.codec_laws) pre post {[ Internal Ibc ]}
    [bkey (Established 1) (Established 2); bkey (Established 1) (Established 3); bkey ibc (Established 2); mkey ibc])
    as (H1 & _ & _ & H4 & _).
  - intros k v Hk Ha. destruct (decide (k = rkey ibc)) as [->|Hne]; [by destruct Ha|].
    unfold pre in Hk. rewrite lookup_insert_ne in Hk by done. by apply (sample_store_wf k).
  - unfold post. repeat (apply store_wf_set; [|split; vm_compute; discriminate]).
    intros k v Hk Ha. destruct (decide (k = rkey ibc)) as [->|Hne]; [by destruct Ha|].
    unfold pre in Hk. rewrite lookup_insert_ne in Hk by done. by apply (sample_store_wf k).
  - apply (bool_decide_unpack _). vm_compute. reflexivity.
  - intros k Hk. rewrite !not_elem_of_cons in Hk. destruct Hk as (Hk1 & Hk2 & Hk3 & Hk4 & _).
    unfold post. by rewrite !lookup_insert_ne by done.
  - intros t. unfold over. rewrite !fmap_cons, fmap_nil, !sumZ_cons, sumZ_nil.
    destruct (is_balance_key t (bkey (Established 1) (Established 2))),
      (is_balance_key t (bkey (Established 1) (Established 3))), (is_balance_key t (bkey ibc (Established 2))),
      (is_balance_key t (mkey ibc)); vm_compute; discriminate.
  - vm_compute. reflexivity.
  - split; [|apply (H4 (Established 1)); discriminate].
    transitivity (minted post ibc - minted pre ibc); [|vm_compute; reflexivity].
    apply (H1 ibc). exists (Established 2). right. right. left.
Defined.

(** Without that bound the predicate can be deceived: crediting one
    account with [MAX_SIGNED_VALUE] units and another with one unit out of
    nothing adds up to [2^255], which the signed addition returns as zero, and
    the predicate accepts. *)
Theorem multitoken_vp_accepts_inflation {U : UintOps} {HU : UintLaws U} {C : AddressCodec}
  {HC : AddressCodecLaws C} (vs : gset Address) (t a b : Address) (Hab : a <> b) :
  let post := <[bkey t b := VAmount 1]> (<[bkey t a := VAmount MAX_SIGNED_VALUE]> ∅) in
  validate_tx ∅ post [bkey t a; bkey t b] vs = Ok true /\
  total ∅ t = 0 /\ total post t = 2 ^ 255.
Proof.
  intros post.
  assert (bkey t a <> bkey t b) as Hk by (intros He; by injection He).
  assert (forall k v, in_i256 v -> 0 <= v -> post !! k = Some (VAmount v) ->
    key_diff (∅ : store) post k = Ok (srep v)) as Hd.
  { intros k v Hv Hv0 Hp. unfold key_diff, change, try_from_uint. rewrite lookup_empty, Hp. simpl.
    rewrite (proj2 (Z.leb_le v _)) by (unfold in_i256 in Hv; lia). simpl.
    assert (in_i256 0) as H0 by (vm_compute; discriminate).
    pose proof (i256_sub_ok (E:=token_error) (srep v) (srep 0) (srep_wf v Hv) (srep_wf 0 H0)) as Hsub.
    rewrite !sval_srep, Z.sub_0_r in Hsub by done. rewrite !srep_pos in * by done. by apply Hsub. }
  split; [|split].
  - unfold validate_tx. cbn [vp_loop].
    rewrite !is_any_bkey.
    rewrite (Hd (bkey t a) MAX_SIGNED_VALUE); [|done|done|].
    2: { unfold post. by rewrite lookup_insert_ne, lookup_insert_eq. }
    rewrite (Hd (bkey t b) 1); [|done|done|unfold post; by rewrite lookup_insert_eq].
    cbn [out_bind]. unfold accumulate. rewrite lookup_empty. cbn [out_bind].
    rewrite lookup_insert_eq, i256_add_wrap by (apply srep_wf; vm_compute; discriminate).
    cbn [out_bind]. rewrite insert_insert_eq, insert_empty, map_to_list_singleton.
    change (canonical _) with 0. simpl. by rewrite lookup_empty.
  - apply msum_empty.
  - unfold post. rewrite !total_set_bal, bal_set_ne by done. unfold total, bal.
    rewrite msum_empty, !lookup_empty. reflexivity.
Qed.

Lemma multitoken_vp_accepts_inflation_witness :
  validate_tx (U:=Ref.uint_ref) (C:=RefCodec.codec) ∅
    (<[bkey (Established 1) (Established 3) := VAmount 1]>
       (<[bkey (Established 1) (Established 2) := VAmount MAX_SIGNED_VALUE]> ∅))
    [bkey (Established 1) (Established 2); bkey (Established 1) (Established 3)] ∅ = Ok true.
Proof.
  apply (multitoken_vp_accepts_inflation (HU:=Ref.uint_ref_laws) (HC:=RefCodec.codec_laws) ∅
           (Established 1) (Established 2) (Established 3)).
  discriminate.
Defined.
