(* ===== verification/Epoch.v ===== *)
(** * Epochs, block heights and the queue of Ethereum events

    [Epoch], [BlockHeight], [Epochs] and [InnerEthEventsQueue] of
    [core/src/types/storage.rs]. An [Epoch] and a [BlockHeight] are their
    [u64]; a nonce is a 256-bit integer. *)

From stdpp Require Import base numbers list sorting.
From Stdlib Require Import ZArith Lia.
From S2P Require Import Prelude Uint.

Local Open Scope Z_scope.

(** ** Epochs *)
Notation Epoch := Z (only parsing).
Notation BlockHeight := Z (only parsing).

Section epoch_ops.
Context {E : Type}.

Definition epoch_next (e : Epoch) : outcome E Epoch := u64_add e 1.
Definition epoch_prev (e : Epoch) : outcome E Epoch := u64_sub e 1.
Definition epoch_add (e : Epoch) (n : Z) : outcome E Epoch := u64_add e n.
Definition epoch_sub (e : Epoch) (n : Z) : outcome E Epoch := u64_sub e n.
Definition next_height (h : BlockHeight) : outcome E BlockHeight := u64_add h 1.
Definition prev_height (h : BlockHeight) : outcome E BlockHeight := u64_sub h 1.
End epoch_ops.

(** [Epoch::checked_sub] *)
Definition epoch_checked_sub (e rhs : Epoch) : option Epoch :=
  if rhs >? e then None else Some (e - rhs).
Definition sub_or_default (e rhs : Epoch) : Epoch := default 0 (epoch_checked_sub e rhs).

(** [Epoch::iter_range] and [Epoch::iter_bounds_inclusive] *)
Definition iter_range {E} (e : Epoch) (len : Z) : outcome E (list Epoch) :=
  (let* end_ix := u64_add e len in Ok (seqZ e (end_ix - e)))%out.
Definition iter_bounds_inclusive (s e : Epoch) : list Epoch := seqZ s (e - s + 1).

Lemma sub_or_default_eq e rhs : 0 <= e -> sub_or_default e rhs = Z.max 0 (e - rhs).
Proof.
  intros. unfold sub_or_default, epoch_checked_sub. rewrite Z.gtb_ltb.
  destruct (Z.ltb_spec e rhs); simpl; lia.
Qed.

Lemma elem_of_bounds s e x : x ∈ iter_bounds_inclusive s e <-> s <= x <= e.
Proof. unfold iter_bounds_inclusive. rewrite elem_of_seqZ. lia. Qed.

(** ** The first block heights of the epochs *)
Record Epochs : Type := mkEpochs { first_block_heights : list BlockHeight }.

Definition new_epoch (block_height : BlockHeight) (es : Epochs) : Epochs :=
  mkEpochs (first_block_heights es ++ [block_height]).

(** The loop of [Epochs::get_epoch] *)
Fixpoint get_epoch_loop {E} (block_height : BlockHeight) (rest : list BlockHeight) (epoch : Epoch)
  : outcome E Epoch :=
  match rest with
  | [] => Ok epoch
  | next_block_height :: rest' =>
      if block_height <? next_block_height then Ok epoch
      else (let* epoch' := epoch_next epoch in get_epoch_loop block_height rest' epoch')%out
  end.

Definition get_epoch {E} (es : Epochs) (block_height : BlockHeight) : outcome E (option Epoch) :=
  match first_block_heights es with
  | _ :: rest => (let* e := get_epoch_loop block_height rest 0 in Ok (Some e))%out
  | [] => Ok None
  end.

Definition get_epoch_start_height (es : Epochs) (height : BlockHeight) : option BlockHeight :=
  List.find (fun start_height => start_height <=? height) (rev (first_block_heights es)).

Definition get_start_height_of_epoch (es : Epochs) (epoch : Epoch) : option BlockHeight :=
  if epoch >? Z.of_nat (length (first_block_heights es)) then None
  else first_block_heights es !! Z.to_nat epoch.

(** ** The queue of Ethereum events *)
Section eth_queue.
Context {Ev : Type} (get_event_nonce : Ev -> Z).

Record InnerEthEventsQueue : Type := mkQueue {
  next_nonce_to_process : Z;
  inner : list Ev
}.

Definition new_at (next_nonce : Z) : InnerEthEventsQueue := mkQueue next_nonce [].
Definition default_queue : InnerEthEventsQueue := new_at 0.

(** [VecDeque::binary_search_by_key] on a queue sorted by nonce: the position
    of an event with the nonce, or the position that keeps the order. *)
Fixpoint binary_search_by_key (nonce : Z) (l : list Ev) : nat + nat :=
  match l with
  | [] => inr 0%nat
  | e :: l' =>
      if get_event_nonce e <? nonce then
        match binary_search_by_key nonce l' with
        | inl i => inl (S i)
        | inr i => inr (S i)
        end
      else if get_event_nonce e =? nonce then inl 0%nat else inr 0%nat
  end.

Definition insert_at (i : nat) (e : Ev) (l : list Ev) : list Ev := take i l ++ e :: drop i l.

Definition try_push_event {E} (new_event : Ev) : st InnerEthEventsQueue E unit := fun q =>
  match binary_search_by_key (get_event_nonce new_event) (inner q) with
  | inr i => (mkQueue (next_nonce_to_process q) (insert_at i new_event (inner q)), Ok tt)
  | inl _ => (q, Panic)
  end.

Definition peek_event_nonce (q : InnerEthEventsQueue) : option Z :=
  get_event_nonce <$> head (inner q).

(** [EthEventsQueueIter]: the queue and the local nonce *)
Record EthEventsQueueIter : Type := mkIter { current_nonce : Z; queue : InnerEthEventsQueue }.

Definition push_and_iter {E} (latest_event : Ev) (q : InnerEthEventsQueue)
  : outcome E EthEventsQueueIter :=
  if next_nonce_to_process q >? get_event_nonce latest_event then Panic
  else
    match try_push_event (E:=E) latest_event q with
    | (q', Ok _) => Ok (mkIter (next_nonce_to_process q') q')
    | (_, Err e) => Err e
    | (_, Panic) => Panic
    end.

(** [Iterator::next]: [checked_increment] stops at the largest nonce. *)
Definition iter_next {E} (it : EthEventsQueueIter) : outcome E (option Ev * EthEventsQueueIter) :=
  match inner (queue it) with
  | [] => Ok (None, it)
  | e :: rest =>
      if get_event_nonce e =? current_nonce it then
        if current_nonce it + 1 <? 2 ^ 256 then
          Ok (Some e, mkIter (current_nonce it + 1)
                        (mkQueue (next_nonce_to_process (queue it)) rest))
        else Panic
      else Ok (None, it)
  end.

(** [Drop]: the nonce of the next event is committed. *)
Definition iter_drop (it : EthEventsQueueIter) : InnerEthEventsQueue :=
  if next_nonce_to_process (queue it) <? current_nonce it
  then mkQueue (current_nonce it) (inner (queue it)) else queue it.

(** At most [n] steps of the iterator, and the events they return *)
Fixpoint iter_take {E} (n : nat) (it : EthEventsQueueIter) : outcome E (list Ev * EthEventsQueueIter) :=
  match n with
  | O => Ok ([], it)
  | S n' =>
      (let* r := iter_next it in
       match r.1 with
       | None => Ok ([], r.2)
       | Some e => let* r' := iter_take n' r.2 in Ok (e :: r'.1, r'.2)
       end)%out
  end.

(** A run of the ledger on the queue: events pushed one after the other, each
    followed by a number of steps of the iterator and its drop. The result is
    the events delivered and the queue. *)
Fixpoint run_queue {E} (pushes : list (Ev * nat)) (q : InnerEthEventsQueue)
  : outcome E (list Ev * InnerEthEventsQueue) :=
  match pushes with
  | [] => Ok ([], q)
  | (e, n) :: rest =>
      (let* it := push_and_iter e q in
       let* r := iter_take n it in
       let* r' := run_queue rest (iter_drop r.2) in
       Ok (r.1 ++ r'.1, r'.2))%out
  end.
End eth_queue.
Arguments InnerEthEventsQueue : clear implicits.
Arguments EthEventsQueueIter : clear implicits.

(** ** The epoch of a height *)
Lemma get_epoch_loop_spec {E} h rest : forall e,
  StronglySorted Z.lt rest -> 0 <= e -> e + Z.of_nat (length rest) <= U64_MAX ->
  exists i, get_epoch_loop (E:=E) h rest e = Ok (e + Z.of_nat i) /\ (i <= length rest)%nat /\
    (forall j s, (j < i)%nat -> rest !! j = Some s -> s <= h) /\
    (forall j s, (i <= j)%nat -> rest !! j = Some s -> h < s).
Proof.
  induction rest as [|x rest IH]; intros e Hs He Hl; simpl in *.
  - exists 0%nat. rewrite Z.add_0_r. repeat split; [lia| |]; intros j s; [lia|]. by rewrite lookup_nil.
  - apply StronglySorted_inv in Hs as [Hs Hx]. destruct (Z.ltb_spec h x).
    + exists 0%nat. rewrite Z.add_0_r. repeat split; [lia| |]; intros j s; [lia|].
      intros _ Hj. destruct j; simplify_eq/=; [done|].
      rewrite List.Forall_forall in Hx.
      assert (x < s); [|lia]. apply Hx, list_elem_of_In. by eapply list_elem_of_lookup_2.
    + unfold epoch_next. rewrite u64_add_ok by lia. simpl.
      destruct (IH (e + 1)) as (i & -> & Hi & Hlo & Hhi); [done|lia|lia|].
      exists (S i). split_and!; [f_equal; lia|lia| |]; intros [|j] s Hj Hs'; simplify_eq/=;
        [done| |lia|].
      * apply (Hlo j); [lia|done].
      * apply (Hhi j); [lia|done].
Qed.

Lemma find_rev_sorted h (l : list Z) i s :
  (forall j s, (i < j)%nat -> l !! j = Some s -> h < s) -> l !! i = Some s -> s <= h ->
  List.find (fun x => x <=? h) (rev l) = Some s.
Proof.
  revert i. induction l as [|x l IH] using rev_ind; intros i Hhi Hi Hs; [done|].
  rewrite rev_app_distr. simpl. destruct (Z.leb_spec x h) as [Hx|Hx].
  - assert (i = length l) as ->.
    { destruct (decide (i < length l)%nat) as [Hl|Hl].
      - assert (h < x); [|lia]. apply (Hhi (length l)); [done|].
        rewrite lookup_app_r by lia. by rewrite Nat.sub_diag.
      - apply lookup_lt_Some in Hi. rewrite length_app in Hi. simpl in Hi. lia. }
    rewrite lookup_app_r, Nat.sub_diag in Hi by lia. simpl in Hi. by simplify_eq.
  - assert (i < length l)%nat as Hl.
    { destruct (decide (i < length l)%nat); [done|].
      rewrite lookup_app_r in Hi by lia. destruct (i - length l)%nat; simplify_eq/=; lia. }
    rewrite lookup_app_l in Hi by done. apply (IH i); [|done|done].
    intros j s' Hj Hs'. apply (Hhi j); [done|]. by apply lookup_app_l_Some.
Qed.

(** For first block heights in ascending order and a height that is not
    before the first of them, [get_epoch] returns the epoch whose blocks
    contain the height: it starts at or before the height and the next one, if
    any, starts after it. [get_epoch_start_height] returns the start of the
    same epoch. *)
Theorem epochs_lookup {E} (es : Epochs) (h h0 : BlockHeight) :
  StronglySorted Z.lt (first_block_heights es) ->
  Z.of_nat (length (first_block_heights es)) <= U64_MAX ->
  first_block_heights es !! 0%nat = Some h0 -> h0 <= h ->
  exists e s, get_epoch (E:=E) es h = Ok (Some e) /\ get_start_height_of_epoch es e = Some s /\
    get_epoch_start_height es h = Some s /\ s <= h /\
    forall s', get_start_height_of_epoch es (e + 1) = Some s' -> h < s'.
Proof.
  destruct es as [[|x rest]]; simpl; intros Hs Hl H0 Hh; [done|]. injection H0 as ->.
  destruct (get_epoch_loop_spec (E:=E) h rest 0) as (i & Hr & Hi & Hlo & Hhi);
    [by apply StronglySorted_inv in Hs as [? _]|lia|lia|].
  assert (exists s, (h0 :: rest) !! i = Some s /\ s <= h) as (s & Hsi & Hsh).
  { destruct i as [|i]; [by exists h0|]. destruct (rest !! i) as [s|] eqn:Hs'.
    - exists s. split; [done|]. apply (Hlo i); [lia|done].
    - apply lookup_ge_None in Hs'. lia. }
  assert (forall j s, (i < j)%nat -> (h0 :: rest) !! j = Some s -> h < s) as Hafter.
  { intros [|j] s' Hj Hs'; [lia|]. apply (Hhi j); [lia|done]. }
  exists (Z.of_nat i), s. unfold get_epoch, get_start_height_of_epoch, get_epoch_start_height.
  cbn [first_block_heights]. rewrite Hr, Z.add_0_l. cbn [out_bind]. rewrite !Z.gtb_ltb.
  assert (length (h0 :: rest) = S (length rest)) as Hlen by done.
  split_and!; [done| | |done|].
  - destruct (Z.ltb_spec (Z.of_nat (length (h0 :: rest))) (Z.of_nat i)); [lia|]. by rewrite Nat2Z.id.
  - by apply (find_rev_sorted h _ i).
  - intros s'. destruct (Z.ltb_spec (Z.of_nat (length (h0 :: rest))) (Z.of_nat i + 1)); [done|].
    intros Hs'. apply (Hafter (Z.to_nat (Z.of_nat i + 1))); [lia|done].
Qed.

Lemma epochs_lookup_witness :
  exists e s, get_epoch (E:=unit) (mkEpochs [1; 10; 20]) 15 = Ok (Some e) /\
    get_start_height_of_epoch (mkEpochs [1; 10; 20]) e = Some s /\
    get_epoch_start_height (mkEpochs [1; 10; 20]) 15 = Some s /\ s <= 15 /\
    forall s', get_start_height_of_epoch (mkEpochs [1; 10; 20]) (e + 1) = Some s' -> 15 < s'.
Proof.
  apply (epochs_lookup (mkEpochs [1; 10; 20]) 15 1); [|done|done|lia].
  repeat constructor.
Defined.

(** ** The queue delivers events in order, once *)
Section queue_order.
Context {Ev : Type} (nonce : Ev -> Z).
Local Notation q_t := (InnerEthEventsQueue Ev).

(** Nonces in ascending order from a lower bound *)
Fixpoint ascending (lo : Z) (l : list Ev) : Prop :=
  match l with
  | [] => True
  | e :: l' => lo <= nonce e /\ ascending (nonce e + 1) l'
  end.

Definition queue_wf (q : q_t) : Prop := ascending (next_nonce_to_process q) (inner q).

Lemma ascending_weaken lo lo' l : lo' <= lo -> ascending lo l -> ascending lo' l.
Proof. destruct l; simpl; intuition lia. Qed.

Lemma ascending_lower lo l e : ascending lo l -> e ∈ l -> lo <= nonce e.
Proof.
  revert lo. induction l as [|x l IH]; intros lo Ha He; [by apply not_elem_of_nil in He|].
  simpl in Ha. apply elem_of_cons in He as [-> | He]; [lia|].
  destruct Ha as [? Ha]. specialize (IH _ Ha He). lia.
Qed.

Lemma search_spec e l : forall lo, ascending lo l -> lo <= nonce e -> nonce e ∉ nonce <$> l ->
  exists i, binary_search_by_key nonce (nonce e) l = inr i /\
    ascending lo (insert_at i e l) /\ Permutation (insert_at i e l) (e :: l).
Proof.
  induction l as [|x l IH]; intros lo Ha Hlo Hn; simpl in *.
  - exists 0%nat. by repeat split.
  - destruct Ha as [Hx Ha]. apply not_elem_of_cons in Hn as [Hne Hn].
    destruct (Z.ltb_spec (nonce x) (nonce e)).
    + destruct (IH _ Ha ltac:(lia) Hn) as (i & -> & Hi & Hp).
      exists (S i). split_and!; [done|by split|]. unfold insert_at in *. simpl. rewrite Hp.
      constructor.
    + destruct (Z.eqb_spec (nonce x) (nonce e)); [lia|].
      exists 0%nat. unfold insert_at. simpl. split_and!; [done|lia|lia| |done].
      eapply ascending_weaken; [|done]. lia.
Qed.

(** An iterator whose queue holds the nonces from the local one on *)
Definition iter_wf (it : EthEventsQueueIter Ev) : Prop :=
  ascending (current_nonce it) (inner (queue it)) /\
  next_nonce_to_process (queue it) <= current_nonce it.

Lemma iter_take_spec {E} n : forall (it : EthEventsQueueIter Ev), iter_wf it ->
  Forall (fun e => nonce e < 2 ^ 256 - 1) (inner (queue it)) ->
  exists out it', iter_take (E:=E) nonce n it = Ok (out, it') /\ iter_wf it' /\
    nonce <$> out = seqZ (current_nonce it) (Z.of_nat (length out)) /\
    current_nonce it' = current_nonce it + Z.of_nat (length out) /\
    inner (queue it) = out ++ inner (queue it') /\
    ((length (inner (queue it)) < n)%nat ->
      peek_event_nonce nonce (queue it') <> Some (current_nonce it')).
Proof.
  induction n as [|n IH]; intros it [Ha Hn] Hb; simpl.
  - exists [], it. split_and!; simpl; [done|done|done|lia|done|lia].
  - unfold iter_next. destruct it as [c [nn [|e l]]]; simpl in *.
    { exists [], (mkIter c (mkQueue nn [])). split_and!; simpl; [done|by split|done|lia|done|done]. }
    destruct (Z.eqb_spec (nonce e) c) as [He|He].
    + apply Forall_cons in Hb as [Hbe Hb]. destruct (Z.ltb_spec (c + 1) (2 ^ 256)); [|lia]. simpl.
      destruct (IH (mkIter (c + 1) (mkQueue nn l))) as (out & it' & -> & Hw & Ho & Hc & Hi & Hp);
        [split; simpl; [|lia]; replace (c + 1) with (nonce e + 1) by lia; tauto|done|].
      simpl in *. exists (e :: out), it'. split_and!; [done|done| |simpl; lia|by rewrite Hi|].
      * rewrite fmap_cons, Ho, He. simpl length. rewrite (seqZ_cons c) by lia.
        f_equal. f_equal; lia.
      * intros Hl. apply Hp. lia.
    + exists [], (mkIter c (mkQueue nn (e :: l))). split_and!; simpl; [done|by split|done|lia|done|].
      unfold peek_event_nonce. simpl. congruence.
Qed.

Lemma iter_drop_wf (it : EthEventsQueueIter Ev) : iter_wf it ->
  iter_drop it = mkQueue (current_nonce it) (inner (queue it)).
Proof.
  destruct it as [c [nn l]]. intros [_ Hn]. unfold iter_drop. simpl in *.
  destruct (Z.ltb_spec nn c); [done|]. f_equal. lia.
Qed.

Lemma nonce_not_delivered e lo (out l : list Ev) :
  nonce <$> out = seqZ lo (Z.of_nat (length out)) -> lo <= nonce e ->
  nonce e ∉ nonce <$> out ++ l -> lo + Z.of_nat (length out) <= nonce e.
Proof.
  intros Ho Hlo Hn. destruct (decide (lo + Z.of_nat (length out) <= nonce e)); [done|].
  exfalso. apply Hn. rewrite fmap_app, Ho. apply elem_of_app. left. apply elem_of_seqZ. lia.
Qed.

(** One push with its iteration *)
Lemma push_step {E} (q : q_t) e n : queue_wf q ->
  nonce e ∉ nonce <$> inner q -> next_nonce_to_process q <= nonce e ->
  Forall (fun e => nonce e < 2 ^ 256 - 1) (e :: inner q) ->
  exists it out it', push_and_iter (E:=E) nonce e q = Ok it /\
    iter_take (E:=E) nonce n it = Ok (out, it') /\ queue_wf (iter_drop it') /\
    nonce <$> out = seqZ (next_nonce_to_process q) (Z.of_nat (length out)) /\
    next_nonce_to_process (iter_drop it') = next_nonce_to_process q + Z.of_nat (length out) /\
    Permutation (e :: inner q) (out ++ inner (iter_drop it')) /\
    ((S (length (inner q)) < n)%nat ->
      peek_event_nonce nonce (iter_drop it') <> Some (next_nonce_to_process (iter_drop it'))).
Proof.
  intros Hq Hn Hge Hb. destruct (search_spec e (inner q) _ Hq Hge Hn) as (i & Hs & Ha & Hp).
  set (q1 := mkQueue (next_nonce_to_process q) (insert_at i e (inner q))).
  destruct (iter_take_spec (E:=E) n (mkIter (next_nonce_to_process q) q1))
    as (out & it' & Ht & Hw & Ho & Hc & Hi & Hpk); [split; [done|simpl; lia]|simpl; by rewrite Hp|].
  exists (mkIter (next_nonce_to_process q) q1), out, it'.
  rewrite (iter_drop_wf it') by done. simpl in *.
  split_and!; [|done|by destruct Hw|done|done|by rewrite <- Hi, Hp|].
  - unfold push_and_iter, try_push_event. rewrite Z.gtb_ltb.
    destruct (Z.ltb_spec (nonce e) (next_nonce_to_process q)); [lia|]. by rewrite Hs.
  - intros Hl. apply Hpk. by rewrite Hp.
Qed.
End queue_order.

(** Events whose nonces are distinct, not older than the next nonce and
    below the largest nonce, pushed in any order with any number of steps of
    the draining iterator after each push: the queue never stops the thread,
    the events delivered carry consecutive nonces from the next nonce on, no
    event is lost or delivered twice, and the queue stays in order. When the
    iterators are drained, the queue does not hold the next event. *)
Theorem eth_queue_in_order {E Ev} (nonce : Ev -> Z) (pushes : list (Ev * nat))
    (q : InnerEthEventsQueue Ev) :
  queue_wf nonce q ->
  NoDup (nonce <$> inner q ++ pushes.*1) ->
  Forall (fun e => next_nonce_to_process q <= nonce e < 2 ^ 256 - 1) (inner q ++ pushes.*1) ->
  exists out q', run_queue (E:=E) nonce pushes q = Ok (out, q') /\ queue_wf nonce q' /\
    nonce <$> out = seqZ (next_nonce_to_process q) (Z.of_nat (length out)) /\
    next_nonce_to_process q' = next_nonce_to_process q + Z.of_nat (length out) /\
    Permutation (inner q ++ pushes.*1) (out ++ inner q') /\
    (pushes <> [] -> Forall (fun p => length (inner q ++ pushes.*1) < p.2)%nat pushes ->
      peek_event_nonce nonce q' <> Some (next_nonce_to_process q')).
Proof.
  revert q. induction pushes as [|[e n] rest IH]; intros q Hq Hnd Hb.
  - exists [], q. rewrite app_nil_r. split_and!; simpl; [done|done|done|lia|done|done].
  - assert (Permutation (inner q ++ ((e, n) :: rest).*1) ((e :: inner q) ++ rest.*1)) as Hp0
      by (simpl; by rewrite Permutation_middle).
    rewrite Hp0 in Hnd, Hb. pose proof Hnd as Hnd0. rewrite fmap_app in Hnd0.
    apply NoDup_app in Hnd0 as (Hnd1 & _ & _).
    rewrite fmap_cons in Hnd1. apply NoDup_cons in Hnd1 as [Hn _].
    pose proof Hb as Hb0. apply Forall_app in Hb0 as [Hb1 Hb2].
    destruct (push_step (E:=E) nonce q e n) as (it & out & it' & Hpush & Ht & Hw & Ho & Hc & Hp & Hpk);
      [done|done|by apply Forall_cons in Hb1 as [[? _] _]|
       eapply Forall_impl; [exact Hb1|]; simpl; lia|].
    set (q1 := iter_drop it') in *.
    destruct (IH q1) as (out' & q' & Hr & Hw' & Ho' & Hc' & Hp' & Hpk'); [done| | |].
    + rewrite Hp, <- app_assoc, fmap_app in Hnd. by apply NoDup_app in Hnd as (_ & _ & ?).
    + rewrite Hp, <- app_assoc in Hb, Hnd. apply Forall_app in Hb as [_ Hb].
      apply Forall_forall. intros x Hx. rewrite Forall_forall in Hb. specialize (Hb x Hx).
      rewrite Hc. split; [|lia].
      apply (nonce_not_delivered nonce x _ out []); [done|lia|].
      rewrite app_nil_r. rewrite fmap_app in Hnd. apply NoDup_app in Hnd as (_ & Hd & _).
      intros Hin. apply (Hd _ Hin). by apply list_elem_of_fmap_2.
    + exists (out ++ out'), q'. simpl. rewrite Hpush. simpl. rewrite Ht. simpl. fold q1. rewrite Hr.
      split_and!; [done|done| | | |].
      * rewrite fmap_app, Ho, Ho', length_app, Nat2Z.inj_add, seqZ_app by lia. by rewrite Hc.
      * rewrite length_app. lia.
      * change ((e, n).1 :: rest.*1) with (((e, n) :: rest).*1).
        by rewrite Hp0, Hp, <- app_assoc, Hp', app_assoc.
      * intros _ Hall. apply Forall_cons in Hall as [Hn1 Hall]. simpl in Hn1.
        destruct rest as [|p rest].
        -- simpl in *. injection Hr as <- <-. apply Hpk.
           rewrite length_app in Hn1. simpl in Hn1. lia.
        -- apply Hpk'; [done|]. eapply Forall_impl; [exact Hall|]. intros p' Hp''.
           eapply Nat.le_lt_trans; [|exact Hp''].
           apply Permutation_length in Hp.
           rewrite !length_app in *. simpl in *. lia.
Qed.

Lemma eth_queue_in_order_witness :
  exists out q', run_queue (E:=unit) id [(7, 9%nat); (5, 9%nat); (6, 9%nat)] (new_at 5) = Ok (out, q') /\
    queue_wf id q' /\ id <$> out = seqZ 5 (Z.of_nat (length out)) /\
    next_nonce_to_process q' = 5 + Z.of_nat (length out) /\
    Permutation [7; 5; 6] (out ++ inner q') /\
    ([(7, 9%nat); (5, 9%nat); (6, 9%nat)] <> [] ->
     Forall (fun p : Z * nat => length [7; 5; 6] < p.2)%nat [(7, 9%nat); (5, 9%nat); (6, 9%nat)] ->
      peek_event_nonce id q' <> Some (next_nonce_to_process q')).
Proof.
  apply (eth_queue_in_order id [(7, 9%nat); (5, 9%nat); (6, 9%nat)] (new_at 5)).
  - done.
  - apply (bool_decide_unpack _). vm_compute. done.
  - apply (bool_decide_unpack _). vm_compute. done.
Defined.
