(* ===== verification/Params.v ===== *)
(** * Proof-of-stake parameters and epoch offsets

    [OwnedPosParams] and [PosParams] of [proof_of_stake/src/parameters.rs]: the
    validation of the parameters and the epochs computed from them; the epoch
    offsets of [proof_of_stake/src/epoched.rs]. *)

From stdpp Require Import base numbers list.
From Stdlib Require Import ZArith Lia.
From S2P Require Import Prelude Uint Int256 Dec Epoch.

Local Open Scope Z_scope.
Local Open Scope outcome_scope.

Record OwnedPosParams : Type := mkOwned {
  max_validator_slots : Z;
  pipeline_len : Z;
  unbonding_len : Z;
  tm_votes_per_token : Z;
  block_proposer_reward : Z;
  block_vote_reward : Z;
  max_inflation_rate : Z;
  target_staked_ratio : Z;
  duplicate_vote_min_slash_rate : Z;
  light_client_attack_min_slash_rate : Z;
  cubic_slashing_window_length : Z;
  validator_stake_threshold : Z;
  liveness_window_check : Z;
  liveness_threshold : Z;
  rewards_gain_p : Z;
  rewards_gain_d : Z
}.

Record PosParams : Type := mkPosParams { owned :> OwnedPosParams; max_proposal_period : Z }.

Inductive ValidationError : Type :=
| TotalVotingPowerTooLarge (power : Z)
| VotesPerTokenGreaterThanOne (votes : Z)
| PipelineLenTooShort (len : Z)
| UnbondingLenTooShort (unbonding pipeline : Z).

Definition TOKENS_PER_NAM : Z := 1000000.
Definition I64_MAX : Z := 2 ^ 63 - 1.
Definition MAX_TOTAL_VOTING_POWER : Z := I64_MAX / 8.
Definition TOKEN_MAX_AMOUNT : Z := U64_MAX / TOKENS_PER_NAM.

Section params.
Context {U : UintOps} {E : Type}.

(** [OwnedPosParams::default]; the gains, [Dec::from_str] of 0.25, are written
    by mantissa and scale like the other decimals. *)
Definition default_owned : outcome E OwnedPosParams :=
  let dec m s := let* o := dec_new m s in unwrap o in
  let* one := dec_one in
  let* proposer := dec 125 3 in
  let* tenth := dec 1 1 in
  let* ratio := dec 6667 4 in
  let* slash := dec 1 3 in
  let* threshold := native_whole 1 in
  let* liveness := dec 9 1 in
  let* gain := dec 25 2 in
  Ok (mkOwned 100 2 21 one proposer tenth tenth ratio slash slash 1 threshold 10000 liveness gain gain).

Definition validate (p : OwnedPosParams) : outcome E (list ValidationError) :=
  let pipeline := if pipeline_len p <? 2 then [PipelineLenTooShort (pipeline_len p)] else [] in
  let unbonding :=
    if unbonding_len p <=? pipeline_len p
    then [UnbondingLenTooShort (unbonding_len p) (pipeline_len p)] else [] in
  let* a := dec_mul_u64 (tm_votes_per_token p) TOKEN_MAX_AMOUNT in
  let* b := dec_mul_u64 a (max_validator_slots p) in
  let* o := to_uint b in
  let* max_total_voting_power := unwrap o in
  let power :=
    if max_total_voting_power <=? I64_MAX then
      if max_total_voting_power >? MAX_TOTAL_VOTING_POWER
      then [TotalVotingPowerTooLarge max_total_voting_power] else []
    else [TotalVotingPowerTooLarge max_total_voting_power] in
  let* one := dec_one in
  let votes :=
    if dec_gt (tm_votes_per_token p) one
    then [VotesPerTokenGreaterThanOne (tm_votes_per_token p)] else [] in
  Ok (pipeline ++ unbonding ++ power ++ votes).

(** ** Epoch offsets of the parameters *)
Definition withdrawable_epoch_offset (p : OwnedPosParams) : outcome E Z :=
  let* a := u64_add (pipeline_len p) (unbonding_len p) in
  u64_add a (cubic_slashing_window_length p).
Definition slash_processing_epoch_offset (p : OwnedPosParams) : outcome E Z :=
  let* a := u64_add (unbonding_len p) (cubic_slashing_window_length p) in
  u64_add a 1.
Definition cubic_slash_epoch_window (p : OwnedPosParams) (infraction_epoch : Epoch)
  : outcome E (Epoch * Epoch) :=
  let start := sub_or_default infraction_epoch (cubic_slashing_window_length p) in
  let* en := epoch_add infraction_epoch (cubic_slashing_window_length p) in
  Ok (start, en).
Definition redelegation_end_epoch_from_start (p : OwnedPosParams) (start : Epoch) : outcome E Epoch :=
  epoch_add start (pipeline_len p).
Definition redelegation_start_epoch_from_end (p : OwnedPosParams) (en : Epoch) : outcome E Epoch :=
  epoch_sub en (pipeline_len p).
Definition in_redelegation_slashing_window (p : OwnedPosParams)
    (infraction_epoch redel_start redel_end : Epoch) : outcome E bool :=
  let* off := slash_processing_epoch_offset p in
  let* processing_epoch := epoch_add infraction_epoch off in
  Ok ((redel_start <? processing_epoch) && (infraction_epoch <? redel_end)).
End params.

(** ** The offsets of epoched data *)
Definition DEFAULT_NUM_PAST_EPOCHS : Z := 2.

Inductive EpochOffset : Type :=
| OffsetZero
| OffsetDefaultNumPastEpochs
| OffsetPipelineLen
| OffsetUnbondingLen
| OffsetPipelinePlusUnbondingLen
| OffsetSlashProcessingLen
| OffsetSlashProcessingLenPlus
| OffsetMaxU64
| OffsetMaxProposalPeriod
| OffsetMaxProposalPeriodPlus
| OffsetMaxProposalPeriodOrSlashProcessingLen
| OffsetMaxProposalPeriodOrSlashProcessingLenPlus.

(** [EpochOffset::value] *)
Definition offset_value {E} (o : EpochOffset) (params : PosParams) : outcome E Z :=
  match o with
  | OffsetZero => Ok 0
  | OffsetDefaultNumPastEpochs => Ok DEFAULT_NUM_PAST_EPOCHS
  | OffsetPipelineLen => Ok (pipeline_len params)
  | OffsetUnbondingLen => Ok (unbonding_len params)
  | OffsetPipelinePlusUnbondingLen => u64_add (pipeline_len params) (unbonding_len params)
  | OffsetSlashProcessingLen => slash_processing_epoch_offset params
  | OffsetSlashProcessingLenPlus =>
      let* a := slash_processing_epoch_offset params in u64_add a DEFAULT_NUM_PAST_EPOCHS
  | OffsetMaxU64 => Ok U64_MAX
  | OffsetMaxProposalPeriod => Ok (max_proposal_period params)
  | OffsetMaxProposalPeriodPlus => u64_add (max_proposal_period params) DEFAULT_NUM_PAST_EPOCHS
  | OffsetMaxProposalPeriodOrSlashProcessingLen =>
      let* a := slash_processing_epoch_offset params in Ok (Z.max a (max_proposal_period params))
  | OffsetMaxProposalPeriodOrSlashProcessingLenPlus =>
      let* a := slash_processing_epoch_offset params in
      u64_add (Z.max a (max_proposal_period params)) DEFAULT_NUM_PAST_EPOCHS
  end.
