(* ===== verification/Epoched.v ===== *)
(** * Epoched data

    [Epoched], [NestedEpoched] and [EpochedDelta] of
    [proof_of_stake/src/epoched.rs]. A handle owns three sub-keys of the
    storage: the epoch of the last update, the oldest epoch and a lazy map from
    epochs to data. Its state is a record of the three; the epochs the data is
    kept for are given by the two offsets of the handle.

    The theorems compare a handle with a timeline that is never trimmed: every
    query inside the window of kept epochs has the answer of the timeline. *)

From stdpp Require Import base numbers list gmap.
From Stdlib Require Import ZArith Lia.
From S2P Require Import Prelude Uint Int256 Dec Epoch Params.

Local Open Scope Z_scope.

Record epoched (D : Type) : Type := mkEpoched {
  last_update : option Epoch;
  oldest_epoch : option Epoch;
  data : gmap Epoch D
}.
Arguments mkEpoched {D} last_update oldest_epoch data.
Arguments last_update {D} e.
Arguments oldest_epoch {D} e.
Arguments data {D} e.

Section updates.
Context {D : Type}.
Definition set_last_update (e : Epoch) (s : epoched D) : epoched D :=
  mkEpoched (Some e) (oldest_epoch s) (data s).
Definition set_oldest_epoch (e : Epoch) (s : epoched D) : epoched D :=
  mkEpoched (last_update s) (Some e) (data s).
Definition set_data (d : gmap Epoch D) (s : epoched D) : epoched D :=
  mkEpoched (last_update s) (oldest_epoch s) d.
Definition empty_epoched : epoched D := mkEpoched None None ∅.
End updates.

(** The end of both [update_data] functions when nothing is trimmed *)
Definition touch {D} (current_epoch : Epoch) (s : epoched D) : epoched D :=
  let s := set_last_update current_epoch s in
  match oldest_epoch s with
  | None => set_oldest_epoch current_epoch s
  | Some _ => s
  end.

Section epoched_ops.
Context {E : Type} (FutureEpochs PastEpochs : EpochOffset).

Definition sub_past_epochs (params : PosParams) (epoch : Epoch) : outcome E Epoch :=
  (let* past := offset_value PastEpochs params in Ok (sub_or_default epoch past))%out.

(** ** [Epoched] *)
Section discrete.
Context {D : Type}.

Definition set_at_epoch (value : D) (current_epoch : Epoch) (offset : Z) : st (epoched D) E unit :=
  fun s =>
    match epoch_add current_epoch offset with
    | Ok epoch => (set_data (<[epoch := value]> (data s)) s, Ok tt)
    | Err e => (s, Err e)
    | Panic => (s, Panic)
    end.

Definition init_at_genesis (value : D) (current_epoch : Epoch) : st (epoched D) E unit :=
  (do! st_mod (set_last_update current_epoch) in
   do! st_mod (set_oldest_epoch current_epoch) in
   set_at_epoch value current_epoch 0)%st.

(** The loop of [get], from an epoch downwards *)
Fixpoint get_loop (params : PosParams) (last_update : Epoch) (d : gmap Epoch D) (epoch : nat)
  : outcome E (option D) :=
  match d !! Z.of_nat epoch with
  | Some v => Ok (Some v)
  | None =>
      match epoch with
      | O => Ok None
      | S prev =>
          (let* oldest := sub_past_epochs params last_update in
           if Z.of_nat epoch >? oldest then get_loop params last_update d prev else Ok None)%out
      end
  end.

Definition get (s : epoched D) (epoch : Epoch) (params : PosParams) : outcome E (option D) :=
  match last_update s with
  | None => Ok None
  | Some lu =>
      (let* future := offset_value FutureEpochs params in
       let* future_most_epoch := epoch_add lu future in
       get_loop params lu (data s) (Z.to_nat (Z.min epoch future_most_epoch)))%out
  end.

(** The loop of [update_data]: the entries are removed, the latest is kept. *)
Fixpoint remove_all (epochs : list Epoch) (d : gmap Epoch D) (latest_value : option D)
  : gmap Epoch D * option D :=
  match epochs with
  | [] => (d, latest_value)
  | epoch :: rest =>
      let removed := d !! epoch in
      remove_all rest (delete epoch d) (match removed with Some _ => removed | None => latest_value end)
  end.

Definition update_data (params : PosParams) (current_epoch : Epoch) : st (epoched D) E unit :=
  fun s =>
    match last_update s, oldest_epoch s with
    | Some _, Some oldest =>
        (let! oldest_to_keep := st_lift (sub_past_epochs params current_epoch) in
         if oldest <? oldest_to_keep then
           let! diff := st_lift (epoch_sub oldest_to_keep oldest) in
           let! epochs := st_lift (iter_range oldest diff) in
           let r := remove_all epochs (data s) None in
           do! st_mod (set_data r.1) in
           do! match r.2 with
               | Some latest_value =>
                   let! new_oldest_epoch := st_lift (sub_past_epochs params current_epoch) in
                   let! d := st_get data in
                   do! match d !! new_oldest_epoch with
                       | None => st_mod (set_data (<[new_oldest_epoch := latest_value]> d))
                       | Some _ => st_ret tt
                       end in
                   st_mod (set_oldest_epoch new_oldest_epoch)
               | None => st_ret tt
               end in
           st_mod (set_last_update current_epoch)
         else st_mod (touch current_epoch))%st s
    | _, _ => st_mod (touch current_epoch) s
    end.

Definition set (params : PosParams) (value : D) (current_epoch : Epoch) (offset : Z)
  : st (epoched D) E unit :=
  (do! update_data params current_epoch in set_at_epoch value current_epoch offset)%st.

(** ** [NestedEpoched]: no value is carried over *)
Definition nested_init (epoch : Epoch) : st (epoched D) E unit :=
  (do! st_mod (set_last_update epoch) in st_mod (set_oldest_epoch epoch))%st.

Definition nested_update_data (params : PosParams) (current_epoch : Epoch) : st (epoched D) E unit :=
  fun s =>
    match last_update s, oldest_epoch s with
    | Some _, Some oldest =>
        (let! oldest_to_keep := st_lift (sub_past_epochs params current_epoch) in
         if oldest <? oldest_to_keep then
           let! diff := st_lift (epoch_sub oldest_to_keep oldest) in
           let! epochs := st_lift (iter_range oldest diff) in
           do! st_mod (fun s => set_data (foldl (fun d e => delete e d) (data s) epochs) s) in
           let! new_oldest_epoch := st_lift (sub_past_epochs params current_epoch) in
           do! st_mod (set_oldest_epoch new_oldest_epoch) in
           st_mod (set_last_update current_epoch)
         else st_ret tt)%st s
    | _, _ => (s, Ok tt)
    end.
End discrete.
End epoched_ops.

(** ** [EpochedDelta]

    The data has a zero and an addition that may stop the thread. *)
Class Delta (D : Type) : Type := {
  delta_zero : D;
  delta_add : forall E, D -> D -> outcome E D
}.
Arguments delta_add {D _ E} _ _.

Section delta_ops.
Context {E : Type} (FutureEpochs PastEpochs : EpochOffset) {D : Type} {HD : Delta D}.

(** [match sum.as_mut()] of the two loops *)
Definition add_opt (sum : option D) (delta : D) : outcome E (option D) :=
  match sum with
  | Some sum => (let* s := delta_add sum delta in Ok (Some s))%out
  | None => Ok (Some delta)
  end.

Definition get_delta_val (s : epoched D) (epoch : Epoch) : option D := data s !! epoch.

Definition get_sum (s : epoched D) (epoch : Epoch) (params : PosParams) : outcome E (option D) :=
  match last_update s with
  | None => Ok None
  | Some lu =>
      (let* start_epoch := sub_past_epochs PastEpochs params lu in
       let* future := offset_value FutureEpochs params in
       let* future_most_epoch := epoch_add lu future in
       let epoch := Z.min epoch future_most_epoch in
       out_fold (fun sum ep =>
                   match data s !! ep with
                   | Some delta => add_opt sum delta
                   | None => Ok sum
                   end) (iter_bounds_inclusive start_epoch epoch) None)%out
  end.

(** The loop of [update_data]: the entries are removed and added up. *)
Fixpoint remove_sum (epochs : list Epoch) (d : gmap Epoch D) (sum : option D)
  : outcome E (gmap Epoch D * option D) :=
  match epochs with
  | [] => Ok (d, sum)
  | epoch :: rest =>
      (let* sum' :=
         match d !! epoch with
         | Some removed => add_opt sum removed
         | None => Ok sum
         end in
       remove_sum rest (delete epoch d) sum')%out
  end.

Definition delta_update_data (params : PosParams) (current_epoch : Epoch) : st (epoched D) E unit :=
  fun s =>
    match last_update s, oldest_epoch s with
    | Some _, Some oldest =>
        (let! oldest_to_keep := st_lift (sub_past_epochs PastEpochs params current_epoch) in
         if oldest <? oldest_to_keep then
           let! diff := st_lift (epoch_sub oldest_to_keep oldest) in
           let! epochs := st_lift (iter_range oldest diff) in
           let! r := st_lift (remove_sum epochs (data s) None) in
           do! st_mod (set_data r.1) in
           do! match r.2 with
               | Some sum =>
                   let! new_oldest_epoch := st_lift (sub_past_epochs PastEpochs params current_epoch) in
                   let! d := st_get data in
                   let! new_data :=
                     st_lift match d !! new_oldest_epoch with
                             | Some oldest_epoch_data => delta_add oldest_epoch_data sum
                             | None => Ok sum
                             end in
                   do! st_mod (set_data (<[new_oldest_epoch := new_data]> d)) in
                   st_mod (set_oldest_epoch new_oldest_epoch)
               | None => st_ret tt
               end in
           st_mod (set_last_update current_epoch)
         else st_mod (touch current_epoch))%st s
    | _, _ => st_mod (touch current_epoch) s
    end.

Definition delta_add_value (params : PosParams) (value : D) (current_epoch : Epoch) (offset : Z)
  : st (epoched D) E unit :=
  (do! delta_update_data params current_epoch in
   let! epoch := st_lift (epoch_add current_epoch offset) in
   let! cur := st_get (fun s => get_delta_val s epoch) in
   let! v := st_lift (delta_add (default delta_zero cur) value) in
   set_at_epoch v current_epoch offset)%st.

Definition delta_set (params : PosParams) (value : D) (current_epoch : Epoch) (offset : Z)
  : st (epoched D) E unit :=
  (do! delta_update_data params current_epoch in set_at_epoch value current_epoch offset)%st.

Definition to_hashmap (s : epoched D) : gmap Epoch D := data s.
End delta_ops.

(** ** Windows and runs *)

(** The first epoch of the window of a handle last updated at [lu] *)
Definition window_start (pv lu : Z) : Z := Z.max 0 (lu - pv).

(** Updates [(current_epoch, offset, value)] in the order of their epochs, with
    offsets in the future window *)
Fixpoint in_order {D} (fv lu : Z) (l : list (Z * Z * D)) : Prop :=
  match l with
  | [] => True
  | (c, off, _) :: l' => lu <= c /\ 0 <= off <= fv /\ c + fv <= U64_MAX /\ in_order fv c l'
  end.

Fixpoint last_epoch {D} (lu : Z) (l : list (Z * Z * D)) : Z :=
  match l with
  | [] => lu
  | (c, _, _) :: l' => last_epoch c l'
  end.

Lemma window_start_mono pv lu lu' : lu <= lu' -> window_start pv lu <= window_start pv lu'.
Proof. unfold window_start. lia. Qed.

Section discrete_refinement.
Context {E D : Type} (FutureEpochs PastEpochs : EpochOffset) (params : PosParams) (fv pv : Z).
Context (Hpv : forall E, offset_value (E:=E) PastEpochs params = Ok pv) (Hpv0 : 0 <= pv).
Context (Hfv : forall E, offset_value (E:=E) FutureEpochs params = Ok fv) (Hfv0 : 0 <= fv).
Implicit Types (d M : gmap Z D) (s : epoched D).

(** The value in effect at an epoch: the latest one at or before it *)
Definition in_effect M (ep : Z) (v : D) : Prop :=
  exists e, e <= ep /\ M !! e = Some v /\ forall e', e < e' <= ep -> M !! e' = None.

(** [d] is the timeline [M] cut at the epoch [lo] *)
Definition cut_at (lo : Z) M d : Prop :=
  (forall e, e < lo -> d !! e = None) /\ (forall e, lo < e -> d !! e = M !! e) /\
  (forall v, d !! lo = Some v <-> in_effect M lo v).

Definition epoched_inv M s : Prop :=
  match last_update s with
  | None => oldest_epoch s = None /\ data s = ∅ /\ M = ∅
  | Some lu =>
      0 <= lu /\ cut_at (window_start pv lu) M (data s) /\
      (forall e v, M !! e = Some v -> 0 <= e <= lu + fv) /\
      exists o, oldest_epoch s = Some o /\ 0 <= o <= lu /\ forall e, e < o -> data s !! e = None
  end.

Lemma sub_past_ok ep : 0 <= ep -> sub_past_epochs (E:=E) PastEpochs params ep = Ok (window_start pv ep).
Proof.
  intros. unfold sub_past_epochs, window_start. rewrite Hpv. simpl. f_equal. by apply sub_or_default_eq.
Qed.

Lemma in_effect_empty ep v : ~ in_effect ∅ ep v.
Proof. intros (e & _ & He & _). by rewrite lookup_empty in He. Qed.

(** The value in effect in the window is the same in a cut timeline. *)
Lemma cut_in_effect lo M d ep v : cut_at lo M d -> lo <= ep -> in_effect d ep v <-> in_effect M ep v.
Proof.
  intros (Hlt & Hgt & Hat) Hep. split.
  - intros (e & He & Hd & Hn). destruct (Z.lt_trichotomy e lo) as [Hl|[->|Hl]].
    + by rewrite Hlt in Hd.
    + apply Hat in Hd as (e0 & He0 & Hm & Hn0). exists e0. split_and!; [lia|done|].
      intros e' He'. destruct (decide (e' <= lo)); [apply Hn0; lia|].
      rewrite <- Hgt by lia. apply Hn. lia.
    + exists e. split_and!; [done|by rewrite <- Hgt|]. intros e' He'. rewrite <- Hgt by lia. by apply Hn.
  - intros (e & He & Hm & Hn). destruct (decide (lo < e)) as [Hl|Hl].
    + exists e. split_and!; [done|by rewrite Hgt|]. intros e' He'. rewrite Hgt by lia. by apply Hn.
    + exists lo. split_and!; [done| |intros e' He'; rewrite Hgt by lia; apply Hn; lia].
      apply Hat. exists e. split_and!; [lia|done|]. intros e' He'. apply Hn. lia.
Qed.

(** Cutting a cut timeline later *)
Lemma cut_later lo lo' M d d' : cut_at lo M d -> lo <= lo' -> cut_at lo' d d' -> cut_at lo' M d'.
Proof.
  intros Hc Hlo (Hlt & Hgt & Hat). split_and!; [done| |].
  - intros e He. rewrite Hgt by done. destruct Hc as (_ & Hc & _). apply Hc. lia.
  - intros v. rewrite Hat. by eapply cut_in_effect.
Qed.

Lemma cut_insert lo M d e v : cut_at lo M d -> lo <= e -> cut_at lo (<[e := v]> M) (<[e := v]> d).
Proof.
  intros (Hlt & Hgt & Hat) He. split_and!.
  - intros e' He'. rewrite lookup_insert_ne by lia. auto.
  - intros e' He'. destruct (decide (e = e')) as [->|]; [by rewrite !lookup_insert_eq|].
    rewrite !lookup_insert_ne by done. auto.
  - intros v'. destruct (decide (e = lo)) as [->|Hne].
    + rewrite lookup_insert_eq. split.
      * intros [= ->]. exists lo. rewrite lookup_insert_eq. split_and!; [lia|done|lia].
      * intros (e & Hle & Hm & Hn). destruct (decide (e = lo)) as [->|]; [by rewrite lookup_insert_eq in Hm|].
        specialize (Hn lo ltac:(lia)). by rewrite lookup_insert_eq in Hn.
    + rewrite lookup_insert_ne, Hat by done. split.
      * intros (e1 & H1 & Hm & Hn). exists e1. rewrite lookup_insert_ne by lia. split_and!; [done|done|].
        intros e' He'. rewrite lookup_insert_ne by lia. auto.
      * intros (e1 & H1 & Hm & Hn). rewrite lookup_insert_ne in Hm by lia. exists e1. split_and!; [done|done|].
        intros e' He'. specialize (Hn e' He'). by rewrite lookup_insert_ne in Hn by lia.
Qed.

Lemma remove_all_lookup epochs : forall d l e,
  (remove_all epochs d l).1 !! e = if decide (e ∈ epochs) then None else d !! e.
Proof.
  induction epochs as [|x epochs IH]; intros d l e.
  - rewrite decide_False; [done|apply not_elem_of_nil].
  - cbn [remove_all]. rewrite IH. destruct (decide (e = x)) as [->|Hne].
    + rewrite lookup_delete_eq, (decide_True (P := x ∈ x :: epochs)) by set_solver. by case_decide.
    + rewrite lookup_delete_ne by done. by do 2 case_decide; set_solver.
Qed.

Lemma remove_all_latest n : forall a d l v,
  (remove_all (seqZ a (Z.of_nat n)) d l).2 = Some v <->
  (exists e, a <= e < a + Z.of_nat n /\ d !! e = Some v /\
     forall e', e < e' < a + Z.of_nat n -> d !! e' = None) \/
  ((forall e, a <= e < a + Z.of_nat n -> d !! e = None) /\ l = Some v).
Proof.
  induction n as [|n IH]; intros a d l v.
  - simpl. split; [|intros [(e & ? & _)|[_ ?]]; [lia|done]]. intros ->. right. split; [lia|done].
  - rewrite seqZ_cons by lia. simpl. rewrite Nat2Z.inj_succ, Z.pred_succ, IH.
    assert (forall e, e <> a -> delete a d !! e = d !! e) as Hde by (intros; by apply lookup_delete_ne).
    split.
    + intros [(e & He & Hd & Hn)|[Hn Hl]].
      * left. exists e. rewrite Hde in Hd by lia. split_and!; [lia|lia|done|].
        intros e' He'. rewrite <- (Hde e') by lia. apply Hn. lia.
      * destruct (d !! a) as [w|] eqn:Ha.
        -- left. exists a. rewrite Ha. split_and!; [lia|lia|done|].
           intros e' He'. rewrite <- Hde by lia. apply Hn. lia.
        -- right. split; [|done]. intros e He. destruct (decide (e = a)) as [->|]; [done|].
           rewrite <- Hde by lia. apply Hn. lia.
    + intros [(e & He & Hd & Hn)|[Hn Hl]].
      * destruct (decide (e = a)) as [->|Hne].
        -- right. rewrite Hd. split; [|done]. intros e' He'. rewrite Hde by lia. apply Hn. lia.
        -- left. exists e. rewrite Hde by lia. split_and!; [lia|lia|done|].
           intros e' He'. rewrite Hde by lia. apply Hn. lia.
      * right. split.
        -- intros e He. rewrite Hde by lia. apply Hn. lia.
        -- by rewrite Hn by lia.
Qed.

(** The data after the trimming of [update_data] *)
Definition trimmed (o lo : Z) d : gmap Z D :=
  let r := remove_all (seqZ o (lo - o)) d None in
  match r.2 with
  | Some v => match r.1 !! lo with None => <[lo := v]> r.1 | Some _ => r.1 end
  | None => r.1
  end.

Lemma trim_cut o lo d : o < lo -> (forall e, e < o -> d !! e = None) -> cut_at lo d (trimmed o lo d).
Proof.
  intros Ho Hd. unfold trimmed.
  pose proof (remove_all_latest (Z.to_nat (lo - o)) o d None) as Hl.
  pose proof (remove_all_lookup (seqZ o (lo - o)) d None) as Hr.
  rewrite Z2Nat.id in Hl by lia. replace (o + (lo - o)) with lo in Hl by lia.
  destruct (remove_all (seqZ o (lo - o)) d None) as [d1 r]. cbn [fst snd] in *.
  assert (forall e, e < lo -> d1 !! e = None) as Hlow.
  { intros e He. rewrite Hr. case_decide as Hs; [done|]. apply Hd.
    rewrite elem_of_seqZ in Hs. lia. }
  assert (forall e, lo <= e -> d1 !! e = d !! e) as Hhigh.
  { intros e He. rewrite Hr. case_decide as Hs; [|done]. rewrite elem_of_seqZ in Hs. lia. }
  assert (forall v, in_effect d lo v <->
            d !! lo = Some v \/ (d !! lo = None /\ r = Some v)) as Heff.
  { intros v. rewrite Hl. split.
    - intros (e & He & Hv & Hn). destruct (decide (e = lo)) as [->|]; [by left|].
      right. split; [apply Hn; lia|]. left. exists e. split_and!; [|lia|done|intros; apply Hn; lia].
      destruct (decide (o <= e)); [done|]. rewrite Hd in Hv by lia. done.
    - intros [Hv|[Hn [(e & He & Hv & Hn')|[_ ?]]]]; [| |done].
      + exists lo. split_and!; [lia|done|lia].
      + exists e. split_and!; [lia|done|]. intros e' He'.
        destruct (decide (e' = lo)) as [->|]; [done|]. apply Hn'. lia. }
  assert (cut_at lo d d1 \/ exists v, r = Some v /\ d1 !! lo = None) as Hcase.
  { destruct r as [v|]; [destruct (d1 !! lo) as [w|] eqn:Hw; [|by right; exists v]|]; left;
      (split_and!; [done|intros; apply Hhigh; lia|]); intros v'; rewrite Hhigh by lia; rewrite Heff;
      try rewrite Hhigh in Hw by lia; naive_solver. }
  destruct r as [v|]; [destruct (d1 !! lo) as [w|] eqn:Hw|].
  - destruct Hcase as [?|(? & _ & ?)]; congruence.
  - split_and!.
    + intros e He. rewrite lookup_insert_ne by lia. auto.
    + intros e He. rewrite lookup_insert_ne by lia. apply Hhigh. lia.
    + intros v'. rewrite lookup_insert_eq, Heff. rewrite Hhigh in Hw by lia. naive_solver.
  - by destruct Hcase as [?|(? & ? & _)].
Qed.

Lemma update_data_trim c s o lo lu : last_update s = Some lu -> oldest_epoch s = Some o ->
  sub_past_epochs (E:=E) PastEpochs params c = Ok lo -> 0 <= o < lo -> lo <= U64_MAX ->
  exists o', update_data (E:=E) PastEpochs params c s
      = (mkEpoched (Some c) (Some o') (trimmed o lo (data s)), Ok tt) /\
    (o' = lo \/ o' = o /\ trimmed o lo (data s) = (remove_all (seqZ o (lo - o)) (data s) None).1).
Proof.
  intros Hlu Ho Hp Hlt Hmax. unfold update_data, trimmed.
  rewrite Hlu, Ho. unfold st_bind, st_lift. rewrite Hp, (proj2 (Z.ltb_lt o lo)) by lia.
  unfold epoch_sub, iter_range. rewrite u64_sub_ok by lia. rewrite u64_add_ok by lia. simpl.
  replace (o + (lo - o) - o) with (lo - o) by lia.
  destruct (remove_all (seqZ o (lo - o)) (data s) None) as [d [v|]]; simpl.
  - exists lo. destruct (d !! lo); simpl; eauto.
  - exists o. unfold set_last_update, set_data. simpl. rewrite Ho. eauto.
Qed.

Lemma update_data_inv M s c : epoched_inv M s -> 0 <= c <= U64_MAX ->
  (forall lu, last_update s = Some lu -> lu <= c) ->
  exists s', update_data (E:=E) PastEpochs params c s = (s', Ok tt) /\ epoched_inv M s' /\
    last_update s' = Some c.
Proof.
  unfold epoched_inv. intros Hinv Hc Hmono. destruct (last_update s) as [lu|] eqn:Hlu.
  2:{ destruct Hinv as (Ho & Hd & ->). exists (mkEpoched (Some c) (Some c) ∅). unfold update_data.
      rewrite Hlu. split; [unfold st_mod, touch, set_last_update; simpl; rewrite Ho, Hd; done|].
      simpl. split_and!; [lia| | |exists c; split_and!; [done|lia|lia|done]|done].
      - split_and!; [done|done|]. intros v. rewrite lookup_empty. split; [done|]. by intros ?%in_effect_empty.
      - intros e v. by rewrite lookup_empty. }
  destruct Hinv as (Hlu0 & Hcut & Hfut & o & Ho & Ho0 & Hold).
  specialize (Hmono _ eq_refl). pose proof (window_start_mono pv lu c Hmono) as Hw.
  pose proof (sub_past_ok c ltac:(lia)) as Hp.
  destruct (decide (o < window_start pv c)) as [Htrim|Hno].
  - destruct (update_data_trim c s o (window_start pv c) lu) as (o' & Hrun & Ho');
      [done|done|done|lia|unfold window_start; lia|].
    eexists. split; [exact Hrun|]. simpl. pose proof (trim_cut _ _ _ Htrim Hold) as Hcut'.
    split_and!; [lia|by eapply cut_later|intros e v He; apply Hfut in He; lia| |done].
    exists o'. split_and!; [done| | |].
    + destruct Ho' as [->|[-> _]]; unfold window_start in *; lia.
    + destruct Ho' as [->|[-> _]]; unfold window_start in *; lia.
    + intros e He. destruct Hcut' as (Hl & _ & _). apply Hl.
      destruct Ho' as [->|[-> _]]; lia.
  - exists (mkEpoched (Some c) (Some o) (data s)). unfold update_data.
    rewrite Hlu, Ho. unfold st_bind, st_lift. rewrite Hp, (proj2 (Z.ltb_ge o _)) by lia.
    unfold st_mod, touch, set_last_update. simpl. rewrite Ho. split; [done|].
    split_and!; [lia| |intros e v He; apply Hfut in He; lia|exists o; split_and!; [done|lia|lia|done]|done].
    eapply cut_later; [done|done|]. split_and!; [intros; apply Hold; lia|done|].
    intros v. split.
    + intros Hv. exists (window_start pv c). split_and!; [lia|done|lia].
    + intros (e & He & Hv & Hn). destruct (decide (e = window_start pv c)) as [->|]; [done|].
      rewrite Hold in Hv by lia. done.
Qed.

Lemma set_inv M s c off v : epoched_inv M s -> 0 <= c -> 0 <= off <= fv -> c + fv <= U64_MAX ->
  (forall lu, last_update s = Some lu -> lu <= c) ->
  exists s', set (E:=E) PastEpochs params v c off s = (s', Ok tt) /\
    epoched_inv (<[c + off := v]> M) s' /\ last_update s' = Some c.
Proof.
  intros Hinv Hc Hoff Hmax Hmono.
  destruct (update_data_inv M s c) as (s1 & Hrun & Hinv1 & Hlu); [done|lia|done|].
  exists (set_data (<[c + off := v]> (data s1)) s1). unfold set, st_bind. rewrite Hrun.
  unfold set_at_epoch, epoch_add. rewrite u64_add_ok by lia. split_and!; [done| |done].
  unfold epoched_inv in *. simpl. rewrite Hlu in *.
  destruct Hinv1 as (_ & Hcut & Hfut & o & Ho & Ho0 & Hold). split_and!; [done| | |].
  - apply cut_insert; [done|]. unfold window_start. lia.
  - intros e w. destruct (decide (e = c + off)) as [->|]; [intros _; lia|].
    rewrite lookup_insert_ne by done. eauto.
  - exists o. split_and!; [done|lia|lia|]. intros e He. rewrite lookup_insert_ne by lia. auto.
Qed.

Lemma get_loop_spec lu d n : 0 <= lu -> (forall e, e < window_start pv lu -> d !! e = None) ->
  exists r, get_loop (E:=E) PastEpochs params lu d n = Ok r /\
    forall v, r = Some v <-> in_effect d (Z.of_nat n) v.
Proof.
  intros Hlu Hlow. induction n as [|n IH]; cbn [get_loop].
  - change (Z.of_nat 0) with 0. destruct (d !! 0) as [w|] eqn:Hw; (eexists; split; [done|]); intros v; split.
    + intros [= ->]. exists 0. split_and!; [lia|done|lia].
    + intros (e & He & Hv & Hn). destruct (decide (e = 0)) as [->|]; [congruence|].
      rewrite Hlow in Hv; [done|]. unfold window_start. lia.
    + done.
    + intros (e & He & Hv & Hn). destruct (decide (e = 0)) as [->|]; [congruence|].
      rewrite Hlow in Hv; [done|]. unfold window_start. lia.
  - destruct (d !! Z.of_nat (S n)) as [w|] eqn:Hw.
    + eexists. split; [done|]. intros v. split.
      * intros [= ->]. exists (Z.of_nat (S n)). split_and!; [lia|done|lia].
      * intros (e & He & Hv & Hn). destruct (decide (e = Z.of_nat (S n))) as [->|]; [congruence|].
        rewrite Hn in Hw by lia. done.
    + rewrite sub_past_ok by lia. cbn [out_bind]. rewrite Z.gtb_ltb.
      destruct (Z.ltb_spec (window_start pv lu) (Z.of_nat (S n))) as [Hlt|Hge].
      * destruct IH as (r & -> & Hr). exists r. split; [done|]. intros v. rewrite Hr. split.
        -- intros (e & He & Hv & Hn). exists e. split_and!; [lia|done|]. intros e' He'.
           destruct (decide (e' = Z.of_nat (S n))) as [->|]; [done|]. apply Hn. lia.
        -- intros (e & He & Hv & Hn). destruct (decide (e = Z.of_nat (S n))) as [->|]; [congruence|].
           exists e. split_and!; [lia|done|]. intros e' He'. apply Hn. lia.
      * eexists. split; [done|]. intros v. split; [done|].
        intros (e & He & Hv & Hn). destruct (decide (e = Z.of_nat (S n))) as [->|]; [congruence|].
        rewrite Hlow in Hv by lia. done.
Qed.

Lemma get_inv M s lu ep : epoched_inv M s -> last_update s = Some lu -> lu + fv <= U64_MAX ->
  window_start pv lu <= ep ->
  exists r, get (E:=E) FutureEpochs PastEpochs s ep params = Ok r /\
    forall v, r = Some v <-> in_effect M ep v.
Proof.
  unfold epoched_inv. intros Hinv Hlu Hmax Hep. rewrite Hlu in Hinv.
  destruct Hinv as (Hlu0 & Hcut & Hfut & _). unfold get. rewrite Hlu, Hfv. simpl.
  unfold epoch_add. rewrite u64_add_ok by lia. simpl.
  destruct (get_loop_spec lu (data s) (Z.to_nat (Z.min ep (lu + fv)))) as (r & -> & Hr);
    [done|by destruct Hcut|].
  exists r. split; [done|]. intros v. rewrite Hr, Z2Nat.id by (unfold window_start in *; lia).
  rewrite (cut_in_effect _ _ _ _ _ Hcut) by (unfold window_start in *; lia).
  split; intros (e & He & Hv & Hn); exists e.
  - split_and!; [lia|done|]. intros e' He'. destruct (M !! e') eqn:Hm; [|done].
    apply Hfut in Hm as Hb. rewrite Hn in Hm by lia. done.
  - apply Hfut in Hv as Hb. split_and!; [lia|done|]. intros e' He'. apply Hn. lia.
Qed.

(** ** Handles updated out of order

    A handle may be updated with an epoch after the current one. What it
    promises for a fixed epoch [ep] is kept by every update before [ep] or at
    it. *)
Definition live_at (ep top : Z) s : Prop :=
  match last_update s with
  | None => oldest_epoch s = None /\ data s = ∅
  | Some lu =>
      0 <= lu <= ep /\ (forall e, e < window_start pv lu -> data s !! e = None) /\
      (forall e v, data s !! e = Some v -> e <= top /\ e <= lu + fv) /\
      exists o, oldest_epoch s = Some o /\ 0 <= o <= ep /\ forall e, e < o -> data s !! e = None
  end.

Lemma in_effect_set M e x y : in_effect (<[e := x]> M) e y <-> y = x.
Proof.
  split.
  - intros (e' & He & Hy & Hn). destruct (decide (e' = e)) as [->|]; [rewrite lookup_insert_eq in Hy; congruence|].
    specialize (Hn e ltac:(lia)). by rewrite lookup_insert_eq in Hn.
  - intros ->. exists e. split_and!; [lia|apply lookup_insert_eq|lia].
Qed.

Lemma update_data_live ep top s c : live_at ep top s -> 0 <= c <= ep -> ep <= top -> top <= c + fv ->
  ep <= U64_MAX ->
  exists s', update_data (E:=E) PastEpochs params c s = (s', Ok tt) /\ live_at ep top s' /\
    last_update s' = Some c /\ (forall v, in_effect (data s') ep v <-> in_effect (data s) ep v) /\
    (forall o, oldest_epoch s' = Some o -> o <= ep).
Proof.
  intros Hlive Hc Htop Hfut Hmax. unfold live_at in *. unfold update_data.
  destruct (last_update s) as [lu|] eqn:Hlu.
  2:{ destruct Hlive as (Ho & Hd). exists (mkEpoched (Some c) (Some c) ∅).
      unfold st_mod, touch, set_last_update; simpl. rewrite Ho, Hd. split_and!; try done; try lia.
      - exists c. split_and!; [done|lia|lia|done].
      - intros o [= <-]. lia. }
  destruct Hlive as (Hlu0 & Hlow & Htp & o & Ho & Ho0 & Hold). rewrite Ho.
  pose proof (sub_past_ok c ltac:(lia)) as Hp. set (lo := window_start pv c) in *.
  assert (lo <= c) by (unfold lo, window_start; lia).
  unfold st_bind, st_lift. rewrite Hp. destruct (Z.ltb_spec o lo) as [Htrim|Hno].
  - destruct (update_data_trim c s o lo lu) as (o' & Hrun & Ho'); [done|done|done|lia|lia|].
    unfold update_data in Hrun. rewrite Hlu, Ho in Hrun. unfold st_bind, st_lift in Hrun.
    rewrite Hp, (proj2 (Z.ltb_lt o lo)) in Hrun by done. eexists. split; [exact Hrun|]. simpl.
    pose proof (trim_cut _ _ _ Htrim Hold) as Hcut. split_and!; try done; try lia.
    + apply Hcut.
    + intros e v He. destruct Hcut as (Hl & Hh & Hm). destruct (decide (e = lo)) as [->|]; [lia|].
      destruct (decide (e < lo)); [by rewrite Hl in He|]. rewrite Hh in He by lia. apply Htp in He. lia.
    + exists o'. split_and!; [done| | |].
      * destruct Ho' as [->|[-> _]]; lia.
      * destruct Ho' as [->|[-> _]]; lia.
      * intros e He. destruct Hcut as (Hl & _ & _). apply Hl. destruct Ho' as [->|[-> _]]; lia.
    + intros v. eapply cut_in_effect; [exact Hcut|lia].
    + intros ? [= <-]. destruct Ho' as [->|[-> _]]; lia.
  - eexists. split; [done|]. unfold touch, set_last_update. simpl. rewrite Ho. simpl.
    split_and!; try done; try lia.
    + intros e He. apply Hold. lia.
    + intros e v He. apply Htp in He. lia.
    + exists o. split_and!; [done|lia|lia|done].
    + intros ? [= <-]. lia.
Qed.

Lemma set_live ep top s c off v : live_at ep top s -> 0 <= c -> 0 <= off -> ep = c + off -> ep <= top ->
  top <= c + fv -> ep <= U64_MAX ->
  exists s', set (E:=E) PastEpochs params v c off s = (s', Ok tt) /\ live_at ep top s' /\
    (forall x, in_effect (data s') ep x <-> x = v) /\ last_update s' = Some c.
Proof.
  intros Hlive Hc Hoff -> Htop Hfut Hmax.
  destruct (update_data_live (c + off) top s c) as (s1 & Hrun & Hlive1 & Hlu & _ & Hoep); [done|lia|done|done|done|].
  exists (set_data (<[c + off := v]> (data s1)) s1). unfold set, st_bind. rewrite Hrun.
  unfold set_at_epoch, epoch_add. rewrite u64_add_ok by lia. split_and!; [done| |by apply in_effect_set|done].
  unfold live_at in *. simpl. rewrite Hlu in *. destruct Hlive1 as (Hlu0 & Hlow & Htp & o & Ho & Ho0 & Hold).
  split_and!; try lia.
  - intros e He. rewrite lookup_insert_ne; [auto|unfold window_start in *; lia].
  - intros e x [[<- _]|[_ He]]%lookup_insert_Some; [lia|eauto].
  - exists o. split_and!; [done|lia|lia|]. intros e He. rewrite lookup_insert_ne by lia. auto.
Qed.

Lemma get_live ep top s : live_at ep top s -> 0 <= ep -> ep + fv <= U64_MAX ->
  exists r, get (E:=E) FutureEpochs PastEpochs s ep params = Ok r /\
    forall v, r = Some v <-> in_effect (data s) ep v.
Proof.
  unfold live_at, get. intros Hlive Hep Hmax. destruct (last_update s) as [lu|].
  2:{ destruct Hlive as (_ & ->). exists None. split; [done|]. intros v. split; [done|].
      by intros ?%in_effect_empty. }
  destruct Hlive as (Hlu0 & Hlow & Htp & _). rewrite Hfv. cbn [out_bind].
  unfold epoch_add. rewrite u64_add_ok by lia. cbn [out_bind].
  destruct (get_loop_spec lu (data s) (Z.to_nat (Z.min ep (lu + fv)))) as (r & Hr & Hspec); [lia|done|].
  exists r. split; [done|]. intros v. rewrite Hspec, Z2Nat.id by lia.
  split; intros (e & He & Hv & Hn); exists e.
  - split_and!; [lia|done|]. intros e' He'. destruct (data s !! e') eqn:Hm; [|done].
    apply Htp in Hm as Hb. rewrite Hn in Hm by lia. done.
  - apply Htp in Hv as Hb. split_and!; [lia|done|]. intros e' He'. apply Hn. lia.
Qed.

Lemma get_live_total ep top s e : live_at ep top s -> ep + fv <= U64_MAX ->
  exists r, get (E:=E) FutureEpochs PastEpochs s e params = Ok r.
Proof.
  unfold live_at, get. intros Hlive Hmax. destruct (last_update s) as [lu|]; [|eauto].
  destruct Hlive as (Hlu0 & Hlow & _). rewrite Hfv. cbn [out_bind].
  unfold epoch_add. rewrite u64_add_ok by lia. cbn [out_bind].
  destruct (get_loop_spec lu (data s) (Z.to_nat (Z.min e (lu + fv)))) as (r & Hr & _); [lia|done|eauto].
Qed.

(** Nothing is known of the epochs before the window. *)
Lemma get_before_window ep top s lu e : live_at ep top s -> last_update s = Some lu -> lu + fv <= U64_MAX ->
  0 <= e < window_start pv lu -> get (E:=E) FutureEpochs PastEpochs s e params = Ok None.
Proof.
  unfold live_at, get. intros Hlive Hlu Hmax He. rewrite Hlu in *. destruct Hlive as (Hlu0 & Hlow & _).
  rewrite Hfv. cbn [out_bind]. unfold epoch_add. rewrite u64_add_ok by lia. cbn [out_bind].
  rewrite Z.min_l by (unfold window_start in *; lia).
  destruct (get_loop_spec lu (data s) (Z.to_nat e)) as (r & -> & Hr); [lia|done|]. f_equal.
  destruct r as [v|]; [|done]. destruct (proj1 (Hr v) eq_refl) as (e' & He' & Hv & _).
  rewrite Z2Nat.id in He' by lia. rewrite Hlow in Hv by lia. done.
Qed.

(** The timeline of a list of updates *)
Definition timeline (l : list (Z * Z * D)) : gmap Z D :=
  foldl (fun M u => <[u.1.1 + u.1.2 := u.2]> M) ∅ l.

Lemma set_run_inv l : forall M s lu, epoched_inv M s ->
  (forall lu', last_update s = Some lu' -> lu' <= lu) -> 0 <= lu -> in_order fv lu l -> l <> [] ->
  exists s', st_iter (fun u => set (E:=E) PastEpochs params u.2 u.1.1 u.1.2) l s = (s', Ok tt) /\
    epoched_inv (foldl (fun M u => <[u.1.1 + u.1.2 := u.2]> M) M l) s' /\
    last_update s' = Some (last_epoch lu l) /\ 0 <= last_epoch lu l /\ last_epoch lu l + fv <= U64_MAX.
Proof.
  induction l as [|[[c off] v] l IH]; intros M s lu Hinv Hs Hlu Hl Hne; [done|].
  cbn [in_order st_iter foldl last_epoch fst snd] in *. destruct Hl as (Hc & Hoff & Hmax & Hl).
  destruct (set_inv M s c off v) as (s1 & Hrun & Hinv1 & Hlu1);
    [done|lia|done|done|intros lu' Hlu'; specialize (Hs _ Hlu'); lia|].
  unfold st_bind at 1. rewrite Hrun. destruct l as [|u l].
  - exists s1. cbn. split_and!; [done|done|done|lia|lia].
  - apply (IH _ s1 c); [done| |lia|done|done]. rewrite Hlu1. intros ? [= ->]. lia.
Qed.
End discrete_refinement.

(** C31. A discrete epoched handle that trims its history answers like one that
    never forgets: after any run of updates in the order of their epochs,
    with offsets in the future window, every update succeeds and [get] at any
    epoch of the kept window, however far in the future, returns the latest
    value set at or before that epoch. *)
Theorem epoched_get_refines {E D} (FutureEpochs PastEpochs : EpochOffset) (params : PosParams)
    (fv pv : Z) (updates : list (Z * Z * D)) :
  (forall E, offset_value (E:=E) PastEpochs params = Ok pv) -> 0 <= pv ->
  (forall E, offset_value (E:=E) FutureEpochs params = Ok fv) -> 0 <= fv ->
  in_order fv 0 updates -> updates <> [] ->
  exists s, st_iter (fun u => set (E:=E) PastEpochs params u.2 u.1.1 u.1.2) updates empty_epoched
            = (s, Ok tt) /\
    forall ep, window_start pv (last_epoch 0 updates) <= ep ->
      exists r, get (E:=E) FutureEpochs PastEpochs s ep params = Ok r /\
        forall v, r = Some v <-> in_effect (timeline updates) ep v.
Proof.
  intros Hpv Hpv0 Hfv Hfv0 Hl Hne.
  destruct (set_run_inv (E:=E) FutureEpochs PastEpochs params fv pv Hpv Hpv0 Hfv Hfv0 updates ∅ empty_epoched 0)
    as (s & Hrun & Hinv & Hlu & H0 & Hmax); [done|done|lia|done|done|].
  exists s. split; [done|]. intros ep Hep.
  by apply (get_inv FutureEpochs PastEpochs params fv pv Hpv Hpv0 Hfv Hfv0 _ s (last_epoch 0 updates)).
Qed.

(** Parameters with a pipeline of two epochs *)
Definition sample_params : PosParams := mkPosParams
  (mkOwned 100 2 21 (10 ^ 12) 0 0 0 0 (10 ^ 9) (10 ^ 9) 1 1000000 10000 0 0 0) 27.

Lemma epoched_get_refines_witness :
  exists s, st_iter (fun u => set (E:=unit) OffsetDefaultNumPastEpochs sample_params u.2 u.1.1 u.1.2)
      [(0, 2, 10); (1, 2, 20); (6, 1, 30)] empty_epoched = (s, Ok tt) /\
    forall ep, 4 <= ep ->
      exists r, get (E:=unit) OffsetPipelineLen OffsetDefaultNumPastEpochs s ep sample_params = Ok r /\
        forall v, r = Some v <-> in_effect (timeline [(0, 2, 10); (1, 2, 20); (6, 1, 30)]) ep v.
Proof.
  apply (epoched_get_refines OffsetPipelineLen OffsetDefaultNumPastEpochs sample_params 2 2
           [(0, 2, 10); (1, 2, 20); (6, 1, 30)]); [done|lia|done|lia| |done].
  cbn [in_order]. unfold U64_MAX. lia.
Defined.

(** ** Deltas

    The laws of the data of a delta handle: a value, and an addition that is
    exact while the magnitudes fit. *)
Class DeltaLaws {D} (HD : Delta D) : Type := {
  dval : D -> Z;
  dwf : D -> Prop;
  dmax : Z;
  dzero_law : dwf delta_zero /\ dval delta_zero = 0;
  dadd_law : forall E a b, dwf a -> dwf b -> Z.abs (dval a) + Z.abs (dval b) <= dmax ->
    exists c, delta_add (E:=E) a b = Ok c /\ dwf c /\ dval c = dval a + dval b
}.

(** [token::Amount] and [token::Change] as deltas *)
Definition amount_delta `{UintOps} : Delta Z :=
  {| delta_zero := 0; delta_add E := amount_add (E:=E) |}.
Definition change_delta `{UintOps} : Delta Z :=
  {| delta_zero := 0; delta_add E := i256_add (E:=E) |}.

Definition amount_delta_laws `{U : UintOps} {HU : UintLaws U} : DeltaLaws amount_delta.
Proof.
  refine {| dval := fun a : Z => a; dwf := in_u256; dmax := MAX_VALUE |}.
  - abstract (split; [apply (u8_u256 0); lia|done]).
  - abstract (intros E a b Ha Hb Hs; exists (a + b); simpl; unfold amount_add; unfold in_u256 in *;
      split_and!; [apply uint_add_ok; unfold in_u256; lia|lia|lia|done]).
Defined.

Definition change_delta_laws `{U : UintOps} {HU : UintLaws U} : DeltaLaws change_delta.
Proof.
  refine {| dval := sval; dwf := i256_wf; dmax := MAX_SIGNED_VALUE |}.
  - abstract (split; [|done]; split; [apply (u8_u256 0); lia|done]).
  - abstract (intros E a b Ha Hb Hs;
      assert (in_i256 (sval a + sval b)) as Hr by (unfold in_i256; lia);
      exists (srep (sval a + sval b)); simpl;
      split_and!; [by apply i256_add_ok|by apply srep_wf|by apply sval_srep]).
Defined.

Section delta_refinement.
Context {E D : Type} {HD : Delta D} (HL : DeltaLaws HD).
Context (FutureEpochs PastEpochs : EpochOffset) (params : PosParams) (fv pv : Z).
Context (Hpv : forall E, offset_value (E:=E) PastEpochs params = Ok pv) (Hpv0 : 0 <= pv).
Context (Hfv : forall E, offset_value (E:=E) FutureEpochs params = Ok fv) (Hfv0 : 0 <= fv).
Implicit Types (d : gmap Z D) (s : epoched D).

(** The sum of the deltas up to an epoch, and of their magnitudes *)
Definition upto (ep e : Z) (x : D) : Z := if e <=? ep then dval x else 0.
Definition total_upto d (ep : Z) : Z := msum (upto ep) d.
Definition magnitude d : Z := msum (fun _ x => Z.abs (dval x)) d.
Definition oval (o : option D) : Z := from_option dval 0 o.
Definition data_wf d : Prop := forall e x, d !! e = Some x -> dwf x.

Lemma magnitude_nonneg d : 0 <= magnitude d.
Proof. apply msum_nonneg. intros. lia. Qed.

Lemma magnitude_delete d e : magnitude (delete e d) = magnitude d - Z.abs (oval (d !! e)).
Proof.
  unfold magnitude. rewrite msum_delete. unfold mterm, oval. destruct (d !! e); simpl; lia.
Qed.

Lemma total_delete d e ep : e <= ep -> total_upto (delete e d) ep = total_upto d ep - oval (d !! e).
Proof.
  intros He. unfold total_upto. rewrite msum_delete. unfold mterm, oval, upto.
  destruct (d !! e); simpl; [|lia]. by rewrite (proj2 (Z.leb_le e ep)).
Qed.

Lemma total_insert d e x ep :
  total_upto (<[e := x]> d) ep =
    total_upto d ep + (if e <=? ep then dval x - oval (d !! e) else 0).
Proof.
  unfold total_upto. rewrite msum_insert. unfold mterm, oval, upto.
  destruct (d !! e); simpl; destruct (e <=? ep); lia.
Qed.

Lemma magnitude_insert d e x :
  magnitude (<[e := x]> d) = magnitude d - Z.abs (oval (d !! e)) + Z.abs (dval x).
Proof.
  unfold magnitude. rewrite msum_insert. unfold mterm, oval. destruct (d !! e); simpl; lia.
Qed.

Lemma total_none d ep : (forall e, e <= ep -> d !! e = None) -> total_upto d ep = 0.
Proof.
  intros Hd. apply msum_zero. intros e x He. unfold upto.
  destruct (Z.leb_spec e ep); [|done]. by rewrite Hd in He.
Qed.

Lemma data_wf_delete d e : data_wf d -> data_wf (delete e d).
Proof. intros Hd e' x [_ He]%lookup_delete_Some. eauto. Qed.

Lemma data_wf_insert d e x : data_wf d -> dwf x -> data_wf (<[e := x]> d).
Proof. intros Hd Hx e' y [[_ <-]|[_ He]]%lookup_insert_Some; eauto. Qed.

(** The loop of [update_data] moves the removed deltas into the sum. *)
Lemma remove_sum_spec epochs : forall d sum, data_wf d -> (forall x, sum = Some x -> dwf x) ->
  magnitude d + Z.abs (oval sum) <= dmax ->
  exists d' r, remove_sum (E:=E) epochs d sum = Ok (d', r) /\ data_wf d' /\
    (forall x, r = Some x -> dwf x) /\
    magnitude d' + Z.abs (oval r) <= magnitude d + Z.abs (oval sum) /\
    (forall e, d' !! e = if decide (e ∈ epochs) then None else d !! e) /\
    forall ep, (forall e, e ∈ epochs -> e <= ep) ->
      total_upto d' ep + oval r = total_upto d ep + oval sum.
Proof.
  induction epochs as [|x epochs IH]; intros d sum Hd Hsum Hmag; cbn [remove_sum].
  { exists d, sum. split_and!; done || lia. }
  assert (exists sum', match d !! x with Some removed => add_opt (E:=E) sum removed | None => Ok sum end
            = Ok sum' /\ (forall y, sum' = Some y -> dwf y) /\
            oval sum' = oval sum + oval (d !! x)) as (sum' & -> & Hsum' & Hval).
  { destruct (d !! x) as [y|] eqn:Hx; [|exists sum; split_and!; [done|done|simpl; lia]].
    pose proof (magnitude_delete d x) as Hm. pose proof (magnitude_nonneg (delete x d)).
    rewrite Hx in Hm. simpl in Hm. destruct sum as [z|]; simpl in *.
    - destruct (dadd_law E z y) as (c & -> & Hc & Hv); [eauto|eauto|lia|].
      exists (Some c). split_and!; [done|by intros ? [= <-]|done].
    - exists (Some y). split_and!; [done|intros ? [= <-]; eauto|done]. }
  cbn [out_bind]. pose proof (magnitude_delete d x) as Hm.
  destruct (IH (delete x d) sum') as (d' & r & -> & Hd' & Hr & Hmag' & Hlk & Htot);
    [by apply data_wf_delete|done|lia|].
  exists d', r. split_and!; [done|done|done|lia| |].
  - intros e. rewrite Hlk. destruct (decide (e = x)) as [->|Hne].
    + rewrite lookup_delete_eq, (decide_True (P := x ∈ x :: epochs)) by set_solver. by case_decide.
    + rewrite lookup_delete_ne by done. by do 2 case_decide; set_solver.
  - intros ep Hep. rewrite Htot by set_solver. rewrite total_delete by set_solver. lia.
Qed.

(** The loop of [get_sum] computes the same sum without removing. *)
Lemma sum_fold_remove epochs : forall d sum, NoDup epochs ->
  out_fold (fun sum ep => match d !! ep with Some delta => add_opt (E:=E) sum delta | None => Ok sum end)
    epochs sum = (let* r := remove_sum (E:=E) epochs d sum in Ok r.2)%out.
Proof.
  induction epochs as [|x epochs IH]; intros d sum Hnd; [done|].
  apply NoDup_cons in Hnd as [Hx Hnd]. cbn [out_fold remove_sum].
  destruct (match d !! x with Some removed => _ | None => _ end) as [sum'|e|]; cbn [out_bind]; [|done|done].
  rewrite <- IH by done. clear IH. revert sum'.
  induction epochs as [|y epochs IH]; intros sum'; [done|]. cbn [out_fold].
  apply not_elem_of_cons in Hx as [Hxy Hx]. apply NoDup_cons in Hnd as [_ Hnd].
  rewrite lookup_delete_ne by done.
  destruct (match d !! y with Some _ => _ | None => _ end); cbn [out_bind]; [|done|done].
  by apply IH.
Qed.

(** The invariant of a delta handle: its sums in the window are [F], its
    magnitudes are bounded by [B]. *)
Definition delta_inv (F : Z -> Z) (B : Z) s : Prop :=
  data_wf (data s) /\ magnitude (data s) <= B /\
  match last_update s with
  | None => oldest_epoch s = None /\ data s = ∅ /\ forall ep, F ep = 0
  | Some lu =>
      0 <= lu /\ (forall e, e < window_start pv lu -> data s !! e = None) /\
      (forall e x, data s !! e = Some x -> e <= lu + fv) /\
      (forall ep, window_start pv lu <= ep -> total_upto (data s) ep = F ep) /\
      exists o, oldest_epoch s = Some o /\ 0 <= o <= lu /\ forall e, e < o -> data s !! e = None
  end.

(** The data after trimming *)
Lemma delta_trim o lo d : data_wf d -> magnitude d <= dmax -> o < lo ->
  (forall e, e < o -> d !! e = None) ->
  exists d1 r, remove_sum (E:=E) (seqZ o (lo - o)) d None = Ok (d1, r) /\
    (forall e, e < lo -> d1 !! e = None) /\ (forall e, lo <= e -> d1 !! e = d !! e) /\
    match r with
    | None => data_wf d1 /\ magnitude d1 <= magnitude d /\
        forall ep, lo <= ep -> total_upto d1 ep = total_upto d ep
    | Some sum => exists nd,
        match d1 !! lo with Some x => delta_add (E:=E) x sum | None => Ok sum end = Ok nd /\
        data_wf (<[lo := nd]> d1) /\ magnitude (<[lo := nd]> d1) <= magnitude d /\
        forall ep, lo <= ep -> total_upto (<[lo := nd]> d1) ep = total_upto d ep
    end.
Proof.
  intros Hd Hmag Ho Hold.
  destruct (remove_sum_spec (seqZ o (lo - o)) d None) as (d1 & r & Hrun & Hd1 & Hr & Hmag1 & Hlk & Htot);
    [done|done|simpl; lia|].
  exists d1, r. split_and!; [done| | |].
  - intros e He. rewrite Hlk. case_decide as Hs; [done|]. apply Hold. rewrite elem_of_seqZ in Hs. lia.
  - intros e He. rewrite Hlk. case_decide as Hs; [|done]. rewrite elem_of_seqZ in Hs. lia.
  - assert (forall ep, lo <= ep -> total_upto d1 ep + oval r = total_upto d ep) as Ht.
    { intros ep Hep. rewrite Htot; [simpl; lia|]. intros e. rewrite elem_of_seqZ. lia. }
    pose proof (magnitude_delete d1 lo) as Hml. pose proof (magnitude_nonneg (delete lo d1)).
    destruct r as [sum|]; simpl in *.
    + destruct (d1 !! lo) as [x|] eqn:Hx; simpl in *.
      * destruct (dadd_law E x sum) as (c & Hc & Hwc & Hvc); [eauto|eauto|lia|].
        exists c. split_and!; [done|apply data_wf_insert; eauto| |].
        -- rewrite magnitude_insert, Hx. simpl. lia.
        -- intros ep Hep. rewrite total_insert, Hx, (proj2 (Z.leb_le lo ep)) by lia.
           simpl. rewrite <- Ht by done. lia.
      * exists sum. split_and!; [done|apply data_wf_insert; eauto| |].
        -- rewrite magnitude_insert, Hx. simpl. lia.
        -- intros ep Hep. rewrite total_insert, Hx, (proj2 (Z.leb_le lo ep)) by lia.
           simpl. rewrite <- Ht by done. lia.
    + split_and!; [done|lia|]. intros ep Hep. rewrite <- Ht by done. lia.
Qed.

Lemma delta_update_inv F B s c : B <= dmax -> delta_inv F B s -> 0 <= c <= U64_MAX ->
  (forall lu, last_update s = Some lu -> lu <= c) ->
  exists s', delta_update_data (E:=E) PastEpochs params c s = (s', Ok tt) /\ delta_inv F B s' /\
    last_update s' = Some c /\ (0 < pv -> forall e, c <= e -> data s' !! e = data s !! e).
Proof.
  intros HB (Hd & Hmag & Hinv) Hc Hmono. unfold delta_update_data.
  destruct (last_update s) as [lu|] eqn:Hlu.
  2:{ destruct Hinv as (Ho & Hd0 & HF). exists (mkEpoched (Some c) (Some c) ∅).
      split; [unfold st_mod, touch, set_last_update; simpl; rewrite Ho, Hd0; done|].
      split; [|split; [done|by rewrite Hd0]]. rewrite Hd0 in *. split_and!; [done|done|]. simpl.
      split_and!; [lia|done|intros e x; by rewrite lookup_empty| |exists c; split_and!; [done|lia|lia|done]].
      intros ep _. rewrite HF. apply total_none. intros. apply lookup_empty. }
  destruct Hinv as (Hlu0 & Hlow & Hfut & HF & o & Ho & Ho0 & Hold). rewrite Ho.
  specialize (Hmono _ eq_refl). pose proof (window_start_mono pv lu c Hmono) as Hw.
  pose proof (sub_past_ok (E:=E) PastEpochs params pv Hpv c ltac:(lia)) as Hp.
  unfold st_bind, st_lift. rewrite Hp. destruct (Z.ltb_spec o (window_start pv c)) as [Htrim|Hno].
  - assert (window_start pv c <= c) by (unfold window_start; lia).
    unfold epoch_sub, iter_range. rewrite u64_sub_ok, u64_add_ok by lia. cbn [out_bind].
    replace (o + (window_start pv c - o) - o) with (window_start pv c - o) by lia.
    destruct (delta_trim o (window_start pv c) (data s)) as (d1 & r & -> & Hl1 & Hh1 & Hr);
      [done|lia|done|done|].
    assert (forall e x, d1 !! e = Some x -> e <= c + fv) as Hfut1.
    { intros e x He. destruct (decide (e < window_start pv c)); [by rewrite Hl1 in He|].
      rewrite Hh1 in He by lia. apply Hfut in He. lia. }
    destruct r as [sum|]; cbn.
    + destruct Hr as (nd & -> & Hwf & Hm & Ht). cbn. eexists. split; [done|]. split.
      2:{ split; [done|]. intros Hpos e He. cbn. unfold window_start in *.
          rewrite lookup_insert_ne by lia. apply Hh1. lia. }
      split_and!; [done|cbn; lia|]. cbn. split_and!.
      * lia.
      * intros e He. rewrite lookup_insert_ne by lia. auto.
      * intros e x [[<- _]|[_ He]]%lookup_insert_Some; [lia|eauto].
      * intros ep Hep. rewrite Ht, HF by lia. done.
      * eexists. split_and!; [done|lia|lia|]. intros e He. rewrite lookup_insert_ne by lia. auto.
    + destruct Hr as (Hwf & Hm & Ht). eexists. split; [done|]. split.
      2:{ split; [done|]. intros Hpos e He. cbn. apply Hh1. lia. }
      split_and!; [done|cbn; lia|]. cbn. rewrite Ho. split_and!; [lia|done|done| |].
      * intros ep Hep. rewrite Ht, HF by lia. done.
      * exists o. split_and!; [done|lia|lia|]. intros e He. apply Hl1. lia.
  - eexists. split; [done|]. unfold touch. cbn. rewrite Ho. split; [|done].
    split_and!; [done|done|]. cbn. split_and!; [lia|intros; apply Hold; lia| | |].
    + intros e x He. apply Hfut in He. lia.
    + intros ep Hep. apply HF. lia.
    + exists o. split_and!; [done|lia|lia|done].
Qed.

Lemma delta_add_inv F B s c off v : B + Z.abs (dval v) <= dmax -> dwf v -> delta_inv F B s ->
  0 <= c -> 0 <= off <= fv -> c + fv <= U64_MAX -> (forall lu, last_update s = Some lu -> lu <= c) ->
  exists s', delta_add_value (E:=E) PastEpochs params v c off s = (s', Ok tt) /\
    delta_inv (fun ep => F ep + if c + off <=? ep then dval v else 0) (B + Z.abs (dval v)) s' /\
    last_update s' = Some c.
Proof.
  intros HB Hv Hinv Hc Hoff Hmax Hmono.
  destruct (delta_update_inv F B s c) as (s1 & Hrun & (Hd & Hmag & Hinv1) & Hlu & Hkeep); [lia|done|lia|done|].
  unfold delta_add_value, st_bind. rewrite Hrun. unfold st_lift, epoch_add. rewrite u64_add_ok by lia.
  unfold st_get, get_delta_val. rewrite Hlu in Hinv1.
  assert (dwf (default delta_zero (data s1 !! (c + off))) /\
    dval (default delta_zero (data s1 !! (c + off))) = oval (data s1 !! (c + off))) as [Hwc Hvc].
  { destruct (data s1 !! (c + off)) eqn:Hx; [split; [by eapply Hd|done]|apply dzero_law]. }
  pose proof (magnitude_delete (data s1) (c + off)). pose proof (magnitude_nonneg (delete (c + off) (data s1))).
  destruct (dadd_law E (default delta_zero (data s1 !! (c + off))) v) as (x & -> & Hwx & Hvx);
    [done|done|lia|].
  unfold set_at_epoch, epoch_add. rewrite u64_add_ok by lia. eexists. split; [done|]. split; [|done].
  destruct Hinv1 as (_ & Hlow & Hfut & HF & o & Ho & Ho0 & Hold).
  assert (window_start pv c <= c) by (unfold window_start; lia).
  split_and!; [by apply data_wf_insert|cbn; rewrite magnitude_insert; lia|]. cbn. rewrite Hlu.
  split_and!.
  - done.
  - intros e He. rewrite lookup_insert_ne by lia. auto.
  - intros e y [[<- _]|[_ He]]%lookup_insert_Some; [lia|eauto].
  - intros ep Hep. rewrite total_insert, HF by done. destruct (c + off <=? ep); lia.
  - exists o. split_and!; [done|lia|lia|]. intros e He. rewrite lookup_insert_ne by lia. auto.
Qed.

(** Setting the sum of the entry read before the update is an addition. *)
Lemma delta_set_inv F B s c off v x : 0 < pv -> B + Z.abs (dval v) <= dmax -> dwf v -> delta_inv F B s ->
  0 <= c -> 0 <= off <= fv -> c + fv <= U64_MAX -> (forall lu, last_update s = Some lu -> lu <= c) ->
  delta_add (E:=E) (default delta_zero (data s !! (c + off))) v = Ok x ->
  exists s', delta_set (E:=E) PastEpochs params x c off s = (s', Ok tt) /\
    delta_inv (fun ep => F ep + if c + off <=? ep then dval v else 0) (B + Z.abs (dval v)) s' /\
    last_update s' = Some c.
Proof.
  intros Hpos HB Hv Hinv Hc Hoff Hmax Hmono Hx.
  destruct (delta_update_inv F B s c) as (s1 & Hrun & _ & _ & Hkeep); [lia|done|lia|done|].
  destruct (delta_add_inv F B s c off v) as (s2 & Hadd & Hrest); try done.
  exists s2. split; [|done]. revert Hadd. unfold delta_add_value, delta_set, st_bind.
  rewrite Hrun. unfold st_lift, epoch_add. rewrite u64_add_ok by lia. unfold st_get, get_delta_val.
  by rewrite Hkeep, Hx by lia.
Qed.

Lemma get_sum_inv F B s lu ep : B <= dmax -> delta_inv F B s -> last_update s = Some lu ->
  lu + fv <= U64_MAX -> window_start pv lu <= ep ->
  exists r, get_sum (E:=E) FutureEpochs PastEpochs s ep params = Ok r /\ oval r = F ep /\
    forall x, r = Some x -> dwf x.
Proof.
  intros HB (Hd & Hmag & Hinv) Hlu Hmax Hep. rewrite Hlu in Hinv.
  destruct Hinv as (Hlu0 & Hlow & Hfut & HF & _). unfold get_sum.
  rewrite Hlu, (sub_past_ok PastEpochs params pv Hpv) by done. cbn [out_bind]. rewrite Hfv. cbn [out_bind].
  unfold epoch_add. rewrite u64_add_ok by lia. cbn [out_bind].
  set (m := Z.min ep (lu + fv)). set (l := iter_bounds_inclusive (window_start pv lu) m).
  assert (window_start pv lu <= lu) by (unfold window_start; lia).
  destruct (remove_sum_spec l (data s) None) as (d' & r & Hrun & _ & Hr & _ & Hlk & Htot);
    [done|done|simpl; lia|].
  rewrite sum_fold_remove by apply NoDup_seqZ. rewrite Hrun. exists r. split; [done|]. split; [|done].
  assert (total_upto d' ep = 0) as Hz.
  { apply total_none. intros e He. rewrite Hlk. case_decide as Hin; [done|].
    unfold l in Hin. rewrite elem_of_bounds in Hin.
    destruct (decide (e < window_start pv lu)); [by apply Hlow|].
    destruct (data s !! e) eqn:Hx; [|done]. apply Hfut in Hx. lia. }
  specialize (Htot ep). rewrite Hz, HF in Htot by lia. simpl in Htot.
  rewrite Z.add_0_r in Htot. apply Htot. intros e. unfold l. rewrite elem_of_bounds. lia.
Qed.

Lemma delta_inv_ext F F' B B' s : (forall ep, F ep = F' ep) -> B = B' ->
  delta_inv F B s -> delta_inv F' B' s.
Proof.
  intros HF <- (Hd & Hm & Hinv). split_and!; [done|done|]. destruct (last_update s).
  - destruct Hinv as (? & ? & ? & Ht & ?). split_and!; try done. intros ep Hep. by rewrite <- HF, Ht.
  - destruct Hinv as (? & ? & Hz). split_and!; try done. intros ep. by rewrite <- HF.
Qed.

(** The sum of the deltas added at or before an epoch *)
Definition added_upto (l : list (Z * Z * D)) (ep : Z) : Z :=
  sumZ ((fun u => if u.1.1 + u.1.2 <=? ep then dval u.2 else 0) <$> l).
Definition added_magnitude (l : list (Z * Z * D)) : Z := sumZ ((fun u => Z.abs (dval u.2)) <$> l).

Lemma added_upto_cons u l ep :
  added_upto (u :: l) ep = (if u.1.1 + u.1.2 <=? ep then dval u.2 else 0) + added_upto l ep.
Proof. done. Qed.

Lemma added_magnitude_cons u l : added_magnitude (u :: l) = Z.abs (dval u.2) + added_magnitude l.
Proof. done. Qed.

Lemma added_magnitude_nonneg l : 0 <= added_magnitude l.
Proof. apply sumZ_nonneg, Forall_fmap, List.Forall_forall. intros. simpl. lia. Qed.

Lemma delta_run_inv l : forall F B s lu, delta_inv F B s -> B + added_magnitude l <= dmax ->
  Forall (fun u => dwf u.2) l -> (forall lu', last_update s = Some lu' -> lu' <= lu) -> 0 <= lu ->
  in_order fv lu l -> l <> [] ->
  exists s', st_iter (fun u => delta_add_value (E:=E) PastEpochs params u.2 u.1.1 u.1.2) l s = (s', Ok tt) /\
    delta_inv (fun ep => F ep + added_upto l ep) (B + added_magnitude l) s' /\
    last_update s' = Some (last_epoch lu l) /\ 0 <= last_epoch lu l /\ last_epoch lu l + fv <= U64_MAX.
Proof.
  induction l as [|[[c off] v] l IH]; intros F B s lu Hinv HB Hw Hs Hlu Hl Hne; [done|].
  rewrite added_magnitude_cons in *.
  cbn [in_order st_iter last_epoch fst snd] in *. destruct Hl as (Hc & Hoff & Hmax & Hl).
  inversion Hw as [|? ? Hv Hw' Heq]; subst. pose proof (added_magnitude_nonneg l) as Hnn.
  cbn [fst snd] in *.
  destruct (delta_add_inv F B s c off v) as (s1 & Hrun & Hinv1 & Hlu1);
    [lia|done|done|lia|done|done|intros lu' Hlu'; specialize (Hs _ Hlu'); lia|].
  unfold st_bind at 1. rewrite Hrun. destruct l as [|u l].
  - exists s1. split_and!; [done| |done|cbn; lia|cbn; lia].
    eapply delta_inv_ext; [| |exact Hinv1]; [intros ep; rewrite added_upto_cons|]; cbn [fst snd].
    + change (added_upto [] ep) with 0. lia.
    + change (added_magnitude []) with 0. lia.
  - destruct (IH _ _ s1 c Hinv1) as (s' & Hrun' & Hinv' & Hrest); [lia|done| |lia|done|done|].
    { rewrite Hlu1. intros ? [= ->]. lia. }
    exists s'. split; [done|]. split; [|done].
    eapply delta_inv_ext; [| |exact Hinv']; [intros ep; rewrite added_upto_cons|]; cbn [fst snd]; lia.
Qed.
End delta_refinement.

(** C32. A delta handle that folds its history into the oldest kept epoch keeps
    every sum: after any run of additions in the order of their epochs, with
    offsets in the future window and magnitudes that fit together, every
    addition succeeds and [get_sum] at any epoch of the kept window returns the
    sum of all deltas added at or before that epoch, however old they are.
    Amounts and changes are both instances. *)
Theorem epoched_delta_sum_refines {E D} {HD : Delta D} (HL : DeltaLaws HD)
    (FutureEpochs PastEpochs : EpochOffset) (params : PosParams) (fv pv : Z)
    (updates : list (Z * Z * D)) :
  (forall E, offset_value (E:=E) PastEpochs params = Ok pv) -> 0 <= pv ->
  (forall E, offset_value (E:=E) FutureEpochs params = Ok fv) -> 0 <= fv ->
  in_order fv 0 updates -> updates <> [] ->
  Forall (fun u => dwf u.2) updates -> added_magnitude HL updates <= dmax ->
  exists s, st_iter (fun u => delta_add_value (E:=E) PastEpochs params u.2 u.1.1 u.1.2) updates
              empty_epoched = (s, Ok tt) /\
    forall ep, window_start pv (last_epoch 0 updates) <= ep ->
      exists r, get_sum (E:=E) FutureEpochs PastEpochs s ep params = Ok r /\
        oval HL r = added_upto HL updates ep.
Proof.
  intros Hpv Hpv0 Hfv Hfv0 Hl Hne Hw Hm.
  destruct (delta_run_inv (E:=E) HL FutureEpochs PastEpochs params fv pv Hpv Hpv0 Hfv Hfv0 updates (fun _ => 0) 0
              empty_epoched 0) as (s & Hrun & Hinv & Hlu & H0 & Hmax); try done; try lia.
  exists s. split; [done|]. intros ep Hep.
  destruct (get_sum_inv (E:=E) HL FutureEpochs PastEpochs params fv pv Hpv Hpv0 Hfv Hfv0 _ _ s _ ep
              ltac:(exact Hm) Hinv Hlu Hmax Hep) as (r & Hr & Hv & _).
  by exists r.
Qed.

Lemma epoched_delta_sum_refines_witness :
  exists s, st_iter (fun u => delta_add_value (HD:=amount_delta (H:=Ref.uint_ref)) (E:=unit)
                OffsetDefaultNumPastEpochs sample_params u.2 u.1.1 u.1.2)
              [(0, 2, 10); (1, 2, 20); (6, 1, 30)] empty_epoched = (s, Ok tt) /\
    forall ep, 4 <= ep ->
      exists r, get_sum (HD:=amount_delta (H:=Ref.uint_ref)) (E:=unit) OffsetPipelineLen
                  OffsetDefaultNumPastEpochs s ep sample_params = Ok r /\
        oval (amount_delta_laws (HU:=Ref.uint_ref_laws)) r =
          added_upto (amount_delta_laws (HU:=Ref.uint_ref_laws)) [(0, 2, 10); (1, 2, 20); (6, 1, 30)] ep.
Proof.
  apply (epoched_delta_sum_refines (amount_delta_laws (HU:=Ref.uint_ref_laws))
           OffsetPipelineLen OffsetDefaultNumPastEpochs sample_params 2 2
           [(0, 2, 10); (1, 2, 20); (6, 1, 30)]); [done|lia|done|lia| |done| |].
  - cbn [in_order]. unfold U64_MAX. lia.
  - repeat constructor; vm_compute; discriminate.
  - vm_compute. discriminate.
Defined.
