(* ===== verification/Slash.v ===== *)
(** * Slashing

    The slashing computations of [proof_of_stake/src/slashing.rs] and
    [fold_and_slash_redelegated_bonds] of [proof_of_stake/src/lib.rs]. The
    functions read the storage of the proof-of-stake account and do not write
    it; what they read is a record of lookups. *)

From stdpp Require Import sorting base numbers list gmap.
From Stdlib Require Import ZArith Lia.
From S2P Require Import Prelude Uint Int256 Dec Keys Epoch Params Epoched.

Local Open Scope Z_scope.
Local Open Scope outcome_scope.

Inductive SlashType : Type := DuplicateVote | LightClientAttack.

Record Slash : Type := mkSlash {
  slash_epoch : Epoch;
  slash_block_height : Z;
  slash_type : SlashType;
  slash_rate : Z
}.

Definition get_slash_rate (t : SlashType) (params : OwnedPosParams) : Z :=
  match t with
  | DuplicateVote => duplicate_vote_min_slash_rate params
  | LightClientAttack => light_client_attack_min_slash_rate params
  end.

Record SlashedAmount : Type := mkSlashedAmount { sa_amount : Z; sa_epoch : Epoch }.
Record ResultSlashing : Type := mkResultSlashing { rs_sum : Z; rs_epoch_map : gmap Epoch Z }.
Record FoldRedelegatedBondsResult : Type :=
  mkFoldRes { total_redelegated : Z; total_after_slashing : Z }.

(** [EagerRedelegatedBondsMap] and [EagerRedelegatedUnbonds] *)
Notation RedelegatedBondsMap := (gmap Address (gmap Epoch Z)) (only parsing).
Notation RedelegatedUnbonds := (gmap Epoch (gmap Address (gmap Epoch Z))) (only parsing).

Section amounts.
Context {U : UintOps} {E : Type}.

(** [checked_sub(..).unwrap_or_default()] *)
Definition sub_or_zero (a b : Z) : Z := default 0 (amount_checked_sub a b).
Definition dec_min (a b : Z) : Z := if dec_gt a b then b else a.
Definition dec_max (a b : Z) : Z := if dec_gt a b then a else b.

(** Whether a slash at [epoch] was processed at or before [at_epoch] *)
Definition processed_by (params : OwnedPosParams) (epoch at_epoch : Epoch) : outcome E bool :=
  let* off := slash_processing_epoch_offset params in
  let* pe := epoch_add epoch off in
  Ok (pe <=? at_epoch).

Definition compute_slashable_amount (params : OwnedPosParams) (slash : Slash) (amount : Z)
    (computed_slashes : gmap Epoch Z) : outcome E Z :=
  let* updated_amount :=
    out_fold (fun acc e =>
                let* b := processed_by params e.1 (slash_epoch slash) in
                Ok (if b then sub_or_zero acc e.2 else acc))
      (bt_list computed_slashes) amount in
  amount_mul_ceil updated_amount (slash_rate slash).

(** The body of the loop of [apply_list_slashes] *)
Definition apply_slash (params : OwnedPosParams) (amount : Z) (acc : Z * gmap Epoch Z) (slash : Slash)
  : outcome E (Z * gmap Epoch Z) :=
  let* slashed_amount := compute_slashable_amount params slash amount acc.2 in
  Ok (sub_or_zero acc.1 slashed_amount, <[slash_epoch slash := slashed_amount]> acc.2).

Definition apply_list_slashes (params : OwnedPosParams) (slashes : list Slash) (amount : Z)
  : outcome E Z :=
  let* r := out_fold (apply_slash params amount) slashes (amount, ∅) in Ok r.1.

Definition find_slashes_in_range (slashes : list Slash) (start : Epoch) (en : option Epoch)
  : outcome E (gmap Epoch Z) :=
  out_fold (fun acc slash =>
              if (start <=? slash_epoch slash) &&
                 match en with Some en => slash_epoch slash <? en | None => true end then
                let* s := dec_add (default dec_zero (acc !! slash_epoch slash)) (slash_rate slash) in
                let* one := dec_one in
                Ok (<[slash_epoch slash := dec_min s one]> acc)
              else Ok acc) slashes ∅.

(** The inner loop of [get_slashed_amount]: the amounts processed before the
    infraction are taken off and removed from the list. *)
Fixpoint take_processed (params : OwnedPosParams) (infraction_epoch : Epoch) (updated_amount : Z)
    (computed : list SlashedAmount) : outcome E (Z * list SlashedAmount) :=
  match computed with
  | [] => Ok (updated_amount, [])
  | sa :: rest =>
      let* b := processed_by params (sa_epoch sa) infraction_epoch in
      if b then take_processed params infraction_epoch (sub_or_zero updated_amount (sa_amount sa)) rest
      else
        let* r := take_processed params infraction_epoch updated_amount rest in
        Ok (r.1, sa :: r.2)
  end.

Definition slash_once (params : OwnedPosParams) (acc : Z * list SlashedAmount) (e : Epoch * Z)
  : outcome E (Z * list SlashedAmount) :=
  let* r := take_processed params e.1 acc.1 acc.2 in
  let* a := amount_mul_ceil r.1 e.2 in
  Ok (r.1, r.2 ++ [mkSlashedAmount a e.1]).

Definition get_slashed_amount (params : OwnedPosParams) (amount : Z) (slashes : gmap Epoch Z)
  : outcome E Z :=
  let* r := out_fold (slash_once params) (bt_list slashes) (amount, []) in
  let* total_computed_amounts := amount_sum (sa_amount <$> r.2) in
  Ok (sub_or_zero r.1 total_computed_amounts).
End amounts.

(** ** What the slashing functions read *)
Record SlashReads : Type := mkSlashReads {
  (** [validator_slashes_handle] *)
  slashes_of : Address -> list Slash;
  (** [total_bonded_handle], [total_unbonded_handle] *)
  total_bonded : Address -> gmap Epoch Z;
  total_unbonded : Address -> gmap Epoch (gmap Epoch Z);
  (** [validator_total_redelegated_bonded_handle], [.._unbonded_handle] *)
  total_redelegated_bonded : Address -> gmap Epoch (gmap Address (gmap Epoch Z));
  total_redelegated_unbonded : Address -> gmap Epoch (gmap Epoch (gmap Address (gmap Epoch Z)));
  (** [validator_outgoing_redelegations_handle] *)
  outgoing_redelegations : Address -> gmap Address (gmap Epoch (gmap Epoch Z))
}.

(** Entries of a two-level map: the iteration of a [NestedMap] of [LazyMap]s *)
Definition entries2 {K V} `{Countable K} (m : gmap K (gmap Epoch V)) : list (K * Epoch * V) :=
  p ← map_to_list m; e ← bt_list p.2; [(p.1, e.1, e.2)].

Section slashing.
Context {U : UintOps} {E : Type} (storage : SlashReads) (params : OwnedPosParams).

(** The slashes of the source validator of a redelegation that are charged to
    the redelegated tokens *)
Definition redelegation_slash (bond_start redel_bond_start : Epoch) (slash : Slash) : outcome E bool :=
  let* start := redelegation_start_epoch_from_end params redel_bond_start in
  let* w := in_redelegation_slashing_window params (slash_epoch slash) start redel_bond_start in
  Ok (w && (bond_start <=? slash_epoch slash)).

Definition fold_and_slash_redelegated_bonds (redelegated_unbonds : RedelegatedBondsMap)
    (start_epoch : Epoch) (list_slashes : list Slash) (slash_epoch_filter : Epoch -> outcome E bool)
  : outcome E FoldRedelegatedBondsResult :=
  out_fold (fun result e =>
      let '(src_validator, bond_start, chg) := e in
      let* own := out_filter (fun slash =>
          let* b := redelegation_slash bond_start start_epoch slash in
          if b then slash_epoch_filter (slash_epoch slash) else Ok false)
        (slashes_of storage src_validator) in
      let merged := sort_by slash_epoch (own ++ list_slashes) in
      let* total := amount_add (total_redelegated result) chg in
      let* s := apply_list_slashes params merged chg in
      let* after := amount_add (total_after_slashing result) s in
      Ok (mkFoldRes total after))
    (entries2 redelegated_unbonds) (mkFoldRes 0 0).

Definition compute_bond_at_epoch (validator : Address) (epoch start : Epoch) (amount : Z)
    (redelegated_bonds : option RedelegatedBondsMap) : outcome E Z :=
  let* list_slashes := out_filter (fun slash =>
      if start <=? slash_epoch slash then processed_by params (slash_epoch slash) epoch else Ok false)
    (slashes_of storage validator) in
  let* result_fold :=
    match redelegated_bonds with
    | Some rb =>
        fold_and_slash_redelegated_bonds rb start list_slashes (fun e => processed_by params e epoch)
    | None => Ok (mkFoldRes 0 0)
    end in
  let* total_not_redelegated := amount_sub amount (total_redelegated result_fold) in
  let* after_not_redelegated := apply_list_slashes params list_slashes total_not_redelegated in
  amount_add after_not_redelegated (total_after_slashing result_fold).

Definition compute_slash_bond_at_epoch (validator : Address) (epoch infraction_epoch bond_start : Epoch)
    (bond_amount : Z) (redelegated_bonds : option RedelegatedBondsMap) (rate : Z) : outcome E Z :=
  let* due := compute_bond_at_epoch validator infraction_epoch bond_start bond_amount redelegated_bonds in
  let* amount_due := amount_mul_ceil due rate in
  let* slashable_amount := compute_bond_at_epoch validator epoch bond_start bond_amount redelegated_bonds in
  Ok (Z.min amount_due slashable_amount).

(** One unbonded bond of [compute_amount_after_slashing_unbond] *)
Definition after_slashing_unbond (slashes : list Slash) (redelegated_unbonds : RedelegatedUnbonds)
    (result : ResultSlashing) (e : Epoch * Z) : outcome E ResultSlashing :=
  let '(start_epoch, amount) := e in
  let list_slashes := List.filter (fun slash => start_epoch <=? slash_epoch slash) slashes in
  let* result_fold :=
    match redelegated_unbonds !! start_epoch with
    | Some ru => fold_and_slash_redelegated_bonds ru start_epoch list_slashes (fun _ => Ok true)
    | None => Ok (mkFoldRes 0 0)
    end in
  let total_not_redelegated := sub_or_zero amount (total_redelegated result_fold) in
  let* after_not_redelegated := apply_list_slashes params list_slashes total_not_redelegated in
  let* amount_after_slashing := amount_add after_not_redelegated (total_after_slashing result_fold) in
  let* sum := amount_add (rs_sum result) amount_after_slashing in
  Ok (mkResultSlashing sum (<[start_epoch := amount_after_slashing]> (rs_epoch_map result))).

Definition compute_amount_after_slashing_unbond (unbonds : gmap Epoch Z)
    (redelegated_unbonds : RedelegatedUnbonds) (slashes : list Slash) : outcome E ResultSlashing :=
  out_fold (after_slashing_unbond slashes redelegated_unbonds) (bt_list unbonds) (mkResultSlashing 0 ∅).

(** One unbond of [compute_amount_after_slashing_withdraw] *)
Definition after_slashing_withdraw (slashes : list Slash) (result : ResultSlashing)
    (e : Epoch * Epoch * (Z * RedelegatedBondsMap)) : outcome E ResultSlashing :=
  let '(start_epoch, withdraw_epoch, (amount, redelegated_unbonds)) := e in
  let* a := epoch_sub withdraw_epoch (unbonding_len params) in
  let* end_epoch := epoch_sub a (cubic_slashing_window_length params) in
  let list_slashes :=
    List.filter (fun slash => (start_epoch <=? slash_epoch slash) && (end_epoch >? slash_epoch slash))
      slashes in
  let* result_fold :=
    fold_and_slash_redelegated_bonds redelegated_unbonds start_epoch list_slashes (fun _ => Ok true) in
  let* total_not_redelegated := amount_sub amount (total_redelegated result_fold) in
  let* after_not_redelegated := apply_list_slashes params list_slashes total_not_redelegated in
  let* amount_after_slashing := amount_add after_not_redelegated (total_after_slashing result_fold) in
  let* sum := amount_add (rs_sum result) amount_after_slashing in
  Ok (mkResultSlashing sum (<[start_epoch := amount_after_slashing]> (rs_epoch_map result))).

(** The unbonds are the entries of a [BTreeMap] in the order of its keys. *)
Definition compute_amount_after_slashing_withdraw
    (unbonds : list (Epoch * Epoch * (Z * RedelegatedBondsMap))) (slashes : list Slash)
  : outcome E ResultSlashing :=
  out_fold (after_slashing_withdraw slashes) unbonds (mkResultSlashing 0 ∅).

(** ** The amounts slashed from a validator *)

(** [entry(epoch).or_default() += amount] *)
Definition add_to (m : gmap Epoch Z) (epoch : Epoch) (amount : Z) : outcome E (gmap Epoch Z) :=
  let* v := amount_add (default 0 (m !! epoch)) amount in Ok (<[epoch := v]> m).

Definition nonempty_map {K V} `{Countable K} (m : gmap K V) : bool := negb (bool_decide (m = ∅)).

Record slash_acc : Type := mkSlashAcc {
  acc_bonds : gmap Epoch Z;
  acc_redelegated : RedelegatedUnbonds;
  acc_sum : Z;
  acc_amounts : gmap Epoch Z
}.

(** The body of the loop of [slash_validator]. The filter of the redelegated
    bonds looks up the bond start in the map keyed by unbond epochs, as the
    code does. *)
Definition slash_validator_step (validator : Address) (infraction_epoch : Epoch) (rate : Z)
    (acc : slash_acc) (epoch : Epoch) : outcome E slash_acc :=
  let* amount := out_fold (fun a e =>
      let* s := compute_slash_bond_at_epoch validator epoch infraction_epoch e.1 e.2
                  (acc_redelegated acc !! e.1) rate in
      amount_add a s) (bt_list (acc_bonds acc)) 0 in
  let tot_bonds :=
    filter (fun e => e.1 <= infraction_epoch) (default ∅ (total_unbonded storage validator !! epoch)) in
  let redelegated : RedelegatedUnbonds :=
    map_imap (fun ep _ =>
        if nonempty_map (default ∅ (total_redelegated_unbonded storage validator !! ep))
        then Some (default ∅ (default ∅ (total_redelegated_unbonded storage validator !! epoch) !! ep))
        else None) tot_bonds in
  let* sum := amount_add (acc_sum acc) amount in
  let* amounts := add_to (acc_amounts acc) epoch sum in
  Ok (mkSlashAcc tot_bonds redelegated sum amounts).

Definition slash_validator (validator : Address) (rate : Z) (current_epoch : Epoch)
    (slashed_amounts_map : gmap Epoch Z) : outcome E (gmap Epoch Z) :=
  let* off := slash_processing_epoch_offset params in
  let* infraction_epoch := epoch_sub current_epoch off in
  let tot_bonds :=
    filter (fun e => e.1 <= infraction_epoch /\ 0 < e.2) (total_bonded storage validator) in
  let redelegated_bonds : RedelegatedUnbonds :=
    map_imap (fun epoch _ =>
        let m := default ∅ (total_redelegated_bonded storage validator !! epoch) in
        if nonempty_map m then Some m else None) tot_bonds in
  let* eps := iter_range current_epoch (pipeline_len params) in
  let* acc := out_fold (slash_validator_step validator infraction_epoch rate) (rev eps)
                (mkSlashAcc tot_bonds redelegated_bonds 0 slashed_amounts_map) in
  let* pipeline_epoch := epoch_add current_epoch (pipeline_len params) in
  let* prev := epoch_prev pipeline_epoch in
  let* last_amt := unwrap (acc_amounts acc !! prev) in
  Ok (<[pipeline_epoch := last_amt]> (acc_amounts acc)).

(** ** Redelegated tokens *)
Definition redelegated_unbonded_at
    (tru : gmap Epoch (gmap Epoch (gmap Address (gmap Epoch Z))))
    (epoch redel_bond_start : Epoch) (src_validator : Address) (bond_start : Epoch) : Z :=
  default 0 (default ∅ (default ∅ (default ∅ (tru !! epoch) !! redel_bond_start) !! src_validator)
               !! bond_start).

(** The body of the loop of [slash_redelegation]: the tokens unbonded so far
    and the slashed amounts *)
Definition slash_redelegation_step (amount : Z) (bond_start redel_bond_start : Epoch)
    (src_validator : Address) (infraction_epoch : Epoch) (slashes : list Slash)
    (tru : gmap Epoch (gmap Epoch (gmap Address (gmap Epoch Z)))) (rate : Z)
    (acc : Z * gmap Epoch Z) (epoch : Epoch) : outcome E (Z * gmap Epoch Z) :=
  let* updated_total_unbonded :=
    amount_add acc.1 (redelegated_unbonded_at tru epoch redel_bond_start src_validator bond_start) in
  let* before := out_filter (fun slash =>
      let* b := redelegation_slash bond_start redel_bond_start slash in
      if b then processed_by params (slash_epoch slash) infraction_epoch else Ok false) slashes in
  let slashable_amount := sub_or_zero amount updated_total_unbonded in
  let* a := apply_list_slashes params before slashable_amount in
  let* slashed := amount_mul_ceil a rate in
  let* all := out_filter (redelegation_slash bond_start redel_bond_start) slashes in
  let* b := apply_list_slashes params all slashable_amount in
  let* slashable_stake := amount_mul_ceil b rate in
  let to_slash := Z.min slashed slashable_stake in
  if amount_is_zero to_slash then Ok (updated_total_unbonded, acc.2)
  else let* m := add_to acc.2 epoch to_slash in Ok (updated_total_unbonded, m).

Definition slash_redelegation (amount : Z) (bond_start redel_bond_start : Epoch) (src_validator : Address)
    (current_epoch : Epoch) (slashes : list Slash)
    (tru : gmap Epoch (gmap Epoch (gmap Address (gmap Epoch Z)))) (rate : Z)
    (slashed_amounts : gmap Epoch Z) : outcome E (gmap Epoch Z) :=
  let* off := slash_processing_epoch_offset params in
  let* infraction_epoch := epoch_sub current_epoch off in
  let* set_update_epoch := epoch_next current_epoch in
  let* first := epoch_next infraction_epoch in
  let* init_tot_unbonded :=
    amount_sum ((fun epoch =>
        redelegated_unbonded_at tru epoch redel_bond_start src_validator bond_start)
      <$> iter_bounds_inclusive first set_update_epoch) in
  let* epochs := iter_range set_update_epoch (pipeline_len params) in
  let* r := out_fold (slash_redelegation_step amount bond_start redel_bond_start src_validator
                        infraction_epoch slashes tru rate) epochs
              (init_tot_unbonded, slashed_amounts) in
  Ok r.2.

Definition slash_validator_redelegation (src_validator : Address) (current_epoch : Epoch)
    (outgoing : gmap Epoch (gmap Epoch Z)) (slashes : list Slash)
    (tru : gmap Epoch (gmap Epoch (gmap Address (gmap Epoch Z)))) (rate : Z)
    (dest_slashed_amounts : gmap Epoch Z) : outcome E (gmap Epoch Z) :=
  let* off := slash_processing_epoch_offset params in
  let* infraction_epoch := epoch_sub current_epoch off in
  out_fold (fun amounts e =>
      let '(bond_start, redel_start, amount) := e in
      let* redel_end := redelegation_end_epoch_from_start params redel_start in
      let* w := in_redelegation_slashing_window params infraction_epoch redel_start redel_end in
      if w && (bond_start <=? infraction_epoch) then
        slash_redelegation amount bond_start redel_end src_validator current_epoch slashes tru rate amounts
      else Ok amounts)
    (p ← bt_list outgoing; e ← bt_list p.2; [(p.1, e.1, e.2)]) dest_slashed_amounts.

(** [process_validator_slash]: the misbehaving validator, then the validators it
    has redelegated to *)
Definition process_validator_slash (validator : Address) (rate : Z) (current_epoch : Epoch)
    (slashed_amount_map : gmap Address (gmap Epoch Z)) : outcome E (gmap Address (gmap Epoch Z)) :=
  let* result_slash :=
    slash_validator validator rate current_epoch (default ∅ (slashed_amount_map !! validator)) in
  out_fold (fun m e =>
      let '(dest_validator, outgoing) := e in
      let* amounts :=
        slash_validator_redelegation validator current_epoch outgoing (slashes_of storage validator)
          (total_redelegated_unbonded storage dest_validator) rate (default ∅ (m !! dest_validator)) in
      Ok (<[dest_validator := amounts]> m))
    (List.filter (fun e => nonempty_map (e.2 : gmap Epoch (gmap Epoch Z)))
       (map_to_list (outgoing_redelegations storage validator)))
    (<[validator := result_slash]> slashed_amount_map).

(** ** The rates of the slashes of an epoch *)

(** [compute_cubic_slash_rate]; the stakes and the enqueued slashes are read
    from the storage. *)
Definition compute_cubic_slash_rate (get_total_consensus_stake : Epoch -> outcome E Z)
    (read_validator_stake : Address -> Epoch -> outcome E Z)
    (enqueued_slashes : Epoch -> list (Address * Slash)) (infraction_epoch : Epoch) : outcome E Z :=
  let* w := cubic_slash_epoch_window params infraction_epoch in
  let* sum_vp_fraction := out_fold (fun sum epoch =>
      let* stake := get_total_consensus_stake epoch in
      let* consensus_stake := dec_from_amount stake in
      let* off := slash_processing_epoch_offset params in
      let* processing_epoch := epoch_add epoch off in
      let* infracting_stake := out_fold (fun acc e =>
          let* validator_stake := read_validator_stake e.1 epoch in
          let* d := dec_from_amount validator_stake in
          dec_add acc d) (enqueued_slashes processing_epoch) dec_zero in
      let* q := dec_div infracting_stake consensus_stake in
      dec_add sum q) (iter_bounds_inclusive w.1 w.2) dec_zero in
  let* o := dec_new 9 0 in
  let* nine := unwrap o in
  let* a := dec_mul nine sum_vp_fraction in
  dec_mul a sum_vp_fraction.

(** The first loop of [process_slashes]: the slashes with their rates, and the
    rate of each validator *)
Definition final_slash_rate (cubic_slash_rate : Z) (slash : Slash) : outcome E Z :=
  let* one := dec_one in
  Ok (dec_min one (dec_max (get_slash_rate (slash_type slash) params) cubic_slash_rate)).

Definition collect_slash (cubic_slash_rate : Z)
    (acc : gmap Address (list Slash) * gmap Address Z) (e : Address * Slash)
  : outcome E (gmap Address (list Slash) * gmap Address Z) :=
  let '(validator, enqueued) := e in
  let* rate := final_slash_rate cubic_slash_rate enqueued in
  let updated := mkSlash (slash_epoch enqueued) (slash_block_height enqueued) (slash_type enqueued) rate in
  let* s := dec_add (default dec_zero (acc.2 !! validator)) rate in
  let* one := dec_one in
  Ok (<[validator := default [] (acc.1 !! validator) ++ [updated]]> acc.1,
      <[validator := dec_min one s]> acc.2).

(** The changes of the stake of a validator, in the order of the epochs *)
Definition slash_deltas (slash_amounts : gmap Epoch Z) : outcome E (list (Epoch * Z)) :=
  let* r := out_fold (fun acc e =>
      let* slash_delta := amount_sub e.2 acc.1 in
      let* slash_acc := amount_add acc.1 slash_delta in
      let* chg := change slash_delta in
      Ok (slash_acc, acc.2 ++ [(e.1, neg chg)])) (bt_list slash_amounts) (0, []) in
  Ok r.2.
End slashing.

(** ** Reference computation

    A slash charges the amount that is left of what was bonded, after the
    slashes that were processed when it occurred; [l] lists the infraction
    epochs with their rates. *)
Definition rate_of (a r : Z) : Z := div_ceil (a * sval r) SC.
Definition charged_before (off : Z) (done : list (Z * Z)) (ep : Z) : Z :=
  sumZ ((fun e => if e.1 + off <=? ep then e.2 else 0) <$> done).
Definition charge (off amount : Z) (done : list (Z * Z)) (e : Z * Z) : Z * Z :=
  (e.1, rate_of (Z.max 0 (amount - charged_before off done e.1)) e.2).
Definition charges_from (off amount : Z) (done l : list (Z * Z)) : list (Z * Z) :=
  foldl (fun done e => done ++ [charge off amount done e]) done l.
Definition remaining_after (off amount : Z) (l : list (Z * Z)) : Z :=
  Z.max 0 (amount - sumZ (charges_from off amount [] l).*2).

(** Epochs and rates a slash may have, amounts whose products with a rate fit *)
Definition epoch_ok (off ep : Z) : Prop := 0 <= ep /\ ep + off <= U64_MAX.
Definition share_ok (r : Z) : Prop := rate_ok r /\ sval r <= SC.
Definition amount_ok (a : Z) : Prop := 0 <= a /\ a * SC <= MAX_VALUE.

Lemma amount_ok_u256 a : amount_ok a -> in_u256 a.
Proof. intros [H0 H1]. unfold in_u256. pose proof SC_pos. split; [done|]. unfold SC in *. lia. Qed.

Lemma rate_of_bounds a r : 0 <= a -> share_ok r -> 0 <= rate_of a r <= a.
Proof.
  intros Ha [[Hw Hr0] Hr]. unfold rate_of. pose proof SC_pos as HS.
  pose proof (Z.mul_nonneg_nonneg a (sval r) Ha Hr0).
  assert (a * sval r <= a * SC) as Hle by (apply Z.mul_le_mono_nonneg_l; lia).
  pose proof (Z.div_pos (a * sval r) SC ltac:(lia) HS).
  pose proof (Z.div_mod (a * sval r) SC ltac:(lia)) as Hdm.
  pose proof (Z.mod_pos_bound (a * sval r) SC HS).
  assert (a * sval r / SC <= a) by (apply Z.div_le_upper_bound; lia).
  unfold div_ceil. destruct (Z.eqb_spec ((a * sval r) `mod` SC) 0); [lia|].
  assert (a * sval r / SC < a); [|lia]. apply Z.div_lt_upper_bound; [lia|].
  destruct (Z.eq_dec (a * sval r) (SC * a)) as [He|]; [|lia].
  exfalso. rewrite He, Z.mul_comm, Z.mod_mul in *; lia.
Qed.

Lemma charged_before_app off d1 d2 ep :
  charged_before off (d1 ++ d2) ep = charged_before off d1 ep + charged_before off d2 ep.
Proof. unfold charged_before. by rewrite fmap_app, sumZ_app. Qed.

Lemma charged_before_cons off e d ep :
  charged_before off (e :: d) ep = (if e.1 + off <=? ep then e.2 else 0) + charged_before off d ep.
Proof. done. Qed.

#[export] Instance charged_before_perm off : Proper (Permutation ==> eq ==> eq) (charged_before off).
Proof. intros d d' Hd ep _ <-. unfold charged_before. by rewrite Hd. Qed.

Section slash_lemmas.
Context {U : UintOps} {HU : UintLaws U} {E : Type} (params : OwnedPosParams) (off : Z).
Context (Hoff : forall E, slash_processing_epoch_offset (E:=E) params = Ok off) (Hoff0 : 0 < off).

Definition charge_ok (a : Z) (e : Z * Z) : Prop := epoch_ok off e.1 /\ 0 <= e.2 <= a.

Lemma sub_or_zero_eq a b : in_u256 a -> in_u256 b -> sub_or_zero a b = Z.max 0 (a - b).
Proof.
  intros. unfold sub_or_zero, amount_checked_sub. rewrite uint_checked_sub_law by done.
  destruct (Z.leb_spec b a); simpl; lia.
Qed.

Lemma mul_ceil_ok a r : amount_ok a -> share_ok r -> amount_mul_ceil (E:=E) a r = Ok (rate_of a r).
Proof.
  intros Ha [Hr Hs]. rewrite amount_mul_ceil_eq by (done || by apply amount_ok_u256).
  destruct Ha as [Ha Hm]. rewrite (proj2 (Z.leb_le _ _)); [done|].
  etrans; [|exact Hm]. apply Z.mul_le_mono_nonneg_l; lia.
Qed.

Lemma processed_by_ok ep at_ep : epoch_ok off ep ->
  processed_by (E:=E) params ep at_ep = Ok (ep + off <=? at_ep).
Proof.
  intros [H0 H1]. unfold processed_by. rewrite Hoff. cbn [out_bind]. unfold epoch_add.
  by rewrite u64_add_ok by lia.
Qed.

Lemma charged_nonneg a done ep : Forall (charge_ok a) done -> 0 <= charged_before off done ep.
Proof.
  induction 1 as [|e done [_ He] _ IH]; [done|]. rewrite charged_before_cons.
  destruct (_ <=? _); lia.
Qed.

Lemma sub_processed_ok b (l : list (Z * Z)) ep : amount_ok b -> Forall (charge_ok b) l ->
  forall a, 0 <= a <= b ->
  out_fold (fun acc e =>
      (let* p := processed_by (E:=E) params e.1 ep in
       Ok (if p then sub_or_zero acc e.2 else acc))%out) l a
  = Ok (Z.max 0 (a - charged_before off l ep)).
Proof.
  intros Hb Hl. pose proof (amount_ok_u256 b Hb) as Hu. unfold in_u256 in Hu.
  induction Hl as [|e l [He Hc] Hl IH]; intros a Ha; cbn [out_fold].
  - f_equal. change (charged_before off [] ep) with 0. lia.
  - rewrite processed_by_ok by done. cbn [out_bind]. rewrite charged_before_cons.
    pose proof (charged_nonneg b l ep Hl). destruct (e.1 + off <=? ep).
    + rewrite sub_or_zero_eq by (unfold in_u256; lia). rewrite IH by lia. f_equal. lia.
    + by rewrite IH.
Qed.

Lemma amount_ok_le a b : amount_ok b -> 0 <= a <= b -> amount_ok a.
Proof. intros [H0 H1] Ha. split; [lia|]. pose proof SC_pos. unfold SC in *. lia. Qed.

Lemma charge_bounds amount done e : amount_ok amount -> Forall (charge_ok amount) done ->
  epoch_ok off e.1 -> share_ok e.2 -> charge_ok amount (charge off amount done e).
Proof.
  intros Ha Hd He Hr. split; [done|]. simpl. pose proof (charged_nonneg _ _ e.1 Hd).
  pose proof (rate_of_bounds (Z.max 0 (amount - charged_before off done e.1)) e.2 ltac:(lia) Hr).
  destruct Ha. lia.
Qed.

(** ** [apply_list_slashes] *)
Definition slash_pair (s : Slash) : Z * Z := (slash_epoch s, slash_rate s).
Definition slash_ok (s : Slash) : Prop := epoch_ok off (slash_epoch s) /\ share_ok (slash_rate s).

Lemma compute_slashable_ok amount done s : amount_ok amount -> Forall (charge_ok amount) done ->
  NoDup done.*1 -> slash_ok s ->
  compute_slashable_amount (E:=E) params s amount (list_to_map done)
  = Ok (charge off amount done (slash_pair s)).2.
Proof.
  intros Ha Hd Hnd [He Hr]. unfold compute_slashable_amount.
  assert (Permutation (bt_list (list_to_map done : gmap Z Z)) done) as Hp
    by (rewrite bt_list_perm; by apply map_to_list_to_map).
  rewrite (sub_processed_ok amount); [|done|by rewrite Hp|destruct Ha; lia].
  cbn [out_bind]. rewrite Hp. simpl. apply mul_ceil_ok; [|done].
  eapply amount_ok_le; [done|]. pose proof (charged_nonneg _ _ (slash_epoch s) Hd). destruct Ha. lia.
Qed.

Lemma apply_fold amount slashes : amount_ok amount -> Forall slash_ok slashes ->
  forall dn, Forall (charge_ok amount) dn -> NoDup (dn.*1 ++ (slash_epoch <$> slashes)) ->
  let dn' := charges_from off amount dn (slash_pair <$> slashes) in
  out_fold (apply_slash (E:=E) params amount) slashes
    (Z.max 0 (amount - sumZ dn.*2), list_to_map dn)
  = Ok (Z.max 0 (amount - sumZ dn'.*2), list_to_map dn') /\ Forall (charge_ok amount) dn'.
Proof.
  intros Ha Hs. induction Hs as [|s slashes Hok Hs IH]; intros dn Hd Hnd dn'; [done|].
  cbn [out_fold]. unfold apply_slash at 1. cbn [fst snd].
  rewrite fmap_cons in Hnd. pose proof Hnd as Hnd0. apply NoDup_app in Hnd0 as (Hnd1 & Hnin & _).
  rewrite compute_slashable_ok by done. cbn [out_bind].
  pose proof (charge_bounds amount dn (slash_pair s) Ha Hd (proj1 Hok) (proj2 Hok)) as Hc.
  set (c := charge off amount dn (slash_pair s)) in *.
  assert (Forall (charge_ok amount) (dn ++ [c])) as Hd' by (apply Forall_app; auto).
  destruct (IH (dn ++ [c]) Hd') as [IH1 IH2].
  { rewrite fmap_app. cbn. by rewrite <- app_assoc. }
  replace (list_to_map (dn ++ [c]) : gmap Z Z) with (<[slash_epoch s := c.2]> (list_to_map dn : gmap Z Z)) in IH1.
  - split; [|exact IH2]. etrans; [|exact IH1]. f_equal. f_equal.
    rewrite fmap_app, sumZ_app. cbn [fmap list_fmap]. rewrite sumZ_cons, sumZ_nil.
    destruct Hc as [_ Hc]. pose proof (amount_ok_u256 _ Ha) as Hu. unfold in_u256 in Hu.
    assert (0 <= sumZ dn.*2).
    { apply sumZ_nonneg, Forall_fmap. eapply Forall_impl; [exact Hd|]. intros e [_ He]. simpl. lia. }
    rewrite sub_or_zero_eq by (unfold in_u256; lia). lia.
  - symmetry. change c with (slash_epoch s, c.2) at 1. apply list_to_map_snoc.
    intros Hin. apply (Hnin _ Hin). left.
Qed.

Lemma apply_list_slashes_ok amount slashes : amount_ok amount -> Forall slash_ok slashes ->
  NoDup (slash_epoch <$> slashes) ->
  apply_list_slashes (E:=E) params slashes amount
  = Ok (remaining_after off amount (slash_pair <$> slashes)).
Proof.
  intros Ha Hs Hnd. unfold apply_list_slashes.
  destruct (apply_fold amount slashes Ha Hs []) as [Hf _]; [constructor|done|].
  cbn in Hf. rewrite Z.sub_0_r, Z.max_r in Hf by (destruct Ha; lia).
  change (list_to_map []) with (∅ : gmap Z Z) in Hf. by rewrite Hf.
Qed.

(** ** [get_slashed_amount] *)
Definition sa_pair (sa : SlashedAmount) : Z * Z := (sa_epoch sa, sa_amount sa).

Lemma take_processed_ok b (l : list SlashedAmount) ep : amount_ok b ->
  Forall (fun sa => charge_ok b (sa_pair sa)) l -> forall a, 0 <= a <= b ->
  take_processed (E:=E) params ep a l
  = Ok (Z.max 0 (a - charged_before off (sa_pair <$> l) ep),
        List.filter (fun sa => negb (sa_epoch sa + off <=? ep)) l).
Proof.
  intros Hb Hl. pose proof (amount_ok_u256 b Hb) as Hu. unfold in_u256 in Hu.
  induction Hl as [|sa l [He Hc] Hl IH]; intros a Ha; cbn [take_processed].
  - do 2 f_equal. change (charged_before off (sa_pair <$> []) ep) with 0. lia.
  - rewrite processed_by_ok by done. cbn [out_bind]. rewrite fmap_cons, charged_before_cons.
    assert (0 <= charged_before off (sa_pair <$> l) ep)
      by (apply (charged_nonneg b); by apply Forall_fmap).
    simpl in Hc. cbn [sa_pair fst snd List.filter].
    destruct (sa_epoch sa + off <=? ep); cbn [negb].
    + rewrite sub_or_zero_eq by (unfold in_u256; lia). rewrite IH by lia. do 2 f_equal. lia.
    + rewrite IH by done. cbn [out_bind fst snd]. do 2 f_equal.
Qed.

(** The state of the loop after the charges [dn], the last at an epoch up to
    [ep]: what was processed is taken off, the rest is listed. *)
Definition pending (ep : Z) (dn : list (Z * Z)) : list (Z * Z) :=
  List.filter (fun e => negb (e.1 + off <=? ep)) dn.

Lemma charged_split ep ep' dn : ep <= ep' ->
  charged_before off dn ep' = charged_before off dn ep + charged_before off (pending ep dn) ep'.
Proof.
  intros Hep. induction dn as [|e dn IH]; [done|]. unfold pending in *. cbn [List.filter].
  rewrite !charged_before_cons. destruct (Z.leb_spec (e.1 + off) ep); cbn [negb].
  - rewrite (proj2 (Z.leb_le (e.1 + off) ep')) by lia. lia.
  - rewrite charged_before_cons. lia.
Qed.

Lemma pending_later ep ep' dn : ep <= ep' -> pending ep' (pending ep dn) = pending ep' dn.
Proof.
  intros Hep. unfold pending. induction dn as [|e dn IH]; [done|]. cbn [List.filter].
  destruct (Z.leb_spec (e.1 + off) ep); cbn [negb].
  - rewrite (proj2 (Z.leb_le (e.1 + off) ep')) by lia. cbn [negb]. done.
  - cbn [List.filter]. destruct (e.1 + off <=? ep'); cbn [negb]; by rewrite ?IH.
Qed.

Lemma filter_sa_pair ep l :
  sa_pair <$> List.filter (fun sa => negb (sa_epoch sa + off <=? ep)) l = pending ep (sa_pair <$> l).
Proof.
  unfold pending. induction l as [|sa l IH]; [done|]. cbn.
  destruct (sa_epoch sa + off <=? ep); cbn; [done|]. f_equal. apply IH.
Qed.

Lemma slash_once_ok amount dn ep0 l e : amount_ok amount -> Forall (charge_ok amount) dn ->
  sa_pair <$> l = pending ep0 dn -> ep0 <= e.1 -> epoch_ok off e.1 -> share_ok e.2 ->
  exists l', slash_once (E:=E) params (Z.max 0 (amount - charged_before off dn ep0), l) e
      = Ok (Z.max 0 (amount - charged_before off (dn ++ [charge off amount dn e]) e.1), l') /\
    sa_pair <$> l' = pending e.1 (dn ++ [charge off amount dn e]).
Proof.
  intros Ha Hd Hl Hep He Hr.
  assert (Forall (charge_ok amount) (sa_pair <$> l)) as Hpl.
  { rewrite Hl. unfold pending. apply List.Forall_forall. intros x Hx%filter_In.
    rewrite List.Forall_forall in Hd. apply Hd. tauto. }
  pose proof (charged_nonneg _ _ ep0 Hd). pose proof (charged_nonneg _ _ e.1 Hd).
  unfold slash_once. cbn [fst snd]. pose proof (proj1 (Forall_fmap sa_pair (charge_ok amount) l) Hpl) as Hpl'.
  rewrite (take_processed_ok amount) by (done || exact Hpl' || (destruct Ha; lia)).
  cbn [out_bind fst snd]. rewrite Hl.
  assert (Z.max 0 (Z.max 0 (amount - charged_before off dn ep0) - charged_before off (pending ep0 dn) e.1)
          = Z.max 0 (amount - charged_before off dn e.1)) as ->.
  { rewrite (charged_split ep0 e.1 dn Hep). rewrite Hl in Hpl.
    pose proof (charged_nonneg _ _ e.1 Hpl). lia. }
  rewrite mul_ceil_ok; [|eapply amount_ok_le; [done|destruct Ha; lia]|done]. cbn [out_bind].
  eexists. split.
  - rewrite charged_before_app, charged_before_cons. cbn [charge fst snd].
    rewrite (proj2 (Z.leb_gt (e.1 + off) e.1)) by lia. change (charged_before off [] e.1) with 0.
    do 2 f_equal. f_equal. lia.
  - rewrite fmap_app, filter_sa_pair, Hl, pending_later by done. unfold pending at 2.
    rewrite List.filter_app. f_equal. cbn. by rewrite (proj2 (Z.leb_gt (e.1 + off) e.1)) by lia.
Qed.

Lemma slash_loop_ok amount l : amount_ok amount ->
  Forall (fun e => epoch_ok off e.1 /\ share_ok e.2) l -> forall dn ep0 c,
  Forall (charge_ok amount) dn -> sa_pair <$> c = pending ep0 dn ->
  StronglySorted (key_le fst) l -> Forall (fun e => ep0 <= e.1) l ->
  exists ep1 c', out_fold (slash_once (E:=E) params) l (Z.max 0 (amount - charged_before off dn ep0), c)
      = Ok (Z.max 0 (amount - charged_before off (charges_from off amount dn l) ep1), c') /\
    sa_pair <$> c' = pending ep1 (charges_from off amount dn l) /\
    Forall (charge_ok amount) (charges_from off amount dn l).
Proof.
  intros Ha Hl. induction Hl as [|e l [He Hr] Hl IH]; intros dn ep0 c Hd Hc Hsort Hle.
  { exists ep0, c. done. }
  apply StronglySorted_inv in Hsort as [Hsort Hle']. apply Forall_cons in Hle as [Hle0 Hle].
  cbn [out_fold charges_from foldl].
  destruct (slash_once_ok amount dn ep0 c e) as (c1 & -> & Hc1); [done..|]. cbn [out_bind].
  apply (IH (dn ++ [charge off amount dn e]) e.1 c1); [|done|done|done].
  apply Forall_app. split; [done|]. constructor; [|done]. by apply charge_bounds.
Qed.

Lemma amount_sum_ok (l : list Z) : Forall (fun a => 0 <= a) l ->
  forall acc, 0 <= acc -> acc + sumZ l <= MAX_VALUE ->
  out_fold (amount_add (E:=E)) l acc = Ok (acc + sumZ l).
Proof.
  induction 1 as [|a l Ha Hl IH]; intros acc Hacc Hm.
  - cbn. f_equal. rewrite sumZ_nil. lia.
  - rewrite sumZ_cons in Hm. pose proof (sumZ_nonneg l Hl). cbn [out_fold]. unfold amount_add at 1.
    rewrite uint_add_ok by (unfold in_u256; lia). cbn [out_bind]. rewrite IH by lia.
    f_equal. rewrite sumZ_cons. lia.
Qed.

Lemma charges_from_length amount l : forall dn,
  length (charges_from off amount dn l) = (length dn + length l)%nat.
Proof.
  induction l as [|e l IH]; intros dn; cbn [charges_from foldl]; [simpl; lia|].
  change (foldl _ ?d l) with (charges_from off amount d l). rewrite IH, length_app. simpl. lia.
Qed.

Lemma sum_charges_bound amount dn : Forall (charge_ok amount) dn ->
  0 <= sumZ dn.*2 <= Z.of_nat (length dn) * amount.
Proof.
  induction 1 as [|e dn [_ He] Hd IH]; [done|]. rewrite fmap_cons, sumZ_cons. simpl length. lia.
Qed.

Lemma pending_sum ep amount dn : Forall (charge_ok amount) dn ->
  sumZ dn.*2 = charged_before off dn ep + sumZ (pending ep dn).*2 /\ 0 <= sumZ (pending ep dn).*2.
Proof.
  unfold pending. induction 1 as [|e dn [_ He] Hd [IH1 IH2]]; [done|].
  rewrite charged_before_cons, fmap_cons, sumZ_cons. cbn [List.filter].
  destruct (e.1 + off <=? ep); cbn [negb]; rewrite ?fmap_cons, ?sumZ_cons; lia.
Qed.

Lemma get_slashed_amount_ok amount (m : gmap Z Z) : amount_ok amount ->
  Forall (fun e => epoch_ok off e.1 /\ share_ok e.2) (bt_list m) ->
  Z.of_nat (length (bt_list m)) * amount <= MAX_VALUE ->
  get_slashed_amount (E:=E) params amount m = Ok (remaining_after off amount (bt_list m)).
Proof.
  intros Ha Hm Hlen. unfold get_slashed_amount.
  destruct (slash_loop_ok amount (bt_list m) Ha Hm [] 0 []) as (ep & c & Hf & Hc & Hd);
    [done|done|apply sort_by_sorted|eapply Forall_impl; [exact Hm|]; intros e [[? _] _]; done|].
  change (charged_before off [] 0) with 0 in Hf.
  rewrite Z.sub_0_r, Z.max_r in Hf by (destruct Ha; lia). rewrite Hf. cbn [out_bind fst snd].
  set (ch := charges_from off amount [] (bt_list m)) in *.
  assert ((sa_amount <$> c) = (pending ep ch).*2) as Hsum by (rewrite <- Hc, <- list_fmap_compose; done).
  destruct (pending_sum ep amount ch Hd) as [Hs Hs0]. pose proof (charged_nonneg _ _ ep Hd).
  pose proof (sum_charges_bound amount ch Hd) as Hb. unfold ch in Hb at 3.
  rewrite charges_from_length in Hb. cbn [length Nat.add] in Hb.
  unfold amount_sum. rewrite amount_sum_ok; [|rewrite Hsum|lia|rewrite Hsum; lia].
  - cbn [out_bind]. rewrite Hsum, Z.add_0_l. pose proof (amount_ok_u256 _ Ha) as Hu. unfold in_u256 in Hu.
    rewrite sub_or_zero_eq by (unfold in_u256; lia). unfold remaining_after. fold ch. f_equal. lia.
  - apply Forall_fmap, List.Forall_forall. intros x Hx%filter_In. rewrite List.Forall_forall in Hd.
    destruct (Hd x) as [_ ?]; [tauto|]. simpl. lia.
Qed.
End slash_lemmas.

Lemma bt_list_sorted (l : list (Z * Z)) : StronglySorted (fun x y => x.1 < y.1) l ->
  bt_list (list_to_map l : gmap Z Z) = l /\ NoDup l.*1.
Proof.
  intros Hl. assert (NoDup l.*1) as Hnd.
  { induction Hl as [|x l _ IH Hx]; simpl; constructor; [|done].
    intros (y & Hy & Hin)%list_elem_of_fmap. rewrite Forall_forall in Hx.
    specialize (Hx y Hin). simpl in Hx. lia. }
  split; [|done].
  assert (Permutation (bt_list (list_to_map l : gmap Z Z)) l) as Hp
    by (rewrite bt_list_perm; by apply map_to_list_to_map).
  apply (StronglySorted_unique_strong (key_le fst)); [|apply sort_by_sorted| |done].
  - intros [k v] [k' v'] H1 H2 H3 H4. rewrite Hp in H1. unfold key_le in *. simpl in *.
    assert (k = k') as -> by lia. f_equal.
    apply (elem_of_list_to_map_1 l k' v Hnd) in H1. apply (elem_of_list_to_map_1 l k' v' Hnd) in H2.
    congruence.
  - clear Hp Hnd. induction Hl as [|x l _ IH Hx]; constructor; [done|].
    eapply Forall_impl; [exact Hx|]. intros y Hy. unfold key_le. simpl in Hy. lia.
Qed.

Lemma StronglySorted_fmap {A B} (f : A -> B) (R : B -> B -> Prop) l :
  StronglySorted (fun x y => R (f x) (f y)) l -> StronglySorted R (f <$> l).
Proof. induction 1 as [|x l _ IH Hx]; [constructor|]. rewrite fmap_cons. constructor; [done|]. by apply Forall_fmap. Qed.

(** C15. The two slashing routines of the proof-of-stake system agree: for
    slashes in ascending order of distinct infraction epochs, with rates of at
    most one, [apply_list_slashes] (used to unbond and withdraw) and
    [get_slashed_amount] (used for bond amounts) both return what the
    reference computation leaves: every slash takes its rate, rounded up, of
    the amount left by the slashes processed when it occurred. The rest is
    never negative and never more than the amount. Two slashes of one epoch are
    excluded: the routines differ there ([same_epoch_slash_forgotten]). *)
Theorem slashing_routines_agree {U : UintOps} {HU : UintLaws U} {E : Type} (params : OwnedPosParams)
    (off amount : Z) (slashes : list Slash) :
  (forall E, slash_processing_epoch_offset (E:=E) params = Ok off) -> 0 < off ->
  amount_ok amount -> Forall (slash_ok off) slashes ->
  StronglySorted (fun s t => slash_epoch s < slash_epoch t) slashes ->
  Z.of_nat (length slashes) * amount <= MAX_VALUE ->
  apply_list_slashes (E:=E) params slashes amount
    = Ok (remaining_after off amount (slash_pair <$> slashes)) /\
  get_slashed_amount (E:=E) params amount (list_to_map (slash_pair <$> slashes))
    = Ok (remaining_after off amount (slash_pair <$> slashes)) /\
  0 <= remaining_after off amount (slash_pair <$> slashes) <= amount.
Proof.
  intros Hoff H0 Ha Hs Hsort Hlen.
  destruct (bt_list_sorted (slash_pair <$> slashes)) as [Hbt Hnd]; [by apply StronglySorted_fmap|].
  assert ((slash_pair <$> slashes).*1 = slash_epoch <$> slashes) as Hkeys
    by (rewrite <- list_fmap_compose; done).
  split_and!.
  - apply (apply_list_slashes_ok params off); try done. by rewrite <- Hkeys.
  - rewrite (get_slashed_amount_ok params off); [by rewrite Hbt|done|done|done| |].
    + rewrite Hbt. apply Forall_fmap. eapply Forall_impl; [exact Hs|]. done.
    + by rewrite Hbt, length_fmap.
  - unfold remaining_after. lia.
  - unfold remaining_after.
    destruct (apply_fold (E:=E) params off Hoff amount slashes Ha Hs []) as [_ Hd];
      [constructor|by rewrite <- Hkeys|].
    pose proof (sum_charges_bound off amount _ Hd). destruct Ha. lia.
Qed.

Lemma slashing_routines_agree_witness :
  let slashes := [mkSlash 1 10 DuplicateVote (10 ^ 11); mkSlash 30 20 LightClientAttack (3 * 10 ^ 11)] in
  apply_list_slashes (U:=Ref.uint_ref) (E:=unit) sample_params slashes 1001
    = Ok (remaining_after 23 1001 (slash_pair <$> slashes)) /\
  get_slashed_amount (U:=Ref.uint_ref) (E:=unit) sample_params 1001 (list_to_map (slash_pair <$> slashes))
    = Ok (remaining_after 23 1001 (slash_pair <$> slashes)) /\
  0 <= remaining_after 23 1001 (slash_pair <$> slashes) <= 1001.
Proof.
  apply (slashing_routines_agree (HU:=Ref.uint_ref_laws) sample_params 23 1001);
    [done|lia|split; vm_compute; discriminate| | |vm_compute; discriminate].
  - repeat constructor; vm_compute; discriminate.
  - repeat constructor.
Defined.

(** Of two slashes of the same infraction epoch, [apply_list_slashes]
    forgets the first one when it computes what a later slash is charged on:
    the third slash is charged on the amount less the second slash alone. *)
Theorem same_epoch_slash_forgotten {U : UintOps} {HU : UintLaws U} {E : Type} (params : OwnedPosParams)
    (off amount : Z) (s1 s2 s3 : Slash) :
  (forall E, slash_processing_epoch_offset (E:=E) params = Ok off) -> 0 < off ->
  amount_ok amount -> Forall (slash_ok off) [s1; s2; s3] ->
  slash_epoch s1 = slash_epoch s2 -> slash_epoch s2 + off <= slash_epoch s3 ->
  let c1 := rate_of amount (slash_rate s1) in
  let c2 := rate_of amount (slash_rate s2) in
  let c3 := rate_of (amount - c2) (slash_rate s3) in
  apply_list_slashes (E:=E) params [s1; s2; s3] amount = Ok (Z.max 0 (amount - c1 - c2 - c3)).
Proof.
  intros Hoff H0 Ha Hs H12 H23 c1 c2 c3. pose proof (proj1 Ha) as Ha0. pose proof (amount_ok_u256 _ Ha) as Hu.
  unfold in_u256 in Hu.
  apply Forall_cons in Hs as [[He1 Hr1] Hs]. apply Forall_cons in Hs as [[He2 Hr2] Hs].
  apply Forall_cons in Hs as [[He3 Hr3] _].
  pose proof (rate_of_bounds amount _ Ha0 Hr1) as Hc1. pose proof (rate_of_bounds amount _ Ha0 Hr2) as Hc2.
  pose proof (rate_of_bounds (amount - c2) _ ltac:(unfold c2; lia) Hr3) as Hc3.
  fold c1 in Hc1. fold c2 in Hc2. fold c3 in Hc3.
  unfold apply_list_slashes, out_fold, apply_slash. cbn [fst snd].
  rewrite (compute_slashable_ok params off Hoff amount [] s1) by (done || constructor).
  cbn [out_bind charge fst snd slash_pair]. change (charged_before off [] _) with 0.
  rewrite Z.sub_0_r, Z.max_r by lia. fold c1.
  change (<[slash_epoch s1 := c1]> ∅) with (list_to_map [(slash_epoch s1, c1)] : gmap Z Z).
  rewrite (compute_slashable_ok params off Hoff amount [(slash_epoch s1, c1)] s2)
    by (done || (constructor; [done|constructor]) || (apply NoDup_singleton)).
  cbn [out_bind charge fst snd slash_pair]. rewrite charged_before_cons. cbn [fst snd].
  rewrite (proj2 (Z.leb_gt (slash_epoch s1 + off) (slash_epoch s2))) by lia.
  change (charged_before off [] _) with 0. rewrite Z.add_0_l, Z.sub_0_r, Z.max_r by lia. fold c2.
  rewrite H12. change (list_to_map [(slash_epoch s2, c1)] : gmap Z Z) with (<[slash_epoch s2 := c1]> (∅ : gmap Z Z)).
  rewrite insert_insert_eq.
  change (<[slash_epoch s2 := c2]> ∅) with (list_to_map [(slash_epoch s2, c2)] : gmap Z Z).
  rewrite (compute_slashable_ok params off Hoff amount [(slash_epoch s2, c2)] s3)
    by (done || (constructor; [done|constructor]) || (apply NoDup_singleton)).
  cbn [out_bind charge fst snd slash_pair]. rewrite charged_before_cons. cbn [fst snd].
  rewrite (proj2 (Z.leb_le (slash_epoch s2 + off) (slash_epoch s3))) by lia.
  change (charged_before off [] _) with 0. rewrite Z.add_0_r, (Z.max_r 0 (amount - c2)) by lia. fold c3.
  rewrite (sub_or_zero_eq amount c1) by (unfold in_u256; lia).
  rewrite (sub_or_zero_eq _ c2) by (unfold in_u256; lia).
  rewrite (sub_or_zero_eq _ c3) by (unfold in_u256; lia). f_equal. lia.
Qed.

(** Slashes of 30%, 20% and, later, 50% of 1000 tokens leave 100 tokens; the
    same slashes merged by epoch leave 250. *)
Lemma same_epoch_slash_forgotten_witness :
  let slashes := [mkSlash 1 1 DuplicateVote (3 * 10 ^ 11); mkSlash 1 2 DuplicateVote (2 * 10 ^ 11);
                  mkSlash 30 9 DuplicateVote (5 * 10 ^ 11)] in
  apply_list_slashes (U:=Ref.uint_ref) (E:=unit) sample_params slashes 1000 = Ok 100 /\
  (let* m := find_slashes_in_range (U:=Ref.uint_ref) (E:=unit) slashes 0 None in
   get_slashed_amount (U:=Ref.uint_ref) sample_params 1000 m)%out = Ok 250.
Proof.
  split.
  - rewrite (same_epoch_slash_forgotten (HU:=Ref.uint_ref_laws) sample_params 23 1000);
      [reflexivity|done|lia|split; vm_compute; discriminate| |done|vm_compute; discriminate].
    repeat constructor; vm_compute; discriminate.
  - vm_compute. reflexivity.
Defined.

(** ** Amounts stay amounts *)
Definition slash_wf (s : Slash) : Prop := i256_wf (slash_rate s).
Definition amounts_wf (m : gmap Z Z) : Prop := forall e a, m !! e = Some a -> in_u256 a.
Definition redelegated_wf (m : gmap Address (gmap Z Z)) : Prop := forall v b, m !! v = Some b -> amounts_wf b.

Record reads_wf (storage : SlashReads) : Prop := {
  slashes_wf v : Forall slash_wf (slashes_of storage v);
  total_bonded_wf v : amounts_wf (total_bonded storage v);
  total_unbonded_wf v e m : total_unbonded storage v !! e = Some m -> amounts_wf m;
  total_redelegated_bonded_wf v e m :
    total_redelegated_bonded storage v !! e = Some m -> redelegated_wf m;
  total_redelegated_unbonded_wf v e m e' m' :
    total_redelegated_unbonded storage v !! e = Some m -> m !! e' = Some m' -> redelegated_wf m'
}.

Section ranges.
Context {U : UintOps} {HU : UintLaws U} {E : Type}.

Lemma zero_u256 : in_u256 0.
Proof. apply u8_u256. lia. Qed.

Lemma amount_add_inv a b c : in_u256 a -> in_u256 b -> amount_add (E:=E) a b = Ok c ->
  c = a + b /\ in_u256 c.
Proof.
  intros Ha Hb. unfold amount_add, uint_add. rewrite uint_op_add_law by done.
  destruct (Z.leb_spec (a + b) MAX_VALUE); [|done]. intros [= <-]. unfold in_u256 in *. lia.
Qed.

Lemma amount_sub_inv a b c : in_u256 a -> in_u256 b -> amount_sub (E:=E) a b = Ok c ->
  b <= a /\ c = a - b /\ in_u256 c.
Proof.
  intros Ha Hb. unfold amount_sub, uint_sub. rewrite uint_op_sub_law by done.
  destruct (Z.leb_spec b a); [|done]. intros [= <-]. unfold in_u256 in *. lia.
Qed.

Lemma sub_or_zero_u256 a b : in_u256 a -> in_u256 b -> in_u256 (sub_or_zero a b).
Proof. intros. rewrite sub_or_zero_eq by done. unfold in_u256 in *. lia. Qed.

Lemma mul_ceil_u256 a r c : in_u256 a -> i256_wf r -> amount_mul_ceil (E:=E) a r = Ok c -> in_u256 c.
Proof.
  intros Ha Hr Hc. destruct (decide (0 <= sval r)) as [Hs|Hs].
  - rewrite amount_mul_ceil_eq in Hc by done. destruct (Z.leb_spec (a * sval r) MAX_VALUE) as [Hm|]; [|done].
    injection Hc as <-. unfold in_u256 in *. pose proof SC_pos as HS.
    pose proof (Z.mul_nonneg_nonneg a (sval r) ltac:(lia) Hs) as Hp.
    set (x := a * sval r) in *. clearbody x.
    assert (div_ceil x SC <= x /\ 0 <= div_ceil x SC); [|lia]. rewrite div_ceil_eq by done.
    clear -Hp HS. unfold SC in *. Z.to_euclidean_division_equations. lia.
  - unfold amount_mul_ceil in Hc. rewrite is_negative_spec in Hc by apply Hr.
    rewrite (proj2 (Z.ltb_lt (sval r) 0)) in Hc by lia. done.
Qed.

Lemma apply_list_slashes_u256 params slashes a c : Forall slash_wf slashes -> in_u256 a ->
  apply_list_slashes (E:=E) params slashes a = Ok c -> in_u256 c /\ c <= a.
Proof.
  intros Hs Ha. unfold apply_list_slashes. intros ([x m] & Hf & [= <-])%out_bind_Ok. simpl.
  assert ((in_u256 x /\ x <= a) /\ amounts_wf m) as [? _]; [|done].
  apply (out_fold_inv (fun p => (in_u256 p.1 /\ p.1 <= a) /\ amounts_wf p.2) _ _ _ _) in Hf; [done| |].
  - intros [y n] s [y' n'] Hin [[Hy Hya] Hn] Hstep. unfold apply_slash in Hstep. simpl in *.
    apply out_bind_Ok in Hstep as (z & Hz & [= <- <-]).
    unfold compute_slashable_amount in Hz. apply out_bind_Ok in Hz as (u & Hu & Hz).
    assert (in_u256 u) as Hu'.
    { apply (out_fold_inv in_u256) in Hu; [done| |done]. intros b e b' He Hb Hb'.
      apply out_bind_Ok in Hb' as (q & _ & [= <-]). destruct q; [|done].
      apply sub_or_zero_u256; [done|]. apply (Hn e.1). apply elem_of_bt_list, list_elem_of_In.
      by destruct e. }
    rewrite Forall_forall in Hs. apply list_elem_of_In in Hin. specialize (Hs s Hin).
    pose proof (mul_ceil_u256 _ _ _ Hu' Hs Hz) as Hz'. split; [rewrite sub_or_zero_eq by done; unfold in_u256 in *; lia|].
    intros e b [[_ <-]|[_ ?]]%lookup_insert_Some; [done|eauto].
  - split; [done|]. intros e b. simpl. by rewrite lookup_empty.
Qed.

Lemma entries2_wf (m : gmap Address (gmap Z Z)) v e a : redelegated_wf m -> (v, e, a) ∈ entries2 m ->
  in_u256 a.
Proof.
  intros Hm. unfold entries2. rewrite list_elem_of_bind. intros ([v' b] & Hin & Hb%elem_of_map_to_list).
  apply list_elem_of_bind in Hin as ([e' a'] & Hin & He%elem_of_bt_list).
  apply list_elem_of_singleton in Hin. simplify_eq/=. by eapply Hm.
Qed.

Lemma out_filter_subset (f : Slash -> outcome E bool) l r : Forall slash_wf l ->
  out_filter f l = Ok r -> Forall slash_wf r.
Proof.
  intros Hl. revert r. induction Hl as [|s l Hs Hl IH]; intros r Hr; simpl in Hr; [by injection Hr as <-|].
  apply out_bind_Ok in Hr as (b & _ & Hr). apply out_bind_Ok in Hr as (r' & Hr' & [= <-]).
  destruct b; [constructor; auto|auto].
Qed.

(** The redelegated tokens are added up, and slashing does not add to them. *)
Lemma fold_redelegated_u256 storage params m start l flt res : (forall v, Forall slash_wf (slashes_of storage v)) ->
  redelegated_wf m -> Forall slash_wf l ->
  fold_and_slash_redelegated_bonds (E:=E) storage params m start l flt = Ok res ->
  in_u256 (total_redelegated res) /\ in_u256 (total_after_slashing res) /\
  total_after_slashing res <= total_redelegated res /\ total_redelegated res = sumZ ((fun t => t.2) <$> entries2 m).
Proof.
  intros Hst Hm Hl. unfold fold_and_slash_redelegated_bonds. set (acc := mkFoldRes 0 0).
  replace (sumZ _) with (total_redelegated acc + sumZ ((fun t => t.2) <$> entries2 m)) by (cbn; lia).
  assert (in_u256 (total_redelegated acc) /\ in_u256 (total_after_slashing acc) /\ total_after_slashing acc <= total_redelegated acc) as Hacc
    by (split_and!; [apply zero_u256..|done]).
  assert (Forall (fun t => in_u256 t.2) (entries2 m)) as Hes.
  { apply Forall_forall. intros [[v e] a] Hin. by apply (entries2_wf m) in Hin. }
  clearbody acc. revert acc Hacc. induction Hes as [|[[v e] a] es Ha Hes IH]; intros acc (H1 & H2 & H3) Hf.
  { injection Hf as <-. rewrite fmap_nil, sumZ_nil. split_and!; done || lia. }
  cbn [out_fold] in Hf. apply out_bind_Ok in Hf as (acc1 & Hstep & Hf). cbn [snd] in Ha.
  apply out_bind_Ok in Hstep as (own & Hown & Hstep). apply out_filter_subset in Hown; [|apply Hst].
  apply out_bind_Ok in Hstep as (t & Ht & Hstep). apply out_bind_Ok in Hstep as (s & Hs & Hstep).
  apply out_bind_Ok in Hstep as (u & Hu & [= <-]).
  apply amount_add_inv in Ht as [-> ?]; [|done|done].
  apply apply_list_slashes_u256 in Hs as [Hs Hsa]; [|rewrite sort_by_perm; by apply Forall_app|done].
  apply amount_add_inv in Hu as [-> ?]; [|done|done].
  apply IH in Hf; [|cbn; split_and!; done || lia]. cbn in Hf. rewrite fmap_cons, sumZ_cons. cbn [snd]. by rewrite Z.add_assoc.
Qed.

Lemma compute_bond_u256 storage params v ep start a rb c : reads_wf storage -> in_u256 a ->
  (forall m, rb = Some m -> redelegated_wf m) ->
  compute_bond_at_epoch (E:=E) storage params v ep start a rb = Ok c -> in_u256 c.
Proof.
  intros Hst Ha Hrb Hc. unfold compute_bond_at_epoch in Hc.
  apply out_bind_Ok in Hc as (l & Hl & Hc). apply out_filter_subset in Hl; [|apply Hst].
  apply out_bind_Ok in Hc as (f & Hf & Hc).
  assert (in_u256 (total_redelegated f) /\ in_u256 (total_after_slashing f)) as [Hf1 Hf2].
  { destruct rb as [m|]; [|injection Hf as <-; split; apply zero_u256].
    apply fold_redelegated_u256 in Hf as (? & ? & _); [done|apply Hst|by apply Hrb|done]. }
  apply out_bind_Ok in Hc as (t & Ht & Hc). apply amount_sub_inv in Ht as (_ & _ & ?); [|done|done].
  apply out_bind_Ok in Hc as (s & Hs & Hc). apply apply_list_slashes_u256 in Hs as [Hs _]; [|done|done].
  apply amount_add_inv in Hc as [_ ?]; done.
Qed.

Lemma slash_bond_u256 storage params v ep inf start a rb rate c : reads_wf storage -> in_u256 a ->
  i256_wf rate -> (forall m, rb = Some m -> redelegated_wf m) ->
  compute_slash_bond_at_epoch (E:=E) storage params v ep inf start a rb rate = Ok c -> in_u256 c.
Proof.
  intros Hst Ha Hr Hrb Hc. unfold compute_slash_bond_at_epoch in Hc.
  apply out_bind_Ok in Hc as (d & Hd & Hc). apply compute_bond_u256 in Hd; [|done..].
  apply out_bind_Ok in Hc as (x & Hx & Hc). apply mul_ceil_u256 in Hx; [|done..].
  apply out_bind_Ok in Hc as (y & Hy & [= <-]). apply compute_bond_u256 in Hy; [|done..].
  unfold in_u256 in *. lia.
Qed.
End ranges.

(** ** The slashed amounts of a validator fall with the epochs *)
Definition falling (m : gmap Z Z) : Prop :=
  forall e e' x x', e < e' -> m !! e = Some x -> m !! e' = Some x' -> x' <= x.

Section slash_validator_shape.
Context {U : UintOps} {HU : UintLaws U} {E : Type} (storage : SlashReads) (params : OwnedPosParams).
Context (Hst : reads_wf storage) (v : Address) (inf rate : Z) (Hrate : i256_wf rate).

Record acc_wf (acc : slash_acc) : Prop := {
  acc_bonds_wf : amounts_wf (acc_bonds acc);
  acc_redelegated_wf e m : acc_redelegated acc !! e = Some m -> redelegated_wf m;
  acc_sum_wf : in_u256 (acc_sum acc);
  acc_amounts_wf e x : acc_amounts acc !! e = Some x -> 0 <= x <= acc_sum acc;
  acc_falling : falling (acc_amounts acc)
}.

Lemma redelegated_empty : redelegated_wf ∅.
Proof. intros ? ?. by rewrite lookup_empty. Qed.

Lemma add_to_fresh m ep x m' : m !! ep = None -> in_u256 x -> add_to (E:=E) m ep x = Ok m' ->
  m' = <[ep := x]> m.
Proof.
  intros Hn Hx. unfold add_to. rewrite Hn. intros (y & Hy & [= <-])%out_bind_Ok.
  apply amount_add_inv in Hy as [-> _]; [done|apply zero_u256|done].
Qed.

Lemma slash_step_wf acc ep acc' : acc_wf acc -> (forall e x, acc_amounts acc !! e = Some x -> ep < e) ->
  slash_validator_step (E:=E) storage params v inf rate acc ep = Ok acc' ->
  acc_wf acc' /\ exists x, acc_amounts acc' = <[ep := x]> (acc_amounts acc).
Proof.
  intros [Hb Hrd Hs Ha Hf] Hep Hstep. unfold slash_validator_step in Hstep.
  apply out_bind_Ok in Hstep as (a & Hfold & Hstep). apply out_bind_Ok in Hstep as (s & Hsum & Hstep).
  apply out_bind_Ok in Hstep as (m & Hm & [= <-]).
  assert (in_u256 a) as Ha'.
  { apply (out_fold_inv in_u256) in Hfold; [done| |apply zero_u256]. intros b [e x] b' He Hb0 Hb1.
    apply out_bind_Ok in Hb1 as (y & Hy & Hb1). apply slash_bond_u256 in Hy; [|done| |done|].
    - apply amount_add_inv in Hb1 as [_ ?]; done.
    - apply (Hb e), elem_of_bt_list, list_elem_of_In, He.
    - intros m'. apply Hrd. }
  apply amount_add_inv in Hsum as [-> Hs']; [|done|done].
  apply add_to_fresh in Hm as ->; [| |done].
  2:{ destruct (acc_amounts acc !! ep) eqn:Hx; [|done]. apply Hep in Hx. lia. }
  unfold in_u256 in Ha', Hs. split; [|by eexists]. split; simpl.
  - intros e x [Hx _]%map_lookup_filter_Some. destruct (total_unbonded storage v !! ep) eqn:Ht; simpl in Hx.
    + by eapply (total_unbonded_wf _ Hst v ep).
    + by rewrite lookup_empty in Hx.
  - intros e m. rewrite map_lookup_imap. intros (y & _ & Hy)%bind_Some.
    destruct (nonempty_map _); [|done]. injection Hy as <-.
    destruct (total_redelegated_unbonded storage v !! ep) as [m1|] eqn:Ht; simpl.
    + destruct (m1 !! e) as [m2|] eqn:Hm; simpl; [|apply redelegated_empty].
      by eapply (total_redelegated_unbonded_wf _ Hst v ep).
    + rewrite lookup_empty. apply redelegated_empty.
  - done.
  - intros e x [[_ <-]|[_ Hx]]%lookup_insert_Some; [unfold in_u256 in Hs'; lia|].
    apply Ha in Hx. lia.
  - intros e e' x x' He [[<- <-]|[_ Hx]]%lookup_insert_Some [[<- <-]|[_ Hx']]%lookup_insert_Some.
    + lia.
    + apply Ha in Hx'. lia.
    + apply Hep in Hx. lia.
    + by eapply Hf.
Qed.

Lemma slash_loop_wf l : forall acc acc', acc_wf acc -> StronglySorted (fun x y => y < x) l ->
  (forall e x ep, acc_amounts acc !! e = Some x -> In ep l -> ep < e) ->
  out_fold (slash_validator_step (E:=E) storage params v inf rate) l acc = Ok acc' ->
  acc_wf acc' /\
  forall e, is_Some (acc_amounts acc' !! e) <-> is_Some (acc_amounts acc !! e) \/ In e l.
Proof.
  induction l as [|ep l IH]; intros acc acc' Hacc Hl Hep Hrun; simpl in Hrun.
  - injection Hrun as <-. split; [done|]. intros e. simpl. tauto.
  - apply out_bind_Ok in Hrun as (acc1 & H1 & Hrun). apply StronglySorted_inv in Hl as [Hl Hlt].
    apply slash_step_wf in H1 as [Hw (x & Hx)]; [|done|intros e y Hy; apply (Hep e y); [done|by left]].
    rewrite Forall_forall in Hlt.
    apply IH in Hrun as [Hw' Hdom]; [|done|done|].
    + split; [done|]. intros e. rewrite Hdom, Hx, lookup_insert_is_Some. simpl.
      destruct (decide (ep = e)); tauto.
    + intros e y ep' Hy Hin. rewrite Hx in Hy.
      apply lookup_insert_Some in Hy as [[<- _]|[_ Hy]]; [by apply Hlt, list_elem_of_In|].
      apply (Hep e y); [done|by right].
Qed.
End slash_validator_shape.

Lemma seqZ_rev_sorted c n : StronglySorted (fun x y => y < x) (rev (seqZ c (Z.of_nat n))).
Proof.
  induction n as [|n IH]; [constructor|].
  replace (Z.of_nat (S n)) with (Z.of_nat n + 1) by lia. rewrite seqZ_app by lia. rewrite rev_app_distr.
  rewrite (seqZ_cons (c + Z.of_nat n) 1) by lia. simpl. constructor; [done|].
  apply Forall_forall. intros x Hx. apply list_elem_of_In, in_rev, list_elem_of_In, elem_of_seqZ in Hx. lia.
Qed.

(** [slash_deltas] returns only for amounts that rise with the epochs. *)
Lemma slash_deltas_rising {U : UintOps} {HU : UintLaws U} {E} (l : list (Z * Z)) :
  Forall (fun e => in_u256 e.2) l -> forall (acc : Z * list (Z * Z)) r, in_u256 acc.1 ->
  out_fold (fun acc e =>
      (let* slash_delta := amount_sub (E:=E) e.2 acc.1 in
       let* slash_acc := amount_add acc.1 slash_delta in
       let* chg := change slash_delta in
       Ok (slash_acc, acc.2 ++ [(e.1, neg chg)]))%out) l acc = Ok r ->
  StronglySorted Z.le (acc.1 :: l.*2).
Proof.
  induction 1 as [|[e x] l Hx Hl IH]; intros acc r Ha Hr; [repeat constructor|]. simpl in *.
  apply out_bind_Ok in Hr as (a1 & Hstep & Hr).
  apply out_bind_Ok in Hstep as (d & Hd & Hstep). apply amount_sub_inv in Hd as (Hle & -> & Hd); [|done..].
  apply out_bind_Ok in Hstep as (s & Hs & Hstep). apply amount_add_inv in Hs as [-> Hs]; [|done..].
  apply out_bind_Ok in Hstep as (c & _ & [= <-]). apply IH in Hr; [|done]. simpl in Hr.
  replace (acc.1 + (x - acc.1)) with x in Hr by lia.
  constructor; [done|]. constructor; [done|]. apply StronglySorted_inv in Hr as [_ Hr].
  eapply Forall_impl; [exact Hr|]. simpl. lia.
Qed.

(** In a list sorted by key whose values rise, a larger key has a larger value. *)
Lemma sorted_values (l : list (Z * Z)) e e' x x' : StronglySorted (key_le fst) l ->
  StronglySorted Z.le l.*2 -> (e, x) ∈ l -> (e', x') ∈ l -> e < e' -> x <= x'.
Proof.
  intros Hk. induction Hk as [|[k y] l Hk IH Hall]; intros Hv Hx Hx' He; [by apply not_elem_of_nil in Hx|].
  simpl in Hv. apply StronglySorted_inv in Hv as [Hv Hally].
  pose proof (proj1 (Forall_forall _ _) Hally) as Hally'. rewrite Forall_forall in Hall.
  apply elem_of_cons in Hx as [[= <- <-]|Hx]; apply elem_of_cons in Hx' as [[= <- <-]|Hx'].
  - lia.
  - apply Hally'. by apply (list_elem_of_fmap_2 snd) in Hx'.
  - specialize (Hall _ Hx). unfold key_le in Hall. simpl in Hall. lia.
  - by eapply IH.
Qed.

(** The amounts to slash from a misbehaving validator fall with the epochs,
    because tokens unbonded in the meantime are only slashed in the earlier
    ones, but the loop of [process_slashes] subtracts the amount of an earlier
    epoch from that of the next: if it returns at all, the amounts are the same
    in all the epochs. Stake unbonded between two of the epochs makes it stop
    the thread. *)
Theorem slash_deltas_need_equal_amounts {U : UintOps} {HU : UintLaws U} {E : Type} (storage : SlashReads)
    (params : OwnedPosParams) (validator : Address) (rate current_epoch : Z) (m : gmap Z Z)
    (ds : list (Z * Z)) :
  reads_wf storage -> i256_wf rate -> 0 < pipeline_len params ->
  slash_validator (E:=E) storage params validator rate current_epoch ∅ = Ok m ->
  slash_deltas (E:=E) m = Ok ds ->
  forall e e' x x', m !! e = Some x -> m !! e' = Some x' -> x = x'.
Proof.
  intros Hst Hrate Hp Hm Hds. unfold slash_validator in Hm.
  apply out_bind_Ok in Hm as (off & _ & Hm). apply out_bind_Ok in Hm as (inf & _ & Hm).
  apply out_bind_Ok in Hm as (eps & Heps & Hm). apply out_bind_Ok in Hm as (acc & Hrun & Hm).
  apply out_bind_Ok in Hm as (pe & Hpe & Hm). apply out_bind_Ok in Hm as (prev & Hprev & Hm).
  apply out_bind_Ok in Hm as (last_amt & Hlast & [= <-]). apply unwrap_Ok in Hlast.
  unfold iter_range, epoch_add, epoch_prev, u64_add, u64_sub in *.
  apply out_bind_Ok in Heps as (en & Hen & [= <-]). apply unwrap_Ok, u64_checked_add_Some in Hen as [-> _].
  apply unwrap_Ok, u64_checked_add_Some in Hpe as [-> _]. apply unwrap_Ok, u64_checked_sub_Some in Hprev as [-> _].
  replace (current_epoch + pipeline_len params - current_epoch) with (Z.of_nat (Z.to_nat (pipeline_len params)))
    in Hrun by lia.
  apply (slash_loop_wf storage params Hst validator inf rate Hrate) in Hrun as [Hw Hdom];
    [| |apply seqZ_rev_sorted|intros e x ep; simpl; by rewrite lookup_empty].
  2:{ split; simpl; try done.
      - intros e x [Hx _]%map_lookup_filter_Some. by eapply (total_bonded_wf _ Hst validator).
      - intros e m'. rewrite map_lookup_imap. intros (y & _ & Hy)%bind_Some.
        destruct (nonempty_map _); [|done]. injection Hy as <-.
        destruct (total_redelegated_bonded storage validator !! e) eqn:Ht; simpl; [|apply redelegated_empty].
        by eapply (total_redelegated_bonded_wf _ Hst validator). }
  set (p := current_epoch + pipeline_len params) in *.
  assert (forall e x, acc_amounts acc !! e = Some x -> e < p) as Hbound.
  { intros e x Hx. assert (is_Some (acc_amounts acc !! e)) as Hsome by (by rewrite Hx).
    apply Hdom in Hsome as [[y Hy]|Hin]; [simpl in Hy; by rewrite lookup_empty in Hy|].
    apply in_rev, list_elem_of_In, elem_of_seqZ in Hin. unfold p. lia. }
  destruct Hw as [_ _ Hsum Hamt Hfall]. unfold in_u256 in Hsum.
  unfold slash_deltas in Hds. apply out_bind_Ok in Hds as (r & Hr & _).
  apply slash_deltas_rising in Hr as Hrise; [| |apply zero_u256].
  2:{ apply List.Forall_forall. intros [e x] Hin%list_elem_of_In%elem_of_bt_list. simpl. unfold in_u256.
      apply lookup_insert_Some in Hin as [[_ <-]|[_ Hin]]; [apply Hamt in Hlast|apply Hamt in Hin]; lia. }
  simpl in Hrise. apply StronglySorted_inv in Hrise as [Hrise _].
  assert (forall e e' x x', e < e' -> <[p := last_amt]> (acc_amounts acc) !! e = Some x ->
    <[p := last_amt]> (acc_amounts acc) !! e' = Some x' -> x = x') as Hlt.
  { intros e e' x x' He Hx Hx'. apply Z.le_antisymm.
    - pose proof (sort_by_sorted fst (map_to_list (<[p := last_amt]> (acc_amounts acc)))) as Hsorted.
      change (sort_by fst (map_to_list ?m)) with (bt_list m) in Hsorted.
      apply elem_of_bt_list in Hx, Hx'.
      apply (sorted_values _ e e' x x' Hsorted Hrise Hx Hx' He).
    - apply lookup_insert_Some in Hx as [[<- <-]|[_ Hx]]; apply lookup_insert_Some in Hx' as [[<- <-]|[_ Hx']].
      + lia.
      + apply Hbound in Hx'. lia.
      + destruct (decide (e = p - 1)) as [->|]; [rewrite Hlast in Hx; injection Hx as ->; lia|].
        apply Hbound in Hx as Hb. eapply (Hfall e (p - 1)); [lia|done|done].
      + by eapply (Hfall e e'). }
  intros e e' x x' Hx Hx'. destruct (Z.lt_trichotomy e e') as [He|[->|He]].
  - by eapply Hlt.
  - congruence.
  - symmetry. by eapply (Hlt e' e).
Qed.

(** A validator with one bond; and one with a part of the bond unbonded at
    epoch 25, for which the loop stops. *)
Definition sample_reads (unbonded : gmap Z (gmap Z Z)) : SlashReads := {|
  slashes_of _ := []; total_bonded _ := {[1 := 1000]}; total_unbonded _ := unbonded;
  total_redelegated_bonded _ := ∅; total_redelegated_unbonded _ := ∅; outgoing_redelegations _ := ∅
|}.

Lemma slash_deltas_need_equal_amounts_witness :
  (exists m ds,
    slash_validator (U:=Ref.uint_ref) (E:=unit) (sample_reads ∅) sample_params (Established 1) (10 ^ 11) 24 ∅
      = Ok m /\ slash_deltas (U:=Ref.uint_ref) (E:=unit) m = Ok ds /\
    forall e e' x x', m !! e = Some x -> m !! e' = Some x' -> x = x') /\
  (let* m := slash_validator (U:=Ref.uint_ref) (E:=unit) (sample_reads {[25 := {[1 := 500]}]})
               sample_params (Established 1) (10 ^ 11) 24 ∅ in
   slash_deltas (U:=Ref.uint_ref) m)%out = Panic.
Proof.
  split; [|vm_compute; reflexivity].
  exists {[24 := 100; 25 := 100; 26 := 100]}, [(24, neg (U:=Ref.uint_ref) 100); (25, 0); (26, 0)].
  assert (slash_validator (U:=Ref.uint_ref) (E:=unit) (sample_reads ∅) sample_params (Established 1) (10 ^ 11) 24 ∅
      = Ok {[24 := 100; 25 := 100; 26 := 100]}) as Hv by (vm_compute; reflexivity).
  assert (slash_deltas (U:=Ref.uint_ref) (E:=unit) {[24 := 100; 25 := 100; 26 := 100]}
      = Ok [(24, neg (U:=Ref.uint_ref) 100); (25, 0); (26, 0)]) as Hd by (vm_compute; reflexivity).
  split; [exact Hv|]. split; [exact Hd|].
  apply (slash_deltas_need_equal_amounts (HU:=Ref.uint_ref_laws) (E:=unit) (sample_reads ∅) sample_params
           (Established 1) (10 ^ 11) 24 {[24 := 100; 25 := 100; 26 := 100]}
           [(24, neg (U:=Ref.uint_ref) 100); (25, 0); (26, 0)]).
  - split; simpl.
    + intros _. constructor.
    + intros _ e a [_ <-]%lookup_singleton_Some. split; vm_compute; discriminate.
    + intros _ e m. rewrite lookup_empty. discriminate.
    + intros _ e m. rewrite lookup_empty. discriminate.
    + intros _ e m e' m'. rewrite lookup_empty. discriminate.
  - split; [split|]; vm_compute; discriminate.
  - reflexivity.
  - exact Hv.
  - exact Hd.
Defined.
