(* ===== verification/Unbond.v ===== *)
(** * What an unbond takes from bonds and redelegations

    [find_bonds_to_remove], [compute_modified_redelegation],
    [update_redelegated_bonds] and [compute_new_redelegated_unbonds] of
    [proof_of_stake/src/lib.rs]. A bond is a map from start epochs to amounts; the redelegated part
    of a bond is a map from source validators to such maps. A lazy map without
    entries is not distinguished from one that is absent.

    The theorems: the latest bonds are used first and add up to the amount; the
    redelegated tokens are split, without loss, between what stays bonded and
    what is unbonded. *)

From stdpp Require Import sorting base numbers list gmap.
From Stdlib Require Import ZArith Lia.
From S2P Require Import Prelude Uint Int256 Dec Keys Epoch Params Epoched Slash.

Local Open Scope Z_scope.
Local Open Scope outcome_scope.

Record BondsForRemovalRes : Type := mkRemoval { epochs : gset Epoch; new_entry : option (Epoch * Z) }.

Record ModifiedRedelegation : Type := mkModified {
  mod_epoch : option Epoch;
  validators_to_remove : gset Address;
  validator_to_modify : option Address;
  epochs_to_remove : gset Epoch;
  epoch_to_modify : option Epoch;
  new_amount : option Z
}.
Definition default_modified : ModifiedRedelegation := mkModified None ∅ None ∅ None None.

Section unbond_ops.
Context {C : AddressCodec} {U : UintOps} {E : Type}.

(** [Ord for Address]: the order of the encodings *)
Definition address_le (a b : Address) : bool :=
  match str_cmp (addr_encode a) (addr_encode b) with Gt => false | _ => true end.
Definition sorted_addresses (s : gset Address) : list Address := sort_le address_le (elements s).
Definition sorted_epochs (s : gset Epoch) : list Epoch := sort_by id (elements s).

(** The loop of [find_bonds_to_remove] *)
Fixpoint remove_loop (bonds : list (Epoch * Z)) (remaining : Z) (res : BondsForRemovalRes)
  : outcome E BondsForRemovalRes :=
  match bonds with
  | [] => Ok res
  | (bond_epoch, bond_amount) :: rest =>
      let to_unbond := Z.min bond_amount remaining in
      let* res' :=
        if to_unbond =? bond_amount then Ok (mkRemoval ({[bond_epoch]} ∪ epochs res) (new_entry res))
        else let* left := amount_sub bond_amount to_unbond in
             Ok (mkRemoval (epochs res) (Some (bond_epoch, left))) in
      let* remaining' := amount_sub remaining to_unbond in
      if amount_is_zero remaining' then Ok res' else remove_loop rest remaining' res'
  end.

Definition find_bonds_to_remove (bonds : gmap Epoch Z) (amount : Z) : outcome E BondsForRemovalRes :=
  remove_loop (rev (bt_list bonds)) amount (mkRemoval ∅ None).

(** The validators with redelegated bonds *)
Definition src_validators (rt : RedelegatedBondsMap) : gset Address :=
  list_to_set ((fun e => e.1.1) <$> entries2 rt).
Definition rt_amounts (rt : RedelegatedBondsMap) (v : Address) : gmap Epoch Z := default ∅ (rt !! v).

(** The loop of [compute_modified_redelegation] over the source validators *)
Fixpoint modify_loop (rt : RedelegatedBondsMap) (validators : list Address) (remaining : Z)
    (m : ModifiedRedelegation) : outcome E ModifiedRedelegation :=
  match validators with
  | [] => Ok m
  | v :: rest =>
      if amount_is_zero remaining then Ok m
      else
        let* total_src_val_amount := amount_sum (bt_list (rt_amounts rt v)).*2 in
        let removed := {[v]} ∪ validators_to_remove m in
        if total_src_val_amount <=? remaining then
          let* remaining' := amount_sub remaining total_src_val_amount in
          modify_loop rt rest remaining'
            (mkModified (mod_epoch m) removed (validator_to_modify m) (epochs_to_remove m)
               (epoch_to_modify m) (new_amount m))
        else
          let* bonds_to_remove := find_bonds_to_remove (rt_amounts rt v) remaining in
          modify_loop rt rest 0
            match new_entry bonds_to_remove with
            | Some (bond_epoch, new_bond_amount) =>
                mkModified (mod_epoch m) removed (Some v) ({[bond_epoch]} ∪ epochs bonds_to_remove)
                  (Some bond_epoch) (Some new_bond_amount)
            | None =>
                mkModified (mod_epoch m) removed (Some v) (epochs bonds_to_remove) (epoch_to_modify m)
                  (new_amount m)
            end
  end.

Definition compute_modified_redelegation (rt : RedelegatedBondsMap) (start_epoch : Epoch)
    (amount_to_unbond : Z) : outcome E ModifiedRedelegation :=
  let* total := amount_sum ((fun e => e.2) <$> entries2 rt) in
  let m := mkModified (Some start_epoch) ∅ None ∅ None None in
  if total <=? amount_to_unbond then Ok m
  else modify_loop rt (sorted_addresses (src_validators rt)) amount_to_unbond m.

Definition remove_validators (vs : gset Address) (rt : RedelegatedBondsMap) : RedelegatedBondsMap :=
  filter (fun e => e.1 ∉ vs) rt.
Definition remove_epochs (es : gset Epoch) (b : gmap Epoch Z) : gmap Epoch Z :=
  filter (fun e => e.1 ∉ es) b.

Definition update_redelegated_bonds (m : ModifiedRedelegation) (rt : RedelegatedBondsMap)
  : outcome E RedelegatedBondsMap :=
  match validator_to_modify m with
  | Some val_to_modify =>
      let rt := remove_validators (validators_to_remove m ∖ {[val_to_modify]}) rt in
      match epoch_to_modify m with
      | Some epoch =>
          let b := remove_epochs (epochs_to_remove m ∖ {[epoch]}) (rt_amounts rt val_to_modify) in
          let* a := unwrap (new_amount m) in
          Ok (<[val_to_modify := <[epoch := a]> b]> rt)
      | None =>
          Ok (<[val_to_modify := remove_epochs (epochs_to_remove m) (rt_amounts rt val_to_modify)]> rt)
      end
  | None => Ok (remove_validators (validators_to_remove m) rt)
  end.

(** [rbonds.entry(validator).or_default().insert(epoch, amount)] *)
Definition put (rb : RedelegatedBondsMap) (e : Address * Epoch * Z) : RedelegatedBondsMap :=
  <[e.1.1 := <[e.1.2 := e.2]> (rt_amounts rb e.1.1)]> rb.
Definition put_all (l : list (Address * Epoch * Z)) : RedelegatedBondsMap := foldl put ∅ l.

(** The tokens of one source validator that are unbonded *)
Definition unbonded_of (rt : RedelegatedBondsMap) (m : ModifiedRedelegation) (src_validator : Address)
  : outcome E (list (Address * Epoch * Z)) :=
  if bool_decide (validator_to_modify m = Some src_validator) then
    out_map (fun bond_start =>
        let cur_redel_bond_amount := default 0 (rt_amounts rt src_validator !! bond_start) in
        if bool_decide (epoch_to_modify m = Some bond_start) then
          let* a := unwrap (new_amount m) in
          let* d := amount_sub cur_redel_bond_amount a in
          Ok (src_validator, bond_start, d)
        else Ok (src_validator, bond_start, cur_redel_bond_amount))
      (sorted_epochs (epochs_to_remove m))
  else Ok ((fun e => (src_validator, e.1, e.2)) <$> bt_list (rt_amounts rt src_validator)).

(** The redelegated tokens unbonded from the bond that started at [start] *)
Definition unbonded_at (rt : RedelegatedBondsMap) (m : ModifiedRedelegation) (start : Epoch)
  : outcome E RedelegatedBondsMap :=
  if negb (bool_decide (mod_epoch m = Some start)) || bool_decide (validators_to_remove m = ∅) then
    Ok (put_all (entries2 rt))
  else
    let* l := out_map (unbonded_of rt m) (sorted_addresses (validators_to_remove m)) in
    Ok (put_all (concat l)).

(** [NestedMap::contains] *)
Definition contains (rbs : RedelegatedUnbonds) (e : Epoch) : bool :=
  negb (bool_decide (entries2 (default ∅ (rbs !! e)) = [])).

Definition compute_new_redelegated_unbonds (redelegated_bonds : RedelegatedUnbonds)
    (removed : gset Epoch) (modified : ModifiedRedelegation) : outcome E RedelegatedUnbonds :=
  let all :=
    match mod_epoch modified with
    | Some epoch => {[epoch]} ∪ removed
    | None => removed
    end in
  let unbonded_epochs := List.filter (contains redelegated_bonds) (sorted_epochs all) in
  let* l := out_map (fun start =>
      let* rb := unbonded_at (default ∅ (redelegated_bonds !! start)) modified start in
      Ok (start, rb)) unbonded_epochs in
  Ok (list_to_map l).
End unbond_ops.

(** ** Bonds are used from the latest *)
Definition bond_total (b : gmap Z Z) : Z := msum (fun _ a => a) b.

(** The bond after the removal, as [unbond_tokens] writes it *)
Definition after_removal (res : BondsForRemovalRes) (b : gmap Z Z) : gmap Z Z :=
  match new_entry res with
  | Some (e, x) => <[e := x]> (remove_epochs (epochs res) b)
  | None => remove_epochs (epochs res) b
  end.

(** The epochs a removal uses *)
Definition used (res : BondsForRemovalRes) (e : Z) : Prop :=
  e ∈ epochs res \/ exists x, new_entry res = Some (e, x).

Lemma bond_total_list b : bond_total b = sumZ (bt_list b).*2.
Proof. unfold bond_total, msum. by rewrite bt_list_perm. Qed.

Lemma remove_epochs_lookup es b e : remove_epochs es b !! e = if decide (e ∈ es) then None else b !! e.
Proof.
  unfold remove_epochs. rewrite map_lookup_filter. destruct (b !! e); simpl; repeat case_guard; case_decide; try done; exfalso; auto.
Qed.

Lemma bt_list_nodup {V} (m : gmap Z V) : NoDup (bt_list m).*1.
Proof. rewrite bt_list_perm. apply NoDup_fst_map_to_list. Qed.

Section bonds.
Context {U : UintOps} {HU : UintLaws U} {E : Type}.

(** What the loop takes from a list of bonds: a prefix, and a part of the next *)
Definition taken (l : list (Z * Z)) (amount : Z) (res0 res : BondsForRemovalRes) : Prop :=
  exists l1 rest, l = l1 ++ rest /\ epochs res = list_to_set l1.*1 ∪ epochs res0 /\
    ((new_entry res = new_entry res0 /\ sumZ l1.*2 = amount) \/
     exists e a x rest', rest = (e, a) :: rest' /\ new_entry res = Some (e, x) /\ 0 < x < a /\
       sumZ l1.*2 + (a - x) = amount).

Lemma remove_loop_ok l : Forall (fun e => in_u256 e.2) l -> forall remaining res0,
  0 < remaining <= sumZ l.*2 -> in_u256 remaining ->
  exists res, remove_loop (E:=E) l remaining res0 = Ok res /\ taken l remaining res0 res.
Proof.
  induction 1 as [|[e a] l Ha Hl IH]; intros remaining res0 Hr Hu.
  { rewrite fmap_nil, sumZ_nil in Hr. lia. }
  rewrite fmap_cons, sumZ_cons in Hr. cbn [fst snd remove_loop] in *. unfold amount_sub, in_u256 in *.
  destruct (Z.eqb_spec (Z.min a remaining) a) as [Hmin|Hmin]; cbn [out_bind].
  - rewrite uint_sub_ok by (unfold in_u256; lia). cbn [out_bind].
    unfold amount_is_zero. destruct (Z.eqb_spec (remaining - Z.min a remaining) 0) as [Hz|Hz].
    + eexists. split; [done|]. exists [(e, a)], l. split_and!; [done|simpl; set_solver|].
      left. split; [done|]. rewrite fmap_cons, sumZ_cons, fmap_nil, sumZ_nil. cbn [snd]. lia.
    + destruct (IH (remaining - Z.min a remaining) (mkRemoval ({[e]} ∪ epochs res0) (new_entry res0)))
        as (res & -> & l1 & rest & -> & Hep & Hcase); [lia|lia|].
      exists res. split; [done|]. exists ((e, a) :: l1), rest.
      split_and!; [done|rewrite Hep; simpl; set_solver|]. rewrite fmap_cons, sumZ_cons. cbn [snd].
      destruct Hcase as [[Hn Hs]|(e' & a' & x & rest' & Hrest & Hn & Hx & Hs)].
      * left. split; [done|]. lia.
      * right. exists e', a', x, rest'. split_and!; try done; lia.
  - rewrite !uint_sub_ok by (unfold in_u256; lia). cbn [out_bind].
    unfold amount_is_zero. rewrite (proj2 (Z.eqb_eq _ 0)) by lia.
    eexists. split; [done|]. exists [], ((e, a) :: l). split_and!; [done|simpl; set_solver|].
    right. exists e, a, (a - Z.min a remaining), l. split_and!; try done; try lia.
    rewrite fmap_nil, sumZ_nil. lia.
Qed.

(** The facts about a removal that the callers use *)
Record removal_ok (b : gmap Z Z) (amount : Z) (res : BondsForRemovalRes) : Prop := {
  removal_dom e : e ∈ epochs res -> is_Some (b !! e);
  removal_partial e x : new_entry res = Some (e, x) ->
    e ∉ epochs res /\ exists a, b !! e = Some a /\ 0 < x < a;
  removal_latest e e' : used res e -> is_Some (b !! e') -> ~ used res e' -> e' < e;
  removal_total : bond_total (after_removal res b) = bond_total b - amount
}.


(** Of a bond whose entries are [rev rest ++ rev l1], the entries of [l1] are later. *)
Lemma rev_split_later (b : gmap Z Z) l1 rest x y :
  rev (bt_list b) = l1 ++ rest -> x ∈ l1 -> y ∈ rest -> y.1 < x.1.
Proof.
  intros Hl Hx Hy. pose proof (sort_by_sorted fst (map_to_list b)) as Hs.
  change (sort_by fst (map_to_list b)) with (bt_list b) in Hs. pose proof (bt_list_nodup b) as Hnd.
  rewrite <- (rev_involutive (bt_list b)), Hl, rev_app_distr in Hs, Hnd.
  assert (y.1 <= x.1).
  { apply (StronglySorted_app_1_elem_of (key_le fst) (rev rest) (rev l1) y x Hs);
      apply list_elem_of_In; rewrite <- in_rev; by apply list_elem_of_In. }
  rewrite fmap_app in Hnd. apply NoDup_app in Hnd as (_ & Hd & _).
  destruct (decide (y.1 = x.1)) as [He|]; [|lia]. exfalso. apply (Hd y.1).
  - apply list_elem_of_fmap. exists y. split; [done|]. apply list_elem_of_In. rewrite <- in_rev.
    by apply list_elem_of_In.
  - rewrite He. apply list_elem_of_fmap. exists x. split; [done|]. apply list_elem_of_In.
    rewrite <- in_rev. by apply list_elem_of_In.
Qed.

Lemma elem_of_rev_bt (b : gmap Z Z) e a : (e, a) ∈ rev (bt_list b) <-> b !! e = Some a.
Proof. rewrite <- elem_of_bt_list, !list_elem_of_In. symmetry. apply in_rev. Qed.

Lemma taken_total (b : gmap Z Z) l1 res : NoDup l1.*1 -> (forall x, x ∈ l1 -> b !! x.1 = Some x.2) ->
  epochs res = list_to_set l1.*1 ->
  match new_entry res with
  | None => bond_total (after_removal res b) = bond_total b - sumZ l1.*2
  | Some (e, x) => e ∉ l1.*1 -> forall a, b !! e = Some a ->
      bond_total (after_removal res b) = bond_total b - sumZ l1.*2 - (a - x)
  end.
Proof.
  intros Hnd Hl1 Hep. unfold bond_total, after_removal.
  assert (forall m', (forall x, x ∈ l1 -> m' !! x.1 = None) ->
    sumZ ((fun k => mterm (fun _ a => a) m' k - mterm (fun _ a => a) b k) <$> l1.*1) = - sumZ l1.*2) as Hsum.
  { intros m' Hm'. clear Hnd Hep. induction l1 as [|x l1 IH]; [done|].
    rewrite !fmap_cons, !sumZ_cons, IH by (intros; set_solver).
    unfold mterm. rewrite Hm', Hl1 by set_solver. simpl. lia. }
  assert (forall x, x ∈ l1 -> remove_epochs (epochs res) b !! x.1 = None) as Hnone.
  { intros x Hx. rewrite remove_epochs_lookup, decide_True; [done|]. rewrite Hep, elem_of_list_to_set.
    by apply list_elem_of_fmap_2. }
  destruct (new_entry res) as [[e x]|].
  - intros He a Ha. pose proof (msum_diff (fun _ a => a) (e :: l1.*1) b
      (<[e := x]> (remove_epochs (epochs res) b))) as Hd.
    rewrite fmap_cons, sumZ_cons, Hsum in Hd.
    + unfold mterm in Hd. rewrite lookup_insert_eq, Ha in Hd. simpl in Hd.
      assert (msum (fun _ a0 => a0) (<[e := x]> (remove_epochs (epochs res) b)) - msum (fun _ a0 => a0) b
              = x - a + - sumZ l1.*2); [|lia].
      apply Hd; [by constructor|]. intros k Hk. rewrite lookup_insert_ne by set_solver.
      rewrite remove_epochs_lookup, decide_False; [done|]. rewrite Hep, elem_of_list_to_set. set_solver.
    + intros y Hy. rewrite lookup_insert_ne; [by apply Hnone|]. intros ->. apply He.
      by apply list_elem_of_fmap_2.
  - pose proof (msum_diff (fun _ a => a) l1.*1 b (remove_epochs (epochs res) b) Hnd) as Hd.
    rewrite Hsum in Hd by done.
    assert (msum (fun _ a0 => a0) (remove_epochs (epochs res) b) - msum (fun _ a0 => a0) b = - sumZ l1.*2);
      [|lia].
    apply Hd. intros k Hk. rewrite remove_epochs_lookup, decide_False; [done|].
    by rewrite Hep, elem_of_list_to_set.
Qed.

Lemma find_bonds_ok (b : gmap Z Z) amount : amounts_wf b -> in_u256 amount -> 0 < amount <= bond_total b ->
  exists res, find_bonds_to_remove (E:=E) b amount = Ok res /\ removal_ok b amount res.
Proof.
  intros Hb Hu Ham. unfold find_bonds_to_remove.
  assert (sumZ (rev (bt_list b)).*2 = bond_total b) as Hsum.
  { rewrite bond_total_list. by rewrite <- (Permutation_rev (bt_list b)). }
  destruct (remove_loop_ok (rev (bt_list b))) with (remaining := amount) (res0 := mkRemoval ∅ None)
    as (res & Hrun & l1 & rest & Hl & Hep & Hcase); [|by rewrite Hsum|done|].
  { apply Forall_forall. intros [e a] Hin%elem_of_rev_bt. by eapply Hb. }
  exists res. split; [done|]. simpl in Hep, Hcase. rewrite union_empty_r_L in Hep.
  assert (forall x, x ∈ l1 -> b !! x.1 = Some x.2) as Hl1.
  { intros [e a] Hx. apply elem_of_rev_bt. rewrite Hl. apply elem_of_app. by left. }
  assert (forall x, x ∈ rest -> b !! x.1 = Some x.2) as Hrest.
  { intros [e a] Hx. apply elem_of_rev_bt. rewrite Hl. apply elem_of_app. by right. }
  assert (NoDup l1.*1) as Hnd.
  { pose proof (bt_list_nodup b) as Hn. rewrite (Permutation_rev (bt_list b)), Hl, fmap_app in Hn.
    by apply NoDup_app in Hn as (? & _ & _). }
  pose proof (taken_total b l1 res Hnd Hl1 Hep) as Htot.
  assert (forall e, e ∈ epochs res -> exists a, (e, a) ∈ l1) as Hin.
  { intros e. rewrite Hep, elem_of_list_to_set. intros ([e' a] & -> & Hx)%list_elem_of_fmap. by exists a. }
  assert (forall e a, b !! e = Some a -> e ∉ epochs res -> (e, a) ∈ rest) as Hnin.
  { intros e a Ha%elem_of_rev_bt Hne. rewrite Hl in Ha. apply elem_of_app in Ha as [Hx|]; [|done].
    exfalso. apply Hne. rewrite Hep, elem_of_list_to_set. by apply (list_elem_of_fmap_2 fst) in Hx. }
  destruct Hcase as [[Hn Hs]|(e & a & x & rest' & -> & Hn & Hx & Hs)]; rewrite Hn in Htot.
  - split.
    + intros e (a & Ha)%Hin. exists a. exact (Hl1 _ Ha).
    + congruence.
    + intros e e' [He|(? & ?)] [a Ha] Hne; [|congruence]. apply Hin in He as (a' & He).
      apply (rev_split_later b l1 rest (e, a') (e', a) Hl He). apply Hnin; [done|].
      intros ?. apply Hne. by left.
    + lia.
  - assert (b !! e = Some a) as Hea by (apply (Hrest (e, a)); left).
    assert (e ∉ l1.*1) as Hel.
    { intros ([e' a'] & -> & Hx')%list_elem_of_fmap.
      pose proof (rev_split_later b l1 _ (e', a') (e', a) Hl Hx' ltac:(left)). simpl in *. lia. }
    assert (e ∉ epochs res) as Hee by (by rewrite Hep, elem_of_list_to_set).
    split.
    + intros e0 (a0 & Ha0)%Hin. exists a0. exact (Hl1 _ Ha0).
    + intros e0 x0 Hn0. rewrite Hn in Hn0. injection Hn0 as <- <-. eauto.
    + intros e0 e' Hu0 [a' Ha'] Hne.
      assert ((e', a') ∈ rest') as Hr'.
      { assert ((e', a') ∈ (e, a) :: rest') as Hr by (apply Hnin; [done|]; intros ?; apply Hne; by left).
        apply elem_of_cons in Hr as [Heq|]; [|done]. exfalso. apply Hne. right. simplify_eq. eauto. }
      destruct Hu0 as [He0|(x0 & Hx0)].
      * apply Hin in He0 as (a0 & He0).
        apply (rev_split_later b l1 _ (e0, a0) (e', a') Hl He0). by right.
      * rewrite Hn in Hx0. injection Hx0 as <- <-.
        apply (rev_split_later b (l1 ++ [(e, a)]) rest' (e, a) (e', a')); [|set_solver|done].
        by rewrite <- app_assoc.
    + rewrite (Htot Hel a Hea). lia.
Qed.
End bonds.

(** ** Redelegated tokens *)
Definition at2 (rt : gmap Address (gmap Z Z)) (v : Address) (e : Z) : Z :=
  default 0 (rt_amounts rt v !! e).
Definition total2 (rt : gmap Address (gmap Z Z)) : Z := msum (fun _ b => bond_total b) rt.

Lemma rt_amounts_wf rt v : redelegated_wf rt -> amounts_wf (rt_amounts rt v).
Proof.
  intros Hw. unfold rt_amounts. destruct (rt !! v) eqn:Hv; simpl; [by eapply Hw|].
  intros e a. by rewrite lookup_empty.
Qed.

Lemma at2_put rb v e a v' e' :
  at2 (put rb (v, e, a)) v' e' = if decide (v' = v /\ e' = e) then a else at2 rb v' e'.
Proof.
  unfold at2, put, rt_amounts. simpl. destruct (decide (v' = v)) as [->|Hv].
  - rewrite lookup_insert_eq. simpl. destruct (decide (e' = e)) as [->|He].
    + rewrite lookup_insert_eq, decide_True by done. done.
    + rewrite lookup_insert_ne, decide_False by naive_solver. done.
  - rewrite lookup_insert_ne, decide_False by naive_solver. done.
Qed.

Lemma total2_put rb v e a : total2 (put rb (v, e, a)) = total2 rb - at2 rb v e + a.
Proof.
  unfold total2, put, at2, rt_amounts. simpl. rewrite msum_insert. unfold mterm.
  destruct (rb !! v) as [b|]; simpl; unfold bond_total; rewrite msum_insert; unfold mterm.
  - destruct (b !! e); simpl; lia.
  - rewrite lookup_empty, msum_empty. simpl. lia.
Qed.

Definition entry_keys (l : list (Address * Z * Z)) : list (Address * Z) := fst <$> l.

Lemma put_all_spec l : forall rb, NoDup (entry_keys l) ->
  (forall v e, (v, e) ∈ entry_keys l -> at2 rb v e = 0) ->
  total2 (foldl put rb l) = total2 rb + sumZ l.*2 /\
  forall v e, at2 (foldl put rb l) v e =
    match List.find (fun t => bool_decide (t.1 = (v, e))) l with Some t => t.2 | None => at2 rb v e end.
Proof.
  induction l as [|[[v0 e0] a] l IH]; intros rb Hnd Hz; cbn [foldl].
  { split; [rewrite fmap_nil, sumZ_nil; lia|done]. }
  unfold entry_keys in *. rewrite fmap_cons in Hnd, Hz. apply NoDup_cons in Hnd as [Hn Hnd].
  destruct (IH (put rb (v0, e0, a)) Hnd) as [IH1 IH2].
  { intros v e Hin. rewrite at2_put, decide_False; [apply Hz; by right|]. intros [-> ->]. done. }
  split.
  - rewrite IH1, total2_put, Hz by left. rewrite fmap_cons, sumZ_cons. cbn [snd]. lia.
  - intros v e. rewrite IH2. cbn [List.find fst]. case_bool_decide as Heq.
    + injection Heq as <- <-. destruct (List.find _ l) as [t|] eqn:Hf.
      * exfalso. apply List.find_some in Hf as [Hin Ht]. apply bool_decide_eq_true in Ht.
        apply Hn. simpl. rewrite <- Ht. apply list_elem_of_fmap_2. by apply list_elem_of_In.
      * by rewrite at2_put, decide_True.
    + destruct (List.find _ l); [done|]. rewrite at2_put, decide_False; [done|]. by intros [-> ->].
Qed.

Lemma at2_put_all l v e : NoDup (entry_keys l) ->
  at2 (put_all l) v e =
    match List.find (fun t => bool_decide (t.1 = (v, e))) l with Some t => t.2 | None => 0 end.
Proof. intros Hnd. exact (proj2 (put_all_spec l ∅ Hnd ltac:(done)) v e). Qed.

Lemma total2_put_all l : NoDup (entry_keys l) -> total2 (put_all l) = sumZ l.*2.
Proof.
  intros Hnd. unfold put_all. rewrite (proj1 (put_all_spec l ∅ Hnd ltac:(done))).
  unfold total2. rewrite msum_empty. lia.
Qed.

(** The entries of one validator with distinct epochs, and of several *)
Lemma at2_put_list (f : Address -> list (Z * Z)) (vs : list Address) v e :
  NoDup vs -> (forall v, NoDup (f v).*1) ->
  let l := concat ((fun v => (fun p => (v, p.1, p.2)) <$> f v) <$> vs) in
  NoDup (entry_keys l) /\ sumZ l.*2 = sumZ ((fun v => sumZ (f v).*2) <$> vs) /\
  at2 (put_all l) v e =
    if decide (v ∈ vs)
    then match List.find (fun p => bool_decide (p.1 = e)) (f v) with Some p => p.2 | None => 0 end
    else 0.
Proof.
  intros Hvs Hf l.
  assert (NoDup (entry_keys l)) as Hnd.
  { unfold l, entry_keys. clear l. induction Hvs as [|w vs Hw Hvs IH]; [constructor|].
    rewrite fmap_cons. cbn [concat]. rewrite fmap_app. apply NoDup_app. split_and!; [| |done].
    - assert (fst <$> ((fun p => (w, p.1, p.2)) <$> f w) = (fun x => (w, x)) <$> (f w).*1) as ->
        by (rewrite <- !list_fmap_compose; done).
      apply NoDup_fmap_2; [|apply Hf]. intros x y [= ->]. done.
    - intros [w' x] Hin1 Hin2. apply list_elem_of_fmap in Hin1 as (t & Heq & Hin1).
      apply list_elem_of_fmap in Hin1 as (p & -> & _). simpl in Heq. injection Heq as -> ->.
      apply list_elem_of_fmap in Hin2 as (t & Heq & Hin2). apply Hw.
      apply list_elem_of_In, in_concat in Hin2 as (k & Hk & Hin2).
      apply list_elem_of_In, list_elem_of_fmap in Hk as (w' & -> & Hw').
      apply list_elem_of_In, list_elem_of_fmap in Hin2 as (q & -> & _). simpl in Heq.
      injection Heq as -> _. done. }
  split_and!; [done| |].
  - unfold l. clear. induction vs as [|w vs IH]; [done|]. rewrite !fmap_cons. cbn [concat].
    rewrite fmap_app, sumZ_app, sumZ_cons, IH. f_equal. f_equal. rewrite <- list_fmap_compose. done.
  - rewrite at2_put_all by done. unfold l. clear Hnd l. induction vs as [|w vs IH].
    { rewrite decide_False; [done|apply not_elem_of_nil]. }
    apply NoDup_cons in Hvs as [Hw Hvs]. specialize (IH Hvs). rewrite fmap_cons. cbn [concat].
    assert (forall k1 k2 (q : Address * Z * Z -> bool), List.find q (k1 ++ k2) =
      match List.find q k1 with Some x => Some x | None => List.find q k2 end) as Hfa.
    { intros k1 k2 q. induction k1 as [|x k1 IHk]; [done|]. simpl. by destruct (q x). }
    rewrite Hfa. destruct (decide (v = w)) as [->|Hne].
    + rewrite decide_True by left. rewrite decide_False in IH by done. clear Hfa Hf.
      induction (f w) as [|p k IHk]; [exact IH|]. rewrite fmap_cons. cbn [List.find fst snd].
      destruct (decide (p.1 = e)) as [He|He].
      * rewrite !bool_decide_true by congruence. done.
      * rewrite !bool_decide_false by congruence. exact IHk.
    + assert (List.find (fun t : Address * Z * Z => bool_decide (t.1 = (v, e)))
                ((fun p => (w, p.1, p.2)) <$> f w) = None) as ->.
      { clear -Hne. induction (f w) as [|p k IHk]; [done|]. rewrite fmap_cons. cbn [List.find fst snd].
        rewrite bool_decide_false by congruence. exact IHk. }
      rewrite IH. by do 2 case_decide; set_solver.
Qed.

(** The epochs a removal uses, as a set *)
Definition used_epochs (res : BondsForRemovalRes) : gset Z :=
  match new_entry res with Some (e, _) => {[e]} ∪ epochs res | None => epochs res end.

Lemma after_removal_lookup b amount res e : removal_ok b amount res ->
  default 0 (after_removal res b !! e) =
    default 0 (b !! e) -
    (if decide (e ∈ used_epochs res)
     then default 0 (b !! e) - (if bool_decide (fst <$> new_entry res = Some e)
                                then default 0 (snd <$> new_entry res) else 0)
     else 0).
Proof.
  intros Hr. unfold after_removal, used_epochs.
  destruct (new_entry res) as [[e0 x]|] eqn:Hn; simpl.
  - destruct (removal_partial _ _ _ Hr _ _ Hn) as [Hne _]. destruct (decide (e = e0)) as [->|He].
    + rewrite lookup_insert_eq, decide_True, bool_decide_true by set_solver. simpl. lia.
    + rewrite lookup_insert_ne, remove_epochs_lookup, bool_decide_false by congruence.
      do 2 case_decide; try set_solver; simpl; lia.
  - rewrite remove_epochs_lookup. case_decide; simpl; lia.
Qed.

Section redelegation.
Context {C : AddressCodec} {U : UintOps} {HU : UintLaws U} {E : Type}.
Context (rt : gmap Address (gmap Z Z)) (Hrt : redelegated_wf rt) (Hmax : total2 rt <= MAX_VALUE).

Lemma bond_total_nonneg b : amounts_wf b -> 0 <= bond_total b.
Proof. intros Hb. apply msum_nonneg. intros e a Ha. apply Hb in Ha. unfold in_u256 in Ha. lia. Qed.

Lemma bond_total_le v : 0 <= bond_total (rt_amounts rt v) <= total2 rt.
Proof.
  split; [by apply bond_total_nonneg, rt_amounts_wf|].
  assert (mterm (fun _ b => bond_total b) rt v = bond_total (rt_amounts rt v)) as <-.
  { unfold mterm, rt_amounts. destruct (rt !! v); simpl; [done|]. unfold bond_total. by rewrite msum_empty. }
  apply mterm_le_msum. intros w b Hb. by eapply bond_total_nonneg, Hrt.
Qed.

Lemma amount_sum_bond v : amount_sum (E:=E) (bt_list (rt_amounts rt v)).*2 = Ok (bond_total (rt_amounts rt v)).
Proof.
  pose proof (bond_total_le v). unfold amount_sum. rewrite amount_sum_ok; [| |lia|].
  - by rewrite bond_total_list, Z.add_0_l.
  - apply Forall_fmap, Forall_forall. intros [e a] Ha%elem_of_bt_list. simpl.
    apply (rt_amounts_wf rt v Hrt) in Ha. unfold in_u256 in Ha. lia.
  - rewrite <- bond_total_list. lia.
Qed.

Definition totals (vs : list Address) : Z := sumZ ((fun v => bond_total (rt_amounts rt v)) <$> vs).

(** What the loop computes: some validators are taken completely, and, if the
    amount is not used up exactly, a part of one more. *)
Definition full_split (start : Z) (vs : list Address) : ModifiedRedelegation :=
  mkModified (Some start) (list_to_set vs) None ∅ None None.
Definition partial_split (start : Z) (vs : list Address) (w : Address) (res : BondsForRemovalRes)
  : ModifiedRedelegation :=
  mkModified (Some start) ({[w]} ∪ list_to_set vs) (Some w) (used_epochs res)
    (fst <$> new_entry res) (snd <$> new_entry res).

Lemma modify_loop_ok start vs : forall remaining vs0, NoDup (vs ++ vs0) -> 0 < remaining < totals vs ->
  remaining <= MAX_VALUE ->
  exists m vs1, modify_loop (E:=E) rt vs remaining (full_split start vs0) = Ok m /\ vs1 <> [] /\
    ((m = full_split start (vs1 ++ vs0) /\ NoDup (vs1 ++ vs0) /\ totals vs1 = remaining) \/
     exists w vs2 r res, vs1 = w :: vs2 /\ NoDup (w :: vs2 ++ vs0) /\ m = partial_split start (vs2 ++ vs0) w res /\
       removal_ok (rt_amounts rt w) r res /\ r + totals vs2 = remaining).
Proof.
  induction vs as [|v vs IH]; intros remaining vs0 Hnd Hr Hrm; [change (totals []) with 0 in Hr; lia|].
  unfold totals in *. rewrite fmap_cons, sumZ_cons in Hr. cbn [modify_loop].
  unfold amount_is_zero. rewrite (proj2 (Z.eqb_neq remaining 0)) by lia.
  rewrite amount_sum_bond. cbn [out_bind]. pose proof (bond_total_le v) as Hv.
  pose proof Hnd as Hnd0. simpl in Hnd0. apply NoDup_cons in Hnd0 as [Hnv Hnd0].
  assert (NoDup (v :: vs0)) as Hnd1.
  { apply NoDup_cons. split; [set_solver|]. by apply NoDup_app in Hnd0 as (_ & _ & ?). }
  destruct (Z.leb_spec (bond_total (rt_amounts rt v)) remaining) as [Hle|Hgt].
  - unfold amount_sub. rewrite uint_sub_ok by (unfold in_u256; lia). cbn [out_bind].
    change (mkModified _ _ _ _ _ _) with (full_split start (v :: vs0)).
    destruct (decide (bond_total (rt_amounts rt v) = remaining)) as [Heq|Hneq].
    + exists (full_split start (v :: vs0)), [v]. split_and!; [|done|].
      * rewrite Heq, Z.sub_diag. by destruct vs.
      * left. split_and!; [done|done|]. unfold totals. rewrite fmap_cons, fmap_nil, sumZ_cons, sumZ_nil. lia.
    + destruct (IH (remaining - bond_total (rt_amounts rt v)) (v :: vs0)) as (m & vs1 & Hrun & Hne & Hcase).
      * by rewrite <- Permutation_middle.
      * lia.
      * lia.
      * exists m, (vs1 ++ [v]). split_and!; [done|by destruct vs1|].
        destruct Hcase as [(-> & Hn & Hs)|(w & vs2 & r & res & -> & Hn & -> & Hok & Hs)].
        -- left. rewrite <- app_assoc. split_and!; [done|done|].
           rewrite fmap_app, sumZ_app, fmap_cons, fmap_nil, sumZ_cons, sumZ_nil. lia.
        -- right. exists w, (vs2 ++ [v]), r, res. rewrite <- app_assoc. split_and!; try done.
           rewrite fmap_app, sumZ_app, fmap_cons, fmap_nil, sumZ_cons, sumZ_nil. lia.
  - destruct (find_bonds_ok (E:=E) (rt_amounts rt v) remaining) as (res & Hf & Hok);
      [by apply rt_amounts_wf|unfold in_u256; lia|lia|].
    rewrite Hf. cbn [out_bind]. exists (partial_split start vs0 v res), [v]. split_and!; [|done|].
    + transitivity (modify_loop (E:=E) rt vs 0 (partial_split start vs0 v res)); [|by destruct vs].
      f_equal. unfold partial_split, used_epochs, full_split. cbn. by destruct (new_entry res) as [[e x]|].
    + right. exists v, [], remaining, res. split_and!; try done. rewrite fmap_nil, sumZ_nil. lia.
Qed.

(** The entries unbonded from one validator *)
Definition full_entries (v : Address) : list (Z * Z) := bt_list (rt_amounts rt v).
Definition partial_entries (w : Address) (res : BondsForRemovalRes) : list (Z * Z) :=
  (fun e => (e, default 0 (rt_amounts rt w !! e) -
                (if bool_decide (fst <$> new_entry res = Some e)
                 then default 0 (snd <$> new_entry res) else 0)))
  <$> sorted_epochs (used_epochs res).

Lemma find_bt_list (b : gmap Z Z) e :
  match List.find (fun p => bool_decide (p.1 = e)) (bt_list b) with Some p => p.2 | None => 0 end
  = default 0 (b !! e).
Proof.
  destruct (List.find _ (bt_list b)) as [[k a]|] eqn:Hf.
  - apply List.find_some in Hf as [Hin Ht]. apply bool_decide_eq_true in Ht. simpl in *. subst.
    apply list_elem_of_In, elem_of_bt_list in Hin. by rewrite Hin.
  - destruct (b !! e) as [a|] eqn:Hb; [|done]. apply elem_of_bt_list, list_elem_of_In in Hb.
    apply (List.find_none _ _ Hf) in Hb. simpl in Hb. by rewrite bool_decide_true in Hb.
Qed.

Lemma find_fmap_set (g : Z -> Z) (s : gset Z) e :
  match List.find (fun p => bool_decide (p.1 = e)) ((fun e => (e, g e)) <$> sorted_epochs s) with
  | Some p => p.2 | None => 0 end = if decide (e ∈ s) then g e else 0.
Proof.
  assert (e ∈ s <-> e ∈ sorted_epochs s) as He.
  { unfold sorted_epochs. rewrite sort_by_perm. symmetry. apply elem_of_elements. }
  revert He. generalize (sorted_epochs s). intros l He.
  destruct (List.find _ _) as [[k a]|] eqn:Hf.
  - apply List.find_some in Hf as [Hin Ht]. apply bool_decide_eq_true in Ht. simpl in *. subst.
    apply list_elem_of_In, list_elem_of_fmap in Hin as (y & [= -> ->] & Hy).
    by rewrite decide_True by (by apply He).
  - case_decide as Hs; [|done]. apply He in Hs.
    assert (In (e, g e) ((fun e => (e, g e)) <$> l)) as Hin.
    { apply list_elem_of_In, list_elem_of_fmap. by exists e. }
    apply (List.find_none _ _ Hf) in Hin. simpl in Hin. by rewrite bool_decide_true in Hin.
Qed.

Lemma partial_entries_sum w r res : removal_ok (rt_amounts rt w) r res ->
  sumZ (partial_entries w res).*2 = r.
Proof.
  intros Hok. pose proof (removal_total _ _ _ Hok) as Ht. unfold bond_total in Ht.
  assert (NoDup (sorted_epochs (used_epochs res))) as Hnd.
  { unfold sorted_epochs. rewrite sort_by_perm. apply NoDup_elements. }
  pose proof (msum_diff (fun _ a => a) (sorted_epochs (used_epochs res)) (rt_amounts rt w)
    (after_removal res (rt_amounts rt w)) Hnd) as Hd.
  assert (forall e, e ∈ sorted_epochs (used_epochs res) <-> e ∈ used_epochs res) as Hin.
  { intros e. unfold sorted_epochs. rewrite sort_by_perm. apply elem_of_elements. }
  assert (sumZ (partial_entries w res).*2 =
    - sumZ ((fun k => mterm (fun _ a => a) (after_removal res (rt_amounts rt w)) k
                      - mterm (fun _ a => a) (rt_amounts rt w) k) <$> sorted_epochs (used_epochs res))) as ->.
  { unfold partial_entries. rewrite <- list_fmap_compose.
    assert (forall e, e ∈ sorted_epochs (used_epochs res) -> e ∈ used_epochs res) as Hin' by (intros; by apply Hin).
    clear Hnd Hd Hin. induction (sorted_epochs (used_epochs res)) as [|e l IH]; [done|].
    rewrite !fmap_cons, !sumZ_cons, IH by (intros; apply Hin'; by right).
    assert (forall m, mterm (fun _ a : Z => a) m e = default 0 (m !! e)) as Hm by (intros m; done).
    rewrite !Hm, (after_removal_lookup _ _ _ e Hok), decide_True by (apply Hin'; left). simpl. lia. }
  rewrite <- Hd; [lia|]. intros k Hk. rewrite Hin in Hk. unfold used_epochs, after_removal in *.
  destruct (new_entry res) as [[e x]|].
  - rewrite lookup_insert_ne by set_solver. rewrite remove_epochs_lookup, decide_False by set_solver. done.
  - by rewrite remove_epochs_lookup, decide_False.
Qed.

Lemma entries2_concat : entries2 rt =
  concat ((fun v => (fun p => (v, p.1, p.2)) <$> full_entries v) <$> (map_to_list rt).*1).
Proof.
  unfold entries2, full_entries, rt_amounts.
  assert (Forall (fun p => rt !! p.1 = Some p.2) (map_to_list rt)) as Hall.
  { apply List.Forall_forall. intros [v b] Hin. apply list_elem_of_In, elem_of_map_to_list in Hin. done. }
  induction Hall as [|[v b] l Hv _ IH]; [done|]. rewrite !fmap_cons. cbn [concat mbind list_bind fst snd].
  assert (forall k : list (Z * Z), (e ← k; [(v, e.1, e.2)]) = (fun p => (v, p.1, p.2)) <$> k) as Hb.
  { induction k as [|p k IHk]; [done|]. cbn. by f_equal. }
  simpl in Hv. by rewrite Hb, <- IH, Hv.
Qed.

Lemma full_entries_nodup v : NoDup (full_entries v).*1.
Proof. apply bt_list_nodup. Qed.

Lemma put_entries v e : at2 (put_all (entries2 rt)) v e = at2 rt v e /\
  total2 (put_all (entries2 rt)) = total2 rt /\ sumZ ((fun t => t.2) <$> entries2 rt) = total2 rt.
Proof.
  rewrite entries2_concat.
  destruct (at2_put_list full_entries (map_to_list rt).*1 v e) as (Hnd & Hs & Hat);
    [apply NoDup_fst_map_to_list|apply full_entries_nodup|].
  assert (sumZ ((fun v => sumZ (full_entries v).*2) <$> (map_to_list rt).*1) = total2 rt) as Ht.
  { unfold total2, msum. rewrite <- list_fmap_compose. f_equal. apply list_fmap_ext. intros i [w b] Hi.
    simpl. apply list_elem_of_lookup_2, elem_of_map_to_list in Hi. unfold full_entries, rt_amounts.
    rewrite Hi. simpl. by rewrite bond_total_list. }
  rewrite total2_put_all, Hs, Ht by done. split_and!; [|done|by rewrite <- Ht, <- Hs].
  rewrite Hat. unfold full_entries. rewrite find_bt_list. unfold at2. case_decide as Hv; [done|].
  unfold rt_amounts. destruct (rt !! v) eqn:Hr; [|done]. exfalso. apply Hv.
  apply elem_of_map_to_list in Hr. by apply (list_elem_of_fmap_2 fst) in Hr.
Qed.

Lemma totals_src : totals (sorted_addresses (src_validators rt)) = total2 rt.
Proof.
  unfold totals, total2. rewrite (msum_support _ (sorted_addresses (src_validators rt))).
  - f_equal. apply list_fmap_ext. intros i v _. unfold mterm, rt_amounts.
    destruct (rt !! v); simpl; [done|]. unfold bond_total. by rewrite msum_empty.
  - unfold sorted_addresses. rewrite sort_le_perm. apply NoDup_elements.
  - intros v Hv. unfold mterm. destruct (rt !! v) as [b|] eqn:Hb; [|done]. simpl.
    apply msum_zero. intros e a Ha. exfalso. apply Hv. unfold sorted_addresses. rewrite sort_le_perm.
    apply elem_of_elements. unfold src_validators. apply elem_of_list_to_set, list_elem_of_fmap.
    exists (v, e, a). split; [done|]. unfold entries2. apply list_elem_of_bind. exists (v, b).
    split; [|by apply elem_of_map_to_list]. apply list_elem_of_bind. exists (e, a).
    split; [by left|by apply elem_of_bt_list].
Qed.

Lemma at2_remove_validators vs v e :
  at2 (remove_validators vs rt) v e = if decide (v ∈ vs) then 0 else at2 rt v e.
Proof.
  unfold at2, rt_amounts, remove_validators. rewrite map_lookup_filter.
  destruct (rt !! v) as [b|]; simpl; [|by case_decide].
  destruct (decide (v ∈ vs)) as [Hv|Hv].
  - by rewrite option_guard_False by tauto.
  - by rewrite option_guard_True.
Qed.

Lemma at2_nonneg v e : 0 <= at2 rt v e.
Proof using Hrt.
  unfold at2. destruct (rt_amounts rt v !! e) as [a|] eqn:Ha; [|done]. apply (rt_amounts_wf rt v Hrt) in Ha. unfold in_u256 in Ha. cbn. lia.
Qed.
(** Every amount is divided between what stays and what is unbonded. *)
Definition divided (rt' ub : gmap Address (gmap Z Z)) : Prop :=
  forall v e, at2 rt' v e + at2 ub v e = at2 rt v e /\ 0 <= at2 rt' v e /\ 0 <= at2 ub v e.

(** A complete split: the validators move over. *)
Lemma full_split_ok start vs : NoDup vs -> vs <> [] ->
  exists ub rt', unbonded_at (E:=E) rt (full_split start vs) start = Ok ub /\
    update_redelegated_bonds (E:=E) (full_split start vs) rt = Ok rt' /\ total2 ub = totals vs /\
    divided rt' ub.
Proof.
  intros Hnd Hne. unfold unbonded_at, full_split, update_redelegated_bonds. cbn.
  rewrite bool_decide_true by done. rewrite bool_decide_false by (destruct vs; set_solver). cbn.
  set (ws := sorted_addresses (list_to_set vs)).
  assert (Permutation ws vs) as Hws
    by (unfold ws, sorted_addresses; rewrite sort_le_perm; by apply elements_list_to_set).
  rewrite (out_map_ok _ (fun v => (fun p => (v, p.1, p.2)) <$> full_entries v)).
  2:{ intros v _. unfold unbonded_of. cbn. done. }
  cbn [out_bind]. eexists _, _. split; [done|]. split; [done|].
  set (ub := put_all (concat ((fun v => (fun p => (v, p.1, p.2)) <$> full_entries v) <$> ws))).
  assert (forall v e, total2 ub = totals vs /\
    at2 (remove_validators (list_to_set vs) rt) v e + at2 ub v e = at2 rt v e /\
    0 <= at2 (remove_validators (list_to_set vs) rt) v e /\ 0 <= at2 ub v e) as Hall.
  { intros v e. unfold ub. pose proof (at2_nonneg v e) as Hnn. destruct (at2_put_list full_entries ws v e) as (Hk & Hs & Hat);
      [by rewrite Hws|apply full_entries_nodup|].
    rewrite total2_put_all, Hs, Hat by done. split.
    - unfold totals. rewrite Hws. f_equal. apply list_fmap_ext. intros i w _.
      unfold full_entries. by rewrite bond_total_list.
    - rewrite at2_remove_validators. unfold full_entries. rewrite find_bt_list. unfold at2 in *.
      assert (v ∈ ws <-> v ∈ (list_to_set vs : gset Address)) as Hiff by (by rewrite Hws, elem_of_list_to_set).
      destruct (decide (v ∈ (list_to_set vs : gset Address))) as [Hd|Hd].
      + rewrite decide_True by (by apply Hiff). lia.
      + rewrite decide_False by (by rewrite Hiff). lia. }
  split; [apply (Hall (Established 0) 0)|intros v e; apply Hall].
Qed.

(** A split that takes a part of the tokens of one validator *)
Lemma partial_split_ok start vs w r res : NoDup (w :: vs) -> removal_ok (rt_amounts rt w) r res ->
  exists ub rt', unbonded_at (E:=E) rt (partial_split start vs w res) start = Ok ub /\
    update_redelegated_bonds (E:=E) (partial_split start vs w res) rt = Ok rt' /\
    total2 ub = r + totals vs /\ divided rt' ub.
Proof.
  intros Hnd Hok. apply NoDup_cons in Hnd as [Hw Hnd].
  set (f := fun v => if decide (v = w) then partial_entries w res else full_entries v).
  set (ws := sorted_addresses ({[w]} ∪ list_to_set vs)).
  assert (Permutation ws (w :: vs)) as Hws.
  { unfold ws, sorted_addresses. rewrite sort_le_perm.
    change ({[w]} ∪ list_to_set vs) with (list_to_set (w :: vs) : gset Address).
    apply elements_list_to_set. by constructor. }
  assert (out_map (unbonded_of (E:=E) rt (partial_split start vs w res)) ws
          = Ok ((fun v => (fun p => (v, p.1, p.2)) <$> f v) <$> ws)) as Hmap.
  { apply out_map_ok. intros v _. unfold unbonded_of, f, partial_split. cbn.
    destruct (decide (v = w)) as [->|Hv]; [|by rewrite bool_decide_false by congruence].
    rewrite bool_decide_true by done. unfold partial_entries. rewrite <- list_fmap_compose.
    apply out_map_ok. intros e _. cbn. destruct (new_entry res) as [[e0 x]|] eqn:Hn; cbn.
    - case_bool_decide as He; [|by rewrite Z.sub_0_r].
      injection He as <-. destruct (removal_partial _ _ _ Hok _ _ Hn) as (_ & a & Ha & Hx).
      rewrite Ha. cbn. unfold amount_sub.
      pose proof (rt_amounts_wf rt w Hrt _ _ Ha) as Hu. unfold in_u256 in Hu.
      by rewrite uint_sub_ok by (unfold in_u256; lia).
    - by rewrite Z.sub_0_r. }
  assert (exists rt', update_redelegated_bonds (E:=E) (partial_split start vs w res) rt = Ok rt' /\
    forall v e, at2 rt' v e = if decide (v = w) then default 0 (after_removal res (rt_amounts rt w) !! e)
                             else if decide (v ∈ vs) then 0 else at2 rt v e) as (rt' & Hup & Hat').
  { unfold update_redelegated_bonds, partial_split, after_removal, used_epochs. cbn.
    assert (rt_amounts (remove_validators (({[w]} ∪ list_to_set vs) ∖ {[w]}) rt) w = rt_amounts rt w) as ->.
    { unfold rt_amounts, remove_validators. rewrite map_lookup_filter.
      destruct (rt !! w); simpl; [|done]. rewrite option_guard_True by set_solver. done. }
    destruct (new_entry res) as [[e0 x]|] eqn:Hn; cbn.
    - destruct (removal_partial _ _ _ Hok _ _ Hn) as (Hne & _).
      replace (({[e0]} ∪ epochs res) ∖ {[e0]}) with (epochs res) by set_solver.
      eexists. split; [done|]. intros v e. unfold at2 at 1, rt_amounts at 1.
      destruct (decide (v = w)) as [->|Hv]; [by rewrite lookup_insert_eq|].
      rewrite lookup_insert_ne by done. fold (rt_amounts (remove_validators (({[w]} ∪ list_to_set vs) ∖ {[w]}) rt) v).
      fold (at2 (remove_validators (({[w]} ∪ list_to_set vs) ∖ {[w]}) rt) v e).
      rewrite at2_remove_validators. do 2 case_decide; set_solver.
    - eexists. split; [done|]. intros v e. unfold at2 at 1, rt_amounts at 1.
      destruct (decide (v = w)) as [->|Hv]; [by rewrite lookup_insert_eq|].
      rewrite lookup_insert_ne by done. fold (rt_amounts (remove_validators (({[w]} ∪ list_to_set vs) ∖ {[w]}) rt) v).
      fold (at2 (remove_validators (({[w]} ∪ list_to_set vs) ∖ {[w]}) rt) v e).
      rewrite at2_remove_validators. do 2 case_decide; set_solver. }
  exists (put_all (concat ((fun v => (fun p => (v, p.1, p.2)) <$> f v) <$> ws))), rt'.
  split; [|split; [done|]].
  { unfold unbonded_at. cbn. rewrite bool_decide_true by done. rewrite bool_decide_false by set_solver. cbn.
    fold ws. rewrite Hmap. done. }
  assert (forall v, NoDup (f v).*1) as Hf.
  { intros v. unfold f. case_decide; [|apply full_entries_nodup]. unfold partial_entries.
    rewrite <- list_fmap_compose. change (fst ∘ _) with (fun e : Z => e). rewrite list_fmap_id.
    unfold sorted_epochs. rewrite sort_by_perm. apply NoDup_elements. }
  split.
  - destruct (at2_put_list f ws w 0) as (Hk & Hs & _); [rewrite Hws; by constructor|done|].
    rewrite total2_put_all, Hs, Hws, fmap_cons, sumZ_cons by done. unfold f at 1.
    rewrite decide_True, (partial_entries_sum w r res Hok) by done. f_equal. unfold totals. f_equal.
    apply list_fmap_ext. intros i v Hi. apply list_elem_of_lookup_2 in Hi. unfold f.
    rewrite decide_False by set_solver. unfold full_entries. by rewrite bond_total_list.
  - intros v e. pose proof (at2_nonneg v e) as Hnn. destruct (at2_put_list f ws v e) as (_ & _ & Hat); [rewrite Hws; by constructor|done|].
    rewrite Hat, Hat'. unfold f. destruct (decide (v = w)) as [->|Hv].
    + rewrite decide_True by (rewrite Hws; left). unfold partial_entries.
      rewrite (find_fmap_set (fun e => default 0 (rt_amounts rt w !! e) -
        (if bool_decide (fst <$> new_entry res = Some e) then default 0 (snd <$> new_entry res) else 0))).
      pose proof (after_removal_lookup _ _ _ e Hok) as Hl. rewrite Hl. unfold at2 in *. case_decide; [|lia].
      destruct (new_entry res) as [[e0 x]|] eqn:Hn; [|rewrite bool_decide_false by done; lia].
      case_bool_decide as He; [|lia]. injection He as <-. destruct (removal_partial _ _ _ Hok _ _ Hn) as (_ & a & Ha & Hx).
      rewrite Ha. cbn. lia.
    + unfold full_entries. rewrite find_bt_list. unfold at2 in *.
      assert (v ∈ ws <-> v ∈ vs) as Hiff by (rewrite Hws, elem_of_cons; naive_solver).
      destruct (decide (v ∈ vs)) as [Hd|Hd].
      * rewrite decide_True by (by apply Hiff). lia.
      * rewrite decide_False by (by rewrite Hiff). lia.
Qed.
End redelegation.

(** What is left of the redelegated tokens of a bond, as [unbond_tokens] leaves
    it *)
Definition left_redelegated {U : UintOps} {E} (m : ModifiedRedelegation) (rt : gmap Address (gmap Z Z))
  : outcome E (gmap Address (gmap Z Z)) :=
  if bool_decide (validators_to_remove m = ∅) then Ok ∅ else update_redelegated_bonds m rt.

(** The epochs at which redelegated bonds are unbonded *)
Definition unbonded_epochs (rbs : RedelegatedUnbonds) (removed : gset Epoch) (m : ModifiedRedelegation) (e : Epoch) : Prop :=
  (mod_epoch m = Some e \/ e ∈ removed) /\ contains rbs e = true.
#[export] Instance unbonded_epochs_dec rbs removed m e : Decision (unbonded_epochs rbs removed m e).
Proof. unfold unbonded_epochs. apply _. Defined.

Lemma compute_new_ok {C : AddressCodec} {U : UintOps} {E} rbs removed m (g : Z -> gmap Address (gmap Z Z)) :
  (forall e, unbonded_epochs rbs removed m e -> unbonded_at (E:=E) (default ∅ (rbs !! e)) m e = Ok (g e)) ->
  exists news, compute_new_redelegated_unbonds (E:=E) rbs removed m = Ok news /\
    forall e, news !! e = if decide (unbonded_epochs rbs removed m e) then Some (g e) else None.
Proof.
  intros Hg. unfold compute_new_redelegated_unbonds. set (l := List.filter _ _).
  assert (forall e, e ∈ l <-> unbonded_epochs rbs removed m e) as Hl.
  { intros e. unfold l. rewrite list_elem_of_In, filter_In, <- list_elem_of_In. unfold sorted_epochs, unbonded_epochs.
    rewrite sort_by_perm, elem_of_elements. apply and_iff_compat_r. destruct (mod_epoch m); set_solver. }
  rewrite (out_map_ok _ (fun e => (e, g e))).
  2:{ intros e He%list_elem_of_In%Hl. by rewrite Hg. }
  cbn [out_bind]. eexists. split; [done|]. intros e. case_decide as He.
  - apply elem_of_list_to_map; [|apply list_elem_of_fmap; exists e; by rewrite Hl].
    rewrite <- list_fmap_compose. change (fst ∘ _) with (fun e : Z => e). rewrite list_fmap_id.
    unfold l. apply NoDup_ListNoDup, List.NoDup_filter, NoDup_ListNoDup. unfold sorted_epochs.
    rewrite sort_by_perm. apply NoDup_elements.
  - apply not_elem_of_list_to_map_1. intros (p & -> & (e' & -> & Hin)%list_elem_of_fmap)%list_elem_of_fmap. by apply Hl in Hin.
Qed.

Lemma compute_new_lookup {C : AddressCodec} {U : UintOps} {E} rbs removed start rt m ub :
  rbs !! start = Some rt -> contains rbs start = true -> mod_epoch m = Some start ->
  unbonded_at (E:=E) rt m start = Ok ub ->
  exists news, compute_new_redelegated_unbonds (E:=E) rbs removed m = Ok news /\ news !! start = Some ub.
Proof.
  intros Hrt Hc Hm Hub.
  destruct (compute_new_ok (E:=E) rbs removed m (fun e => if decide (e = start) then ub else put_all (entries2 (default ∅ (rbs !! e))))) as (news & Hn & Hl).
  { intros e _. case_decide as He; [subst; by rewrite Hrt|]. unfold unbonded_at. by rewrite Hm, bool_decide_false by congruence. }
  exists news. split; [done|]. rewrite Hl, !decide_True by (done || split; auto). done.
Qed.

(** C16. [find_bonds_to_remove] for an amount of at most the bonds: it returns,
    the bonds it leaves add up to the bonds less the amount, at most one bond
    is used in part, and every bond it uses is later than every bond it does
    not use. *)
Theorem find_bonds_to_remove_lifo {U : UintOps} {HU : UintLaws U} {E : Type} (bonds : gmap Z Z) (amount : Z) :
  amounts_wf bonds -> in_u256 amount -> 0 < amount <= bond_total bonds ->
  exists res, find_bonds_to_remove (E:=E) bonds amount = Ok res /\
    bond_total (after_removal res bonds) = bond_total bonds - amount /\
    (forall e x, new_entry res = Some (e, x) -> e ∉ epochs res /\ exists a, bonds !! e = Some a /\ 0 < x < a) /\
    (forall e e', used res e -> is_Some (bonds !! e') -> ~ used res e' -> e' < e).
Proof.
  intros Hb Hu Ha. destruct (find_bonds_ok (E:=E) bonds amount Hb Hu Ha) as (res & Hr & Hok).
  exists res. destruct Hok. done.
Qed.

Lemma find_bonds_to_remove_lifo_witness :
  exists res, find_bonds_to_remove (U:=Ref.uint_ref) (E:=unit) {[2 := 10; 5 := 20; 9 := 30]} 45 = Ok res /\
    bond_total (after_removal res {[2 := 10; 5 := 20; 9 := 30]}) = bond_total {[2 := 10; 5 := 20; 9 := 30]} - 45 /\
    (forall e x, new_entry res = Some (e, x) ->
       e ∉ epochs res /\ exists a, ({[2 := 10; 5 := 20; 9 := 30]} : gmap Z Z) !! e = Some a /\ 0 < x < a) /\
    (forall e e', used res e -> is_Some (({[2 := 10; 5 := 20; 9 := 30]} : gmap Z Z) !! e') -> ~ used res e' -> e' < e).
Proof.
  apply (find_bonds_to_remove_lifo (HU:=Ref.uint_ref_laws) {[2 := 10; 5 := 20; 9 := 30]} 45).
  - intros e a [[_ <-]|[_ [[_ <-]|[_ [_ <-]%lookup_singleton_Some]]%lookup_insert_Some]]%lookup_insert_Some;
      split; vm_compute; discriminate.
  - split; vm_compute; discriminate.
  - vm_compute. split; [reflexivity|discriminate].
Defined.

(** The redelegated tokens of the bond at [start] when a part of it is unbonded *)
Lemma redelegation_split_at {C : AddressCodec} {U : UintOps} {HU : UintLaws U} {E : Type}
    (rt : gmap Address (gmap Z Z)) (start amount : Z) :
  redelegated_wf rt -> total2 rt <= MAX_VALUE -> 0 < amount <= MAX_VALUE ->
  exists m ub rt', compute_modified_redelegation (E:=E) rt start amount = Ok m /\
    mod_epoch m = Some start /\ unbonded_at (E:=E) rt m start = Ok ub /\ left_redelegated (E:=E) m rt = Ok rt' /\
    total2 ub = Z.min amount (total2 rt) /\ divided rt rt' ub.
Proof.
  intros Hrt Hmax Ha.
  unfold compute_modified_redelegation.
  assert (0 <= total2 rt) as Ht0.
  { apply msum_nonneg. intros v b Hb. by eapply bond_total_nonneg, Hrt. }
  assert (amount_sum (E:=E) ((fun e => e.2) <$> entries2 rt) = Ok (total2 rt)) as ->.
  { pose proof (proj2 (proj2 (put_entries rt (Established 0) 0))) as Hs. unfold amount_sum.
    rewrite amount_sum_ok; [by rewrite Hs, Z.add_0_l| |lia|rewrite Hs; lia].
    apply Forall_fmap, Forall_forall. intros [[v e] a] Hin. apply (entries2_wf rt) in Hin; [|done].
    unfold in_u256 in Hin. simpl. lia. }
  cbn [out_bind]. destruct (Z.leb_spec (total2 rt) amount) as [Hle|Hgt].
  - exists (full_split start []), (put_all (entries2 rt)), ∅. split_and!; [done|done| |done| |].
    + unfold unbonded_at. cbn. by rewrite orb_true_r.
    + rewrite (proj1 (proj2 (put_entries rt (Established 0) 0))). lia.
    + intros v e. rewrite (proj1 (put_entries rt v e)). pose proof (at2_nonneg rt Hrt v e).
      change (at2 ∅ v e) with 0. lia.
  - destruct (modify_loop_ok (E:=E) rt Hrt Hmax start (sorted_addresses (src_validators rt)) amount [])
      as (m & vs1 & Hrun & Hne & Hcase).
    + rewrite app_nil_r. unfold sorted_addresses. rewrite sort_le_perm. apply NoDup_elements.
    + rewrite totals_src. lia.
    + lia.
    + exists m. rewrite !app_nil_r in *. setoid_rewrite app_nil_r in Hcase.
      destruct Hcase as [(-> & Hnd & Hs)|(w & vs2 & r & res & -> & Hnd & -> & Hok & Hs)].
      * destruct (full_split_ok (E:=E) rt Hrt Hmax start vs1 Hnd Hne) as (ub & rt' & Hub & Hup & Ht & Hat).
        exists ub, rt'. split_and!; [done|done|done| |lia|done].
        unfold left_redelegated. cbn. rewrite bool_decide_false; [done|]. destruct vs1; set_solver.
      * destruct (partial_split_ok (E:=E) rt Hrt Hmax start vs2 w r res Hnd Hok) as (ub & rt' & Hub & Hup & Ht & Hat).
        exists ub, rt'. split_and!; [done|done|done| |lia|done].
        unfold left_redelegated. cbn. rewrite bool_decide_false; [done|]. set_solver.
Qed.

(** C30. Unbonding a part of a bond that holds redelegated tokens splits them
    without loss: the modification is computed, the tokens recorded as
    unbonded add up to the amount (or are all of them, if they are fewer), and
    for every source validator and bond start, what stays redelegated and what
    is recorded as unbonded add up to what there was, and neither is negative. *)
Theorem redelegation_split {C : AddressCodec} {U : UintOps} {HU : UintLaws U} {E : Type}
    (rbs : gmap Z (gmap Address (gmap Z Z))) (rt : gmap Address (gmap Z Z)) (removed : gset Z)
    (start amount : Z) :
  rbs !! start = Some rt -> contains rbs start = true ->
  redelegated_wf rt -> total2 rt <= MAX_VALUE -> 0 < amount <= MAX_VALUE ->
  exists m news ub rt', compute_modified_redelegation (E:=E) rt start amount = Ok m /\
    compute_new_redelegated_unbonds (E:=E) rbs removed m = Ok news /\ news !! start = Some ub /\
    left_redelegated (E:=E) m rt = Ok rt' /\
    total2 ub = Z.min amount (total2 rt) /\
    forall v e, at2 rt' v e + at2 ub v e = at2 rt v e /\ 0 <= at2 rt' v e /\ 0 <= at2 ub v e.
Proof.
  intros Hrbs Hc Hrt Hmax Ha.
  destruct (redelegation_split_at (E:=E) rt start amount Hrt Hmax Ha) as (m & ub & rt' & Hm & He & Hub & Hl & Ht & Hat).
  destruct (compute_new_lookup rbs removed start rt m ub Hrbs Hc He Hub) as (news & Hnews & Hlk).
  by exists m, news, ub, rt'.
Qed.

Definition sample_redelegated : gmap Address (gmap Z Z) :=
  {[Established 1 := {[1 := 10; 3 := 20]}; Established 2 := {[2 := 5]}]}.

Lemma redelegation_split_witness :
  exists m news ub rt',
    compute_modified_redelegation (C:=RefCodec.codec) (U:=Ref.uint_ref) (E:=unit) sample_redelegated 5 18 = Ok m /\
    compute_new_redelegated_unbonds (C:=RefCodec.codec) (U:=Ref.uint_ref) (E:=unit)
      {[5 := sample_redelegated]} ∅ m = Ok news /\ news !! 5 = Some ub /\
    left_redelegated (U:=Ref.uint_ref) (E:=unit) m sample_redelegated = Ok rt' /\
    total2 ub = Z.min 18 (total2 sample_redelegated) /\
    forall v e, at2 rt' v e + at2 ub v e = at2 sample_redelegated v e /\ 0 <= at2 rt' v e /\ 0 <= at2 ub v e.
Proof.
  apply (redelegation_split (C:=RefCodec.codec) (HU:=Ref.uint_ref_laws) {[5 := sample_redelegated]}
           sample_redelegated ∅ 5 18).
  - reflexivity.
  - vm_compute. reflexivity.
  - unfold sample_redelegated. intros v b [[_ <-]|[_ [_ <-]%lookup_singleton_Some]]%lookup_insert_Some e a.
    + intros [[_ <-]|[_ [_ <-]%lookup_singleton_Some]]%lookup_insert_Some; split; vm_compute; discriminate.
    + intros [_ <-]%lookup_singleton_Some. split; vm_compute; discriminate.
  - vm_compute. discriminate.
  - split; vm_compute; [reflexivity|discriminate].
Defined.
