(* ===== verification/ValidatorSet.v ===== *)
(** * Validator sets

    [proof_of_stake/src/validator_set_update.rs] and the stake deltas of
    [proof_of_stake/src/storage.rs]. For each epoch the storage has a consensus
    and a below-capacity set, both keyed by stake and position, and a map from
    validators to positions. A set is a nested lazy map; its entries are a flat
    map from the pair of stake key and position to the address. The stake key
    of the below-capacity set is the inverted amount, so that both sets are
    iterated in the order of their keys.

    The theorems on these operations are in [ValidatorSetInv]. *)

From stdpp Require Import sorting base numbers list gmap.
From Stdlib Require Import ZArith Lia.
From S2P Require Import Prelude Uint Int256 Dec Keys Epoch Params Epoched.

Local Open Scope Z_scope.

Inductive ValidatorState : Type :=
| Consensus
| BelowCapacity
| BelowThreshold
| Inactive
| Jailed.

#[export] Instance validator_state_eq_dec : EqDecision ValidatorState.
Proof. solve_decision. Defined.

Notation Position := Z (only parsing).

Definition position_next (p : Position) : Position := (p + 1) `mod` 2 ^ 64.

(** The entries of a set by stake key and position *)
Notation SetEntries := (gmap (Z * Z) Address) (only parsing).

Record ValidatorSets : Type := mkSets {
  consensus_validator_sets : epoched (gmap (Z * Z) Address);
  below_capacity_validator_sets : epoched (gmap (Z * Z) Address);
  validator_set_positions : epoched (gmap Address Z);
  validator_addresses : epoched (gset Address);
  validator_states : gmap Address (epoched ValidatorState);
  validator_deltas : gmap Address (epoched Z)
}.

Section updates.
Implicit Type s : ValidatorSets.
Definition set_consensus x s :=
  mkSets x (below_capacity_validator_sets s) (validator_set_positions s) (validator_addresses s)
    (validator_states s) (validator_deltas s).
Definition set_below_capacity x s :=
  mkSets (consensus_validator_sets s) x (validator_set_positions s) (validator_addresses s)
    (validator_states s) (validator_deltas s).
Definition set_positions x s :=
  mkSets (consensus_validator_sets s) (below_capacity_validator_sets s) x (validator_addresses s)
    (validator_states s) (validator_deltas s).
Definition set_addresses x s :=
  mkSets (consensus_validator_sets s) (below_capacity_validator_sets s) (validator_set_positions s) x
    (validator_states s) (validator_deltas s).
Definition set_states x s :=
  mkSets (consensus_validator_sets s) (below_capacity_validator_sets s) (validator_set_positions s)
    (validator_addresses s) x (validator_deltas s).
Definition set_deltas x s :=
  mkSets (consensus_validator_sets s) (below_capacity_validator_sets s) (validator_set_positions s)
    (validator_addresses s) (validator_states s) x.

(** A nested handle [at] an epoch: an absent map is empty. *)
Definition at_epoch `{Empty D} (h : epoched D) (epoch : Epoch) : D := default ∅ (data h !! epoch).
Definition write_epoch {D} (epoch : Epoch) (d : D) (h : epoched D) : epoched D :=
  set_data (<[epoch := d]> (data h)) h.

Definition consensus_at s (epoch : Epoch) : SetEntries := at_epoch (consensus_validator_sets s) epoch.
Definition below_capacity_at s (epoch : Epoch) : SetEntries :=
  at_epoch (below_capacity_validator_sets s) epoch.
Definition positions_at s (epoch : Epoch) : gmap Address Z := at_epoch (validator_set_positions s) epoch.
Definition state_handle s (v : Address) : epoched ValidatorState :=
  default empty_epoched (validator_states s !! v).
Definition deltas_handle s (v : Address) : epoched Z := default empty_epoched (validator_deltas s !! v).
Definition write_positions (epoch : Epoch) (m : gmap Address Z) s : ValidatorSets :=
  set_positions (write_epoch epoch m (validator_set_positions s)) s.
End updates.

(** The entries of a set in the order of their storage keys. The segments of
    stake and position have fixed widths and keep the numeric order. *)
Definition entry_le (x y : Z * Z * Address) : bool :=
  (x.1.1 <? y.1.1) || (x.1.1 =? y.1.1) && (x.1.2 <=? y.1.2).
Definition set_list (m : SetEntries) : list (Z * Z * Address) := sort_le entry_le (map_to_list m).

(** The lazy map of positions under one stake key of a set *)
Inductive SetHandle : Type := ConsensusAt (k : Z) | BelowCapacityAt (k : Z).

Section handles.
Implicit Types (s : ValidatorSets) (h : SetHandle).

Definition handle_key h : Z := match h with ConsensusAt k => k | BelowCapacityAt k => k end.
Definition handle_set h s (epoch : Epoch) : SetEntries :=
  match h with ConsensusAt _ => consensus_at s epoch | BelowCapacityAt _ => below_capacity_at s epoch end.
Definition write_set h (epoch : Epoch) (m : SetEntries) s : ValidatorSets :=
  match h with
  | ConsensusAt _ => set_consensus (write_epoch epoch m (consensus_validator_sets s)) s
  | BelowCapacityAt _ => set_below_capacity (write_epoch epoch m (below_capacity_validator_sets s)) s
  end.

(** The iteration of the handle: positions and addresses *)
Definition level (m : SetEntries) (k : Z) : list (Z * Address) :=
  (fun e => (e.1.2, e.2)) <$> filter (fun e : Z * Z * Address => e.1.1 = k) (set_list m).

Definition handle_get h s (epoch : Epoch) (p : Position) : option Address :=
  handle_set h s epoch !! (handle_key h, p).
Definition handle_insert {E} h (epoch : Epoch) (p : Position) (a : Address) : st ValidatorSets E unit :=
  st_mod (fun s => write_set h epoch (<[(handle_key h, p) := a]> (handle_set h s epoch)) s).
Definition handle_remove {E} h (epoch : Epoch) (p : Position) : st ValidatorSets E (option Address) :=
  fun s => (write_set h epoch (delete (handle_key h, p) (handle_set h s epoch)) s,
            Ok (handle_get h s epoch p)).

Definition find_first_position h s (epoch : Epoch) : option Position :=
  fst <$> head (level (handle_set h s epoch) (handle_key h)).
Definition find_last_position h s (epoch : Epoch) : option Position :=
  fst <$> last (level (handle_set h s epoch) (handle_key h)).
Definition find_next_position h s (epoch : Epoch) : Position :=
  from_option (fun e => position_next e.1) 0 (last (level (handle_set h s epoch) (handle_key h))).
End handles.

Section set_ops.
Context {U : UintOps} {E : Type} (params : PosParams).
Local Open Scope st_scope.

(** ** Stakes *)
Definition deltas_past : EpochOffset := OffsetMaxProposalPeriodOrSlashProcessingLenPlus.

Definition read_validator_stake (s : ValidatorSets) (v : Address) (epoch : Epoch) : outcome E Z :=
  (let* sum := get_sum (HD:=change_delta) OffsetPipelineLen deltas_past (deltas_handle s v) epoch params in
   Ok (from_option from_change 0 sum))%out.

Definition update_validator_deltas (v : Address) (delta : Z) (current_epoch : Epoch)
    (offset_opt : option Z) : st ValidatorSets E unit :=
  let offset := default (pipeline_len params) offset_opt in
  let! epoch := st_lift (epoch_add current_epoch offset) in
  let! h := st_get (fun s => deltas_handle s v) in
  let val := default 0 (get_delta_val h epoch) in
  let! sum := st_lift (i256_checked_add val delta) in
  let! new_val := st_lift (unwrap sum) in
  let r := delta_set (HD:=change_delta) deltas_past params new_val current_epoch offset h in
  do! st_mod (fun s => set_deltas (<[v := r.1]> (validator_deltas s)) s) in
  st_lift r.2.

(** [validator_state_handle(v).set] *)
Definition set_validator_state (v : Address) (x : ValidatorState) (current_epoch : Epoch) (offset : Z)
  : st ValidatorSets E unit :=
  let! h := st_get (fun s => state_handle s v) in
  let r := set OffsetDefaultNumPastEpochs params x current_epoch offset h in
  do! st_mod (fun s => set_states (<[v := r.1]> (validator_states s)) s) in
  st_lift r.2.

(** ** Sets and positions *)

(** The key of an amount in the below-capacity set, and the amount of a key *)
Definition invert (amount : Z) : outcome E Z := amount_sub MAX_SIGNED_VALUE amount.
Definition below_capacity_handle (amount : Z) : outcome E SetHandle :=
  (let* k := invert amount in Ok (BelowCapacityAt k))%out.

Definition get_num_consensus_validators (s : ValidatorSets) (epoch : Epoch) : Z :=
  Z.of_nat (length (set_list (consensus_at s epoch))).
Definition get_min_consensus_validator_amount (s : ValidatorSets) (epoch : Epoch) : Z :=
  from_option (fun e => e.1.1) 0 (head (set_list (consensus_at s epoch))).
Definition get_max_below_capacity_validator_amount (s : ValidatorSets) (epoch : Epoch)
  : outcome E (option Z) :=
  match head (set_list (below_capacity_at s epoch)) with
  | Some e => (let* a := invert e.1.1 in Ok (Some a))%out
  | None => Ok None
  end.
Definition read_validator_set_position (s : ValidatorSets) (v : Address) (epoch : Epoch)
  : option Position :=
  positions_at s epoch !! v.
Definition remove_position (v : Address) (epoch : Epoch) : st ValidatorSets E unit :=
  st_mod (fun s => write_positions epoch (delete v (positions_at s epoch)) s).

Definition insert_validator_into_set (h : SetHandle) (epoch : Epoch) (address : Address)
  : st ValidatorSets E unit :=
  let! next_position := st_get (fun s => find_next_position h s epoch) in
  do! handle_insert h epoch next_position address in
  st_mod (fun s => write_positions epoch (<[address := next_position]> (positions_at s epoch)) s).

Definition insert_into_consensus_and_demote_to_below_cap (validator : Address)
    (tokens_post min_consensus_amount : Z) (current_epoch : Epoch) (offset : Z)
    (epoch : Epoch) : st ValidatorSets E unit :=
  let consensus_vals_min := ConsensusAt min_consensus_amount in
  let! o := st_get (fun s => find_last_position consensus_vals_min s epoch) in
  let! last_position := st_lift (unwrap o) in
  let! r := handle_remove consensus_vals_min epoch last_position in
  let! removed_min_consensus := st_lift (unwrap r) in
  let! offset_epoch := st_lift (epoch_add current_epoch offset) in
  let! below := st_lift (below_capacity_handle min_consensus_amount) in
  do! insert_validator_into_set below offset_epoch removed_min_consensus in
  do! set_validator_state removed_min_consensus BelowCapacity current_epoch offset in
  do! insert_validator_into_set (ConsensusAt tokens_post) offset_epoch validator in
  set_validator_state validator Consensus current_epoch offset.

(** The promotion of the first validator of the largest below-capacity stake *)
Definition promote_max_below_capacity (max_bc_amount : Z) (epoch current_epoch : Epoch) (offset : Z)
  : st ValidatorSets E unit :=
  let! below_capacity_vals_max := st_lift (below_capacity_handle max_bc_amount) in
  let! o := st_get (fun s => find_first_position below_capacity_vals_max s epoch) in
  let! lowest_position := st_lift (unwrap o) in
  let! r := handle_remove below_capacity_vals_max epoch lowest_position in
  let! removed_max_below_capacity := st_lift (unwrap r) in
  do! insert_validator_into_set (ConsensusAt max_bc_amount) epoch removed_max_below_capacity in
  set_validator_state removed_max_below_capacity Consensus current_epoch offset.

(** ** [update_validator_set], by the set the validator is in *)

(** The validator is in the consensus set at [position]. *)
Definition update_consensus_validator (validator : Address) (tokens_pre tokens_post : Z)
    (position : Position) (current_epoch : Epoch) (offset : Z) (epoch : Epoch)
  : st ValidatorSets E unit :=
  do! handle_remove (ConsensusAt tokens_pre) epoch position in
  let! s := st_get (fun s => s) in
  let! max_opt := st_lift (get_max_below_capacity_validator_amount s epoch) in
  let max_below_capacity_validator_amount := default 0 max_opt in
  if tokens_post <? validator_stake_threshold params then
    do! set_validator_state validator BelowThreshold current_epoch offset in
    do! remove_position validator epoch in
    let! s := st_get (fun s => s) in
    let! max_opt := st_lift (get_max_below_capacity_validator_amount s epoch) in
    match max_opt with
    | Some max_bc_amount => promote_max_below_capacity max_bc_amount epoch current_epoch offset
    | None => st_ret tt
    end
  else if tokens_post <? max_below_capacity_validator_amount then
    do! promote_max_below_capacity max_below_capacity_validator_amount epoch current_epoch offset in
    let! below := st_lift (below_capacity_handle tokens_post) in
    do! insert_validator_into_set below epoch validator in
    set_validator_state validator BelowCapacity current_epoch offset
  else insert_validator_into_set (ConsensusAt tokens_post) epoch validator.

(** The validator is in the below-capacity set at [position]. *)
Definition update_below_capacity_validator (validator : Address) (tokens_pre tokens_post : Z)
    (position : Position) (current_epoch : Epoch) (offset : Z) (epoch : Epoch)
  : st ValidatorSets E unit :=
  let! below_capacity_vals_pre := st_lift (below_capacity_handle tokens_pre) in
  do! handle_remove below_capacity_vals_pre epoch position in
  let! min_consensus := st_get (fun s => get_min_consensus_validator_amount s epoch) in
  if tokens_post >? min_consensus then
    insert_into_consensus_and_demote_to_below_cap validator tokens_post min_consensus
      current_epoch offset epoch
  else if tokens_post >=? validator_stake_threshold params then
    let! below := st_lift (below_capacity_handle tokens_post) in
    do! insert_validator_into_set below epoch validator in
    set_validator_state validator BelowCapacity current_epoch offset
  else
    do! set_validator_state validator BelowThreshold current_epoch offset in
    remove_position validator epoch.

(** The validator has no position. *)
Definition update_below_threshold_validator (validator : Address) (tokens_post : Z)
    (current_epoch : Epoch) (offset : Z) (epoch : Epoch) : st ValidatorSets E unit :=
  let! num_consensus_validators := st_get (fun s => get_num_consensus_validators s epoch) in
  if num_consensus_validators <? max_validator_slots params then
    do! insert_validator_into_set (ConsensusAt tokens_post) epoch validator in
    set_validator_state validator Consensus current_epoch offset
  else
    let! min_consensus := st_get (fun s => get_min_consensus_validator_amount s epoch) in
    if tokens_post >? min_consensus then
      insert_into_consensus_and_demote_to_below_cap validator tokens_post min_consensus
        current_epoch offset epoch
    else
      let! below := st_lift (below_capacity_handle tokens_post) in
      do! insert_validator_into_set below epoch validator in
      set_validator_state validator BelowCapacity current_epoch offset.

Definition update_validator_set (validator : Address) (token_change : Z) (current_epoch : Epoch)
    (offset : option Z) : st ValidatorSets E unit :=
  if i256_is_zero token_change then st_ret tt
  else
    let offset := default (pipeline_len params) offset in
    let! epoch := st_lift (epoch_add current_epoch offset) in
    let! s := st_get (fun s => s) in
    let! tokens_pre := st_lift (read_validator_stake s validator epoch) in
    let! pre_change := st_lift (change tokens_pre) in
    let! post_opt := st_lift (i256_checked_add pre_change token_change) in
    let! post_change := st_lift (unwrap post_opt) in
    let tokens_post := from_change post_change in
    if (tokens_pre <? validator_stake_threshold params)
       && (tokens_post <? validator_stake_threshold params) then st_ret tt
    else
      match read_validator_set_position s validator epoch with
      | Some position =>
          if bool_decide (handle_get (ConsensusAt tokens_pre) s epoch position = Some validator)
          then update_consensus_validator validator tokens_pre tokens_post position
                 current_epoch offset epoch
          else update_below_capacity_validator validator tokens_pre tokens_post position
                 current_epoch offset epoch
      | None =>
          update_below_threshold_validator validator tokens_post current_epoch offset epoch
      end.

(** ** Insertion, removal, promotion *)
Definition insert_validator_into_validator_set (address : Address) (stake : Z) (current_epoch : Epoch)
    (offset : Z) : st ValidatorSets E unit :=
  let! target_epoch := st_lift (epoch_add current_epoch offset) in
  let! num_consensus_validators := st_get (fun s => get_num_consensus_validators s target_epoch) in
  if stake <? validator_stake_threshold params then
    set_validator_state address BelowThreshold current_epoch offset
  else if num_consensus_validators <? max_validator_slots params then
    do! insert_validator_into_set (ConsensusAt stake) target_epoch address in
    set_validator_state address Consensus current_epoch offset
  else
    let! min_consensus_amount := st_get (fun s => get_min_consensus_validator_amount s target_epoch) in
    if stake >? min_consensus_amount then
      let min_consensus_handle := ConsensusAt min_consensus_amount in
      let! o := st_get (fun s => find_last_position min_consensus_handle s target_epoch) in
      let! last_min_consensus_position := st_lift (unwrap o) in
      let! r := handle_remove min_consensus_handle target_epoch last_min_consensus_position in
      let! removed := st_lift (unwrap r) in
      let! below := st_lift (below_capacity_handle min_consensus_amount) in
      do! insert_validator_into_set below target_epoch removed in
      do! set_validator_state removed BelowCapacity current_epoch offset in
      do! insert_validator_into_set (ConsensusAt stake) target_epoch address in
      set_validator_state address Consensus current_epoch offset
    else
      let! below := st_lift (below_capacity_handle stake) in
      do! insert_validator_into_set below target_epoch address in
      set_validator_state address BelowCapacity current_epoch offset.

Definition remove_consensus_validator (epoch : Epoch) (validator : Address) : st ValidatorSets E unit :=
  let! s := st_get (fun s => s) in
  let! stake := st_lift (read_validator_stake s validator epoch) in
  let! val_position := st_lift (unwrap (positions_at s epoch !! validator)) in
  do! handle_remove (ConsensusAt stake) epoch val_position in
  remove_position validator epoch.

Definition remove_below_capacity_validator (epoch : Epoch) (validator : Address)
  : st ValidatorSets E unit :=
  let! s := st_get (fun s => s) in
  let! stake := st_lift (read_validator_stake s validator epoch) in
  let! below_cap_set := st_lift (below_capacity_handle stake) in
  let! val_position := st_lift (unwrap (positions_at s epoch !! validator)) in
  do! handle_remove below_cap_set epoch val_position in
  remove_position validator epoch.

Definition promote_next_below_capacity_validator_to_consensus (epoch : Epoch) : st ValidatorSets E unit :=
  let! s := st_get (fun s => s) in
  let! max_below_capacity_amount := st_lift (get_max_below_capacity_validator_amount s epoch) in
  match max_below_capacity_amount with
  | Some max_below_capacity_amount =>
      promote_max_below_capacity max_below_capacity_amount epoch epoch 0
  | None => st_ret tt
  end.

(** ** The sets of a new epoch *)

(** The entries that are copied: the keys are read and written again. *)
Definition copy_entries (key : Z -> outcome E Z) (from to : SetEntries) : outcome E SetEntries :=
  out_fold (fun (m : SetEntries) (e : Z * Z * Address) =>
              (let* k := key e.1.1 in Ok (<[(k, e.1.2) := e.2]> m))%out) (set_list from) to.

(** The update of a nested handle of the storage *)
Definition on_handle {D} (get_h : ValidatorSets -> epoched D) (set_h : epoched D -> ValidatorSets -> ValidatorSets)
    (f : st (epoched D) E unit) : st ValidatorSets E unit :=
  let! h := st_get get_h in
  let r := f h in
  do! st_mod (set_h r.1) in st_lift r.2.

Definition copy_validator_sets_and_positions (current_epoch target_epoch : Epoch)
  : st ValidatorSets E unit :=
  let! prev_epoch := st_lift (epoch_prev target_epoch) in
  let! s := st_get (fun s => s) in
  let! consensus := st_lift
    (copy_entries (fun k => Ok k) (consensus_at s prev_epoch) (consensus_at s target_epoch)) in
  let! below_capacity := st_lift
    (copy_entries (fun k => let* stake := invert k in invert stake)%out
       (below_capacity_at s prev_epoch) (below_capacity_at s target_epoch)) in
  do! st_mod (write_set (ConsensusAt 0) target_epoch consensus) in
  do! st_mod (write_set (BelowCapacityAt 0) target_epoch below_capacity) in
  do! on_handle consensus_validator_sets set_consensus
        (nested_update_data OffsetMaxProposalPeriodPlus params current_epoch) in
  do! on_handle below_capacity_validator_sets set_below_capacity
        (nested_update_data OffsetDefaultNumPastEpochs params current_epoch) in
  do! st_mod (fun s => write_positions target_epoch
                (positions_at s prev_epoch ∪ positions_at s target_epoch) s) in
  do! st_mod (fun s => set_positions (set_last_update current_epoch (validator_set_positions s)) s) in
  do! on_handle validator_set_positions set_positions
        (nested_update_data OffsetDefaultNumPastEpochs params current_epoch) in
  do! st_mod (fun s => set_addresses (write_epoch target_epoch
                (at_epoch (validator_addresses s) prev_epoch ∪ at_epoch (validator_addresses s) target_epoch)
                (validator_addresses s)) s) in
  on_handle validator_addresses set_addresses
    (nested_update_data OffsetDefaultNumPastEpochs params current_epoch).
End set_ops.

(** ** The iteration of a set *)
Section set_lists.
Implicit Types (m : gmap (Z * Z) Address) (e : Z * Z * Address).

Lemma entry_le_iff x y : entry_le x y <-> x.1.1 < y.1.1 \/ x.1.1 = y.1.1 /\ x.1.2 <= y.1.2.
Proof. unfold entry_le. rewrite Is_true_true. lia. Qed.

Lemma set_list_sorted m : StronglySorted entry_le (set_list m).
Proof.
  apply sort_le_sorted.
  - intros x y. rewrite orb_True, !entry_le_iff. lia.
  - intros x y z. rewrite !entry_le_iff. lia.
Qed.

Lemma elem_of_set_list m e : e ∈ set_list m <-> m !! e.1 = Some e.2.
Proof. unfold set_list. rewrite sort_le_perm. destruct e. apply elem_of_map_to_list. Qed.

Lemma set_list_length m : length (set_list m) = size m.
Proof. unfold set_list. by rewrite sort_le_perm, length_map_to_list. Qed.

Lemma set_list_head m : match head (set_list m) with
  | None => m = ∅
  | Some e => m !! e.1 = Some e.2 /\ forall k p v, m !! (k, p) = Some v -> e.1.1 <= k
  end.
Proof.
  pose proof (set_list_sorted m) as Hs. pose proof (elem_of_set_list m) as Hin.
  destruct (set_list m) as [|e l]; simpl.
  - apply map_empty. intros k. apply eq_None_not_Some. intros [v Hv].
    apply (not_elem_of_nil (k, v)). by apply Hin.
  - split; [apply Hin; by left|]. intros k p v Hv. inversion Hs as [|? ? _ Hall]; subst.
    assert ((k, p, v) ∈ e :: l) as [<-|He]%elem_of_cons by (by apply Hin); simpl; [lia|].
    rewrite List.Forall_forall in Hall. apply list_elem_of_In, Hall, entry_le_iff in He. simpl in He. lia.
Qed.

Lemma elem_of_level m k p a : (p, a) ∈ level m k <-> m !! (k, p) = Some a.
Proof.
  unfold level. rewrite list_elem_of_fmap. split.
  - intros ([[k' p'] a'] & [= -> ->] & [Hk He]%list_elem_of_filter). simpl in *. subst.
    by apply elem_of_set_list in He.
  - intros Hm. exists (k, p, a). split; [done|]. apply list_elem_of_filter. split; [done|].
    by apply elem_of_set_list.
Qed.

Lemma level_sorted m k : StronglySorted (key_le fst) (level m k).
Proof.
  unfold level. generalize (set_list_sorted m). generalize (set_list m) as l.
  induction 1 as [|e l Hl IH He]; simpl; [constructor|].
  rewrite filter_cons. case_decide as Hk; [|done]. cbn. constructor; [done|].
  apply Forall_fmap, List.Forall_forall. intros e' [Hk' Hin]%list_elem_of_In%list_elem_of_filter.
  rewrite List.Forall_forall in He. apply list_elem_of_In, He, entry_le_iff in Hin.
  unfold key_le. simpl. lia.
Qed.

Lemma level_last m k : match last (level m k) with
  | None => forall p, m !! (k, p) = None
  | Some e => m !! (k, e.1) = Some e.2 /\ forall p v, m !! (k, p) = Some v -> p <= e.1
  end.
Proof.
  pose proof (level_sorted m k) as Hs. pose proof (elem_of_level m k) as Hin.
  destruct (last (level m k)) as [e|] eqn:Hl.
  - apply last_Some in Hl as [l Hl]. rewrite Hl in Hs, Hin. split.
    + destruct e. apply Hin, elem_of_app. right. by apply list_elem_of_singleton.
    + intros p v [Hv|Hv]%Hin%elem_of_app.
      * apply (StronglySorted_app_1_elem_of _ l [e] (p, v) e Hs) in Hv; [done|by left].
      * apply list_elem_of_singleton in Hv as <-. simpl. lia.
  - apply last_None in Hl. intros p. apply eq_None_not_Some. intros [v Hv%Hin]. rewrite Hl in Hv.
    by apply not_elem_of_nil in Hv.
Qed.

Lemma level_head m k : match head (level m k) with
  | None => forall p, m !! (k, p) = None
  | Some e => m !! (k, e.1) = Some e.2
  end.
Proof.
  pose proof (elem_of_level m k) as Hin. destruct (level m k) as [|e l]; simpl.
  - intros p. apply eq_None_not_Some. intros [v Hv%Hin]. by apply not_elem_of_nil in Hv.
  - destruct e. apply Hin. by left.
Qed.

(** The next position of a level is free while no position is the last one. *)
Lemma next_position_free m k :
  (forall k p v, m !! (k, p) = Some v -> 0 <= p < U64_MAX) ->
  let q := from_option (fun x : Z * Address => position_next x.1) 0 (last (level m k)) in
  m !! (k, q) = None /\ 0 <= q <= U64_MAX.
Proof.
  intros Hb. pose proof (level_last m k) as Hl. destruct (last (level m k)) as [e|]; simpl.
  - destruct Hl as [He Hmax]. pose proof (Hb _ _ _ He) as Hp.
    unfold position_next. rewrite Z.mod_small by (unfold U64_MAX in *; lia). split; [|lia].
    apply eq_None_not_Some. intros [v Hv%Hmax]. lia.
  - split; [apply Hl|unfold U64_MAX; lia].
Qed.
End set_lists.
