(* ===== verification/ValidatorSetInv.v ===== *)
(** * The invariant of the validator sets

    Every update of a validator's stake keeps the sets, the positions and the
    recorded states of an epoch consistent, and the consensus set filled with
    the validators of highest stake; so do the insertion, the removal and the
    promotion of a validator. *)

From stdpp Require Import sorting functions base numbers list gmap.
From Stdlib Require Import ZArith Lia.
From S2P Require Import Prelude Uint Int256 Dec Keys Epoch Params Epoched ValidatorSet.

Local Open Scope Z_scope.

(** ** Membership, stakes and positions

    [mem !! v] is the set validator [v] is in. The entries of the sets are exactly
    the validators in them, under their stake and position. *)
Section core.
Implicit Types (C B : gmap (Z * Z) Address) (P : gmap Address Z).
Implicit Types (mem : gmap Address ValidatorState) (stake : Address -> Z).

Definition stake_key (x : ValidatorState) (a : Z) : Z :=
  match x with BelowCapacity => MAX_SIGNED_VALUE - a | _ => a end.
Definition listed (x : ValidatorState) mem stake P (m : gmap (Z * Z) Address) : Prop :=
  forall k p v, m !! (k, p) = Some v <-> P !! v = Some p /\ mem !! v = Some x /\ stake_key x (stake v) = k.
Definition core mem stake C B P : Prop :=
  listed Consensus mem stake P C /\ listed BelowCapacity mem stake P B.

Lemma listed_remove x mem stake P m v p : listed x mem stake P m -> P !! v = Some p -> mem !! v = Some x ->
  listed x (delete v mem) stake P (delete (stake_key x (stake v), p) m).
Proof.
  intros Hl Hp Hv k q w. destruct (decide (w = v)) as [->|Hne].
  - rewrite (lookup_delete_eq mem). split; [|by intros (_ & ? & _)].
    intros [Hk (Hp' & _ & Hs)%Hl]%lookup_delete_Some. exfalso. apply Hk. congruence.
  - rewrite (lookup_delete_ne mem) by done. rewrite <- (Hl k q w). split.
    + by intros [_ ?]%lookup_delete_Some.
    + intros Hw. rewrite lookup_delete_ne; [done|]. intros [= <- <-].
      assert (m !! (stake_key x (stake v), p) = Some v) by (by apply Hl). congruence.
Qed.

(** A validator outside of a set matters neither by its stake nor by its position. *)
Lemma listed_change x mem mem' stake stake' P P' m v : listed x mem stake P m ->
  mem !! v <> Some x -> mem' !! v <> Some x ->
  (forall w, w <> v -> mem' !! w = mem !! w /\ stake' w = stake w /\ P' !! w = P !! w) ->
  listed x mem' stake' P' m.
Proof.
  intros Hl Hv Hv' Heq k p w. rewrite (Hl k p w). destruct (decide (w = v)) as [->|Hne].
  - split; intros (_ & ? & _); congruence.
  - destruct (Heq w Hne) as (-> & -> & ->). done.
Qed.

Lemma listed_insert x mem stake P m v q : listed x mem stake P m -> mem !! v <> Some x ->
  m !! (stake_key x (stake v), q) = None ->
  listed x (<[v := x]> mem) stake (<[v := q]> P) (<[(stake_key x (stake v), q) := v]> m).
Proof.
  intros Hl Hv Hq k p w. destruct (decide (w = v)) as [->|Hne].
  - rewrite (lookup_insert_eq mem), (lookup_insert_eq P). split.
    + intros [[[= <- <-] _]|[_ (_ & ? & _)%Hl]]%lookup_insert_Some; [done|congruence].
    + intros ([= ->] & _ & <-). apply lookup_insert_eq.
  - rewrite (lookup_insert_ne mem), (lookup_insert_ne P) by done. rewrite <- (Hl k p w). split.
    + intros [[_ ?]|[_ ?]]%lookup_insert_Some; [congruence|done].
    + intros Hw. rewrite lookup_insert_ne; [done|]. intros [= <- <-]. congruence.
Qed.
End core.

(** Parameters whose epoch offsets fit a [u64] *)
Record params_ok (params : PosParams) : Prop := {
  ok_slots : 0 < max_validator_slots params;
  ok_threshold : 0 <= validator_stake_threshold params;
  ok_pipeline : 0 <= pipeline_len params;
  ok_offsets : 0 <= unbonding_len params /\ 0 <= cubic_slashing_window_length params /\
    0 <= max_proposal_period params /\
    unbonding_len params + cubic_slashing_window_length params + 3 <= U64_MAX /\
    max_proposal_period params + 2 <= U64_MAX
}.

Definition deltas_window (params : PosParams) : Z :=
  Z.max (unbonding_len params + cubic_slashing_window_length params + 1) (max_proposal_period params) + 2.

Lemma deltas_past_value params : params_ok params ->
  forall E, offset_value (E:=E) deltas_past params = Ok (deltas_window params).
Proof.
  intros [_ _ _ (? & ? & ? & ? & ?)] E. unfold deltas_past, offset_value, slash_processing_epoch_offset.
  rewrite u64_add_ok by lia. cbn [out_bind]. rewrite u64_add_ok by lia. cbn [out_bind].
  rewrite u64_add_ok; [done|]. unfold DEFAULT_NUM_PAST_EPOCHS. lia.
Qed.

(** What a write changes of the epoch it is for *)
Section views.
Implicit Types (s : ValidatorSets) (h : SetHandle) (m : gmap (Z * Z) Address) (P : gmap Address Z).

Lemma at_write_eq `{Empty D} (h : epoched D) (e : Z) (d : D) : at_epoch (write_epoch e d h) e = d.
Proof. unfold at_epoch, write_epoch. cbn. by rewrite lookup_insert_eq. Qed.

Lemma consensus_write_set h e m s : consensus_at (write_set h e m s) e =
  match h with ConsensusAt _ => m | BelowCapacityAt _ => consensus_at s e end.
Proof. destruct h; [apply at_write_eq|done]. Qed.
Lemma below_write_set h e m s : below_capacity_at (write_set h e m s) e =
  match h with ConsensusAt _ => below_capacity_at s e | BelowCapacityAt _ => m end.
Proof. destruct h; [done|apply at_write_eq]. Qed.
Lemma positions_write_set h e m s : positions_at (write_set h e m s) e = positions_at s e.
Proof. by destruct h. Qed.
Lemma positions_write e P s : positions_at (write_positions e P s) e = P.
Proof. apply at_write_eq. Qed.
Lemma consensus_write_positions e P s e' : consensus_at (write_positions e P s) e' = consensus_at s e'.
Proof. done. Qed.
Lemma below_write_positions e P s e' : below_capacity_at (write_positions e P s) e' = below_capacity_at s e'.
Proof. done. Qed.
Lemma deltas_write_positions e P s : validator_deltas (write_positions e P s) = validator_deltas s.
Proof. done. Qed.
Lemma states_write_set h e m s v : state_handle (write_set h e m s) v = state_handle s v.
Proof. by destruct h. Qed.
Lemma deltas_write_set h e m s : validator_deltas (write_set h e m s) = validator_deltas s.
Proof. by destruct h. Qed.
End views.

Create HintDb views.
#[export] Hint Rewrite consensus_write_set below_write_set positions_write_set positions_write
  deltas_write_set consensus_write_positions below_write_positions deltas_write_positions : views.

Definition set_handle (x : ValidatorState) (a : Z) : SetHandle :=
  match x with BelowCapacity => BelowCapacityAt (stake_key x a) | _ => ConsensusAt a end.
Definition in_set (x : ValidatorState) : Prop := x = Consensus \/ x = BelowCapacity.
Definition slots (x : ValidatorState) : Z := match x with Consensus => 1 | _ => 0 end.

(** ** The rules of the sets

    Members are exactly the validators recorded in a set, with at least the
    threshold of stake; below-capacity validators exist only next to a full
    consensus set and have no more stake than any of its members. *)
Section rules.
Context (params : PosParams).
Implicit Types (mem rec : gmap Address ValidatorState) (stake : Address -> Z).
Notation threshold := (validator_stake_threshold params).

Record consistent mem rec stake (n : Z) (X : gset Address) : Prop := {
  con_dom : forall v, v ∈ X -> is_Some (mem !! v);
  con_rec : forall v x, in_set x -> mem !! v = Some x <-> rec !! v = Some x;
  con_in : forall v x, mem !! v = Some x -> in_set x /\ threshold <= stake v;
  con_low : forall v, rec !! v = Some BelowThreshold -> stake v < threshold;
  con_cap : n <= max_validator_slots params;
  con_full : forall v, mem !! v = Some BelowCapacity -> n = max_validator_slots params;
  con_order : forall v w, mem !! v = Some Consensus -> mem !! w = Some BelowCapacity -> stake w <= stake v
}.

Ltac con_cases :=
  repeat match goal with
  | H : <[_ := _]> _ !! _ = Some _ |- _ => apply lookup_insert_Some in H as [[? ?]|[? ?]]; simplify_eq
  | H : delete _ _ !! _ = Some _ |- _ => apply lookup_delete_Some in H as [? ?]
  | H : in_set _ |- _ => destruct H; simplify_eq
  end.
Ltac stake_simpl :=
  repeat match goal with
  | |- context [<[?v := _]> ?f ?v] => rewrite (fn_lookup_insert f v)
  | |- context [<[?v := _]> ?f ?w] => rewrite (fn_lookup_insert_ne f v w) by congruence
  end.

Ltac pose_once H :=
  let T := type of H in
  lazymatch goal with
  | _ : T |- _ => fail
  | _ => pose proof H
  end.

(** Instantiate the rules at the members in sight. *)
Ltac con_facts :=
  repeat match goal with
  | Hi : forall v x, ?m !! v = Some x -> in_set x /\ _, H : ?m !! ?v = Some ?x |- _ =>
      pose_once (proj2 (Hi v x H))
  | Ho : forall v w, ?m !! v = Some Consensus -> ?m !! w = Some BelowCapacity -> _,
    H : ?m !! ?v = Some Consensus, H' : ?m !! ?w = Some BelowCapacity |- _ => pose_once (Ho v w H H')
  | Hm : forall u, ?m !! u = Some ?x -> _, H : ?m !! ?u = Some ?x |- _ => pose_once (Hm u H)
  | Hm : forall u, ?m !! u <> Some ?x, H : ?m !! ?u = Some ?x |- _ => by destruct (Hm u H)
  | Hm : forall u, u <> ?v -> ?m !! u <> Some ?x, H : ?m !! ?u = Some ?x |- _ =>
      by (destruct (Hm u); [congruence|])
  | Hl : forall v, ?r !! v = Some BelowThreshold -> _, H : ?r !! ?v = Some BelowThreshold |- _ =>
      pose_once (Hl v H)
  end.

(** The recorded states agree after the same change on both sides. *)
Ltac con_agree Hr :=
  let u := fresh "u" in let y := fresh "y" in let Hy := fresh "Hy" in
  intros u y Hy; rewrite ?lookup_insert_Some, ?lookup_delete_Some, (Hr u y Hy); unfold in_set in Hy;
  naive_solver.

Ltac con_solve :=
  intros; con_cases; con_facts; stake_simpl; try (split; [by (left + right)|]);
  first [done | eauto; fail | lia | congruence].

(** A validator leaves the sets; below the threshold it has less stake. *)
Lemma con_leave mem rec stake n X v a x : consistent mem rec stake n X -> ~ in_set x ->
  (x = BelowThreshold -> a < threshold) ->
  mem !! v = Some BelowCapacity \/ (forall u, mem !! u <> Some BelowCapacity) ->
  consistent (delete v mem) (<[v := x]> rec) (<[v := a]> stake)
    (n - slots (default BelowCapacity (mem !! v))) (X ∖ {[v]}).
Proof.
  intros [Hd Hr Hi Hl Hcp Hf Ho] Hx Ha Hv.
  assert (0 <= slots (default BelowCapacity (mem !! v))) by (by destruct (default BelowCapacity (mem !! v))).
  constructor.
  - intros w [Hw Hne]%elem_of_difference. rewrite lookup_delete_ne by set_solver. auto.
  - con_agree Hr.
  - con_solve.
  - con_solve.
  - lia.
  - destruct Hv as [Hv|Hv]; [rewrite Hv; cbn|]; con_solve.
  - con_solve.
Qed.

Lemma con_leave_promote mem rec stake n X v w a x : consistent mem rec stake n X -> ~ in_set x ->
  (x = BelowThreshold -> a < threshold) -> mem !! v = Some Consensus -> mem !! w = Some BelowCapacity ->
  (forall u, mem !! u = Some BelowCapacity -> stake u <= stake w) ->
  consistent (<[w := Consensus]> (delete v mem)) (<[w := Consensus]> (<[v := x]> rec))
    (<[v := a]> stake) n (X ∖ {[v]}).
Proof.
  intros [Hd Hr Hi Hl Hcp Hf Ho] Hx Ha Hv Hw Hmaxw. constructor; try con_solve.
  - intros u [Hu Hne]%elem_of_difference. destruct (decide (u = w)) as [->|]; [by rewrite lookup_insert_eq|].
    rewrite lookup_insert_ne, lookup_delete_ne by set_solver. auto.
  - con_agree Hr.
Qed.

(** A validator outside of the sets is recorded in another such state. *)
Lemma con_mark mem rec stake n X v x : consistent mem rec stake n X -> ~ in_set x ->
  (x = BelowThreshold -> stake v < threshold) -> mem !! v = None ->
  consistent mem (<[v := x]> rec) stake n X.
Proof.
  intros [Hd Hr Hi Hl Hcp Hf Ho] Hx Ha Hv. constructor; try done; try con_solve.
  intros u y Hy. destruct (decide (u = v)) as [->|].
  - rewrite Hv, lookup_insert_eq. split; [done|]. intros [= ->]. done.
  - rewrite lookup_insert_ne by done. auto.
Qed.

Lemma con_swap_down mem rec stake n X v w a : consistent mem rec stake n X -> threshold <= a ->
  mem !! v = Some Consensus -> mem !! w = Some BelowCapacity -> a < stake w ->
  (forall u, mem !! u = Some BelowCapacity -> stake u <= stake w) ->
  consistent (<[v := BelowCapacity]> (<[w := Consensus]> (delete v mem)))
    (<[v := BelowCapacity]> (<[w := Consensus]> rec)) (<[v := a]> stake) n ({[v]} ∪ X).
Proof.
  intros [Hd Hr Hi Hl Hcp Hf Ho] Ha Hv Hw Haw Hmaxw. constructor; try con_solve.
  - intros u Hu. destruct (decide (u = v)) as [->|]; [by rewrite lookup_insert_eq|].
    destruct (decide (u = w)) as [->|]; [by rewrite lookup_insert_ne, lookup_insert_eq by done|].
    rewrite !lookup_insert_ne, lookup_delete_ne by done. apply Hd. set_solver.
  - con_agree Hr.
Qed.

Lemma con_stay mem rec stake n X v a x : consistent mem rec stake n X -> threshold <= a ->
  mem !! v = Some x ->
  (x = Consensus -> forall u, mem !! u = Some BelowCapacity -> stake u <= a) ->
  (x = BelowCapacity -> forall u, mem !! u = Some Consensus -> a <= stake u) ->
  consistent (<[v := x]> (delete v mem)) (<[v := x]> rec) (<[v := a]> stake) n ({[v]} ∪ X).
Proof.
  intros [Hd Hr Hi Hl Hcp Hf Ho] Ha Hv HC HB. assert (in_set x) as Hx by (by eapply (Hi v)).
  rewrite insert_delete_eq, (insert_id mem) by done.
  assert (<[v := x]> rec = rec) as -> by (apply insert_id; by apply Hr). constructor; try con_solve.
  - intros u [->%elem_of_singleton|]%elem_of_union; eauto.
  - exact Hr.
  - intros u y Hu. destruct (decide (u = v)) as [->|].
    + stake_simpl. eapply Hi in Hu as [? _]. done.
    + stake_simpl. eauto.
  - intros u Hu. destruct (decide (u = v)) as [->|]; [|stake_simpl; eauto].
    apply Hr in Hv; [|done]. destruct Hx; congruence.
  - intros u w Hu Hw. destruct (decide (u = v)) as [->|], (decide (w = v)) as [->|]; stake_simpl.
    + congruence.
    + apply HC; congruence.
    + apply HB; congruence.
    + eauto.
Qed.

(** A validator enters the consensus set; [w] makes room for it. *)
Lemma con_swap_up mem rec stake n X v w a : consistent mem rec stake n X -> threshold <= a ->
  mem !! v <> Some Consensus -> mem !! w = Some Consensus -> stake w < a ->
  (forall u, mem !! u = Some Consensus -> stake w <= stake u) -> n = max_validator_slots params ->
  consistent (<[v := Consensus]> (<[w := BelowCapacity]> (delete v mem)))
    (<[v := Consensus]> (<[w := BelowCapacity]> rec)) (<[v := a]> stake) n ({[v]} ∪ X).
Proof.
  intros [Hd Hr Hi Hl Hcp Hf Ho] Ha Hv Hw Haw Hminw Hn. assert (v <> w) by congruence.
  constructor; try con_solve.
  - intros u Hu. destruct (decide (u = v)) as [->|]; [by rewrite lookup_insert_eq|].
    destruct (decide (u = w)) as [->|]; [by rewrite lookup_insert_ne, lookup_insert_eq by done|].
    rewrite !lookup_insert_ne, lookup_delete_ne by done. apply Hd. set_solver.
  - con_agree Hr.
Qed.

(** A validator outside of the sets enters one. *)
Lemma con_enter mem rec stake n X v a x : consistent mem rec stake n X -> threshold <= a ->
  mem !! v = None -> in_set x ->
  (x = Consensus -> n < max_validator_slots params) ->
  (x = BelowCapacity -> n = max_validator_slots params /\ forall u, mem !! u = Some Consensus -> a <= stake u) ->
  consistent (<[v := x]> mem) (<[v := x]> rec) (<[v := a]> stake) (n + slots x) ({[v]} ∪ X).
Proof.
  intros [Hd Hr Hi Hl Hcp Hf Ho] Ha Hv Hx HC HB.
  destruct Hx as [-> | ->]; [specialize (HC eq_refl); clear HB|destruct (HB eq_refl) as [Hn HB']; clear HB HC];
    cbn [slots]; constructor; try con_solve.
  - intros u Hu. destruct (decide (u = v)) as [->|]; [by rewrite lookup_insert_eq|].
    rewrite lookup_insert_ne by done. apply Hd. set_solver.
  - con_agree Hr.
  - intros u Hu. destruct (decide (u = v)) as [->|]; [by rewrite lookup_insert_eq|].
    rewrite lookup_insert_ne by done. apply Hd. set_solver.
  - con_agree Hr.
Qed.

Lemma con_ext mem rec stake stake' n X : (forall u, stake' u = stake u) ->
  consistent mem rec stake n X -> consistent mem rec stake' n X.
Proof.
  intros He [Hd Hr Hi Hl Hcp Hf Ho]. constructor; try done; intros; rewrite ?He; eauto.
Qed.

(** The stake of a validator that stays outside of the sets *)
Lemma con_outside mem rec stake n X v a : consistent mem rec stake n X -> mem !! v = None ->
  (rec !! v = Some BelowThreshold -> a < threshold) -> consistent mem rec (<[v := a]> stake) n X.
Proof.
  intros [Hd Hr Hi Hl Hcp Hf Ho] Hv Ha. constructor; try done.
  - intros u x Hu. rewrite fn_lookup_insert_ne by congruence. eauto.
  - intros u Hu. destruct (decide (u = v)) as [->|]; [rewrite fn_lookup_insert; auto|].
    rewrite fn_lookup_insert_ne by done. eauto.
  - intros u w Hu Hw. rewrite !fn_lookup_insert_ne by congruence. eauto.
Qed.

Lemma below_not_in : ~ in_set BelowThreshold.
Proof. by intros [|]. Qed.

(** Only [v] and members of the sets change their recorded state. *)
Definition others_kept (v : Address) rec rec' : Prop :=
  dom rec ⊆ dom rec' /\
  forall u, u <> v -> rec !! u <> Some Consensus -> rec !! u <> Some BelowCapacity -> rec' !! u = rec !! u.

Lemma kept_refl v rec x : others_kept v rec (<[v := x]> rec).
Proof.
  split; [rewrite dom_insert_L; apply union_subseteq_r|]. intros u Hu _ _. by rewrite lookup_insert_ne.
Qed.

Lemma kept_same v rec : others_kept v rec rec.
Proof. done. Qed.

Lemma kept_member mem rec stake n X v w x y : consistent mem rec stake n X -> mem !! w = Some x ->
  others_kept v rec (<[v := y]> rec) -> forall z, others_kept v rec (<[w := z]> (<[v := y]> rec)) /\
    others_kept v rec (<[v := y]> (<[w := z]> rec)).
Proof.
  intros Hcon Hw _ z. assert (rec !! w = Some Consensus \/ rec !! w = Some BelowCapacity) as Hin.
  { pose proof (con_in _ _ _ _ _ Hcon w x Hw) as [[-> | ->] _]; [left|right];
      apply (con_rec _ _ _ _ _ Hcon); try done; by (left + right). }
  split; (split; [set_solver|]); intros u Hu H1 H2; (assert (u <> w) by (intros ->; naive_solver));
    by rewrite !lookup_insert_ne.
Qed.

End rules.

(** ** One epoch of the storage

    The sets are updated at the current epoch [c] for the epoch [c + off]. *)
Section epoch_steps.
Context {U : UintOps} {HU : UintLaws U} {E : Type} (params : PosParams) (c off : Z).
Context (Hparams : params_ok params) (Hc : 0 <= c) (Hoff : 0 <= off <= pipeline_len params).
Context (Hmax : c + pipeline_len params <= U64_MAX).
Implicit Types (mem rec : gmap Address ValidatorState) (stake : Address -> Z) (s : ValidatorSets).
Notation ep := (c + off).
Notation threshold := (validator_stake_threshold params).
Notation consistent := (consistent params).

(** The recorded states of the validators at the epoch *)
Definition states_inv rec s : Prop :=
  forall v, live_at (pipeline_len params) DEFAULT_NUM_PAST_EPOCHS ep (c + pipeline_len params) (state_handle s v) /\
    forall x, rec !! v = Some x <-> in_effect (data (state_handle s v)) ep x.

Record mid mem rec stake (N n : Z) (X : gset Address) (D : gmap Address (epoched Z)) s : Prop := {
  mid_core : core mem stake (consensus_at s ep) (below_capacity_at s ep) (positions_at s ep);
  mid_pos : forall v p, positions_at s ep !! v = Some p -> 0 <= p <= N;
  mid_size : Z.of_nat (size (consensus_at s ep)) = n;
  mid_dom : dom (positions_at s ep) = X;
  mid_mem : forall v x, mem !! v = Some x -> v ∈ X;
  mid_states : states_inv rec s;
  mid_deltas : validator_deltas s = D
}.

Lemma states_inv_write rec h e m s : states_inv rec s -> states_inv rec (write_set h e m s).
Proof. intros Hst v. rewrite states_write_set. apply Hst. Qed.

Lemma mem_remove mem v (X : gset Address) : (forall w x, mem !! w = Some x -> w ∈ X) ->
  forall w x, delete v mem !! w = Some x -> w ∈ X.
Proof.
  intros Hm w x. destruct (decide (w = v)) as [->|]; [by rewrite lookup_delete_eq|].
  rewrite lookup_delete_ne by done. eauto.
Qed.

Lemma mid_remove x mem rec stake N n X D s v p : in_set x -> mid mem rec stake N n X D s ->
  mem !! v = Some x -> positions_at s ep !! v = Some p ->
  st_wp (handle_remove (E:=E) (set_handle x (stake v)) ep p)
    (fun r s' => r = Some v /\ mid (delete v mem) rec stake N (n - slots x) X D s') s.
Proof.
  intros Hx [[HC HB] Hpos Hn Hdom Hmem Hst HD] Hv Hp.
  assert (forall y, y <> x -> listed y mem stake (positions_at s ep)
    (handle_set (set_handle y 0) s ep) -> listed y (delete v mem) stake (positions_at s ep)
    (handle_set (set_handle y 0) s ep)) as Hother.
  { intros y Hy Hl. eapply (listed_change y mem _ stake stake _ _ _ v Hl); [congruence| |].
    - by rewrite lookup_delete_eq.
    - intros w Hw. by rewrite lookup_delete_ne. }
  destruct Hx as [-> | ->].
  - assert (consensus_at s ep !! (stake v, p) = Some v) as Hin by (by apply HC).
    eexists _, _. split; [unfold handle_remove; by rewrite (Hin : handle_get (set_handle Consensus _) s ep p = _)|].
    split; [done|].
    constructor; autorewrite with views; try done; try (by apply states_inv_write).
    + split; [by apply (listed_remove Consensus)|by apply (Hother BelowCapacity)].
    + cbn [set_handle handle_key handle_set slots]. rewrite map_size_delete, Hin.
      assert (size (consensus_at s ep) <> 0%nat) by (apply map_size_ne_0_lookup; eauto). lia.
    + by apply mem_remove.
  - assert (below_capacity_at s ep !! (MAX_SIGNED_VALUE - stake v, p) = Some v) as Hin by (by apply HB).
    eexists _, _. split; [unfold handle_remove; by rewrite (Hin : handle_get (set_handle BelowCapacity _) s ep p = _)|].
    split; [done|].
    constructor; autorewrite with views; try done; try (by apply states_inv_write).
    + split; [by apply (Hother Consensus)|by apply (listed_remove BelowCapacity)].
    + cbn. lia.
    + by apply mem_remove.
Qed.

Lemma mid_stake mem rec stake N n X D s v a : mid mem rec stake N n X D s -> mem !! v = None ->
  mid mem rec (<[v := a]> stake) N n X D s.
Proof.
  intros [[HC HB] Hpos Hn Hdom Hmem Hst HD] Hv. constructor; try done.
  split; (eapply (listed_change _ mem _ stake); [eassumption|by rewrite Hv|by rewrite Hv|]);
    intros w Hw; by rewrite fn_lookup_insert_ne.
Qed.

Lemma mid_insert x mem rec stake N n X D s v : in_set x -> mid mem rec stake N n X D s ->
  mem !! v = None -> 0 <= N < U64_MAX ->
  st_wp (insert_validator_into_set (E:=E) (set_handle x (stake v)) ep v)
    (fun _ => mid (<[v := x]> mem) rec stake (N + 1) (n + slots x) ({[v]} ∪ X) D) s.
Proof.
  intros Hx [[HC HB] Hpos Hn Hdom Hmem Hst HD] Hv HN.
  assert (forall y m, in_set y -> listed y mem stake (positions_at s ep) m ->
    let q := from_option (fun e : Z * Address => position_next e.1) 0 (last (level m (stake_key y (stake v)))) in
    m !! (stake_key y (stake v), q) = None /\ 0 <= q <= N + 1) as Hq.
  { intros y m _ Hl. assert (forall k p w, m !! (k, p) = Some w -> 0 <= p <= N) as Hb.
    { intros k p w (Hp & _)%Hl. eauto. }
    split; [apply next_position_free; intros k p w ?%Hb; lia|].
    pose proof (level_last m (stake_key y (stake v))) as Hlast.
    destruct (last (level m (stake_key y (stake v)))) as [e|]; simpl; [|lia].
    destruct Hlast as [He%Hb _]. unfold position_next. rewrite Z.mod_small; unfold U64_MAX in *; lia. }
  set (q := find_next_position (set_handle x (stake v)) s ep).
  assert (handle_set (set_handle x (stake v)) s ep !! (stake_key x (stake v), q) = None /\ 0 <= q <= N + 1)
    as [Hfree Hq1] by (destruct Hx as [-> | ->]; by apply Hq; [by (left + right)|]).
  assert (forall y m, y <> x -> listed y mem stake (positions_at s ep) m ->
    listed y (<[v := x]> mem) stake (<[v := q]> (positions_at s ep)) m) as Hother.
  { intros y m Hy Hl. eapply (listed_change y mem _ stake stake _ _ _ v Hl); [by rewrite Hv| |].
    - rewrite lookup_insert_eq. congruence.
    - intros w Hw. by rewrite !lookup_insert_ne. }
  eexists _, tt. split; [done|]. fold q. autorewrite with views. constructor; autorewrite with views.
  - destruct Hx as [-> | ->].
    + split; [by apply (listed_insert Consensus); [| rewrite Hv|]|by apply Hother].
    + split; [by apply Hother|by apply (listed_insert BelowCapacity); [| rewrite Hv|]].
  - intros w p [[<- <-]|[_ Hw]]%lookup_insert_Some; [done|]. apply Hpos in Hw. lia.
  - destruct Hx as [-> | ->]; cbn [set_handle handle_key handle_set slots]; [|lia].
    rewrite map_size_insert, (Hfree : consensus_at s ep !! (stake v, find_next_position (ConsensusAt (stake v)) s ep) = None). lia.
  - by rewrite dom_insert_L, Hdom.
  - intros w y. destruct (decide (w = v)) as [->|]; [set_solver|].
    rewrite lookup_insert_ne by done. intros ?%Hmem. set_solver.
  - intros w. apply (states_inv_write _ _ _ _ _ Hst w).
  - by rewrite <- HD; destruct Hx as [-> | ->].
Qed.

(** The state is set from the current epoch, or from the epoch itself. *)
Lemma mid_set_state_from mem rec stake N n X D s v x c' off' : mid mem rec stake N n X D s ->
  c <= c' -> 0 <= off' -> c' + off' = ep ->
  st_wp (set_validator_state (E:=E) params v x c' off')
    (fun _ s' => mid mem (<[v := x]> rec) stake N n X D s' /\ last_update (state_handle s' v) = Some c') s.
Proof.
  intros [Hcore Hpos Hn Hdom Hmem Hst HD] Hc' Hoff' Heq. destruct (Hst v) as (Hlive & Hrec).
  destruct (set_live (E:=E) OffsetPipelineLen OffsetDefaultNumPastEpochs params (pipeline_len params)
    DEFAULT_NUM_PAST_EPOCHS (fun _ => eq_refl) ltac:(done) (fun _ => eq_refl) ltac:(lia)
    ep (c + pipeline_len params) (state_handle s v) c' off' x) as (h' & Hrun & Hlive' & Heff & Hlast);
    [done|lia..|].
  unfold set_validator_state. st_get. rewrite Hrun. st_mod. apply (st_wp_lift _ tt); [done|].
  split; [|unfold state_handle; cbn; by rewrite lookup_insert_eq].
  constructor; try done. intros w. unfold state_handle. cbn. destruct (decide (w = v)) as [->|Hne].
  - rewrite !lookup_insert_eq. cbn. split; [done|]. intros y. rewrite Heff. split; congruence.
  - rewrite !lookup_insert_ne by done. apply Hst.
Qed.

Lemma mid_set_state mem rec stake N n X D s v x : mid mem rec stake N n X D s ->
  st_wp (set_validator_state (E:=E) params v x c off)
    (fun _ => mid mem (<[v := x]> rec) stake N n X D) s.
Proof. intros Hmid. st_tail mid_set_state_from; [done|lia..|]. by intros _ s' [? _]. Qed.

Lemma mid_remove_position mem rec stake N n X D s v : mid mem rec stake N n X D s -> mem !! v = None ->
  st_wp (remove_position (E:=E) v ep) (fun _ => mid mem rec stake N n (X ∖ {[v]}) D) s.
Proof.
  intros [[HC HB] Hpos Hn Hdom Hmem Hst HD] Hv. apply st_wp_mod.
  constructor; autorewrite with views; try done.
  - split; (eapply (listed_change _ mem _ stake); [eassumption|by rewrite Hv|by rewrite Hv|]);
      intros w Hw; by rewrite lookup_delete_ne.
  - intros w p [_ Hw]%lookup_delete_Some. eauto.
  - by rewrite dom_delete_L, Hdom.
  - intros w x Hw. assert (w <> v) by congruence. apply Hmem in Hw. set_solver.
Qed.

Lemma mid_weaken mem rec stake N N' n X D s : mid mem rec stake N n X D s -> N <= N' ->
  mid mem rec stake N' n X D s.
Proof.
  intros [Hcore Hpos Hn Hdom Hmem Hst HD] HN. constructor; try done. intros v p Hp%Hpos. lia.
Qed.

Lemma below_handle_ok a : 0 <= a <= MAX_SIGNED_VALUE ->
  below_capacity_handle (E:=E) a = Ok (set_handle BelowCapacity a).
Proof.
  intros Ha. unfold below_capacity_handle, invert, amount_sub. rewrite uint_sub_ok; [done|..];
    unfold in_u256; rewrite ?MAX_VALUE_eq; rewrite MAX_SIGNED_VALUE_eq in *; lia.
Qed.

Definition stakes_fit stake : Prop := forall v, 0 <= stake v <= MAX_SIGNED_VALUE.

(** A listed validator is found in its set. *)
Lemma mid_listed mem rec stake N n X D s v x : mid mem rec stake N n X D s -> in_set x ->
  mem !! v = Some x -> exists p, positions_at s ep !! v = Some p /\
    handle_set (set_handle x (stake v)) s ep !! (stake_key x (stake v), p) = Some v.
Proof.
  intros [[HC HB] _ _ Hdom Hmem _ _] Hx Hv. pose proof (Hmem _ _ Hv) as Hin. rewrite <- Hdom in Hin.
  apply elem_of_dom in Hin as [p Hp]. exists p. split; [done|].
  destruct Hx as [-> | ->]; [by apply HC|by apply HB].
Qed.

(** The validator that is demoted: the last one of the least consensus stake *)
Lemma mid_min mem rec stake N n X D s : mid mem rec stake N n X D s -> 0 < n ->
  exists w p, mem !! w = Some Consensus /\ stake w = get_min_consensus_validator_amount s ep /\
    (forall u, mem !! u = Some Consensus -> stake w <= stake u) /\
    positions_at s ep !! w = Some p /\ find_last_position (ConsensusAt (stake w)) s ep = Some p.
Proof.
  intros Hmid Hn. pose proof Hmid as [[HC _] _ Hsz _ _ _ _].
  unfold get_min_consensus_validator_amount. pose proof (set_list_head (consensus_at s ep)) as Hh.
  destruct (head (set_list (consensus_at s ep))) as [[[k p0] w0]|]; cbn in *.
  2:{ rewrite Hh, map_size_empty in Hsz. lia. }
  destruct Hh as [Hw0 Hmin]. pose proof (level_last (consensus_at s ep) k) as Hl.
  destruct (last (level (consensus_at s ep) k)) as [[p w]|] eqn:Hlast; [|congruence].
  destruct Hl as [Hw _]. cbn in Hw. apply HC in Hw as (Hp & Hwm & Hk). cbn in Hk.
  exists w, p. split_and!; [done|done| |done|].
  - intros u Hu. destruct (mid_listed _ _ _ _ _ _ _ _ u Consensus Hmid) as (q & _ & Hq); [by left|done|].
    rewrite Hk. eapply Hmin. exact Hq.
  - unfold find_last_position. cbn. by rewrite Hk, Hlast.
Qed.

(** The validator that is promoted: the first one of the largest
    below-capacity stake *)
Lemma mid_max mem rec stake N n X D s : mid mem rec stake N n X D s -> stakes_fit stake ->
  (get_max_below_capacity_validator_amount (E:=E) s ep = Ok None /\
   forall u, mem !! u <> Some BelowCapacity) \/
  exists w p, get_max_below_capacity_validator_amount (E:=E) s ep = Ok (Some (stake w)) /\
    mem !! w = Some BelowCapacity /\ (forall u, mem !! u = Some BelowCapacity -> stake u <= stake w) /\
    positions_at s ep !! w = Some p /\
    find_first_position (set_handle BelowCapacity (stake w)) s ep = Some p.
Proof.
  intros Hmid Hfit. pose proof Hmid as [[_ HB] _ _ _ _ _ _].
  unfold get_max_below_capacity_validator_amount.
  pose proof (set_list_head (below_capacity_at s ep)) as Hh.
  destruct (head (set_list (below_capacity_at s ep))) as [[[k p0] w0]|]; cbn [fst snd] in *.
  2:{ left. split; [done|]. intros u Hu.
      destruct (mid_listed _ _ _ _ _ _ _ _ u BelowCapacity Hmid) as (q & _ & Hq); [by right|done|].
      cbn in Hq. by rewrite Hh, lookup_empty in Hq. }
  right. destruct Hh as [Hw0 Hmin]. pose proof (level_head (below_capacity_at s ep) k) as Hl.
  destruct (head (level (below_capacity_at s ep) k)) as [[p w]|] eqn:Hhead; [|congruence].
  cbn in Hl. apply HB in Hl as (Hp & Hwm & Hk). cbn [stake_key] in Hk. pose proof (Hfit w).
  exists w, p. split_and!; [|done| |done|].
  - unfold invert, amount_sub. rewrite uint_sub_ok.
    + cbn [out_bind]. do 2 f_equal. lia.
    + unfold in_u256. rewrite MAX_VALUE_eq. rewrite MAX_SIGNED_VALUE_eq. lia.
    + unfold in_u256. rewrite MAX_VALUE_eq. rewrite MAX_SIGNED_VALUE_eq in *. lia.
    + lia.
  - intros u Hu. destruct (mid_listed _ _ _ _ _ _ _ _ u BelowCapacity Hmid) as (q & _ & Hq); [by right|done|].
    apply Hmin in Hq. cbn [stake_key] in Hq. lia.
  - unfold find_first_position. rewrite <- Hk in Hhead. unfold handle_set, handle_key, set_handle, stake_key. by rewrite Hhead.
Qed.

Lemma mid_promote mem rec stake N n X D s w p c' off' : mid mem rec stake N n X D s -> stakes_fit stake ->
  c <= c' -> 0 <= off' -> c' + off' = ep ->
  0 <= N < U64_MAX -> mem !! w = Some BelowCapacity -> positions_at s ep !! w = Some p ->
  find_first_position (set_handle BelowCapacity (stake w)) s ep = Some p ->
  st_wp (promote_max_below_capacity (E:=E) params (stake w) ep c' off')
    (fun _ s' => mid (<[w := Consensus]> mem) (<[w := Consensus]> rec) stake (N + 1) (n + 1) X D s' /\
       last_update (state_handle s' w) = Some c') s.
Proof.
  intros Hmid Hfit Hc' Hoff' Heq HN Hw Hp Hfirst. unfold promote_max_below_capacity.
  st_lift ltac:(by apply below_handle_ok). st_get. rewrite Hfirst. st_lift ltac:(done).
  st_call mid_remove; [by right|done..|]. intros r s1 [-> Hmid1]. st_lift ltac:(done).
  replace (ConsensusAt (stake w)) with (set_handle Consensus (stake w)) by done.
  st_call mid_insert; [by left|done|by rewrite lookup_delete_eq|done|]. intros _ s2 Hmid2.
  st_tail mid_set_state_from; [done..|]. intros _ s3 [Hmid3 Hlast]. split; [|done]. rewrite insert_delete_eq in Hmid3.
  assert (w ∈ X) by (by eapply (mid_mem _ _ _ _ _ _ _ _ Hmid)).
  replace (n - slots BelowCapacity + slots Consensus) with (n + 1) in Hmid3 by (cbn; lia).
  by replace ({[w]} ∪ X) with X in Hmid3 by set_solver.
Qed.

Lemma mid_demote mem rec stake N n X D s v w p : mid mem rec stake N n X D s -> stakes_fit stake ->
  0 <= N -> N + 1 < U64_MAX -> mem !! v = None -> mem !! w = Some Consensus -> positions_at s ep !! w = Some p ->
  find_last_position (ConsensusAt (stake w)) s ep = Some p ->
  st_wp (insert_into_consensus_and_demote_to_below_cap (E:=E) params v (stake v) (stake w) c off ep)
    (fun _ => mid (<[v := Consensus]> (<[w := BelowCapacity]> mem))
       (<[v := Consensus]> (<[w := BelowCapacity]> rec)) stake (N + 2) n ({[v]} ∪ X) D) s.
Proof.
  intros Hmid Hfit HN HN' Hv Hw Hp Hlast. unfold insert_into_consensus_and_demote_to_below_cap.
  st_get. rewrite Hlast. st_lift ltac:(done).
  replace (ConsensusAt (stake w)) with (set_handle Consensus (stake w)) by done.
  st_call mid_remove; [by left|done..|]. intros r s1 [-> Hmid1]. st_lift ltac:(done).
  st_lift ltac:(unfold epoch_add; apply u64_add_ok; lia).
  st_lift ltac:(by apply below_handle_ok).
  st_call mid_insert; [by right|done|by rewrite lookup_delete_eq|lia|]. intros _ s2 Hmid2.
  st_call mid_set_state; [done|]. intros _ s3 Hmid3. rewrite insert_delete_eq in Hmid3.
  replace (ConsensusAt (stake v)) with (set_handle Consensus (stake v)) by done.
  assert (v <> w) by congruence.
  st_call mid_insert; [by left|done|by rewrite lookup_insert_ne|lia|]. intros _ s4 Hmid4.
  st_tail mid_set_state; [done|]. intros _ s5 Hmid5.
  assert (w ∈ X) by (by eapply (mid_mem _ _ _ _ _ _ _ _ Hmid)).
  replace (n - slots Consensus + slots BelowCapacity + slots Consensus) with n in Hmid5 by (cbn; lia).
  replace ({[w]} ∪ X) with X in Hmid5 by set_solver. by replace (N + 1 + 1) with (N + 2) in Hmid5 by lia.
Qed.

(** ** Stakes from deltas *)
Definition deltas_inv stake (M : Z) (D : gmap Address (epoched Z)) : Prop :=
  M <= MAX_SIGNED_VALUE /\
  forall v, 0 <= stake v <= M /\ exists F,
    delta_inv (change_delta_laws (HU:=HU)) (pipeline_len params) (deltas_window params) F M
      (default empty_epoched (D !! v)) /\
    (forall lu, last_update (default empty_epoched (D !! v)) = Some lu -> lu <= c) /\ F ep = stake v.

Lemma deltas_window_pos : 0 < deltas_window params.
Proof. destruct Hparams as [_ _ _ (? & ? & ? & ? & ?)]. unfold deltas_window. lia. Qed.

Lemma read_stake_ok stake M s v : deltas_inv stake M (validator_deltas s) ->
  read_validator_stake (E:=E) params s v ep = Ok (stake v).
Proof.
  intros [HM Hd]. destruct (Hd v) as (Hs & F & HF & Hlu & Hep). unfold read_validator_stake, deltas_handle.
  set (h := default empty_epoched (validator_deltas s !! v)) in *. pose proof deltas_window_pos.
  destruct (last_update h) as [lu|] eqn:Hl.
  - specialize (Hlu _ eq_refl). pose proof HF as (_ & _ & Hinv). rewrite Hl in Hinv.
    destruct Hinv as (Hlu0 & _).
    destruct (get_sum_inv (E:=E) (change_delta_laws (HU:=HU)) OffsetPipelineLen deltas_past params (pipeline_len params)
      (deltas_window params) (deltas_past_value params Hparams) ltac:(lia) (fun _ => eq_refl) ltac:(lia)
      F M h lu ep HM HF Hl) as (r & -> & Hr & Hwf); [lia|unfold window_start; lia|].
    cbn [out_bind]. f_equal. rewrite <- Hep, <- Hr in *. destruct r as [x|]; [|done].
    cbn. unfold from_change. rewrite abs_spec; [cbn in *; lia|by apply Hwf].
  - unfold get_sum. rewrite Hl. cbn. destruct HF as (_ & _ & Hz). rewrite Hl in Hz.
    destruct Hz as (_ & _ & Hz). rewrite <- Hep, Hz. done.
Qed.

Lemma entry_bound {F B} {h : epoched Z} e :
  delta_inv (change_delta_laws (HU:=HU)) (pipeline_len params) (deltas_window params) F B h ->
  i256_wf (default 0 (data h !! e)) /\ Z.abs (sval (default 0 (data h !! e))) <= B.
Proof.
  intros (Hwf & Hmag & _). pose proof (magnitude_delete (change_delta_laws (HU:=HU)) (data h) e) as Hd.
  pose proof (magnitude_nonneg (change_delta_laws (HU:=HU)) (delete e (data h))).
  pose proof (magnitude_nonneg (change_delta_laws (HU:=HU)) (data h)).
  destruct (data h !! e) as [x|] eqn:Hx; cbn in *.
  - split; [by eapply (Hwf e)|lia].
  - split; [apply (dzero_law (DeltaLaws:=change_delta_laws (HU:=HU)))|]. change (sval 0) with 0. lia.
Qed.

Lemma update_deltas_ok mem rec stake stake' N n X D M s v delta :
  mid mem rec stake' N n X D s -> deltas_inv stake M D -> i256_wf delta ->
  M + Z.abs (sval delta) <= MAX_SIGNED_VALUE -> 0 <= stake v + sval delta ->
  st_wp (update_validator_deltas (E:=E) params v delta c (Some off))
    (fun _ s' => exists D', mid mem rec stake' N n X D' s' /\
       deltas_inv (<[v := stake v + sval delta]> stake) (M + Z.abs (sval delta)) D' /\
       forall u, u <> v -> D' !! u = D !! u) s.
Proof.
  intros [Hcore Hpos Hn Hdom Hmem Hst HD] [HM Hd] Hwf Hmag Hnn.
  destruct (Hd v) as (Hs & F & HF & Hlu & Hep). unfold update_validator_deltas.
  change (default (pipeline_len params) (Some off)) with off. cbv zeta.
  st_lift ltac:(unfold epoch_add; apply u64_add_ok; lia). st_get.
  unfold deltas_handle at 1. rewrite HD. set (h := default empty_epoched (D !! v)) in *.
  destruct (entry_bound (c + off) HF) as [Hew Heb]. unfold get_delta_val.
  st_lift ltac:(by apply i256_checked_add_eq). pose proof deltas_window_pos.
  assert (in_i256 (sval (default 0 (data h !! ep)) + sval delta)) as Hin by (unfold in_i256; lia).
  destruct (in_i256b_spec (sval (default 0 (data h !! ep)) + sval delta)); [|done].
  st_lift ltac:(done).
  destruct (delta_set_inv (E:=E) (change_delta_laws (HU:=HU)) OffsetPipelineLen deltas_past params
    (pipeline_len params) (deltas_window params) (deltas_past_value params Hparams) ltac:(lia)
    (fun _ => eq_refl) ltac:(lia) F M h c off delta
    (srep (sval (default 0 (data h !! ep)) + sval delta))) as (h' & Hrun & HF' & Hlu');
    try done; try lia; [by apply i256_add_ok|].
  unfold deltas_handle. rewrite HD. fold h. rewrite Hrun. st_mod. apply (st_wp_lift _ tt); [done|].
  exists (<[v := h']> D). split; [constructor; try done; cbn; by rewrite HD|].
  split; [split; [done|]|intros u Hu; by rewrite lookup_insert_ne]. intros w. destruct (decide (w = v)) as [->|Hne].
  - rewrite fn_lookup_insert, lookup_insert_eq. cbn. split; [lia|]. eexists. split_and!; [exact HF'| |].
    + intros lu. rewrite Hlu'. intros [= ->]. lia.
    + cbn. rewrite Hep, (proj2 (Z.leb_le ep ep)) by lia. done.
  - rewrite fn_lookup_insert_ne, lookup_insert_ne by done. destruct (Hd w) as (Hs' & F2 & HF2 & Hlu2 & Hep2).
    split; [lia|]. exists F2. split_and!; [|done|done]. destruct HF2 as (? & ? & ?). split_and!; try done. lia.
Qed.

Definition settled (v : Address) rec stake (N : Z) (D : gmap Address (epoched Z)) s' : Prop :=
  exists mem' rec' n' X', mid mem' rec' stake N n' X' D s' /\ consistent mem' rec' stake n' X' /\
    others_kept v rec rec'.

Lemma stakes_fit_set stake v a : stakes_fit stake -> 0 <= a <= MAX_SIGNED_VALUE -> stakes_fit (<[v := a]> stake).
Proof.
  intros Hs Ha u. destruct (decide (u = v)) as [->|]; [by rewrite fn_lookup_insert|].
  by rewrite fn_lookup_insert_ne.
Qed.

(** The validator has been taken out of the consensus set at [s1]. *)
Section consensus_validator.
Context mem rec stake (N n : Z) (X : gset Address) (D : gmap Address (epoched Z)) s1 (v : Address) (a : Z).
Context (Hmid1 : mid (delete v mem) rec (<[v := a]> stake) N (n - 1) X D s1).
Context (Hcon : consistent mem rec stake n X) (Hfit : stakes_fit stake).
Context (HN : 0 <= N) (HN' : N + 2 <= U64_MAX) (Ha : 0 <= a <= MAX_SIGNED_VALUE).
Context (Hv : mem !! v = Some Consensus).

Lemma outside_v : delete v mem !! v = None.
Proof. by rewrite lookup_delete_eq. Qed.

Lemma stake_other u : u <> v -> (<[v := a]> stake) u = stake u.
Proof. intros. by rewrite fn_lookup_insert_ne. Qed.

Lemma consensus_stays : threshold <= a -> (forall u, mem !! u = Some BelowCapacity -> stake u <= a) ->
  st_wp (insert_validator_into_set (E:=E) (ConsensusAt a) ep v)
    (fun _ => settled v rec (<[v := a]> stake) (N + 2) D) s1.
Proof.
  intros Hhigh Hall.
  replace (ConsensusAt a) with (set_handle Consensus ((<[v := a]> stake) v)) by (by rewrite fn_lookup_insert).
  st_tail mid_insert; [by left|done|apply outside_v|lia|]. intros _ s2 Hmid2.
  replace (n - 1 + slots Consensus) with n in Hmid2 by (cbn; lia).
  pose proof (con_stay _ _ _ _ _ _ v a Consensus Hcon Hhigh Hv (fun _ => Hall) ltac:(done)) as Hc'.
  assert (<[v := Consensus]> rec = rec) as Hrec.
  { apply insert_id, (con_rec _ _ _ _ _ _ Hcon); [by left|done]. }
  rewrite Hrec in Hc'. eexists _, rec, _, _. split_and!; [|exact Hc'|done].
  eapply mid_weaken; [exact Hmid2|lia].
Qed.

Lemma consensus_leaves : a < threshold ->
  st_wp (st_bind (set_validator_state (E:=E) params v BelowThreshold c off) (fun _ =>
         st_bind (remove_position v ep) (fun _ =>
         st_bind (st_get (fun s => s)) (fun s =>
         st_bind (st_lift (get_max_below_capacity_validator_amount s ep)) (fun max_opt =>
           match max_opt with
           | Some max_bc_amount => promote_max_below_capacity params max_bc_amount ep c off
           | None => st_ret tt
           end)))))
    (fun _ => settled v rec (<[v := a]> stake) (N + 2) D) s1.
Proof.
  intros Hlow. pose proof (stakes_fit_set stake v a Hfit Ha) as Hfit'. pose proof outside_v as Hout.
  st_call mid_set_state; [done|]. intros _ s2 Hmid2.
  st_call mid_remove_position; [done|done|]. intros _ s3 Hmid3. st_get.
  destruct (mid_max _ _ _ _ _ _ _ _ Hmid3 Hfit') as [[Hn3 Hno]|(w & q & Hsome & Hw & Hmaxw & Hq & Hfirst)].
  - st_lift ltac:(exact Hn3). apply st_wp_ret.
    assert (forall u, mem !! u <> Some BelowCapacity) as Hno'.
    { intros u Hu. apply (Hno u). rewrite lookup_delete_ne; congruence. }
    pose proof (con_leave _ _ _ _ _ _ v a BelowThreshold Hcon below_not_in (fun _ => Hlow) (or_intror Hno')) as Hc'. rewrite Hv in Hc'.
    eexists _, _, _, _. split_and!; [eapply mid_weaken; [exact Hmid3|lia]|exact Hc'|apply kept_refl].
  - st_lift ltac:(exact Hsome). apply lookup_delete_Some in Hw as [Hne Hw].
    st_tail mid_promote; [done|done|lia..|by rewrite lookup_delete_ne|done|done|]. intros _ s4 [Hmid4 _].
    replace (n - 1 + 1) with n in Hmid4 by lia.
    eexists _, _, _, _. split_and!; [eapply mid_weaken; [exact Hmid4|lia]| |].
    + apply con_leave_promote; try done; [apply below_not_in|]. intros u Hu. rewrite <- (stake_other u), <- (stake_other w) by congruence.
      apply Hmaxw. rewrite lookup_delete_ne; congruence.
    + eapply kept_member; [exact Hcon|exact Hw|apply kept_refl].
Qed.

Lemma consensus_demoted w q : threshold <= a -> a < stake w -> mem !! w = Some BelowCapacity ->
  (forall u, mem !! u = Some BelowCapacity -> stake u <= stake w) -> positions_at s1 ep !! w = Some q ->
  find_first_position (set_handle BelowCapacity (stake w)) s1 ep = Some q ->
  st_wp (st_bind (promote_max_below_capacity (E:=E) params (stake w) ep c off) (fun _ =>
         st_bind (st_lift (below_capacity_handle a)) (fun below =>
         st_bind (insert_validator_into_set below ep v) (fun _ =>
         set_validator_state params v BelowCapacity c off))))
    (fun _ => settled v rec (<[v := a]> stake) (N + 2) D) s1.
Proof.
  intros Hhigh Haw Hw Hmaxw Hq Hfirst. pose proof (stakes_fit_set stake v a Hfit Ha) as Hfit'.
  assert (w <> v) as Hne by congruence. rewrite <- (stake_other w Hne) in Hfirst.
  rewrite <- (stake_other w Hne) at 1.
  st_call mid_promote; [done|done|lia..|by rewrite lookup_delete_ne|done|done|]. intros _ s2 [Hmid2 _].
  st_lift ltac:(by apply below_handle_ok).
  replace (set_handle BelowCapacity a) with (set_handle BelowCapacity ((<[v := a]> stake) v))
    by (by rewrite fn_lookup_insert).
  st_call mid_insert; [by right|done|by rewrite lookup_insert_ne, lookup_delete_eq|lia|]. intros _ s3 Hmid3.
  st_tail mid_set_state; [done|]. intros _ s4 Hmid4.
  replace (n - 1 + 1 + slots BelowCapacity) with n in Hmid4 by (cbn; lia).
  replace (N + 1 + 1) with (N + 2) in Hmid4 by lia.
  eexists _, _, _, _. split_and!; [exact Hmid4|by apply con_swap_down|].
  eapply kept_member; [exact Hcon|exact Hw|apply kept_refl].
Qed.
End consensus_validator.

Lemma update_consensus_ok mem rec stake N n X D s v p a : mid mem rec stake N n X D s ->
  consistent mem rec stake n X -> stakes_fit stake -> 0 <= N -> N + 2 <= U64_MAX ->
  0 <= a <= MAX_SIGNED_VALUE -> mem !! v = Some Consensus -> positions_at s ep !! v = Some p ->
  st_wp (update_consensus_validator (E:=E) params v (stake v) a p c off ep)
    (fun _ => settled v rec (<[v := a]> stake) (N + 2) D) s.
Proof.
  intros Hmid Hcon Hfit HN HN' Ha Hv Hp. unfold update_consensus_validator.
  replace (ConsensusAt (stake v)) with (set_handle Consensus (stake v)) by done.
  st_call mid_remove; [by left|done..|]. intros r s1 [_ Hmid1].
  apply (mid_stake _ _ _ _ _ _ _ _ v a) in Hmid1; [|by rewrite lookup_delete_eq].
  st_get.
  destruct (mid_max _ _ _ _ _ _ _ _ Hmid1 (stakes_fit_set stake v a Hfit Ha))
    as [[Hnone Hno]|(w & q & Hsome & Hw & Hmaxw & Hq & Hfirst)].
  - st_lift ltac:(exact Hnone). change (default 0 None) with 0. cbv zeta.
    destruct (Z.ltb_spec a threshold) as [Hlow|Hhigh]; [by eapply consensus_leaves|].
    rewrite (proj2 (Z.ltb_ge a 0)) by lia. eapply consensus_stays; try done.
    intros u Hu. destruct (Hno u). rewrite lookup_delete_ne; congruence.
  - st_lift ltac:(exact Hsome). apply lookup_delete_Some in Hw as [Hne Hw].
    rewrite (stake_other stake v a w) in * by done.
    assert (forall u, mem !! u = Some BelowCapacity -> stake u <= stake w) as Hmaxw'.
    { intros u Hu. rewrite <- (stake_other stake v a u) by congruence. apply Hmaxw.
      rewrite lookup_delete_ne; congruence. }
    change (default 0 (Some (stake w))) with (stake w). cbv zeta.
    destruct (Z.ltb_spec a threshold) as [Hlow|Hhigh]; [by eapply consensus_leaves|].
    destruct (Z.ltb_spec a (stake w)) as [Haw|Haw]; [by eapply consensus_demoted|].
    eapply consensus_stays; try done. intros u Hu%Hmaxw'. lia.
Qed.

(** A validator outside of the sets at [s1] takes the place of the least
    consensus validator, or is inserted below capacity. *)
Section entering_validator.
Context mem rec stake (N n : Z) (X : gset Address) (D : gmap Address (epoched Z)) s1 (v : Address) (a : Z).
Context (Hmid1 : mid (delete v mem) rec (<[v := a]> stake) N n X D s1).
Context (Hcon : consistent mem rec stake n X) (Hfit : stakes_fit stake).
Context (HN : 0 <= N) (HN' : N + 2 <= U64_MAX) (Ha : 0 <= a <= MAX_SIGNED_VALUE).
Context (Hv : mem !! v <> Some Consensus) (Hn : n = max_validator_slots params).
Notation min_amount := (get_min_consensus_validator_amount s1 ep).

Lemma min_consensus : exists w q, mem !! w = Some Consensus /\ stake w = min_amount /\ w <> v /\
  (forall u, mem !! u = Some Consensus -> stake w <= stake u) /\ positions_at s1 ep !! w = Some q /\
  find_last_position (ConsensusAt (stake w)) s1 ep = Some q.
Proof.
  pose proof (ok_slots _ Hparams).
  destruct (mid_min _ _ _ _ _ _ _ _ Hmid1) as (w & q & Hw & Hk & Hminw & Hq & Hlast); [lia|].
  apply lookup_delete_Some in Hw as [Hne Hw]. rewrite (stake_other stake v a w) in * by done.
  exists w, q. split_and!; try done. intros u Hu.
  rewrite <- (stake_other stake v a u) by congruence. apply Hminw. rewrite lookup_delete_ne; congruence.
Qed.

Lemma enter_consensus : threshold <= a -> min_amount < a ->
  st_wp (insert_into_consensus_and_demote_to_below_cap (E:=E) params v a min_amount c off ep)
    (fun _ => settled v rec (<[v := a]> stake) (N + 2) D) s1.
Proof.
  intros Hhigh Haw. destruct min_consensus as (w & q & Hw & Hk & Hne & Hminw & Hq & Hlast).
  rewrite <- Hk in *. rewrite <- (stake_other stake v a w Hne) in Hlast |- * at 1.
  replace a with ((<[v := a]> stake) v) at 1 by (by rewrite fn_lookup_insert).
  st_tail mid_demote; [done|by apply stakes_fit_set|done|lia|by rewrite lookup_delete_eq
    |by rewrite lookup_delete_ne|done|done|].
  intros _ s2 Hmid2. eexists _, _, _, _. split_and!; [exact Hmid2|by apply con_swap_up|].
  eapply kept_member; [exact Hcon|exact Hw|apply kept_refl].
Qed.

Lemma enter_below_capacity : threshold <= a -> a <= min_amount ->
  (forall x, mem !! v = Some x -> x = BelowCapacity) ->
  st_wp (st_bind (st_lift (below_capacity_handle (E:=E) a)) (fun below =>
         st_bind (insert_validator_into_set below ep v) (fun _ =>
         set_validator_state params v BelowCapacity c off)))
    (fun _ => settled v rec (<[v := a]> stake) (N + 2) D) s1.
Proof.
  intros Hhigh Haw Hx. destruct min_consensus as (w & q & Hw & Hk & Hne & Hminw & Hq & Hlast).
  st_lift ltac:(by apply below_handle_ok).
  replace (set_handle BelowCapacity a) with (set_handle BelowCapacity ((<[v := a]> stake) v))
    by (by rewrite fn_lookup_insert).
  st_call mid_insert; [by right|done|by rewrite lookup_delete_eq|lia|]. intros _ s2 Hmid2.
  st_tail mid_set_state; [done|]. intros _ s3 Hmid3.
  assert (forall u, mem !! u = Some Consensus -> a <= stake u) as Hall by (intros u Hu%Hminw; lia).
  eexists _, _, _, _. split_and!; [eapply mid_weaken; [exact Hmid3|lia]| |apply kept_refl].
  destruct (mem !! v) as [x|] eqn:Hmv.
  - rewrite (Hx x eq_refl) in Hmv. cbn [slots]. rewrite Z.add_0_r. by apply con_stay.
  - rewrite delete_id by done. apply con_enter; try done. by right.
Qed.
End entering_validator.

Lemma update_below_ok mem rec stake N n X D s v p a : mid mem rec stake N n X D s ->
  consistent mem rec stake n X -> stakes_fit stake -> 0 <= N -> N + 2 <= U64_MAX ->
  0 <= a <= MAX_SIGNED_VALUE -> mem !! v = Some BelowCapacity -> positions_at s ep !! v = Some p ->
  st_wp (update_below_capacity_validator (E:=E) params v (stake v) a p c off ep)
    (fun _ => settled v rec (<[v := a]> stake) (N + 2) D) s.
Proof.
  intros Hmid Hcon Hfit HN HN' Ha Hv Hp. unfold update_below_capacity_validator.
  st_lift ltac:(by apply below_handle_ok).
  st_call mid_remove; [by right|done..|]. intros r s1 [_ Hmid1]. cbn [slots] in Hmid1.
  rewrite Z.sub_0_r in Hmid1.
  apply (mid_stake _ _ _ _ _ _ _ _ v a) in Hmid1; [|by rewrite lookup_delete_eq].
  pose proof (con_full _ _ _ _ _ _ Hcon v Hv) as Hn. st_get. rewrite Z.gtb_ltb, Z.geb_leb.
  assert (mem !! v <> Some Consensus) as Hv' by congruence.
  destruct (min_consensus _ _ _ _ _ _ _ _ _ _ Hmid1 Hv' Hn) as (w & _ & Hw & Hk & _ & _).
  pose proof (con_in _ _ _ _ _ _ Hcon w Consensus Hw) as [_ Hwt].
  destruct (Z.ltb_spec (get_min_consensus_validator_amount s1 ep) a) as [Hup|Hdown];
    [eapply enter_consensus; try done; lia|].
  destruct (Z.leb_spec threshold a) as [Hhigh|Hlow].
  - eapply enter_below_capacity; try done. intros x. congruence.
  - st_call mid_set_state; [done|]. intros _ s2 Hmid2.
    st_tail mid_remove_position; [done|by rewrite lookup_delete_eq|]. intros _ s3 Hmid3.
    pose proof (con_leave _ _ _ _ _ _ v a BelowThreshold Hcon below_not_in (fun _ => Hlow) (or_introl Hv)) as Hc'. rewrite Hv in Hc'.
    cbn [slots default] in Hc'. rewrite Z.sub_0_r in Hc'.
    eexists _, _, _, _. split_and!; [eapply mid_weaken; [exact Hmid3|lia]|exact Hc'|apply kept_refl].
Qed.

Lemma update_outside_ok mem rec stake N n X D s v a : mid mem rec stake N n X D s ->
  consistent mem rec stake n X -> stakes_fit stake -> 0 <= N -> N + 2 <= U64_MAX ->
  threshold <= a <= MAX_SIGNED_VALUE -> mem !! v = None ->
  st_wp (update_below_threshold_validator (E:=E) params v a c off ep)
    (fun _ => settled v rec (<[v := a]> stake) (N + 2) D) s.
Proof.
  intros Hmid Hcon Hfit HN HN' Ha Hv. unfold update_below_threshold_validator. st_get.
  pose proof (ok_threshold _ Hparams). pose proof (con_cap _ _ _ _ _ _ Hcon) as Hcap.
  unfold get_num_consensus_validators. rewrite set_list_length, (mid_size _ _ _ _ _ _ _ _ Hmid).
  apply (mid_stake _ _ _ _ _ _ _ _ v a) in Hmid; [|done].
  destruct (Z.ltb_spec n (max_validator_slots params)) as [Hroom|Hfull].
  - replace (ConsensusAt a) with (set_handle Consensus ((<[v := a]> stake) v)) by (by rewrite fn_lookup_insert).
    st_call mid_insert; [by left|done|done|lia|]. intros _ s2 Hmid2.
    st_tail mid_set_state; [done|]. intros _ s3 Hmid3.
    eexists _, _, _, _. split_and!; [eapply mid_weaken; [exact Hmid3|lia]| |apply kept_refl].
    apply con_enter; try done; [lia|by left].
  - st_get. rewrite Z.gtb_ltb. rewrite <- (delete_id mem v) in Hmid by done.
    destruct (Z.ltb_spec (get_min_consensus_validator_amount s ep) a) as [Hup|Hdown].
    + eapply enter_consensus; try done; try lia. congruence.
    + eapply enter_below_capacity; try done; try lia; congruence.
Qed.

(** ** The invariant of the sets of an epoch

    [kind] gives the recorded state of every validator, [stake] its stake,
    both at the epoch; positions are bounded by [N] and the magnitudes of the
    deltas of a validator by [M]. *)
Record sets_inv (kind : gmap Address ValidatorState) stake (N M : Z) s : Prop := {
  si_consensus : listed Consensus kind stake (positions_at s ep) (consensus_at s ep);
  si_below : listed BelowCapacity kind stake (positions_at s ep) (below_capacity_at s ep);
  si_positions : forall v, is_Some (positions_at s ep !! v) <-> exists x, kind !! v = Some x /\ in_set x;
  si_bound : forall v p, positions_at s ep !! v = Some p -> 0 <= p <= N;
  si_states : states_inv kind s;
  si_stakes : deltas_inv stake M (validator_deltas s);
  si_threshold : forall v x, kind !! v = Some x -> in_set x -> threshold <= stake v;
  si_low : forall v, kind !! v = Some BelowThreshold -> stake v < threshold;
  si_capacity : Z.of_nat (size (consensus_at s ep)) <= max_validator_slots params;
  si_full : forall v, kind !! v = Some BelowCapacity ->
    Z.of_nat (size (consensus_at s ep)) = max_validator_slots params;
  si_order : forall v w, kind !! v = Some Consensus -> kind !! w = Some BelowCapacity -> stake w <= stake v
}.

#[local] Instance in_set_dec x : Decision (in_set x).
Proof. unfold in_set. apply _. Defined.

Definition members (kind : gmap Address ValidatorState) : gmap Address ValidatorState :=
  filter (fun e => in_set e.2) kind.

Lemma members_Some kind v x : members kind !! v = Some x <-> kind !! v = Some x /\ in_set x.
Proof. apply map_lookup_filter_Some. Qed.

Lemma listed_ext x mem mem' stake P m : (forall v, mem !! v = Some x <-> mem' !! v = Some x) ->
  listed x mem stake P m -> listed x mem' stake P m.
Proof. intros He Hl k p v. by rewrite <- He. Qed.

Lemma sets_inv_mid kind stake N M s : sets_inv kind stake N M s -> exists n X,
  mid (members kind) kind stake N n X (validator_deltas s) s /\ consistent (members kind) kind stake n X.
Proof.
  intros [HC HB Hp Hb Hst Hdl Hth Hlow Hcap Hfull Hord].
  exists (Z.of_nat (size (consensus_at s ep))), (dom (positions_at s ep)). split; constructor; try done.
  - split; (eapply listed_ext; [|eassumption]); intros v; rewrite members_Some; unfold in_set; naive_solver.
  - intros v x [Hv Hx]%members_Some. apply elem_of_dom, Hp. eauto.
  - intros v [x [Hv Hx]]%elem_of_dom%Hp. exists x. by apply members_Some.
  - intros v x Hx. rewrite members_Some. naive_solver.
  - intros v x [Hv Hx]%members_Some. eauto.
  - intros v [Hv _]%members_Some. eauto.
  - intros v w [Hv _]%members_Some [Hw _]%members_Some. eauto.
Qed.

Lemma mid_sets_inv mem rec stake N n X D M s : mid mem rec stake N n X D s ->
  consistent mem rec stake n X -> deltas_inv stake M D -> sets_inv rec stake N M s.
Proof.
  intros [[HC HB] Hpos Hn Hdom Hmem Hst HD] [Hd Hr Hi Hl Hcp Hf Ho] Hdl. subst n X D.
  constructor; try done.
  - eapply listed_ext; [|exact HC]. intros v. apply Hr. by left.
  - eapply listed_ext; [|exact HB]. intros v. apply Hr. by right.
  - intros v. rewrite <- elem_of_dom. split.
    + intros [x Hx]%Hd. exists x. pose proof (Hi _ _ Hx) as [Hin _]. split; [by apply Hr|done].
    + intros (x & Hx & Hin). eapply Hmem, Hr; eauto.
  - intros v x Hx Hin. by apply Hr, Hi in Hx as [_ ?].
  - intros v Hv. apply Hr in Hv; [eauto|by right].
  - intros v w Hv Hw. apply Hr in Hv; [|by left]. apply Hr in Hw; [eauto|by right].
Qed.

Lemma deltas_fit stake M D : deltas_inv stake M D -> stakes_fit stake.
Proof. intros [HM Hd] v. destruct (Hd v) as [? _]. lia. Qed.

(** The stake after a change that fits *)
Lemma stake_after a delta : 0 <= a -> i256_wf delta -> 0 <= a + sval delta ->
  a + Z.abs (sval delta) <= MAX_SIGNED_VALUE ->
  change (E:=E) a = Ok a /\
  exists x, i256_checked_add (E:=E) a delta = Ok (Some x) /\ from_change x = a + sval delta.
Proof.
  intros Ha Hwf Hnn Hle. assert (in_i256 a) as Hin by (unfold in_i256; lia). split.
  { unfold change, try_from_uint. by rewrite (proj2 (Z.leb_le _ _)) by lia. }
  assert (i256_wf a /\ sval a = a) as [Hsw Hss].
  { rewrite <- (srep_pos a) at 1 2 by (done || lia). split; [by apply srep_wf|by apply sval_srep]. }
  exists (srep (a + sval delta)). rewrite i256_checked_add_eq, Hss by done.
  assert (in_i256 (a + sval delta)) as Hpin by (unfold in_i256; lia).
  destruct (in_i256b_spec (a + sval delta)); [|done]. split; [done|].
  unfold from_change. rewrite abs_spec, sval_srep, Z.abs_eq by (done || by apply srep_wf). done.
Qed.

Lemma mid_ext mem rec stake stake' N n X D s : (forall u, stake' u = stake u) ->
  mid mem rec stake N n X D s -> mid mem rec stake' N n X D s.
Proof.
  intros He [[HC HB] Hpos Hn Hdom Hmem Hst HD]. constructor; try done.
  split; intros k p v; rewrite He; [apply HC|apply HB].
Qed.

(** A recorded member is the one found under its stake and position. *)
Lemma in_consensus_iff mem rec stake N n X D s v p : mid mem rec stake N n X D s ->
  positions_at s ep !! v = Some p ->
  handle_get (ConsensusAt (stake v)) s ep p = Some v <-> mem !! v = Some Consensus.
Proof.
  intros [[HC _] _ _ _ _ _ _] Hp. unfold handle_get. cbn [handle_key handle_set].
  rewrite (HC (stake v) p v). naive_solver.
Qed.

(** The validators that take part in the sets *)
Definition active (kind : gmap Address ValidatorState) (v : Address) : Prop :=
  exists x, kind !! v = Some x /\ (in_set x \/ x = BelowThreshold).

Lemma update_validator_set_ok kind stake N M s v delta : sets_inv kind stake N M s -> active kind v ->
  0 <= N -> N + 2 <= U64_MAX -> i256_wf delta -> M + Z.abs (sval delta) <= MAX_SIGNED_VALUE ->
  0 <= stake v + sval delta ->
  st_wp (update_validator_set (E:=E) params v delta c (Some off))
    (fun _ => settled v kind (<[v := stake v + sval delta]> stake) (N + 2) (validator_deltas s)) s.
Proof.
  intros Hinv Hact HN HN' Hwf Hmag Hnn. destruct (sets_inv_mid _ _ _ _ _ Hinv) as (n & X & Hmid & Hcon).
  pose proof (si_stakes _ _ _ _ _ Hinv) as Hd. pose proof (deltas_fit _ _ _ Hd) as Hfit.
  destruct (proj2 Hd v) as [Hsv _]. unfold update_validator_set.
  change (default (pipeline_len params) (Some off)) with off. unfold i256_is_zero.
  destruct (Z.eqb_spec delta 0) as [->|Hnz].
  { apply st_wp_ret. eexists _, kind, n, X.
    assert (forall u, (<[v := stake v + sval 0]> stake) u = stake u) as He.
    { intros u. change (sval 0) with 0. destruct (decide (u = v)) as [->|];
        [rewrite fn_lookup_insert; lia|by rewrite fn_lookup_insert_ne]. }
    split_and!; [eapply mid_weaken; [by eapply mid_ext|lia]|by eapply con_ext|done]. }
  st_lift ltac:(unfold epoch_add; apply u64_add_ok; lia). st_get.
  st_lift ltac:(by eapply read_stake_ok).
  destruct (stake_after (stake v) delta) as (Hch & pc & Hadd & Hpost); [lia|done|done|lia|].
  st_lift ltac:(exact Hch). st_lift ltac:(exact Hadd). st_lift ltac:(done). rewrite Hpost. cbv zeta.
  set (a := stake v + sval delta) in *. assert (0 <= a <= MAX_SIGNED_VALUE) as Ha by lia.
  destruct ((stake v <? threshold) && (a <? threshold)) eqn:Hlow.
  - apply andb_true_iff in Hlow as [Hl1%Z.ltb_lt Hl2%Z.ltb_lt]. apply st_wp_ret.
    assert (members kind !! v = None) as Hout.
    { apply eq_None_not_Some. intros [x Hx]. apply (con_in _ _ _ _ _ _ Hcon) in Hx as [_ ?]. lia. }
    eexists _, kind, n, X. split_and!; [|by apply con_outside|done].
    eapply mid_weaken; [by apply mid_stake|lia].
  - unfold read_validator_set_position. destruct (positions_at s ep !! v) as [p|] eqn:Hp.
    + pose proof (in_consensus_iff _ _ _ _ _ _ _ _ _ _ Hmid Hp) as Hiff.
      case_bool_decide as Hb; rewrite Hiff in Hb; [by eapply update_consensus_ok|].
      assert (v ∈ X) as Hx by (rewrite <- (mid_dom _ _ _ _ _ _ _ _ Hmid); apply elem_of_dom; eauto).
      apply (con_dom _ _ _ _ _ _ Hcon) in Hx as [y Hx]. pose proof (con_in _ _ _ _ _ _ Hcon v y Hx) as [[-> | ->] _];
        [done|by eapply update_below_ok].
    + assert (members kind !! v = None) as Hout.
      { apply eq_None_not_Some. intros [x Hx]. apply (mid_mem _ _ _ _ _ _ _ _ Hmid) in Hx.
        rewrite <- (mid_dom _ _ _ _ _ _ _ _ Hmid) in Hx. apply elem_of_dom in Hx as [? ?]. congruence. }
      eapply update_outside_ok; try done. split; [|lia]. destruct Hact as (y & Hx & [Hin'| ->]).
      * assert (members kind !! v = Some y) by (by apply members_Some). congruence.
      * apply (si_low _ _ _ _ _ Hinv) in Hx. rewrite (proj2 (Z.ltb_lt _ _) Hx) in Hlow.
        simpl in Hlow. by apply Z.ltb_ge in Hlow.
Qed.

(** ** Insertion, removal and promotion *)
Lemma insert_is_update v a s : threshold <= a ->
  insert_validator_into_validator_set (E:=E) params v a c off s =
  update_below_threshold_validator (E:=E) params v a c off ep s.
Proof.
  intros Ha. unfold insert_validator_into_validator_set, update_below_threshold_validator.
  assert (epoch_add (E:=E) c off = Ok ep) as He by (unfold epoch_add; apply u64_add_ok; lia).
  unfold st_bind, st_get, st_lift. rewrite He, (proj2 (Z.ltb_ge a threshold)) by lia.
  destruct (_ <? max_validator_slots params); [done|]. destruct (a >? _); [|done].
  unfold insert_into_consensus_and_demote_to_below_cap, st_bind, st_get, st_lift. rewrite He.
  destruct (find_last_position _ s ep); done.
Qed.

Lemma insert_ok mem rec stake N n X D s v : mid mem rec stake N n X D s ->
  consistent mem rec stake n X -> stakes_fit stake -> 0 <= N -> N + 2 <= U64_MAX -> mem !! v = None ->
  st_wp (insert_validator_into_validator_set (E:=E) params v (stake v) c off)
    (fun _ => settled v rec stake (N + 2) D) s.
Proof.
  intros Hmid Hcon Hfit HN HN' Hv. destruct (Z.lt_ge_cases (stake v) threshold) as [Hlow|Hhigh].
  - unfold insert_validator_into_validator_set.
    st_lift ltac:(unfold epoch_add; apply u64_add_ok; lia). st_get.
    rewrite (proj2 (Z.ltb_lt (stake v) threshold)) by lia.
    st_tail mid_set_state; [done|]. intros _ s1 Hmid1.
    eexists _, _, n, X. split_and!; [eapply mid_weaken; [exact Hmid1|lia]| |apply kept_refl].
    apply con_mark; try done. apply below_not_in.
  - assert (forall u, stake u = (<[v := stake v]> stake) u) as He.
    { intros u. destruct (decide (u = v)) as [->|]; [by rewrite fn_lookup_insert|by rewrite fn_lookup_insert_ne]. }
    destruct (update_outside_ok _ _ _ _ _ _ _ _ v (stake v) Hmid Hcon Hfit HN HN') as (s' & [] & Hrun & Hset);
      [pose proof (Hfit v); lia|done|].
    exists s', tt. rewrite insert_is_update by done. split; [done|].
    destruct Hset as (mem' & rec' & n' & X' & Hmid' & Hcon' & Hk). exists mem', rec', n', X'.
    split_and!; [by eapply mid_ext|by eapply con_ext|done].
Qed.

Lemma remove_consensus_ok mem rec stake stake' N n X D M s v : mid mem rec stake N n X D s ->
  deltas_inv stake' M D -> stake' v = stake v -> mem !! v = Some Consensus ->
  st_wp (remove_consensus_validator (E:=E) params ep v)
    (fun _ => mid (delete v mem) rec stake N (n - 1) (X ∖ {[v]}) D) s.
Proof.
  intros Hmid Hd Heq Hv. unfold remove_consensus_validator. st_get.
  rewrite <- (mid_deltas _ _ _ _ _ _ _ _ Hmid) in Hd.
  st_lift ltac:(by eapply read_stake_ok). rewrite Heq.
  destruct (mid_listed _ _ _ _ _ _ _ _ v Consensus Hmid) as (p & Hp & _); [by left|done|].
  st_lift ltac:(by rewrite Hp).
  replace (ConsensusAt (stake v)) with (set_handle Consensus (stake v)) by done.
  st_call mid_remove; [by left|done..|]. intros r s1 [_ Hmid1].
  st_tail mid_remove_position; [done|by rewrite lookup_delete_eq|]. by intros _ s2.
Qed.

Lemma remove_below_ok mem rec stake stake' N n X D M s v : mid mem rec stake N n X D s ->
  deltas_inv stake' M D -> stake' v = stake v -> mem !! v = Some BelowCapacity ->
  st_wp (remove_below_capacity_validator (E:=E) params ep v)
    (fun _ => mid (delete v mem) rec stake N n (X ∖ {[v]}) D) s.
Proof.
  intros Hmid Hd Heq Hv. unfold remove_below_capacity_validator. st_get.
  rewrite <- (mid_deltas _ _ _ _ _ _ _ _ Hmid) in Hd. pose proof (deltas_fit _ _ _ Hd) as Hfit.
  st_lift ltac:(by eapply read_stake_ok). st_lift ltac:(by apply below_handle_ok). rewrite Heq.
  destruct (mid_listed _ _ _ _ _ _ _ _ v BelowCapacity Hmid) as (p & Hp & _); [by right|done|].
  st_lift ltac:(by rewrite Hp).
  st_call mid_remove; [by right|done..|]. intros r s1 [_ Hmid1]. cbn [slots] in Hmid1.
  rewrite Z.sub_0_r in Hmid1.
  st_tail mid_remove_position; [done|by rewrite lookup_delete_eq|]. by intros _ s2.
Qed.

(** The promotion after a removal: nobody waits, or the first of the largest
    stake is promoted. *)
Lemma promote_next_ok mem rec stake N n X D s : mid mem rec stake N n X D s -> stakes_fit stake ->
  0 <= N < U64_MAX ->
  st_wp (promote_next_below_capacity_validator_to_consensus (E:=E) params ep)
    (fun _ s' => (mid mem rec stake N n X D s' /\ forall u, mem !! u <> Some BelowCapacity) \/
       exists w, mem !! w = Some BelowCapacity /\
         (forall u, mem !! u = Some BelowCapacity -> stake u <= stake w) /\
         mid (<[w := Consensus]> mem) (<[w := Consensus]> rec) stake (N + 1) (n + 1) X D s' /\
         last_update (state_handle s' w) = Some ep) s.
Proof.
  intros Hmid Hfit HN. unfold promote_next_below_capacity_validator_to_consensus. st_get.
  destruct (mid_max _ _ _ _ _ _ _ _ Hmid Hfit) as [[Hnone Hno]|(w & q & Hsome & Hw & Hmaxw & Hq & Hfirst)].
  - st_lift ltac:(exact Hnone). apply st_wp_ret. by left.
  - st_lift ltac:(exact Hsome).
    st_tail mid_promote; [done|done|lia..|done|done|done|]. intros _ s' [Hmid' Hlast]. right. by exists w.
Qed.
End epoch_steps.
