(* ===== verification/Lifecycle.v ===== *)
(** * Validators joining and leaving the sets

    Deactivation, reactivation, unjailing and jailing of validators in
    [proof_of_stake/src/lib.rs], on the storage of [ValidatorSet].

    Any sequence of new validators, stake changes, deactivations, reactivations
    and unjailings within an epoch keeps the invariant of the validator sets;
    [ValidatorEpochs] carries it through the epochs. *)

From stdpp Require Import sorting functions base numbers list gmap.
From Stdlib Require Import ZArith Lia.
From S2P Require Import Prelude Uint Int256 Dec Keys Epoch Params Epoched ValidatorSet ValidatorSetInv.

Local Open Scope Z_scope.

(** ** Errors *)
Inductive UnjailValidatorError : Type :=
| UnjailNotAValidator (v : Address)
| NotJailed (v : Address) (e : Epoch)
| NotEligible (v : Address) (eligible current : Epoch).

Inductive DeactivationError : Type :=
| AlreadyInactive (v : Address) (e : Epoch)
| DeactivateNotAValidator (v : Address)
| ValidatorIsJailed (v : Address) (e : Epoch).

Inductive ReactivationError : Type :=
| NotInactive (v : Address) (e : Epoch)
| NoStateFound (v : Address) (e : Epoch).

Inductive LifecycleError : Type :=
| Unjail (e : UnjailValidatorError)
| Deactivation (e : DeactivationError)
| Reactivation (e : ReactivationError).

Section lifecycle.
Context {U : UintOps} (params : PosParams).
Notation E := LifecycleError.
Local Open Scope st_scope.

(** [validator_state_handle(v).get] *)
Definition get_validator_state {E} (s : ValidatorSets) (v : Address) (epoch : Epoch)
  : outcome E (option ValidatorState) :=
  get OffsetPipelineLen OffsetDefaultNumPastEpochs (state_handle s v) epoch params.

(** The state at every epoch must be the expected one. *)
Definition check_states (s : ValidatorSets) (v : Address) (expected : ValidatorState)
    (other : Epoch -> E) (none : Epoch -> E) (epochs : list Epoch) : outcome E unit :=
  out_fold (fun _ epoch =>
    (let* state := get_validator_state s v epoch in
     match state with
     | Some state => if bool_decide (state = expected) then Ok tt else Err (other epoch)
     | None => Err (none epoch)
     end)%out) epochs tt.

Definition is_validator_frozen {E} (last_infraction_epoch : option Epoch) (current_epoch : Epoch)
  : outcome E bool :=
  match last_infraction_epoch with
  | Some last_epoch =>
      (let* off := slash_processing_epoch_offset params in
       let* limit := epoch_add last_epoch off in
       Ok (current_epoch <? limit))%out
  | None => Ok false
  end.

Definition unjail_validator (last_slash_epoch : option Epoch) (validator : Address) (current_epoch : Epoch)
  : st ValidatorSets E unit :=
  let! len := st_lift (u64_add (pipeline_len params) 1) in
  let! epochs := st_lift (iter_range current_epoch len) in
  let! s := st_get (fun s => s) in
  do! st_lift (check_states s validator Jailed (fun epoch => Unjail (NotJailed validator epoch))
                 (fun _ => Unjail (UnjailNotAValidator validator)) epochs) in
  do! match last_slash_epoch with
      | Some last_slash_epoch =>
          let! off := st_lift (slash_processing_epoch_offset params) in
          let! eligible_epoch := st_lift (epoch_add last_slash_epoch off) in
          if current_epoch <? eligible_epoch
          then st_err (Unjail (NotEligible validator eligible_epoch current_epoch)) else st_ret tt
      | None => st_ret tt
      end in
  let! pipeline_epoch := st_lift (epoch_add current_epoch (pipeline_len params)) in
  let! stake := st_lift (read_validator_stake params s validator pipeline_epoch) in
  insert_validator_into_validator_set params validator stake current_epoch (pipeline_len params).

Definition deactivate_validator (validator : Address) (current_epoch : Epoch) : st ValidatorSets E unit :=
  let! pipeline_epoch := st_lift (epoch_add current_epoch (pipeline_len params)) in
  let! s := st_get (fun s => s) in
  let! state := st_lift (get_validator_state s validator pipeline_epoch) in
  let! pipeline_state := st_lift (ok_or state (Deactivation (DeactivateNotAValidator validator))) in
  do! match pipeline_state with
      | Consensus =>
          do! remove_consensus_validator params pipeline_epoch validator in
          promote_next_below_capacity_validator_to_consensus params pipeline_epoch
      | BelowCapacity => remove_below_capacity_validator params pipeline_epoch validator
      | BelowThreshold => st_ret tt
      | Inactive => st_err (Deactivation (AlreadyInactive validator pipeline_epoch))
      | Jailed => st_err (Deactivation (ValidatorIsJailed validator pipeline_epoch))
      end in
  set_validator_state params validator Inactive current_epoch (pipeline_len params).

Definition reactivate_validator (last_slash_epoch : option Epoch) (validator : Address)
    (current_epoch : Epoch) : st ValidatorSets E unit :=
  let! pipeline_epoch := st_lift (epoch_add current_epoch (pipeline_len params)) in
  let! s := st_get (fun s => s) in
  do! st_lift (check_states s validator Inactive (fun epoch => Reactivation (NotInactive validator epoch))
                 (fun epoch => Reactivation (NoStateFound validator epoch))
                 (iter_bounds_inclusive current_epoch pipeline_epoch)) in
  let! jail := match last_slash_epoch with
    | Some last_slash_epoch =>
        let! off := st_lift (slash_processing_epoch_offset params) in
        let! eligible_epoch := st_lift (epoch_add last_slash_epoch off) in
        st_ret (current_epoch <? eligible_epoch)
    | None => st_ret false
    end in
  if jail then set_validator_state params validator Jailed pipeline_epoch 0
  else
    let! stake := st_lift (read_validator_stake params s validator pipeline_epoch) in
    insert_validator_into_validator_set params validator stake current_epoch (pipeline_len params).

(** ** Jailing *)

(** One epoch of the loop of [jail_validator] *)
Definition jail_at {E} (validator : Address) (pipeline_epoch epoch : Epoch) : st ValidatorSets E unit :=
  let! s := st_get (fun s => s) in
  let! state := st_lift (get_validator_state s validator epoch) in
  let! prev_state := st_lift (unwrap state) in
  match prev_state with
  | Consensus =>
      do! remove_consensus_validator params epoch validator in
      if epoch =? pipeline_epoch then promote_next_below_capacity_validator_to_consensus params epoch
      else st_ret tt
  | BelowCapacity => remove_below_capacity_validator params epoch validator
  | BelowThreshold | Inactive | Jailed => st_ret tt
  end.

Definition jail_validator {E} (validator : Address) (current_epoch validator_set_update_epoch : Epoch)
  : st ValidatorSets E unit :=
  let! pipeline_epoch := st_lift (epoch_add current_epoch (pipeline_len params)) in
  do! st_iter (jail_at validator pipeline_epoch)
        (iter_bounds_inclusive validator_set_update_epoch pipeline_epoch) in
  let! start_offset := st_lift (u64_sub validator_set_update_epoch current_epoch) in
  st_iter (fun offset => set_validator_state params validator Jailed current_epoch offset)
    (seqZ start_offset (pipeline_len params - start_offset + 1)).

(** ** The change of a stake, as bonds, unbonds and redelegations make it *)
Definition change_stake {E} (validator : Address) (delta : Z) (current_epoch : Epoch) (offset_opt : option Z)
  : st ValidatorSets E unit :=
  let! offset_epoch := st_lift (epoch_add current_epoch (default (pipeline_len params) offset_opt)) in
  let! s := st_get (fun s => s) in
  let! state := st_lift (get_validator_state s validator offset_epoch) in
  do! (if bool_decide (state = Some Jailed \/ state = Some Inactive) then st_ret tt
       else update_validator_set params validator delta current_epoch offset_opt) in
  update_validator_deltas params validator delta current_epoch offset_opt.

(** The sets, the state and the stake of a new validator, as [become_validator]
    initialises them *)
Definition init_validator {E} (address : Address) (current_epoch : Epoch) (offset_opt : option Z)
  : st ValidatorSets E unit :=
  let offset := default (pipeline_len params) offset_opt in
  let! pipeline_epoch := st_lift (epoch_add current_epoch offset) in
  do! st_mod (fun s => set_addresses (write_epoch pipeline_epoch
        ({[address]} ∪ at_epoch (validator_addresses s) pipeline_epoch) (validator_addresses s)) s) in
  let! h := st_get (fun s => deltas_handle s address) in
  let r := delta_set (HD:=change_delta) deltas_past params 0 current_epoch offset h in
  do! st_mod (fun s => set_deltas (<[address := r.1]> (validator_deltas s)) s) in
  do! st_lift r.2 in
  do! set_validator_state params address BelowThreshold current_epoch offset in
  insert_validator_into_validator_set params address 0 current_epoch offset.

(** ** Operations of an epoch; an operation that fails is rolled back. *)
Inductive lifecycle_op : Type :=
| OpInit (v : Address)
| OpChangeStake (v : Address) (delta : Z)
| OpDeactivate (v : Address)
| OpReactivate (v : Address)
| OpUnjail (v : Address).

Context (last_slash_epoch : Address -> option Epoch).

Definition run_op (current_epoch : Epoch) (o : lifecycle_op) : st ValidatorSets E unit :=
  match o with
  | OpInit v => init_validator v current_epoch None
  | OpChangeStake v delta => change_stake v delta current_epoch None
  | OpDeactivate v => deactivate_validator v current_epoch
  | OpReactivate v => reactivate_validator (last_slash_epoch v) v current_epoch
  | OpUnjail v => unjail_validator (last_slash_epoch v) v current_epoch
  end.

Definition run_ops (current_epoch : Epoch) (ops : list lifecycle_op) : st ValidatorSets E unit :=
  st_iter (fun o s =>
    match run_op current_epoch o s with
    | (s', Ok _) => (s', Ok tt)
    | (_, Err _) => (s, Ok tt)
    | (s', Panic) => (s', Panic)
    end) ops.
End lifecycle.

(** ** One operation *)
Section lifecycle_steps.
Context {U : UintOps} {HU : UintLaws U} (params : PosParams) (c : Z).
Context (Hparams : params_ok params) (Hc : 0 <= c) (Hmax : c + 2 * pipeline_len params + 1 <= U64_MAX).
Implicit Types (kind mem : gmap Address ValidatorState) (stake : Address -> Z) (s : ValidatorSets).
Notation L := (pipeline_len params).
Notation inv := (sets_inv params c L).

Lemma pipeline_ok : 0 <= L <= L.
Proof. pose proof (ok_pipeline _ Hparams). lia. Qed.

Lemma pipeline_fits : c + L <= U64_MAX.
Proof. pose proof (ok_pipeline _ Hparams). lia. Qed.

Lemma pipeline_epoch_ok {E} : epoch_add (E:=E) c L = Ok (c + L).
Proof. pose proof (ok_pipeline _ Hparams). unfold epoch_add. apply u64_add_ok. lia. Qed.

Lemma get_state_ok {E} kind s v : states_inv params c L kind s ->
  get_validator_state (E:=E) params s v (c + L) = Ok (kind !! v) /\
  forall e, exists r, get_validator_state (E:=E) params s v e = Ok r.
Proof.
  intros Hst. destruct (Hst v) as [Hlive Hrec]. pose proof pipeline_ok as HL. unfold get_validator_state. split.
  - destruct (get_live (E:=E) OffsetPipelineLen OffsetDefaultNumPastEpochs params L DEFAULT_NUM_PAST_EPOCHS
      (fun _ => eq_refl) (fun _ => eq_refl) ltac:(lia) (c + L) (c + L) (state_handle s v) Hlive)
      as (r & -> & Hr); [lia|lia|]. f_equal. apply option_eq. intros x. by rewrite Hr, Hrec.
  - intros e. eapply (get_live_total (E:=E) OffsetPipelineLen OffsetDefaultNumPastEpochs params L
      DEFAULT_NUM_PAST_EPOCHS (fun _ => eq_refl) (fun _ => eq_refl));
      [exact Hlive|lia].
Qed.

(** A check of states that passes has seen the state of the pipeline epoch. *)
Lemma check_states_ok kind s v x other none epochs : states_inv params c L kind s -> c + L ∈ epochs ->
  (check_states params s v x other none epochs = Ok tt /\ kind !! v = Some x) \/
  exists e, check_states params s v x other none epochs = Err e.
Proof.
  intros Hst Hin. unfold check_states. induction epochs as [|e epochs IH]; [by apply not_elem_of_nil in Hin|].
  cbn [out_fold]. destruct (get_state_ok (E:=LifecycleError) kind s v Hst) as [Hep Hall].
  destruct (Hall e) as [r Hr]. rewrite Hr. cbn [out_bind].
  destruct r as [y|]; [|right; eauto]. case_bool_decide as Hy; [|right; eauto]. subst y. cbn [out_bind].
  destruct (decide (e = c + L)) as [->|Hne].
  - rewrite Hep in Hr. injection Hr as Hr. rewrite Hr in *. clear Hin IH.
    induction epochs as [|e epochs IH]; [left; done|]. cbn [out_fold].
    destruct (Hall e) as [r' Hr']. rewrite Hr'. cbn [out_bind].
    destruct r' as [y|]; [|right; eauto]. case_bool_decide; [|right; eauto]. cbn [out_bind]. apply IH.
  - apply IH. set_solver.
Qed.

(** The post-condition of an operation on [v] from deltas [D] *)
Definition kept_inv (D : gmap Address (epoched Z)) (v : Address) kind stake (N M : Z) s' : Prop :=
  v ∈ dom kind /\ exists kind', inv kind' stake N M s' /\ others_kept v kind kind' /\
    forall u, u <> v -> validator_deltas s' !! u = D !! u.

Lemma mid_kept D D' v mem kind kind' stake N n X M s : is_Some (kind !! v) -> mid params c L mem kind' stake N n X D' s ->
  consistent params mem kind' stake n X -> deltas_inv params c L stake M D' ->
  others_kept v kind kind' -> (forall u, u <> v -> D' !! u = D !! u) -> kept_inv D v kind stake N M s.
Proof.
  intros Hv Hmid Hcon Hd Hk HD. split; [by apply elem_of_dom|]. exists kind'. split_and!; [by eapply mid_sets_inv|done|].
  intros u Hu. rewrite (mid_deltas _ _ _ _ _ _ _ _ _ _ _ Hmid). auto.
Qed.

Lemma settled_inv v kind stake N M D s : is_Some (kind !! v) -> settled params c L v kind stake N D s ->
  deltas_inv params c L stake M D -> kept_inv D v kind stake N M s.
Proof. intros Hv (mem' & kind' & n' & X' & Hmid & Hcon & Hk) Hd. by eapply mid_kept. Qed.

Lemma change_stake_ok kind stake N M s v delta : inv kind stake N M s -> v ∈ dom kind ->
  0 <= N -> N + 2 <= U64_MAX -> i256_wf delta -> M + Z.abs (sval delta) <= MAX_SIGNED_VALUE ->
  0 <= stake v + sval delta ->
  st_wp (change_stake (E:=LifecycleError) params v delta c None)
    (fun _ => kept_inv (validator_deltas s) v kind (<[v := stake v + sval delta]> stake) (N + 2) (M + Z.abs (sval delta))) s.
Proof.
  intros Hinv [x Hx]%elem_of_dom HN HN' Hwf Hmag Hnn. pose proof pipeline_ok as HL.
  unfold change_stake. change (default L None) with L. st_lift ltac:(apply pipeline_epoch_ok). st_get.
  st_lift ltac:(apply get_state_ok; apply Hinv). rewrite Hx.
  assert (st_wp (if bool_decide (Some x = Some Jailed \/ Some x = Some Inactive) then st_ret tt
       else update_validator_set (E:=LifecycleError) params v delta c None)
    (fun _ => settled params c L v kind (<[v := stake v + sval delta]> stake) (N + 2) (validator_deltas s)) s)
    as Hset.
  { case_bool_decide as Hout.
    - apply st_wp_ret. destruct (sets_inv_mid params c L pipeline_ok _ _ _ _ _ Hinv) as (n & X & Hmid & Hcon).
      assert (members kind !! v = None) as Hnone.
      { apply eq_None_not_Some. intros [y [Hy Hin]%members_Some].
        destruct Hin as [-> | ->]; naive_solver congruence. }
      exists (members kind), kind, n, X. split_and!; [|apply con_outside; [done|done|naive_solver congruence]|done].
      eapply mid_weaken; [by apply mid_stake|lia].
    - change (update_validator_set params v delta c None) with
        (update_validator_set (E:=LifecycleError) params v delta c (Some L)).
      eapply update_validator_set_ok; try done; try lia. exists x. split; [done|].
      destruct x; [by left; left|by left; right|by right|naive_solver|naive_solver]. }
  apply st_wp_bind. eapply st_wp_mono; [exact Hset|]. cbv beta.
  intros _ s1 (mem' & kind' & n' & X' & Hmid & Hcon & Hk).
  change (update_validator_deltas params v delta c None) with
    (update_validator_deltas (E:=LifecycleError) params v delta c (Some L)).
  eapply st_wp_mono; [eapply update_deltas_ok; try done; try lia; apply Hinv|]. cbv beta.
  intros _ s2 (D' & Hmid' & Hd' & HD'). eapply mid_kept; eauto.
Qed.

Lemma insert_back_ok kind stake N M s v y : inv kind stake N M s -> 0 <= N -> N + 2 <= U64_MAX ->
  kind !! v = Some y -> ~ in_set y ->
  st_wp (insert_validator_into_validator_set (E:=LifecycleError) params v (stake v) c L)
    (fun _ => kept_inv (validator_deltas s) v kind stake (N + 2) M) s.
Proof.
  intros Hinv HN HN' Hv Hout. pose proof pipeline_ok as HL.
  destruct (sets_inv_mid params c L pipeline_ok _ _ _ _ _ Hinv) as (n & X & Hmid & Hcon).
  assert (members kind !! v = None) as Hnone.
  { apply eq_None_not_Some. intros [z [Hz Hin]%members_Some]. congruence. }
  eapply st_wp_mono.
  - eapply insert_ok; try done; try lia. eapply deltas_fit. apply Hinv.
  - cbv beta. intros _ s1 Hs. eapply settled_inv; [eauto|exact Hs|apply Hinv].
Qed.

Lemma mark_ok kind stake N M s v x y c' off' : inv kind stake N M s -> ~ in_set x -> x <> BelowThreshold ->
  kind !! v = Some y -> ~ in_set y -> c <= c' -> 0 <= off' -> c' + off' = c + L ->
  st_wp (set_validator_state (E:=LifecycleError) params v x c' off') (fun _ => kept_inv (validator_deltas s) v kind stake N M) s.
Proof.
  intros Hinv Hx Hb Hv Hout Hc' Hoff' He. pose proof pipeline_ok as HL.
  destruct (sets_inv_mid params c L pipeline_ok _ _ _ _ _ Hinv) as (n & X & Hmid & Hcon).
  assert (members kind !! v = None) as Hnone.
  { apply eq_None_not_Some. intros [z [Hz Hin]%members_Some]. congruence. }
  eapply st_wp_mono; [by eapply (mid_set_state_from params c L Hc pipeline_ok pipeline_fits)|]. cbv beta.
  intros _ s1 [Hmid1 _]. eapply mid_kept; [eauto|exact Hmid1| |apply Hinv|apply kept_refl|done].
  by apply con_mark.
Qed.

Lemma same_stake stake (v u : Address) : stake u = (<[v := stake v]> stake) u.
Proof. destruct (decide (u = v)) as [->|]; [by rewrite fn_lookup_insert|by rewrite fn_lookup_insert_ne]. Qed.

(** A member leaves the sets for good. *)
Lemma leave_consensus kind stake N M s v : inv kind stake N M s -> kind !! v = Some Consensus ->
  0 <= N -> N + 2 <= U64_MAX ->
  st_wp (st_bind (st_bind (remove_consensus_validator (E:=LifecycleError) params (c + L) v) (fun _ =>
           promote_next_below_capacity_validator_to_consensus params (c + L))) (fun _ =>
         set_validator_state params v Inactive c L)) (fun _ => kept_inv (validator_deltas s) v kind stake (N + 2) M) s.
Proof.
  intros Hinv Hv HN HN'. pose proof pipeline_ok as HL. pose proof pipeline_fits as HF.
  destruct (sets_inv_mid params c L HL _ _ _ _ _ Hinv) as (n & X & Hmid & Hcon).
  assert (members kind !! v = Some Consensus) as Hmv by (apply members_Some; split; [done|by left]).
  pose proof (si_stakes _ _ _ _ _ _ _ _ Hinv) as Hd. pose proof (deltas_fit _ _ _ _ _ _ Hd) as Hfit.
  do 2 apply st_wp_bind. eapply st_wp_mono; [by eapply (remove_consensus_ok params c L Hparams Hc HL HF)|].
  cbv beta. intros _ s1 Hmid1.
  eapply st_wp_mono; [eapply (promote_next_ok params c L Hparams Hc HL HF); [done|done|lia]|]. cbv beta.
  assert (~ in_set Inactive) as Hni by (by intros [|]).
  intros _ s2 [[Hmid2 Hno]|(w & Hw & Hmaxw & Hmid2 & _)];
    (eapply st_wp_mono; [by eapply (mid_set_state params c L Hc HL HF)|]); cbv beta; intros _ s3 Hmid3.
  - eapply mid_kept; [eauto|eapply mid_weaken; [exact Hmid3|lia]| |exact Hd|apply kept_refl|done].
    pose proof (con_leave params _ _ _ _ _ v (stake v) Inactive Hcon Hni ltac:(done)) as Hc'. rewrite Hmv in Hc'.
    eapply con_ext; [apply same_stake|]. apply Hc'. right. intros u Hu. apply (Hno u).
    rewrite lookup_delete_ne; congruence.
  - apply lookup_delete_Some in Hw as [Hne Hw]. rewrite (insert_insert_ne kind) in Hmid3 by done.
    replace (n - 1 + 1) with n in Hmid3 by lia.
    eapply mid_kept; [eauto|eapply mid_weaken; [exact Hmid3|lia]| |exact Hd| |done];
      [|eapply kept_member; [exact Hcon|exact Hw|apply kept_refl]].
    eapply con_ext; [apply same_stake|]. apply con_leave_promote; try done.
    intros u Hu. apply Hmaxw. rewrite lookup_delete_ne; congruence.
Qed.

Lemma leave_below_capacity kind stake N M s v : inv kind stake N M s -> kind !! v = Some BelowCapacity ->
  0 <= N ->
  st_wp (st_bind (remove_below_capacity_validator (E:=LifecycleError) params (c + L) v) (fun _ =>
         set_validator_state params v Inactive c L)) (fun _ => kept_inv (validator_deltas s) v kind stake (N + 2) M) s.
Proof.
  intros Hinv Hv HN. pose proof pipeline_ok as HL. pose proof pipeline_fits as HF.
  destruct (sets_inv_mid params c L HL _ _ _ _ _ Hinv) as (n & X & Hmid & Hcon).
  assert (members kind !! v = Some BelowCapacity) as Hmv by (apply members_Some; split; [done|by right]).
  pose proof (si_stakes _ _ _ _ _ _ _ _ Hinv) as Hd. assert (~ in_set Inactive) as Hni by (by intros [|]).
  apply st_wp_bind. eapply st_wp_mono; [by eapply (remove_below_ok params c L Hparams Hc HL HF)|].
  cbv beta. intros _ s1 Hmid1.
  eapply st_wp_mono; [by eapply (mid_set_state params c L Hc HL HF)|]; cbv beta; intros _ s3 Hmid3.
  eapply mid_kept; [eauto|eapply mid_weaken; [exact Hmid3|lia]| |exact Hd|apply kept_refl|done].
  pose proof (con_leave params _ _ _ _ _ v (stake v) Inactive Hcon Hni ltac:(done) (or_introl Hmv)) as Hc'.
  rewrite Hmv in Hc'. cbn [slots default from_option id] in Hc'. rewrite Z.sub_0_r in Hc'.
  by eapply con_ext; [apply same_stake|].
Qed.

Lemma inv_weaken kind stake N N' M s : inv kind stake N M s -> N <= N' -> inv kind stake N' M s.
Proof. intros [] HN. constructor; try done. intros u p Hp. specialize (si_bound u p Hp). lia. Qed.

Lemma kept_inv_weaken D v kind stake N N' M s : kept_inv D v kind stake N M s -> N <= N' ->
  kept_inv D v kind stake N' M s.
Proof.
  intros (Hv & kind' & Hinv & Hk) HN. split; [done|]. exists kind'. split; [|done].
  by eapply inv_weaken.
Qed.

(** An operation fails without a change, or keeps the invariant. *)
Definition step_ok (m : st ValidatorSets LifecycleError unit) (Q : ValidatorSets -> Prop) s : Prop :=
  (exists e, m s = (s, Err e)) \/ st_wp m (fun _ => Q) s.

Lemma step_bind {A} (m : st ValidatorSets LifecycleError A) k (Q : ValidatorSets -> Prop) s a :
  m s = (s, Ok a) -> step_ok (k a) Q s -> step_ok (st_bind m k) Q s.
Proof.
  intros Hm [[e He]|Hwp]; [left|right].
  - exists e. unfold st_bind. by rewrite Hm.
  - apply st_wp_bind. by exists s, a.
Qed.

Lemma step_fail {A} (m : st ValidatorSets LifecycleError A) k (Q : ValidatorSets -> Prop) s e :
  m s = (s, Err e) -> step_ok (st_bind m k) Q s.
Proof. intros Hm. left. exists e. unfold st_bind. by rewrite Hm. Qed.

Lemma deactivate_ok kind stake N M s v : inv kind stake N M s -> 0 <= N -> N + 2 <= U64_MAX ->
  step_ok (deactivate_validator params v c) (kept_inv (validator_deltas s) v kind stake (N + 2) M) s.
Proof.
  intros Hinv HN HN'. unfold step_ok, deactivate_validator.
  destruct (get_state_ok (E:=LifecycleError) kind s v (si_states _ _ _ _ _ _ _ _ Hinv)) as [Hget _].
  assert (~ in_set Inactive /\ ~ in_set BelowThreshold) as [Hni Hnb] by (by split; intros [|]).
  destruct (kind !! v) as [x|] eqn:Hv.
  2:{ left. eexists. unfold st_bind, st_lift, st_get. by rewrite pipeline_epoch_ok, Hget. }
  destruct x; try (left; eexists; unfold st_bind, st_lift, st_get; rewrite pipeline_epoch_ok, Hget; reflexivity);
    right; (st_lift ltac:(apply pipeline_epoch_ok)); st_get; (st_lift ltac:(exact Hget)); (st_lift ltac:(done)).
  - by apply leave_consensus.
  - by apply leave_below_capacity.
  - apply st_wp_bind, st_wp_ret. eapply st_wp_mono.
    + eapply mark_ok; try done; try lia. apply pipeline_ok.
    + cbv beta. intros _ s' Hs. eapply kept_inv_weaken; [exact Hs|lia].
Qed.

Lemma read_stake kind stake N M s v : inv kind stake N M s ->
  read_validator_stake (E:=LifecycleError) params s v (c + L) = Ok (stake v).
Proof.
  intros Hinv. pose proof pipeline_ok. pose proof pipeline_fits.
  eapply (read_stake_ok params c L); try done. apply Hinv.
Qed.

(** The epochs after which a slashed validator may come back fit. *)
Context (last_slash_epoch : Address -> option Epoch).
Context (Hslash : forall v e, last_slash_epoch v = Some e ->
  e + unbonding_len params + cubic_slashing_window_length params + 1 <= U64_MAX).

Lemma eligible_ok {E} v e : last_slash_epoch v = Some e -> exists off eligible,
  slash_processing_epoch_offset (E:=E) params = Ok off /\ epoch_add (E:=E) e off = Ok eligible.
Proof.
  intros He%Hslash. destruct Hparams as [_ _ _ (? & ? & ? & ? & ?)].
  unfold slash_processing_epoch_offset. rewrite u64_add_ok by lia. cbn [out_bind].
  rewrite u64_add_ok by lia. eexists _, _. split; [done|]. unfold epoch_add. apply u64_add_ok. lia.
Qed.

(** The slash of a validator allows it to come back, or not yet. *)
Lemma slash_check {E A} v (bad : Epoch -> st ValidatorSets E A) (good : st ValidatorSets E A) s :
  (match last_slash_epoch v with
   | Some e =>
       st_bind (st_lift (slash_processing_epoch_offset params)) (fun off =>
       st_bind (st_lift (epoch_add e off)) (fun eligible =>
       if c <? eligible then bad eligible else good))
   | None => good
   end) s = good s \/
  exists eligible, (match last_slash_epoch v with
   | Some e =>
       st_bind (st_lift (slash_processing_epoch_offset params)) (fun off =>
       st_bind (st_lift (epoch_add e off)) (fun eligible =>
       if c <? eligible then bad eligible else good))
   | None => good
   end) s = bad eligible s.
Proof.
  destruct (last_slash_epoch v) as [e|] eqn:He; [|by left].
  destruct (eligible_ok (E:=E) v e He) as (off & eligible & Hoff & Hel).
  unfold st_bind, st_lift. rewrite Hoff, Hel. destruct (c <? eligible); eauto.
Qed.

Lemma unjail_ok kind stake N M s v : inv kind stake N M s -> 0 <= N -> N + 2 <= U64_MAX ->
  step_ok (unjail_validator params (last_slash_epoch v) v c) (kept_inv (validator_deltas s) v kind stake (N + 2) M) s.
Proof.
  intros Hinv HN HN'. pose proof pipeline_ok. pose proof (si_states _ _ _ _ _ _ _ _ Hinv) as Hst.
  unfold unjail_validator. eapply step_bind; [unfold st_lift; by rewrite u64_add_ok by lia|].
  eapply step_bind; [unfold st_lift, iter_range; by rewrite u64_add_ok by lia|]. eapply step_bind; [done|].
  edestruct (check_states_ok kind s v Jailed) as [[Hck Hk]|[e Hck]]; [done| | |].
  3:{ eapply step_fail. unfold st_lift. by rewrite Hck. }
  { apply elem_of_seqZ. lia. }
  eapply step_bind; [unfold st_lift; by rewrite Hck|].
  destruct (slash_check (E:=LifecycleError) v (fun el => st_err (Unjail (NotEligible v el c))) (st_ret tt) s)
    as [Hs|[el Hs]]; [eapply step_bind; [exact Hs|]|eapply step_fail; exact Hs].
  eapply step_bind; [unfold st_lift; by rewrite pipeline_epoch_ok|].
  eapply step_bind; [unfold st_lift; by erewrite read_stake by done|].
  right. eapply insert_back_ok; try done. by intros [|].
Qed.

Lemma reactivate_ok kind stake N M s v : inv kind stake N M s -> 0 <= N -> N + 2 <= U64_MAX ->
  step_ok (reactivate_validator params (last_slash_epoch v) v c) (kept_inv (validator_deltas s) v kind stake (N + 2) M) s.
Proof.
  intros Hinv HN HN'. pose proof pipeline_ok. pose proof (si_states _ _ _ _ _ _ _ _ Hinv) as Hst.
  unfold reactivate_validator. eapply step_bind; [unfold st_lift; by rewrite pipeline_epoch_ok|].
  eapply step_bind; [done|].
  edestruct (check_states_ok kind s v Inactive) as [[Hck Hk]|[e Hck]]; [done| | |].
  3:{ eapply step_fail. unfold st_lift. by rewrite Hck. }
  { unfold iter_bounds_inclusive. apply elem_of_seqZ. lia. }
  eapply step_bind; [unfold st_lift; by rewrite Hck|].
  assert (~ in_set Inactive) as Hout by (by intros [|]).
  assert (exists jail, (match last_slash_epoch v with
    | Some e => st_bind (st_lift (slash_processing_epoch_offset params)) (fun off =>
        st_bind (st_lift (epoch_add e off)) (fun eligible => st_ret (c <? eligible)))
    | None => st_ret false
    end) s = (s, Ok (E:=LifecycleError) jail)) as [jail Hj].
  { destruct (last_slash_epoch v) as [e|] eqn:He; [|by eexists].
    destruct (eligible_ok (E:=LifecycleError) v e He) as (off & el & Ho & Hel).
    unfold st_bind, st_lift. rewrite Ho, Hel. by eexists. }
  eapply step_bind; [exact Hj|]. destruct jail.
  - right. eapply st_wp_mono.
    + eapply mark_ok; [exact Hinv|by intros [|]|done|done|done|lia..].
    + cbv beta. intros _ s' Hs. eapply kept_inv_weaken; [exact Hs|lia].
  - eapply step_bind; [unfold st_lift; by erewrite read_stake by done|]. right. by eapply insert_back_ok.
Qed.
(** A new validator has no deltas yet. *)
Lemma fresh_deltas {E} stake M D v : deltas_inv params c L stake M D -> D !! v = None ->
  stake v = 0 /\ exists h, delta_set (E:=E) (HD:=change_delta) deltas_past params 0 c L empty_epoched
      = (h, Ok tt) /\ deltas_inv params c L stake M (<[v := h]> D).
Proof.
  intros [HM Hd] Hv. pose proof pipeline_ok. pose proof (deltas_window_pos params Hparams).
  destruct (Hd v) as (Hs & F & HF & _ & Hep). rewrite Hv in HF. cbn [default] in HF.
  assert (stake v = 0) as Hz by (rewrite <- Hep; apply HF). split; [done|].
  destruct (delta_set_inv (E:=E) (change_delta_laws (HU:=HU)) OffsetPipelineLen deltas_past params L
    (deltas_window params) (deltas_past_value params Hparams) ltac:(lia) (fun _ => eq_refl) ltac:(lia)
    F M empty_epoched c L 0 0) as (h & Hrun & HF' & Hlu); try done; try lia.
  { change (M + Z.abs 0 <= MAX_SIGNED_VALUE). lia. }
  { cbn. rewrite i256_add_ok; [done|..]; try apply (dzero_law (DeltaLaws:=change_delta_laws (HU:=HU))). }
  exists h. split; [done|]. split; [done|]. intros u. destruct (decide (u = v)) as [->|Hne].
  - rewrite lookup_insert_eq. change (default empty_epoched (Some h)) with h. split; [lia|]. eexists. split_and!.
    + change (dval 0) with 0 in HF'. rewrite Z.add_0_r in HF'. exact HF'.
    + intros lu. rewrite Hlu. intros [= ->]. lia.
    + cbv beta. rewrite Hep. destruct (c + L <=? c + L); lia.
  - rewrite lookup_insert_ne by done. apply Hd.
Qed.

Lemma init_ok kind stake N M s v : inv kind stake N M s -> 0 <= N -> N + 2 <= U64_MAX ->
  0 < validator_stake_threshold params -> kind !! v = None -> validator_deltas s !! v = None ->
  st_wp (init_validator (E:=LifecycleError) params v c None)
    (fun _ => kept_inv (validator_deltas s) v (<[v := BelowThreshold]> kind) stake (N + 2) M) s.
Proof.
  intros Hinv HN HN' Hthr Hk Hfresh. pose proof pipeline_ok as HL. pose proof pipeline_fits as HF.
  destruct (sets_inv_mid params c L HL _ _ _ _ _ Hinv) as (n & X & Hmid & Hcon).
  destruct (fresh_deltas (E:=LifecycleError) _ _ _ v (si_stakes _ _ _ _ _ _ _ _ Hinv) Hfresh) as (Hz & h & Hrun & Hd).
  unfold init_validator. change (default L None) with L. st_lift ltac:(apply pipeline_epoch_ok). st_mod. st_get.
  change (deltas_handle (set_addresses _ s) v) with (default empty_epoched (validator_deltas s !! v)).
  rewrite Hfresh. cbn [default from_option]. change (id empty_epoched) with (@empty_epoched Z). rewrite Hrun.
  st_mod. st_lift ltac:(done). set (s1 := set_deltas _ _).
  assert (mid params c L (members kind) kind stake N n X (<[v := h]> (validator_deltas s)) s1) as Hmid1.
  { destruct Hmid. by constructor. }
  assert (members kind !! v = None) as Hnone.
  { apply eq_None_not_Some. intros [y [Hy _]%members_Some]. congruence. }
  apply st_wp_bind. eapply st_wp_mono; [by eapply (mid_set_state params c L Hc HL HF)|]; cbv beta; intros _ s2 Hmid2.
  rewrite <- Hz at 1. eapply st_wp_mono.
  - eapply (insert_ok params c L Hparams Hc HL HF); [exact Hmid2| |eapply deltas_fit; apply Hinv|done|done|done].
    apply con_mark; try done; [apply below_not_in|lia].
  - cbv beta. intros _ s3 (mem' & kind' & n' & X' & Hmid' & Hcon' & Hk'). eapply mid_kept; try done.
    + rewrite lookup_insert_eq. eauto.
    + intros u Hu. by rewrite lookup_insert_ne.
Qed.
(** ** Sequences of operations *)

(** Only new addresses become validators, only the stakes of validators change,
    no stake becomes negative, and the magnitudes of all changes fit together. *)
Fixpoint ops_valid (X : gset Address) stake (M : Z) (ops : list lifecycle_op) : Prop :=
  match ops with
  | [] => True
  | OpInit v :: ops => v ∉ X /\ ops_valid ({[v]} ∪ X) stake M ops
  | OpChangeStake v delta :: ops =>
      v ∈ X /\ i256_wf delta /\ 0 <= stake v + sval delta /\ M + Z.abs (sval delta) <= MAX_SIGNED_VALUE /\
      ops_valid X (<[v := stake v + sval delta]> stake) (M + Z.abs (sval delta)) ops
  | _ :: ops => ops_valid X stake M ops
  end.

Definition stakes_after stake (ops : list lifecycle_op) : Address -> Z :=
  foldl (fun stake o =>
    match o with OpChangeStake v delta => <[v := stake v + sval delta]> stake | _ => stake end) stake ops.

(** The validators are the domain of the recorded states; others have no deltas. *)
Definition registered (X : gset Address) kind s : Prop :=
  dom kind = X /\ forall v, v ∉ X -> validator_deltas s !! v = None.

Lemma kept_registered X kind kind0 stake N M s s' v : registered X kind s -> dom kind0 = {[v]} ∪ X ->
  kept_inv (validator_deltas s) v kind0 stake N M s' ->
  exists kind', inv kind' stake N M s' /\ dom kind' = {[v]} ∪ X /\ registered ({[v]} ∪ X) kind' s'.
Proof.
  intros [Hdom Hfr] Hdom0 (_ & kind' & Hinv' & [Hsub Hkeep] & HD).
  assert (dom kind' = {[v]} ∪ X) as Hd'.
  { apply set_eq. intros u. split; [|rewrite <- Hdom0; auto]. intros Hu.
    destruct (decide (u = v)) as [->|Hne]; [set_solver|]. destruct (decide (u ∈ dom kind0)) as [|Hn]; [set_solver|].
    apply not_elem_of_dom in Hn. apply elem_of_dom in Hu as [x Hx].
    rewrite Hkeep in Hx; [congruence|done|congruence|congruence]. }
  exists kind'. split_and!; [done|done|]. split; [done|]. intros u Hu. rewrite HD by set_solver. apply Hfr. set_solver.
Qed.

(** What an operation leaves for the operations after it *)
Definition op_done (o : lifecycle_op) (ops : list lifecycle_op) stake (N : Z) s s1 : Prop :=
  (run_op params last_slash_epoch c o s = (s1, Ok tt) \/
   (exists e, run_op params last_slash_epoch c o s = (s, Err e)) /\ s1 = s) /\
  exists X' kind' M', inv kind' (stakes_after stake [o]) N M' s1 /\ registered X' kind' s1 /\
    ops_valid X' (stakes_after stake [o]) M' ops.

Lemma step_done o v X kind stake N M s ops : inv kind stake N M s -> registered X kind s ->
  step_ok (run_op params last_slash_epoch c o) (kept_inv (validator_deltas s) v kind stake (N + 2) M) s ->
  stakes_after stake [o] = stake -> ops_valid X stake M ops -> exists s1, op_done o ops stake (N + 2) s s1.
Proof.
  intros Hinv Hreg Hstep Hst Hval. unfold op_done. rewrite Hst. destruct Hstep as [He|(s1 & [] & Hrun & Hkept)].
  - exists s. split; [by right|]. exists X, kind, M. split_and!; [|done|done]. eapply inv_weaken; [done|lia].
  - exists s1. split; [by left|]. pose proof Hkept as [Hv _]. destruct Hreg as [Hdom Hfr].
    assert ({[v]} ∪ X = X) as HX by set_solver.
    destruct (kept_registered X kind kind _ _ _ s s1 v (conj Hdom Hfr) ltac:(by rewrite HX) Hkept)
      as (kind' & Hinv' & Hd' & Hreg').
    exists X, kind', M. rewrite HX in Hreg'. done.
Qed.

Lemma run_op_done o ops X kind stake N M s : inv kind stake N M s -> registered X kind s ->
  0 < validator_stake_threshold params -> ops_valid X stake M (o :: ops) -> 0 <= N -> N + 2 <= U64_MAX ->
  exists s1, op_done o ops stake (N + 2) s s1.
Proof.
  intros Hinv Hreg Hthr Hval HN HN'. destruct o as [v|v delta|v|v|v]; cbn [ops_valid] in Hval.
  - destruct Hval as [Hv Hval]. pose proof Hreg as [Hdom Hfr].
    destruct (init_ok kind stake N M s v) as (s1 & [] & Hrun & Hkept); try done; auto.
    { apply not_elem_of_dom. by rewrite Hdom. }
    destruct (kept_registered X kind (<[v := BelowThreshold]> kind) stake (N + 2) M s s1 v)
      as (kind' & Hinv' & Hd' & Hreg'); [done|by rewrite dom_insert_L, Hdom|done|].
    exists s1. split; [by left|]. by exists ({[v]} ∪ X), kind', M.
  - destruct Hval as (Hv & Hwf & Hnn & Hm & Hval). pose proof Hreg as [Hdom Hfr].
    destruct (change_stake_ok kind stake N M s v delta) as (s1 & [] & Hrun & Hkept); try done; [by rewrite Hdom|].
    assert ({[v]} ∪ X = X) as HX by set_solver.
    destruct (kept_registered X kind kind _ _ _ s s1 v Hreg ltac:(by rewrite HX) Hkept)
      as (kind' & Hinv' & Hd' & Hreg').
    exists s1. split; [by left|]. exists X, kind', (M + Z.abs (sval delta)). rewrite HX in Hreg'. done.
  - eapply step_done; try done. by apply deactivate_ok.
  - eapply step_done; try done. by apply reactivate_ok.
  - eapply step_done; try done. by apply unjail_ok.
Qed.

Lemma run_ops_inv ops : forall X kind stake N M s, inv kind stake N M s -> registered X kind s ->
  0 < validator_stake_threshold params -> ops_valid X stake M ops ->
  0 <= N -> N + 2 * Z.of_nat (length ops) <= U64_MAX ->
  st_wp (run_ops params last_slash_epoch c ops)
    (fun _ s' => exists kind' M', inv kind' (stakes_after stake ops) (N + 2 * Z.of_nat (length ops)) M' s') s.
Proof.
  induction ops as [|o ops IH]; intros X kind stake N M s Hinv Hreg Hthr Hval HN HN'.
  { apply st_wp_ret. exists kind, M. cbn. by rewrite Z.add_0_r. }
  cbn [length] in HN'. rewrite Nat2Z.inj_succ in HN'.
  destruct (run_op_done o ops X kind stake N M s) as (s1 & Hrun & X' & kind' & M' & Hinv' & Hreg' & Hval');
    try done; [lia|].
  apply st_wp_bind. exists s1, tt. split.
  - cbv beta. destruct Hrun as [-> |[[e ->] ->]]; done.
  - eapply st_wp_mono; [eapply (IH X' kind' _ (N + 2) M'); try done; lia|]. cbv beta.
    intros _ s' (kind2 & M2 & Hinv2). exists kind2, M2. cbn [length]. rewrite Nat2Z.inj_succ.
    by replace (N + 2 * Z.succ (Z.of_nat (length ops))) with (N + 2 + 2 * Z.of_nat (length ops)) by lia.
Qed.
End lifecycle_steps.

Definition empty_sets : ValidatorSets :=
  mkSets empty_epoched empty_epoched empty_epoched empty_epoched ∅ ∅.

Lemma empty_inv {U : UintOps} {HU : UintLaws U} params c : params_ok params -> 0 <= c ->
  sets_inv params c (pipeline_len params) ∅ (fun _ => 0) 0 0 empty_sets.
Proof.
  intros Hparams Hc. pose proof (ok_slots _ Hparams). constructor; try done.
  - intros k p v. unfold consensus_at, at_epoch. cbn. rewrite !lookup_empty. naive_solver.
  - intros k p v. unfold below_capacity_at, at_epoch. cbn. rewrite !lookup_empty. naive_solver.
  - intros v. unfold positions_at, at_epoch. cbn. rewrite lookup_empty. split; [by intros [? ?]|].
    intros (x & Hx & _). by rewrite lookup_empty in Hx.
  - intros v. unfold state_handle. cbn. rewrite !lookup_empty. cbn. split; [done|].
    intros x. split; [done|]. by intros ?%in_effect_empty.
  - split; [rewrite MAX_SIGNED_VALUE_eq; lia|]. intros v. split; [lia|]. exists (fun _ => 0).
    change (validator_deltas empty_sets) with (∅ : gmap Address (epoched Z)). rewrite lookup_empty.
    split_and!; done.
  - change (Z.of_nat (size (∅ : gmap (Z * Z) Address)) <= max_validator_slots params). rewrite map_size_empty. lia.
Qed.

(** Three validators compete for one slot. *)
Definition one_slot : PosParams := mkPosParams
  (mkOwned 1 2 21 (10 ^ 12) 0 0 0 0 (10 ^ 9) (10 ^ 9) 1 1000000 10000 0 0 0) 27.
Definition sample_ops : list lifecycle_op :=
  [OpInit (Established 1); OpChangeStake (Established 1) 2000000; OpInit (Established 2);
   OpChangeStake (Established 2) 3000000; OpInit (Established 3); OpChangeStake (Established 3) 1500000;
   OpDeactivate (Established 2); OpUnjail (Established 1); OpChangeStake (Established 1) (srep (-1200000))].

(** A promotion forgets the present. The state of the promoted validator is
    set with the pipeline epoch as the current epoch, so the states before its
    window are dropped: with a pipeline of more than two epochs a validator that
    is promoted because another one is deactivated or jailed has no state any more
    at the current epoch, although it had one before. *)
Theorem promotion_forgets_current_state {U : UintOps} {HU : UintLaws U} (params : PosParams) (c : Z)
    (kind : gmap Address ValidatorState) (stake : Address -> Z) (N M : Z) (s : ValidatorSets) (u : Address) :
  params_ok params -> 2 < pipeline_len params -> 0 <= c -> c + 2 * pipeline_len params <= U64_MAX ->
  sets_inv params c (pipeline_len params) kind stake N M s -> 0 <= N < U64_MAX ->
  kind !! u = Some BelowCapacity ->
  (forall w, kind !! w = Some BelowCapacity ->
    exists x, get_validator_state (E:=unit) params s w c = Ok (Some x)) ->
  exists s' w x, promote_next_below_capacity_validator_to_consensus (E:=unit) params (c + pipeline_len params) s
                 = (s', Ok tt) /\
    get_validator_state (E:=unit) params s w c = Ok (Some x) /\
    get_validator_state (E:=unit) params s' w c = Ok None.
Proof.
  intros Hparams HL Hc Hmax Hinv HN Hu Hbefore. set (L := pipeline_len params) in *.
  destruct (sets_inv_mid params c L ltac:(lia) _ _ _ _ _ Hinv) as (n & X & Hmid & Hcon).
  pose proof (deltas_fit _ _ _ _ _ _ (si_stakes _ _ _ _ _ _ _ _ Hinv)) as Hfit.
  destruct (promote_next_ok (E:=unit) params c L Hparams Hc ltac:(lia) ltac:(lia) _ _ _ _ _ _ _ _ Hmid Hfit HN)
    as (s' & [] & Hrun & [[_ Hno]|(w & [Hw _]%members_Some & _ & Hmid' & Hlast)]).
  { exfalso. apply (Hno u), members_Some. split; [done|by right]. }
  destruct (Hbefore w Hw) as [x Hx]. exists s', w, x. split_and!; [done|done|].
  destruct (mid_states _ _ _ _ _ _ _ _ _ _ _ Hmid' w) as [Hlive _].
  eapply (get_before_window OffsetPipelineLen OffsetDefaultNumPastEpochs params L DEFAULT_NUM_PAST_EPOCHS);
    try exact Hlive; try exact Hlast; try done; unfold window_start, DEFAULT_NUM_PAST_EPOCHS; lia.
Qed.

(** A pipeline of three epochs, one slot, and two validators that are below the
    threshold since epoch 8 and get stake for epoch 11 *)
Definition long_pipeline : PosParams := mkPosParams
  (mkOwned 1 3 21 (10 ^ 12) 0 0 0 0 (10 ^ 9) (10 ^ 9) 1 1000000 10000 0 0 0) 27.
Definition two_new : ValidatorSets :=
  let h := mkEpoched (Some 8) (Some 8) {[8 := BelowThreshold]} in
  mkSets empty_epoched empty_epoched empty_epoched empty_epoched {[Established 1 := h; Established 2 := h]} ∅.
Definition two_staked : ValidatorSets :=
  (run_ops (U:=Ref.uint_ref) long_pipeline (fun _ => None) 8
     [OpChangeStake (Established 1) 3000000; OpChangeStake (Established 2) 2000000] two_new).1.

Lemma two_new_inv : sets_inv (HU:=Ref.uint_ref_laws) long_pipeline 8 3
  {[Established 1 := BelowThreshold; Established 2 := BelowThreshold]} (fun _ => 0) 0 0 two_new.
Proof.
  assert (forall v x, ({[Established 1 := BelowThreshold; Established 2 := BelowThreshold]}
    : gmap Address ValidatorState) !! v = Some x -> x = BelowThreshold) as Hk.
  { intros v x [[_ <-]|[_ [_ <-]%lookup_singleton_Some]]%lookup_insert_Some; done. }
  constructor; try done.
  - intros k p v. unfold consensus_at, positions_at, at_epoch. cbn. rewrite !lookup_empty. naive_solver.
  - intros k p v. unfold below_capacity_at, positions_at, at_epoch. cbn. rewrite !lookup_empty. naive_solver.
  - intros v. unfold positions_at, at_epoch. cbn. rewrite lookup_empty. split; [by intros [? ?]|].
    intros (x & ->%Hk & [|]); done.
  - assert (forall x, in_effect {[8 := BelowThreshold]} 11 x <-> x = BelowThreshold) as Hin.
    { intros x. split.
      - intros (e & _ & [_ <-]%lookup_singleton_Some & _). done.
      - intros ->. exists 8. split_and!; [lia|done|]. intros e He. apply lookup_singleton_None. lia. }
    assert (live_at 3 2 11 11 (mkEpoched (Some 8) (Some 8) {[8 := BelowThreshold]})) as Hlive.
    { unfold live_at. cbn [last_update oldest_epoch data].
      split_and!; [lia|lia| | |exists 8; split_and!; [done|lia|lia|]].
      - unfold window_start. intros e He. apply lookup_singleton_None. lia.
      - intros e v [<- _]%lookup_singleton_Some. lia.
      - intros e He. apply lookup_singleton_None. lia. }
    intros v. unfold state_handle, two_new. cbn [validator_states].
    destruct (decide (v = Established 1)) as [->|H1]; [|destruct (decide (v = Established 2)) as [->|H2]].
    + rewrite !lookup_insert_eq. split; [exact Hlive|intros x; rewrite Hin; split; congruence].
    + rewrite !lookup_insert_ne, !lookup_singleton_eq by done.
      split; [exact Hlive|intros x; rewrite Hin; split; congruence].
    + rewrite !lookup_insert_ne, !lookup_singleton_ne by done. split; [done|].
      intros x. split; [done|]. by intros ?%in_effect_empty.
  - split; [rewrite MAX_SIGNED_VALUE_eq; lia|]. intros v. split; [lia|]. exists (fun _ => 0).
    change (validator_deltas two_new) with (∅ : gmap Address (epoched Z)). rewrite lookup_empty.
    split_and!; done.
  - intros v x ->%Hk [|]; done.
  - intros v ?%Hk. done.
Qed.

Lemma promotion_forgets_current_state_witness :
  exists s' w x, promote_next_below_capacity_validator_to_consensus (U:=Ref.uint_ref) (E:=unit) long_pipeline 11
                   two_staked = (s', Ok tt) /\
    get_validator_state (E:=unit) long_pipeline two_staked w 8 = Ok (Some x) /\
    get_validator_state (E:=unit) long_pipeline s' w 8 = Ok None.
Proof.
  assert (params_ok long_pipeline) as Hp by (constructor; cbn; unfold U64_MAX; lia).
  destruct (run_ops_inv (HU:=Ref.uint_ref_laws) long_pipeline 8 Hp ltac:(lia) ltac:(vm_compute; discriminate)
    (fun _ => None) ltac:(done) [OpChangeStake (Established 1) 3000000; OpChangeStake (Established 2) 2000000]
    {[Established 1; Established 2]} _ _ _ _ two_new two_new_inv) as (s & [] & Hrun & kind & M & Hinv).
  - split; [by rewrite dom_insert_L, dom_singleton_L|]. intros. apply lookup_empty.
  - cbn. lia.
  - cbn [ops_valid]. split_and!; try set_solver; try (split; vm_compute; discriminate);
      try (vm_compute; discriminate); try done.
  - lia.
  - vm_compute. discriminate.
  - assert (s = two_staked) as -> by (unfold two_staked; by rewrite Hrun). clear Hrun.
    assert (kind !! Established 2 = Some BelowCapacity) as Hu.
    { pose proof (get_state_ok (E:=unit) long_pipeline 8 Hp ltac:(lia) ltac:(vm_compute; discriminate) kind two_staked
        (Established 2) (si_states _ _ _ _ _ _ _ _ Hinv)) as [Hg _].
      assert (get_validator_state (E:=unit) long_pipeline two_staked (Established 2) 11 = Ok (Some BelowCapacity))
        as Hv by (vm_compute; reflexivity).
      change (8 + pipeline_len long_pipeline) with 11 in Hg. congruence. }
    eapply (promotion_forgets_current_state (HU:=Ref.uint_ref_laws) long_pipeline 8 kind _ _ M two_staked (Established 2));
      [done|done|lia|vm_compute; discriminate|exact Hinv|split; [vm_compute; discriminate|vm_compute; reflexivity]|done|].
    intros w Hw. exists BelowThreshold.
    assert (w = Established 2) as ->; [|by vm_compute].
    destruct (proj2 (si_positions _ _ _ _ _ _ _ _ Hinv w)) as [p Hpos]; [by exists BelowCapacity; split; [|right]|].
    pose proof (proj2 (si_below _ _ _ _ _ _ _ _ Hinv _ p w) (conj Hpos (conj Hw eq_refl))) as Hb.
    assert (below_capacity_at two_staked 11 = {[(MAX_SIGNED_VALUE - 2000000, 0) := Established 2]}) as He
      by (vm_compute; reflexivity).
    change (8 + pipeline_len long_pipeline) with 11 in Hb. rewrite He in Hb.
    by apply lookup_singleton_Some in Hb as [_ <-].
Defined.
