(* ===== verification/ValidatorEpochs.v ===== *)
(** * The validator sets over several epochs

    At the start of an epoch the shell copies the validator sets and positions of
    the last epoch of the pipeline to the new one
    ([copy_validator_sets_and_positions], called by [finalize_block]). This file
    runs the operations of [Lifecycle] through any number of epochs.

    The theorem: the invariant of the validator sets is kept by every such run. A
    validator that is deactivated in one epoch can be reactivated some epochs
    later, and one that is jailed because it comes back too early can be
    unjailed. *)

From stdpp Require Import sorting functions base numbers list gmap.
From Stdlib Require Import ZArith Lia.
From S2P Require Import Prelude Uint Int256 Dec Keys Epoch Params Epoched ValidatorSet ValidatorSetInv Lifecycle.

Local Open Scope Z_scope.

(** ** Runs over epochs *)
Section runs.
Context {U : UintOps} (params : PosParams) (last_slash_epoch : Address -> option Epoch).
Notation E := LifecycleError.
Local Open Scope st_scope.

(** The start of [current_epoch] in [finalize_block] *)
Definition begin_epoch {E} (current_epoch : Epoch) : st ValidatorSets E unit :=
  let! target := st_lift (epoch_add current_epoch (pipeline_len params)) in
  copy_validator_sets_and_positions params current_epoch target.

(** The operations of each of the following epochs *)
Fixpoint run_epochs (current_epoch : Epoch) (epochs : list (list lifecycle_op)) : st ValidatorSets E unit :=
  match epochs with
  | [] => st_ret tt
  | ops :: epochs =>
      do! begin_epoch current_epoch in
      do! run_ops params last_slash_epoch current_epoch ops in
      run_epochs (current_epoch + 1) epochs
  end.

(** The rest of an epoch, and the epochs after it *)
Definition run_history (current_epoch : Epoch) (ops : list lifecycle_op) (epochs : list (list lifecycle_op))
  : st ValidatorSets E unit :=
  do! run_ops params last_slash_epoch current_epoch ops in run_epochs (current_epoch + 1) epochs.
End runs.

(** ** The operations write no set beyond the pipeline epoch *)
Section frame.
Context {U : UintOps} (params : PosParams) (ep : Z).
Implicit Types (s : ValidatorSets) (h : SetHandle).

Definition beyond s : Prop := forall e, ep < e ->
  data (consensus_validator_sets s) !! e = None /\ data (below_capacity_validator_sets s) !! e = None /\
  data (validator_set_positions s) !! e = None.
Definition still_beyond (s s' : ValidatorSets) : Prop := beyond s -> beyond s'.
#[local] Instance still_beyond_preorder : PreOrder still_beyond.
Proof. split; unfold Reflexive, Transitive, still_beyond; auto. Qed.
Definition kept {E A} (m : st ValidatorSets E A) : Prop := st_keeps still_beyond m.

Lemma kept_bind {E A B} (m : st ValidatorSets E A) (k : A -> st ValidatorSets E B) :
  kept m -> (forall a, kept (k a)) -> kept (st_bind m k).
Proof. apply keeps_bind; apply _. Qed.
Lemma kept_lift {E A B} (o : outcome E A) (k : A -> st ValidatorSets E B) :
  (forall a, o = Ok a -> kept (k a)) -> kept (st_bind (st_lift o) k).
Proof. intros Hk s Hs. unfold st_bind, st_lift. destruct o as [a| |]; [by apply Hk|done..]. Qed.
Lemma kept_mod {E} f : (forall s, beyond s -> beyond (f s)) -> kept (E:=E) (st_mod f).
Proof. intros Hf s Hs. by apply Hf. Qed.
Lemma kept_pure {E A} (f : ValidatorSets -> outcome E A) : kept (fun s => (s, f s)).
Proof. apply keeps_same; apply _. Qed.

Lemma beyond_write_set h m s : beyond s -> beyond (write_set h ep m s).
Proof. intros Hs e He. destruct (Hs e He) as (? & ? & ?). destruct h; cbn; rewrite lookup_insert_ne by lia; done. Qed.
Lemma beyond_write_positions P s : beyond s -> beyond (write_positions ep P s).
Proof. intros Hs e He. destruct (Hs e He) as (? & ? & ?). cbn. rewrite lookup_insert_ne by lia. done. Qed.

Lemma handle_insert_kept {E} h p a : kept (E:=E) (handle_insert h ep p a).
Proof. apply kept_mod. intros s. apply beyond_write_set. Qed.
Lemma handle_remove_kept {E} h p : kept (E:=E) (handle_remove h ep p).
Proof. intros s Hs. by apply beyond_write_set. Qed.
Lemma remove_position_kept {E} v : kept (E:=E) (remove_position v ep).
Proof. apply kept_mod. intros s. apply beyond_write_positions. Qed.
Lemma write_position_kept {E} f : kept (E:=E) (st_mod (fun s => write_positions ep (f s) s)).
Proof. apply kept_mod. intros s. apply beyond_write_positions. Qed.
Lemma set_state_kept {E} v x c off : kept (E:=E) (set_validator_state params v x c off).
Proof. intros s Hs e He. exact (Hs e He). Qed.
Lemma update_deltas_kept {E} v d c off : kept (E:=E) (update_validator_deltas params v d c off).
Proof.
  unfold update_validator_deltas. apply kept_lift. intros e _. apply kept_bind; [apply kept_pure|]. intros h.
  apply kept_lift. intros sum _. apply kept_lift. intros x _. apply kept_bind; [|intros; apply kept_pure].
  apply kept_mod. intros s Hs e' He'. exact (Hs e' He').
Qed.

Create HintDb kept.
#[local] Hint Resolve handle_insert_kept handle_remove_kept remove_position_kept
  write_position_kept set_state_kept update_deltas_kept : kept.
Ltac kept_step :=
  first [ apply kept_pure | progress eauto 1 with kept
        | apply kept_lift; intros ? ?
        | apply kept_bind; [|intros ?]
        | case_match ].
Ltac kept_all := cbv zeta; repeat kept_step.

Lemma insert_into_set_kept {E} h v : kept (E:=E) (insert_validator_into_set h ep v).
Proof. unfold insert_validator_into_set. kept_all. Qed.
#[local] Hint Resolve insert_into_set_kept : kept.
Lemma promote_max_kept {E} a c off : kept (E:=E) (promote_max_below_capacity params a ep c off).
Proof. unfold promote_max_below_capacity. kept_all. Qed.
Lemma remove_consensus_kept {E} v : kept (E:=E) (remove_consensus_validator params ep v).
Proof. unfold remove_consensus_validator. kept_all. Qed.
Lemma remove_below_kept {E} v : kept (E:=E) (remove_below_capacity_validator params ep v).
Proof. unfold remove_below_capacity_validator. kept_all. Qed.
#[local] Hint Resolve promote_max_kept remove_consensus_kept remove_below_kept : kept.
Lemma promote_next_kept {E} : kept (E:=E) (promote_next_below_capacity_validator_to_consensus params ep).
Proof. unfold promote_next_below_capacity_validator_to_consensus. kept_all. Qed.
#[local] Hint Resolve promote_next_kept : kept.

Context (c : Z) (Hep : ep = c + pipeline_len params).
Lemma pipeline_epoch_is {E} e : epoch_add (E:=E) c (pipeline_len params) = Ok e -> e = ep.
Proof using Hep. unfold epoch_add, u64_add. intros [-> _]%unwrap_Ok%u64_checked_add_Some. by rewrite Hep. Qed.
Ltac kept_epoch := match goal with H : epoch_add c _ = Ok ?e |- _ => apply pipeline_epoch_is in H as ->; kept_all end.

Lemma demote_kept {E} v a b : kept (E:=E) (insert_into_consensus_and_demote_to_below_cap params v a b c (pipeline_len params) ep).
Proof using Hep. unfold insert_into_consensus_and_demote_to_below_cap. kept_all; kept_epoch. Qed.
#[local] Hint Resolve demote_kept : kept.
Lemma insert_kept {E} v a : kept (E:=E) (insert_validator_into_validator_set params v a c (pipeline_len params)).
Proof using Hep. unfold insert_validator_into_validator_set. apply kept_lift. intros e ->%pipeline_epoch_is. kept_all. Qed.
Lemma update_set_kept {E} v d : kept (E:=E) (update_validator_set params v d c None).
Proof using Hep.
  unfold update_validator_set, update_consensus_validator, update_below_capacity_validator, update_below_threshold_validator.
  case_match; [apply kept_pure|]. cbn [default from_option id]. apply kept_lift. intros e ->%pipeline_epoch_is. kept_all.
Qed.
#[local] Hint Resolve insert_kept update_set_kept : kept.

Lemma run_op_kept last_slash_epoch o : kept (run_op params last_slash_epoch c o).
Proof using Hep.
  destruct o as [v|v d|v|v|v]; cbn [run_op].
  - unfold init_validator. cbn [default from_option id]. apply kept_lift. intros e ->%pipeline_epoch_is.
    apply kept_bind; [apply kept_mod; intros s Hs e He; exact (Hs e He)|]. intros _. apply kept_bind; [apply kept_pure|].
    intros h. apply kept_bind; [apply kept_mod; intros s Hs e He; exact (Hs e He)|]. intros _. kept_all.
  - unfold change_stake. kept_all.
  - unfold deactivate_validator. apply kept_lift. intros e ->%pipeline_epoch_is. kept_all.
  - unfold reactivate_validator. kept_all.
  - unfold unjail_validator. kept_all.
Qed.
Lemma run_ops_kept last_slash_epoch ops : kept (run_ops params last_slash_epoch c ops).
Proof using Hep.
  unfold run_ops. induction ops as [|o ops IH]; [apply kept_pure|]. cbn [st_iter]. apply kept_bind; [|done].
  intros s Hs. pose proof (run_op_kept last_slash_epoch o s Hs) as Ho. by destruct (run_op _ _ _ _ _) as [s' []].
Qed.
End frame.

(** ** The copy of the sets *)
Section copying.
Context {U : UintOps} {HU : UintLaws U} {E : Type} (params : PosParams) (Hparams : params_ok params).
Implicit Types (s : ValidatorSets).

Lemma insert_all_lookup {K V} `{Countable K} (l : list (K * V)) : forall (m : gmap K V) k v, NoDup l.*1 ->
  (foldl (fun m e => <[e.1 := e.2]> m) m l !! k = Some v <-> (k, v) ∈ l \/ k ∉ l.*1 /\ m !! k = Some v).
Proof.
  induction l as [|[k0 v0] l IH]; intros m k v Hnd; cbn [foldl fmap list_fmap fst snd].
  { rewrite !elem_of_nil. naive_solver. }
  apply list.NoDup_cons in Hnd as [Hk0 Hnd]. rewrite (IH _ _ _ Hnd), lookup_insert_Some, !elem_of_cons. cbn [fst snd].
  assert ((k, v) ∈ l -> k ∈ l.*1) by (intros Hin; apply list_elem_of_fmap; by exists (k, v)). split.
  - intros [?|[Hn [[<- <-]|[Hne Hm]]]]; [by left; right|by left; left|]. right. split; [|done]. by intros [->|?].
  - intros [[[= -> ->]|?]|[Hn Hm]]; [right; split; [done|by left]|by left|]. right. split; [|right]; [|split; [|done]]; [naive_solver|].
    intros ->. apply Hn. by left.
Qed.
Lemma copy_entries_ok (key : Z -> outcome E Z) (m : gmap (Z * Z) Address) :
  (forall k p v, m !! (k, p) = Some v -> key k = Ok k) -> copy_entries key m ∅ = Ok m.
Proof.
  intros Hkey. unfold copy_entries.
  assert (forall l (to : gmap (Z * Z) Address), (forall e, e ∈ l -> key e.1.1 = Ok e.1.1) ->
    out_fold (fun (m : gmap (Z * Z) Address) (e : Z * Z * Address) => (let* k := key e.1.1 in Ok (<[(k, e.1.2) := e.2]> m))%out) l to
    = Ok (foldl (fun m e => <[e.1 := e.2]> m) to l)) as Hf.
  { induction l as [|[[k p] v] l IH]; intros to Hl; cbn [out_fold foldl]; [done|]. cbn [fst snd].
    pose proof (Hl (k, p, v) ltac:(by left)) as Hk. cbn [fst snd] in Hk. rewrite Hk. cbn [out_bind]. apply IH. intros e He. apply Hl. by right. }
  rewrite Hf by (intros [[k p] v] He%elem_of_set_list; by eapply Hkey). f_equal. apply map_eq. intros kp. apply option_eq. intros v.
  rewrite insert_all_lookup, lookup_empty.
  - rewrite elem_of_set_list. cbn. naive_solver.
  - unfold set_list. rewrite sort_le_perm. apply NoDup_fst_map_to_list.
Qed.

(** Trimming a nested handle leaves the current and future epochs. *)
Lemma foldl_delete_lookup {D} l (d : gmap Z D) e : e ∉ l -> foldl (fun d e => delete e d) d l !! e = d !! e.
Proof.
  revert d. induction l as [|x l IH]; intros d He; cbn [foldl]; [done|]. apply not_elem_of_cons in He as [Hx He].
  rewrite IH by done. by apply lookup_delete_ne.
Qed.
Lemma nested_update_ok {D} past pv c (h : epoched D) : (forall E, offset_value (E:=E) past params = Ok pv) -> 0 <= pv ->
  0 <= c <= U64_MAX ->
  exists h', nested_update_data (E:=E) past params c h = (h', Ok tt) /\ forall e, c <= e -> data h' !! e = data h !! e.
Proof using Hparams.
  intros Hpv Hpv0 Hc. unfold nested_update_data. destruct (last_update h) as [lu|]; [|by exists h].
  destruct (oldest_epoch h) as [o|]; [|by exists h].
  pose proof (sub_past_ok (E:=E) past params pv Hpv c (proj1 Hc)) as Hs.
  assert (window_start pv c <= c) by (unfold window_start; lia).
  unfold st_bind, st_lift, st_mod. rewrite Hs. destruct (Z.ltb_spec o (window_start pv c)); [|by exists h].
  unfold epoch_sub, iter_range. rewrite u64_sub_ok by lia. rewrite u64_add_ok by lia. cbn [out_bind].
  eexists. split; [done|]. cbn. intros e He. apply foldl_delete_lookup. rewrite elem_of_seqZ. lia.
Qed.
Lemma on_handle_ok {D} (get_h : ValidatorSets -> epoched D) set_h past pv c s (Q : ValidatorSets -> Prop) :
  (forall E, offset_value (E:=E) past params = Ok pv) -> 0 <= pv -> 0 <= c <= U64_MAX ->
  (forall h', (forall e, c <= e -> data h' !! e = data (get_h s) !! e) -> Q (set_h h' s)) ->
  st_wp (on_handle (E:=E) get_h set_h (nested_update_data past params c)) (fun _ => Q) s.
Proof using Hparams.
  intros Hpv Hpv0 Hc HQ. destruct (nested_update_ok past pv c (get_h s) Hpv Hpv0 Hc) as (h' & Hrun & Hd).
  exists (set_h h' s), tt. split; [|by apply HQ]. unfold on_handle, st_bind, st_get, st_mod, st_lift. by rewrite Hrun.
Qed.
Lemma proposal_offset : forall E, offset_value (E:=E) OffsetMaxProposalPeriodPlus params = Ok (max_proposal_period params + DEFAULT_NUM_PAST_EPOCHS).
Proof using Hparams.
  intros E'. destruct Hparams as [_ _ _ (? & ? & ? & ? & ?)]. unfold offset_value. apply u64_add_ok. unfold DEFAULT_NUM_PAST_EPOCHS. lia.
Qed.

Lemma invert_twice k : 0 <= k <= MAX_SIGNED_VALUE -> (let* stake := invert (E:=E) k in invert stake)%out = Ok k.
Proof using HU.
  intros Hk. unfold invert, amount_sub. rewrite uint_sub_ok; [cbn [out_bind]; rewrite uint_sub_ok; [f_equal; lia|..]|..];
    unfold in_u256; rewrite ?MAX_VALUE_eq; rewrite MAX_SIGNED_VALUE_eq in *; lia.
Qed.

(** The sets of the last epoch of the pipeline, with nothing after it, become
    those of the next epoch. *)
Record copied (ep ep' : Z) s s' : Prop := {
  cp_consensus : consensus_at s' ep' = consensus_at s ep;
  cp_below : below_capacity_at s' ep' = below_capacity_at s ep;
  cp_positions : positions_at s' ep' = positions_at s ep;
  cp_states : validator_states s' = validator_states s;
  cp_deltas : validator_deltas s' = validator_deltas s;
  cp_beyond : beyond ep' s'
}.
Lemma begin_epoch_copies c s : 0 < c -> c + pipeline_len params <= U64_MAX -> beyond (c + pipeline_len params - 1) s ->
  (forall k p v, below_capacity_at s (c + pipeline_len params - 1) !! (k, p) = Some v -> 0 <= k <= MAX_SIGNED_VALUE) ->
  st_wp (begin_epoch (E:=E) params c) (fun _ => copied (c + pipeline_len params - 1) (c + pipeline_len params) s) s.
Proof using HU Hparams.
  intros Hc Hmax Hb Hkeys. pose proof (ok_pipeline _ Hparams) as HL. unfold begin_epoch, epoch_add. st_lift ltac:(by apply u64_add_ok).
  set (ep' := c + pipeline_len params) in *. unfold copy_validator_sets_and_positions, epoch_prev. st_lift ltac:(apply u64_sub_ok; lia).
  set (ep := ep' - 1) in *. st_get. destruct (Hb ep' ltac:(lia)) as (Hb1 & Hb2 & Hb3).
  assert (consensus_at s ep' = ∅ /\ below_capacity_at s ep' = ∅) as [He1 He2] by (unfold consensus_at, below_capacity_at, at_epoch; by rewrite Hb1, Hb2).
  rewrite He1, He2. st_lift ltac:(by apply copy_entries_ok).
  st_lift ltac:(apply copy_entries_ok; intros k p v Hk; by apply invert_twice, (Hkeys k p v)). st_mod. st_mod.
  assert (0 <= max_proposal_period params + DEFAULT_NUM_PAST_EPOCHS /\ 0 <= DEFAULT_NUM_PAST_EPOCHS) as [Hp1 Hp2].
  { destruct Hparams as [_ _ _ (? & ? & ? & ? & ?)]. unfold DEFAULT_NUM_PAST_EPOCHS. lia. }
  assert (0 <= c <= U64_MAX) as Hcr by lia.
  apply st_wp_bind. eapply (on_handle_ok _ _ _ _ _ _ _ proposal_offset Hp1 Hcr). intros h1 Hh1.
  apply st_wp_bind. eapply (on_handle_ok _ _ OffsetDefaultNumPastEpochs DEFAULT_NUM_PAST_EPOCHS _ _ _ (fun _ => eq_refl) Hp2 Hcr). intros h2 Hh2.
  st_mod. st_mod. apply st_wp_bind. eapply (on_handle_ok _ _ OffsetDefaultNumPastEpochs DEFAULT_NUM_PAST_EPOCHS _ _ _ (fun _ => eq_refl) Hp2 Hcr). intros h3 Hh3.
  st_mod. eapply (on_handle_ok _ _ OffsetDefaultNumPastEpochs DEFAULT_NUM_PAST_EPOCHS _ _ _ (fun _ => eq_refl) Hp2 Hcr). intros h4 _.
  cbn in Hh1, Hh2, Hh3.
  assert (positions_at s ep' = ∅) as He3 by (unfold positions_at, at_epoch; by rewrite Hb3).
  split; unfold consensus_at, below_capacity_at, positions_at, at_epoch; cbn; try done.
  - rewrite Hh1, lookup_insert_eq by lia. done.
  - rewrite Hh2, lookup_insert_eq by lia. done.
  - rewrite Hh3, lookup_insert_eq by lia. unfold positions_at, at_epoch. cbn. rewrite Hb3. cbn. by rewrite map_union_empty.
  - intros e He. cbn. destruct (Hb e ltac:(lia)) as (H1 & H2 & H3).
    rewrite Hh1, Hh2, Hh3, !lookup_insert_ne by lia. done.
Qed.
End copying.

(** ** The invariant from epoch to epoch *)
Section epochs.
Context {U : UintOps} {HU : UintLaws U} (params : PosParams) (Hparams : params_ok params).
Context (Hthr : 0 < validator_stake_threshold params) (last_slash_epoch : Address -> option Epoch).
Context (Hslash : forall v e, last_slash_epoch v = Some e ->
  e + unbonding_len params + cubic_slashing_window_length params + 1 <= U64_MAX).
Notation L := (pipeline_len params).
Implicit Types (kind : gmap Address ValidatorState) (stake : Address -> Z) (s : ValidatorSets).

Lemma live_later {D} fv pv ep (h : epoched D) : live_at fv pv ep ep h -> live_at fv pv (ep + 1) (ep + 1) h.
Proof.
  unfold live_at. destruct (last_update h) as [lu|]; [|done]. intros (Hlu & Hlow & Hd & o & Ho & Ho0 & Hold).
  split_and!; [lia|lia|done| |exists o; split_and!; [done|lia|lia|done]]. intros e v He. specialize (Hd e v He). lia.
Qed.
Lemma in_effect_later {D} fv pv ep (h : epoched D) x : live_at fv pv ep ep h -> in_effect (data h) ep x <-> in_effect (data h) (ep + 1) x.
Proof.
  intros Hl. assert (data h !! (ep + 1) = None) as Hn.
  { unfold live_at in Hl. destruct (last_update h) as [lu|]; [|destruct Hl as [_ ->]; apply lookup_empty].
    destruct Hl as (_ & _ & Hd & _). destruct (data h !! (ep + 1)) as [v|] eqn:Hv; [|done]. apply Hd in Hv. lia. }
  split; intros (e & He & Hx & Hno).
  - exists e. split_and!; [lia|done|]. intros e' He'. destruct (decide (e' = ep + 1)) as [->|]; [done|]. apply Hno. lia.
  - assert (e <> ep + 1) by (intros ->; congruence). exists e. split_and!; [lia|done|]. intros e' He'. apply Hno. lia.
Qed.
Lemma states_later c kind s s' : states_inv params c L kind s -> validator_states s' = validator_states s ->
  states_inv params (c + 1) L kind s'.
Proof.
  intros Hst Heq v. destruct (Hst v) as [Hl Hk]. unfold state_handle in *. rewrite Heq.
  replace (c + 1 + L) with (c + L + 1) by lia. split; [by apply live_later|]. intros x. rewrite Hk. by eapply in_effect_later.
Qed.
Lemma total_later (d : gmap Z Z) ep : (forall e x, d !! e = Some x -> e <= ep) ->
  total_upto (change_delta_laws (HU:=HU)) d (ep + 1) = total_upto (change_delta_laws (HU:=HU)) d ep.
Proof.
  intros Hd. unfold total_upto, msum. f_equal. apply list_fmap_ext. intros i [e x] Hi%list_elem_of_lookup_2%elem_of_map_to_list.
  specialize (Hd e x Hi). unfold upto. cbn [fst snd]. by rewrite !(proj2 (Z.leb_le _ _)) by lia.
Qed.
Lemma deltas_later c stake M D : 0 <= c -> deltas_inv params c L stake M D -> deltas_inv params (c + 1) L stake M D.
Proof using Hparams.
  intros Hc [HM Hd]. pose proof (ok_pipeline _ Hparams). pose proof (deltas_window_pos params Hparams).
  split; [done|]. intros v. destruct (Hd v) as (Hs & F & HF & Hlu & Hep). split; [done|]. exists F. split_and!; [done| |].
  - intros lu Hl. specialize (Hlu lu Hl). lia.
  - rewrite <- Hep. replace (c + 1 + L) with (c + L + 1) by lia. destruct HF as (_ & _ & HF).
    destruct (last_update _) as [lu|] eqn:Hl; [|destruct HF as (_ & _ & HF); by rewrite !HF].
    destruct HF as (Hlu0 & _ & Hfut & Htot & _). specialize (Hlu lu eq_refl).
    rewrite <- !Htot by (unfold window_start; lia). apply total_later. intros e x He. specialize (Hfut e x He). lia.
Qed.

(** What holds at an epoch *)
Definition epoch_ok (c : Z) (X : gset Address) kind stake (N M : Z) s : Prop :=
  sets_inv params c L kind stake N M s /\ registered X kind s /\ beyond (c + L) s.

Lemma below_keys c kind stake N M s k p v : sets_inv params c L kind stake N M s ->
  below_capacity_at s (c + L) !! (k, p) = Some v -> 0 <= k <= MAX_SIGNED_VALUE.
Proof.
  intros Hinv Hk. apply (si_below _ _ _ _ _ _ _ _ Hinv) in Hk as (_ & _ & Hks). cbn [stake_key] in Hks.
  pose proof (deltas_fit _ _ _ _ _ _ (si_stakes _ _ _ _ _ _ _ _ Hinv) v). lia.
Qed.

Lemma begin_epoch_ok c X kind stake N M s : 0 <= c -> c + 1 + L <= U64_MAX -> epoch_ok c X kind stake N M s ->
  st_wp (begin_epoch (E:=LifecycleError) params (c + 1)) (fun _ => epoch_ok (c + 1) X kind stake N M) s.
Proof using Hparams.
  intros Hc Hmax (Hinv & [Hdom Hfr] & Hb). pose proof (begin_epoch_copies (E:=LifecycleError) params Hparams (c + 1) s) as Hcp.
  replace (c + 1 + L - 1) with (c + L) in Hcp by lia.
  eapply st_wp_mono; [apply Hcp; [lia|lia|done|intros k p v; by eapply below_keys]|]. cbv beta. intros _ s' [H1 H2 H3 H4 H5 H6].
  split; [|split; [split; [done|by rewrite H5]|done]].
  destruct Hinv. split; rewrite ?H1, ?H2, ?H3; try done; [by eapply states_later|]. rewrite H5. by apply deltas_later.
Qed.

(** The operations of an epoch *)
Lemma run_ops_ok c X kind stake N M s ops rest : 0 <= c -> c + 2 * L + 1 <= U64_MAX -> epoch_ok c X kind stake N M s ->
  ops_valid X stake M (ops ++ rest) -> 0 <= N -> N + 2 * Z.of_nat (length ops) <= U64_MAX ->
  st_wp (run_ops params last_slash_epoch c ops) (fun _ s' => exists X' kind' M',
    epoch_ok c X' kind' (stakes_after stake ops) (N + 2 * Z.of_nat (length ops)) M' s' /\
    ops_valid X' (stakes_after stake ops) M' rest) s.
Proof using Hparams Hthr Hslash.
  revert X kind stake N M s. induction ops as [|o ops IH]; intros X kind stake N M s Hc Hmax (Hinv & Hreg & Hb) Hval HN HN'.
  { apply st_wp_ret. exists X, kind, M. cbn. rewrite Z.add_0_r. done. }
  cbn [length] in HN'. rewrite Nat2Z.inj_succ in HN'.
  destruct (run_op_done params c Hparams Hc Hmax last_slash_epoch Hslash o (ops ++ rest) X kind stake N M s)
    as (s1 & Hrun & X' & kind' & M' & Hinv' & Hreg' & Hval'); try done; [lia|].
  assert (beyond (c + L) s1) as Hb1.
  { pose proof (run_op_kept params (c + L) c eq_refl last_slash_epoch o s Hb) as Hk. by destruct Hrun as [Hr|[_ ->]]; [rewrite Hr in Hk|]. }
  apply st_wp_bind. exists s1, tt. split; [cbv beta; by destruct Hrun as [-> |[[e ->] ->]]|].
  eapply st_wp_mono; [eapply (IH X' kind' _ (N + 2) M'); try done; lia|]. cbv beta. intros _ s' Hs. cbn [length].
  rewrite Nat2Z.inj_succ. by replace (N + 2 * Z.succ (Z.of_nat (length ops))) with (N + 2 + 2 * Z.of_nat (length ops)) by lia.
Qed.

Lemma stakes_after_app stake ops ops' : stakes_after stake (ops ++ ops') = stakes_after (stakes_after stake ops) ops'.
Proof. apply foldl_app. Qed.

Lemma run_epochs_ok epochs : forall c X kind stake N M s, 0 <= c ->
  c + Z.of_nat (length epochs) + 2 * L + 1 <= U64_MAX -> epoch_ok c X kind stake N M s ->
  ops_valid X stake M (mjoin epochs) -> 0 <= N -> N + 2 * Z.of_nat (length (mjoin epochs)) <= U64_MAX ->
  st_wp (run_epochs params last_slash_epoch (c + 1) epochs) (fun _ s' => exists X' kind' M',
    epoch_ok (c + Z.of_nat (length epochs)) X' kind' (stakes_after stake (mjoin epochs)) (N + 2 * Z.of_nat (length (mjoin epochs))) M' s') s.
Proof using Hparams Hthr Hslash.
  pose proof (ok_pipeline _ Hparams) as HL.
  induction epochs as [|ops epochs IH]; intros c X kind stake N M s Hc Hmax Hok Hval HN HN'; cbn [run_epochs].
  { apply st_wp_ret. exists X, kind, M. cbn. by rewrite !Z.add_0_r. }
  cbn [length] in Hmax. change (mjoin (ops :: epochs)) with (ops ++ mjoin epochs) in *. rewrite length_app in HN'.
  apply st_wp_bind. eapply st_wp_mono; [apply (begin_epoch_ok c X kind stake N M s); [done|lia|done]|]. cbv beta. intros _ s1 Hok1.
  apply st_wp_bind. eapply st_wp_mono; [apply (run_ops_ok (c + 1) X kind stake N M s1 ops (mjoin epochs)); try done; lia|].
  cbv beta. intros _ s2 (X' & kind' & M' & Hok2 & Hval2).
  eapply st_wp_mono; [eapply (IH (c + 1) X' kind'); try done; lia|]. cbv beta. cbn [length]. rewrite length_app, stakes_after_app.
  intros _ s' (X2 & kind2 & M2 & Hok3). exists X2, kind2, M2.
  replace (c + Z.of_nat (S (length epochs))) with (c + 1 + Z.of_nat (length epochs)) by lia.
  by replace (N + 2 * Z.of_nat (length ops + length (mjoin epochs))) with (N + 2 * Z.of_nat (length ops) + 2 * Z.of_nat (length (mjoin epochs))) by lia.
Qed.
End epochs.

Lemma empty_epoch_ok {U : UintOps} {HU : UintLaws U} params c : params_ok params -> 0 <= c ->
  epoch_ok params c ∅ ∅ (fun _ => 0) 0 0 empty_sets.
Proof. intros Hp Hc. split; [by apply empty_inv|]. split; [done|]. intros e He. cbn. by rewrite !lookup_empty. Qed.

(** C6. The validator sets stay right over any number of epochs. From the empty
    storage, and from any storage in which the invariant holds, every sequence
    of new validators, changes of stake (bonds, unbonds), deactivations,
    reactivations and unjailings, failed ones rolled back, over any number of
    epochs with the copy of the sets at the start of each, runs through and keeps
    the sets of the pipeline epoch right. At the end each validator that is
    recorded in a set is in exactly that set, under its stake and its position;
    the consensus set has at most the allowed number of members; if a validator
    waits below capacity the consensus set is full and nobody in it has less
    stake; everybody in a set has at least the threshold of stake; and the stakes
    are the sums of the changes. A validator is jailed here when it reactivates
    too early; jailing for a slash is not among the operations. *)
Theorem validator_sets_invariant {U : UintOps} {HU : UintLaws U} (params : PosParams) (c : Z)
    (last_slash_epoch : Address -> option Epoch) (ops : list lifecycle_op) (epochs : list (list lifecycle_op)) :
  params_ok params -> 0 < validator_stake_threshold params -> 0 <= c ->
  c + Z.of_nat (length epochs) + 2 * pipeline_len params + 1 <= U64_MAX ->
  (forall v e, last_slash_epoch v = Some e ->
    e + unbonding_len params + cubic_slashing_window_length params + 1 <= U64_MAX) ->
  epoch_ok params c ∅ ∅ (fun _ => 0) 0 0 empty_sets /\
  forall X kind stake N M s, epoch_ok params c X kind stake N M s ->
  ops_valid X stake M (ops ++ mjoin epochs) -> 0 <= N -> N + 2 * Z.of_nat (length (ops ++ mjoin epochs)) <= U64_MAX ->
  let last := c + Z.of_nat (length epochs) in let stake' := stakes_after stake (ops ++ mjoin epochs) in
  exists s' X' kind' M', run_history params last_slash_epoch c ops epochs s = (s', Ok tt) /\
    epoch_ok params last X' kind' stake' (N + 2 * Z.of_nat (length (ops ++ mjoin epochs))) M' s' /\
    (forall v, get_validator_state (E:=unit) params s' v (last + pipeline_len params) = Ok (kind' !! v)) /\
    forall v, read_validator_stake (E:=unit) params s' v (last + pipeline_len params) = Ok (stake' v).
Proof.
  intros Hparams Hthr Hc Hmax Hslash. pose proof (ok_pipeline _ Hparams). split; [by apply empty_epoch_ok|].
  intros X kind stake N M s Hok Hval HN HN'. cbv zeta. rewrite length_app, stakes_after_app in *.
  assert (st_wp (run_history params last_slash_epoch c ops epochs) (fun _ s' => exists X' kind' M',
    epoch_ok params (c + Z.of_nat (length epochs)) X' kind' (stakes_after (stakes_after stake ops) (mjoin epochs))
      (N + 2 * Z.of_nat (length ops) + 2 * Z.of_nat (length (mjoin epochs))) M' s') s) as (s' & [] & Hrun & X' & kind' & M' & Hok').
  { apply st_wp_bind. eapply st_wp_mono; [eapply (run_ops_ok params Hparams Hthr last_slash_epoch Hslash c X kind stake N M s ops (mjoin epochs)); try done; lia|].
    cbv beta. intros _ s1 (X1 & kind1 & M1 & Hok1 & Hval1).
    eapply (run_epochs_ok params Hparams Hthr last_slash_epoch Hslash epochs c X1 kind1); try done; lia. }
  exists s', X', kind', M'. replace (N + 2 * Z.of_nat (length ops + length (mjoin epochs)))
    with (N + 2 * Z.of_nat (length ops) + 2 * Z.of_nat (length (mjoin epochs))) by lia.
  pose proof Hok' as [Hinv _]. split_and!; [done|done| |].
  - intros v. eapply get_state_ok; try apply Hinv; try done; lia.
  - intros v. eapply (read_stake_ok params _ (pipeline_len params)); try apply Hinv; try done; lia.
Qed.

(** Three validators compete for one slot. The second is deactivated, jailed
    because it comes back too early after a slash, and unjailed; the third is
    deactivated and reactivated. *)
Definition first_ops : list lifecycle_op :=
  sample_ops ++ [OpDeactivate (Established 3)].
Definition later_ops : list (list lifecycle_op) :=
  [[]; [OpReactivate (Established 2)]; [OpReactivate (Established 3)]; [OpUnjail (Established 2)]].
Definition slashed (v : Address) : option Epoch := if decide (v = Established 2) then Some 11 else None.
Definition history : ValidatorSets := (run_history (U:=Ref.uint_ref) one_slot slashed 30 first_ops later_ops empty_sets).1.

Lemma history_valid : ops_valid ∅ (fun _ => 0) 0 (first_ops ++ mjoin later_ops).
Proof.
  cbn [ops_valid first_ops sample_ops later_ops app mjoin list_join]. split_and!; try set_solver; try (split; vm_compute; discriminate);
    try (vm_compute; discriminate); try done.
Qed.

Lemma validator_sets_invariant_witness :
  run_history (U:=Ref.uint_ref) one_slot slashed 30 first_ops later_ops empty_sets = (history, Ok tt) /\
  (exists X kind M, epoch_ok (HU:=Ref.uint_ref_laws) one_slot 34 X kind (stakes_after (fun _ => 0) (first_ops ++ mjoin later_ops)) 26 M history) /\
  get_validator_state (E:=unit) one_slot (run_history (U:=Ref.uint_ref) one_slot slashed 30 first_ops (take 3 later_ops) empty_sets).1 (Established 2) 35
    = Ok (Some Jailed) /\
  get_validator_state (E:=unit) one_slot history (Established 2) 36 = Ok (Some Consensus) /\
  get_validator_state (E:=unit) one_slot history (Established 3) 36 = Ok (Some BelowCapacity).
Proof.
  destruct (validator_sets_invariant (HU:=Ref.uint_ref_laws) one_slot 30 slashed first_ops later_ops) as [Hempty Hrun].
  - constructor; cbn; unfold U64_MAX; lia.
  - cbn. lia.
  - lia.
  - vm_compute. discriminate.
  - intros v e. unfold slashed. case_decide; [|discriminate]. intros [= <-]. vm_compute. discriminate.
  - destruct (Hrun ∅ ∅ (fun _ => 0) 0 0 empty_sets Hempty) as (s' & X & kind & M & Hs & Hok & _).
    + apply history_valid.
    + lia.
    + vm_compute. discriminate.
    + assert (s' = history) as -> by (unfold history; rewrite Hs; reflexivity). split; [exact Hs|]. split; [exists X, kind, M; exact Hok|].
      split; [vm_compute; reflexivity|]. split; vm_compute; reflexivity.
Defined.
