(* ===== verification/Tx.v ===== *)
(** * Transactions: sections, hashes and signatures

    Models [core/src/proto/types.rs] (sections, headers, [Tx] and its
    builders, multi-signature verification), [core/src/types/account.rs]
    ([AccountPublicKeysMap]), the scheme dispatch of
    [core/src/types/key/common.rs] and the transaction types of
    [core/src/types/transaction/{mod,wrapper,protocol}.rs].

    SHA-256, the two signature schemes, borsh and protobuf encodings and the
    MASP transaction type are third-party code: they are the classes [TxEnv]
    and [TxBorsh]. A [Sha256] hasher is the bytes it has been fed. *)

From Stdlib Require Import ZArith Lia Ascii String.
From stdpp Require Import sorting base numbers list gmap sets option.
From S2P Require Import Prelude Gas Keys Dec WriteLog.

Local Open Scope Z_scope.
Local Open Scope outcome_scope.

(** Keys, signatures and hashes are their encodings. *)
Class TxEnv : Type := {
  sha256 : bytes -> Hash;
  ed25519_ref_to : bytes -> bytes;
  ed25519_sign : bytes -> bytes -> bytes;
  ed25519_verify : bytes -> bytes -> bytes -> bool;
  secp256k1_ref_to : bytes -> bytes;
  secp256k1_sign : bytes -> bytes -> bytes;
  secp256k1_verify : bytes -> bytes -> bytes -> bool;
  (* [masp_primitives::transaction::Transaction] and the wallet's builder data *)
  Transaction : Type;
  txid : Transaction -> bytes;
  sapling_descriptions : Transaction -> option (Z * Z * Z);
  SaplingMetadata : Type;
  Builder : Type
}.
Class TxEnvLaws (T : TxEnv) : Prop := {
  ed25519_verify_sign sk m : ed25519_verify (ed25519_ref_to sk) m (ed25519_sign sk m) = true;
  secp256k1_verify_sign sk m : secp256k1_verify (secp256k1_ref_to sk) m (secp256k1_sign sk m) = true
}.

(** ** [key/common.rs] *)
Inductive PublicKey : Type :=
| PkEd25519 (pk : bytes)
| PkSecp256k1 (pk : bytes).
Inductive SecretKey : Type :=
| SkEd25519 (sk : bytes)
| SkSecp256k1 (sk : bytes).
Inductive CommonSignature : Type :=
| SigEd25519 (sig : bytes)
| SigSecp256k1 (sig : bytes).

#[export] Instance PublicKey_eq_dec : EqDecision PublicKey.
Proof. solve_decision. Defined.
#[export] Instance PublicKey_countable : Countable PublicKey.
Proof.
  refine (inj_countable'
    (fun p => match p with PkEd25519 k => inl k | PkSecp256k1 k => inr k end)
    (fun c => match c with inl k => PkEd25519 k | inr k => PkSecp256k1 k end) _).
  by intros [].
Defined.

Inductive VerifySigError : Type :=
| SigVerifyError
| MismatchedScheme
| OutOfGas (e : Gas.Error).

Section common_scheme.
Context {T : TxEnv}.

(** [RefTo::ref_to] *)
Definition ref_to (sk : SecretKey) : PublicKey :=
  match sk with
  | SkEd25519 sk => PkEd25519 (ed25519_ref_to sk)
  | SkSecp256k1 sk => PkSecp256k1 (secp256k1_ref_to sk)
  end.

(** [SigScheme::sign] and [SigScheme::verify_signature] of a [Hash], whose
    signable bytes are the hash itself *)
Definition scheme_sign (sk : SecretKey) (data : Hash) : CommonSignature :=
  match sk with
  | SkEd25519 kp => SigEd25519 (ed25519_sign kp (hash_bytes data))
  | SkSecp256k1 kp => SigSecp256k1 (secp256k1_sign kp (hash_bytes data))
  end.
Definition scheme_verify (pk : PublicKey) (data : Hash) (sig : CommonSignature)
  : outcome VerifySigError unit :=
  match pk, sig with
  | PkEd25519 pk, SigEd25519 sig =>
      if ed25519_verify pk (hash_bytes data) sig then Ok tt else Err SigVerifyError
  | PkSecp256k1 pk, SigSecp256k1 sig =>
      if secp256k1_verify pk (hash_bytes data) sig then Ok tt else Err SigVerifyError
  | _, _ => Err MismatchedScheme
  end.
End common_scheme.

(** ** [types/account.rs] *)
Record AccountPublicKeysMap : Type := mkKeysMap {
  pk_to_idx : gmap PublicKey Z;
  idx_to_pk : gmap Z PublicKey
}.
Record Account : Type := mkAccount {
  public_keys_map : AccountPublicKeysMap;
  threshold : Z;
  address : Address
}.

Definition U8_MAX : Z := 255.

Fixpoint keys_from_iter {E} (index : Z) (pks : list PublicKey) (m : AccountPublicKeysMap)
  : outcome E AccountPublicKeysMap :=
  match pks with
  | [] => Ok m
  | pk :: pks' =>
      if U8_MAX <? index then Panic
      else keys_from_iter (index + 1) pks'
             (mkKeysMap (<[pk := index]> (pk_to_idx m)) (<[index := pk]> (idx_to_pk m)))
  end.
(** [AccountPublicKeysMap::from_iter] *)
Definition from_iter {E} (pks : list PublicKey) : outcome E AccountPublicKeysMap :=
  keys_from_iter 0 pks (mkKeysMap ∅ ∅).

Definition get_public_key_from_index (m : AccountPublicKeysMap) (index : Z) : option PublicKey :=
  idx_to_pk m !! index.
Definition get_index_from_public_key (m : AccountPublicKeysMap) (pk : PublicKey) : option Z :=
  pk_to_idx m !! pk.

(** [index_secret_keys]: collecting into a map keeps the last key of an index *)
Definition index_secret_keys `{TxEnv} (m : AccountPublicKeysMap) (sks : list SecretKey)
  : gmap Z SecretKey :=
  fold_left (fun acc sk =>
    match get_index_from_public_key m (ref_to sk) with
    | Some index => <[index := sk]> acc
    | None => acc
    end) sks ∅.

(** ** Transaction types *)
Inductive ProtocolTxType : Type :=
| EthereumEvents
| BridgePool
| ValidatorSetUpdate
| EthEventsVext
| BridgePoolVext
| ValSetUpdateVext.
Record ProtocolTx : Type := mkProtocolTx { ptx_pk : PublicKey; ptx_tx : ProtocolTxType }.

Record Fee : Type := mkFee { amount_per_gas_unit : DenominatedAmount; fee_token : Address }.
Record WrapperTx : Type := mkWrapperTx {
  fee : Fee;
  wrapper_pk : PublicKey;
  wrapper_epoch : Z;
  gas_limit : Meter.GasLimit;
  unshield_section_hash : option Hash
}.
Inductive DecryptedTx : Type :=
| Decrypted
| Undecryptable.
Inductive TxType : Type :=
| Raw
| Wrapper (wrapper : WrapperTx)
| DecryptedT (tx : DecryptedTx)
| Protocol (tx : ProtocolTx).

(** ** Sections *)
Record Data : Type := mkData { data_salt : bytes; data_data : bytes }.

Inductive Commitment : Type :=
| CHash (hash : Hash)
| CId (code : bytes).
Record Code : Type := mkCode { code_salt : bytes; code_code : Commitment; code_tag : option str }.

Inductive Signer : Type :=
| SignerAddress (addr : Address)
| SignerPubKeys (pks : list PublicKey).
Record Signature : Type := mkSignature {
  targets : list Hash;
  signer : Signer;
  signatures : gmap Z CommonSignature
}.
Record CompressedSignature : Type := mkCompressed {
  c_targets : list Z;
  c_signer : Signer;
  c_signatures : gmap Z CommonSignature
}.
Record SignatureIndex : Type := mkSigIndex {
  si_pubkey : PublicKey;
  si_index : option (Address * Z);
  si_signature : CommonSignature
}.
Record Ciphertext : Type := mkCiphertext { opaque : bytes }.
Record MaspBuilder `{TxEnv} : Type := mkMaspBuilder {
  mb_target : Hash;
  mb_asset_types : gset (Address * nat * Z);
  mb_metadata : SaplingMetadata;
  mb_builder : Builder
}.

Record Header : Type := mkHeader {
  chain_id : str;
  expiration : option Z;
  timestamp : Z;
  code_hash : Hash;
  data_hash : Hash;
  tx_type : TxType
}.
Definition set_tx_type (t : TxType) (h : Header) : Header :=
  mkHeader (chain_id h) (expiration h) (timestamp h) (code_hash h) (data_hash h) t.

Inductive Section_ `{TxEnv} : Type :=
| SecData (d : Data)
| SecExtraData (c : Code)
| SecCode (c : Code)
| SecSignature (s : Signature)
| SecCiphertext (c : Ciphertext)
| SecMaspTx (t : Transaction)
| SecMaspBuilder (b : MaspBuilder)
| SecHeader (h : Header).

Record Tx `{TxEnv} : Type := mkTx { header : Header; sections : list Section_ }.
Arguments mkTx {_} _ _.

(** Borsh and protobuf encodings *)
Class TxBorsh `{TxEnv} : Type := {
  borsh_data : Data -> bytes;
  borsh_tag : option str -> bytes;
  borsh_signature : Signature -> bytes;
  borsh_ciphertext : Ciphertext -> bytes;
  borsh_masp_builder : MaspBuilder -> bytes;
  borsh_header : Header -> bytes;
  borsh_public_key : PublicKey -> bytes;
  borsh_tx : Tx -> bytes;
  borsh_tx_from_slice : bytes -> option Tx;
  prost_encode : bytes -> bytes;
  prost_decode : bytes -> option bytes
}.
Class TxBorshLaws `(B : TxBorsh) : Prop := {
  borsh_tx_round_trip tx : borsh_tx_from_slice (borsh_tx tx) = Some tx;
  prost_round_trip bs : prost_decode (prost_encode bs) = Some bs
}.

Inductive TxDecodeError : Type := TxDecodingError | TxDeserializingError.
Inductive VerifyError : Type :=
| InvalidSectionSignature
| InvalidWrapperSignature
| TxOutOfGas (e : Gas.Error).
Inductive TxError : Type := SigError.

Section tx_ops.
Context {T : TxEnv} {B : TxBorsh}.

(** ** Commitments and hashes *)
(** [hash_tx] *)
Definition hash_tx (tx_bytes : bytes) : Hash := sha256 tx_bytes.

Definition contract (c : Commitment) : Commitment :=
  match c with
  | CId code => CHash (hash_tx code)
  | CHash _ => c
  end.
Inductive CommitmentError : Type := mkCommitmentError.
Definition expand (c : Commitment) (code : bytes) : outcome CommitmentError Commitment :=
  match c with
  | CId c' => if decide (c' = code) then Ok c else Err mkCommitmentError
  | CHash hash => if decide (hash = hash_tx code) then Ok (CId code) else Err mkCommitmentError
  end.
Definition commitment_hash (c : Commitment) : Hash :=
  match c with
  | CId code => hash_tx code
  | CHash hash => hash
  end.
Definition commitment_id (c : Commitment) : option bytes :=
  match c with
  | CId code => Some code
  | CHash _ => None
  end.

(** The salt is the creation time, an argument here *)
Definition data_new (salt data : bytes) : Data := mkData salt data.
Definition code_new (salt code : bytes) (tag : option str) : Code := mkCode salt (CId code) tag.
Definition code_from_hash (salt : bytes) (hash : Hash) (tag : option str) : Code :=
  mkCode salt (CHash hash) tag.

Definition data_hash_bytes (d : Data) : bytes := borsh_data d.
Definition code_hash_bytes (c : Code) : bytes :=
  code_salt c ++ hash_bytes (commitment_hash (code_code c)) ++ borsh_tag (code_tag c).

(** [Signature::{hash, get_hash, get_raw_hash}] *)
Definition signature_get_hash (s : Signature) : Hash := sha256 (borsh_signature s).
Definition get_raw_hash (s : Signature) : Hash :=
  signature_get_hash (mkSignature (targets s) (SignerPubKeys []) ∅).
Definition total_signatures (s : Signature) : Z := Z.of_nat (size (signatures s)) mod 256.

(** Borsh numbers the variants of an [enum] in the order of declaration *)
Definition discriminant (s : Section_) : Z :=
  match s with
  | SecData _ => 0
  | SecExtraData _ => 1
  | SecCode _ => 2
  | SecSignature _ => 3
  | SecCiphertext _ => 4
  | SecMaspTx _ => 5
  | SecMaspBuilder _ => 6
  | SecHeader _ => 7
  end.
(** [Section::hash] and [Section::get_hash] *)
Definition section_hash (s : Section_) : bytes :=
  discriminant s ::
  match s with
  | SecData d => data_hash_bytes d
  | SecExtraData c => code_hash_bytes c
  | SecCode c => code_hash_bytes c
  | SecSignature sig => borsh_signature sig
  | SecCiphertext ct => borsh_ciphertext ct
  | SecMaspBuilder mb => borsh_masp_builder mb
  | SecMaspTx tx => txid tx
  | SecHeader h => borsh_header h
  end.
Definition get_hash (s : Section_) : Hash := sha256 (section_hash s).

(** ** [Signature::new] *)
Definition signature_new {E} (tgts : list Hash) (secret_keys : gmap Z SecretKey)
  (signer_addr : option Address) : outcome E Signature :=
  let* sg := match signer_addr with
             | Some addr => Ok (SignerAddress addr)
             | None =>
                 let len := Z.of_nat (size secret_keys) mod 256 in
                 if decide ((bt_list secret_keys).*1 = seqZ 0 len)
                 then Ok (SignerPubKeys (ref_to <$> (bt_list secret_keys).*2))
                 else Panic
             end in
  let target := get_raw_hash (mkSignature tgts sg ∅) in
  Ok (mkSignature tgts sg ((fun sk => scheme_sign sk target) <$> secret_keys)).

(** ** [Signature::verify_signature]

    The gas closure is a state transformer of its captured state. *)
Section verify.
Context {G : Type} (consume_verify_sig_gas : G -> outcome Gas.Error G).

Record verify_state : Type := mkVerify { verifications : Z; verified_pks : gset Z; gas_state : G }.

Definition consume_gas (g : G) : outcome VerifySigError G :=
  match consume_verify_sig_gas g with
  | Ok g' => Ok g'
  | Err e => Err (OutOfGas e)
  | Panic => Panic
  end.
(** [verifications += 1] on a [u8] *)
Definition u8_incr {E} (n : Z) : outcome E Z := if n <? U8_MAX then Ok (n + 1) else Panic.

Definition verify_one (self : Signature) (pk : PublicKey) (sig : outcome VerifySigError CommonSignature)
  (idx : Z) (s : verify_state) : outcome VerifySigError verify_state :=
  let* g := consume_gas (gas_state s) in
  let* sig := sig in
  let* _ := scheme_verify pk (get_raw_hash self) sig in
  let* n := u8_incr (verifications s) in
  Ok (mkVerify n ({[ idx ]} ∪ verified_pks s) g).

Definition verify_signature (self : Signature) (verified : gset Z) (pks_map : AccountPublicKeysMap)
  (signer_addr : option Address) (g : G) : outcome VerifySigError verify_state :=
  let s0 := mkVerify 0 verified g in
  match signer self with
  | SignerAddress addr =>
      if decide (Some addr = signer_addr)
      then out_fold (fun s '(idx, sig) =>
             match get_public_key_from_index pks_map idx with
             | Some pk => verify_one self pk (Ok sig) idx s
             | None => Ok s
             end) (bt_list (signatures self)) s0
      else Ok s0
  | SignerPubKeys pks =>
      out_fold (fun s '(idx, pk) =>
        match get_index_from_public_key pks_map pk with
        | Some map_idx =>
            verify_one self pk (unwrap (signatures self !! (Z.of_nat idx mod 256))) map_idx s
        | None => Ok s
        end) (imap pair pks) s0
  end.
End verify.

(** ** [Tx] *)
Definition tx_try_from (tx_bytes : bytes) : outcome TxDecodeError Tx :=
  let* data := ok_or (prost_decode tx_bytes) TxDecodingError in
  ok_or (borsh_tx_from_slice data) TxDeserializingError.
Definition to_bytes (tx : Tx) : bytes := prost_encode (borsh_tx tx).

Definition header_new (now : Z) (t : TxType) : Header := mkHeader [] None now 0 0 t.
Definition tx_new (now : Z) (chain : str) (exp : option Z) : Tx :=
  mkTx (mkHeader chain exp now 0 0 Raw) [].
Definition from_type (now : Z) (t : TxType) : Tx := mkTx (header_new now t) [].

Definition header_hash (tx : Tx) : Hash := get_hash (SecHeader (header tx)).
Definition raw_header_hash (tx : Tx) : Hash := get_hash (SecHeader (set_tx_type Raw (header tx))).
Definition sechashes (tx : Tx) : list Hash := header_hash tx :: (get_hash <$> sections tx).
Definition update_header (t : TxType) (tx : Tx) : Tx := mkTx (set_tx_type t (header tx)) (sections tx).

Definition get_section (tx : Tx) (hash : Hash) : option Section_ :=
  if decide (header_hash tx = hash) then Some (SecHeader (header tx))
  else if decide (raw_header_hash tx = hash) then Some (SecHeader (set_tx_type Raw (header tx)))
  else List.find (fun s => bool_decide (get_hash s = hash)) (sections tx).

Definition add_section (s : Section_) (tx : Tx) : Tx := mkTx (header tx) (sections tx ++ [s]).
Definition set_code_sechash (h : Hash) (tx : Tx) : Tx :=
  let hd := header tx in
  mkTx (mkHeader (chain_id hd) (expiration hd) (timestamp hd) h (data_hash hd) (tx_type hd)) (sections tx).
Definition set_data_sechash (h : Hash) (tx : Tx) : Tx :=
  let hd := header tx in
  mkTx (mkHeader (chain_id hd) (expiration hd) (timestamp hd) (code_hash hd) h (tx_type hd)) (sections tx).
Definition set_code (c : Code) (tx : Tx) : Tx :=
  add_section (SecCode c) (set_code_sechash (get_hash (SecCode c)) tx).
Definition set_data (d : Data) (tx : Tx) : Tx :=
  add_section (SecData d) (set_data_sechash (get_hash (SecData d)) tx).
(** [Tx::code] and [Tx::data] *)
Definition tx_code (tx : Tx) : option bytes :=
  match get_section tx (code_hash (header tx)) with
  | Some (SecCode c) => commitment_id (code_code c)
  | _ => None
  end.
Definition tx_data (tx : Tx) : option bytes :=
  match get_section tx (data_hash (header tx)) with
  | Some (SecData d) => Some (data_data d)
  | _ => None
  end.

(** ** [Tx::verify_signatures] *)
Section verify_signatures.
Context {G : Type} (consume_verify_sig_gas : G -> outcome Gas.Error G).
Context (tx : Tx) (hashes : list Hash) (pks_map : AccountPublicKeysMap)
  (signer_addr : option Address) (thr max_sigs : Z).

Definition covers (s : Signature) : bool :=
  forallb (fun x => bool_decide (x ∈ targets s) || bool_decide (get_hash (SecSignature s) = x)) hashes
  && forallb (fun x => bool_decide (is_Some (get_section tx x))) (targets s).

Definition map_verify_err {A} (o : outcome VerifySigError A) : outcome VerifyError A :=
  match o with
  | Ok a => Ok a
  | Err (OutOfGas e) => Err (TxOutOfGas e)
  | Err _ => Err InvalidSectionSignature
  | Panic => Panic
  end.

Fixpoint verify_sections (secs : list Section_) (verified : gset Z) (witnesses : list Signature) (g : G)
  : outcome VerifyError (list Signature * G) :=
  match secs with
  | [] => Err InvalidSectionSignature
  | SecSignature s :: secs' =>
      if covers s
      then if max_sigs <? total_signatures s then Err InvalidSectionSignature
           else
             let* r := map_verify_err
                         (verify_signature consume_verify_sig_gas s verified pks_map signer_addr g) in
             let witnesses := if 0 <? verifications r then witnesses ++ [s] else witnesses in
             if thr <=? Z.of_nat (size (verified_pks r)) then Ok (witnesses, gas_state r)
             else verify_sections secs' (verified_pks r) witnesses (gas_state r)
      else verify_sections secs' verified witnesses g
  | _ :: secs' => verify_sections secs' verified witnesses g
  end.
End verify_signatures.

Definition verify_signatures {G} (consume : G -> outcome Gas.Error G) (tx : Tx) (hashes : list Hash)
  (pks_map : AccountPublicKeysMap) (signer_addr : option Address) (thr : Z) (max_sigs : option Z) (g : G)
  : outcome VerifyError (list Signature * G) :=
  verify_sections consume tx hashes pks_map signer_addr thr (default U8_MAX max_sigs)
    (sections tx) ∅ [] g.

(** [Tx::verify_signature] *)
Definition tx_verify_signature (tx : Tx) (pk : PublicKey) (hashes : list Hash)
  : outcome VerifyError Signature :=
  let* m := from_iter [pk] in
  match verify_signatures (fun _ : unit => Ok tt) tx hashes m None 1 None tt with
  | Ok (w, _) => unwrap (head w)
  | Err _ => Err InvalidWrapperSignature
  | Panic => Panic
  end.

(** [Tx::validate_tx] *)
Definition validate_tx (tx : Tx) : outcome TxError (option Signature) :=
  let check pk := match tx_verify_signature tx pk (sechashes tx) with
                  | Ok s => Ok (Some s)
                  | Err _ => Err SigError
                  | Panic => Panic
                  end in
  match tx_type (header tx) with
  | Wrapper w => check (wrapper_pk w)
  | Protocol p => check (ptx_pk p)
  | DecryptedT _ => Ok None
  | Raw => Ok None
  end.

(** ** Filters and builders *)
Definition is_masp_builder (s : Section_) : bool :=
  match s with SecMaspBuilder _ => true | _ => false end.
(** The loop runs from the last section down; the filtered sections come out in
    that order *)
Definition protocol_filter (tx : Tx) : Tx * list Section_ :=
  (mkTx (header tx) (filter (fun s => is_masp_builder s = false) (sections tx)),
   reverse (filter (fun s => is_masp_builder s = true) (sections tx))).

Definition contract_section (s : Section_) : Section_ :=
  match s with
  | SecCode c => SecCode (mkCode (code_salt c) (contract (code_code c)) (code_tag c))
  | SecExtraData c => SecExtraData (mkCode (code_salt c) (contract (code_code c)) (code_tag c))
  | _ => s
  end.
Definition is_contractible (s : Section_) : bool :=
  match s with SecCode _ | SecExtraData _ => true | _ => false end.
Definition wallet_filter (tx : Tx) : Tx * list Section_ :=
  (mkTx (header tx) (contract_section <$> sections tx),
   reverse (filter (fun s => is_contractible s = true) (sections tx))).

Definition add_wrapper (f : Fee) (payer : PublicKey) (epoch : Z) (limit : Meter.GasLimit)
  (unshield : option Hash) (tx : Tx) : Tx :=
  update_header (Wrapper (mkWrapperTx f payer epoch limit unshield)) tx.

Definition sign_wrapper {E} (keypair : SecretKey) (tx : Tx) : outcome E Tx :=
  let tx := (protocol_filter tx).1 in
  let* s := signature_new (sechashes tx) {[ 0 := keypair ]} None in
  Ok (add_section (SecSignature s) tx).

(** [(0..).zip(keypairs).collect()] on [u8] keys: the range is stepped once more
    than there are keys, and stepping past 255 stops the thread *)
Definition enumerate_keys {E} (sks : list SecretKey) : outcome E (gmap Z SecretKey) :=
  if Z.of_nat (length sks) <? U8_MAX
  then Ok (list_to_map (imap (fun i sk => (Z.of_nat i, sk)) sks))
  else Panic.

Definition sign_raw {E} (keypairs : list SecretKey) (m : AccountPublicKeysMap)
  (signer_addr : option Address) (tx : Tx) : outcome E Tx :=
  let hashes := [raw_header_hash tx] in
  let tx := (protocol_filter tx).1 in
  let* sks := if signer_addr then Ok (index_secret_keys m keypairs) else enumerate_keys keypairs in
  let* s := signature_new hashes sks signer_addr in
  Ok (add_section (SecSignature s) tx).

(** [Tx::compute_section_signature]: offline signing of the raw header *)
Definition compute_section_signature {E} (tx : Tx) (sks : list SecretKey) (m : AccountPublicKeysMap)
  (signer_addr : option Address) : outcome E (list SignatureIndex) :=
  let* s := signature_new [raw_header_hash tx] (index_secret_keys m sks) signer_addr in
  match signer s with
  | SignerAddress addr =>
      out_map (fun '(idx, sig) =>
        let* pk := unwrap (get_public_key_from_index m idx) in
        Ok (mkSigIndex pk (Some (addr, idx)) sig)) (bt_list (signatures s))
  | SignerPubKeys pks =>
      out_map (fun '(idx, sig) =>
        let* pk := unwrap (pks !! Z.to_nat idx) in
        Ok (mkSigIndex pk None sig)) (bt_list (signatures s))
  end.

(** [Tx::add_signatures]. [values] lists a [HashMap] in its unspecified
    order. *)
Definition add_signature_step (raw : Hash) (acc : Signature * gmap Address Signature)
  (s : SignatureIndex) : Signature * gmap Address Signature :=
  let '(pk_section, secs) := acc in
  match si_index s with
  | Some (addr, idx) =>
      let sec := default (mkSignature [raw] (SignerAddress addr) ∅) (secs !! addr) in
      (pk_section,
       <[addr := mkSignature (targets sec) (signer sec) (<[idx := si_signature s]> (signatures sec))]> secs)
  | None =>
      match signer pk_section with
      | SignerPubKeys pks =>
          (mkSignature (targets pk_section) (SignerPubKeys (pks ++ [si_pubkey s]))
             (<[Z.of_nat (length pks) mod 256 := si_signature s]> (signatures pk_section)), secs)
      | SignerAddress _ => acc
      end
  end.
Definition add_signatures (values : gmap Address Signature -> list Signature)
  (sigs : list SignatureIndex) (tx : Tx) : Tx :=
  let tx := (protocol_filter tx).1 in
  let raw := raw_header_hash tx in
  let '(pk_section, secs) :=
    fold_left (add_signature_step raw) sigs (mkSignature [raw] (SignerPubKeys []) ∅, ∅) in
  mkTx (header tx) (sections tx ++ (SecSignature <$> pk_section :: values secs)).

(** [CompressedSignature::expand]: an index past the sections stops the thread *)
Definition expand_target {E} (tx : Tx) (idx : Z) : outcome E Hash :=
  if idx =? 0 then Ok (header_hash tx)
  else if idx =? 255 then Ok (raw_header_hash tx)
  else let* s := unwrap (sections tx !! Z.to_nat (idx - 1)) in Ok (get_hash s).
Definition expand_signature {E} (c : CompressedSignature) (tx : Tx) : outcome E Signature :=
  let* tgts := out_map (expand_target tx) (c_targets c) in
  Ok (mkSignature tgts (c_signer c) (c_signatures c)).

(** ** [WrapperTx] *)
Definition PKH_LEN : nat := 20.
(** [PublicKeyHash::from(pk)] *)
Definition public_key_hash (pk : PublicKey) : Z :=
  from_be_bytes (take PKH_LEN (hash_bytes (sha256 (borsh_public_key pk)))).
Definition fee_payer (w : WrapperTx) : Address := Implicit (public_key_hash (wrapper_pk w)).
End tx_ops.

(** ** Properties *)
Section tx_lemmas.
Context {T : TxEnv} {B : TxBorsh}.

(** A key signs the given hashes when one section that covers them all holds a
    signature of its raw hash that verifies under the key *)
Definition section_covers (tx : Tx) (hashes : list Hash) (s : Signature) : Prop :=
  (forall x, x ∈ hashes -> x ∈ targets s \/ x = get_hash (SecSignature s)) /\
  (forall x, x ∈ targets s -> is_Some (get_section tx x)).
Definition signed_in (tx : Tx) (hashes : list Hash) (s : Signature) (pk : PublicKey) : Prop :=
  SecSignature s ∈ sections tx /\ section_covers tx hashes s /\
  exists k sig, signatures s !! k = Some sig /\ scheme_verify pk (get_raw_hash s) sig = Ok tt.

Lemma covers_spec tx hashes s : covers tx hashes s = true <-> section_covers tx hashes s.
Proof.
  unfold covers, section_covers. rewrite andb_true_iff, !forallb_forall. split.
  - intros [Hh Ht]. split; intros x Hx; apply list_elem_of_In in Hx.
    + apply Hh in Hx. rewrite orb_true_iff, !bool_decide_eq_true in Hx. naive_solver.
    + apply Ht in Hx. by rewrite bool_decide_eq_true in Hx.
  - intros [Hh Ht]. split; intros x Hx; apply list_elem_of_In in Hx.
    + apply Hh in Hx. rewrite orb_true_iff, !bool_decide_eq_true. naive_solver.
    + apply Ht in Hx. by rewrite bool_decide_eq_true.
Qed.

(** *** The account's key map is a bijection onto the positions of the keys *)
Definition keys_view (pks : list PublicKey) (m : AccountPublicKeysMap) : Prop :=
  (forall i pk, idx_to_pk m !! i = Some pk <-> 0 <= i /\ pks !! Z.to_nat i = Some pk) /\
  (forall pk i, pk_to_idx m !! pk = Some i -> 0 <= i /\ pks !! Z.to_nat i = Some pk) /\
  (forall pk, pk ∈ pks -> is_Some (pk_to_idx m !! pk)).

Lemma keys_from_iter_view {E} pks : forall done_ m m',
  keys_view done_ m -> keys_from_iter (E:=E) (Z.of_nat (length done_)) pks m = Ok m' ->
  keys_view (done_ ++ pks) m'.
Proof.
  induction pks as [|pk pks IH]; intros done_ m m' Hv Hr; simpl in Hr.
  { injection Hr as <-. by rewrite app_nil_r. }
  destruct (U8_MAX <? _); [done|].
  replace (done_ ++ pk :: pks) with ((done_ ++ [pk]) ++ pks) by (by rewrite <- app_assoc).
  eapply IH; [|rewrite length_app; simpl;
               replace (Z.of_nat (length done_ + 1)) with (Z.of_nat (length done_) + 1) by lia; exact Hr].
  destruct Hv as (H1 & H2 & H3). split; [|split]; cbn [idx_to_pk pk_to_idx].
  - intros i p. destruct (decide (i = Z.of_nat (length done_))) as [->|Hne].
    + rewrite lookup_insert_eq, Nat2Z.id, lookup_app_r by lia.
      rewrite Nat.sub_diag. simpl. split; [intros [= ->]; split; [lia|done]|by intros [_ [= ->]]].
    + rewrite lookup_insert_ne by done. rewrite H1. split; intros [Hi Hp]; (split; [done|]).
      * by apply lookup_app_l_Some.
      * rewrite lookup_app_Some in Hp. destruct Hp as [?|[Hle Hp]]; [done|].
        apply list_lookup_singleton_Some in Hp as [? _]. lia.
  - intros p i. destruct (decide (pk = p)) as [->|Hne].
    + rewrite lookup_insert_eq. intros [= <-]. split; [lia|].
      rewrite Nat2Z.id, lookup_app_r by lia. by rewrite Nat.sub_diag.
    + rewrite lookup_insert_ne by done. intros Hp. apply H2 in Hp as [Hi Hp]. split; [done|].
      by apply lookup_app_l_Some.
  - intros p Hp. destruct (decide (pk = p)) as [->|Hne]; [by rewrite lookup_insert_eq|].
    rewrite lookup_insert_ne by done. apply H3. set_solver.
Qed.

Lemma from_iter_view {E} pks m : from_iter (E:=E) pks = Ok m -> keys_view pks m.
Proof.
  intros H. apply (keys_from_iter_view (E:=E) pks [] (mkKeysMap ∅ ∅)); [|done].
  split; [|split]; cbn [idx_to_pk pk_to_idx].
  - intros i pk. rewrite lookup_empty. split; [done|]. by intros [_ ?].
  - intros pk i. by rewrite lookup_empty.
  - intros pk ?%elem_of_nil. done.
Qed.

(** *** Soundness of verification *)
Section soundness.
Context {G : Type} (consume : G -> outcome Gas.Error G).

Lemma verify_one_Ok s pk sig idx st0 st1 : verify_one consume s pk sig idx st0 = Ok st1 ->
  exists c, sig = Ok c /\ scheme_verify pk (get_raw_hash s) c = Ok tt /\
    verified_pks st1 = {[ idx ]} ∪ verified_pks st0 /\ verifications st1 = verifications st0 + 1.
Proof.
  unfold verify_one. intros H.
  apply out_bind_Ok in H as (g & _ & H). apply out_bind_Ok in H as (c & Hc & H).
  apply out_bind_Ok in H as ([] & Hv & H). apply out_bind_Ok in H as (n & Hn & [= <-]).
  exists c. cbn [verified_pks verifications]. unfold u8_incr in Hn.
  destruct (_ <? U8_MAX); [|done]. naive_solver.
Qed.

Lemma verify_signature_sound tx hashes pks m signer_addr s verified g r :
  keys_view pks m -> SecSignature s ∈ sections tx -> section_covers tx hashes s ->
  verify_signature consume s verified m signer_addr g = Ok r ->
  let good idx := exists pk, 0 <= idx /\ pks !! Z.to_nat idx = Some pk /\ exists s, signed_in tx hashes s pk in
  (forall idx, idx ∈ verified -> good idx) -> forall idx, idx ∈ verified_pks r -> good idx.
Proof.
  intros (H1 & H2 & _) Hin Hcov Hr good H0. unfold verify_signature in Hr.
  destruct (signer s) as [addr|pks'].
  - destruct (decide _); [|injection Hr as <-; done].
    refine (out_fold_inv (fun st => forall idx, idx ∈ verified_pks st -> good idx) _ _ _ _ _ H0 Hr).
    intros st0 [idx sig] st1 Hel Hst Hs.
    destruct (get_public_key_from_index m idx) as [pk|] eqn:Hpk; [|injection Hs as <-; done].
    apply verify_one_Ok in Hs as (c & [= <-] & Hv & Hvp & _). rewrite Hvp. intros i.
    rewrite elem_of_union, elem_of_singleton. intros [->|Hi]; [|by apply Hst].
    apply H1 in Hpk as [Hi Hpk]. exists pk. split; [done|]. split; [done|]. exists s.
    split; [done|]. split; [done|]. exists idx, sig. split; [|done].
    by apply elem_of_bt_list, list_elem_of_In.
  - refine (out_fold_inv (fun st => forall idx, idx ∈ verified_pks st -> good idx) _ _ _ _ _ H0 Hr).
    intros st0 [j pk] st1 Hel Hst Hs.
    destruct (get_index_from_public_key m pk) as [idx|] eqn:Hpk; [|injection Hs as <-; done].
    apply verify_one_Ok in Hs as (c & Hc & Hv & Hvp & _). rewrite Hvp. intros i.
    rewrite elem_of_union, elem_of_singleton. intros [->|Hi]; [|by apply Hst].
    apply H2 in Hpk as [Hi Hpk]. exists pk. split; [done|]. split; [done|]. exists s.
    split; [done|]. split; [done|]. apply unwrap_Ok in Hc. by exists (Z.of_nat j mod 256), c.
Qed.

Lemma map_verify_err_Ok {A} (o : outcome VerifySigError A) a : map_verify_err o = Ok a -> o = Ok a.
Proof. destruct o as [?|[]|]; simpl; congruence. Qed.

Lemma verify_sections_sound tx hashes pks m signer_addr thr max_sigs secs : keys_view pks m ->
  let good idx := exists pk, 0 <= idx /\ pks !! Z.to_nat idx = Some pk /\ exists s, signed_in tx hashes s pk in
  forall verified w g w' g',
  (forall s, s ∈ secs -> s ∈ sections tx) ->
  (forall idx, idx ∈ verified -> good idx) ->
  verify_sections consume tx hashes m signer_addr thr max_sigs secs verified w g = Ok (w', g') ->
  exists S : gset Z, thr <= Z.of_nat (size S) /\ forall idx, idx ∈ S -> good idx.
Proof.
  intros Hv good. induction secs as [|sec secs IH]; intros verified w g w' g' Hsub Hver Hr; [done|].
  assert (forall s, s ∈ secs -> s ∈ sections tx) as Hsub' by set_solver.
  assert (sec ∈ sections tx) as Hsec by set_solver.
  destruct sec; cbn [verify_sections] in Hr; try by eapply IH.
  destruct (covers tx hashes s) eqn:Hcov; [|by eapply IH].
  destruct (max_sigs <? _); [done|].
  apply out_bind_Ok in Hr as (r & Hs & Hr). apply map_verify_err_Ok in Hs.
  apply covers_spec in Hcov.
  pose proof (verify_signature_sound _ _ _ _ _ _ _ _ _ Hv Hsec Hcov Hs Hver) as Hgood.
  destruct (Z.leb_spec thr (Z.of_nat (size (verified_pks r)))); [|by eapply IH].
  by exists (verified_pks r).
Qed.
End soundness.

(** Different positions of a list without duplicates hold different keys *)
Lemma pick_keys (Q : PublicKey -> Prop) (pks : list PublicKey) (l : list Z) : NoDup pks -> NoDup l ->
  (forall i, i ∈ l -> exists pk, 0 <= i /\ pks !! Z.to_nat i = Some pk /\ Q pk) ->
  exists ks, length ks = length l /\ NoDup ks /\
    forall pk, pk ∈ ks -> Q pk /\ exists i, i ∈ l /\ pks !! Z.to_nat i = Some pk.
Proof.
  intros Hnd. induction l as [|i l IH]; intros Hl HQ; [exists []; by split; [|split; [constructor|set_solver]]|].
  apply list.NoDup_cons in Hl as [Hi Hl].
  destruct IH as (ks & Hlen & Hks & Hall); [done|set_solver|].
  destruct (HQ i) as (pk & Hi0 & Hpk & HQpk); [set_solver|].
  exists (pk :: ks). split; [simpl; lia|]. split.
  - constructor; [|done]. intros Hin. apply Hall in Hin as (_ & j & Hj & Hpkj).
    destruct (HQ j) as (_ & Hj0 & _); [set_solver|].
    pose proof (NoDup_lookup pks _ _ pk Hnd Hpk Hpkj). assert (i = j) as -> by lia. done.
  - intros p. rewrite elem_of_cons. intros [->|Hp]; [split; [done|]; exists i; set_solver|].
    destruct (Hall p Hp) as (? & j & ? & ?). split; [done|]. exists j. set_solver.
Qed.
(** *** A signature appended to a transaction *)
Lemma get_section_header tx : is_Some (get_section tx (header_hash tx)).
Proof. unfold get_section. by rewrite decide_True. Qed.

Lemma get_section_raw_header tx : is_Some (get_section tx (raw_header_hash tx)).
Proof. unfold get_section. case_decide; [done|]. by rewrite decide_True. Qed.

Lemma get_section_in tx s : s ∈ sections tx -> is_Some (get_section tx (get_hash s)).
Proof.
  intros Hs. unfold get_section. case_decide; [done|]. case_decide; [done|].
  destruct (List.find _ (sections tx)) eqn:Hf; [done|].
  apply list_elem_of_In in Hs. apply (List.find_none _ _ Hf) in Hs.
  by rewrite bool_decide_eq_false in Hs.
Qed.

Lemma sechashes_present tx x : x ∈ sechashes tx -> is_Some (get_section tx x).
Proof.
  unfold sechashes. rewrite elem_of_cons, list_elem_of_fmap.
  intros [->|(s & -> & Hs)]; [apply get_section_header|by apply get_section_in].
Qed.

(** No signature section of the transaction signs over [h] *)
Definition unsigned (tx : Tx) (h : Hash) : Prop :=
  forall s, SecSignature s ∈ sections tx -> h ∉ targets s /\ h <> get_hash (SecSignature s).

Lemma verify_sections_skip {G} (consume : G -> outcome Gas.Error G) tx hashes m signer_addr thr max_sigs
    secs rest verified w g :
  (forall s, SecSignature s ∈ secs -> covers tx hashes s = false) ->
  verify_sections consume tx hashes m signer_addr thr max_sigs (secs ++ rest) verified w g
  = verify_sections consume tx hashes m signer_addr thr max_sigs rest verified w g.
Proof.
  induction secs as [|sec secs IH]; intros Hc; [done|].
  assert (forall s, SecSignature s ∈ secs -> covers tx hashes s = false) as Hc' by set_solver.
  destruct sec; cbn [app verify_sections]; auto.
  rewrite Hc by set_solver. auto.
Qed.

Lemma unsigned_not_covers tx tx0 h hashes s : unsigned tx h -> h ∈ hashes -> SecSignature s ∈ sections tx ->
  covers tx0 hashes s = false.
Proof.
  intros Hu Hh Hs. apply not_true_iff_false. rewrite covers_spec. intros [Hc _].
  destruct (Hu s Hs). destruct (Hc h Hh); done.
Qed.

Lemma singleton_key_map {E} pk :
  from_iter (E:=E) [pk] = Ok (mkKeysMap {[ pk := 0 ]} {[ 0 := pk ]}).
Proof. done. Qed.

(** A section that signs over everything before it decides the verification
    of the whole transaction *)
Lemma verify_appended tx s pk : targets s = sechashes tx -> total_signatures s <= U8_MAX ->
  unsigned tx (get_hash (SecSignature s)) ->
  let tx' := add_section (SecSignature s) tx in
  tx_verify_signature tx' pk (sechashes tx') =
  match verify_signature (fun _ : unit => Ok tt) s ∅ (mkKeysMap {[ pk := 0 ]} {[ 0 := pk ]}) None tt with
  | Ok r => if 1 <=? Z.of_nat (size (verified_pks r))
            then if 0 <? verifications r then Ok s else Panic
            else Err InvalidWrapperSignature
  | Err _ => Err InvalidWrapperSignature
  | Panic => Panic
  end.
Proof.
  intros Ht Hn Hu tx'. unfold tx_verify_signature. rewrite singleton_key_map. cbn [out_bind].
  unfold verify_signatures. change (sections tx') with (sections tx ++ [SecSignature s]).
  rewrite verify_sections_skip.
  2: { intros s0 Hs0. eapply unsigned_not_covers; [exact Hu| |done].
       unfold sechashes, tx', add_section. cbn [sections].
       rewrite fmap_app. set_solver. }
  cbn [verify_sections]. assert (covers tx' (sechashes tx') s = true) as ->.
  { apply covers_spec. split.
    - rewrite Ht. unfold sechashes, tx', add_section. cbn [sections header]. intros x.
      rewrite fmap_app. cbn. rewrite !elem_of_cons, elem_of_app, list_elem_of_singleton.
      unfold header_hash. cbn [header]. tauto.
    - rewrite Ht. intros x Hx. apply sechashes_present. unfold sechashes, tx', add_section in *.
      cbn [sections header]. rewrite fmap_app. unfold header_hash in *. cbn [header]. set_solver. }
  cbn [default]. unfold id. change (default U8_MAX None) with U8_MAX.
  rewrite (proj2 (Z.ltb_ge _ _) Hn).
  destruct (verify_signature _ s _ _ _ _) as [r|[]|]; try done. cbn [map_verify_err out_bind].
  destruct (1 <=? _); [|done]. by destruct (0 <? _).
Qed.

Lemma total_signatures_bound s : total_signatures s <= U8_MAX.
Proof. unfold total_signatures, U8_MAX. pose proof (Z.mod_pos_bound (Z.of_nat (size (signatures s))) 256). lia. Qed.

(** *** Contracting the code of a transaction *)
Lemma contract_hash c : commitment_hash (contract c) = commitment_hash c.
Proof. by destruct c. Qed.
Lemma contract_section_hash s : get_hash (contract_section s) = get_hash s.
Proof.
  destruct s as [d|c|c|s|c|t|b|h]; try done;
    unfold get_hash, section_hash, contract_section, code_hash_bytes; cbn [code_code code_salt code_tag discriminant];
    by rewrite contract_hash.
Qed.

Lemma contract_get_section tx x : is_Some (get_section (wallet_filter tx).1 x) <-> is_Some (get_section tx x).
Proof.
  unfold get_section, header_hash, raw_header_hash. cbn [wallet_filter fst header sections].
  case_decide; [done|]. case_decide; [done|].
  induction (sections tx) as [|s l IH]; [done|]. rewrite fmap_cons. cbn [List.find].
  rewrite contract_section_hash. by case_bool_decide.
Qed.

Lemma contract_covers tx hashes s : covers (wallet_filter tx).1 hashes s = covers tx hashes s.
Proof.
  apply eq_bool_prop_intro. rewrite !Is_true_true, !covers_spec. unfold section_covers.
  split; intros [? Ht]; (split; [done|]); intros x Hx; apply contract_get_section; auto.
Qed.

Lemma contract_sechashes tx : sechashes (wallet_filter tx).1 = sechashes tx.
Proof.
  unfold sechashes, header_hash. cbn [wallet_filter fst header sections]. f_equal.
  rewrite <- list_fmap_compose. apply list_fmap_ext. intros ? s _. apply contract_section_hash.
Qed.

Lemma contract_verify {G} (consume : G -> outcome Gas.Error G) tx hashes m signer_addr thr max_sigs g :
  verify_signatures consume (wallet_filter tx).1 hashes m signer_addr thr max_sigs g
  = verify_signatures consume tx hashes m signer_addr thr max_sigs g.
Proof.
  unfold verify_signatures. change (sections (wallet_filter tx).1) with (contract_section <$> sections tx).
  generalize (sections tx), (∅ : gset Z), (@nil Signature), g.
  intros l. induction l as [|s l IH]; intros v w g0; [done|].
  destruct s; rewrite ?fmap_cons; cbn [contract_section verify_sections]; try apply IH.
  rewrite contract_covers. destruct (covers tx hashes s); [|apply IH].
  destruct (_ <? total_signatures s); [done|].
  destruct (map_verify_err _) as [r| |]; cbn [out_bind]; try done.
  destruct (thr <=? _); [done|]. apply IH.
Qed.
End tx_lemmas.

(** C22. Multi-signature verification is sound: when [Tx::verify_signatures]
    accepts for the keys of an account, at least [threshold] different keys of
    that account each have a valid signature of the transaction, made over the
    raw hash of a section whose targets cover every requested hash and are all
    present in the transaction. *)
Theorem verify_signatures_sound {T : TxEnv} {B : TxBorsh} {G E} (consume : G -> outcome Gas.Error G)
  (tx : Tx) (hashes : list Hash) (pks : list PublicKey) (m : AccountPublicKeysMap)
  (signer_addr : option Address) (thr : Z) (max_sigs : option Z) (g g' : G) (w : list Signature) :
  NoDup pks -> from_iter (E:=E) pks = Ok m ->
  verify_signatures consume tx hashes m signer_addr thr max_sigs g = Ok (w, g') ->
  exists ks, NoDup ks /\ thr <= Z.of_nat (length ks) /\
    forall pk, pk ∈ ks -> pk ∈ pks /\ exists s, signed_in tx hashes s pk.
Proof.
  intros Hnd Hm Hr. apply from_iter_view in Hm.
  apply (verify_sections_sound _ _ _ _ _ _ _ _ _ Hm) in Hr as (S & Hthr & HS); [|done|set_solver].
  destruct (pick_keys (fun pk => exists s, signed_in tx hashes s pk) pks (elements S))
    as (ks & Hlen & Hks & Hall); [done|apply NoDup_elements|set_solver|].
  exists ks. split; [done|]. split; [rewrite Hlen; exact Hthr|].
  intros pk Hpk. destruct (Hall pk Hpk) as (Hs & i & _ & Hi). split; [|done].
  by eapply list_elem_of_lookup_2.
Qed.

Section wrapper_signing.
Context {T : TxEnv} {HT : TxEnvLaws T} {B : TxBorsh}.

Lemma scheme_verify_sign sk m : scheme_verify (ref_to sk) m (scheme_sign sk m) = Ok tt.
Proof.
  destruct sk; cbn [ref_to scheme_sign scheme_verify].
  - by rewrite ed25519_verify_sign.
  - by rewrite secp256k1_verify_sign.
Qed.

Lemma signature_new_single {E} tgts sk :
  let s0 := mkSignature tgts (SignerPubKeys [ref_to sk]) ∅ in
  signature_new (E:=E) tgts {[ 0 := sk ]} None =
  Ok (mkSignature tgts (SignerPubKeys [ref_to sk]) {[ 0 := scheme_sign sk (get_raw_hash s0) ]}).
Proof.
  intros s0. unfold signature_new. rewrite map_size_singleton.
  assert (bt_list ({[ 0 := sk ]} : gmap Z SecretKey) = [(0, sk)]) as ->.
  { unfold bt_list. by rewrite map_to_list_singleton. }
  rewrite decide_True by done. cbn [out_bind]. by rewrite map_fmap_singleton.
Qed.
End wrapper_signing.

(** *** Offline signing *)
Section offline.
Context {T : TxEnv} {HT : TxEnvLaws T} {B : TxBorsh}.

(** Inserting entries with different keys one by one *)
Lemma fold_insert_lookup {V} (l : list (Z * V)) (m0 : gmap Z V) k : NoDup l.*1 ->
  fold_left (fun m '(i, v) => <[i := v]> m) l m0 !! k = (list_to_map l : gmap Z V) !! k ∪ m0 !! k.
Proof.
  revert m0. induction l as [|[i v] l IH]; intros m0 Hnd; cbn in *; [by rewrite lookup_empty, option_union_left_id|].
  apply list.NoDup_cons in Hnd as [Hi Hnd]. rewrite IH by done.
  destruct (decide (i = k)) as [->|Hne].
  - rewrite !lookup_insert_eq, not_elem_of_list_to_map_1 by done. by destruct (m0 !! k).
  - by rewrite !lookup_insert_ne.
Qed.

Lemma bt_list_keys {V} (m : gmap Z V) : NoDup (bt_list m).*1.
Proof. rewrite bt_list_perm. apply NoDup_fst_map_to_list. Qed.

Lemma fold_insert_bt_list {V} (m : gmap Z V) : fold_left (fun m '(i, v) => <[i := v]> m) (bt_list m) ∅ = m.
Proof.
  apply map_eq. intros k. rewrite fold_insert_lookup by apply bt_list_keys.
  rewrite lookup_empty, (list_to_map_proper _ (map_to_list m)), list_to_map_to_list
    by (apply bt_list_keys || apply bt_list_perm). by destruct (m !! k).
Qed.

(** Signatures of one multisig address end up in one section *)
Lemma add_signatures_of_address raw addr pkf l p secs m0 : l <> [] ->
  default (mkSignature [raw] (SignerAddress addr) ∅) (secs !! addr) = mkSignature [raw] (SignerAddress addr) m0 ->
  fold_left (add_signature_step raw) ((fun '(i, sig) => mkSigIndex (pkf i) (Some (addr, i)) sig) <$> l) (p, secs)
  = (p, <[addr := mkSignature [raw] (SignerAddress addr) (fold_left (fun m '(i, v) => <[i := v]> m) l m0)]> secs).
Proof.
  revert secs m0. induction l as [|[i sig] l IH]; intros secs m0 Hne Hsec; [done|].
  cbn [fmap list_fmap fold_left]. unfold add_signature_step at 2.
  cbn [si_index si_signature]. rewrite Hsec. cbn [targets signer signatures].
  destruct l as [|e l]; [done|]. rewrite (IH _ (<[i := sig]> m0)); [|done|by rewrite lookup_insert_eq].
  by rewrite insert_insert_eq.
Qed.

(** Every indexed key is held at its index of the account *)
Lemma index_secret_keys_spec pks m sks i sk : keys_view pks m -> index_secret_keys m sks !! i = Some sk ->
  get_public_key_from_index m i = Some (ref_to sk).
Proof.
  intros (H1 & H2 & _). unfold index_secret_keys. revert i sk.
  assert (forall acc : gmap Z SecretKey,
    (forall i sk, acc !! i = Some sk -> get_public_key_from_index m i = Some (ref_to sk)) ->
    forall i sk, fold_left (fun acc sk =>
      match get_index_from_public_key m (ref_to sk) with
      | Some index => <[index := sk]> acc
      | None => acc
      end) sks acc !! i = Some sk -> get_public_key_from_index m i = Some (ref_to sk)) as Hgen.
  { induction sks as [|k sks IH]; intros acc Hacc i sk; [apply Hacc|]. cbn [fold_left]. apply IH.
    destruct (get_index_from_public_key m (ref_to k)) as [j|] eqn:Hj; [|done].
    intros i' sk'. destruct (decide (j = i')) as [->|Hne]; [|rewrite lookup_insert_ne by done; apply Hacc].
    rewrite lookup_insert_eq. intros [= <-]. apply H1. by apply H2. }
  apply Hgen. intros ??. by rewrite lookup_empty.
Qed.

Lemma compute_section_signature_eq {E} tx sks pks m addr : keys_view pks m ->
  exists pkf, let s := mkSignature [raw_header_hash tx] (SignerAddress addr) ∅ in
  compute_section_signature (E:=E) tx sks m (Some addr) =
  Ok ((fun '(i, sig) => mkSigIndex (pkf i) (Some (addr, i)) sig) <$>
      bt_list ((fun sk => scheme_sign sk (get_raw_hash s)) <$> index_secret_keys m sks)).
Proof.
  intros Hv. exists (fun i => default (PkEd25519 []) (get_public_key_from_index m i)). cbn zeta.
  unfold compute_section_signature. cbn [signature_new out_bind signer signatures].
  apply out_map_ok. intros [i sig] Hin.
  apply list_elem_of_In, elem_of_bt_list in Hin. rewrite lookup_fmap in Hin.
  destruct (index_secret_keys m sks !! i) as [sk|] eqn:Hsk; [|done].
  by rewrite (index_secret_keys_spec _ _ _ _ _ Hv Hsk).
Qed.

Lemma verify_one_signed s sk idx n v : n < U8_MAX ->
  verify_one (fun _ : unit => Ok tt) s (ref_to sk) (Ok (scheme_sign sk (get_raw_hash s))) idx (mkVerify n v tt)
  = Ok (mkVerify (n + 1) ({[ idx ]} ∪ v) tt).
Proof.
  intros Hn. unfold verify_one, u8_incr. cbn. rewrite scheme_verify_sign. cbn.
  by rewrite (proj2 (Z.ltb_lt n U8_MAX)).
Qed.

(** Verifying a map of signatures of the account's own keys counts them all *)
Lemma verify_all s m (sks : gmap Z SecretKey) (h : Hash) (l : list (Z * CommonSignature)) n v :
  get_raw_hash s = h -> 0 <= n -> n + Z.of_nat (length l) <= U8_MAX ->
  (forall i sk, sks !! i = Some sk -> get_public_key_from_index m i = Some (ref_to sk)) ->
  (forall i sig, (i, sig) ∈ l -> exists sk, sks !! i = Some sk /\ sig = scheme_sign sk h) ->
  out_fold (fun st '(idx, sig) =>
    match get_public_key_from_index m idx with
    | Some pk => verify_one (fun _ : unit => Ok tt) s pk (Ok sig) idx st
    | None => Ok st
    end) l (mkVerify n v tt) = Ok (mkVerify (n + Z.of_nat (length l)) (list_to_set l.*1 ∪ v) tt).
Proof.
  intros Hh Hn Hlen Hm. revert n v Hn Hlen.
  induction l as [|[i sig] l IH]; intros n v Hn Hlen Hl; cbn [out_fold].
  { cbn. rewrite union_empty_l_L. do 2 f_equal. lia. }
  destruct (Hl i sig) as (sk & Hsk & ->); [set_solver|]. rewrite (Hm _ _ Hsk).
  cbn [length] in Hlen. rewrite <- Hh, verify_one_signed by lia. cbn [out_bind]. rewrite Hh, IH; [|lia|lia|set_solver]. cbn [length fmap list_fmap list_to_set fst]. do 2 f_equal; [lia|set_solver].
Qed.

Lemma index_secret_keys_size pks m sks : keys_view pks m ->
  (size (index_secret_keys m sks) <= length pks)%nat.
Proof.
  intros Hv. rewrite <- size_dom.
  transitivity (size (list_to_set (seqZ 0 (Z.of_nat (length pks))) : gset Z)).
  - apply subseteq_size. intros i. rewrite elem_of_dom. intros [sk Hsk].
    pose proof (index_secret_keys_spec _ _ _ _ _ Hv Hsk) as Hi. apply Hv in Hi as [Hi Hl].
    apply lookup_lt_Some in Hl. apply elem_of_list_to_set, elem_of_seqZ. lia.
  - rewrite size_list_to_set by apply NoDup_seqZ. rewrite length_seqZ. lia.
Qed.

(** The section of an address verifies every indexed key *)
Lemma verify_indexed pks m sks addr tgts : keys_view pks m -> Z.of_nat (length pks) <= U8_MAX ->
  let M := index_secret_keys m sks in
  let h := get_raw_hash (mkSignature tgts (SignerAddress addr) ∅) in
  verify_signature (fun _ : unit => Ok tt) (mkSignature tgts (SignerAddress addr) ((fun sk => scheme_sign sk h) <$> M))
    ∅ m (Some addr) tt = Ok (mkVerify (Z.of_nat (size M)) (dom M) tt).
Proof.
  intros Hv Hlen M h. unfold verify_signature. cbn [signer signatures]. rewrite decide_True by done.
  set (sigs := (fun sk => scheme_sign sk h) <$> M).
  assert (length (bt_list sigs) = size M) as Hl.
  { rewrite bt_list_perm, length_map_to_list. unfold sigs. apply map_size_fmap. }
  rewrite (verify_all _ _ M h).
  - rewrite Hl. do 2 f_equal. rewrite union_empty_r_L. rewrite bt_list_perm.
    rewrite <- (dom_list_to_map_L (M:=gmap Z)), list_to_map_to_list. unfold sigs. by rewrite dom_fmap_L.
  - done.
  - lia.
  - rewrite Hl. pose proof (index_secret_keys_size _ _ sks Hv). fold M in H. lia.
  - intros i sk. by apply index_secret_keys_spec with pks.
  - intros i sig Hi. apply elem_of_bt_list in Hi. unfold sigs in Hi. rewrite lookup_fmap in Hi.
    destruct (M !! i) as [sk|]; [|done]. injection Hi as <-. by exists sk.
Qed.

(** The two sections [add_signatures] appends for signatures of one address *)
Lemma add_signatures_sections tx values addr pkf (sigs : gmap Z CommonSignature) : sigs <> ∅ ->
  (forall secs, values secs ≡ₚ (map_to_list secs).*2) ->
  let raw := raw_header_hash tx in
  add_signatures values ((fun '(i, sig) => mkSigIndex (pkf i) (Some (addr, i)) sig) <$> bt_list sigs) tx =
  mkTx (header tx) (sections (protocol_filter tx).1 ++
    [SecSignature (mkSignature [raw] (SignerPubKeys []) ∅);
     SecSignature (mkSignature [raw] (SignerAddress addr) sigs)]).
Proof.
  intros Hne Hvals raw. unfold add_signatures. change (raw_header_hash (protocol_filter tx).1) with raw.
  rewrite (add_signatures_of_address _ _ _ _ _ _ ∅).
  - rewrite fold_insert_bt_list.
    pose proof (Hvals {[ addr := mkSignature [raw] (SignerAddress addr) sigs ]}) as Hp.
    rewrite map_to_list_singleton in Hp. cbn in Hp. apply Permutation_singleton_r in Hp.
    rewrite insert_empty, Hp. done.
  - intros Hl. apply Hne, map_empty. intros i. destruct (sigs !! i) eqn:Hi; [|done].
    apply elem_of_bt_list in Hi. rewrite Hl in Hi. by apply elem_of_nil in Hi.
  - by rewrite lookup_empty.
Qed.
End offline.

(** C34. Signing and validating a wrapper agree: for a wrapper header of the
    fee payer's key, [sign_wrapper] returns a transaction that [validate_tx]
    accepts with the section it added, whatever the other sections are, as long
    as no earlier section already signs over the new one. *)
Theorem sign_wrapper_validates {T : TxEnv} {HT : TxEnvLaws T} {B : TxBorsh} {E} (tx : Tx) (w : WrapperTx)
  (sk : SecretKey) : tx_type (header tx) = Wrapper w -> wrapper_pk w = ref_to sk ->
  exists s tx', sign_wrapper (E:=E) sk tx = Ok tx' /\
    sections tx' = filter (fun s => is_masp_builder s = false) (sections tx) ++ [SecSignature s] /\
    (unsigned tx (get_hash (SecSignature s)) -> validate_tx tx' = Ok (Some s)).
Proof.
  intros Htype Hpk. set (txf := (protocol_filter tx).1).
  set (sg := mkSignature (sechashes txf) (SignerPubKeys [ref_to sk])
    {[ 0 := scheme_sign sk (get_raw_hash (mkSignature (sechashes txf) (SignerPubKeys [ref_to sk]) ∅)) ]}).
  exists sg, (add_section (SecSignature sg) txf). split; [|split; [done|]].
  { unfold sign_wrapper. fold txf. by rewrite signature_new_single. }
  intros Hu. unfold validate_tx. change (header (add_section (SecSignature sg) txf)) with (header tx).
  rewrite Htype, verify_appended; [|done|by vm_compute|].
  2: { intros s Hs. apply Hu. unfold txf in Hs. cbn [protocol_filter fst sections] in Hs.
       by apply list_elem_of_filter in Hs as [_ ?]. }
  rewrite Hpk. unfold verify_signature, sg. cbn [signer imap out_fold signatures].
  unfold get_index_from_public_key. cbn [pk_to_idx]. rewrite lookup_singleton_eq. cbn.
  unfold verify_one. cbn. rewrite lookup_singleton_eq. cbn. unfold get_raw_hash. cbn [targets].
  rewrite scheme_verify_sign. cbn. by rewrite union_empty_r_L, size_singleton.
Qed.

(** Contracting the code of a transaction for a hardware wallet changes no
    signature check: [wallet_filter] keeps every section hash, the outcome of
    [verify_signatures] for any keys, threshold and gas closure, and that of
    [validate_tx]; expanding a contracted section with its code restores it, and
    with different code of a different hash fails. *)
Theorem wallet_filter_transparent {T : TxEnv} {B : TxBorsh} {G} (consume : G -> outcome Gas.Error G) (tx : Tx) :
  sechashes (wallet_filter tx).1 = sechashes tx /\
  (forall hashes m signer_addr thr max_sigs g,
     verify_signatures consume (wallet_filter tx).1 hashes m signer_addr thr max_sigs g
     = verify_signatures consume tx hashes m signer_addr thr max_sigs g) /\
  validate_tx (wallet_filter tx).1 = validate_tx tx /\
  (forall code code', expand (contract (CId code)) code' =
     if decide (hash_tx code = hash_tx code') then Ok (CId code') else Err mkCommitmentError).
Proof.
  split; [apply contract_sechashes|]. split; [intros; apply contract_verify|]. split; [|done].
  unfold validate_tx, tx_verify_signature. rewrite contract_sechashes.
  change (header (wallet_filter tx).1) with (header tx).
  destruct (tx_type (header tx)); rewrite ?singleton_key_map; cbn [out_bind]; rewrite ?contract_verify; done.
Qed.

(** Validating a wrapper stops the thread when its signature section names
    the fee payer's key but holds no signature: the map of signatures is indexed
    without a check. *)
Theorem validate_tx_panics {T : TxEnv} {B : TxBorsh} (tx : Tx) (w : WrapperTx) :
  tx_type (header tx) = Wrapper w ->
  let s := mkSignature (sechashes tx) (SignerPubKeys [wrapper_pk w]) ∅ in
  unsigned tx (get_hash (SecSignature s)) ->
  validate_tx (add_section (SecSignature s) tx) = Panic.
Proof.
  intros Htype s Hu. unfold validate_tx. change (header (add_section (SecSignature s) tx)) with (header tx).
  rewrite Htype, verify_appended; [|done|by vm_compute|done].
  unfold verify_signature, s. cbn [signer imap out_fold signatures].
  unfold get_index_from_public_key. cbn [pk_to_idx]. by rewrite lookup_singleton_eq.
Qed.

(** C35. Offline signing completes: the signatures that
    [compute_section_signature] makes for the keys of a multisig account, added
    to the transaction by [add_signatures], are accepted by [verify_signatures]
    for that account at any threshold up to the number of account keys that
    signed, in whatever order the sections are stored. *)
Theorem offline_signing_completes {T : TxEnv} {HT : TxEnvLaws T} {B : TxBorsh} {E} (tx : Tx)
  (pks : list PublicKey) (m : AccountPublicKeysMap) (sks : list SecretKey) (addr : Address) (thr : Z)
  (values : gmap Address Signature -> list Signature) :
  from_iter (E:=E) pks = Ok m -> Z.of_nat (length pks) <= U8_MAX ->
  (forall secs, values secs ≡ₚ (map_to_list secs).*2) ->
  (forall s, SecSignature s ∉ sections tx) ->
  1 <= thr <= Z.of_nat (size (index_secret_keys m sks)) ->
  exists sigs s, compute_section_signature (E:=E) tx sks m (Some addr) = Ok sigs /\
    verify_signatures (fun _ : unit => Ok tt) (add_signatures values sigs tx) [raw_header_hash tx]
      m (Some addr) thr None tt = Ok ([s], tt).
Proof.
  intros Hm Hlen Hvals Hns Hthr. pose proof (from_iter_view _ _ Hm) as Hv.
  pose proof (index_secret_keys_size _ _ sks Hv) as Hsize.
  destruct (compute_section_signature_eq (E:=E) tx sks _ _ addr Hv) as (pkf & Hc). cbn zeta in Hc.
  set (h := get_raw_hash _) in Hc. set (M := index_secret_keys m sks) in *.
  set (S := mkSignature [raw_header_hash tx] (SignerAddress addr) ((fun sk => scheme_sign sk h) <$> M)).
  eexists _, S. split; [exact Hc|]. rewrite add_signatures_sections; [|intros He|done].
  2: { apply fmap_empty_iff in He. rewrite He, map_size_empty in Hthr. lia. }
  unfold verify_signatures. cbn [sections]. rewrite verify_sections_skip.
  2: { intros s Hs. cbn in Hs. apply list_elem_of_filter in Hs as [_ Hs]. by apply Hns in Hs. }
  set (tx' := mkTx _ _).
  assert (forall sg sigs, covers tx' [raw_header_hash tx] (mkSignature [raw_header_hash tx] sg sigs) = true) as Hcov.
  { intros sg sigs. apply covers_spec. split; cbn [targets]; [set_solver|].
    intros x ->%list_elem_of_singleton. apply (get_section_raw_header tx'). }
  cbn [verify_sections]. unfold S. rewrite !Hcov. change (default U8_MAX None) with U8_MAX.
  rewrite !(proj2 (Z.ltb_ge U8_MAX _)) by apply total_signatures_bound.
  change (verify_signature _ (mkSignature _ (SignerPubKeys []) ∅) ∅ m (Some addr) tt)
    with (Ok (E:=VerifySigError) (mkVerify 0 (∅ : gset Z) tt)).
  cbn [map_verify_err out_bind verifications verified_pks gas_state].
  change (0 <? 0) with false. rewrite size_empty. change (Z.of_nat 0) with 0.
  rewrite (proj2 (Z.leb_gt thr 0)) by lia. cbn match.
  unfold M, h. rewrite (verify_indexed pks) by done. fold M.
  cbn [map_verify_err out_bind verifications verified_pks gas_state].
  rewrite (proj2 (Z.ltb_lt 0 (Z.of_nat (size M)))) by lia.
  by rewrite size_dom, (proj2 (Z.leb_le thr _)) by lia.
Qed.

(** ** A concrete environment

    Keys sign by appending the message to the key, hashes are numbers of the
    bytes in a large base and encodings are stdpp's numberings of the types. *)
Module RefTx.

#[export] Instance env : TxEnv := {|
  sha256 bs := fold_left (fun a b => (a * 65599 + b + 1) mod 2 ^ 256) bs 7;
  ed25519_ref_to sk := sk;
  ed25519_sign sk m := sk ++ m;
  ed25519_verify pk m sig := bool_decide (sig = pk ++ m);
  secp256k1_ref_to sk := sk;
  secp256k1_sign sk m := m ++ sk;
  secp256k1_verify pk m sig := bool_decide (sig = m ++ pk);
  Transaction := Z;
  txid t := [t];
  sapling_descriptions t := Some (t, 0, 0);
  SaplingMetadata := unit;
  Builder := unit
|}.
#[export] Instance env_laws : TxEnvLaws env.
Proof. by split; intros; apply bool_decide_eq_true_2. Qed.

Ltac by_tuple f g := refine (inj_countable' f g _); by intros [].

#[export] Instance commonsig_eq : EqDecision CommonSignature.
Proof. solve_decision. Defined.
#[export] Instance commonsig_c : Countable CommonSignature.
Proof.
  by_tuple (fun s => match s with SigEd25519 b => inl b | SigSecp256k1 b => inr b end)
    (fun c => match c with inl b => SigEd25519 b | inr b => SigSecp256k1 b end).
Defined.
#[export] Instance da_c : Countable DenominatedAmount.
Proof. by_tuple (fun a => (da_amount a, da_denom a)) (fun c => mkDenominated c.1 c.2). Defined.
#[export] Instance limit_eq : EqDecision Meter.GasLimit.
Proof. solve_decision. Defined.
#[export] Instance limit_c : Countable Meter.GasLimit.
Proof. by_tuple Meter.multiplier Meter.mkGasLimit. Defined.
#[export] Instance fee_eq : EqDecision Fee.
Proof. solve_decision. Defined.
#[export] Instance fee_c : Countable Fee.
Proof. by_tuple (fun f => (amount_per_gas_unit f, fee_token f)) (fun c => mkFee c.1 c.2). Defined.
#[export] Instance wrapper_eq : EqDecision WrapperTx.
Proof. solve_decision. Defined.
#[export] Instance wrapper_c : Countable WrapperTx.
Proof.
  by_tuple (fun w => (fee w, wrapper_pk w, wrapper_epoch w, gas_limit w, unshield_section_hash w))
    (fun '(a, b, c, d, e) => mkWrapperTx a b c d e).
Defined.
#[export] Instance ptype_eq : EqDecision ProtocolTxType.
Proof. solve_decision. Defined.
#[export] Instance ptype_c : Countable ProtocolTxType.
Proof.
  by_tuple (fun t => match t with EthereumEvents => 0 | BridgePool => 1 | ValidatorSetUpdate => 2
                     | EthEventsVext => 3 | BridgePoolVext => 4 | ValSetUpdateVext => 5 end)
    (fun c => match c with 0 => EthereumEvents | 1 => BridgePool | 2 => ValidatorSetUpdate
              | 3 => EthEventsVext | 4 => BridgePoolVext | _ => ValSetUpdateVext end).
Defined.
#[export] Instance dtx_eq : EqDecision DecryptedTx.
Proof. solve_decision. Defined.
#[export] Instance ptx_eq : EqDecision ProtocolTx.
Proof. solve_decision. Defined.
#[export] Instance txtype_eq : EqDecision TxType.
Proof. solve_decision. Defined.
#[export] Instance txtype_c : Countable TxType.
Proof.
  refine (inj_countable'
    (fun t => match t with Raw => inl (inl tt) | Wrapper w => inl (inr w)
              | DecryptedT Decrypted => inr (inl true) | DecryptedT Undecryptable => inr (inl false)
              | Protocol p => inr (inr (ptx_pk p, ptx_tx p)) end)
    (fun c => match c with inl (inl _) => Raw | inl (inr w) => Wrapper w
              | inr (inl b) => DecryptedT (if b then Decrypted else Undecryptable)
              | inr (inr p) => Protocol (mkProtocolTx p.1 p.2) end) _).
  by intros [| |[]|[]].
Defined.
#[export] Instance header_eq : EqDecision Header.
Proof. solve_decision. Defined.
#[export] Instance header_c : Countable Header.
Proof.
  by_tuple (fun h => (chain_id h, expiration h, timestamp h, code_hash h, data_hash h, tx_type h))
    (fun '(a, b, c, d, e, f) => mkHeader a b c d e f).
Defined.
#[export] Instance data_eq : EqDecision Data.
Proof. solve_decision. Defined.
#[export] Instance data_c : Countable Data.
Proof. by_tuple (fun d => (data_salt d, data_data d)) (fun c => mkData c.1 c.2). Defined.
#[export] Instance commitment_eq : EqDecision Commitment.
Proof. solve_decision. Defined.
#[export] Instance commitment_c : Countable Commitment.
Proof.
  by_tuple (fun c => match c with CHash h => inl h | CId b => inr b end)
    (fun c => match c with inl h => CHash h | inr b => CId b end).
Defined.
#[export] Instance code_eq : EqDecision Code.
Proof. solve_decision. Defined.
#[export] Instance code_c : Countable Code.
Proof. by_tuple (fun c => (code_salt c, code_code c, code_tag c)) (fun '(a, b, c) => mkCode a b c). Defined.
#[export] Instance signer_eq : EqDecision Signer.
Proof. solve_decision. Defined.
#[export] Instance signer_c : Countable Signer.
Proof.
  by_tuple (fun s => match s with SignerAddress a => inl a | SignerPubKeys l => inr l end)
    (fun c => match c with inl a => SignerAddress a | inr l => SignerPubKeys l end).
Defined.
#[export] Instance sig_eq : EqDecision Signature.
Proof. solve_decision. Defined.
#[export] Instance sig_c : Countable Signature.
Proof. by_tuple (fun s => (targets s, signer s, signatures s)) (fun '(a, b, c) => mkSignature a b c). Defined.
#[export] Instance ct_eq : EqDecision Ciphertext.
Proof. solve_decision. Defined.
#[export] Instance ct_c : Countable Ciphertext.
Proof. by_tuple opaque mkCiphertext. Defined.
#[export] Instance mb_eq : EqDecision MaspBuilder.
Proof. intros [t a [] []] [t' a' [] []]. destruct (decide ((t, a) = (t', a'))); [left|right]; congruence. Defined.
#[export] Instance mb_c : Countable MaspBuilder.
Proof.
  refine (inj_countable' (fun b => (mb_target b, mb_asset_types b)) (fun c => @mkMaspBuilder env c.1 c.2 tt tt) _).
  by intros [? ? [] []].
Defined.
#[export] Instance sec_eq : EqDecision Section_.
Proof.
  intros [] []; try (by right); cbn [Transaction env] in *;
    match goal with |- Decision (_ ?a = _ ?b) => destruct (decide (a = b)); [left|right]; congruence end.
Defined.
#[export] Instance sec_c : Countable Section_.
Proof.
  refine (inj_countable'
    (fun s => match s with
      | SecData d => inl (inl (inl d)) | SecExtraData c => inl (inl (inr c))
      | SecCode c => inl (inr (inl c)) | SecSignature s => inl (inr (inr s))
      | SecCiphertext c => inr (inl (inl c)) | SecMaspTx t => inr (inl (inr (t : Z)))
      | SecMaspBuilder b => inr (inr (inl b)) | SecHeader h => inr (inr (inr h)) end)
    (fun c => match c with
      | inl (inl (inl d)) => SecData d | inl (inl (inr c)) => SecExtraData c
      | inl (inr (inl c)) => SecCode c | inl (inr (inr s)) => SecSignature s
      | inr (inl (inl c)) => SecCiphertext c | inr (inl (inr t)) => SecMaspTx (t : @Transaction env)
      | inr (inr (inl b)) => SecMaspBuilder b | inr (inr (inr h)) => SecHeader h end) _).
  by intros [].
Defined.
#[export] Instance tx_eq : EqDecision Tx.
Proof. intros [h s] [h' s']. destruct (decide ((h, s) = (h', s'))); [left|right]; congruence. Defined.
#[export] Instance tx_c : Countable Tx.
Proof. by_tuple (fun t : Tx => (header t, sections t)) (fun c => mkTx c.1 c.2). Defined.

Definition number `{Countable A} (a : A) : bytes := [Zpos (encode a)].
#[export] Instance borsh : TxBorsh := {|
  borsh_data := number;
  borsh_tag := number;
  borsh_signature := number;
  borsh_ciphertext := number;
  borsh_masp_builder := number;
  borsh_header := number;
  borsh_public_key := number;
  borsh_tx := number;
  borsh_tx_from_slice bs := match bs with [Zpos p] => decode p | _ => None end;
  prost_encode bs := bs;
  prost_decode bs := Some bs
|}.
#[export] Instance borsh_laws : TxBorshLaws borsh.
Proof. split; [|done]. intros tx. cbn. apply decode_encode. Qed.

Definition sk (n : Z) : SecretKey := if Z.even n then SkEd25519 [n] else SkSecp256k1 [n].
Definition sample_wrapper (n : Z) : WrapperTx :=
  mkWrapperTx (mkFee (mkDenominated 1 0) (Established 1)) (ref_to (sk n)) 0 (Meter.mkGasLimit 20000) None.
Definition sample_tx (n : Z) : Tx :=
  mkTx (mkHeader (lit "chain") None 5 0 0 (Wrapper (sample_wrapper n))) [SecCode (mkCode [1] (CId [2]) None)].
Definition keys : list PublicKey := [ref_to (sk 1); ref_to (sk 2); ref_to (sk 3)].
Definition keys_map : AccountPublicKeysMap :=
  mkKeysMap {[ ref_to (sk 1) := 0; ref_to (sk 2) := 1; ref_to (sk 3) := 2 ]}
            {[ 0 := ref_to (sk 1); 1 := ref_to (sk 2); 2 := ref_to (sk 3) ]}.
Definition account_values (secs : gmap Address Signature) : list Signature := (map_to_list secs).*2.

Lemma sample_no_signatures n s : SecSignature s ∉ sections (sample_tx n).
Proof. cbn. set_solver. Qed.
End RefTx.

Import RefTx.

Lemma sample_unsigned n h : unsigned (RefTx.sample_tx n) h.
Proof. intros s Hs. by apply RefTx.sample_no_signatures in Hs. Qed.

Lemma sign_wrapper_validates_witness : exists s tx',
  sign_wrapper (E:=unit) (RefTx.sk 1) (RefTx.sample_tx 1) = Ok tx' /\ validate_tx tx' = Ok (Some s).
Proof.
  destruct (sign_wrapper_validates (E:=unit) (RefTx.sample_tx 1) (RefTx.sample_wrapper 1) (RefTx.sk 1)
    eq_refl eq_refl) as (s & tx' & H1 & _ & H3).
  exists s, tx'. split; [exact H1|]. apply H3, sample_unsigned.
Defined.

Lemma validate_tx_panics_witness :
  validate_tx (add_section (SecSignature (mkSignature (sechashes (RefTx.sample_tx 1))
    (SignerPubKeys [wrapper_pk (RefTx.sample_wrapper 1)]) ∅)) (RefTx.sample_tx 1)) = Panic.
Proof. apply (validate_tx_panics (RefTx.sample_tx 1) (RefTx.sample_wrapper 1) eq_refl), sample_unsigned. Defined.

Lemma offline_signing_completes_witness : exists sigs s,
  compute_section_signature (E:=unit) (RefTx.sample_tx 1) [RefTx.sk 1; RefTx.sk 3] RefTx.keys_map
    (Some (Established 9)) = Ok sigs /\
  verify_signatures (fun _ : unit => Ok tt) (add_signatures RefTx.account_values sigs (RefTx.sample_tx 1))
    [raw_header_hash (RefTx.sample_tx 1)] RefTx.keys_map (Some (Established 9)) 2 None tt = Ok ([s], tt).
Proof.
  apply (offline_signing_completes (E:=unit) (RefTx.sample_tx 1) RefTx.keys).
  - vm_compute. reflexivity.
  - vm_compute. discriminate.
  - intros secs. reflexivity.
  - intros s. apply RefTx.sample_no_signatures.
  - vm_compute. split; discriminate.
Defined.

(** A transaction signed by two of the three keys *)
Definition signed_sample : Tx :=
  match compute_section_signature (E:=unit) (RefTx.sample_tx 1) [RefTx.sk 1; RefTx.sk 3] RefTx.keys_map
          (Some (Established 9)) with
  | Ok sigs => add_signatures RefTx.account_values sigs (RefTx.sample_tx 1)
  | _ => RefTx.sample_tx 1
  end.
Definition signed_sample_result : list Signature :=
  match verify_signatures (fun _ : unit => Ok tt) signed_sample [raw_header_hash (RefTx.sample_tx 1)]
          RefTx.keys_map (Some (Established 9)) 2 None tt with
  | Ok (w, _) => w
  | _ => []
  end.

Lemma verify_signatures_sound_witness : exists ks, NoDup ks /\ 2 <= Z.of_nat (length ks) /\
  forall pk, pk ∈ ks -> pk ∈ RefTx.keys /\
    exists s, signed_in signed_sample [raw_header_hash (RefTx.sample_tx 1)] s pk.
Proof.
  apply (verify_signatures_sound (E:=unit) (fun _ : unit => Ok tt) signed_sample
    [raw_header_hash (RefTx.sample_tx 1)] RefTx.keys RefTx.keys_map (Some (Established 9)) 2 None tt tt
    signed_sample_result).
  - apply (bool_decide_unpack _). vm_compute. exact I.
  - vm_compute. reflexivity.
  - vm_compute. reflexivity.
Defined.
