(* ===== verification/WlStorage.v ===== *)
(** * Storage behind a write log ([core/src/ledger/storage/wl_storage.rs])

    [WlStorage] and [TempWlStorage]: reads through the log, iteration over a
    prefix by merging the sorted entries of the log and of the database, replay
    protection, and the switch to a new epoch. *)

From Stdlib Require Import ZArith Lia Ascii String.
From stdpp Require Import sorting base numbers list gmap sets option.
From S2P Require Import Prelude Gas Keys WriteLog Epoch.

Local Open Scope Z_scope.
Local Open Scope outcome_scope.

Section wl_storage.
Context {C : AddressCodec} {G : AddressGen}.

(** [WlStorage] and [TempWlStorage]: a log over a storage *)
Record WlStorage : Type := mkWl { write_log : WriteLog; storage : Storage }.
Definition set_write_log (w : WriteLog) (s : WlStorage) : WlStorage := mkWl w (storage s).
(** [TempWlStorage::new] *)
Definition temp_new (s : Storage) : WlStorage := mkWl default_write_log s.

Definition read_bytes {E} (s : WlStorage) (key : Key) : outcome E (option bytes) :=
  let* '(log_val, _) := read key (write_log s) in
  match log_val with
  | Some (Write value) => Ok (Some value)
  | Some Delete => Ok None
  | Some (InitAccount vp_code_hash) => Ok (Some (hash_bytes vp_code_hash))
  | Some (Temp value) => Ok (Some value)
  | None => Ok (subspace (storage s) !! key)
  end.

Definition has_key {E} (s : WlStorage) (key : Key) : outcome E bool :=
  let* '(log_val, _) := read key (write_log s) in
  match log_val with
  | Some (Write _) | Some (InitAccount _) | Some (Temp _) => Ok true
  | Some Delete => Ok false
  | None => Ok (bool_decide (is_Some (subspace (storage s) !! key)))
  end.

(** The database holds a hash under the [last] or the [all] prefix *)
Definition storage_has_replay_protection_entry (s : Storage) (hash : Hash) : bool :=
  bool_decide (hash ∈ replay_last s) || bool_decide (hash ∈ replay_all s).
Definition wl_has_replay_protection_entry (s : WlStorage) (hash : Hash) : bool :=
  match has_replay_protection_entry hash (write_log s) with
  | Some present => present
  | None => storage_has_replay_protection_entry (storage s) hash
  end.
Definition has_committed_replay_protection_entry (s : WlStorage) (hash : Hash) : bool :=
  storage_has_replay_protection_entry (storage s) hash.

(** [StorageWrite::write_bytes] and [delete]: the error of the log is dropped *)
Definition write_bytes (key : Key) (val : bytes) (s : WlStorage) : WlStorage :=
  set_write_log (protocol_write key val (write_log s)).1 s.
Definition delete_bytes (key : Key) (s : WlStorage) : WlStorage :=
  set_write_log (protocol_delete key (write_log s)).1 s.

(** ** [PrefixIter] *)
Record PrefixIter : Type := mkPrefixIter {
  storage_iter : list (str * bytes);
  write_log_iter : list (str * StorageModification)
}.

Definition str_eqb (a b : str) : bool := match str_cmp a b with Eq => true | _ => false end.
Definition str_leb (a b : str) : bool := match str_cmp a b with Gt => false | _ => true end.

(** [PrefixIter::next]. The loop goes on only after a deleted entry of the log. *)
Fixpoint prefix_next (wl : list (str * StorageModification)) (sto : list (str * bytes))
  : option ((str * bytes * Z) * PrefixIter) :=
  match wl with
  | [] =>
      match sto with
      | [] => None
      | (k, v) :: sto' => Some ((k, v, blen v), mkPrefixIter sto' [])
      end
  | (wl_key, modification) :: wl' =>
      let return_wl (sto : list (str * bytes)) :=
        match modification with
        | Write value | Temp value => Some ((wl_key, value, blen value), mkPrefixIter sto wl')
        | InitAccount vp_code_hash =>
            Some ((wl_key, hash_bytes vp_code_hash, blen (hash_bytes vp_code_hash)), mkPrefixIter sto wl')
        | Delete => prefix_next wl' sto
        end in
      match sto with
      | [] => return_wl []
      | (storage_key, v) :: sto' =>
          if str_leb wl_key storage_key
          then return_wl (if str_eqb wl_key storage_key then sto' else sto)
          else Some ((storage_key, v, blen v), mkPrefixIter sto' wl)
      end
  end.
Definition iter_next (it : PrefixIter) : option ((str * bytes * Z) * PrefixIter) :=
  prefix_next (write_log_iter it) (storage_iter it).

(** The entries of a map in the order of their keys *)
Definition by_key {V} (a b : str * V) : bool := str_leb a.1 b.1.
Definition sorted_entries {V} (l : list (str * V)) : list (str * V) := sort_le by_key l.

(** [DBIter::iter_prefix] of the in-memory database: the keys that start with
    the printed prefix and a separator, in their order *)
Definition db_prefix (prefix : Key) : str :=
  match prefix with
  | [] => []
  | _ => key_to_string prefix ++ [KEY_SEGMENT_SEPARATOR]
  end.
Definition db_iter_prefix (prefix : Key) (db : gmap Key bytes) : list (str * bytes) :=
  sorted_entries (filter (fun e => db_prefix prefix `prefix_of` e.1)
                    ((fun '(k, v) => (key_to_string k, v)) <$> map_to_list db)).

(** [iter_prefix_pre] and [iter_prefix_post] *)
Definition wl_iter_prefix_pre (prefix : Key) (s : WlStorage) : PrefixIter :=
  mkPrefixIter (db_iter_prefix prefix (subspace (storage s)))
    (sorted_entries (map_to_list (iter_prefix_pre prefix (write_log s)))).
Definition wl_iter_prefix (prefix : Key) (s : WlStorage) : PrefixIter :=
  mkPrefixIter (db_iter_prefix prefix (subspace (storage s)))
    (sorted_entries (map_to_list (iter_prefix_post prefix (write_log s)))).

(** [for item in iter], with the number of items as fuel *)
Fixpoint collect (fuel : nat) (it : PrefixIter) : list (str * bytes) :=
  match fuel with
  | O => []
  | S fuel =>
      match iter_next it with
      | Some ((k, v, _), it') => (k, v) :: collect fuel it'
      | None => []
      end
  end.
Definition iter_size (it : PrefixIter) : nat := length (storage_iter it) + length (write_log_iter it).
End wl_storage.

(** ** The switch to a new epoch ([WlStorage::update_epoch]) *)
Definition EPOCH_SWITCH_BLOCKS_DELAY : Z := 2.

Record EpochDuration : Type := mkEpochDuration { min_num_of_blocks : Z; min_duration : Z }.

(** The fields of [Storage] and [BlockStorage] that decide the epoch *)
Record EpochState : Type := mkEpochState {
  block_epoch : Z;
  update_epoch_blocks_delay : option Z;
  next_epoch_min_start_height : Z;
  next_epoch_min_start_time : Z;
  pred_epochs : Epochs
}.

(** [Storage::init_genesis_epoch] *)
Definition init_genesis_epoch {E} (d : EpochDuration) (initial_height genesis_time : Z) : outcome E EpochState :=
  let* h := u64_add initial_height (min_num_of_blocks d) in
  Ok (mkEpochState 0 None h (genesis_time + min_duration d) (mkEpochs [initial_height])).

Definition next_delay {E} (height time : Z) (s : EpochState) : outcome E (option Z) :=
  match update_epoch_blocks_delay s with
  | None =>
      if (next_epoch_min_start_height s <=? height) && (next_epoch_min_start_time s <=? time)
      then Ok (Some EPOCH_SWITCH_BLOCKS_DELAY)
      else Ok None
  | Some blocks_until_switch => let* d := u64_sub blocks_until_switch 1 in Ok (Some d)
  end.

Definition update_epoch {E} (d : EpochDuration) (height time : Z) (s : EpochState)
  : outcome E (bool * EpochState) :=
  let* delay := next_delay height time s in
  match delay with
  | Some 0 =>
      let* e := u64_add (block_epoch s) 1 in
      let* h := u64_add height (min_num_of_blocks d) in
      Ok (true, mkEpochState e None h (time + min_duration d) (new_epoch height (pred_epochs s)))
  | _ =>
      Ok (false, mkEpochState (block_epoch s) delay (next_epoch_min_start_height s)
                   (next_epoch_min_start_time s) (pred_epochs s))
  end.

(** One call per block, at consecutive heights *)
Fixpoint run_blocks {E} (d : EpochDuration) (height : Z) (times : list Z) (s : EpochState)
  : outcome E EpochState :=
  match times with
  | [] => Ok s
  | t :: times' =>
      let* '(_, s') := update_epoch d height t s in
      run_blocks d (height + 1) times' s'
  end.

(** ** The order of keys *)
Lemma lex_refl a : lex a a = Eq.
Proof. induction a as [|x a IH]; cbn; [done|]. by rewrite Z.compare_refl. Qed.
Lemma lex_eq a b : lex a b = Eq -> a = b.
Proof.
  revert b. induction a as [|x a IH]; intros [|y b]; cbn; try done.
  destruct (Z.compare_spec x y); try done. intros ?%IH. by subst.
Qed.
Lemma lex_antisym a b : lex b a = CompOpp (lex a b).
Proof.
  revert b. induction a as [|x a IH]; intros [|y b]; cbn; try done.
  rewrite Z.compare_antisym. destruct (Z.compare_spec x y); cbn; auto.
Qed.
Lemma lex_trans a b c : lex a b = Lt -> lex b c = Lt -> lex a c = Lt.
Proof.
  revert b c. induction a as [|x a IH]; intros [|y b] [|z c]; cbn; try done.
  destruct (Z.compare_spec x y), (Z.compare_spec y z), (Z.compare_spec x z); try done; try lia; eauto.
Qed.

Definition slt (a b : str) : Prop := str_cmp a b = Lt.
Lemma str_cmp_eq a b : str_cmp a b = Eq -> a = b.
Proof.
  intros H%lex_eq. revert H. apply list_fmap_eq_inj. intros x y H.
  apply (inj Z.of_N) in H. rewrite <- (ascii_N_embedding x), <- (ascii_N_embedding y). by f_equal.
Qed.
Lemma str_cmp_refl a : str_cmp a a = Eq.
Proof. apply lex_refl. Qed.
#[export] Instance slt_trans : Transitive slt.
Proof. intros a b c. apply lex_trans. Qed.
Lemma slt_irrefl a : ~ slt a a.
Proof. unfold slt. by rewrite str_cmp_refl. Qed.
Lemma str_cmp_gt a b : str_cmp a b = Gt -> slt b a.
Proof. unfold slt, str_cmp. intros H. by rewrite lex_antisym, H. Qed.

(** ** Merging the log with the database *)
Section merge.
Context {C : AddressCodec} {G : AddressGen}.

Definition ascending {V} (l : list (str * V)) : Prop := StronglySorted (fun a b => slt a.1 b.1) l.
Definition above {V} (k : str) (l : list (str * V)) : Prop := Forall (fun e => slt k e.1) l.

(** What an entry of the log makes visible *)
Definition mod_value (m : StorageModification) : option bytes :=
  match m with
  | Write v | Temp v => Some v
  | InitAccount h => Some (hash_bytes h)
  | Delete => None
  end.
(** The entry of the log wins over the entry of the database *)
Definition visible (wl : list (str * StorageModification)) (sto : list (str * bytes)) (k : str) (v : bytes) : Prop :=
  (exists m, (k, m) ∈ wl /\ mod_value m = Some v) \/ ((k, v) ∈ sto /\ k ∉ wl.*1).

Lemma above_notin {V} k (l : list (str * V)) : above k l -> k ∉ l.*1.
Proof.
  intros Ha ((k' & v) & -> & Hin)%list_elem_of_fmap. apply (slt_irrefl k').
  unfold above in Ha. rewrite list.Forall_forall in Ha. by apply (Ha _ Hin).
Qed.
Lemma above_weaken {V} a b (l : list (str * V)) : slt a b -> above b l -> above a l.
Proof. intros Hab. apply Forall_impl. intros e He. by transitivity b. Qed.
Lemma ascending_cons {V} k (v : V) l : ascending ((k, v) :: l) <-> ascending l /\ above k l.
Proof. split; [by intros [? ?]%StronglySorted_inv|]. intros [? ?]. by constructor. Qed.

Lemma visible_log wk m wl sto k v : wk ∉ wl.*1 -> wk ∉ sto.*1 ->
  visible ((wk, m) :: wl) sto k v <-> (k = wk /\ mod_value m = Some v) \/ visible wl sto k v.
Proof.
  intros Hwl Hsto. unfold visible. rewrite fmap_cons. cbn [fst].
  setoid_rewrite elem_of_cons. split.
  - intros [(m' & [[= -> ->]|Hin] & Hm)|[Hin Hk]]; naive_solver.
  - intros [[-> Hm]|[(m' & Hin & Hm)|[Hin Hk]]]; [naive_solver..|].
    right. split; [done|]. intros [->|?]; [|done]. apply Hsto. apply list_elem_of_fmap. by exists (wk, v).
Qed.
Lemma visible_shadow wk m wl v0 sto k v : wk ∉ sto.*1 ->
  visible ((wk, m) :: wl) ((wk, v0) :: sto) k v <-> visible ((wk, m) :: wl) sto k v.
Proof.
  intros Hsto. unfold visible. rewrite fmap_cons. cbn [fst]. rewrite (elem_of_cons sto). split.
  - intros [?|[[[= -> ->]|Hin] Hk]]; [by left| |by right]. exfalso. apply Hk. by left.
  - intros [?|[Hin Hk]]; [by left|right]. split; [by right|done].
Qed.
Lemma visible_storage sk v0 wl sto k v : sk ∉ wl.*1 ->
  visible wl ((sk, v0) :: sto) k v <-> (k = sk /\ v = v0) \/ visible wl sto k v.
Proof.
  intros Hwl. unfold visible. rewrite elem_of_cons. split; [naive_solver|].
  intros [[-> ->]|[?|[? ?]]]; naive_solver.
Qed.
Lemma visible_above a wl sto k v : above a wl -> above a sto -> visible wl sto k v -> slt a k.
Proof.
  unfold above. rewrite !list.Forall_forall. intros Hw Hs [(m & Hin & _)|[Hin _]];
    [apply (Hw _ Hin)|apply (Hs _ Hin)].
Qed.

(** One call of the iterator returns the visible entry with the smallest key,
    and leaves an iterator over the rest. *)
Definition next_spec wl sto (r : option ((str * bytes * Z) * PrefixIter)) : Prop :=
  match r with
  | None => forall k v, ~ visible wl sto k v
  | Some ((k, v, _), it) =>
      ascending (write_log_iter it) /\ ascending (storage_iter it) /\
      (iter_size it < length wl + length sto)%nat /\
      above k (write_log_iter it) /\ above k (storage_iter it) /\
      forall k' v', visible wl sto k' v' <->
        (k' = k /\ v' = v) \/ visible (write_log_iter it) (storage_iter it) k' v'
  end.

Lemma next_spec_skip wk wl sto sto0 r : (length sto <= length sto0)%nat ->
  (forall k v, visible ((wk, Delete) :: wl) sto0 k v <-> visible wl sto k v) ->
  next_spec wl sto r -> next_spec ((wk, Delete) :: wl) sto0 r.
Proof.
  intros Hlen Hv. destruct r as [[[[k v] g] it]|]; cbn [next_spec].
  - intros (? & ? & Hs & ? & ? & Hvis). split_and!; try done; [cbn; lia|].
    intros k' v'. by rewrite Hv, Hvis.
  - intros Hn k v. rewrite Hv. apply Hn.
Qed.

(** The entry of the log comes first: [sto] is the database without the entry
    it shadows *)
Lemma next_spec_log wk m wl sto sto0 g : ascending wl -> above wk wl -> ascending sto -> above wk sto ->
  (length sto <= length sto0)%nat ->
  (forall k v, visible ((wk, m) :: wl) sto0 k v <-> visible ((wk, m) :: wl) sto k v) ->
  next_spec wl sto (prefix_next wl sto) ->
  next_spec ((wk, m) :: wl) sto0
    (match m with
     | Write value | Temp value => Some ((wk, value, g value), mkPrefixIter sto wl)
     | InitAccount h => Some ((wk, hash_bytes h, g (hash_bytes h)), mkPrefixIter sto wl)
     | Delete => prefix_next wl sto
     end).
Proof.
  intros Hwl Hawl Hsto Hasto Hlen Hv IH.
  assert (wk ∉ wl.*1) as Hn1 by by apply above_notin.
  assert (wk ∉ sto.*1) as Hn2 by by apply above_notin.
  destruct m as [value| |h|value].
  2: { eapply next_spec_skip; [done| |exact IH]. intros k v. rewrite Hv, visible_log by done.
       cbn [mod_value]. naive_solver. }
  all: cbn [next_spec]; unfold iter_size; cbn [write_log_iter storage_iter length]; split_and!;
    try done; try lia; intros k' v'; rewrite Hv, visible_log by done; cbn [mod_value]; naive_solver.
Qed.

Lemma prefix_next_spec wl : forall sto, ascending wl -> ascending sto -> next_spec wl sto (prefix_next wl sto).
Proof.
  induction wl as [|[wk m] wl IH]; intros sto Hwl Hsto.
  - destruct sto as [|[k v] sto]; cbn [prefix_next next_spec].
    + intros k v [(? & ?%elem_of_nil & _)|[?%elem_of_nil _]]; done.
    + apply ascending_cons in Hsto as [Hsto Ha]. unfold iter_size.
      cbn [write_log_iter storage_iter length]. split_and!; try done; try lia; try apply SSorted_nil; try apply Forall_nil_2.
      intros k' v'. apply visible_storage. by intros ?%elem_of_nil.
  - apply ascending_cons in Hwl as [Hwl Hawl]. destruct sto as [|[sk v] sto]; cbn [prefix_next].
    { apply next_spec_log; try done; try constructor. by apply IH. }
    pose proof (proj1 (ascending_cons _ _ _) Hsto) as [Hsto' Hasto].
    unfold str_leb, str_eqb. destruct (str_cmp wk sk) eqn:Hc.
    + apply str_cmp_eq in Hc as <-. apply next_spec_log; try done; [cbn; lia| |by apply IH].
      intros k' v'. apply visible_shadow. by apply above_notin.
    + apply next_spec_log; try done; [|by apply IH].
      constructor; [done|]. by eapply above_weaken.
    + apply str_cmp_gt in Hc. assert (above sk ((wk, m) :: wl)) as Hasw.
      { constructor; [done|]. by eapply above_weaken. }
      cbn [next_spec]. unfold iter_size. cbn [write_log_iter storage_iter length].
      split_and!; try done; try lia; [by apply ascending_cons|].
      intros k' v'. apply visible_storage. by apply above_notin.
Qed.

Lemma collect_spec n : forall it, (iter_size it <= n)%nat ->
  ascending (write_log_iter it) -> ascending (storage_iter it) ->
  ascending (collect n it) /\
  (forall k, above k (write_log_iter it) -> above k (storage_iter it) -> above k (collect n it)) /\
  (forall k v, (k, v) ∈ collect n it <-> visible (write_log_iter it) (storage_iter it) k v).
Proof.
  induction n as [|n IH]; intros it Hn Hw Hs.
  - unfold iter_size in Hn. destruct it as [[|? sto] [|? wl]]; cbn in Hn; try lia. cbn. split_and!.
    + constructor.
    + intros. constructor.
    + intros k v. unfold visible. cbn. setoid_rewrite elem_of_nil. naive_solver.
  - cbn [collect]. pose proof (prefix_next_spec _ _ Hw Hs) as Hspec. fold (iter_next it) in Hspec.
    destruct (iter_next it) as [[[[k v] g] it']|]; cbn [next_spec] in Hspec.
    + destruct Hspec as (Hw' & Hs' & Hsz & Haw & Has & Hv).
      unfold iter_size in Hn at 1. destruct (IH it') as (Hasc & Habv & Hin); [lia|done|done|].
      split_and!.
      * apply ascending_cons. auto.
      * intros a Ha1 Ha2. constructor; [|apply Habv].
        -- cbn. apply (visible_above a _ _ k v Ha1 Ha2), Hv. by left.
        -- eapply above_weaken; [|exact Haw]. apply (visible_above a _ _ k v Ha1 Ha2), Hv. by left.
        -- eapply above_weaken; [|exact Has]. apply (visible_above a _ _ k v Ha1 Ha2), Hv. by left.
      * intros k' v'. rewrite elem_of_cons, Hin, Hv. naive_solver.
    + split_and!; [constructor|intros; constructor|].
      intros k v. rewrite elem_of_nil. split; [done|]. apply Hspec.
Qed.
End merge.

(** ** Iteration agrees with reads *)
Section sorted.
Lemma str_leb_total a b : str_leb a b || str_leb b a.
Proof.
  unfold str_leb. destruct (str_cmp a b) eqn:H; [done..|].
  apply str_cmp_gt in H. unfold slt in H. by rewrite H.
Qed.
Lemma str_leb_spec a b : str_leb a b <-> slt a b \/ a = b.
Proof.
  unfold str_leb, slt. destruct (str_cmp a b) eqn:H; split; try done; auto.
  - intros _. right. by apply str_cmp_eq.
  - intros [?| ->]; [done|]. by rewrite str_cmp_refl in H.
Qed.
Lemma str_leb_trans a b c : str_leb a b -> str_leb b c -> str_leb a c.
Proof.
  rewrite !str_leb_spec. intros [?| ->] [?| ->]; auto. left. by transitivity b.
Qed.

(** Entries with different keys come out strictly ascending *)
Lemma sorted_entries_ascending {V} (l : list (str * V)) : NoDup l.*1 -> ascending (sorted_entries l).
Proof.
  intros Hnd. pose proof (sort_le_perm by_key l) as Hp. unfold sorted_entries.
  rewrite <- Hp in Hnd. revert Hnd.
  pose proof (sort_le_sorted by_key l (fun x y => str_leb_total x.1 y.1)
    (fun x y z => str_leb_trans x.1 y.1 z.1)) as Hs. clear Hp.
  induction Hs as [|[k v] r Hr IH Hall]; [constructor|]. rewrite fmap_cons. intros [Hk Hnd]%list.NoDup_cons.
  apply ascending_cons. split; [by apply IH|]. unfold above. rewrite list.Forall_forall in *.
  intros [k' v'] Hin. specialize (Hall _ Hin). unfold by_key in Hall. cbn in *.
  apply str_leb_spec in Hall as [?| <-]; [done|]. exfalso. apply Hk. apply list_elem_of_fmap. by exists (k, v').
Qed.
Lemma elem_of_sorted_entries {V} (l : list (str * V)) e : e ∈ sorted_entries l <-> e ∈ l.
Proof. unfold sorted_entries. by rewrite sort_le_perm. Qed.
End sorted.

Section key_prefix.
Context {C : AddressCodec} {HC : AddressCodecLaws C}.

Lemma seg_raw_inj a b : seg_ok a -> seg_ok b -> seg_raw a = seg_raw b -> a = b.
Proof.
  intros Ha Hb He. apply (f_equal seg_parse) in He. rewrite !seg_parse_raw in He by done. by injection He.
Qed.
Lemma segs_raw_inj k p : Forall seg_ok k -> Forall seg_ok p -> seg_raw <$> k = seg_raw <$> p -> k = p.
Proof.
  intros Hk. revert p. induction Hk as [|a k Ha _ IH]; intros [|b p] Hp; try done.
  inversion_clear Hp. rewrite !fmap_cons. intros [= He Hr]. f_equal; [by apply seg_raw_inj|by apply IH].
Qed.
Lemma key_to_string_inj k k' : key_ok k -> key_ok k' -> key_to_string k = key_to_string k' -> k = k'.
Proof.
  intros [? ?] [? ?] He. apply (f_equal key_parse) in He. rewrite !key_parse_to_string in He by done. by injection He.
Qed.

Lemma split_on_nonempty c s : split_on c s <> [].
Proof. induction s as [|x s IH]; cbn; [done|]. destruct (bool_decide _); [done|]. by destruct (split_on c s). Qed.

Lemma join_app ps qs : ps <> [] -> qs <> [] ->
  join_with KEY_SEGMENT_SEPARATOR (ps ++ qs)
  = join_with KEY_SEGMENT_SEPARATOR ps ++ KEY_SEGMENT_SEPARATOR :: join_with KEY_SEGMENT_SEPARATOR qs.
Proof.
  induction ps as [|p ps IH]; intros Hp Hq; [done|].
  destruct ps as [|p' ps]; [by destruct qs|].
  change (join_with KEY_SEGMENT_SEPARATOR ((p :: p' :: ps) ++ qs))
    with (p ++ KEY_SEGMENT_SEPARATOR :: join_with KEY_SEGMENT_SEPARATOR ((p' :: ps) ++ qs)).
  rewrite IH by done. cbn [join_with]. by rewrite <- app_assoc.
Qed.

Lemma split_on_join_app ps s : ps <> [] -> Forall (fun p => KEY_SEGMENT_SEPARATOR ∉ p) ps ->
  split_on KEY_SEGMENT_SEPARATOR (join_with KEY_SEGMENT_SEPARATOR ps ++ KEY_SEGMENT_SEPARATOR :: s)
  = ps ++ split_on KEY_SEGMENT_SEPARATOR s.
Proof.
  induction ps as [|p ps IH]; intros Hne Hf; [done|]. inversion_clear Hf.
  destruct ps as [|p' ps]; [by apply split_on_app|].
  change (join_with KEY_SEGMENT_SEPARATOR (p :: p' :: ps))
    with (p ++ KEY_SEGMENT_SEPARATOR :: join_with KEY_SEGMENT_SEPARATOR (p' :: ps)).
  rewrite <- app_assoc. cbn [app]. rewrite split_on_app by done. f_equal. by apply IH.
Qed.

(** The textual prefix test of the database is the test on segments *)
Lemma db_prefix_spec (p k : Key) : p <> [] -> Forall seg_ok p -> key_ok k ->
  db_prefix p `prefix_of` key_to_string k <-> exists rest, rest <> [] /\ k = p ++ rest.
Proof.
  intros Hp Hps [Hks Hkne]. unfold db_prefix. destruct p as [|s0 p0]; [done|]. set (p := s0 :: p0) in *.
  assert (Forall (fun q => KEY_SEGMENT_SEPARATOR ∉ q) (seg_raw <$> p)) as Hpf.
  { apply Forall_fmap. eapply Forall_impl; [|exact Hps]. apply seg_raw_no_sep. }
  split.
  - intros [rest Hr]. rewrite <- app_assoc in Hr. cbn [app] in Hr. unfold key_to_string in Hr.
    apply (f_equal (split_on KEY_SEGMENT_SEPARATOR)) in Hr.
    rewrite split_on_join_app, split_join in Hr; [|by intros ->%fmap_nil_inv| |done|done].
    2: { apply Forall_fmap. eapply Forall_impl; [|exact Hks]. apply seg_raw_no_sep. }
    apply fmap_app_inv in Hr as (p' & r & Hp' & Hr & ->). apply Forall_app in Hks as [Hp1 Hr1].
    apply segs_raw_inj in Hp' as <-; [|done|done]. exists r. split; [|done].
    intros ->. by apply (split_on_nonempty KEY_SEGMENT_SEPARATOR rest).
  - intros (rest & Hne & ->). unfold key_to_string. rewrite fmap_app, join_app;
      [|done|by intros ?%fmap_nil_inv].
    eexists. rewrite <- app_assoc. done.
Qed.
End key_prefix.

Section agreement.
Context {C : AddressCodec} {HC : AddressCodecLaws C} {G : AddressGen}.

Definition keys_ok {V} (m : gmap Key V) : Prop := forall k, k ∈ dom m -> key_ok k.

Lemma db_iter_prefix_spec (p : Key) (db : gmap Key bytes) : keys_ok db -> p <> [] -> Forall seg_ok p ->
  ascending (db_iter_prefix p db) /\
  (forall k v, key_ok k -> (exists rest, rest <> [] /\ k = p ++ rest) ->
     (key_to_string k, v) ∈ db_iter_prefix p db <-> db !! k = Some v).
Proof.
  intros Hok Hp Hps. unfold db_iter_prefix. split.
  - apply sorted_entries_ascending.
    eapply sublist_NoDup; [|apply fmap_sublist, sublist_filter].
    rewrite <- list_fmap_compose.
    rewrite (list_fmap_ext _ (key_to_string ∘ fst)) by (by intros ? []).
    rewrite list_fmap_compose. apply NoDup_fmap_2_strong; [|apply NoDup_fst_map_to_list].
    intros k k' Hk Hk' He.
    apply list_elem_of_fmap in Hk as ((k1 & v1) & -> & Hk%elem_of_map_to_list).
    apply list_elem_of_fmap in Hk' as ((k2 & v2) & -> & Hk'%elem_of_map_to_list).
    apply key_to_string_inj; [apply Hok; by eapply elem_of_dom_2..|done].
  - intros k v Hk Hrest. rewrite elem_of_sorted_entries, list_elem_of_filter. cbn [fst].
    rewrite (db_prefix_spec p k) by done. rewrite list_elem_of_fmap. split.
    + intros (_ & (k' & v') & [= He ->] & Hin%elem_of_map_to_list).
      apply key_to_string_inj in He as ->; [done|done|]. apply Hok. by eapply elem_of_dom_2.
    + intros Hin. split; [done|]. exists (k, v). split; [done|]. by apply elem_of_map_to_list.
Qed.

Lemma map_entries_ascending {V} (m : gmap str V) : ascending (sorted_entries (map_to_list m)).
Proof. apply sorted_entries_ascending, NoDup_fst_map_to_list. Qed.
Lemma elem_of_map_entries {V} (m : gmap str V) k v :
  (k, v) ∈ sorted_entries (map_to_list m) <-> m !! k = Some v.
Proof. by rewrite elem_of_sorted_entries, elem_of_map_to_list. Qed.
Lemma map_entries_keys {V} (m : gmap str V) k :
  k ∈ (sorted_entries (map_to_list m)).*1 <-> is_Some (m !! k).
Proof.
  rewrite list_elem_of_fmap. split.
  - intros ((k' & v) & -> & Hin%elem_of_map_entries). by exists v.
  - intros [v Hv]. exists (k, v). split; [done|]. by apply elem_of_map_entries.
Qed.

(** The log's entry for a key under the prefix is the one reads find *)
Lemma iter_prefix_post_lookup (p : Key) (w : WriteLog) k : tx_precommit_write_log w = ∅ ->
  keys_ok (tx_write_log w) -> keys_ok (block_write_log w) -> key_ok k ->
  (exists rest, k = p ++ rest) -> iter_prefix_post p w !! key_to_string k = find w k.
Proof.
  intros Hpre Htx Hblock Hk [rest ->]. unfold iter_prefix_post, iter_prefix_pre, find.
  rewrite !fold_match_lookup, Hpre, lookup_empty by done.
  assert (exists r, split_prefix (p ++ rest) p = Some r) as [r ->].
  { destruct (split_prefix (p ++ rest) p) eqn:Hs; [eauto|].
    destruct (split_prefix_spec (p ++ rest) p) as (_ & _ & Hn). pose proof (proj1 Hn Hs) as Hs2. by destruct (Hs2 rest). }
  rewrite lookup_empty. destruct (tx_write_log w !! _); [done|]. by destruct (block_write_log w !! _).
Qed.

(** The iterators yield only keys under the prefix *)
Lemma fold_match_inv (p : Key) (m : modifications) acc str v :
  map_fold (insert_match p) acc m !! str = Some v ->
  acc !! str = Some v \/ exists k rest, k ∈ dom m /\ k = p ++ rest /\ str = key_to_string k.
Proof.
  revert str v. apply (map_fold_weak_ind (fun r m => forall str v, r !! str = Some v ->
    acc !! str = Some v \/ exists k rest, k ∈ dom m /\ k = p ++ rest /\ str = key_to_string k)); [by left|].
  intros k x m' r Hk IH str v. unfold insert_match.
  destruct (split_prefix k p) as [o|] eqn:Hs.
  - rewrite lookup_insert_Some. intros [[<- _]|[_ Hr]].
    + right. destruct (split_prefix_spec k p) as (Hs1 & Hs2 & _).
      destruct o as [rest|]; [apply Hs1 in Hs as [-> _]; exists (p ++ rest), rest|apply Hs2 in Hs as ->; exists p, []].
      * split; [rewrite dom_insert; set_solver|done].
      * rewrite app_nil_r. split; [rewrite dom_insert; set_solver|done].
    + destruct (IH _ _ Hr) as [?|(k' & rest & ? & ? & ?)]; [by left|]. right. exists k', rest. split; [rewrite dom_insert; set_solver|done].
  - intros Hr. destruct (IH _ _ Hr) as [?|(k' & rest & ? & ? & ?)]; [by left|]. right. exists k', rest. split; [rewrite dom_insert; set_solver|done].
Qed.
Lemma iter_prefix_post_inv (p : Key) (w : WriteLog) str v : iter_prefix_post p w !! str = Some v ->
  exists k rest, (k ∈ dom (tx_write_log w) \/ k ∈ dom (block_write_log w)) /\ k = p ++ rest /\ str = key_to_string k.
Proof.
  unfold iter_prefix_post, iter_prefix_pre. intros [[Hn|(k & rest & ? & ? & ?)]%fold_match_inv|(k & rest & ? & ? & ?)]%fold_match_inv.
  - by rewrite lookup_empty in Hn.
  - exists k, rest. auto.
  - exists k, rest. auto.
Qed.
Lemma db_iter_prefix_inv (p : Key) (db : gmap Key bytes) str v : keys_ok db -> p <> [] -> Forall seg_ok p ->
  (str, v) ∈ db_iter_prefix p db -> exists k rest, key_ok k /\ k = p ++ rest /\ rest <> [] /\ str = key_to_string k.
Proof.
  intros Hok Hp Hps. unfold db_iter_prefix. rewrite elem_of_sorted_entries, list_elem_of_filter, list_elem_of_fmap. cbn [fst].
  intros (Hpre & (k & x) & [= -> ->] & Hin%elem_of_map_to_list).
  assert (key_ok k) as Hk by (apply Hok; by eapply elem_of_dom_2).
  apply (db_prefix_spec p k) in Hpre as (rest & ? & ?); [|done..]. by exists k, rest.
Qed.

(** What the merged iterator makes visible at a key of the log or strictly under
    the prefix is what a read of the key returns. *)
Lemma visible_read {E} (s : WlStorage) (p k : Key) rest v r :
  p <> [] -> Forall seg_ok p -> keys_ok (subspace (storage s)) ->
  keys_ok (tx_write_log (write_log s)) -> keys_ok (block_write_log (write_log s)) ->
  tx_precommit_write_log (write_log s) = ∅ -> key_ok k -> k = p ++ rest ->
  rest <> [] \/ is_Some (find (write_log s) k) -> read_bytes (E:=E) s k = Ok r ->
  visible (write_log_iter (wl_iter_prefix p s)) (storage_iter (wl_iter_prefix p s)) (key_to_string k) v <-> r = Some v.
Proof.
  intros Hp Hps Hdb Htx Hblock Hpre Hk Hrest Hor Hr. unfold visible, wl_iter_prefix. cbn [write_log_iter storage_iter].
  setoid_rewrite elem_of_map_entries. rewrite map_entries_keys.
  rewrite iter_prefix_post_lookup by (try done; naive_solver).
  unfold read_bytes, read in Hr. destruct (read_cost _ _) as [g| |]; cbn in Hr; [|done..].
  destruct (find (write_log s) k) as [m|].
  - destruct m as [value| |h|value]; injection Hr as <-; cbn; split; naive_solver.
  - destruct Hor as [Hne|[? ?]]; [|done]. destruct (db_iter_prefix_spec p _ Hdb Hp Hps) as [_ Hin].
    rewrite Hin by (try done; by exists rest). injection Hr as <-. split; naive_solver.
Qed.
End agreement.

(** C14. Iterating a prefix through the write log agrees with reading the keys
    one by one. Provided the precommit log is empty, which the iterator does not
    look at, the iterator of [WlStorage], which merges the sorted entries of the
    log and of the database on the fly, ends and returns keys in strictly
    ascending order. Every pair it yields is a key of the prefix with the value
    that [read_bytes] returns for it; the key that is the prefix itself is
    yielded only when the log holds it. And every key strictly under the prefix
    for which [read_bytes] returns a value is yielded with that value, whatever
    mixture of writes, deletions and new accounts the log holds. *)
Theorem iteration_agrees_with_reads {C : AddressCodec} {HC : AddressCodecLaws C} {G : AddressGen} {E}
  (s : WlStorage) (p : Key) :
  p <> [] -> Forall seg_ok p -> keys_ok (subspace (storage s)) ->
  keys_ok (tx_write_log (write_log s)) -> keys_ok (block_write_log (write_log s)) ->
  tx_precommit_write_log (write_log s) = ∅ ->
  let it := wl_iter_prefix p s in
  forall fuel, (iter_size it <= fuel)%nat ->
  ascending (collect fuel it) /\
  (forall str v, (str, v) ∈ collect fuel it ->
    exists k rest, key_ok k /\ k = p ++ rest /\ str = key_to_string k /\
      (rest <> [] \/ is_Some (find (write_log s) k)) /\
      forall r, read_bytes (E:=E) s k = Ok r -> r = Some v) /\
  forall k v r, key_ok k -> (exists rest, rest <> [] /\ k = p ++ rest) ->
    read_bytes (E:=E) s k = Ok r -> ((key_to_string k, v) ∈ collect fuel it <-> r = Some v).
Proof.
  intros Hp Hps Hdb Htx Hblock Hpre it fuel Hfuel.
  destruct (db_iter_prefix_spec p _ Hdb Hp Hps) as [Hasc _].
  destruct (collect_spec fuel it Hfuel) as (Hc & _ & Hv); [apply map_entries_ascending|done|].
  split; [done|]. split.
  - intros str v Hin. apply Hv in Hin.
    assert (exists k rest, key_ok k /\ k = p ++ rest /\ str = key_to_string k /\ (rest <> [] \/ is_Some (find (write_log s) k)))
      as (k & rest & Hk & Hkp & -> & Hor).
    { destruct Hin as [(m & Hm%elem_of_map_entries & _)|[Hm _]].
      - pose proof Hm as (k & rest & Hd & Hkp & ->)%iter_prefix_post_inv.
        assert (key_ok k) as Hk by (destruct Hd; [by apply Htx|by apply Hblock]).
        exists k, rest. split_and!; try done. right. rewrite <- (iter_prefix_post_lookup p) by (try done; naive_solver). by exists m.
      - apply db_iter_prefix_inv in Hm as (k & rest & ? & ? & ? & ?); [|done..]. exists k, rest. auto. }
    exists k, rest. split_and!; try done. intros r Hr. by eapply visible_read in Hin.
  - intros k v r Hk (rest & Hne & Hkp) Hr. rewrite Hv. eapply visible_read; eauto.
Qed.

(** ** The schedule of epochs *)
Section epoch_schedule.
Context {E : Type} (d : EpochDuration).

Definition spaced (gap : Z) (l : list Z) : Prop :=
  forall i a b, l !! i = Some a -> l !! S i = Some b -> a + gap <= b.

Lemma spaced_snoc gap l a b : spaced gap (l ++ [a]) -> a + gap <= b -> spaced gap ((l ++ [a]) ++ [b]).
Proof.
  intros Hs Hab i x y Hx Hy. apply lookup_app_Some in Hy as [Hy|[Hle Hy]].
  - rewrite lookup_app_l in Hx by (apply lookup_lt_Some in Hy; lia). by eapply Hs.
  - apply list_lookup_singleton_Some in Hy as [Hi ->].
    rewrite length_app in *. cbn in *. assert (i = length l) as -> by lia.
    rewrite lookup_app_l, lookup_app_r, Nat.sub_diag in Hx by (rewrite ?length_app; cbn; lia).
    cbn in Hx. by injection Hx as ->.
Qed.

(** Before the block at height [h]: the epoch counts the recorded heights; the
    next epoch waits for the minimum number of blocks, and a pending switch was
    decided at a height past that minimum *)
Definition epoch_inv (h : Z) (s : EpochState) : Prop :=
  exists l start, first_block_heights (pred_epochs s) = l ++ [start] /\
    Z.of_nat (length l) = block_epoch s /\
    spaced (min_num_of_blocks d + EPOCH_SWITCH_BLOCKS_DELAY) (l ++ [start]) /\
    next_epoch_min_start_height s = start + min_num_of_blocks d /\
    match update_epoch_blocks_delay s with
    | None => True
    | Some k => 1 <= k <= EPOCH_SWITCH_BLOCKS_DELAY /\
        start + min_num_of_blocks d + (EPOCH_SWITCH_BLOCKS_DELAY - k) + 1 <= h
    end.

Lemma genesis_inv h t s : init_genesis_epoch (E:=E) d h t = Ok s -> epoch_inv (h + 1) s.
Proof.
  unfold init_genesis_epoch. intros (m & Hm & [= <-])%out_bind_Ok. apply unwrap_Ok, u64_checked_add_Some in Hm as [-> _].
  exists [], h. cbn. split_and!; try done.
Qed.

Lemma update_epoch_inv h t s : epoch_inv h s -> 0 <= min_num_of_blocks d ->
  block_epoch s + 1 <= U64_MAX -> h + min_num_of_blocks d <= U64_MAX ->
  exists b s', update_epoch (E:=E) d h t s = Ok (b, s') /\ epoch_inv (h + 1) s' /\
    block_epoch s' = block_epoch s + Z.b2z b /\
    update_epoch_blocks_delay s' =
      (if b then None else
       match update_epoch_blocks_delay s with
       | None => if (next_epoch_min_start_height s <=? h) && (next_epoch_min_start_time s <=? t)
                 then Some EPOCH_SWITCH_BLOCKS_DELAY else None
       | Some k => Some (k - 1)
       end) /\
    b = bool_decide (update_epoch_blocks_delay s = Some 1) /\
    (b = false -> next_epoch_min_start_height s' = next_epoch_min_start_height s /\
                  next_epoch_min_start_time s' = next_epoch_min_start_time s).
Proof.
  intros (l & start & Hl & Hep & Hsp & Hmin & Hd) Hm He Hh.
  unfold update_epoch, next_delay. destruct (update_epoch_blocks_delay s) as [k|] eqn:Hk.
  - destruct Hd as [Hk2 Hst]. unfold EPOCH_SWITCH_BLOCKS_DELAY in *. rewrite u64_sub_ok by lia. cbn [out_bind].
    destruct (decide (k = 1)) as [->|Hne].
    + cbn. rewrite !u64_add_ok by lia. cbn [out_bind]. eexists true, _. split; [done|].
      split_and!; try done. exists (l ++ [start]), h. cbn. rewrite Hl, length_app. cbn.
      split_and!; try done; [lia|]. apply spaced_snoc; [done|unfold EPOCH_SWITCH_BLOCKS_DELAY; lia].
    + assert (k = 2) as -> by lia. cbn. eexists false, _. split; [done|]. split_and!; try done; [|cbn; lia].
      exists l, start. cbn. unfold EPOCH_SWITCH_BLOCKS_DELAY. split_and!; try done; lia.
  - exists false, (mkEpochState (block_epoch s)
      (if (next_epoch_min_start_height s <=? h) && (next_epoch_min_start_time s <=? t)
       then Some EPOCH_SWITCH_BLOCKS_DELAY else None)
      (next_epoch_min_start_height s) (next_epoch_min_start_time s) (pred_epochs s)).
    split; [by destruct (_ && _)|]. cbn. split_and!; try done; [|lia].
    exists l, start. cbn. split_and!; try done.
    destruct (Z.leb_spec (next_epoch_min_start_height s) h), (_ <=? t); cbn; try done.
    unfold EPOCH_SWITCH_BLOCKS_DELAY. lia.
Qed.

(** Blocks run without stopping, keep the schedule and never decrease the epoch *)
Lemma run_blocks_inv times : forall h s, epoch_inv h s -> 0 <= min_num_of_blocks d ->
  block_epoch s + Z.of_nat (length times) <= U64_MAX ->
  h + Z.of_nat (length times) + min_num_of_blocks d <= U64_MAX ->
  exists s', run_blocks (E:=E) d h times s = Ok s' /\ epoch_inv (h + Z.of_nat (length times)) s' /\
    block_epoch s <= block_epoch s' <= block_epoch s + Z.of_nat (length times).
Proof.
  induction times as [|t times IH]; intros h s Hinv Hm He Hh; cbn [run_blocks length] in *.
  { exists s. rewrite Z.add_0_r. split_and!; [done..|lia]. }
  destruct (update_epoch_inv h t s) as (b & s1 & -> & Hinv1 & Hep & _); [done..|lia|lia|]. cbn [out_bind].
  destruct b; cbn in Hep; (destruct (IH (h + 1) s1) as (s2 & -> & Hinv2 & Hle); [done..|lia|lia|];
    exists s2; split; [done|]; replace (h + Z.of_nat (S (length times))) with (h + 1 + Z.of_nat (length times)) by lia;
    split; [done|lia]).
Qed.

(** The blocks that can pass before the switch *)
Definition blocks_left (h : Z) (s : EpochState) : nat :=
  match update_epoch_blocks_delay s with
  | Some k => Z.to_nat k
  | None => Z.to_nat (next_epoch_min_start_height s - h) + 3
  end.

Lemma run_blocks_live times : forall h s, epoch_inv h s -> 0 <= min_num_of_blocks d ->
  block_epoch s + Z.of_nat (length times) <= U64_MAX ->
  h + Z.of_nat (length times) + min_num_of_blocks d <= U64_MAX ->
  Forall (fun t => next_epoch_min_start_time s <= t) times -> (blocks_left h s <= length times)%nat ->
  exists s', run_blocks (E:=E) d h times s = Ok s' /\ block_epoch s + 1 <= block_epoch s'.
Proof.
  induction times as [|t times IH]; intros h s Hinv Hm He Hh Ht Hn; cbn [run_blocks length] in *.
  { exfalso. destruct Hinv as (? & ? & _ & _ & _ & _ & Hd). unfold blocks_left in Hn.
    destruct (update_epoch_blocks_delay s); lia. }
  inversion_clear Ht as [|? ? Htt Hts].
  destruct (update_epoch_inv h t s) as (b & s1 & -> & Hinv1 & Hep & Hdel & Hb & Hsame); [done..|lia|lia|].
  cbn [out_bind]. destruct b.
  - destruct (run_blocks_inv times (h + 1) s1) as (s2 & -> & _ & Hle); [done..|cbn in Hep; lia|lia|].
    exists s2. split; [done|]. cbn in Hep. lia.
  - destruct (Hsame eq_refl) as [Hmh Hmt]. cbn in Hep. rewrite Z.add_0_r in Hep.
    destruct (IH (h + 1) s1) as (s2 & -> & Hle); [done..|lia|lia|by rewrite Hmt| |].
    + unfold blocks_left in *. rewrite Hdel, Hmh. destruct (update_epoch_blocks_delay s) as [k|] eqn:Hk.
      * destruct Hinv as (? & ? & _ & _ & _ & _ & Hd). rewrite Hk in Hd. lia.
      * rewrite (proj2 (Z.leb_le (next_epoch_min_start_time s) t)) by done.
        destruct (Z.leb_spec (next_epoch_min_start_height s) h); cbn; unfold EPOCH_SWITCH_BLOCKS_DELAY; lia.
    + exists s2. split; [done|lia].
Qed.
End epoch_schedule.

(** C29. Epochs advance on schedule: in any run of blocks from genesis the
    number of recorded epoch starts matches the epoch, each epoch lasts at least
    the minimum number of blocks and the two blocks of delay that CometBFT needs,
    and once the minimum duration has passed a new epoch begins after at most
    the blocks missing to the minimum height plus three. *)
Theorem epochs_advance {E} (d : EpochDuration) (h0 t0 : Z) (before after : list Z) (s0 s : EpochState) :
  0 <= min_num_of_blocks d ->
  init_genesis_epoch (E:=E) d h0 t0 = Ok s0 -> run_blocks (E:=E) d (h0 + 1) before s0 = Ok s ->
  let h := h0 + 1 + Z.of_nat (length before) in
  h + Z.of_nat (length after) + min_num_of_blocks d <= U64_MAX -> 0 <= h0 ->
  (exists l start, first_block_heights (pred_epochs s) = l ++ [start] /\
     Z.of_nat (length l) = block_epoch s /\
     spaced (min_num_of_blocks d + EPOCH_SWITCH_BLOCKS_DELAY) (l ++ [start])) /\
  (Forall (fun t => next_epoch_min_start_time s <= t) after -> (blocks_left h s <= length after)%nat ->
   exists s', run_blocks (E:=E) d h after s = Ok s' /\ block_epoch s + 1 <= block_epoch s').
Proof.
  intros Hm Hg Hr h Hbound Hh0. pose proof (genesis_inv d _ _ _ Hg) as Hinv0.
  assert (block_epoch s0 = 0) as He0.
  { unfold init_genesis_epoch in Hg. by apply out_bind_Ok in Hg as (? & _ & [= <-]). }
  destruct (run_blocks_inv (E:=E) d before (h0 + 1) s0) as (s1 & Hr1 & Hinv & Hle); [done..|lia|lia|].
  rewrite Hr in Hr1. injection Hr1 as <-. fold h in Hinv. split.
  - destruct Hinv as (l & start & H1 & H2 & H3 & _). by exists l, start.
  - apply run_blocks_live; [done..|lia|lia].
Qed.

(** *** Concrete instances *)
Module RefStorage.
Definition key (a b : string) : Key := [StringSeg (lit a); StringSeg (lit b)].
Definition log : @WriteLog counter_gen :=
  @mkWriteLog counter_gen None {[ key "a" "b" := Delete ]} {[ key "a" "d" := Write [3] ]} ∅ ∅ ∅.
Definition sample : @WlStorage counter_gen :=
  @mkWl counter_gen log (@mkStorage counter_gen {[ key "a" "b" := [1]; key "a" "c" := [2] ]} ∅ ∅ 0).
#[export] Instance codec : AddressCodec := RefCodec.codec.

Lemma key_ok_sample b : b ∈ [lit "b"; lit "c"; lit "d"] -> key_ok [StringSeg (lit "a"); StringSeg b].
Proof.
  rewrite !elem_of_cons, elem_of_nil. intros [->|[->|[->|[]]]]; (split; [|done]);
    repeat constructor; try discriminate; cbn; rewrite !not_elem_of_cons; (split; [discriminate|]);
    apply not_elem_of_nil.
Qed.
Lemma sample_keys_ok : keys_ok (subspace (storage sample)) /\ keys_ok (tx_write_log (write_log sample)) /\
  keys_ok (block_write_log (write_log sample)).
Proof.
  split_and!; intros k; cbn; rewrite !dom_insert_L, dom_empty_L, !elem_of_union, !elem_of_singleton, elem_of_empty;
    [intros [Hk|[Hk|[]]]|intros [Hk|[]]..]; subst k; apply key_ok_sample; set_solver.
Qed.
End RefStorage.
Import RefStorage.

Lemma iteration_agrees_with_reads_witness :
  (key_to_string (key "a" "d"), [3]) ∈ collect 4 (wl_iter_prefix [StringSeg (lit "a")] sample) <-> Some [3] = Some [3].
Proof.
  destruct sample_keys_ok as (H1 & H2 & H3).
  refine (proj2 (proj2 (iteration_agrees_with_reads (HC:=RefCodec.codec_laws) (E:=unit) sample [StringSeg (lit "a")]
    _ _ H1 H2 H3 _ 4 _)) (key "a" "d") [3] (Some [3]) _ _ _).
  - discriminate.
  - repeat constructor; [|discriminate]. cbn. rewrite not_elem_of_cons. split; [discriminate|apply not_elem_of_nil].
  - reflexivity.
  - vm_compute. lia.
  - apply key_ok_sample. set_solver.
  - exists [StringSeg (lit "d")]. split; [discriminate|reflexivity].
  - vm_compute. reflexivity.
Defined.

Lemma epochs_advance_witness :
  let d := mkEpochDuration 3 10 in
  exists s s', run_blocks (E:=unit) d 2 [1; 12] (mkEpochState 0 None 4 10 (mkEpochs [1])) = Ok s /\
    run_blocks (E:=unit) d 4 [13; 14; 15] s = Ok s' /\ block_epoch s + 1 <= block_epoch s'.
Proof.
  set (s := mkEpochState 0 None 4 10 (mkEpochs [1])).
  destruct (epochs_advance (E:=unit) (mkEpochDuration 3 10) 1 0 [1; 12] [13; 14; 15] s s) as [_ Hlive];
    [vm_compute; discriminate|vm_compute; reflexivity|vm_compute; reflexivity|vm_compute; discriminate
    |vm_compute; discriminate|].
  destruct Hlive as (s' & Hr & Hle); [repeat constructor; vm_compute; discriminate|vm_compute; lia|].
  exists s, s'. split; [vm_compute; reflexivity|]. split; [exact Hr|exact Hle].
Defined.
