(* ===== verification/BlockAlloc.v ===== *)
(** * Allocation of block space
    ([apps/src/lib/node/ledger/shell/block_alloc.rs] and
    [block_alloc/states/*.rs])

    The state machine by which a proposer fills a block: encrypted (wrapper)
    transactions, then decrypted ones, then protocol transactions. The state of
    the machine is a parameter of the type, as in the source. *)

From Stdlib Require Import ZArith Lia.
From stdpp Require Import base numbers list option.
From S2P Require Import Prelude.

Local Open Scope Z_scope.
Local Open Scope outcome_scope.
Local Open Scope st_scope.

Notation tx_bytes := (list Z).

Inductive AllocFailure : Type :=
| Rejected (bin_resource_left : Z)
| OverflowsBin (bin_resource : Z).

(** ** [trait Resource] *)
Class Resource (I : Type) : Type := usage_of : I -> Z.
#[export] Instance BlockSpace : Resource tx_bytes := fun input => Z.of_nat (length input).
#[export] Instance BlockGas : Resource Z := fun input => input.

Record BlockResources : Type := mkResources { tx : tx_bytes; gas : Z }.

(** ** [TxBin] *)
Record TxBin : Type := mkBin { occupied : Z; allotted : Z }.
Definition bin_default : TxBin := mkBin 0 0.
Definition bin_init (max_capacity : Z) : TxBin := mkBin 0 max_capacity.
Definition resource_left {E} (b : TxBin) : outcome E Z := u64_sub (allotted b) (occupied b).
Definition shrink_to_fit (b : TxBin) : TxBin := mkBin (occupied b) (occupied b).

Definition try_dump {I} `{Resource I} (resource : I) : st TxBin AllocFailure unit := fun b =>
  let resource := usage_of resource in
  if allotted b <? resource then (b, Err (OverflowsBin (allotted b)))
  else
    match u64_add (occupied b) resource with
    | Ok occ =>
        if occ <=? allotted b then (mkBin occ (allotted b), Ok tt)
        else
          match resource_left b with
          | Ok left_ => (b, Err (Rejected left_))
          | Err e => (b, Err e)
          | Panic => (b, Panic)
          end
    | Err e => (b, Err e)
    | Panic => (b, Panic)
    end.

(** ** [threshold]: [Ratio<u64>] is exact rational arithmetic and
    [to_integer] drops the fraction *)
Record Threshold : Type := mkThreshold { numer : Z; denom : Z }.
Definition threshold_new (n d : Z) : Threshold := mkThreshold (if d <? n then d else n) d.
Definition over (t : Threshold) (free_space_in_bytes : Z) : Z := numer t * free_space_in_bytes / denom t.
Definition ONE_THIRD : Threshold := threshold_new 1 3.

Record EncryptedTxsBins : Type := mkEncBins { space : TxBin; gas_bin : TxBin }.
Definition enc_bins_new (max_bytes max_gas : Z) : EncryptedTxsBins :=
  mkEncBins (bin_init (over ONE_THIRD max_bytes)) (bin_init max_gas).

(** [self.space.try_dump(tx)?; self.gas.try_dump(gas)]: the space stays taken
    when the gas is refused *)
Definition enc_dump (r : BlockResources) : st EncryptedTxsBins AllocFailure unit := fun b =>
  match try_dump (tx r) (space b) with
  | (sp, Ok _) =>
      let '(gb, o) := try_dump (gas r) (gas_bin b) in (mkEncBins sp gb, o)
  | (sp, o) => (mkEncBins sp (gas_bin b), o)
  end.
(** [EncryptedTxsBins::try_dump], up to the text of the error *)
Inductive enc_error : Type := NoSpaceLeft | LargerThanThird | NoGasLeft | MoreGasThanBlock.
Definition enc_try_dump (t : tx_bytes) (g : Z) : st EncryptedTxsBins enc_error unit := fun b =>
  match try_dump t (space b) with
  | (sp, Err (Rejected _)) => (mkEncBins sp (gas_bin b), Err NoSpaceLeft)
  | (sp, Err (OverflowsBin _)) => (mkEncBins sp (gas_bin b), Err LargerThanThird)
  | (sp, Panic) => (mkEncBins sp (gas_bin b), Panic)
  | (sp, Ok _) =>
      match try_dump g (gas_bin b) with
      | (gb, Err (Rejected _)) => (mkEncBins sp gb, Err NoGasLeft)
      | (gb, Err (OverflowsBin _)) => (mkEncBins sp gb, Err MoreGasThanBlock)
      | (gb, Panic) => (mkEncBins sp gb, Panic)
      | (gb, Ok _) => (mkEncBins sp gb, Ok tt)
      end
  end.

(** ** The states of [BlockAllocator] *)
Inductive mode : Type := WithEncryptedTxs | WithoutEncryptedTxs.
Inductive alloc_state : Type :=
| BuildingEncryptedTxBatch (m : mode)
| BuildingDecryptedTxBatch
| BuildingProtocolTxBatch.

Record BlockAllocator (S : alloc_state) : Type := mkAlloc {
  block : TxBin;
  protocol_txs : TxBin;
  encrypted_txs : EncryptedTxsBins;
  decrypted_txs : TxBin
}.
Arguments mkAlloc {S} _ _ _ _.
Arguments block {S} _.
Arguments protocol_txs {S} _.
Arguments encrypted_txs {S} _.
Arguments decrypted_txs {S} _.

Definition alloc_init {m} (max max_block_gas : Z) : BlockAllocator (BuildingEncryptedTxBatch m) :=
  mkAlloc (bin_init max) bin_default (enc_bins_new max max_block_gas) bin_default.

Definition uninitialized_space_in_bytes {E S} (a : BlockAllocator S) : outcome E Z :=
  let* t := u64_add (allotted (protocol_txs a)) (allotted (space (encrypted_txs a))) in
  let* total := u64_add t (allotted (decrypted_txs a)) in
  u64_sub (allotted (block a)) total.

(** [TryAlloc] *)
Definition try_alloc_encrypted (m : mode) (r : BlockResources)
  : st (BlockAllocator (BuildingEncryptedTxBatch m)) AllocFailure unit := fun a =>
  match m with
  | WithEncryptedTxs =>
      let '(e, o) := enc_dump r (encrypted_txs a) in
      (mkAlloc (block a) (protocol_txs a) e (decrypted_txs a), o)
  | WithoutEncryptedTxs => (a, Err (Rejected 0))
  end.
Definition try_alloc_decrypted (t : tx_bytes)
  : st (BlockAllocator BuildingDecryptedTxBatch) AllocFailure unit := fun a =>
  let '(d, o) := try_dump t (decrypted_txs a) in
  (mkAlloc (block a) (protocol_txs a) (encrypted_txs a) d, o).
Definition try_alloc_protocol (t : tx_bytes)
  : st (BlockAllocator BuildingProtocolTxBatch) AllocFailure unit := fun a =>
  let '(p, o) := try_dump t (protocol_txs a) in
  (mkAlloc (block a) p (encrypted_txs a) (decrypted_txs a), o).

(** [NextState] *)
Definition next_state_encrypted {E m} (a : BlockAllocator (BuildingEncryptedTxBatch m))
  : outcome E (BlockAllocator BuildingDecryptedTxBatch) :=
  let e := mkEncBins (shrink_to_fit (space (encrypted_txs a))) (gas_bin (encrypted_txs a)) in
  let* remaining := uninitialized_space_in_bytes
                      (@mkAlloc BuildingDecryptedTxBatch (block a) (protocol_txs a) e (decrypted_txs a)) in
  Ok (mkAlloc (block a) (protocol_txs a) e (bin_init remaining)).
Definition next_state_decrypted {E} (a : BlockAllocator BuildingDecryptedTxBatch)
  : outcome E (BlockAllocator BuildingProtocolTxBatch) :=
  let d := shrink_to_fit (decrypted_txs a) in
  let* remaining := uninitialized_space_in_bytes
                      (@mkAlloc BuildingProtocolTxBatch (block a) (protocol_txs a) (encrypted_txs a) d) in
  Ok (mkAlloc (block a) (bin_init remaining) (encrypted_txs a) d).

(** ** The loops of [PrepareProposal]

    [take_while] keeps a transaction on success, stops on [Rejected], and goes
    on after [OverflowsBin]. *)
Definition take_tx {S A} (alloc : A -> st S AllocFailure unit) (bytes_of : A -> tx_bytes)
  (rest : S -> outcome AllocFailure (list tx_bytes * S)) (a : A) (s : S)
  : outcome AllocFailure (list tx_bytes * S) :=
  match alloc a s with
  | (s', Ok _) | (s', Err (OverflowsBin _)) =>
      let* '(l, s'') := rest s' in Ok (bytes_of a :: l, s'')
  | (s', Err (Rejected _)) => Ok ([], s')
  | (s', Panic) => Panic
  end.
Fixpoint take_txs {S A} (alloc : A -> st S AllocFailure unit) (bytes_of : A -> tx_bytes) (l : list A) (s : S)
  : outcome AllocFailure (list tx_bytes * S) :=
  match l with
  | [] => Ok ([], s)
  | a :: l' => take_tx alloc bytes_of (take_txs alloc bytes_of l') a s
  end.

(** A block built from candidate wrappers (with their gas), decrypted and
    protocol transactions *)
Definition build_block (m : mode) (max max_block_gas : Z) (enc : list BlockResources) (dec prot : list tx_bytes)
  : outcome AllocFailure (list tx_bytes * list tx_bytes * list tx_bytes) :=
  let* '(es, a) := take_txs (try_alloc_encrypted m) tx enc (alloc_init max max_block_gas) in
  let* a := next_state_encrypted a in
  let* '(ds, a) := take_txs try_alloc_decrypted id dec a in
  let* a := next_state_decrypted a in
  let* '(ps, _) := take_txs try_alloc_protocol id prot a in
  Ok (es, ds, ps).

(** ** Bins *)
Definition bin_wf (b : TxBin) : Prop := 0 <= occupied b <= allotted b /\ 2 * allotted b <= U64_MAX.

Lemma bin_init_wf n : 0 <= n -> 2 * n <= U64_MAX -> bin_wf (bin_init n).
Proof. unfold bin_wf, bin_init. cbn. lia. Qed.

(** The three outcomes of a dump *)
Lemma try_dump_cases {I} `{Resource I} (r : I) b : bin_wf b -> 0 <= usage_of r ->
  try_dump r b =
  if allotted b <? usage_of r then (b, Err (OverflowsBin (allotted b)))
  else if occupied b + usage_of r <=? allotted b
       then (mkBin (occupied b + usage_of r) (allotted b), Ok tt)
       else (b, Err (Rejected (allotted b - occupied b))).
Proof.
  intros [Hb Hmax] Hr. unfold try_dump. destruct (Z.ltb_spec (allotted b) (usage_of r)); [done|].
  rewrite u64_add_ok by lia. destruct (_ <=? _); [done|].
  unfold resource_left. by rewrite u64_sub_ok by lia.
Qed.

Lemma try_dump_wf {I} `{Resource I} (r : I) b : bin_wf b -> 0 <= usage_of r ->
  bin_wf (try_dump r b).1 /\ allotted (try_dump r b).1 = allotted b /\ (try_dump r b).2 <> Panic.
Proof.
  intros Hb Hr. rewrite try_dump_cases by done.
  destruct (_ <? _); [done|]. destruct (Z.leb_spec (occupied b + usage_of r) (allotted b)); [|done].
  unfold bin_wf in *. cbn. split_and!; [lia..|done].
Qed.

Lemma usage_tx_nonneg (t : tx_bytes) : 0 <= usage_of t.
Proof. unfold usage_of, BlockSpace. lia. Qed.

Definition size_of (l : list tx_bytes) : Z := sumZ ((fun t => Z.of_nat (length t)) <$> l).

Lemma size_of_nil : size_of [] = 0.
Proof. done. Qed.
Lemma size_of_cons t l : size_of (t :: l) = Z.of_nat (length t) + size_of l.
Proof. done. Qed.
Lemma size_of_app l k : size_of (l ++ k) = size_of l + size_of k.
Proof. unfold size_of. by rewrite fmap_app, sumZ_app. Qed.
Lemma size_of_nonneg l : 0 <= size_of l.
Proof. apply sumZ_nonneg, Forall_fmap, Forall_true. intros t. cbn. lia. Qed.

Lemma size_of_elem t l : t ∈ l -> Z.of_nat (length t) <= size_of l.
Proof.
  induction 1 as [t l|t t' l _ IH]; rewrite size_of_cons; pose proof (size_of_nonneg l); lia.
Qed.

(** ** Filling one batch

    An allocation that accounts for every transaction it keeps never keeps more
    than the space it has. *)
Section batch.
Context {S A : Type} (alloc : A -> st S AllocFailure unit) (bytes_of : A -> tx_bytes) (gas_of : A -> Z).
Context (Inv : S -> Prop) (used gas_used : S -> Z) (fits : A -> Prop).
Context (alloc_ok : forall a s, Inv s -> fits a ->
  exists s' o, alloc a s = (s', o) /\ Inv s' /\
    (o = Ok tt /\ used s' = used s + Z.of_nat (length (bytes_of a)) /\ gas_used s' = gas_used s + gas_of a \/
     (exists r, o = Err (Rejected r)) /\ used s <= used s' <= used s + Z.of_nat (length (bytes_of a)) /\
       gas_used s' = gas_used s)).

Lemma take_txs_ok l : forall s, Inv s -> Forall fits l ->
  exists kept s', take_txs alloc bytes_of l s = Ok (bytes_of <$> kept, s') /\ Inv s' /\
    used s + size_of (bytes_of <$> kept) <= used s' <= used s + size_of (bytes_of <$> l) /\
    gas_used s' = gas_used s + sumZ (gas_of <$> kept) /\ kept `prefix_of` l.
Proof using alloc_ok.
  induction l as [|a l IH]; intros s Hs Hf; cbn [take_txs].
  { exists [], s. cbn [fmap list_fmap]. rewrite size_of_nil, sumZ_nil. split_and!; [done..|lia|lia|lia|apply prefix_nil]. }
  inversion_clear Hf as [|? ? Ha Hl]. unfold take_tx.
  destruct (alloc_ok a s Hs Ha) as (s' & o & -> & Hs' & [(-> & Hu & Hg)|([r ->] & Hu & Hg)]).
  - destruct (IH s' Hs' Hl) as (kept & s2 & -> & Hs2 & Hu2 & Hg2 & Hp). cbn [out_bind].
    exists (a :: kept), s2. rewrite !fmap_cons, !size_of_cons, sumZ_cons. split_and!; [done..|lia|lia|lia|]. by apply prefix_cons.
  - exists [], s'. rewrite fmap_cons, size_of_cons. pose proof (size_of_nonneg (bytes_of <$> l)). cbn [fmap list_fmap].
    rewrite size_of_nil, sumZ_nil. split_and!; [done..|lia|lia|lia|apply prefix_nil].
Qed.
End batch.

(** ** The allocator *)
Section allocator.
Context (max max_gas : Z).
Context (Hmax : 0 <= max) (Hmax2 : 2 * max <= U64_MAX) (Hgas : 0 <= max_gas) (Hgas2 : 2 * max_gas <= U64_MAX).

Definition third : Z := max / 3.
Lemma over_third : over ONE_THIRD max = third.
Proof. unfold over, third. change (numer ONE_THIRD) with 1. change (denom ONE_THIRD) with 3. by rewrite Z.mul_1_l. Qed.
Lemma third_bounds : 0 <= third /\ 3 * third <= max.
Proof using Hmax. unfold third. Z.to_euclidean_division_equations. lia. Qed.

Definition enc_inv {m} (a : BlockAllocator (BuildingEncryptedTxBatch m)) : Prop :=
  bin_wf (space (encrypted_txs a)) /\ allotted (space (encrypted_txs a)) = third /\
  bin_wf (gas_bin (encrypted_txs a)) /\ allotted (gas_bin (encrypted_txs a)) = max_gas /\
  block a = bin_init max /\ protocol_txs a = bin_default /\ decrypted_txs a = bin_default.

Definition enc_fits (r : BlockResources) : Prop :=
  Z.of_nat (length (tx r)) <= third /\ 0 <= gas r <= max_gas.

Lemma alloc_init_inv m : enc_inv (alloc_init (m:=m) max max_gas).
Proof using All.
  pose proof third_bounds. unfold enc_inv, alloc_init, enc_bins_new. cbn. rewrite over_third.
  split_and!; try done; apply bin_init_wf; lia.
Qed.

Lemma alloc_encrypted_ok m r (a : BlockAllocator (BuildingEncryptedTxBatch m)) : enc_inv a -> enc_fits r ->
  exists a' o, try_alloc_encrypted m r a = (a', o) /\ enc_inv a' /\
    (o = Ok tt /\ occupied (space (encrypted_txs a')) = occupied (space (encrypted_txs a)) + Z.of_nat (length (tx r)) /\
       occupied (gas_bin (encrypted_txs a')) = occupied (gas_bin (encrypted_txs a)) + gas r \/
     (exists n, o = Err (Rejected n)) /\
       occupied (space (encrypted_txs a)) <= occupied (space (encrypted_txs a'))
         <= occupied (space (encrypted_txs a)) + Z.of_nat (length (tx r)) /\
       occupied (gas_bin (encrypted_txs a')) = occupied (gas_bin (encrypted_txs a))).
Proof.
  intros (Hs & Hsa & Hg & Hga & Hrest) [Ht Hgr]. destruct m; cbn [try_alloc_encrypted].
  2: { eexists _, _. split; [done|]. split; [done|]. right. split; [by eexists|]. split; [lia|done]. }
  unfold enc_dump. pose proof (usage_tx_nonneg (tx r)) as Hu.
  assert (usage_of (tx r) = Z.of_nat (length (tx r))) as Eu by done.
  assert (usage_of (gas r) = gas r) as Eg by done.
  rewrite (try_dump_cases (tx r)) by done. rewrite Eu in *.
  destruct (Z.ltb_spec (allotted (space (encrypted_txs a))) (Z.of_nat (length (tx r)))); [lia|].
  destruct (Z.leb_spec (occupied (space (encrypted_txs a)) + Z.of_nat (length (tx r))) (allotted (space (encrypted_txs a)))).
  2: { eexists _, _. split; [done|]. split; [done|]. right. split; [by eexists|]. cbn. split; [lia|done]. }
  rewrite (try_dump_cases (gas r)) by (done || lia). rewrite Eg.
  destruct (Z.ltb_spec (allotted (gas_bin (encrypted_txs a))) (gas r)); [lia|].
  destruct (Z.leb_spec (occupied (gas_bin (encrypted_txs a)) + gas r) (allotted (gas_bin (encrypted_txs a))));
    (eexists _, _; split; [done|]; split;
     [unfold enc_inv, bin_wf in *; cbn; split_and!; try apply Hrest; try done; lia|]).
  - left. done.
  - right. split; [by eexists|]. cbn. split; [lia|done].
Qed.

(** A batch held in one bin *)
Definition one_bin {T} (get : BlockAllocator T -> TxBin) (cap : Z) (P : BlockAllocator T -> Prop)
  (a : BlockAllocator T) : Prop := bin_wf (get a) /\ allotted (get a) = cap /\ P a.

Lemma dump_one_bin (t : tx_bytes) b cap : bin_wf b -> allotted b = cap -> Z.of_nat (length t) <= cap ->
  exists b' o, try_dump t b = (b', o) /\ bin_wf b' /\ allotted b' = cap /\
    (o = Ok tt /\ occupied b' = occupied b + Z.of_nat (length t) \/
     (exists n, o = Err (Rejected n)) /\ occupied b <= occupied b' <= occupied b + Z.of_nat (length t)).
Proof.
  intros Hb Hc Ht. pose proof (usage_tx_nonneg t) as Hu.
  rewrite try_dump_cases by done. assert (usage_of t = Z.of_nat (length t)) as -> by done.
  destruct (Z.ltb_spec (allotted b) (Z.of_nat (length t))); [lia|].
  destruct (Z.leb_spec (occupied b + Z.of_nat (length t)) (allotted b)).
  - eexists _, _. split; [done|]. unfold bin_wf in *. cbn. split_and!; try lia. by left.
  - eexists _, _. split; [done|]. split_and!; try done. right. split; [by eexists|lia].
Qed.

Lemma take_decrypted_ok (ds : list tx_bytes) (a : BlockAllocator BuildingDecryptedTxBatch) cap :
  decrypted_txs a = bin_init cap -> 0 <= cap -> 2 * cap <= U64_MAX ->
  Forall (fun t => Z.of_nat (length t) <= cap) ds ->
  exists kept a', take_txs try_alloc_decrypted id ds a = Ok (kept, a') /\ kept `prefix_of` ds /\
    size_of kept <= occupied (decrypted_txs a') <= cap /\ occupied (decrypted_txs a') <= size_of ds /\
    block a' = block a /\ protocol_txs a' = protocol_txs a /\ encrypted_txs a' = encrypted_txs a.
Proof.
  intros Ha Hc Hc2 Hds.
  destruct (take_txs_ok try_alloc_decrypted id (fun _ => 0)
    (one_bin decrypted_txs cap (fun x => block x = block a /\ protocol_txs x = protocol_txs a /\ encrypted_txs x = encrypted_txs a))
    (fun x => occupied (decrypted_txs x)) (fun _ => 0) (fun t => Z.of_nat (length t) <= cap)) with (l := ds) (s := a)
    as (kept & a' & Hr & (Hwf & Hal & Hrest) & Hu & _ & Hp).
  - intros t x (Hwf & Hal & Hx) Ht. unfold try_alloc_decrypted.
    destruct (dump_one_bin t _ cap Hwf Hal Ht) as (b' & o & -> & Hb' & Hc' & Ho).
    eexists _, _. split; [done|]. split; [unfold one_bin; cbn; tauto|]. cbn. destruct Ho as [[? ?]|[? ?]]; [left|right]; split_and!; done || lia.
  - unfold one_bin. rewrite Ha. split_and!; [by apply bin_init_wf|done..].
  - done.
  - exists kept, a'. rewrite !list_fmap_id in *. rewrite Ha in Hu. cbn in Hu.
    unfold bin_wf in Hwf. split_and!; [done|done|lia..|apply Hrest|apply Hrest|apply Hrest].
Qed.

Lemma take_protocol_ok (ps : list tx_bytes) (a : BlockAllocator BuildingProtocolTxBatch) cap :
  protocol_txs a = bin_init cap -> 0 <= cap -> 2 * cap <= U64_MAX ->
  Forall (fun t => Z.of_nat (length t) <= cap) ps ->
  exists kept a', take_txs try_alloc_protocol id ps a = Ok (kept, a') /\ kept `prefix_of` ps /\ size_of kept <= cap.
Proof.
  intros Ha Hc Hc2 Hps.
  destruct (take_txs_ok try_alloc_protocol id (fun _ => 0) (one_bin protocol_txs cap (fun _ => True))
    (fun x => occupied (protocol_txs x)) (fun _ => 0) (fun t => Z.of_nat (length t) <= cap)) with (l := ps) (s := a)
    as (kept & a' & Hr & (Hwf & Hal & _) & Hu & _ & Hp).
  - intros t x (Hwf & Hal & Hx) Ht. unfold try_alloc_protocol.
    destruct (dump_one_bin t _ cap Hwf Hal Ht) as (b' & o & -> & Hb' & Hc' & Ho).
    eexists _, _. split; [done|]. split; [unfold one_bin; cbn; tauto|]. cbn. destruct Ho as [[? ?]|[? ?]]; [left|right]; split_and!; done || lia.
  - unfold one_bin. rewrite Ha. split_and!; [by apply bin_init_wf|done..].
  - done.
  - exists kept, a'. rewrite !list_fmap_id in *. rewrite Ha in Hu. cbn in Hu.
    unfold bin_wf in Hwf. split_and!; [done|done|lia].
Qed.
End allocator.

(** The decrypted transactions are all kept when they fit together *)
Lemma take_decrypted_all (ds : list tx_bytes) : forall (a : BlockAllocator BuildingDecryptedTxBatch),
  bin_wf (decrypted_txs a) -> occupied (decrypted_txs a) + size_of ds <= allotted (decrypted_txs a) ->
  exists a', take_txs try_alloc_decrypted id ds a = Ok (ds, a').
Proof.
  induction ds as [|t ds IH]; intros a Hwf Hle; cbn [take_txs]; [by eexists|].
  rewrite size_of_cons in Hle. pose proof (size_of_nonneg ds). pose proof (usage_tx_nonneg t) as Hu.
  assert (usage_of t = Z.of_nat (length t)) as Eu by done.
  set (a1 := mkAlloc (block a) (protocol_txs a) (encrypted_txs a)
    (mkBin (occupied (decrypted_txs a) + usage_of t) (allotted (decrypted_txs a))) : BlockAllocator BuildingDecryptedTxBatch).
  assert (try_alloc_decrypted t a = (a1, Ok tt)) as Ht.
  { unfold try_alloc_decrypted. rewrite try_dump_cases by done. unfold bin_wf in Hwf.
    by rewrite (proj2 (Z.ltb_ge _ _)), (proj2 (Z.leb_le _ _)) by lia. }
  unfold bin_wf in Hwf. destruct (IH a1) as [a' Ha']; [unfold bin_wf; cbn; lia|cbn; lia|].
  unfold take_tx. rewrite Ht, Ha'. by eexists.
Qed.

(** What the batches leave to the next one *)
Lemma uninitialized_space {E T} (a : BlockAllocator T) : 
  0 <= allotted (protocol_txs a) -> 0 <= allotted (space (encrypted_txs a)) -> 0 <= allotted (decrypted_txs a) ->
  allotted (protocol_txs a) + allotted (space (encrypted_txs a)) + allotted (decrypted_txs a) <= allotted (block a) ->
  allotted (block a) <= U64_MAX ->
  uninitialized_space_in_bytes (E:=E) a = Ok (allotted (block a)
    - (allotted (protocol_txs a) + allotted (space (encrypted_txs a)) + allotted (decrypted_txs a))).
Proof.
  intros. unfold uninitialized_space_in_bytes. rewrite u64_add_ok by lia. cbn [out_bind].
  rewrite u64_add_ok by lia. cbn [out_bind]. by rewrite u64_sub_ok by lia.
Qed.

Lemma next_encrypted {E m} (a : BlockAllocator (BuildingEncryptedTxBatch m)) max :
  block a = bin_init max -> protocol_txs a = bin_default -> decrypted_txs a = bin_default ->
  let occ := occupied (space (encrypted_txs a)) in 0 <= occ <= max -> max <= U64_MAX ->
  next_state_encrypted (E:=E) a = Ok (mkAlloc (bin_init max) bin_default
    (mkEncBins (mkBin occ occ) (gas_bin (encrypted_txs a))) (bin_init (max - occ))).
Proof.
  destruct a as [b p [sp gb] d]. cbn. intros -> -> -> Ho Hm.
  unfold next_state_encrypted, shrink_to_fit. cbn [encrypted_txs decrypted_txs protocol_txs block space gas_bin].
  rewrite uninitialized_space by (cbn; lia). cbn. do 3 f_equal. lia.
Qed.

Lemma next_decrypted {E} (a : BlockAllocator BuildingDecryptedTxBatch) max occ :
  block a = bin_init max -> protocol_txs a = bin_default -> space (encrypted_txs a) = mkBin occ occ ->
  let occd := occupied (decrypted_txs a) in 0 <= occ -> 0 <= occd -> occ + occd <= max -> max <= U64_MAX ->
  next_state_decrypted (E:=E) a = Ok (mkAlloc (bin_init max) (bin_init (max - occ - occd))
    (encrypted_txs a) (mkBin occd occd)).
Proof.
  destruct a as [b p [sp gb] d]. cbn. intros -> -> -> Ho Hd Hs Hm.
  unfold next_state_decrypted, shrink_to_fit. cbn [encrypted_txs decrypted_txs protocol_txs block space gas_bin].
  rewrite uninitialized_space by (cbn; lia). cbn. do 3 f_equal. lia.
Qed.

(** From the end of the first batch to the end of the block *)
Lemma rest_fits {m} (max max_gas : Z) (a1 : BlockAllocator (BuildingEncryptedTxBatch m)) (dec prot : list tx_bytes) :
  0 <= max -> 2 * max <= U64_MAX -> enc_inv max max_gas a1 ->
  Forall (fun t => Z.of_nat (length t) <= max - max / 3) dec ->
  Forall (fun t => Z.of_nat (length t) <= max - max / 3 - size_of dec) prot ->
  let occ := occupied (space (encrypted_txs a1)) in
  exists a2 ds a3 a4 ps a5, next_state_encrypted (E:=AllocFailure) a1 = Ok a2 /\ take_txs try_alloc_decrypted id dec a2 = Ok (ds, a3) /\
    next_state_decrypted (E:=AllocFailure) a3 = Ok a4 /\ take_txs try_alloc_protocol id prot a4 = Ok (ps, a5) /\
    ds `prefix_of` dec /\ ps `prefix_of` prot /\ 0 <= occ <= max / 3 /\ occ + size_of ds + size_of ps <= max /\
    (size_of dec <= max - max / 3 -> ds = dec).
Proof.
  intros Hmax Hmax2 (Hsp & Hal & _ & _ & Hb & Hpr & Hde) Hdec Hprot occ.
  pose proof (third_bounds max Hmax) as Hth. unfold third in *. unfold bin_wf in Hsp.
  eexists. pose proof (next_encrypted (E:=AllocFailure) a1 max Hb Hpr Hde) as Hn. cbv zeta in Hn. fold occ in Hsp, Hn.
  rewrite Hn by lia. clear Hn. set (a2 := mkAlloc _ _ _ _).
  destruct (take_decrypted_ok dec a2 (max - occ)) as (ds & a3 & Hd & Hpd & Hud & Huds & Hb3 & Hp3 & He3);
    [done|lia|lia|eapply Forall_impl; [|exact Hdec]; cbn; lia|].
  assert (size_of dec <= max - max / 3 -> ds = dec) as Hall.
  { intros Hle. destruct (take_decrypted_all dec a2) as (a' & Ha'); [cbn; unfold bin_wf; cbn; lia|cbn; lia|].
    rewrite Hd in Ha'. by injection Ha' as ->. }
  set (occd := occupied (decrypted_txs a3)) in *. pose proof (size_of_nonneg ds).
  assert (next_state_decrypted (E:=AllocFailure) a3 = Ok (mkAlloc (bin_init max) (bin_init (max - occ - occd))
    (encrypted_txs a3) (mkBin occd occd))) as Hn4 by (apply (next_decrypted a3 max occ); by rewrite ?Hb3, ?Hp3, ?He3 || (fold occd; lia)).
  set (a4 := mkAlloc _ _ (encrypted_txs a3) _) in Hn4.
  destruct (take_protocol_ok prot a4 (max - occ - occd)) as (ps & a5 & Hps & Hpp & Hup);
    [done|lia|lia|eapply Forall_impl; [|exact Hprot]; cbn; lia|].
  exists ds, a3, a4, ps, a5. split_and!; try done; lia.
Qed.

(** C21. A proposed block respects its limits: when every candidate fits the bin
    it goes to, building a block returns and takes a prefix of each kind of
    transaction. The wrappers it takes have at most a third of the bytes of the
    block and together ask for no more than the gas of a block, and the block
    uses no more bytes than it has in total; and the decrypted transactions of
    the previous block are all included when they fit beside a third of
    wrappers. *)
Theorem block_fits (m : mode) (max max_gas : Z) (enc : list BlockResources) (dec prot : list tx_bytes) :
  0 <= max -> 2 * max <= U64_MAX -> 0 <= max_gas -> 2 * max_gas <= U64_MAX ->
  Forall (enc_fits max max_gas) enc ->
  Forall (fun t => Z.of_nat (length t) <= max - max / 3) dec ->
  Forall (fun t => Z.of_nat (length t) <= max - max / 3 - size_of dec) prot ->
  exists es ds ps, build_block m max max_gas enc dec prot = Ok (tx <$> es, ds, ps) /\
    es `prefix_of` enc /\ ds `prefix_of` dec /\ ps `prefix_of` prot /\
    size_of (tx <$> es) <= max / 3 /\ sumZ (gas <$> es) <= max_gas /\
    size_of ((tx <$> es) ++ ds ++ ps) <= max /\
    (size_of dec <= max - max / 3 -> ds = dec).
Proof.
  intros Hmax Hmax2 Hgas Hgas2 Henc Hdec Hprot.
  destruct (take_txs_ok (try_alloc_encrypted m) tx gas (enc_inv max max_gas)
    (fun a => occupied (space (encrypted_txs a))) (fun a => occupied (gas_bin (encrypted_txs a))) (enc_fits max max_gas))
    with (l := enc) (s := alloc_init (m:=m) max max_gas) as (es & a1 & He & Hinv & Hue & Hge & Hpe);
    [intros r a Ha Hr; by apply alloc_encrypted_ok|by apply alloc_init_inv|done|].
  destruct (rest_fits max max_gas a1 dec prot Hmax Hmax2 Hinv Hdec Hprot)
    as (a2 & ds & a3 & a4 & ps & a5 & H2 & H3 & H4 & H5 & Hpd & Hpp & Hocc & Hle & Hall).
  assert (occupied (gas_bin (encrypted_txs a1)) <= max_gas) as Hg by (destruct Hinv as (_ & _ & [? _] & <- & _); lia).
  unfold build_block. rewrite He. cbn [out_bind]. rewrite H2. cbn [out_bind]. rewrite H3. cbn [out_bind].
  rewrite H4. cbn [out_bind]. rewrite H5. cbn [out_bind]. exists es, ds, ps. rewrite !size_of_app. cbn in Hue, Hge.
  split_and!; try done; lia.
Qed.

(** A transaction too large for its bin is proposed all the same: the
    branch that logs that it drops the transaction keeps it. A protocol
    transaction larger than what the other batches left makes the block exceed
    the limit, and a wrapper larger than a third of the block is included
    without being accounted for. *)
Theorem oversized_txs_are_proposed (m : mode) (max max_gas : Z) (d p : tx_bytes) (w : BlockResources) :
  0 <= max -> 2 * max <= U64_MAX -> 0 <= max_gas -> 2 * max_gas <= U64_MAX ->
  Z.of_nat (length d) <= max -> max < Z.of_nat (length d) + Z.of_nat (length p) ->
  max / 3 < Z.of_nat (length (tx w)) ->
  build_block m max max_gas [] [d] [p] = Ok ([], [d], [p]) /\ max < size_of [d; p] /\
  build_block WithEncryptedTxs max max_gas [w] [] [] = Ok ([tx w], [], []).
Proof.
  intros Hmax Hmax2 Hgas Hgas2 Hd Hp Hw. split_and!.
  - unfold build_block. cbn [take_txs out_bind]. rewrite (next_encrypted _ max) by (done || cbn; lia). cbn [out_bind].
    cbn [alloc_init encrypted_txs enc_bins_new space bin_init occupied gas_bin]. rewrite Z.sub_0_r.
    unfold take_tx, try_alloc_decrypted. cbn [decrypted_txs block protocol_txs encrypted_txs].
    rewrite try_dump_cases by (apply usage_tx_nonneg || apply bin_init_wf; lia).
    unfold usage_of, BlockSpace. cbn [allotted occupied bin_init].
    rewrite (proj2 (Z.ltb_ge _ _)), (proj2 (Z.leb_le _ _)) by lia. cbn [out_bind id].
    rewrite (next_decrypted _ max 0) by (done || cbn; lia). cbn [out_bind].
    unfold try_alloc_protocol. cbn [decrypted_txs block protocol_txs encrypted_txs occupied].
    rewrite try_dump_cases by (apply usage_tx_nonneg || apply bin_init_wf; lia).
    unfold usage_of, BlockSpace. cbn [allotted occupied bin_init].
    by rewrite (proj2 (Z.ltb_lt _ _)) by lia.
  - rewrite !size_of_cons, size_of_nil. lia.
  - unfold build_block. cbn [take_txs]. unfold take_tx, try_alloc_encrypted, enc_dump.
    pose proof (alloc_init_inv max max_gas Hmax Hmax2 Hgas Hgas2 WithEncryptedTxs) as (Hs & Hal & _).
    rewrite try_dump_cases by (done || apply usage_tx_nonneg). rewrite Hal. unfold usage_of at 1, BlockSpace, third.
    rewrite (proj2 (Z.ltb_lt _ _)) by lia. cbn [out_bind].
    rewrite (next_encrypted _ max) by (done || cbn; lia). cbn [out_bind].
    by rewrite (next_decrypted _ max 0) by (done || cbn; lia).
Qed.

Definition tx_of_size (n : nat) : tx_bytes := repeat 0 n.

Lemma block_fits_witness : exists es ds ps,
  build_block WithEncryptedTxs 30 10 [mkResources (tx_of_size 4) 3; mkResources (tx_of_size 6) 8]
    [tx_of_size 5] [tx_of_size 7] = Ok (tx <$> es, ds, ps) /\ size_of (tx <$> es) <= 30 / 3 /\
  sumZ (gas <$> es) <= 10 /\ size_of ((tx <$> es) ++ ds ++ ps) <= 30.
Proof.
  destruct (block_fits WithEncryptedTxs 30 10 [mkResources (tx_of_size 4) 3; mkResources (tx_of_size 6) 8]
    [tx_of_size 5] [tx_of_size 7]) as (es & ds & ps & H1 & _ & _ & _ & H2 & H3 & H4 & _);
    [vm_compute; discriminate|vm_compute; discriminate|vm_compute; discriminate|vm_compute; discriminate
    |repeat constructor; vm_compute; discriminate|repeat constructor; vm_compute; discriminate
    |repeat constructor; vm_compute; discriminate|].
  exists es, ds, ps. split; [exact H1|]. split; [exact H2|]. split; [exact H3|exact H4].
Defined.

Lemma oversized_txs_are_proposed_witness :
  build_block WithoutEncryptedTxs 30 10 [] [tx_of_size 25] [tx_of_size 10] = Ok ([], [tx_of_size 25], [tx_of_size 10]) /\
  30 < size_of [tx_of_size 25; tx_of_size 10].
Proof.
  destruct (oversized_txs_are_proposed WithoutEncryptedTxs 30 10 (tx_of_size 25) (tx_of_size 10)
    (mkResources (tx_of_size 11) 1)) as (H1 & H2 & _); try (vm_compute; first [discriminate|reflexivity]).
  split; [exact H1|exact H2].
Defined.
