(* ===== verification/Fees.v ===== *)
(** * Fees of wrapper transactions ([shared/src/ledger/protocol/mod.rs])

    [transfer_fee], [token_transfer], [check_fees], [charge_fee] and
    [apply_wrapper_tx], with [WrapperTx::get_tx_fee] and the unshielding
    transaction of [core/src/types/transaction/wrapper.rs] and the reads of
    [core/src/ledger/storage_api/token.rs] they need, over a storage behind a
    write log.

    The encodings of stored values are the class [FeeCodec]; running a wasm
    transaction with its validity predicates is the class [WasmRun]. *)

From Stdlib Require Import ZArith Lia Ascii String.
From stdpp Require Import base numbers list gmap sets option.
From S2P Require Import Prelude Gas Uint Dec Keys WriteLog WlStorage Token Tx.

Local Open Scope Z_scope.
Local Open Scope outcome_scope.
Local Open Scope st_scope.

(** Borsh encodings of stored values *)
Class FeeCodec : Type := {
  amount_encode : Z -> bytes;
  amount_decode : bytes -> option Z;
  denom_decode : bytes -> option Z;
  (* [Transfer], the data of the unshielding transaction *)
  borsh_transfer : Address -> Address -> Address -> DenominatedAmount -> option Hash -> bytes
}.
Class FeeCodecLaws (F : FeeCodec) : Prop := {
  amount_decode_encode a : in_u256 a -> amount_decode (amount_encode a) = Some a;
  amount_decode_range bs a : amount_decode bs = Some a -> in_u256 a;
  (* an [Amount] is four little-endian words *)
  amount_encode_len a : blen (amount_encode a) = 32;
  denom_decode_range bs d : denom_decode bs = Some d -> 0 <= d <= 255
}.

Inductive ProtocolError : Type :=
| MissingSection
| FeeUnshieldingError
| GasError
| FeeError
| ReplayAttempt
| TxRunnerError
| StorageError.

(** [execute_tx] and [check_vps]: the wasm code of a transaction runs over the
    log, then its validity predicates; whether all of them accepted *)
Class WasmRun `{TxEnv} {G : AddressGen} : Type := {
  run_wasm : Tx -> Meter.Gas -> WlStorage -> WriteLog * outcome ProtocolError bool
}.

(** No host function of the wasm environment writes the hashes of transactions *)
Class WasmRunLaws `(W : WasmRun) : Prop := {
  run_wasm_replay tx limit s :
    replay_protection (run_wasm tx limit s).1 = replay_protection (write_log s)
}.

Section fees.
Context {U : UintOps} {C : AddressCodec} {G : AddressGen} {T : TxEnv} {B : TxBorsh} {F : FeeCodec} {W : WasmRun}.

(** [StorageRead::read] of an amount *)
Definition read_amount (s : WlStorage) (key : Key) : outcome ProtocolError (option Z) :=
  let* bs := read_bytes s key in
  match bs with
  | Some b => let* a := ok_or (amount_decode b) StorageError in Ok (Some a)
  | None => Ok None
  end.

(** [storage_api::token::read_balance] *)
Definition wl_read_balance (s : WlStorage) (token owner : Address) : outcome ProtocolError Z :=
  let* key := balance_key token owner in
  let* b := read_amount s key in
  Ok (default 0 b).

(** [Result::unwrap] and [expect] *)
Definition expect {A} (o : outcome ProtocolError A) : outcome ProtocolError A :=
  match o with
  | Ok a => Ok a
  | _ => Panic
  end.

(** [storage_api::token::read_denom] *)
Definition wl_read_denom (s : WlStorage) (token : Address) : outcome ProtocolError (option Z) :=
  let read_key t is_default_zero :=
    let* key := denom_key t in
    let* bs := read_bytes s key in
    match bs with
    | Some b => let* d := ok_or (denom_decode b) StorageError in Ok (Some d)
    | None => Ok (Some (if (is_default_zero : bool) then 0 else NATIVE_MAX_DECIMAL_PLACES))
    end in
  match token with
  | Internal (Nut erc20) => read_key (Internal (Erc20 erc20)) true
  | Internal (IbcToken _) => Ok (Some 0)
  | token => read_key token false
  end.

(** [DenominatedAmount::to_amount] *)
Definition to_amount (da : DenominatedAmount) (token : Address) (s : WlStorage) : outcome ProtocolError Z :=
  let* d := wl_read_denom s token in
  let* denom := ok_or d StorageError in
  match da_scale da denom with
  | Ok a => Ok a
  | Err _ => Err StorageError
  | Panic => Panic
  end.

(** [WrapperTx::get_tx_fee] *)
Inductive WrapperTxErr : Type := InvalidUnshield | OverflowingFee.
Definition get_tx_fee (w : WrapperTx) : outcome WrapperTxErr DenominatedAmount :=
  let* limit := u64_mul (Meter.multiplier (gas_limit w)) GAS_LIMIT_RESOLUTION in
  let* amount := match from_uint limit 0 with Ok a => Ok a | _ => Panic end in
  ok_or (da_checked_mul (amount_per_gas_unit (fee w)) (mkDenominated amount 0)) OverflowingFee.

(** A write of the transaction, [write_log_mut().write(..)] *)
Definition wl_write (key : Key) (value : bytes) : st WlStorage ProtocolError unit := fun s =>
  match write key value (write_log s) with
  | (w', Ok _) => (set_write_log w' s, Ok tt)
  | (w', Err _) => (set_write_log w' s, Err FeeError)
  | (w', Panic) => (set_write_log w' s, Panic)
  end.

Definition token_transfer (token src dest : Address) (amount : Z) : st WlStorage ProtocolError unit :=
  let! src_key := st_lift (balance_key token src) in
  let! s := st_get id in
  let! src_balance := st_lift (expect (wl_read_balance s token src)) in
  match amount_checked_sub src_balance amount with
  | Some new_src_balance =>
      if decide (src = dest) then st_ret tt
      else
        let! dest_key := st_lift (balance_key token dest) in
        let! dest_balance := st_lift (expect (wl_read_balance s token dest)) in
        match amount_checked_add dest_balance amount with
        | Some new_dest_balance =>
            do! wl_write src_key (amount_encode new_src_balance) in
            wl_write dest_key (amount_encode new_dest_balance)
        | None => st_err FeeError
        end
  | None => st_err FeeError
  end.

(** Errors mapped to [FeeError] *)
Definition fee_err {A} (o : outcome ProtocolError A) : outcome ProtocolError A :=
  match o with
  | Err _ => Err FeeError
  | o => o
  end.

Definition transfer_fee (block_proposer : Address) (w : WrapperTx) : st WlStorage ProtocolError unit :=
  let token := fee_token (fee w) in
  let! s := st_get id in
  let! balance := st_lift (expect (wl_read_balance s token (fee_payer w))) in
  match get_tx_fee w with
  | Ok fees =>
      let! fees := st_lift (fee_err (to_amount fees token s)) in
      match amount_checked_sub balance fees with
      | Some _ => token_transfer token (fee_payer w) block_proposer fees
      | None =>
          do! token_transfer token (fee_payer w) block_proposer balance in
          st_err FeeError
      end
  | Err _ => st_err FeeError
  | Panic => st_panic
  end.

Definition check_fees (s : WlStorage) (w : WrapperTx) : outcome ProtocolError unit :=
  let token := fee_token (fee w) in
  let* balance := expect (wl_read_balance s token (fee_payer w)) in
  match get_tx_fee w with
  | Ok fees =>
      let* fees := fee_err (to_amount fees token s) in
      match amount_checked_sub balance fees with
      | Some _ => Ok tt
      | None => Err FeeError
      end
  | Err _ => Err FeeError
  | Panic => Panic
  end.

(** [get_fee_unshielding_transaction] *)
Definition get_fee_unshielding_transaction (tx : Tx) (w : WrapperTx) : option Transaction :=
  hash ← unshield_section_hash w;
  match get_section tx hash with
  | Some (SecMaspTx t) => Some t
  | _ => None
  end.

(** [WrapperTx::generate_fee_unshielding]; [now] and [salt] are the clock *)
Definition generate_fee_unshielding (now : Z) (salt : bytes) (transfer_code_hash : Hash) (tag : option str)
  (unshield : Transaction) (w : WrapperTx) : outcome WrapperTxErr Tx :=
  let tx := add_section (SecMaspTx unshield) (from_type now (DecryptedT Decrypted)) in
  let masp_hash := get_hash (SecMaspTx unshield) in
  let* amount := get_tx_fee w in
  let data := borsh_transfer (Internal Masp) (fee_payer w) (fee_token (fee w)) amount (Some masp_hash) in
  Ok (set_code (code_from_hash salt transfer_code_hash tag) (set_data (data_new salt data) tx)).

(** [WrapperTx::check_and_generate_fee_unshielding] *)
Definition check_and_generate_fee_unshielding (now : Z) (salt : bytes) (transfer_code_hash : Hash)
  (tag : option str) (descriptions_limit : Z) (unshield : Transaction) (w : WrapperTx)
  : outcome WrapperTxErr Tx :=
  let* '(spends, converts, outs) := ok_or (sapling_descriptions unshield) InvalidUnshield in
  let* n := ok_or (u64_checked_add spends converts) InvalidUnshield in
  let* descriptions := ok_or (u64_checked_add n outs) InvalidUnshield in
  if descriptions_limit <? descriptions then Err InvalidUnshield
  else generate_fee_unshielding now salt transfer_code_hash tag unshield w.

(** [apply_wasm_tx], up to the contents of the [TxResult] *)
Definition apply_wasm_tx (tx : Tx) (limit : Meter.Gas) : st WlStorage ProtocolError bool := fun s =>
  match has_replay_protection_entry (raw_header_hash tx) (write_log s) with
  | Some true => (s, Err ReplayAttempt)
  | _ => let '(w', o) := run_wasm tx limit s in (set_write_log w' s, o)
  end.

Definition on_log (f : WriteLog -> WriteLog) : st WlStorage ProtocolError unit :=
  st_mod (fun s => set_write_log (f (write_log s)) s).

(** [charge_fee]. A failing unshielding is dropped and the fee is taken from the
    transparent balance; the log is committed whatever follows. Returns the
    changed keys. *)
Record unshield_env : Type := mkUnshieldEnv {
  ue_now : Z; ue_salt : bytes; ue_code_hash : Hash; ue_tag : option str; ue_gas_limit : Meter.Gas;
  ue_descriptions_limit : Z
}.
Definition unshield_fee (u : unshield_env) (w : WrapperTx) (masp : option Transaction)
  : st WlStorage ProtocolError unit :=
  match masp with
  | None => st_ret tt
  | Some transaction =>
      match generate_fee_unshielding (ue_now u) (ue_salt u) (ue_code_hash u) (ue_tag u) transaction w with
      | Ok fee_unshielding_tx =>
          do! on_log precommit_tx in
          fun s => match apply_wasm_tx fee_unshielding_tx (ue_gas_limit u) s with
                   | (s', Ok true) => (s', Ok tt)
                   | (s', Panic) => (s', Panic)
                   | (s', _) => on_log drop_tx_keep_precommit s'
                   end
      | Err _ => st_ret tt
      | Panic => st_panic
      end
  end.
Definition charge_fee (u : unshield_env) (w : WrapperTx) (masp : option Transaction)
  (block_proposer : option Address) : st WlStorage ProtocolError (gset Key) :=
  do! unshield_fee u w masp in
  do! match block_proposer with
      | Some proposer => transfer_fee proposer w
      | None => let! s := st_get id in st_lift (check_fees s w)
      end in
  let! keys := st_get (fun s => get_keys_with_precommit (write_log s)) in
  do! on_log commit_tx in
  st_ret keys.

(** [apply_wrapper_tx]: replay protection, fee, gas *)
Definition apply_wrapper_tx (u : unshield_env) (tx : Tx) (w : WrapperTx) (masp : option Transaction)
  (tx_bytes_len : Z) (block_proposer : option Address)
  : st (Meter.TxGasMeter * WlStorage) ProtocolError (gset Key) := fun '(meter, s) =>
  match write_tx_hash (header_hash tx) (write_log s) with
  | (w', Ok _) =>
      match charge_fee u w masp block_proposer (set_write_log w' s) with
      | (s', Ok keys) =>
          match Meter.add_wrapper_gas tx_bytes_len meter with
          | (meter', Ok _) => ((meter', s'), Ok keys)
          | (meter', Err _) => ((meter', s'), Err GasError)
          | (meter', Panic) => ((meter', s'), Panic)
          end
      | (s', Err e) => ((meter, s'), Err e)
      | (s', Panic) => ((meter, s'), Panic)
      end
  | (w', _) => ((meter, set_write_log w' s), Panic)
  end.

(** [Shell::finalize_block] on a wrapper: the log of the transaction is
    committed when it was applied and dropped when it failed *)
Definition finalize_wrapper (u : unshield_env) (tx : Tx) (w : WrapperTx) (tx_bytes_len : Z)
  (block_proposer : option Address) : st (Meter.TxGasMeter * WlStorage) ProtocolError (gset Key) := fun ms =>
  match apply_wrapper_tx u tx w (get_fee_unshielding_transaction tx w) tx_bytes_len block_proposer ms with
  | ((m', s'), Ok keys) => ((m', set_write_log (commit_tx (write_log s')) s'), Ok keys)
  | ((m', s'), Err e) => ((m', set_write_log (drop_tx (write_log s')) s'), Err e)
  | ((m', s'), Panic) => ((m', s'), Panic)
  end.
End fees.

(** ** What a storage shows *)
Section views.
Context {C : AddressCodec} {G : AddressGen}.

Definition raw_view (s : WlStorage) (k : Key) : option bytes :=
  match find (write_log s) k with
  | Some (Write v) | Some (Temp v) => Some v
  | Some Delete => None
  | Some (InitAccount h) => Some (hash_bytes h)
  | None => subspace (storage s) !! k
  end.

(** The gas of a read or a write of this size does not overflow *)
Definition MAX_LEN : Z := 2 ^ 32.
Definition short (s : WlStorage) (k : Key) : Prop :=
  key_len k <= MAX_LEN /\ forall b, raw_view s k = Some b -> blen b <= MAX_LEN.

Lemma u64_mul_ok {E} a b : a * b <= U64_MAX -> u64_mul (E:=E) a b = Ok (a * b).
Proof. intros H. apply unwrap_Ok, u64_checked_mul_Some. done. Qed.

Lemma read_bytes_short {E} s k : short s k -> read_bytes (E:=E) s k = Ok (raw_view s k).
Proof.
  unfold short, read_bytes, read, raw_view, MAX_LEN. intros [Hk Hv].
  assert (exists g, read_cost (E:=E) k (find (write_log s) k) = Ok g) as [g ->].
  { unfold read_cost. destruct (find (write_log s) k) as [[]|]; eexists; apply u64_mul_ok;
      unfold entry_len, HASH_LENGTH, MEMORY_ACCESS_GAS_PER_BYTE, U64_MAX; try specialize (Hv _ eq_refl); lia. }
  cbn. by destruct (find (write_log s) k) as [[]|].
Qed.

Definition put (k : Key) (v : bytes) (s : WlStorage) : WlStorage :=
  set_write_log (set_tx (<[k := Write v]> (tx_write_log (write_log s))) (write_log s)) s.

Lemma raw_view_put k v s k' : raw_view (put k v s) k' = if decide (k' = k) then Some v else raw_view s k'.
Proof.
  unfold raw_view, put, find. cbn. case_decide as Hk.
  - subst. by rewrite lookup_insert_eq.
  - by rewrite lookup_insert_ne.
Qed.

(** Writing fails only over a new account or a temporary value *)
Definition plain (s : WlStorage) (k : Key) : Prop :=
  match tx_write_log (write_log s) !! k with
  | Some (InitAccount _) | Some (Temp _) => False
  | _ => True
  end.
Lemma wl_write_plain k v s : plain s k -> key_len k <= MAX_LEN -> blen v <= MAX_LEN ->
  wl_write k v s = (put k v s, Ok tt).
Proof.
  unfold plain, wl_write, write, tx_insert, st_bind, st_ret, st_err, st_lift, MAX_LEN. intros Hp Hk Hv.
  assert (forall E, u64_mul (E:=E) (key_len k + blen v) STORAGE_WRITE_GAS_PER_BYTE =
    Ok ((key_len k + blen v) * STORAGE_WRITE_GAS_PER_BYTE)) as Hg.
  { intros E. apply u64_mul_ok. unfold STORAGE_WRITE_GAS_PER_BYTE, MEMORY_ACCESS_GAS_PER_BYTE,
      STORAGE_OCCUPATION_GAS_PER_BYTE, PHYSICAL_STORAGE_LATENCY_PER_BYTE, U64_MAX. lia. }
  cbn. destruct (tx_write_log (write_log s) !! k) as [[]|]; try done; by rewrite Hg.
Qed.
Lemma plain_put k v s k' : plain s k' -> plain (put k v s) k'.
Proof.
  unfold plain, put. cbn. destruct (decide (k = k')) as [->|]; [by rewrite lookup_insert_eq|by rewrite lookup_insert_ne].
Qed.

(** A transaction that has only written to its own log *)
Definition quiet (s s' : WlStorage) : Prop :=
  storage s' = storage s /\ block_write_log (write_log s') = block_write_log (write_log s) /\
  tx_precommit_write_log (write_log s') = tx_precommit_write_log (write_log s) /\
  replay_protection (write_log s') = replay_protection (write_log s) /\
  forall k v, tx_write_log (write_log s') !! k = Some (Temp v) -> tx_write_log (write_log s) !! k = Some (Temp v).
Lemma quiet_put k v s s' : quiet s s' -> quiet s (put k v s').
Proof.
  intros (H1 & H2 & H3 & H4 & H5). split_and!; [done..|]. intros k' v'. cbn.
  destruct (decide (k = k')) as [->|]; [by rewrite lookup_insert_eq|rewrite lookup_insert_ne by done; apply H5].
Qed.

(** Both logs of the transaction are empty *)
Definition between_txs (s : WlStorage) : Prop :=
  tx_write_log (write_log s) = ∅ /\ tx_precommit_write_log (write_log s) = ∅.
Lemma raw_view_drop s s' k : between_txs s -> quiet s s' ->
  raw_view (set_write_log (drop_tx (write_log s')) s') k = raw_view s k.
Proof.
  intros [Ht Hp] (Hs & Hb & _). unfold raw_view, find, drop_tx. cbn. by rewrite Ht, Hp, Hb, Hs, !lookup_empty.
Qed.
Lemma raw_view_commit s s' k : between_txs s -> quiet s s' ->
  raw_view (set_write_log (commit_tx (write_log s')) s') k = raw_view s' k.
Proof.
  intros [Ht Hp] (_ & _ & Hp' & _ & Hnt). unfold raw_view, find in *. cbn. rewrite !lookup_empty. unfold extend.
  rewrite Hp', Hp, (right_id_L ∅ (∪)), !lookup_empty. rewrite Ht in Hnt. specialize (Hnt k).
  setoid_rewrite lookup_empty in Hnt.
  rewrite lookup_union, map_lookup_filter.
  destruct (tx_write_log (write_log s') !! k) as [m|] eqn:Hk; cbn.
  - destruct m; try (by specialize (Hnt _ eq_refl)); rewrite option_guard_True by done; cbn;
      by destruct (block_write_log (write_log s') !! k).
  - by rewrite option_union_left_id.
Qed.
End views.

(** ** What a transfer can change, whatever its outcome *)
Section effects.
Context {U : UintOps} {C : AddressCodec} {G : AddressGen} {T : TxEnv} {B : TxBorsh} {F : FeeCodec} {W : WasmRun}
  {HW : WasmRunLaws W}.

(** Only the log of the transaction *)
Definition tx_only (s s' : WlStorage) : Prop := exists m, s' = set_write_log (set_tx m (write_log s)) s.
#[export] Instance tx_only_preorder : PreOrder tx_only.
Proof.
  split.
  - intros [[] st]. by eexists.
  - intros [[] st] s2 s3 [m ->] [m' ->]. by exists m'.
Qed.
Lemma keeps_wl_write k v : st_keeps tx_only (wl_write k v).
Proof.
  intros s. unfold wl_write, write, tx_insert, st_bind, st_ret, st_err, st_lift.
  exists (<[k := Write v]> (tx_write_log (write_log s))).
  destruct (tx_write_log (write_log s) !! k) as [[]|]; cbn; try done;
    by destruct (u64_mul (E:=WriteLog.Error) (key_len k + blen v) STORAGE_WRITE_GAS_PER_BYTE).
Qed.
Lemma keeps_token_transfer t p q a : st_keeps tx_only (token_transfer t p q a).
Proof. unfold token_transfer. repeat (apply keeps_wl_write || keeps_step). Qed.
Lemma keeps_transfer_fee q w : st_keeps tx_only (transfer_fee q w).
Proof. unfold transfer_fee. repeat (apply keeps_token_transfer || keeps_step). Qed.

(** Not the recorded hashes and not the database *)
Definition same_replay (s s' : WlStorage) : Prop :=
  replay_protection (write_log s') = replay_protection (write_log s) /\ storage s' = storage s.
#[export] Instance same_replay_preorder : PreOrder same_replay.
Proof. split; [done|]. intros s1 s2 s3 [H1 H2] [H3 H4]. split; congruence. Qed.
Lemma tx_only_replay s s' : tx_only s s' -> same_replay s s'.
Proof. by intros [m ->]. Qed.
Lemma keeps_apply_wasm_tx tx limit : st_keeps same_replay (apply_wasm_tx tx limit).
Proof using HW.
  intros s. unfold apply_wasm_tx. destruct (has_replay_protection_entry _ _) as [[]|]; [done|..];
    pose proof (run_wasm_replay tx limit s) as Hr; by destruct (run_wasm tx limit s).
Qed.
End effects.

(** ** Charging fees *)
Section charging.
Context {U : UintOps} {HU : UintLaws U} {C : AddressCodec} {HC : AddressCodecLaws C} {G : AddressGen}
  {T : TxEnv} {B : TxBorsh} {F : FeeCodec} {HF : FeeCodecLaws F} {W : WasmRun}.

(** The balance a storage shows *)
Definition wbal (s : WlStorage) (t o : Address) : Z := default 0 (raw_view s (bkey t o) ≫= amount_decode).

Lemma wbal_range s t o : in_u256 (wbal s t o).
Proof.
  unfold wbal. destruct (raw_view s (bkey t o)) as [b|]; cbn; [|unfold in_u256; rewrite MAX_VALUE_eq; lia].
  destruct (amount_decode b) as [a|] eqn:Ha; [by apply amount_decode_range in Ha|].
  cbn. unfold in_u256. rewrite MAX_VALUE_eq. lia.
Qed.

(** A key that holds an amount *)
Definition holds_amount (s : WlStorage) (k : Key) : Prop :=
  short s k /\ forall b, raw_view s k = Some b -> is_Some (amount_decode b).
Lemma read_balance_view s t o : holds_amount s (bkey t o) -> expect (wl_read_balance s t o) = Ok (wbal s t o).
Proof.
  intros [Hs Hd]. unfold wl_read_balance. rewrite balance_key_ok. cbn [out_bind]. fold (bkey t o).
  unfold read_amount, wbal. rewrite read_bytes_short by done. cbn.
  destruct (raw_view s (bkey t o)) as [b|]; cbn; [|done]. by destruct (Hd b eq_refl) as [a ->].
Qed.

(** [a] moves from [p] to [q]; nothing else changes *)
Definition charged (s s' : WlStorage) (t p q : Address) (a : Z) : Prop :=
  a <= wbal s t p /\
  (forall o, wbal s' t o = wbal s t o + (if decide (o = q) then a else 0) - (if decide (o = p) then a else 0)) /\
  (forall k, k <> bkey t p -> k <> bkey t q -> raw_view s' k = raw_view s k).

(** Keys are left alone or hold an amount *)
Definition amounts_kept (s s' : WlStorage) : Prop := forall k,
  raw_view s' k = raw_view s k \/ exists a, in_u256 a /\ raw_view s' k = Some (amount_encode a).
Lemma amounts_kept_put k a s s' : in_u256 a -> amounts_kept s s' -> amounts_kept s (put k (amount_encode a) s').
Proof. intros Ha H k'. rewrite raw_view_put. case_decide; [right; by exists a|apply H]. Qed.
Lemma short_kept s s' k : amounts_kept s s' -> short s k -> short s' k.
Proof.
  intros Hk [Hl Hb]. split; [done|]. intros b. destruct (Hk k) as [->|(a & _ & ->)]; [apply Hb|].
  intros [= <-]. rewrite amount_encode_len. unfold MAX_LEN. lia.
Qed.
Lemma holds_amount_kept s s' k : amounts_kept s s' -> holds_amount s k -> holds_amount s' k.
Proof.
  intros Hk [Hs Hd]. split; [by eapply short_kept|]. intros b. destruct (Hk k) as [->|(a & Ha & ->)]; [apply Hd|].
  intros [= <-]. by rewrite amount_decode_encode.
Qed.

Lemma charged_self s t p a : a <= wbal s t p -> charged s s t p p a.
Proof. intros Ha. split; [done|]. split; [|done]. intros o. case_decide; lia. Qed.

Lemma wbal_put k v s t o : wbal (put k v s) t o = if decide (bkey t o = k) then default 0 (amount_decode v) else wbal s t o.
Proof. unfold wbal. rewrite raw_view_put. by case_decide. Qed.

Lemma charged_put s t p q a : p <> q -> 0 <= a <= wbal s t p -> wbal s t q + a <= MAX_VALUE ->
  charged s (put (bkey t q) (amount_encode (wbal s t q + a)) (put (bkey t p) (amount_encode (wbal s t p - a)) s)) t p q a.
Proof.
  intros Hpq Ha Hq. pose proof (wbal_range s t p) as Hp. pose proof (wbal_range s t q) as Hq'. unfold in_u256 in *.
  split; [lia|]. split.
  - intros o. rewrite !wbal_put. destruct (decide (o = q)) as [->|Hoq].
    + rewrite decide_True, amount_decode_encode, decide_False by (done || unfold in_u256; lia). cbn. lia.
    + rewrite decide_False by (intros [= ->]; done). destruct (decide (o = p)) as [->|Hop].
      * rewrite decide_True, amount_decode_encode by (done || unfold in_u256; lia). cbn. lia.
      * rewrite decide_False by (intros [= ->]; done). lia.
  - intros k Hkp Hkq. rewrite !raw_view_put, !decide_False by done. done.
Qed.

(** The payer has the amount and the payee can hold it *)
Definition payable (s : WlStorage) (t p q : Address) (a : Z) : bool :=
  (a <=? wbal s t p) && (bool_decide (p = q) || (wbal s t q + a <=? MAX_VALUE)).

Lemma token_transfer_spec t p q a s : in_u256 a -> holds_amount s (bkey t p) -> holds_amount s (bkey t q) ->
  plain s (bkey t p) -> plain s (bkey t q) ->
  if payable s t p q a
  then exists s', token_transfer t p q a s = (s', Ok tt) /\ charged s s' t p q a /\ quiet s s' /\ amounts_kept s s'
  else token_transfer t p q a s = (s, Err FeeError).
Proof.
  intros Ha Hbp Hbq Hpp Hpq. unfold token_transfer, payable. rewrite balance_key_ok. fold (bkey t p).
  unfold st_bind, st_lift, st_get, st_ret, st_err. cbn [id]. rewrite !read_balance_view by done.
  pose proof (wbal_range s t p) as Hp. pose proof (wbal_range s t q) as Hq.
  rewrite amount_checked_sub_eq by done. destruct (Z.leb_spec a (wbal s t p)); cbn [andb]; [|done].
  case_decide as Hd; [subst q; rewrite bool_decide_true by done; exists s; split; [done|]; split; [by apply charged_self|]; split; [done|by intros k; left]|].
  rewrite bool_decide_false, balance_key_ok by done. fold (bkey t q).
  rewrite amount_checked_add_eq by done. cbn [orb]. destruct (Z.leb_spec (wbal s t q + a) MAX_VALUE); [|done].
  destruct Hbp as [[Hkp _] _], Hbq as [[Hkq _] _].
  rewrite wl_write_plain by (done || rewrite amount_encode_len; unfold MAX_LEN; lia).
  rewrite wl_write_plain by ((by apply plain_put) || done || rewrite amount_encode_len; unfold MAX_LEN; lia).
  eexists. split; [done|]. unfold in_u256 in *. split; [apply charged_put; [done|lia|lia]|].
  split; [by do 2 apply quiet_put|]. do 2 (apply amounts_kept_put; [unfold in_u256; lia|]). by intros k; left.
Qed.

(** The fee of a wrapper in units of its token *)
Definition fee_amount (s : WlStorage) (w : WrapperTx) : outcome ProtocolError Z :=
  match get_tx_fee w with
  | Ok fees => fee_err (to_amount fees (fee_token (fee w)) s)
  | Err _ => Err FeeError
  | Panic => Panic
  end.

Definition wrapper_wf (w : WrapperTx) : Prop :=
  da_wf (amount_per_gas_unit (fee w)) /\ in_u64 (Meter.multiplier (gas_limit w)).

Lemma da_scale_range a d x : da_wf a -> 0 <= d <= 255 -> da_scale a d = Ok x -> in_u256 x.
Proof.
  intros Ha Hd. unfold da_scale. rewrite increase_precision_eq by done.
  destruct (d <? da_denom a) eqn:Hlt; [done|]. apply Z.ltb_ge in Hlt.
  destruct (_ && _) eqn:Hc; [|done]. cbn. intros [= <-]. apply andb_true_iff in Hc as [_ Hc%Z.leb_le].
  destruct Ha as [[Ha0 _] _]. pose proof (pow10_pos (d - da_denom a) ltac:(lia)). unfold in_u256. nia.
Qed.

(** The key of the denomination of a token *)
Definition dkey (t : Address) : Key :=
  [AddressSeg (match t with Internal (Nut erc20) => Internal (Erc20 erc20) | t => t end); StringSeg DENOM_STORAGE_KEY].
Lemma denom_key_ok {E} t : denom_key (E:=E) t = Ok [AddressSeg t; StringSeg DENOM_STORAGE_KEY].
Proof. reflexivity. Qed.
Lemma wl_read_denom_short s t : short s (dkey t) -> wl_read_denom s t <> Panic.
Proof.
  unfold wl_read_denom, dkey. intros Hs. destruct t as [| |[]]; try done; rewrite denom_key_ok; cbn [out_bind];
    rewrite read_bytes_short by done; cbn [out_bind]; (destruct (raw_view s _) as [b|]; [|done]); by destruct (denom_decode b).
Qed.

Lemma wl_read_denom_range s t d : wl_read_denom s t = Ok (Some d) -> 0 <= d <= 255.
Proof.
  assert (forall tok z, (let* key := denom_key tok in let* bs := read_bytes s key in
    match bs with
    | Some b => let* d := ok_or (denom_decode b) StorageError in Ok (Some d)
    | None => Ok (Some (if (z : bool) then 0 else NATIVE_MAX_DECIMAL_PLACES))
    end) = Ok (Some d) -> 0 <= d <= 255) as Hgen.
  { intros tok z (key & _ & (bs & _ & H)%out_bind_Ok)%out_bind_Ok. destruct bs as [b|].
    - apply out_bind_Ok in H as (x & Hx%ok_or_Ok & [= <-]). by apply denom_decode_range in Hx.
    - injection H as <-. destruct z; unfold NATIVE_MAX_DECIMAL_PLACES; lia. }
  unfold wl_read_denom. destruct t as [| |[]]; first [exact (Hgen _ false)|exact (Hgen _ true)|intros [= <-]; lia].
Qed.

Lemma get_tx_fee_wf w fees : wrapper_wf w -> get_tx_fee w = Ok fees -> da_wf fees.
Proof.
  intros [[Ha Hd] Hg]. unfold get_tx_fee. intros (l & Hl & (a & Ha' & H)%out_bind_Ok)%out_bind_Ok.
  apply unwrap_Ok, u64_checked_mul_Some in Hl as [-> Hl]. cbn in Ha'. injection Ha' as <-.
  apply ok_or_Ok in H. unfold da_checked_mul in H. cbn [da_amount da_denom] in H.
  unfold amount_checked_mul in H. unfold in_u64, GAS_LIMIT_RESOLUTION in *.
  rewrite uint_checked_mul_law in H by (done || unfold in_u256; rewrite MAX_VALUE_eq; unfold U64_MAX in *; lia).
  destruct (Z.leb_spec (da_amount (amount_per_gas_unit (fee w)) * (Meter.multiplier (gas_limit w) * 1)) MAX_VALUE); [|done].
  cbn in H. destruct (Z.leb_spec (da_denom (amount_per_gas_unit (fee w)) + 0) 255); [|done].
  injection H as <-. destruct Ha. split; cbn; [split; nia|lia].
Qed.

Lemma fee_amount_range s w a : wrapper_wf w -> fee_amount s w = Ok a -> in_u256 a.
Proof.
  intros Hw. unfold fee_amount. destruct (get_tx_fee w) as [fees| |] eqn:Hf; [|done..].
  pose proof (get_tx_fee_wf _ _ Hw Hf) as Hwf. unfold fee_err. destruct (to_amount _ _ s) as [x| |] eqn:Hx; [|done..].
  intros [= <-]. unfold to_amount in Hx. apply out_bind_Ok in Hx as (od & Hod & (d & Hd%ok_or_Ok & Hx)%out_bind_Ok).
  subst od. apply wl_read_denom_range in Hod. destruct (da_scale fees d) eqn:Hs; [|done..].
  injection Hx as <-. by eapply da_scale_range.
Qed.

(** What the code relies on of the storage when it charges a fee *)
Definition fee_state (s : WlStorage) (w : WrapperTx) (q : Address) : Prop :=
  let t := fee_token (fee w) in
  wrapper_wf w /\ between_txs s /\ holds_amount s (bkey t (fee_payer w)) /\ holds_amount s (bkey t q) /\
  short s (dkey t).

Lemma between_plain s k : between_txs s -> plain s k.
Proof. intros [Ht _]. unfold plain. by rewrite Ht, lookup_empty. Qed.

Lemma fee_amount_total s w q : fee_state s w q -> fee_amount s w = Err FeeError \/
  exists fees a, get_tx_fee w = Ok fees /\ to_amount fees (fee_token (fee w)) s = Ok a /\ fee_amount s w = Ok a.
Proof.
  intros (Hw & _ & _ & _ & Hden%wl_read_denom_short). unfold fee_amount. destruct (get_tx_fee w) as [fees| |] eqn:Hf; [|by left|].
  - unfold to_amount. destruct (wl_read_denom s _) as [[d|]| |]; [|by left..|done]. cbn [out_bind ok_or].
    unfold da_scale. destruct (increase_precision fees d) as [x| |] eqn:Hx; cbn; [right; exists fees, (da_amount x); by rewrite Hx|by left|].
    unfold increase_precision in Hx. destruct (d <? da_denom fees); [done|].
    by destruct (uint_checked_pow 10 (d - da_denom fees) ≫= _).
  - exfalso. unfold get_tx_fee, u64_mul, unwrap in Hf. destruct Hw as [_ Hg].
    rewrite (proj2 (u64_checked_mul_Some _ GAS_LIMIT_RESOLUTION (Meter.multiplier (gas_limit w)))) in Hf
      by (unfold in_u64, GAS_LIMIT_RESOLUTION in *; lia).
    cbn in Hf. by destruct (da_checked_mul _ _).
Qed.

(** [transfer_fee] charges the fee, or fails after moving what there is *)
Lemma transfer_fee_spec q w s : fee_state s w q ->
  let t := fee_token (fee w) in let p := fee_payer w in
  match fee_amount s w with
  | Ok a =>
      if payable s t p q a
      then exists s', transfer_fee q w s = (s', Ok tt) /\ charged s s' t p q a /\ quiet s s' /\ amounts_kept s s'
      else exists s', transfer_fee q w s = (s', Err FeeError) /\ quiet s s'
  | _ => transfer_fee q w s = (s, Err FeeError)
  end.
Proof.
  intros Hst t p. pose proof (fee_amount_total s w q Hst) as Hfa. pose proof (fee_amount_range s w) as Hr.
  destruct Hst as (Hw & Hb & Hbp & Hbq & _). pose proof (between_plain s (bkey t p) Hb) as Hpp.
  pose proof (between_plain s (bkey t q) Hb) as Hpq. fold t p in Hbp, Hbq, Hfa.
  unfold transfer_fee, st_bind, st_get, st_lift, st_err, st_panic. cbn [id]. fold t p.
  rewrite read_balance_view by done. pose proof (wbal_range s t p) as Hbr.
  destruct Hfa as [Hfa|(fees & a & Hfees & Hto & Hfa)].
  { rewrite Hfa. unfold fee_amount in Hfa. fold t in Hfa. destruct (get_tx_fee w) as [fees| |]; try done. by rewrite Hfa. }
  specialize (Hr a Hw Hfa). rewrite Hfa, Hfees. unfold fee_err. rewrite Hto, amount_checked_sub_eq by done.
  pose proof (token_transfer_spec t p q a s Hr Hbp Hbq Hpp Hpq) as Ht.
  destruct (Z.leb_spec a (wbal s t p)) as [Hle|Hgt].
  - destruct (payable s t p q a); [done|]. by exists s.
  - unfold payable at 1. rewrite (proj2 (Z.leb_gt _ _)) by done. cbn [andb].
    pose proof (token_transfer_spec t p q (wbal s t p) s Hbr Hbp Hbq Hpp Hpq) as Ht'.
    destruct (payable s t p q (wbal s t p)); [destruct Ht' as (s' & -> & _ & Hq & _); by exists s'|rewrite Ht'; by exists s].
Qed.

(** The storage after the log of a transaction is committed, or dropped *)
Definition committed (s : WlStorage) : WlStorage := set_write_log (commit_tx (write_log s)) s.
Definition dropped (s : WlStorage) : WlStorage := set_write_log (drop_tx (write_log s)) s.
Lemma quiet_refl s : quiet s s.
Proof. done. Qed.
Lemma between_committed s : between_txs (committed s).
Proof. done. Qed.

Lemma charged_ext s s' s'' t p q a : (forall k, raw_view s'' k = raw_view s' k) ->
  charged s s' t p q a -> charged s s'' t p q a.
Proof.
  intros He (Ha & Hb & Hk). split; [done|]. split.
  - intros o. unfold wbal at 1. rewrite He. apply Hb.
  - intros k ? ?. rewrite He. by apply Hk.
Qed.

Lemma charge_fee_spec u w q s : fee_state s w q ->
  let t := fee_token (fee w) in let p := fee_payer w in
  if (match fee_amount s w with Ok a => payable s t p q a | _ => false end)
  then exists s' keys a, fee_amount s w = Ok a /\ charge_fee u w None (Some q) s = (committed s', Ok keys) /\
         charged s s' t p q a /\ quiet s s'
  else exists s', charge_fee u w None (Some q) s = (s', Err FeeError) /\ quiet s s'.
Proof.
  intros Hs t p. pose proof (transfer_fee_spec q w s Hs) as Ht. cbv zeta in Ht. fold t p in Ht.
  unfold charge_fee, unshield_fee, st_bind, st_ret, st_get, on_log, st_mod.
  destruct (fee_amount s w) as [a|e|].
  - destruct (payable s t p q a).
    + destruct Ht as (s' & -> & Hc & Hq & _). by exists s', (get_keys_with_precommit (write_log s')), a.
    + destruct Ht as (s' & -> & Hq). by exists s'.
  - rewrite Ht. by exists s.
  - rewrite Ht. by exists s.
Qed.

Lemma check_fees_spec w q s : fee_state s w q -> let t := fee_token (fee w) in
  check_fees s w = Ok tt <-> exists a, fee_amount s w = Ok a /\ a <= wbal s t (fee_payer w).
Proof.
  intros Hs t. destruct (fee_amount_total s w q Hs) as [Hfa|(fees & a & Hfees & Hto & Hfa)];
    pose proof (fee_amount_range s w) as Hr; destruct Hs as (Hw & _ & Hbp & _); unfold check_fees;
    rewrite read_balance_view by done; cbn [out_bind]; rewrite Hfa.
  - unfold fee_amount in Hfa. destruct (get_tx_fee w) as [fees| |]; [rewrite Hfa| |done];
      (split; [done|by intros (a & ? & _)]).
  - rewrite Hfees. unfold fee_err. fold t in Hto |- *. rewrite Hto. cbn [out_bind].
    rewrite amount_checked_sub_eq by (apply wbal_range || by apply Hr). destruct (Z.leb_spec a (wbal s t (fee_payer w))).
    + split; [by exists a|done].
    + split; [done|]. intros (? & [= <-] & ?). lia.
Qed.

(** C3. Executing a wrapper that does not pay its fee by unshielding, whose hash
    is not in the log yet: the hash is recorded whatever happens. When
    the fee, scaled to the denomination of its token, is covered by the payer
    (and the proposer's balance can hold it) exactly the fee moves from the
    payer to the block proposer and no other key changes, also when the gas
    limit is then exceeded and the wrapper fails. When it is not covered the
    wrapper fails and not a single key of the storage changes: what
    [transfer_fee] moves of an insufficient balance is dropped with the log, although
    its message and the comments on its tests say that the balance is drained. The
    check made before inclusion accepts exactly when the payer can pay. *)
Theorem wrapper_fee_outcomes u tx w len q m s (Hs : fee_state s w q)
  (Hu : get_fee_unshielding_transaction tx w = None)
  (Hh : replay_protection (write_log s) !! header_hash tx = None) :
  let t := fee_token (fee w) in let p := fee_payer w in
  let '((m', s'), r) := finalize_wrapper u tx w len (Some q) (m, s) in
  match fee_amount s w with
  | Ok a =>
      if payable s t p q a
      then charged s s' t p q a /\ (r = Err GasError \/ exists keys, r = Ok keys)
      else r = Err FeeError /\ forall k, raw_view s' k = raw_view s k
  | _ => r = Err FeeError /\ forall k, raw_view s' k = raw_view s k
  end /\
  has_replay_protection_entry (header_hash tx) (write_log s') = Some true /\
  (check_fees s w = Ok tt <-> exists a, fee_amount s w = Ok a /\ a <= wbal s t p).
Proof.
  intros t p. unfold finalize_wrapper, apply_wrapper_tx. rewrite Hu.
  unfold write_tx_hash, replay_insert, st_bind at 1, st_ret, st_err. rewrite Hh.
  set (s0 := set_write_log _ s). pose proof (charge_fee_spec u w q s0 Hs) as Hc. cbv zeta in Hc. fold t p in Hc.
  pose proof (check_fees_spec w q s Hs) as Hcheck. cbv zeta in Hcheck.
  change (fee_amount s0 w) with (fee_amount s w) in Hc.
  assert (forall s', quiet s0 s' -> has_replay_protection_entry (header_hash tx) (write_log s') = Some true) as Hrec.
  { intros s' (_ & _ & _ & Hr & _). unfold has_replay_protection_entry. rewrite Hr. cbn. by rewrite lookup_insert_eq. }
  assert (between_txs s0) as Hb0 by (by destruct Hs as (_ & ? & _)).
  destruct (match fee_amount s w with Ok a => payable s0 t p q a | _ => false end) eqn:Hpay.
  - destruct Hc as (s' & keys & a & Hfa & -> & Hch & Hq). rewrite Hfa in Hpay, Hcheck |- *. change (payable s0 t p q a) with (payable s t p q a) in Hpay.
    rewrite Hpay. apply Hrec in Hq as Hr.
    assert (charged s (committed s') t p q a) as Hcc.
    { apply (charged_ext s0 s'); [|done]. intros k. by apply (raw_view_commit s0). }
    assert (forall k, raw_view (dropped (committed s')) k = raw_view (committed s') k) as Hd
      by (intros k; by apply raw_view_drop).
    assert (forall k, raw_view (committed (committed s')) k = raw_view (committed s') k) as Hcm
      by (intros k; by apply (raw_view_commit (committed s'))).
    pose proof (Meter.add_wrapper_gas_total len m) as Hg.
    destruct (Meter.add_wrapper_gas len m) as [m' [[]|e|]]; [| |by destruct Hg]; (split; [split; [by eapply charged_ext|]|done]); eauto.
  - destruct Hc as (s' & -> & Hq). apply Hrec in Hq as Hr. pose proof (fun k => raw_view_drop s0 s' k Hb0 Hq) as Hd.
    destruct (fee_amount s w) as [a| |]; [|done..]. change (payable s0 t p q a) with (payable s t p q a) in Hpay. by rewrite Hpay.
Qed.
End charging.

(** ** A concrete encoding: amounts as 32 little-endian bytes *)
Module RefFees.
Import RefTx RefStorage.
#[export] Existing Instances counter_gen Ref.uint_ref Ref.uint_ref_laws RefCodec.codec_laws.
Definition le_decode (n : nat) (bs : bytes) : option Z :=
  if bool_decide (Datatypes.length bs = n) && forallb (fun b => (0 <=? b) && (b <? 256)) bs
  then Some (little_endian_to_Z 8 bs) else None.
#[export] Instance fee_codec : FeeCodec := {|
  amount_encode a := Z_to_little_endian 32 8 a;
  amount_decode := le_decode 32;
  denom_decode := le_decode 1;
  borsh_transfer _ _ _ _ _ := []
|}.
Lemma le_decode_range n bs a : le_decode n bs = Some a -> 0 <= a < 2 ^ (8 * Z.of_nat n).
Proof.
  unfold le_decode. destruct (_ && _) eqn:Hb; [|done]. intros [= <-]. apply andb_true_iff in Hb as [Hl Hb].
  apply bool_decide_eq_true in Hl. subst n. rewrite Z.mul_comm. apply little_endian_to_Z_bound; [lia|].
  apply list.Forall_forall. intros b Hin. rewrite forallb_forall in Hb. specialize (Hb b (proj1 (list_elem_of_In _ _) Hin)).
  lia.
Qed.
#[export] Instance fee_codec_laws : FeeCodecLaws fee_codec.
Proof.
  split.
  - intros a Ha. unfold in_u256 in Ha. rewrite MAX_VALUE_eq in Ha. cbn [amount_decode amount_encode fee_codec].
    unfold le_decode. rewrite bool_decide_true by (apply Nat2Z.inj; rewrite length_Z_to_little_endian; lia). cbn [andb].
    rewrite (proj2 (forallb_forall _ _)), little_endian_to_Z_to_little_endian, Z.mod_small by
      (try lia; intros b Hb; pose proof (Z_to_little_endian_bound 32 8 a ltac:(lia) ltac:(lia)) as Hf;
       rewrite list.Forall_forall in Hf; specialize (Hf b (proj2 (list_elem_of_In _ _) Hb)); lia).
    done.
  - intros bs a Ha%le_decode_range. unfold in_u256. rewrite MAX_VALUE_eq. lia.
  - intros a. unfold blen. cbn [amount_encode fee_codec]. rewrite length_Z_to_little_endian; lia.
  - intros bs d Hd%le_decode_range. lia.
Qed.
#[export] Instance idle_wasm : @WasmRun RefTx.env counter_gen := {| run_wasm _ _ s := (write_log s, Ok true) |}.
#[export] Instance idle_wasm_laws : WasmRunLaws idle_wasm.
Proof. by split. Qed.

Definition payer : Address := fee_payer (sample_wrapper 1).
Definition proposer : Address := Established 9.
Definition with_balance (b : Z) : @WlStorage counter_gen :=
  @mkWl counter_gen (@mkWriteLog counter_gen None ∅ ∅ ∅ ∅ ∅)
    (@mkStorage counter_gen {[ bkey (Established 1) payer := amount_encode b ]} ∅ ∅ 0).
Definition unshield : unshield_env := mkUnshieldEnv 0 [] 0 None (Meter.mkGas 0) 0.

Lemma holds_sample b o : 0 <= b < 2 ^ 256 -> key_len (bkey (Established 1) o) <= MAX_LEN ->
  holds_amount (with_balance b) (bkey (Established 1) o).
Proof.
  intros Hb Hk. unfold holds_amount, short, raw_view, find. cbn [write_log with_balance tx_write_log tx_precommit_write_log block_write_log storage subspace].
  rewrite !lookup_empty. destruct (decide (o = payer)) as [->|Ho].
  - rewrite lookup_singleton_eq. split; [split; [done|]|]; intros ? [= <-].
    + change (blen (amount_encode b) <= MAX_LEN). rewrite amount_encode_len. unfold MAX_LEN. lia.
    + change (is_Some (amount_decode (amount_encode b))). rewrite amount_decode_encode; [done|]. unfold in_u256. rewrite MAX_VALUE_eq. lia.
  - rewrite lookup_singleton_ne by (intros Hk'; apply Ho; by injection Hk'). done.
Qed.
Lemma short_other b k : k <> bkey (Established 1) payer -> key_len k <= MAX_LEN -> short (with_balance b) k.
Proof.
  intros Hk Hl. split; [done|]. intros v. unfold raw_view, find.
  cbn [write_log with_balance tx_write_log tx_precommit_write_log block_write_log storage subspace].
  by rewrite !lookup_empty, lookup_singleton_ne by congruence.
Qed.
Lemma fee_state_sample b : 0 <= b < 2 ^ 256 ->
  fee_state (with_balance b) (sample_wrapper 1) proposer.
Proof.
  intros Hb. unfold fee_state. split; [|split; [done|split; [|split]]].
  - split; [split|]; vm_compute; split; discriminate.
  - apply holds_sample; [done|vm_compute; discriminate].
  - apply holds_sample; [done|vm_compute; discriminate].
  - apply short_other; [done|vm_compute; discriminate].
Qed.
End RefFees.
Import RefTx RefStorage RefFees.

Lemma wrapper_fee_outcomes_witness :
  let '((_, s'), r) := finalize_wrapper unshield (sample_tx 1) (sample_wrapper 1) 100
    (Some proposer) (Meter.mkTxGasMeter (Meter.mkGas 1000000) (Meter.mkGas 0), with_balance 19999999999) in
  r = Err FeeError /\ forall k, raw_view s' k = raw_view (with_balance 19999999999) k.
Proof.
  pose proof (wrapper_fee_outcomes unshield (sample_tx 1) (sample_wrapper 1)
    100 proposer (Meter.mkTxGasMeter (Meter.mkGas 1000000) (Meter.mkGas 0)) (with_balance 19999999999)) as H.
  destruct (finalize_wrapper _ _ _ _ _ _) as [[m' s'] r]. cbv zeta in H.
  replace (fee_amount _ _) with (Ok (E:=ProtocolError) 20000000000) in H by (vm_compute; reflexivity).
  match type of H with context [if ?b then _ else _] => replace b with false in H by (vm_compute; reflexivity) end.
  apply H; [apply fee_state_sample; lia|reflexivity|reflexivity].
Defined.
