(* ===== verification/Proposal.v ===== *)
(** * Block proposals and the mempool
    ([apps/src/lib/node/ledger/shell/{prepare_proposal,process_proposal,mod}.rs])

    [PrepareProposal] of a validator, [ProcessProposal] of the others and the
    check of a transaction that enters the mempool, over the transactions, fees,
    write log and block allocation of the other files.

    The checks of vote extensions, which read the storage of the Ethereum
    bridge, are the class [VoteExts]. *)

From Stdlib Require Import ZArith Lia Ascii String.
From stdpp Require Import base numbers list gmap sets option.
From S2P Require Import Prelude Gas Uint Dec Keys WriteLog Epoch WlStorage Token Tx BlockAlloc Fees.

Local Open Scope Z_scope.
Local Open Scope outcome_scope.
Local Open Scope st_scope.

(** [ResultCode] *)
Inductive ResultCode : Type :=
| RcOk | WasmRuntimeError | InvalidTx | InvalidSig | InvalidOrder | ExtraTxs | RcUndecryptable
| AllocationError | ReplayTx | InvalidChainId | ExpiredTx | TxGasLimit | RcFeeError
| InvalidVoteExtension | TooLarge | ExpiredDecryptedTx.
#[export] Instance ResultCode_eq : EqDecision ResultCode.
Proof. solve_decision. Defined.

Definition is_recoverable (c : ResultCode) : bool :=
  match c with
  | RcOk | WasmRuntimeError | ExpiredDecryptedTx => true
  | _ => false
  end.

(** Vote extensions: decoding ([try_from_slice]) and the checks against the
    storage. A digest is valid when all the extensions it decompresses to are. *)
Class VoteExts {G : AddressGen} : Type := {
  Ext : Type;
  ext_from_slice : ProtocolTxType -> bytes -> option Ext;
  validate_vext : WlStorage -> ProtocolTxType -> Ext -> Z -> bool;
  validate_digest : WlStorage -> ProtocolTxType -> Ext -> Z -> bool;
  any_valid_nonce : WlStorage -> Ext -> bool;
  valset_upd_seen : WlStorage -> Ext -> bool;
  must_send_valset_upd : WlStorage -> bool
}.

Inductive ProcessProposal : Type := Accept | Reject.

Section shell.
Context {U : UintOps} {C : AddressCodec} {G : AddressGen} {T : TxEnv} {B : TxBorsh} {F : FeeCodec} {W : WasmRun}
  {V : VoteExts}.

Record TxInQueue : Type := mkTxInQueue { queue_tx : Tx; queue_gas : Meter.Gas }.

Inductive ShellMode : Type :=
| Validator (local_config : option (gmap Address Z))
| Full
| Seed.

(** The parts of [Shell] that proposals read. [gas_costs], [max_tx_bytes],
    [max_proposal_bytes] and [max_block_gas] are protocol parameters held by
    the storage, [unshield_params] the ones of fee unshielding. *)
Record Shell : Type := mkShell {
  shell_chain_id : str;
  wl_storage : WlStorage;
  tx_queue : list TxInQueue;
  shell_mode : ShellMode;
  last_block_height : option Z;
  last_block_time : Z;
  last_epoch : Epoch;
  current_epoch : Epoch;
  epochs : Epochs;
  max_tx_bytes : Z;
  max_proposal_bytes : Z;
  max_block_gas : Z;
  gas_costs : gmap Address Z;
  unshield_params : unshield_env
}.

Definition get_last_block_height (sh : Shell) : Z := default 0 (last_block_height sh).

(** [PosQueries] *)
Definition get_current_decision_height {E} (sh : Shell) : outcome E Z := u64_add (get_last_block_height sh) 1.
Definition is_deciding_offset_within_epoch {E} (height_offset : Z) (sh : Shell) : outcome E bool :=
  let* current_decision_height := get_current_decision_height sh in
  if current_epoch sh =? 0 then
    let* h := u64_add 1 height_offset in Ok (current_decision_height =? h)
  else
    match list.last (first_block_heights (epochs sh)) with
    | Some h => let* h := u64_add h height_offset in Ok (current_decision_height =? h)
    | None => Ok false
    end.
Definition encrypted_txs_not_allowed {E} (sh : Shell) : outcome E bool :=
  let* is_2nd_height_off := is_deciding_offset_within_epoch 1 sh in
  let* is_3rd_height_off := is_deciding_offset_within_epoch 2 sh in
  Ok (is_2nd_height_off || is_3rd_height_off).

Definition validate_tx_bytes (sh : Shell) (tx_size : Z) : bool := tx_size <=? max_tx_bytes sh.

(** [get_block_timestamp]: the time of the request, when it has one that
    converts, or that of the last block *)
Definition get_block_timestamp (sh : Shell) (tendermint_block_time : option Z) : Z :=
  default (last_block_time sh) tendermint_block_time.

Definition replay_protection_checks (wrapper : Tx) : st WlStorage ProtocolError unit := fun s =>
  if has_committed_replay_protection_entry s (raw_header_hash wrapper) then (s, Err ReplayAttempt)
  else if wl_has_replay_protection_entry s (header_hash wrapper) then (s, Err ReplayAttempt)
  else
    match write_tx_hash (header_hash wrapper) (write_log s) with
    | (w', Ok _) => (set_write_log w' s, Ok tt)
    | (w', Err _) => (set_write_log w' s, Err ReplayAttempt)
    | (w', Panic) => (set_write_log w' s, Panic)
    end.

Definition minimum_gas_price (sh : Shell) (is_prepare_proposal : bool) (token : Address) : option Z :=
  let proposer_local_config :=
    if is_prepare_proposal then
      match shell_mode sh with
      | Validator local_config => local_config
      | _ => None
      end
    else None in
  match proposer_local_config with
  | Some config => config !! token
  | None => gas_costs sh !! token
  end.

(** The unshielding of [wrapper_fee_check] *)
Definition check_unshielding (sh : Shell) (w : WrapperTx) (masp_transaction : option Transaction)
  : st WlStorage ProtocolError unit :=
  match masp_transaction with
  | None => st_ret tt
  | Some transaction =>
      let u := unshield_params sh in
      match check_and_generate_fee_unshielding (ue_now u) (ue_salt u) (ue_code_hash u) (ue_tag u)
              (ue_descriptions_limit u) transaction w with
      | Ok unshield =>
          do! on_log precommit_tx in
          fun s => match apply_wasm_tx unshield (ue_gas_limit u) s with
                   | (s', Ok true) => (s', Ok tt)
                   | (s', Ok false) | (s', Err _) => (s', Err FeeUnshieldingError)
                   | (s', Panic) => (s', Panic)
                   end
      | Err _ => st_err FeeUnshieldingError
      | Panic => st_panic
      end
  end.

Definition wrapper_fee_check (sh : Shell) (w : WrapperTx) (masp_transaction : option Transaction)
  (block_proposer : option Address) (is_prepare_proposal : bool) : st WlStorage ProtocolError unit :=
  match minimum_gas_price sh is_prepare_proposal (fee_token (fee w)) with
  | None => st_err FeeError
  | Some minimum =>
      match to_amount (amount_per_gas_unit (fee w)) (fee_token (fee w)) (wl_storage sh) with
      | Ok amount_per_gas_unit =>
          if amount_per_gas_unit <? minimum then st_err FeeError
          else
            do! check_unshielding sh w masp_transaction in
            match block_proposer with
            | Some proposer => transfer_fee proposer w
            | None => let! s := st_get id in st_lift (check_fees s w)
            end
      | Err _ => st_err FeeError
      | Panic => st_panic
      end
  end.

(** [TxGasMeter::new(limit)] and [add_wrapper_gas]: whether the limit covers
    the wrapper *)
Definition wrapper_gas_ok {E} (w : WrapperTx) (tx_bytes_len : Z) : outcome E bool :=
  match Meter.tx_meter_new (gas_limit w) with
  | Ok meter =>
      match Meter.add_wrapper_gas tx_bytes_len meter with
      | (_, Ok _) => Ok true
      | (_, Err _) => Ok false
      | (_, Panic) => Panic
      end
  | _ => Panic
  end.
(** [u64::from(wrapper.gas_limit)] *)
Definition wrapper_gas {E} (w : WrapperTx) : outcome E Z :=
  u64_mul (Meter.multiplier (gas_limit w)) GAS_LIMIT_RESOLUTION.

Definition expired (block_time : Z) (expiration : option Z) : bool :=
  match expiration with
  | Some exp => exp <? block_time
  | None => false
  end.

(** [map_err(|_| ())] *)
Definition void_err {S E A} (m : st S E A) : st S unit A := fun s =>
  match m s with
  | (s', Ok a) => (s', Ok a)
  | (s', Err _) => (s', Err tt)
  | (s', Panic) => (s', Panic)
  end.

(** ** [PrepareProposal] *)
Definition validate_wrapper_bytes (sh : Shell) (tx_bytes : bytes) (block_time : option Z)
  (block_proposer : Address) : st WlStorage unit Z :=
  let! tx := void_err (st_lift (tx_try_from tx_bytes)) in
  if from_option (fun t => expired t (expiration (header tx))) false block_time then st_err tt
  else
    do! void_err (st_lift (validate_tx tx)) in
    match tx_type (header tx) with
    | Wrapper wrapper =>
        let! gas_ok := st_lift (wrapper_gas_ok wrapper (blen tx_bytes)) in
        if negb gas_ok then st_err tt
        else
          do! void_err (replay_protection_checks tx) in
          do! void_err (wrapper_fee_check sh wrapper (get_fee_unshielding_transaction tx wrapper)
                          (Some block_proposer) true) in
          st_lift (wrapper_gas wrapper)
    | _ => st_err tt
    end.

Definition commit_log (s : WlStorage) : WlStorage := set_write_log (commit_tx (write_log s)) s.
Definition drop_log (s : WlStorage) : WlStorage := set_write_log (drop_tx (write_log s)) s.

(** [filter_map] and [take_while] of [build_encrypted_txs], one transaction of
    the mempool at a time *)
Fixpoint encrypted_loop (sh : Shell) (m : mode) (block_time : option Z) (block_proposer : Address)
  (txs : list bytes) (temp : WlStorage) (alloc : BlockAllocator (BuildingEncryptedTxBatch m))
  : outcome AllocFailure (list bytes * BlockAllocator (BuildingEncryptedTxBatch m)) :=
  match txs with
  | [] => Ok ([], alloc)
  | tx_bytes :: txs' =>
      match validate_wrapper_bytes sh tx_bytes block_time block_proposer temp with
      | (temp', Ok gas) =>
          take_tx (try_alloc_encrypted m) tx
            (encrypted_loop sh m block_time block_proposer txs' (commit_log temp'))
            (mkResources tx_bytes gas) alloc
      | (temp', Err _) => encrypted_loop sh m block_time block_proposer txs' (drop_log temp') alloc
      | (temp', Panic) => Panic
      end
  end.
Definition build_encrypted_txs (sh : Shell) (m : mode) (txs : list bytes) (block_time : option Z)
  (block_proposer : Address) : outcome AllocFailure (list bytes * BlockAllocator BuildingDecryptedTxBatch) :=
  let* '(txs, alloc) := encrypted_loop sh m block_time block_proposer txs (temp_new (storage (wl_storage sh)))
                          (alloc_init (max_proposal_bytes sh) (max_block_gas sh)) in
  let* alloc := next_state_encrypted alloc in
  Ok (txs, alloc).

Definition decrypted_bytes (q : TxInQueue) : bytes := to_bytes (update_header (DecryptedT Decrypted) (queue_tx q)).
Definition build_decrypted_txs (sh : Shell) (alloc : BlockAllocator BuildingDecryptedTxBatch)
  : outcome AllocFailure (list bytes * BlockAllocator BuildingProtocolTxBatch) :=
  let* '(txs, alloc) := take_txs try_alloc_decrypted id (decrypted_bytes <$> tx_queue sh) alloc in
  let* alloc := next_state_decrypted alloc in
  Ok (txs, alloc).

(** [EthereumTxData::try_from(&tx)] and the filter of
    [deserialize_vote_extensions] *)
Definition ethereum_tx_data (tx : Tx) : option (ProtocolTxType * Ext) :=
  match tx_type (header tx) with
  | Protocol p =>
      data ← tx_data tx;
      ext ← ext_from_slice (ptx_tx p) data;
      Some (ptx_tx p, ext)
  | _ => None
  end.
Definition proposes_vext (sh : Shell) (tx_bytes : bytes) : bool :=
  match tx_try_from tx_bytes with
  | Ok tx =>
      match ethereum_tx_data tx with
      | Some (BridgePoolVext, _) => true
      | Some (EthEventsVext, ext) => any_valid_nonce (wl_storage sh) ext
      | Some (ValSetUpdateVext, ext) => negb (valset_upd_seen (wl_storage sh) ext)
      | _ => false
      end
  | _ => false
  end.
Definition deserialize_vote_extensions (sh : Shell) (txs : list bytes) : list bytes :=
  List.filter (proposes_vext sh) txs.
Definition build_protocol_txs (sh : Shell) (alloc : BlockAllocator BuildingProtocolTxBatch) (txs : list bytes)
  : outcome AllocFailure (list bytes) :=
  match last_block_height sh with
  | None => Ok []
  | Some _ =>
      let* '(txs, _) := take_txs try_alloc_protocol id (deserialize_vote_extensions sh txs) alloc in
      Ok txs
  end.

Definition get_encrypted_txs_allocator {E} (sh : Shell) : outcome E mode :=
  let* not_allowed := encrypted_txs_not_allowed sh in
  Ok (if not_allowed : bool then WithoutEncryptedTxs else WithEncryptedTxs).

Definition prepare_proposal (sh : Shell) (txs : list bytes) (time : option Z) (block_proposer : Address)
  : outcome AllocFailure (list bytes) :=
  match shell_mode sh with
  | Validator _ =>
      let* m := get_encrypted_txs_allocator sh in
      let* '(encrypted, alloc) := build_encrypted_txs sh m txs time block_proposer in
      let* '(decrypted, alloc) := build_decrypted_txs sh alloc in
      let* protocol := build_protocol_txs sh alloc txs in
      Ok (encrypted ++ decrypted ++ protocol)
  | _ => Ok []
  end.

(** ** [ProcessProposal] *)
Record ValidationMeta : Type := mkMeta {
  encrypted_txs_bins : EncryptedTxsBins;
  txs_bin : TxBin;
  decrypted_queue_has_remaining_txs : bool;
  has_decrypted_txs : bool
}.
Definition meta_from (sh : Shell) : ValidationMeta :=
  mkMeta (enc_bins_new (max_proposal_bytes sh) (max_block_gas sh)) (bin_init (max_proposal_bytes sh)) false false.

(** What [process_txs] threads through the transactions of a block. An early
    return of a [TxResult] is an error of the monad. *)
Record PState : Type := mkPState {
  tx_queue_iter : list TxInQueue;
  metadata : ValidationMeta;
  temp_wl_storage : WlStorage
}.
Definition on_txs_bin (m : st TxBin AllocFailure unit) : st PState ResultCode unit := fun p =>
  let md := metadata p in
  let '(b, o) := m (txs_bin md) in
  (mkPState (tx_queue_iter p)
     (mkMeta (encrypted_txs_bins md) b (decrypted_queue_has_remaining_txs md) (has_decrypted_txs md))
     (temp_wl_storage p),
   match o with Ok a => Ok a | Err _ => Err AllocationError | Panic => Panic end).
Definition on_enc_bins (m : st EncryptedTxsBins enc_error unit) : st PState ResultCode unit := fun p =>
  let md := metadata p in
  let '(b, o) := m (encrypted_txs_bins md) in
  (mkPState (tx_queue_iter p)
     (mkMeta b (txs_bin md) (decrypted_queue_has_remaining_txs md) (has_decrypted_txs md))
     (temp_wl_storage p),
   match o with Ok a => Ok a | Err _ => Err AllocationError | Panic => Panic end).
Definition on_temp (code : ResultCode) (m : st WlStorage ProtocolError unit) : st PState ResultCode unit := fun p =>
  let '(s, o) := m (temp_wl_storage p) in
  (mkPState (tx_queue_iter p) (metadata p) s,
   match o with Ok a => Ok a | Err _ => Err code | Panic => Panic end).
Definition set_has_decrypted (p : PState) : PState :=
  let md := metadata p in
  mkPState (tx_queue_iter p)
    (mkMeta (encrypted_txs_bins md) (txs_bin md) (decrypted_queue_has_remaining_txs md) true) (temp_wl_storage p).
(** [tx_queue_iter.next()] *)
Definition next_in_queue : st PState ResultCode (option TxInQueue) := fun p =>
  match tx_queue_iter p with
  | [] => (p, Ok None)
  | q :: l => (mkPState l (metadata p) (temp_wl_storage p), Ok (Some q))
  end.

(** Return the code unless the condition holds *)
Definition require (b : bool) (code : ResultCode) : st PState ResultCode unit :=
  if b then st_ret tt else st_err code.
(** [map_err] to a code *)
Definition with_code {E A} (o : outcome E A) (code : ResultCode) : st PState ResultCode A :=
  match o with
  | Ok a => st_ret a
  | Err _ => st_err code
  | Panic => st_panic
  end.

Definition ext_of (t : ProtocolTxType) (tx : Tx) : option Ext := data ← tx_data tx; ext_from_slice t data.

Definition check_protocol_tx (sh : Shell) (t : ProtocolTxType) (tx : Tx) : st PState ResultCode unit :=
  let vext height :=
    match ext_of t tx with
    | Some ext => require (validate_vext (wl_storage sh) t ext height) InvalidVoteExtension
    | None => st_err InvalidVoteExtension
    end in
  let digest height :=
    match ext_of t tx with
    | Some ext => require (validate_digest (wl_storage sh) t ext height) InvalidVoteExtension
    | None => st_panic
    end in
  match t with
  | EthEventsVext | BridgePoolVext => vext (get_last_block_height sh)
  | ValSetUpdateVext => vext (current_epoch sh)
  | EthereumEvents | BridgePool => digest (get_last_block_height sh)
  | ValidatorSetUpdate =>
      match ext_of t tx with
      | None => st_panic
      | Some _ =>
          do! require (must_send_valset_upd (wl_storage sh)) InvalidVoteExtension in
          digest (current_epoch sh)
      end
  end.

Definition check_decrypted_tx (block_time : Z) (d : DecryptedTx) (tx : Tx) : st PState ResultCode unit :=
  do! st_mod set_has_decrypted in
  let! next := next_in_queue in
  match next with
  | Some wrapper =>
      do! require (bool_decide (raw_header_hash (queue_tx wrapper) = raw_header_hash tx)) InvalidOrder in
      do! require (match d with Undecryptable => false | Decrypted => true end) InvalidTx in
      require (negb (expired block_time (expiration (header tx)))) ExpiredDecryptedTx
  | None => st_err ExtraTxs
  end.

Definition check_wrapper_tx (sh : Shell) (tx_bytes : bytes) (block_time : Z) (block_proposer : Address)
  (tx : Tx) (wrapper : WrapperTx) : st PState ResultCode unit :=
  let! gas_ok := st_lift (wrapper_gas_ok wrapper (blen tx_bytes)) in
  let! gas := st_lift (wrapper_gas wrapper) in
  if negb gas_ok then fun p =>
    match on_enc_bins (enc_try_dump tx_bytes gas) p with
    | (p', Panic) => (p', Panic)
    | (p', _) => (p', Err TxGasLimit)
    end
  else
    do! on_enc_bins (enc_try_dump tx_bytes gas) in
    let! md := st_get metadata in
    do! require (negb (has_decrypted_txs md)) InvalidTx in
    let! not_allowed := st_lift (encrypted_txs_not_allowed sh) in
    do! require (negb not_allowed) AllocationError in
    do! require (bool_decide (chain_id (header tx) = shell_chain_id sh)) InvalidChainId in
    do! require (negb (expired block_time (expiration (header tx)))) ExpiredTx in
    do! on_temp ReplayTx (replay_protection_checks tx) in
    on_temp RcFeeError (wrapper_fee_check sh wrapper (get_fee_unshielding_transaction tx wrapper)
                          (Some block_proposer) false).

Definition check_proposal_tx (sh : Shell) (tx_bytes : bytes) (block_time : Z) (block_proposer : Address)
  : st PState ResultCode unit :=
  do! require (validate_tx_bytes sh (blen tx_bytes)) TooLarge in
  do! on_txs_bin (try_dump tx_bytes) in
  let! tx := with_code (tx_try_from tx_bytes) InvalidTx in
  do! with_code (validate_tx tx) InvalidSig in
  match tx_type (header tx) with
  | Raw => st_err InvalidTx
  | Protocol protocol_tx =>
      do! require (bool_decide (chain_id (header tx) = shell_chain_id sh)) InvalidChainId in
      do! require (negb (expired block_time (expiration (header tx)))) ExpiredTx in
      check_protocol_tx sh (ptx_tx protocol_tx) tx
  | DecryptedT d => check_decrypted_tx block_time d tx
  | Wrapper wrapper => check_wrapper_tx sh tx_bytes block_time block_proposer tx wrapper
  end.

Definition set_temp (s : WlStorage) (p : PState) : PState := mkPState (tx_queue_iter p) (metadata p) s.

(** One transaction of [process_txs]: its code, with the log committed or
    dropped *)
Definition process_tx (sh : Shell) (block_time : Z) (block_proposer : Address) (tx_bytes : bytes) (p : PState)
  : outcome ResultCode (ResultCode * PState) :=
  match check_proposal_tx sh tx_bytes block_time block_proposer p with
  | (p', Ok _) => Ok (RcOk, set_temp (commit_log (temp_wl_storage p')) p')
  | (p', Err RcOk) => Ok (RcOk, set_temp (commit_log (temp_wl_storage p')) p')
  | (p', Err code) => Ok (code, set_temp (drop_log (temp_wl_storage p')) p')
  | (p', Panic) => Panic
  end.
Fixpoint process_loop (sh : Shell) (block_time : Z) (block_proposer : Address) (txs : list bytes) (p : PState)
  : outcome ResultCode (list ResultCode * PState) :=
  match txs with
  | [] => Ok ([], p)
  | tx_bytes :: txs' =>
      let* '(code, p) := process_tx sh block_time block_proposer tx_bytes p in
      let* '(codes, p) := process_loop sh block_time block_proposer txs' p in
      Ok (code :: codes, p)
  end.

Definition process_init (sh : Shell) : PState :=
  mkPState (tx_queue sh) (meta_from sh) (temp_new (storage (wl_storage sh))).
Definition process_txs (sh : Shell) (txs : list bytes) (block_time : Z) (block_proposer : Address)
  : outcome ResultCode (list ResultCode * ValidationMeta) :=
  let* '(codes, p) := process_loop sh block_time block_proposer txs (process_init sh) in
  let remaining := match tx_queue sh with [] => false | _ => true end &&
                   match tx_queue_iter p with [] => false | _ => true end in
  let md := metadata p in
  Ok (codes, mkMeta (encrypted_txs_bins md) (txs_bin md) remaining (has_decrypted_txs md)).

Definition process_proposal (sh : Shell) (txs : list bytes) (time : option Z) (block_proposer : Address)
  : outcome ResultCode (ProcessProposal * list ResultCode) :=
  let* '(codes, md) := process_txs sh txs (get_block_timestamp sh time) block_proposer in
  let invalid_txs := existsb (fun c => negb (is_recoverable c)) codes in
  Ok (if invalid_txs || decrypted_queue_has_remaining_txs md then Reject else Accept, codes).

(** ** [mempool_validate] *)
Definition mempool_protocol (sh : Shell) (t : ProtocolTxType) (tx : Tx) : outcome ResultCode unit :=
  let vext height :=
    match ext_of t tx with
    | Some ext => if validate_vext (wl_storage sh) t ext height then Ok tt else Err InvalidVoteExtension
    | None => Err InvalidVoteExtension
    end in
  match t with
  | EthEventsVext | BridgePoolVext => vext (get_last_block_height sh)
  | ValSetUpdateVext => vext (last_epoch sh)
  | _ => Err InvalidTx
  end.

Definition mempool_wrapper (sh : Shell) (tx_bytes : bytes) (tx : Tx) (w : WrapperTx) : outcome ResultCode unit :=
  let* gas_ok := wrapper_gas_ok w (blen tx_bytes) in
  if negb gas_ok then Err TxGasLimit
  else
    let* tx_gas_limit := match Meter.gas_from_limit (gas_limit w) with Ok g => Ok g | _ => Panic end in
    let* block_gas_limit := match Meter.from_whole_units (max_block_gas sh) with Ok g => Ok g | _ => Panic end in
    if Meter.sub block_gas_limit <? Meter.sub tx_gas_limit then Err AllocationError
    else if storage_has_replay_protection_entry (storage (wl_storage sh)) (raw_header_hash tx) then Err ReplayTx
    else if storage_has_replay_protection_entry (storage (wl_storage sh)) (header_hash tx) then Err ReplayTx
    else
      match (wrapper_fee_check sh w (get_fee_unshielding_transaction tx w) None false
               (temp_new (storage (wl_storage sh)))).2 with
      | Ok _ => Ok tt
      | Err _ => Err RcFeeError
      | Panic => Panic
      end.

Definition mempool_validate (sh : Shell) (tx_bytes : bytes) : outcome ResultCode unit :=
  if negb (validate_tx_bytes sh (blen tx_bytes)) then Err TooLarge
  else
    match tx_try_from tx_bytes with
    | Err _ => Err InvalidTx
    | Panic => Panic
    | Ok tx =>
        if negb (bool_decide (chain_id (header tx) = shell_chain_id sh)) then Err InvalidChainId
        else if expired (get_block_timestamp sh None) (expiration (header tx)) then Err ExpiredTx
        else
          match validate_tx tx with
          | Err _ => Err InvalidSig
          | Panic => Panic
          | Ok _ =>
              match tx_type (header tx) with
              | Protocol p => mempool_protocol sh (ptx_tx p) tx
              | Wrapper w => mempool_wrapper sh tx_bytes tx w
              | Raw | DecryptedT _ => Err InvalidTx
              end
          end
    end.
End shell.

(** ** What an accepted proposal guarantees *)
Section soundness.
Context {U : UintOps} {C : AddressCodec} {G : AddressGen} {T : TxEnv} {B : TxBorsh} {F : FeeCodec} {W : WasmRun}
  {HW : WasmRunLaws W} {V : VoteExts}.

Lemma keeps_wrapper_fee_check sh w masp proposer prepare :
  st_keeps same_replay (wrapper_fee_check sh w masp proposer prepare).
Proof using HW.
  assert (forall u limit, st_keeps same_replay (fun s => match apply_wasm_tx u limit s with
    | (s', Ok true) => (s', Ok tt) | (s', Ok false) | (s', Err _) => (s', Err FeeUnshieldingError)
    | (s', Panic) => (s', Panic) end)) as Hw.
  { intros u limit s. pose proof (keeps_apply_wasm_tx u limit s) as Hk. by destruct (apply_wasm_tx u limit s) as [? [[]| |]]. }
  assert (forall q, st_keeps same_replay (transfer_fee q w)) as Hf
    by (intros q s; apply tx_only_replay, keeps_transfer_fee).
  unfold wrapper_fee_check, check_unshielding. repeat (apply Hw || apply Hf || keeps_step); by apply keeps_mod.
Qed.

(** Runs whose result is recoverable: [Q] after a success, [R] after an early
    return that does not reject the block *)
Definition st_rec {S A} (m : st S ResultCode A) (Q : A -> S -> Prop) (R : S -> Prop) (s : S) : Prop :=
  match m s with
  | (s', Ok a) => Q a s'
  | (s', Err e) => is_recoverable e = true -> R s'
  | (_, Panic) => True
  end.
Lemma rec_bind {S A A'} (m : st S ResultCode A) (k : A -> st S ResultCode A') Q R s :
  st_rec m (fun a s' => st_rec (k a) Q R s') R s -> st_rec (st_bind m k) Q R s.
Proof. unfold st_rec, st_bind. by destruct (m s) as [s' [a|e|]]. Qed.
Lemma rec_require b code (Q : unit -> PState -> Prop) R p :
  is_recoverable code = false -> (b = true -> Q tt p) -> st_rec (require b code) Q R p.
Proof. unfold st_rec, require. intros Hc HQ. destruct b; cbn; [by apply HQ|congruence]. Qed.
Lemma rec_with_code {E A} (o : outcome E A) code (Q : A -> PState -> Prop) R p :
  is_recoverable code = false -> (forall a, o = Ok a -> Q a p) -> st_rec (with_code o code) Q R p.
Proof. unfold st_rec, with_code. intros Hc HQ. destruct o; cbn; [by apply HQ|congruence|done]. Qed.
Lemma rec_lift {S A} (o : outcome ResultCode A) (Q : A -> S -> Prop) R s :
  (forall a, o = Ok a -> Q a s) -> (forall e, o <> Err e) -> st_rec (st_lift o) Q R s.
Proof. unfold st_rec, st_lift. intros HQ HE. destruct o; [by apply HQ|by edestruct HE|done]. Qed.

(** [r] was added to a bin *)
Definition dumped {I} `{Resource I} (r : I) (b b' : TxBin) : Prop :=
  occupied b' = occupied b + usage_of r /\ occupied b' <= allotted b' /\ allotted b' = allotted b.
Lemma try_dump_dumped {I} `{Resource I} (r : I) b b' : try_dump r b = (b', Ok tt) -> dumped r b b'.
Proof.
  unfold try_dump. destruct (_ <? _); [done|]. destruct (u64_add _ _) as [occ| |] eqn:Ho; [|done..].
  apply unwrap_Ok, u64_checked_add_Some in Ho as [-> _]. destruct (Z.leb_spec (occupied b + usage_of r) (allotted b)).
  - intros [= <-]. done.
  - by destruct (resource_left b).
Qed.
Lemma enc_try_dump_dumped t g b b' : enc_try_dump t g b = (b', Ok tt) ->
  dumped t (space b) (space b') /\ dumped g (gas_bin b) (gas_bin b').
Proof.
  unfold enc_try_dump. destruct (try_dump t (space b)) as [sp [[]|[]|]] eqn:Hs; [|done..].
  destruct (try_dump g (gas_bin b)) as [gb [[]|[]|]] eqn:Hg; [|done..]. intros [= <-].
  split; by apply try_dump_dumped.
Qed.

(** The parts of the state a transaction leaves alone *)
Definition bins_of (p : PState) : EncryptedTxsBins := encrypted_txs_bins (metadata p).
Definition bin_of (p : PState) : TxBin := txs_bin (metadata p).
Definition seen_decrypted (p : PState) : bool := has_decrypted_txs (metadata p).
Definition replays (p : PState) : gmap Hash ReProtStorageModification := replay_protection (write_log (temp_wl_storage p)).
Definition db (p : PState) : Storage := storage (temp_wl_storage p).

(** The step of an acceptable transaction *)
Definition tx_step (sh : Shell) (block_time : Z) (b : bytes) (p p' : PState) : Prop :=
  exists tx sig, tx_try_from b = Ok tx /\ validate_tx tx = Ok sig /\ blen b <= max_tx_bytes sh /\
    dumped b (bin_of p) (bin_of p') /\ db p' = db p /\
    match tx_type (header tx) with
    | Raw => False
    | Protocol _ =>
        chain_id (header tx) = shell_chain_id sh /\ tx_queue_iter p' = tx_queue_iter p /\ bins_of p' = bins_of p /\
        seen_decrypted p' = seen_decrypted p /\ replays p' = replays p
    | DecryptedT _ =>
        (exists q, tx_queue_iter p = q :: tx_queue_iter p' /\ raw_header_hash (queue_tx q) = raw_header_hash tx) /\
        bins_of p' = bins_of p /\ seen_decrypted p' = true /\ replays p' = replays p
    | Wrapper w =>
        chain_id (header tx) = shell_chain_id sh /\ expired block_time (expiration (header tx)) = false /\
        tx_queue_iter p' = tx_queue_iter p /\ seen_decrypted p = false /\ seen_decrypted p' = false /\
        dumped b (space (bins_of p)) (space (bins_of p')) /\
        dumped (Meter.multiplier (gas_limit w)) (gas_bin (bins_of p)) (gas_bin (bins_of p')) /\
        storage_has_replay_protection_entry (db p) (raw_header_hash tx) = false /\
        match has_replay_protection_entry (header_hash tx) (write_log (temp_wl_storage p)) with
        | Some present => present = false
        | None => storage_has_replay_protection_entry (db p) (header_hash tx) = false
        end /\
        replays p' = <[header_hash tx := RWrite]> (replays p)
    end.

Lemma on_temp_rec code m (Q : unit -> PState -> Prop) R p : is_recoverable code = false ->
  (forall s', m (temp_wl_storage p) = (s', Ok tt) -> Q tt (set_temp s' p)) -> st_rec (on_temp code m) Q R p.
Proof.
  intros Hc HQ. unfold st_rec, on_temp. destruct (m (temp_wl_storage p)) as [s' [[]|e|]]; cbn; [by apply HQ|congruence|done].
Qed.
Definition set_bins (e : EncryptedTxsBins) (p : PState) : PState :=
  mkPState (tx_queue_iter p) (mkMeta e (bin_of p) (decrypted_queue_has_remaining_txs (metadata p)) (seen_decrypted p))
    (temp_wl_storage p).
Definition set_bin (b : TxBin) (p : PState) : PState :=
  mkPState (tx_queue_iter p) (mkMeta (bins_of p) b (decrypted_queue_has_remaining_txs (metadata p)) (seen_decrypted p))
    (temp_wl_storage p).
Lemma on_enc_bins_rec m (Q : unit -> PState -> Prop) R p :
  (forall e, m (bins_of p) = (e, Ok tt) -> Q tt (set_bins e p)) -> st_rec (on_enc_bins m) Q R p.
Proof.
  intros HQ. unfold st_rec, on_enc_bins. fold (bins_of p). destruct (m (bins_of p)) as [e [[]| |]]; cbn; [by apply HQ|done..].
Qed.
Lemma on_txs_bin_rec m (Q : unit -> PState -> Prop) R p :
  (forall b, m (bin_of p) = (b, Ok tt) -> Q tt (set_bin b p)) -> st_rec (on_txs_bin m) Q R p.
Proof.
  intros HQ. unfold st_rec, on_txs_bin. fold (bin_of p). destruct (m (bin_of p)) as [b [[]| |]]; cbn; [by apply HQ|done..].
Qed.

Lemma replay_protection_checks_Ok tx s s' : replay_protection_checks tx s = (s', Ok tt) ->
  storage_has_replay_protection_entry (storage s) (raw_header_hash tx) = false /\
  match has_replay_protection_entry (header_hash tx) (write_log s) with
  | Some present => present = false
  | None => storage_has_replay_protection_entry (storage s) (header_hash tx) = false
  end /\
  s' = set_write_log (set_replay (<[header_hash tx := RWrite]> (replay_protection (write_log s))) (write_log s)) s.
Proof.
  unfold replay_protection_checks, has_committed_replay_protection_entry, wl_has_replay_protection_entry.
  destruct (storage_has_replay_protection_entry (storage s) (raw_header_hash tx)); [done|].
  destruct (has_replay_protection_entry (header_hash tx) (write_log s)) as [[]|] eqn:Hr;
    [done| |destruct (storage_has_replay_protection_entry (storage s) (header_hash tx)); [done|]];
    unfold write_tx_hash, replay_insert, st_bind, st_ret, st_err;
    destruct (replay_protection (write_log s) !! header_hash tx); cbn; try done; by intros [= <-].
Qed.

(** Protocol transactions only read *)
Lemma check_protocol_rec sh t tx (Q : unit -> PState -> Prop) R p : Q tt p -> st_rec (check_protocol_tx sh t tx) Q R p.
Proof.
  intros HQ. unfold check_protocol_tx. destruct t;
    repeat (apply rec_bind || case_match || (apply rec_require; [done|intros _]) || done); intros Hd; done.
Qed.

Lemma check_decrypted_rec time d tx R p :
  (forall q l, tx_queue_iter p = q :: l -> raw_header_hash (queue_tx q) = raw_header_hash tx ->
     R (set_has_decrypted (mkPState l (metadata p) (temp_wl_storage p)))) ->
  st_rec (check_decrypted_tx time d tx) (fun _ => R) R p.
Proof.
  intros HR. unfold check_decrypted_tx, st_rec, st_bind, st_mod, next_in_queue, set_has_decrypted.
  cbn [tx_queue_iter metadata temp_wl_storage]. destruct (tx_queue_iter p) as [|q l] eqn:Hq; [done|].
  unfold require. case_bool_decide as Hh; [|done]. specialize (HR q l eq_refl Hh).
  destruct d; [|done]. unfold st_ret. destruct (negb _); [exact HR|intros _; exact HR].
Qed.

Lemma wrapper_gas_Ok {E} w g : wrapper_gas (E:=E) w = Ok g -> g = Meter.multiplier (gas_limit w).
Proof.
  unfold wrapper_gas. intros [-> _]%unwrap_Ok%u64_checked_mul_Some. unfold GAS_LIMIT_RESOLUTION. lia.
Qed.
Lemma no_err_u64_mul {E} a b (e : E) : u64_mul a b <> Err e.
Proof. unfold u64_mul. by destruct (u64_checked_mul a b). Qed.
Lemma no_err_u64_add {E} a b (e : E) : u64_add a b <> Err e.
Proof. unfold u64_add. by destruct (u64_checked_add a b). Qed.
Lemma wrapper_gas_ok_no_err {E} w n (e : E) : wrapper_gas_ok w n <> Err e.
Proof. unfold wrapper_gas_ok. destruct (Meter.tx_meter_new _); [|done..]. by destruct (Meter.add_wrapper_gas _ _) as [? []]. Qed.
Lemma out_bind_no_err {E A B'} (m : outcome E A) (k : A -> outcome E B') e :
  (forall e, m <> Err e) -> (forall a e, k a <> Err e) -> out_bind m k <> Err e.
Proof. destruct m as [a|e'|]; cbn; auto. intros H. by destruct (H e'). Qed.
Lemma not_allowed_no_err {E} sh (e : E) : encrypted_txs_not_allowed sh <> Err e.
Proof.
  assert (forall n e, is_deciding_offset_within_epoch (E:=E) n sh <> Err e) as Hd.
  { intros n e'. apply out_bind_no_err; [intros; apply no_err_u64_add|]. intros a e''. 
    repeat case_match; try done; (apply out_bind_no_err; [intros; apply no_err_u64_add|done]). }
  apply out_bind_no_err; [apply Hd|]. intros a e'. apply out_bind_no_err; [apply Hd|done].
Qed.

Lemma check_wrapper_rec sh b time proposer tx w R p :
  (forall e s', has_decrypted_txs (metadata p) = false ->
     dumped b (space (bins_of p)) (space e) -> dumped (Meter.multiplier (gas_limit w)) (gas_bin (bins_of p)) (gas_bin e) ->
     chain_id (header tx) = shell_chain_id sh -> expired time (expiration (header tx)) = false ->
     replay_protection_checks tx (temp_wl_storage p) = (s', Ok tt) ->
     forall s'', same_replay s' s'' -> R (set_temp s'' (set_bins e p))) ->
  st_rec (check_wrapper_tx sh b time proposer tx w) (fun _ => R) R p.
Proof using HW.
  intros HR. unfold check_wrapper_tx. apply rec_bind, rec_lift; [|apply wrapper_gas_ok_no_err]. intros ok _.
  apply rec_bind, rec_lift; [|intros; apply no_err_u64_mul]. intros g ->%wrapper_gas_Ok.
  destruct ok; cbn [negb].
  2: { unfold st_rec. destruct (on_enc_bins _ p) as [p' []]; done. }
  apply rec_bind, on_enc_bins_rec. intros e [Hsp Hg]%enc_try_dump_dumped.
  apply rec_bind. cbv [st_rec st_get]. apply rec_bind, rec_require; [done|]. intros Hd%negb_true_iff.
  apply rec_bind, rec_lift; [|apply not_allowed_no_err]. intros na _.
  apply rec_bind, rec_require; [done|]. intros _. apply rec_bind, rec_require; [done|]. intros Hc%bool_decide_eq_true.
  apply rec_bind, rec_require; [done|]. intros He%negb_true_iff.
  apply rec_bind, on_temp_rec; [done|]. intros s' Hs'. apply on_temp_rec; [done|]. intros s'' Hs''.
  apply (HR e s'); try done. pose proof (keeps_wrapper_fee_check sh w (get_fee_unshielding_transaction tx w) (Some proposer) false s') as Hk.
  cbn [temp_wl_storage set_temp] in Hs''. by rewrite Hs'' in Hk.
Qed.

Lemma check_proposal_step sh b time proposer p :
  st_rec (check_proposal_tx sh b time proposer) (fun _ => tx_step sh time b p) (tx_step sh time b p) p.
Proof using HW.
  unfold check_proposal_tx. apply rec_bind, rec_require; [done|]. intros Hl%Z.leb_le.
  apply rec_bind, on_txs_bin_rec. intros bin Hb%try_dump_dumped.
  apply rec_bind, rec_with_code; [done|]. intros tx Htx. apply rec_bind, rec_with_code; [done|]. intros sig Hv.
  destruct (tx_type (header tx)) as [|w|d|pt] eqn:Hty; [intros [=]| | |].
  - apply check_wrapper_rec. intros e s' Hd Hsp Hg Hc He (Hraw & Hh & ->)%replay_protection_checks_Ok s'' [Hr Hst].
    exists tx, sig. rewrite Hty. split_and!; try done.
  - apply check_decrypted_rec. intros q l Hq Hh. exists tx, sig. rewrite Hty. split_and!; try done. by exists q.
  - apply rec_bind, rec_require; [done|]. intros Hc%bool_decide_eq_true. apply rec_bind, rec_require; [done|]. intros _.
    apply check_protocol_rec. exists tx, sig. rewrite Hty. split_and!; done.
Qed.

Lemma process_tx_step sh time proposer b p c p' : process_tx sh time proposer b p = Ok (c, p') ->
  is_recoverable c = true -> tx_step sh time b p p'.
Proof using HW.
  intros Hp Hc. pose proof (check_proposal_step sh b time proposer p) as Hs. unfold st_rec in Hs.
  unfold process_tx in Hp. destruct (check_proposal_tx sh b time proposer p) as [p1 [[]|e|]]; [| |done].
  - injection Hp as <- <-. exact Hs.
  - destruct e; injection Hp as <- <-; try done; by apply Hs.
Qed.

(** The wrappers and the decrypted transactions of a block *)
Definition as_wrapper (b : bytes) : option (bytes * Tx * WrapperTx) :=
  match tx_try_from b with
  | Ok tx => match tx_type (header tx) with Wrapper w => Some (b, tx, w) | _ => None end
  | _ => None
  end.
Definition as_decrypted (b : bytes) : option Tx :=
  match tx_try_from b with
  | Ok tx => match tx_type (header tx) with DecryptedT _ => Some tx | _ => None end
  | _ => None
  end.
Definition wrappers_of (txs : list bytes) : list (bytes * Tx * WrapperTx) := omap as_wrapper txs.
Definition decrypted_of (txs : list bytes) : list Tx := omap as_decrypted txs.
Definition wrapper_hashes (txs : list bytes) : list Hash := (fun e => header_hash e.1.2) <$> wrappers_of txs.

Inductive tx_steps (sh : Shell) (time : Z) : list bytes -> PState -> PState -> Prop :=
| steps_nil p : tx_steps sh time [] p p
| steps_cons b txs p1 p2 p3 : tx_step sh time b p1 p2 -> tx_steps sh time txs p2 p3 -> tx_steps sh time (b :: txs) p1 p3.

Lemma process_loop_steps sh time proposer txs p codes p' : process_loop sh time proposer txs p = Ok (codes, p') ->
  Forall (fun c => is_recoverable c = true) codes -> tx_steps sh time txs p p'.
Proof using HW.
  revert p codes. induction txs as [|b txs IH]; intros p codes; cbn [process_loop].
  - intros [= <- <-] _. constructor.
  - intros ([c p1] & Hc & ([cs p2] & Hl & [= <- <-])%out_bind_Ok)%out_bind_Ok [Hr Hrs]%list.Forall_cons.
    econstructor; [by eapply process_tx_step|by eapply IH].
Qed.

(** The sums and lists an accepted block accumulates *)
Definition not_replayed (p : PState) (h : Hash) : Prop :=
  match has_replay_protection_entry h (write_log (temp_wl_storage p)) with
  | Some present => present = false
  | None => storage_has_replay_protection_entry (db p) h = false
  end.
Definition block_totals (sh : Shell) (time : Z) (txs : list bytes) (p p' : PState) : Prop :=
  db p' = db p /\
  (occupied (bin_of p') = occupied (bin_of p) + size_of txs /\ allotted (bin_of p') = allotted (bin_of p)) /\
  (raw_header_hash ∘ queue_tx <$> tx_queue_iter p) =
    (raw_header_hash <$> decrypted_of txs) ++ (raw_header_hash ∘ queue_tx <$> tx_queue_iter p') /\
  (occupied (space (bins_of p')) = occupied (space (bins_of p)) + size_of ((fun e => e.1.1) <$> wrappers_of txs) /\
   allotted (space (bins_of p')) = allotted (space (bins_of p))) /\
  (occupied (gas_bin (bins_of p')) = occupied (gas_bin (bins_of p)) +
     sumZ ((fun e => Meter.multiplier (gas_limit e.2)) <$> wrappers_of txs) /\
   allotted (gas_bin (bins_of p')) = allotted (gas_bin (bins_of p))) /\
  NoDup (wrapper_hashes txs) /\ Forall (not_replayed p) (wrapper_hashes txs) /\
  Forall (fun e => storage_has_replay_protection_entry (db p) (raw_header_hash e.1.2) = false /\
    chain_id (header e.1.2) = shell_chain_id sh /\ expired time (expiration (header e.1.2)) = false) (wrappers_of txs) /\
  Forall (fun b => exists tx sig, tx_try_from b = Ok tx /\ validate_tx tx = Ok sig) txs /\
  (seen_decrypted p = true -> wrappers_of txs = []).
Definition bins_fit (p : PState) : Prop :=
  occupied (bin_of p) <= allotted (bin_of p) /\ occupied (space (bins_of p)) <= allotted (space (bins_of p)) /\
  occupied (gas_bin (bins_of p)) <= allotted (gas_bin (bins_of p)).

Lemma as_wrapper_type b tx : tx_try_from b = Ok tx ->
  as_wrapper b = match tx_type (header tx) with Wrapper w => Some (b, tx, w) | _ => None end /\
  as_decrypted b = match tx_type (header tx) with DecryptedT _ => Some tx | _ => None end.
Proof. unfold as_wrapper, as_decrypted. by intros ->. Qed.

Lemma tx_steps_fit sh time txs p p' : tx_steps sh time txs p p' -> bins_fit p -> bins_fit p'.
Proof.
  unfold bins_fit. induction 1 as [|b txs p1 p2 p3 (tx & sig & _ & _ & _ & Hb & _ & Hty) _ IH]; [done|].
  intros (H1 & H2 & H3). apply IH. destruct Hb as (_ & Hb & _). destruct (tx_type (header tx)) as [|w|d|pt]; [done|..].
  - destruct Hty as (_ & _ & _ & _ & _ & (_ & ? & _) & (_ & ? & _) & _). done.
  - destruct Hty as (_ & -> & _). done.
  - destruct Hty as (_ & _ & -> & _). done.
Qed.

Lemma not_replayed_step p p' h h' : db p' = db p -> replays p' = <[h := RWrite]> (replays p) ->
  not_replayed p' h' -> h' <> h /\ not_replayed p h'.
Proof.
  unfold not_replayed, has_replay_protection_entry. fold (replays p) (replays p'). intros -> ->.
  destruct (decide (h' = h)) as [->|Hne]; [by rewrite lookup_insert_eq|]. by rewrite lookup_insert_ne.
Qed.

Lemma not_replayed_same p p' l : db p' = db p -> replays p' = replays p ->
  Forall (not_replayed p') l -> Forall (not_replayed p) l.
Proof.
  intros Hdb Hr. apply Forall_impl. intros h. unfold not_replayed, has_replay_protection_entry.
  fold (replays p) (replays p'). by rewrite Hdb, Hr.
Qed.

Lemma tx_steps_totals sh time txs p p' : tx_steps sh time txs p p' -> block_totals sh time txs p p'.
Proof.
  induction 1 as [p|b txs p1 p2 p3 (tx & sig & Htx & Hv & _ & Hb & Hdb & Hty) _ IH].
  { unfold block_totals. cbn. rewrite size_of_nil, sumZ_nil. split_and!; try done; try lia; constructor. }
  destruct IH as (Hdb' & [Ho Ha] & Hq & [Hso Hsa] & [Hgo Hga] & Hnd & Hnr & Hw & Hall & Hseen).
  destruct (as_wrapper_type b tx Htx) as [Haw Had]. destruct Hb as (Hbo & _ & Hba).
  assert (usage_of b = Z.of_nat (Datatypes.length b)) as Hus by done.
  unfold block_totals, wrapper_hashes, wrappers_of, decrypted_of in *. cbn [omap list_omap]. rewrite Haw, Had, size_of_cons.
  rewrite Hdb in Hdb', Hw.
  assert (Forall (fun b => exists tx sig, tx_try_from b = Ok tx /\ validate_tx tx = Ok sig) (b :: txs)) as Hall'
    by (constructor; [by exists tx, sig|done]).
  destruct (tx_type (header tx)) as [|w|d|pt]; [done| | |].
  - destruct Hty as (Hc & He & Hqq & Hs1 & Hs2 & (Hsp & _ & Hspa) & (Hg & _ & Hgaa) & Hraw & Hh & Hr).
    assert (usage_of (Meter.multiplier (gas_limit w)) = Meter.multiplier (gas_limit w)) as Hug by done.
    assert (forall h', not_replayed p2 h' -> h' <> header_hash tx /\ not_replayed p1 h') as Hstep
      by (intros h'; by apply not_replayed_step).
    rewrite !fmap_cons, size_of_cons, sumZ_cons. cbn [fst snd]. rewrite Hqq in Hq. rewrite Hs1.
    split_and!; try done; try lia.
    + apply list.NoDup_cons. split; [|done]. intros Hin. rewrite list.Forall_forall in Hnr. by destruct (Hstep _ (Hnr _ Hin)).
    + constructor; [exact Hh|]. eapply Forall_impl; [|exact Hnr]. intros h'. apply Hstep.
    + constructor; done.
  - destruct Hty as ((q & Hq1 & Hhash) & Hbins & Hs & Hr). apply (not_replayed_same p1) in Hnr; [|done..].
    rewrite Hbins in *. rewrite Hq1, !fmap_cons, Hq, <- Hhash. split_and!; try done; try lia. intros _. by apply Hseen.
  - destruct Hty as (Hc & Hqq & Hbins & Hs & Hr). apply (not_replayed_same p1) in Hnr; [|done..].
    rewrite Hbins, Hqq, Hs in *. split_and!; try done; lia.
Qed.

Lemma wrappers_app l l' : wrappers_of (l ++ l') = wrappers_of l ++ wrappers_of l'.
Proof. apply omap_app. Qed.

Lemma tx_steps_app sh time l l' p p' : tx_steps sh time (l ++ l') p p' ->
  exists p1, tx_steps sh time l p p1 /\ tx_steps sh time l' p1 p'.
Proof.
  revert p. induction l as [|b l IH]; intros p; cbn [app].
  - intros H. exists p. split; [constructor|done].
  - inversion 1 as [|? ? ? p2 ? Hs Hl]; subst. destruct (IH p2 Hl) as (p1 & H1 & H2).
    exists p1. split; [by econstructor|done].
Qed.

Ltac proj_init :=
  cbn [bin_of bins_of metadata process_init meta_from txs_bin encrypted_txs_bins enc_bins_new space gas_bin
       bin_init occupied allotted] in *; rewrite ?over_third in *; unfold third in *.

(** C2. A block that [ProcessProposal] accepts: all its transactions decode and
    carry valid signatures; together they fit the maximum size of a proposal,
    the wrappers among them fit a third of it and their gas limits the gas of
    a block; the wrappers carry the right chain and are not expired, have
    pairwise different hashes, and neither a wrapper nor its inner transaction
    is in the database already; no wrapper comes after a decrypted transaction;
    and the decrypted transactions are exactly the queue of the previous block, in
    its order. The comments of [process_proposal] say less: that transactions which
    do not decode or have invalid signatures reach [FinalizeBlock], and that only
    a wrong order rejects a block. *)
Theorem accepted_proposal_sound sh txs time proposer codes
  (Hmax : 0 <= max_proposal_bytes sh) (Hgas : 0 <= max_block_gas sh)
  (Haccept : process_proposal sh txs time proposer = Ok (Accept, codes)) :
  let ws := wrappers_of txs in
  Forall (fun b => exists tx sig, tx_try_from b = Ok tx /\ validate_tx tx = Ok sig) txs /\
  size_of txs <= max_proposal_bytes sh /\
  size_of ((fun e => e.1.1) <$> ws) <= max_proposal_bytes sh / 3 /\
  sumZ ((fun e => Meter.multiplier (gas_limit e.2)) <$> ws) <= max_block_gas sh /\
  Forall (fun e => chain_id (header e.1.2) = shell_chain_id sh /\
    expired (get_block_timestamp sh time) (expiration (header e.1.2)) = false /\
    storage_has_replay_protection_entry (storage (wl_storage sh)) (raw_header_hash e.1.2) = false /\
    storage_has_replay_protection_entry (storage (wl_storage sh)) (header_hash e.1.2) = false) ws /\
  NoDup (wrapper_hashes txs) /\
  (forall l b l' tx, txs = l ++ b :: l' -> as_decrypted b = Some tx -> wrappers_of l' = []) /\
  raw_header_hash <$> decrypted_of txs = raw_header_hash ∘ queue_tx <$> tx_queue sh.
Proof using HW.
  intros ws. unfold process_proposal, process_txs in Haccept.
  apply out_bind_Ok in Haccept as ([codes' md] & ([cs p] & Hloop & [= <- <-])%out_bind_Ok & Hres).
  destruct (existsb _ cs) eqn:Hex; [done|]. cbn [orb decrypted_queue_has_remaining_txs] in Hres.
  assert (Forall (fun c => is_recoverable c = true) cs) as Hrec.
  { apply list.Forall_forall. intros c Hc%list_elem_of_In. destruct (is_recoverable c) eqn:Hr; [done|].
    assert (existsb (fun c => negb (is_recoverable c)) cs = true); [|congruence].
    apply existsb_exists. exists c. by rewrite Hr. }
  apply process_loop_steps in Hloop; [|done].
  assert (bins_fit (process_init sh)) as Hfit0.
  { unfold bins_fit. proj_init. split_and!; [done|apply Z.div_pos; lia|done]. }
  pose proof (tx_steps_fit _ _ _ _ _ Hloop Hfit0) as (Hf1 & Hf2 & Hf3).
  pose proof (tx_steps_totals _ _ _ _ _ Hloop) as (Hdb & [Ho Ha] & Hq & [Hso Hsa] & [Hgo Hga] & Hnd & Hnr & Hw & Hall & _).
  assert (tx_queue_iter p = []) as Hempty.
  { destruct (tx_queue_iter p); [done|]. cbn [process_init tx_queue_iter] in Hq. destruct (tx_queue sh); [|done].
    by destruct (decrypted_of txs). }
  proj_init. rewrite Hempty, app_nil_r in Hq.
  subst ws. split_and!; [done|lia|lia|lia| |done| |done].
  - unfold wrapper_hashes in Hnr. rewrite Forall_fmap in Hnr. 
    eapply Forall_impl; [|exact (List.Forall_and Hw Hnr)]. intros e [(? & ? & ?) Hn].
    by split_and!.
  - intros l b l' tx -> Hdec. apply tx_steps_app in Hloop as (p1 & _ & Hs). inversion Hs as [|? ? ? p2 ? Hst Hl]; subst.
    destruct Hst as (tx' & sig & Htx & _ & _ & _ & _ & Hty). apply as_wrapper_type in Htx as [_ Had]. rewrite Hdec in Had.
    destruct (tx_type (header tx')); [done| | |]; try done. destruct Hty as (_ & _ & Hs2 & _).
    by apply tx_steps_totals in Hl as (_ & _ & _ & _ & _ & _ & _ & _ & _ & Hno); apply Hno.
Qed.
End soundness.

(** ** Transactions that stop a node *)
Section panics.
Context {U : UintOps} {C : AddressCodec} {G : AddressGen} {T : TxEnv} {B : TxBorsh} {F : FeeCodec} {W : WasmRun}
  {V : VoteExts}.

Lemma huge_limit {E} w n : in_u64 (Meter.multiplier (gas_limit w)) -> U64_MAX < Meter.multiplier (gas_limit w) * SCALE ->
  wrapper_gas_ok (E:=E) w n = Panic.
Proof.
  intros Hu Hb. unfold wrapper_gas_ok, Meter.tx_meter_new, Meter.gas_from_limit, Meter.gas_limit_to_u64.
  unfold in_u64, GAS_LIMIT_RESOLUTION in *. rewrite u64_mul_ok, Z.mul_1_r by lia. cbn [out_bind].
  unfold u64_mul, u64_checked_mul, unwrap. by rewrite (proj2 (Z.leb_gt _ _)) by lia.
Qed.

(** Two signed transactions that a node cannot survive. A wrapper whose
    gas limit does not fit [u64] once scaled to sub-units makes the mempool
    check panic where it should refuse the transaction. A digest of vote
    extensions whose data does not decode makes [ProcessProposal] panic where
    it should reject the block. *)
Theorem shell_panics sh b tx sig time proposer
  (Hl : blen b <= max_tx_bytes sh) (Htx : tx_try_from b = Ok tx) (Hv : validate_tx tx = Ok sig)
  (Hc : chain_id (header tx) = shell_chain_id sh)
  (He : expired (get_block_timestamp sh time) (expiration (header tx)) = false) :
  (forall w, tx_type (header tx) = Wrapper w -> in_u64 (Meter.multiplier (gas_limit w)) ->
     U64_MAX < Meter.multiplier (gas_limit w) * SCALE -> time = None -> mempool_validate sh b = Panic) /\
  (forall p, tx_type (header tx) = Protocol p -> ptx_tx p ∈ [EthereumEvents; BridgePool; ValidatorSetUpdate] ->
     ext_of (ptx_tx p) tx = None -> blen b <= max_proposal_bytes sh -> 2 * max_proposal_bytes sh <= U64_MAX ->
     process_proposal sh [b] time proposer = Panic).
Proof.
  assert (validate_tx_bytes sh (blen b) = true) as Hl' by (by apply Z.leb_le).
  split.
  - intros w Hty Hu Hb ->. unfold mempool_validate. rewrite Hl', Htx, bool_decide_true, He, Hv, Hty by done. cbn [negb].
    unfold mempool_wrapper. by rewrite huge_limit.
  - intros p Hty Hk Hx Hsz Hmx. assert (0 <= blen b) by (unfold blen; lia). assert (usage_of b = blen b) as Hub by done.
    unfold process_proposal, process_txs, process_loop, process_tx, check_proposal_tx, st_bind. rewrite Hl'. cbn [require st_ret].
    unfold on_txs_bin. cbn [process_init metadata meta_from txs_bin].
    rewrite try_dump_cases by (rewrite ?Hub; unfold bin_wf; cbn; lia). cbn [bin_init occupied allotted].
    rewrite Hub, (proj2 (Z.ltb_ge _ _)), (proj2 (Z.leb_le _ _)), Htx by lia. cbn [with_code st_ret]. rewrite Hv.
    cbn [with_code st_ret]. rewrite Hty, bool_decide_true, He by done. cbn [negb require st_ret].
    unfold check_protocol_tx. rewrite Hx. rewrite !elem_of_cons, elem_of_nil in Hk.
    by destruct Hk as [->|[->|[->|[]]]].
Qed.
End panics.

(** ** A concrete shell *)
Module RefShell.
Import RefTx RefStorage RefFees.

#[export] Instance vexts : @VoteExts counter_gen := {|
  Ext := bytes;
  ext_from_slice _ bs := Some bs;
  validate_vext _ _ ext height := bool_decide (ext = [height]);
  validate_digest _ _ ext height := bool_decide (ext = [height]);
  any_valid_nonce _ _ := true;
  valset_upd_seen _ _ := false;
  must_send_valset_upd _ := true
|}.

(** A signed wrapper, and the vote extension of a validator *)
Definition wrapper_tx : Tx :=
  match sign_wrapper (E:=unit) (sk 1) (sample_tx 1) with Ok t => t | _ => sample_tx 1 end.
Definition vext_tx : Tx :=
  let tx := set_data (mkData [] [7]) (mkTx (mkHeader (lit "chain") None 5 0 0
    (Protocol (mkProtocolTx (ref_to (sk 4)) BridgePoolVext))) []) in
  match signature_new (E:=unit) (sechashes tx) {[ 0 := sk 4 ]} None with
  | Ok s => add_section (SecSignature s) tx
  | _ => tx
  end.
Definition mempool : list bytes := [to_bytes vext_tx; to_bytes wrapper_tx; to_bytes wrapper_tx].

Definition shell : Shell :=
  mkShell (lit "chain") (with_balance 50000000000) [mkTxInQueue (sample_tx 2) (Meter.mkGas 0)] (Validator None)
    (Some 7) 100 3 3 (mkEpochs [1; 3; 5]) 1000 30 100000 {[ Established 1 := 1 ]} unshield.
Definition block : list bytes := default [] (out_ok (prepare_proposal shell mempool (Some 101) proposer)).
End RefShell.
Import RefTx RefStorage RefFees RefShell.

Lemma accepted_proposal_sound_witness :
  Datatypes.length (wrappers_of block) = 1%nat /\
  raw_header_hash <$> decrypted_of block = raw_header_hash ∘ queue_tx <$> tx_queue shell.
Proof.
  split; [vm_compute; reflexivity|].
  apply (accepted_proposal_sound shell block (Some 101) proposer [RcOk; RcOk; RcOk]);
    [vm_compute; discriminate|vm_compute; discriminate|vm_compute; reflexivity].
Defined.

(** A wrapper with a gas limit of [2^60] *)
Definition huge_tx : Tx :=
  let tx := mkTx (mkHeader (lit "chain") None 5 0 0 (Wrapper (mkWrapperTx (mkFee (mkDenominated 1 0) (Established 1))
    (ref_to (sk 1)) 0 (Meter.mkGasLimit (2 ^ 60)) None))) [] in
  match sign_wrapper (E:=unit) (sk 1) tx with Ok t => t | _ => tx end.
Definition huge_signature : option Signature :=
  match validate_tx huge_tx with Ok s => s | _ => None end.
Lemma shell_panics_witness : mempool_validate shell (to_bytes huge_tx) = Panic.
Proof.
  destruct (shell_panics shell (to_bytes huge_tx) huge_tx huge_signature None proposer) as [H _];
    [vm_compute; discriminate|vm_cast_no_check (eq_refl (tx_try_from (to_bytes huge_tx)))
    |vm_cast_no_check (eq_refl (validate_tx huge_tx))|reflexivity|reflexivity|].
  apply (H (mkWrapperTx (mkFee (mkDenominated 1 0) (Established 1)) (ref_to (sk 1)) 0 (Meter.mkGasLimit (2 ^ 60)) None));
    [reflexivity|vm_compute; split; discriminate|vm_compute; reflexivity|reflexivity].
Defined.
