(* ===== verification/Agreement.v ===== *)
(** * A prepared proposal is accepted

    The agreement of [PrepareProposal] with [ProcessProposal]: from transactions
    that passed the mempool a validator builds a block that the validators in the
    same state accept. The proposer's run over the whole mempool and the other
    validators' run over the block differ in the hashes of the refused
    transactions, which stay recorded in the proposer's temporary storage. *)

From Stdlib Require Import ZArith Lia Ascii String.
From stdpp Require Import base numbers list gmap sets option.
From S2P Require Import Prelude Gas Uint Dec Keys WriteLog Epoch WlStorage Token Tx BlockAlloc Fees Proposal.

Local Open Scope Z_scope.
Local Open Scope outcome_scope.
Local Open Scope st_scope.

Section agreement.
Context {U : UintOps} {HU : UintLaws U} {C : AddressCodec} {HC : AddressCodecLaws C} {G : AddressGen}
  {T : TxEnv} {B : TxBorsh} {HB : TxBorshLaws B} {F : FeeCodec} {HF : FeeCodecLaws F} {W : WasmRun} {V : VoteExts}.

(** ** Storages that differ in the recorded hashes *)
Notation replays_of s := (replay_protection (write_log s)).
Definition with_replay (r : gmap Hash ReProtStorageModification) (s : WlStorage) : WlStorage :=
  set_write_log (set_replay r (write_log s)) s.

Lemma with_replay_id s : with_replay (replays_of s) s = s.
Proof. by destruct s as [[] ?]. Qed.

(** Runs that do not look at the hashes *)
Definition blind {E A} (m : st WlStorage E A) : Prop :=
  forall r s, m (with_replay r s) = (with_replay r (m s).1, (m s).2).
Lemma blind_bind {E A A'} (m : st WlStorage E A) (k : A -> st WlStorage E A') :
  blind m -> (forall a, blind (k a)) -> blind (st_bind m k).
Proof. intros Hm Hk r s. unfold st_bind. rewrite Hm. destruct (m s) as [s1 [a| |]]; [apply Hk|done..]. Qed.
Lemma blind_read {E A} (f : WlStorage -> st WlStorage E A) :
  (forall r s, f (with_replay r s) = f s) -> (forall s, blind (f s)) -> blind (fun s => f s s).
Proof. intros Hf Hb r s. rewrite Hf. apply Hb. Qed.
Lemma blind_lift {E A} (o : outcome E A) : blind (st_lift o).
Proof. done. Qed.
Lemma blind_wl_write k v : blind (wl_write k v).
Proof.
  intros r s. unfold wl_write, write, tx_insert, st_bind, st_ret, st_err, st_lift. cbn.
  destruct (tx_write_log (write_log s) !! k) as [[]|]; cbn; try done; by destruct (u64_mul _ _).
Qed.
Lemma blind_token_transfer t p q a : blind (token_transfer t p q a).
Proof.
  unfold token_transfer. apply blind_bind; [apply blind_lift|]. intros sk.
  apply (blind_read (fun s => st_bind (st_lift (expect (wl_read_balance s t p))) _)); [done|]. intros s.
  apply blind_bind; [apply blind_lift|]. intros b. repeat case_match; try done.
  repeat (apply blind_bind; [apply blind_lift || apply blind_wl_write|intros ?]).
  case_match; [|done]. apply blind_bind; [apply blind_wl_write|]. intros _. apply blind_wl_write.
Qed.
Lemma blind_transfer_fee q w : blind (transfer_fee q w).
Proof.
  unfold transfer_fee.
  apply (blind_read (fun s => st_bind (st_lift (expect (wl_read_balance s (fee_token (fee w)) (fee_payer w)))) _)); [done|].
  intros s. apply blind_bind; [apply blind_lift|]. intros b. case_match; [|done..].
  apply blind_bind; [apply blind_lift|]. intros fees. case_match; [apply blind_token_transfer|].
  apply blind_bind; [apply blind_token_transfer|done].
Qed.

(** ** Recording the hash of a wrapper *)
Definition recorded (tx : Tx) (s : WlStorage) : WlStorage :=
  with_replay (<[header_hash tx := RWrite]> (replays_of s)) s.
Definition hashes_written (s : WlStorage) : Prop := forall h v, replays_of s !! h = Some v -> v = RWrite.
Definition fresh (tx : Tx) (s : WlStorage) : Prop :=
  storage_has_replay_protection_entry (storage s) (raw_header_hash tx) = false /\
  storage_has_replay_protection_entry (storage s) (header_hash tx) = false /\ replays_of s !! header_hash tx = None.

Lemma replay_checks_fresh tx s : fresh tx s -> replay_protection_checks tx s = (recorded tx s, Ok tt).
Proof.
  intros (H1 & H2 & H3). unfold replay_protection_checks, has_committed_replay_protection_entry,
    wl_has_replay_protection_entry, has_replay_protection_entry. rewrite H1, H3. cbn [fmap option_fmap option_map]. rewrite H2.
  unfold write_tx_hash, replay_insert, st_bind, st_ret, st_err. by rewrite H3.
Qed.
Lemma replay_checks_cases tx s : hashes_written s ->
  replay_protection_checks tx s = (s, Err ReplayAttempt) \/ fresh tx s.
Proof.
  intros Hw. unfold replay_protection_checks, has_committed_replay_protection_entry, wl_has_replay_protection_entry,
    has_replay_protection_entry, fresh.
  destruct (storage_has_replay_protection_entry (storage s) (raw_header_hash tx)); [by left|].
  destruct (replays_of s !! header_hash tx) as [v|] eqn:Hv; [left; by rewrite (Hw _ _ Hv)|].
  cbn. destruct (storage_has_replay_protection_entry (storage s) (header_hash tx)); [by left|by right].
Qed.
Lemma recorded_written tx s : hashes_written s -> hashes_written (recorded tx s).
Proof.
  intros Hw h v. cbn. destruct (decide (h = header_hash tx)) as [->|]; [rewrite lookup_insert_eq; by intros [= <-]|].
  rewrite lookup_insert_ne by done. apply Hw.
Qed.

(** ** Transactions that passed the mempool *)
Lemma as_wrapper_Some b tx w : as_wrapper b = Some (b, tx, w) ->
  tx_try_from b = Ok tx /\ tx_type (header tx) = Wrapper w.
Proof.
  unfold as_wrapper. destruct (tx_try_from b) as [tx'| |]; [|done..]. destruct (tx_type (header tx')) eqn:Ht; try done.
  by intros [= <- <-].
Qed.
Lemma as_wrapper_bytes b b' tx w : as_wrapper b = Some (b', tx, w) -> b' = b.
Proof.
  unfold as_wrapper. destruct (tx_try_from b) as [tx'| |]; [|done..]. destruct (tx_type (header tx')); try done. by intros [= <-].
Qed.

Lemma wrapper_gas_ok_any {E E'} w n b : wrapper_gas_ok (E:=E) w n = Ok b -> wrapper_gas_ok (E:=E') w n = Ok b.
Proof.
  unfold wrapper_gas_ok. destruct (Meter.tx_meter_new _); [|done..]. destruct (Meter.add_wrapper_gas _ _) as [? []]; congruence.
Qed.
Lemma wrapper_gas_eq {E} w : in_u64 (Meter.multiplier (gas_limit w)) ->
  wrapper_gas (E:=E) w = Ok (Meter.multiplier (gas_limit w)).
Proof.
  intros Hg. unfold wrapper_gas. unfold in_u64, GAS_LIMIT_RESOLUTION in *. rewrite u64_mul_ok by lia. f_equal. lia.
Qed.

(** What the mempool established about a wrapper *)
Definition checked (sh : Shell) (b : bytes) (tx : Tx) (w : WrapperTx) : Prop :=
  blen b <= max_tx_bytes sh /\ chain_id (header tx) = shell_chain_id sh /\ (exists sig, validate_tx tx = Ok sig) /\
  wrapper_gas_ok (E:=unit) w (blen b) = Ok true /\ Meter.multiplier (gas_limit w) <= max_block_gas sh /\
  exists minimum a, gas_costs sh !! fee_token (fee w) = Some minimum /\
    to_amount (amount_per_gas_unit (fee w)) (fee_token (fee w)) (wl_storage sh) = Ok a /\ minimum <= a.

Lemma fee_check_price sh w masp q s : (wrapper_fee_check sh w masp q false s).2 = Ok tt ->
  exists minimum a, gas_costs sh !! fee_token (fee w) = Some minimum /\
    to_amount (amount_per_gas_unit (fee w)) (fee_token (fee w)) (wl_storage sh) = Ok a /\ minimum <= a.
Proof.
  unfold wrapper_fee_check, minimum_gas_price. destruct (gas_costs sh !! _) as [minimum|]; [|done].
  destruct (to_amount _ _ _) as [a| |]; [|done..]. destruct (Z.ltb_spec a minimum); [done|]. intros _. by exists minimum, a.
Qed.

Lemma mempool_validate_Ok sh b tx : mempool_validate sh b = Ok tt -> tx_try_from b = Ok tx ->
  blen b <= max_tx_bytes sh /\ chain_id (header tx) = shell_chain_id sh /\ (exists sig, validate_tx tx = Ok sig) /\
  match tx_type (header tx) with
  | Protocol p => mempool_protocol sh (ptx_tx p) tx = Ok tt
  | Wrapper w => mempool_wrapper sh b tx w = Ok tt
  | _ => False
  end.
Proof.
  unfold mempool_validate, validate_tx_bytes. intros Hm Htx. rewrite Htx in Hm.
  destruct (Z.leb_spec (blen b) (max_tx_bytes sh)); [|done]. cbn [negb] in Hm. case_bool_decide as Hc; [|done].
  cbn [negb] in Hm. destruct (expired _ _); [done|]. destruct (validate_tx tx) as [sig| |]; [|done..].
  destruct (tx_type (header tx)); try done; eauto.
Qed.

Lemma mempool_wrapper_checked sh b tx w : mempool_validate sh b = Ok tt -> as_wrapper b = Some (b, tx, w) ->
  checked sh b tx w.
Proof.
  intros Hm [Htx Hty]%as_wrapper_Some. apply (mempool_validate_Ok _ _ tx) in Hm as (Hl & Hc & Hv & Hw); [|done].
  rewrite Hty in Hw. unfold mempool_wrapper in Hw. apply out_bind_Ok in Hw as (ok & Hok & Hw). destruct ok; [|done].
  cbn [negb] in Hw. apply out_bind_Ok in Hw as (g & Hg & (bg & Hbg & Hw)%out_bind_Ok).
  destruct (Meter.gas_from_limit (gas_limit w)) as [g'| |] eqn:Hg'; [|done..]. injection Hg as ->.
  destruct (Meter.from_whole_units (max_block_gas sh)) as [bg'| |] eqn:Hbg'; [|done..]. injection Hbg as ->.
  destruct (Z.ltb_spec (Meter.sub bg) (Meter.sub g)) as [|Hle]; [done|].
  destruct (storage_has_replay_protection_entry _ _); [done|]. destruct (storage_has_replay_protection_entry _ _); [done|].
  split_and!; try done.
  - by eapply wrapper_gas_ok_any.
  - apply out_bind_Ok in Hg' as (v & Hv' & (g2 & Hg2 & [= <-])%out_bind_Ok). apply out_bind_Ok in Hbg' as (v2 & Hv2 & [= <-]).
    apply unwrap_Ok, u64_checked_mul_Some in Hv' as [-> _], Hg2 as [-> _], Hv2 as [-> _].
    cbn in Hle. unfold SCALE, GAS_LIMIT_RESOLUTION in *. lia.
  - destruct ((wrapper_fee_check _ _ _ _ _ _).2) as [[]| |] eqn:Hf in Hw; [|done..]. by eapply fee_check_price.
Qed.

(** ** The fee of a checked wrapper *)
Lemma fee_check_prepare sh tx b w q s : checked sh b tx w ->
  wrapper_fee_check sh w None (Some q) true s = (s, Err FeeError) \/
  wrapper_fee_check sh w None (Some q) true s = transfer_fee q w s.
Proof.
  intros (_ & _ & _ & _ & _ & minimum & a & _ & Ha & _). unfold wrapper_fee_check. rewrite Ha.
  destruct (minimum_gas_price _ _ _); [|by left]. destruct (_ <? _); [by left|by right].
Qed.
Lemma fee_check_process sh tx b w q s : checked sh b tx w ->
  wrapper_fee_check sh w None (Some q) false s = transfer_fee q w s.
Proof.
  intros (_ & _ & _ & _ & _ & minimum & a & Hm & Ha & Hle). unfold wrapper_fee_check, minimum_gas_price. rewrite Hm, Ha.
  by rewrite (proj2 (Z.ltb_ge _ _)).
Qed.

(** Transactions of the mempool that a block can take *)
Definition candidate (sh : Shell) (b : bytes) : Prop :=
  mempool_validate sh b = Ok tt /\
  forall tx w, as_wrapper b = Some (b, tx, w) ->
    wrapper_wf w /\ get_fee_unshielding_transaction tx w = None /\ blen b <= max_proposal_bytes sh / 3.
(** The balances and denominations their fees need *)
Definition readable (proposer : Address) (txs : list bytes) (s : WlStorage) : Prop :=
  forall b tx w, b ∈ txs -> as_wrapper b = Some (b, tx, w) ->
    holds_amount s (bkey (fee_token (fee w)) (fee_payer w)) /\
    holds_amount s (bkey (fee_token (fee w)) proposer) /\ short s (dkey (fee_token (fee w))).

Lemma drop_tx_only s s' : between_txs s -> tx_only s s' -> drop_log s' = s.
Proof. destruct s as [[] ?]. unfold between_txs, drop_log. cbn. intros [-> ->] [m ->]. done. Qed.

(** The two ways a candidate goes in [validate_wrapper_bytes] *)
Definition refused (p p' : WlStorage) : Prop := drop_log p' = p \/ exists tx, drop_log p' = recorded tx p.
Definition taken (proposer : Address) (tx : Tx) (w : WrapperTx) (p p' : WlStorage) : Prop :=
  fresh tx p /\ transfer_fee proposer w (recorded tx p) = (p', Ok tt) /\
  quiet (recorded tx p) p' /\ amounts_kept (recorded tx p) p'.

Lemma fee_state_recorded proposer txs b tx w p : between_txs p -> readable proposer txs p -> wrapper_wf w -> b ∈ txs ->
  as_wrapper b = Some (b, tx, w) -> fee_state (recorded tx p) w proposer.
Proof. intros Hb Hr Hw Hin Haw. destruct (Hr b tx w Hin Haw) as (? & ? & ?). by split_and!. Qed.

Lemma transfer_fee_cases proposer w s : fee_state s w proposer ->
  (exists s', transfer_fee proposer w s = (s', Ok tt) /\ quiet s s' /\ amounts_kept s s') \/
  (exists s', transfer_fee proposer w s = (s', Err FeeError)).
Proof.
  intros Hs. pose proof (transfer_fee_spec proposer w s Hs) as Ht. cbv zeta in Ht. destruct (fee_amount s w) as [a| |];
    [|right; by exists s..]. destruct (payable _ _ _ _ _).
  - destruct Ht as (s' & Ht & _ & Hq & Hk). left. by exists s'.
  - destruct Ht as (s' & Ht & _). right. by exists s'.
Qed.

Lemma validate_cases sh b t proposer txs p : candidate sh b -> b ∈ txs -> between_txs p -> hashes_written p ->
  readable proposer txs p ->
  (exists p', validate_wrapper_bytes sh b (Some t) proposer p = (p', Err tt) /\ refused p p') \/
  (exists tx w p', as_wrapper b = Some (b, tx, w) /\ expired t (expiration (header tx)) = false /\
    validate_wrapper_bytes sh b (Some t) proposer p = (p', Ok (Meter.multiplier (gas_limit w))) /\ taken proposer tx w p p').
Proof.
  intros [Hm Hcand] Hin Hb Hw Hr. assert (refused p p) as Hself by (left; by apply drop_tx_only).
  unfold validate_wrapper_bytes, void_err, st_bind, st_lift, st_err. destruct (tx_try_from b) as [tx| |] eqn:Htx;
    [|left; by exists p|unfold mempool_validate in Hm; rewrite Htx in Hm; by destruct (negb _)].
  cbn [from_option]. destruct (expired t (expiration (header tx))) eqn:He; [left; by exists p|].
  destruct (mempool_validate_Ok sh b tx Hm Htx) as (_ & _ & [sig Hv] & _). rewrite Hv.
  destruct (tx_type (header tx)) as [|w|d|pt] eqn:Hty; try (left; by exists p).
  assert (as_wrapper b = Some (b, tx, w)) as Haw by (unfold as_wrapper; by rewrite Htx, Hty).
  pose proof (mempool_wrapper_checked sh b tx w Hm Haw) as Hck. destruct (Hcand tx w Haw) as (Hwf & Hun & _).
  pose proof Hck as (_ & _ & _ & Hgas & _). rewrite Hgas, Hun. cbn [negb].
  destruct (replay_checks_cases tx p Hw) as [->|Hf]; [left; by exists p|]. rewrite (replay_checks_fresh tx p Hf).
  pose proof (fee_state_recorded proposer txs b tx w p Hb Hr Hwf Hin Haw) as Hfs.
  assert (refused p (recorded tx p)) as Hrec by (right; exists tx; by apply drop_tx_only).
  destruct (fee_check_prepare sh tx b w proposer (recorded tx p) Hck) as [->| ->]; [left; by exists (recorded tx p)|].
  destruct (transfer_fee_cases proposer w _ Hfs) as [(p' & Ht & Hq & Hk)|(p' & Ht)]; rewrite Ht.
  - right. exists tx, w, p'. rewrite wrapper_gas_eq by apply Hwf. by split_and!.
  - left. exists p'. split; [done|]. right. exists tx. apply drop_tx_only; [done|].
    pose proof (keeps_transfer_fee proposer w (recorded tx p)) as Hk. by rewrite Ht in Hk.
Qed.

(** ** The run over the block *)
Definition twin (p q : WlStorage) : Prop :=
  exists r, q = with_replay r p /\ forall h, replays_of p !! h = None -> r !! h = None.

Lemma twin_refused p p' q : refused p p' -> twin p q -> twin (drop_log p') q.
Proof.
  intros [->|[tx ->]] (r & -> & Hr); exists r; [done|]. split; [done|]. intros h. cbn.
  destruct (decide (h = header_hash tx)) as [->|]; [by rewrite lookup_insert_eq|].
  rewrite lookup_insert_ne by done. apply Hr.
Qed.
Lemma twin_taken proposer tx w p p' q : taken proposer tx w p p' -> twin p q ->
  fresh tx q /\ exists q', transfer_fee proposer w (recorded tx q) = (q', Ok tt) /\ twin (commit_log p') (commit_log q').
Proof.
  intros ((Hf1 & Hf2 & Hf3) & Ht & (_ & _ & _ & Hq & _) & _) (r & -> & Hr). split; [split_and!; try done; cbn; by apply Hr|].
  change (recorded tx (with_replay r p)) with (with_replay (<[header_hash tx := RWrite]> r) (recorded tx p)).
  rewrite blind_transfer_fee, Ht. eexists. split; [done|]. exists (<[header_hash tx := RWrite]> r). split; [done|].
  intros h. cbn. rewrite Hq. cbn. destruct (decide (h = header_hash tx)) as [->|]; [by rewrite lookup_insert_eq|].
  rewrite !lookup_insert_ne by done. apply Hr.
Qed.

Definition pstate (queue : list TxInQueue) (e : EncryptedTxsBins) (occ max : Z) (dq hd : bool) (q : WlStorage) : PState :=
  mkPState queue (mkMeta e (mkBin occ max) dq hd) q.

(** The checks every transaction of a block goes through *)
Lemma dump_txs_bin b queue e occ max dq hd q : 0 <= occ -> occ + blen b <= max -> 2 * max <= U64_MAX ->
  on_txs_bin (try_dump b) (pstate queue e occ max dq hd q) = (pstate queue e (occ + blen b) max dq hd q, Ok tt).
Proof.
  intros Ho Hle Hm. unfold on_txs_bin, pstate. cbn [metadata txs_bin].
  assert (0 <= blen b) by (unfold blen; lia). assert (usage_of b = blen b) as Hu by done.
  rewrite try_dump_cases by (unfold bin_wf; cbn; lia || by rewrite Hu). cbn [occupied allotted].
  by rewrite Hu, (proj2 (Z.ltb_ge _ _)), (proj2 (Z.leb_le _ _)) by lia.
Qed.
Lemma check_proposal_common sh b t proposer tx sig queue e occ max dq hd q :
  blen b <= max_tx_bytes sh -> tx_try_from b = Ok tx -> validate_tx tx = Ok sig ->
  0 <= occ -> occ + blen b <= max -> 2 * max <= U64_MAX ->
  check_proposal_tx sh b t proposer (pstate queue e occ max dq hd q) =
  match tx_type (header tx) with
  | Raw => st_err InvalidTx
  | Protocol protocol_tx =>
      do! require (bool_decide (chain_id (header tx) = shell_chain_id sh)) InvalidChainId in
      do! require (negb (expired t (expiration (header tx)))) ExpiredTx in
      check_protocol_tx sh (ptx_tx protocol_tx) tx
  | DecryptedT d => check_decrypted_tx t d tx
  | Wrapper wrapper => check_wrapper_tx sh b t proposer tx wrapper
  end (pstate queue e (occ + blen b) max dq hd q).
Proof.
  intros Hl Htx Hv Ho Hle Hm. unfold check_proposal_tx, validate_tx_bytes, st_bind at 1. rewrite (proj2 (Z.leb_le _ _)) by done.
  cbn [require st_ret]. unfold st_bind at 1. rewrite dump_txs_bin by done.
  unfold st_bind at 1, with_code at 1. rewrite Htx. cbn [st_ret]. unfold st_bind at 1, with_code at 1. rewrite Hv. done.
Qed.

Ltac pstep :=
  cbn [st_get st_ret require negb metadata temp_wl_storage tx_queue_iter encrypted_txs_bins txs_bin
       decrypted_queue_has_remaining_txs has_decrypted_txs].

Lemma process_taken sh t proposer b tx w p p' queue e e' occ max dq q : candidate sh b ->
  as_wrapper b = Some (b, tx, w) -> expired t (expiration (header tx)) = false -> taken proposer tx w p p' -> twin p q ->
  encrypted_txs_not_allowed (E:=ResultCode) sh = Ok false ->
  enc_try_dump b (Meter.multiplier (gas_limit w)) e = (e', Ok tt) ->
  0 <= occ -> occ + blen b <= max -> 2 * max <= U64_MAX ->
  exists q', twin (commit_log p') q' /\
    process_tx sh t proposer b (pstate queue e occ max dq false q) =
    Ok (RcOk, pstate queue e' (occ + blen b) max dq false q').
Proof.
  intros [Hm Hcand] Haw He Ht Htw Hna Hd Ho Hle Hmx. destruct (twin_taken _ _ _ _ _ _ Ht Htw) as (Hf & q' & Htr & Htw').
  exists (commit_log q'). split; [done|]. pose proof (mempool_wrapper_checked sh b tx w Hm Haw) as Hck.
  destruct (Hcand tx w Haw) as (Hwf & Hun & _). apply as_wrapper_Some in Haw as [Htx Hty].
  pose proof Hck as (Hl & Hch & [sig Hv] & Hgas%(wrapper_gas_ok_any (E':=ResultCode)) & _).
  unfold process_tx. rewrite (check_proposal_common sh b t proposer tx sig) by done. rewrite Hty.
  unfold check_wrapper_tx, st_bind, st_lift. rewrite Hgas, wrapper_gas_eq by apply Hwf. cbn [negb].
  unfold on_enc_bins, pstate. cbn [metadata encrypted_txs_bins]. rewrite Hd. pstep.
  rewrite Hna, He, bool_decide_true by done. pstep.
  unfold on_temp. pstep. rewrite (replay_checks_fresh tx q Hf). pstep.
  by rewrite Hun, (fee_check_process sh tx b w), Htr by done.
Qed.

(** ** The batch of wrappers *)
Lemma readable_kept proposer txs s s' : amounts_kept s s' -> readable proposer txs s -> readable proposer txs s'.
Proof.
  intros Hk Hr b tx w Hin Haw. destruct (Hr b tx w Hin Haw) as (H1 & H2 & H3).
  split_and!; [by eapply holds_amount_kept..|by eapply short_kept].
Qed.
Definition ready (proposer : Address) (txs : list bytes) (p : WlStorage) : Prop :=
  between_txs p /\ hashes_written p /\ readable proposer txs p.
Lemma ready_refused proposer txs p p' : refused p p' -> ready proposer txs p -> ready proposer txs (drop_log p').
Proof.
  intros [->|[tx ->]] (Hb & Hw & Hr); [done|]. split_and!; [done|by apply recorded_written|]. exact Hr.
Qed.
Lemma ready_taken proposer txs tx w p p' : taken proposer tx w p p' -> ready proposer txs p -> ready proposer txs (commit_log p').
Proof.
  intros (_ & _ & Hq & Hk) (Hb & Hw & Hr). split; [done|]. split.
  - apply recorded_written with (tx := tx) in Hw. intros h v. destruct Hq as (_ & _ & _ & Hq & _).
    unfold commit_log. cbn. rewrite Hq. apply Hw.
  - apply readable_kept with (s := p); [|done]. intros k. unfold commit_log. rewrite (raw_view_commit (recorded tx p)) by done.
    apply Hk.
Qed.

Lemma enc_dump_try r e e' : enc_dump r e = (e', Ok tt) -> enc_try_dump (tx r) (gas r) e = (e', Ok tt).
Proof.
  unfold enc_dump, enc_try_dump. destruct (try_dump (tx r) (space e)) as [sp [[]|[]|]]; try done.
  destruct (try_dump (gas r) (gas_bin e)) as [gb [[]|[]|]]; congruence.
Qed.

Section shell_limits.
Context (sh : Shell) (t : Z) (proposer : Address) (all : list bytes).
Notation max := (max_proposal_bytes sh).
Context (Hmax : 0 <= max) (Hmax2 : 2 * max <= U64_MAX) (Hgas : 0 <= max_block_gas sh) (Hgas2 : 2 * max_block_gas sh <= U64_MAX).

Lemma encrypted_loop_ok : encrypted_txs_not_allowed (E:=ResultCode) sh = Ok false -> forall txs p alloc,
  txs ⊆ all -> Forall (candidate sh) txs -> ready proposer all p -> enc_inv max (max_block_gas sh) alloc ->
  let occ := occupied (space (encrypted_txs alloc)) in
  exists es alloc', encrypted_loop sh WithEncryptedTxs (Some t) proposer txs p alloc = Ok (es, alloc') /\
    enc_inv max (max_block_gas sh) alloc' /\ occ + size_of es <= occupied (space (encrypted_txs alloc')) /\
    forall queue dq q, twin p q -> exists e' q',
      process_loop sh t proposer es (pstate queue (encrypted_txs alloc) occ max dq false q) =
      Ok (replicate (Datatypes.length es) RcOk, pstate queue e' (occ + size_of es) max dq false q').
Proof using HB HC HF HU Hgas Hgas2 Hmax Hmax2.
  intros Hna. induction txs as [|b txs IH]; intros p alloc Hsub Hc Hp Hinv occ; cbn [encrypted_loop].
  { exists [], alloc. rewrite size_of_nil, Z.add_0_r. split_and!; [done..|lia|]. intros queue dq q _. by eexists _, q. }
  inversion_clear Hc as [|? ? Hcb Hctxs]. destruct Hp as (Hb & Hw & Hr).
  destruct (validate_cases sh b t proposer all p Hcb ltac:(set_solver) Hb Hw Hr)
    as [(p' & -> & Href)|(tx & w & p' & Haw & He & -> & Ht)].
  { destruct (IH (drop_log p') alloc) as (es & alloc' & -> & Hinv' & Hocc & Hproc);
      [set_solver|done|by eapply ready_refused|done|]. exists es, alloc'. split_and!; [done..|].
    intros queue dq q Htw. eapply Hproc, twin_refused; done. }
  pose proof Hcb as [Hmp Hcand]. destruct (Hcand tx w Haw) as (Hwf & _ & Hsz).
  destruct (mempool_wrapper_checked sh b tx w Hmp Haw) as (_ & _ & _ & _ & Hlim & _).
  set (res := mkResources b (Meter.multiplier (gas_limit w))).
  destruct (alloc_encrypted_ok max (max_block_gas sh) WithEncryptedTxs res alloc)
    as (a' & o & Ha & Hinv' & Hcase); [done|split; [exact Hsz|destruct Hwf as [_ [? _]]; done]|].
  unfold take_tx. rewrite Ha. destruct Hcase as [(-> & Hocc & _)|([n ->] & Hocc & _)].
  2: { exists [], a'. rewrite size_of_nil. split_and!; [done..|fold occ in Hocc; lia|]. intros queue dq q _.
       rewrite Z.add_0_r. by eexists _, q. }
  destruct (IH (commit_log p') a') as (es & alloc' & -> & Hinv2 & Hocc2 & Hproc);
    [set_solver|done|by eapply ready_taken|done|]. cbn [out_bind]. fold occ in Hocc. unfold res in Hocc; cbn [BlockAlloc.tx] in Hocc.
  assert (blen b = Z.of_nat (Datatypes.length b)) as Hbl by done. rewrite Hocc in Hocc2, Hproc.
  exists (b :: es), alloc'. rewrite size_of_cons. split_and!; [done..|lia|]. intros queue dq q Htw.
  assert (enc_try_dump b (Meter.multiplier (gas_limit w)) (encrypted_txs alloc) = (encrypted_txs a', Ok tt)) as Hd.
  { cbn in Ha. destruct (enc_dump res (encrypted_txs alloc)) as [e1 o1] eqn:Hed. injection Ha as <- ->.
    by apply enc_dump_try in Hed. }
  destruct Hinv' as (Hwf1 & Hal & _), Hinv as (Hwf0 & _). pose proof (third_bounds max Hmax) as Hth.
  unfold bin_wf in Hwf0, Hwf1. rewrite Hocc in Hwf1. fold occ in Hwf0. cbn [process_loop].
  destruct (process_taken sh t proposer b tx w p p' queue (encrypted_txs alloc) (encrypted_txs a') occ max dq q)
    as (q1 & Htw1 & ->); [done..|lia|lia|done|]. cbn [out_bind]. rewrite Hbl.
  destruct (Hproc queue dq q1 Htw1) as (e' & q' & ->). cbn [out_bind]. exists e', q'. cbn [replicate Datatypes.length].
  by rewrite Z.add_assoc.
Qed.

Lemma encrypted_loop_none txs p alloc : txs ⊆ all -> Forall (candidate sh) txs -> ready proposer all p ->
  encrypted_loop sh WithoutEncryptedTxs (Some t) proposer txs p alloc = Ok ([], alloc).
Proof using HB HC HF HU Hgas Hgas2 Hmax Hmax2.
  revert p. induction txs as [|b txs IH]; intros p Hsub Hc Hp; cbn [encrypted_loop]; [done|].
  inversion_clear Hc as [|? ? Hcb Hctxs]. destruct Hp as (Hb & Hw & Hr).
  destruct (validate_cases sh b t proposer all p Hcb ltac:(set_solver) Hb Hw Hr)
    as [(p' & -> & Href)|(tx & w & p' & Haw & He & -> & Ht)]; [|done].
  apply IH; [set_solver|done|by eapply ready_refused].
Qed.

(** ** The batch of decrypted transactions *)
Lemma decrypted_round_trip x : tx_try_from (decrypted_bytes x) = Ok (update_header (DecryptedT Decrypted) (queue_tx x)).
Proof using HB. unfold decrypted_bytes, tx_try_from, to_bytes. by rewrite prost_round_trip; cbn; rewrite borsh_tx_round_trip. Qed.

Lemma process_decrypted_tx x l e occ dq hd q : blen (decrypted_bytes x) <= max_tx_bytes sh -> 0 <= occ ->
  occ + blen (decrypted_bytes x) <= max ->
  exists c q', process_tx sh t proposer (decrypted_bytes x) (pstate (x :: l) e occ max dq hd q) =
    Ok (c, pstate l e (occ + blen (decrypted_bytes x)) max dq true q') /\ is_recoverable c = true.
Proof using HB Hmax2.
  intros Hl Ho Hle. unfold process_tx.
  rewrite (check_proposal_common sh _ t proposer (update_header (DecryptedT Decrypted) (queue_tx x)) None)
    by (done || apply decrypted_round_trip). cbn [update_header header set_tx_type tx_type expiration].
  unfold check_decrypted_tx, st_bind, st_mod, set_has_decrypted, next_in_queue, pstate. pstep.
  rewrite bool_decide_true by done. pstep.
  destruct (expired t _); cbn [negb require]; (eexists _, _; split; [reflexivity|done]).
Qed.

Lemma process_decrypted qs : forall e occ dq hd q,
  Forall (fun x => blen (decrypted_bytes x) <= max_tx_bytes sh) qs -> 0 <= occ ->
  occ + size_of (decrypted_bytes <$> qs) <= max ->
  exists codes hd' q', process_loop sh t proposer (decrypted_bytes <$> qs) (pstate qs e occ max dq hd q) =
    Ok (codes, pstate [] e (occ + size_of (decrypted_bytes <$> qs)) max dq hd' q') /\
    Forall (fun c => is_recoverable c = true) codes.
Proof using HB Hmax2.
  induction qs as [|x qs IH]; intros e occ dq hd q Hl Ho Hle.
  { exists [], hd, q. cbn [fmap list_fmap process_loop]. rewrite size_of_nil, Z.add_0_r. split; [done|constructor]. }
  inversion_clear Hl as [|? ? Hx Hqs]. rewrite fmap_cons, size_of_cons in *.
  pose proof (size_of_nonneg (decrypted_bytes <$> qs)).
  assert (blen (decrypted_bytes x) = Z.of_nat (Datatypes.length (decrypted_bytes x))) as Hbl by done.
  destruct (process_decrypted_tx x qs e occ dq hd q) as (c & q1 & Hp & Hc); [done|done|lia|].
  destruct (IH e (occ + blen (decrypted_bytes x)) dq true q1) as (codes & hd' & q' & Hl' & Hcs); [done|lia|lia|].
  cbn [process_loop]. rewrite Hp. cbn [out_bind]. rewrite Hl'. cbn [out_bind]. exists (c :: codes), hd', q'.
  rewrite Hbl, Z.add_assoc. split; [done|by constructor].
Qed.

(** ** The batch of protocol transactions *)
Definition vext_ready (b : bytes) : Prop :=
  mempool_validate sh b = Ok tt /\ proposes_vext sh b = true /\
  forall tx, tx_try_from b = Ok tx -> expired t (expiration (header tx)) = false.

Lemma process_vext b queue e occ dq hd q : last_epoch sh = current_epoch sh -> vext_ready b -> 0 <= occ ->
  occ + blen b <= max ->
  exists q', process_tx sh t proposer b (pstate queue e occ max dq hd q) = Ok (RcOk, pstate queue e (occ + blen b) max dq hd q').
Proof using Hmax2.
  intros Hep (Hm & Hp & He) Ho Hle. unfold proposes_vext, ethereum_tx_data in Hp.
  destruct (tx_try_from b) as [tx| |] eqn:Htx; [|done..]. specialize (He tx eq_refl).
  destruct (mempool_validate_Ok sh b tx Hm Htx) as (Hl & Hc & [sig Hv] & Hpr).
  unfold process_tx. rewrite (check_proposal_common sh b t proposer tx sig) by done.
  destruct (tx_type (header tx)) as [|w|d|pt]; try done. clear Hp. unfold st_bind. rewrite He, bool_decide_true by done. pstep.
  unfold mempool_protocol, ext_of in Hpr. unfold check_protocol_tx, ext_of.
  destruct (tx_data tx ≫= _) as [ext|] eqn:Hext; [|by destruct (ptx_tx pt)]. rewrite Hep in Hpr.
  destruct (ptx_tx pt); try done; (destruct (validate_vext _ _ _ _); [|done]); by eexists.
Qed.

Lemma process_vexts bs : last_epoch sh = current_epoch sh -> Forall vext_ready bs -> forall queue e occ dq hd q, 0 <= occ ->
  occ + size_of bs <= max ->
  exists q', process_loop sh t proposer bs (pstate queue e occ max dq hd q) =
    Ok (replicate (Datatypes.length bs) RcOk, pstate queue e (occ + size_of bs) max dq hd q').
Proof using Hmax2.
  intros Hep. induction 1 as [|b bs Hb _ IH]; intros queue e occ dq hd q Ho Hle; cbn [process_loop].
  { exists q. by rewrite size_of_nil, Z.add_0_r. }
  rewrite size_of_cons in *. pose proof (size_of_nonneg bs). assert (blen b = Z.of_nat (Datatypes.length b)) as Hbl by done.
  destruct (process_vext b queue e occ dq hd q) as [q1 ->]; [done|done|done|lia|]. cbn [out_bind].
  destruct (IH queue e (occ + blen b) dq hd q1) as [q' ->]; [lia|lia|]. cbn [out_bind]. exists q'.
  by rewrite Hbl, Z.add_assoc.
Qed.
End shell_limits.

Lemma process_loop_app sh t proposer l l' p cs p1 cs' p2 : process_loop sh t proposer l p = Ok (cs, p1) ->
  process_loop sh t proposer l' p1 = Ok (cs', p2) -> process_loop sh t proposer (l ++ l') p = Ok (cs ++ cs', p2).
Proof.
  revert p cs. induction l as [|b l IH]; intros p cs; cbn [process_loop app].
  - by intros [= <- <-].
  - intros ([c p0] & -> & ([cs0 p1'] & Hl & [= <- <-])%out_bind_Ok)%out_bind_Ok Hl'. cbn [out_bind].
    by rewrite (IH _ _ Hl Hl').
Qed.

Lemma not_allowed_any {E E'} sh b : encrypted_txs_not_allowed (E:=E) sh = Ok b -> encrypted_txs_not_allowed (E:=E') sh = Ok b.
Proof.
  assert (forall n b, is_deciding_offset_within_epoch (E:=E) n sh = Ok b -> is_deciding_offset_within_epoch (E:=E') n sh = Ok b) as Hd.
  { intros n b'. unfold is_deciding_offset_within_epoch, get_current_decision_height, u64_add.
    destruct (u64_checked_add (get_last_block_height sh) 1); cbn; [|done]. destruct (current_epoch sh =? 0).
    - destruct (u64_checked_add 1 n); cbn; congruence.
    - destruct (list.last _); [|congruence]. destruct (u64_checked_add _ n); cbn; congruence. }
  unfold encrypted_txs_not_allowed. intros (x & Hx%Hd & (y & Hy%Hd & [= <-])%out_bind_Ok)%out_bind_Ok. by rewrite Hx; cbn; rewrite Hy.
Qed.

(** The shell of another node in the same state *)
Definition with_mode (m : ShellMode) (sh : Shell) : Shell :=
  mkShell (shell_chain_id sh) (wl_storage sh) (tx_queue sh) m (last_block_height sh) (last_block_time sh) (last_epoch sh)
    (current_epoch sh) (epochs sh) (max_tx_bytes sh) (max_proposal_bytes sh) (max_block_gas sh) (gas_costs sh)
    (unshield_params sh).

(** Accepting a block does not depend on the mode of the node *)
Lemma process_loop_mode m sh t proposer txs p :
  process_loop (with_mode m sh) t proposer txs p = process_loop sh t proposer txs p.
Proof.
  revert p. induction txs as [|b txs IH]; intros p; cbn [process_loop]; [done|].
  change (process_tx (with_mode m sh) t proposer b p) with (process_tx sh t proposer b p).
  destruct (process_tx sh t proposer b p) as [[c p']| |]; cbn [out_bind]; [|done..]. by rewrite IH.
Qed.

(** The limits of the block, and what the queue and the vote extensions take of it *)
Record proposable (sh : Shell) (mempool : list bytes) (t : Z) (proposer : Address) : Prop := {
  pr_max : 0 <= max_proposal_bytes sh /\ 2 * max_proposal_bytes sh <= U64_MAX;
  pr_gas : 0 <= max_block_gas sh /\ 2 * max_block_gas sh <= U64_MAX;
  pr_height : encrypted_txs_not_allowed (E:=unit) sh <> Panic;
  pr_epoch : last_epoch sh = current_epoch sh;
  pr_mempool : Forall (candidate sh) mempool;
  pr_storage : readable proposer mempool (temp_new (storage (wl_storage sh)));
  pr_queue : Forall (fun x => blen (decrypted_bytes x) <= max_tx_bytes sh) (tx_queue sh) /\
    size_of (decrypted_bytes <$> tx_queue sh) <= max_proposal_bytes sh - max_proposal_bytes sh / 3;
  pr_vexts : Forall (fun b => proposes_vext sh b = true ->
    blen b <= max_proposal_bytes sh - max_proposal_bytes sh / 3 - size_of (decrypted_bytes <$> tx_queue sh) /\
    forall tx, tx_try_from b = Ok tx -> expired t (expiration (header tx)) = false) mempool
}.

Lemma recoverable_accept (cs : list ResultCode) : Forall (fun c => is_recoverable c = true) cs ->
  existsb (fun c => negb (is_recoverable c)) cs = false.
Proof. induction 1 as [|c cs Hc _ IH]; cbn; [done|]. by rewrite Hc, IH. Qed.
Lemma recoverable_replicate n : Forall (fun c => is_recoverable c = true) (replicate n RcOk).
Proof. by apply Forall_replicate. Qed.

Lemma vexts_of_mempool sh t mempool proposer : proposable sh mempool t proposer ->
  Forall (fun b => vext_ready sh t b /\
    blen b <= max_proposal_bytes sh - max_proposal_bytes sh / 3 - size_of (decrypted_bytes <$> tx_queue sh))
    (deserialize_vote_extensions sh mempool).
Proof.
  intros Hp. unfold deserialize_vote_extensions. apply list.Forall_forall. intros b Hin%list_elem_of_In.
  apply filter_In in Hin as [Hin%list_elem_of_In Hv]. pose proof (pr_mempool _ _ _ _ Hp) as Hc. pose proof (pr_vexts _ _ _ _ Hp) as Hx.
  rewrite list.Forall_forall in Hc, Hx. destruct (Hx b Hin Hv) as [? ?]. split; [|done]. split_and!; [apply (Hc b Hin)|done|done].
Qed.

(** The wrappers of a proposal: taken in a state where a batch is allowed, none
    otherwise *)
Lemma encrypted_batch sh mempool t proposer : proposable sh mempool t proposer ->
  exists m es alloc, get_encrypted_txs_allocator (E:=AllocFailure) sh = Ok m /\
    encrypted_loop sh m (Some t) proposer mempool (temp_new (storage (wl_storage sh)))
      (alloc_init (max_proposal_bytes sh) (max_block_gas sh)) = Ok (es, alloc) /\
    enc_inv (max_proposal_bytes sh) (max_block_gas sh) alloc /\ size_of es <= occupied (space (encrypted_txs alloc)) /\
    exists e' q', process_loop sh t proposer es (process_init sh) =
      Ok (replicate (Datatypes.length es) RcOk, pstate (tx_queue sh) e' (size_of es) (max_proposal_bytes sh) false false q').
Proof using HB HC HF HU.
  intros [[Hm0 Hm1] [Hg0 Hg1] Hh _ Hc Hr _ _]. set (p := temp_new (storage (wl_storage sh))) in *.
  assert (ready proposer mempool p) as Hready by (split_and!; [done|by intros h v; cbn; rewrite lookup_empty|done]).
  destruct (encrypted_txs_not_allowed (E:=unit) sh) as [na|e|] eqn:Hna; [|by apply not_allowed_no_err in Hna|done].
  unfold get_encrypted_txs_allocator. rewrite (not_allowed_any sh na Hna). cbn [out_bind]. destruct na.
  - eexists _, [], _. split; [done|]. split; [by apply (encrypted_loop_none sh t proposer mempool)|].
    split; [by apply alloc_init_inv|]. split; [done|]. by eexists _, _.
  - destruct (encrypted_loop_ok sh t proposer mempool Hm0 Hm1 Hg0 Hg1 (not_allowed_any sh false Hna) mempool p
      (alloc_init (m:=WithEncryptedTxs) (max_proposal_bytes sh) (max_block_gas sh)))
      as (es & alloc & Hl & Hinv & Hocc & Hproc); [done|done|done|by apply alloc_init_inv|].
    eexists _, es, alloc. split_and!; [done..|]. destruct (Hproc (tx_queue sh) false p) as (e' & q' & Hp').
    { exists ∅. split; [done|]. intros h. by rewrite lookup_empty. }
    exists e', q'. exact Hp'.
Qed.

(** C1. [PrepareProposal] of a validator returns a block, and [ProcessProposal] of
    every node in the same state accepts it, whatever gas prices the proposer asks
    for, when: all transactions of the mempool passed its check; no wrapper pays by
    unshielding or is larger than a third of the block; the decrypted transactions
    of the queue are not larger than a transaction may be and together leave that
    third of the block free; every vote extension that is to be proposed fits what
    the queue leaves and has not expired; the limits of the block are below half of
    the 64-bit range; the stored balances and denominations of the fees decode. The
    bounds on the sizes are needed, since a transaction that overflows its bin is
    proposed ([oversized_txs_are_proposed]), in a block that is then refused. *)
Theorem prepared_proposal_accepted sh mempool t proposer cfg m (Hmode : shell_mode sh = Validator cfg)
  (Hp : proposable sh mempool t proposer) :
  exists block codes, prepare_proposal sh mempool (Some t) proposer = Ok block /\
    process_proposal (with_mode m sh) block (Some t) proposer = Ok (Accept, codes).
Proof using HB HC HF HU.
  pose proof (vexts_of_mempool sh t mempool proposer Hp) as Hvx.
  destruct (encrypted_batch sh mempool t proposer Hp) as (md & es & alloc & Hmd & Hes & Hinv & Hocc & e1 & q1 & He1).
  pose proof Hp as [[Hm0 Hm1] _ _ Hep _ _ [Hq1 Hq2] _]. pose proof (size_of_nonneg (decrypted_bytes <$> tx_queue sh)) as Hdn.
  destruct (rest_fits (max_proposal_bytes sh) (max_block_gas sh) alloc (decrypted_bytes <$> tx_queue sh)
    (deserialize_vote_extensions sh mempool) Hm0 Hm1 Hinv) as (a2 & ds & a3 & a4 & ps & a5 & H2 & H3 & H4 & H5 & _ & Hpp & Hocc' & Hle & Hall).
  { apply list.Forall_forall. intros b Hb. pose proof (size_of_elem b _ Hb). lia. }
  { eapply Forall_impl; [|exact Hvx]. by intros b [_ ?]. }
  rewrite (Hall Hq2) in H3, Hle. pose proof (size_of_nonneg es) as Hen.
  set (protocol := match last_block_height sh with None => [] | Some _ => ps end).
  assert (build_protocol_txs sh a4 mempool = Ok protocol) as Hproto
    by (unfold build_protocol_txs, protocol; destruct (last_block_height sh); [by rewrite H5|done]).
  assert (Forall (vext_ready sh t) protocol /\ size_of protocol <= size_of ps) as [Hvr Hps].
  { pose proof (size_of_nonneg ps). unfold protocol. destruct (last_block_height sh); [|by rewrite size_of_nil].
    split; [|done]. destruct Hpp as [rest Hpp]. rewrite Hpp in Hvx. apply Forall_app in Hvx as [Hvx _].
    eapply Forall_impl; [|exact Hvx]. by intros b [? _]. }
  destruct (process_decrypted sh t proposer Hm1 (tx_queue sh) e1 (size_of es) false false q1)
    as (cd & hd & q2 & Hd2 & Hcd); [done|done|pose proof (size_of_nonneg ps); lia|].
  destruct (process_vexts sh t proposer Hm1 protocol Hep Hvr [] e1 (size_of es + size_of (decrypted_bytes <$> tx_queue sh))
    false hd q2) as [q3 Hp3]; [lia|lia|].
  exists (es ++ (decrypted_bytes <$> tx_queue sh) ++ protocol),
    (replicate (Datatypes.length es) RcOk ++ cd ++ replicate (Datatypes.length protocol) RcOk). split.
  - unfold prepare_proposal, build_encrypted_txs, build_decrypted_txs. rewrite Hmode, Hmd. cbn [out_bind]. rewrite Hes.
    cbn [out_bind]. rewrite H2. cbn [out_bind]. rewrite H3. cbn [out_bind]. rewrite H4. cbn [out_bind]. by rewrite Hproto.
  - unfold process_proposal, process_txs. rewrite process_loop_mode. change (process_init (with_mode m sh)) with (process_init sh).
    change (get_block_timestamp (with_mode m sh) (Some t)) with t.
    rewrite (process_loop_app _ _ _ _ _ _ _ _ _ _ He1 (process_loop_app _ _ _ _ _ _ _ _ _ _ Hd2 Hp3)).
    cbn [out_bind pstate tx_queue_iter decrypted_queue_has_remaining_txs]. rewrite andb_false_r, orb_false_r.
    rewrite recoverable_accept; [done|]. repeat apply Forall_app_2; done || apply recoverable_replicate.
Qed.
End agreement.

(** ** A concrete mempool *)
Import RefTx RefStorage RefFees RefShell.

Lemma sample_as_wrapper : as_wrapper (to_bytes vext_tx) = None /\
  as_wrapper (to_bytes wrapper_tx) = Some (to_bytes wrapper_tx, wrapper_tx, sample_wrapper 1).
Proof.
  split; [vm_cast_no_check (eq_refl (as_wrapper (to_bytes vext_tx)))|].
  vm_cast_no_check (eq_refl (as_wrapper (to_bytes wrapper_tx))).
Qed.

Lemma some_triple {X Y Z'} (x x' : X) (y y' : Y) (z z' : Z') : Some (x, y, z) = Some (x', y', z') -> y = y' /\ z = z'.
Proof. by intros [= _ -> ->]. Qed.

Lemma ok_inj {E A} (a b : A) : Ok (E:=E) a = Ok b -> a = b.
Proof. by intros [= ->]. Qed.
Lemma vext_decodes : tx_try_from (to_bytes vext_tx) = Ok vext_tx.
Proof. vm_cast_no_check (eq_refl (tx_try_from (to_bytes vext_tx))). Qed.

Lemma sample_candidates : Forall (candidate shell) mempool.
Proof.
  destruct sample_as_wrapper as [Hv Hw].
  assert (candidate shell (to_bytes wrapper_tx)) as Hc.
  { split; [vm_compute; reflexivity|]. intros tx w Haw. rewrite Hw in Haw. apply some_triple in Haw as [<- <-].
    split; [split; [split|]; vm_compute; split; discriminate|]. split; [reflexivity|vm_compute; discriminate]. }
  unfold mempool. apply List.Forall_cons; [|apply List.Forall_cons; [exact Hc|apply List.Forall_cons; [exact Hc|apply List.Forall_nil]]].
  split; [vm_compute; reflexivity|]. intros tx w Haw. rewrite Hv in Haw. discriminate Haw.
Qed.

Lemma sample_readable : readable proposer mempool (temp_new (storage (wl_storage shell))).
Proof.
  destruct sample_as_wrapper as [Hv Hw]. intros b tx w Hin Haw.
  assert (w = sample_wrapper 1) as ->.
  { unfold mempool in Hin. rewrite !elem_of_cons, elem_of_nil in Hin. destruct Hin as [Hb|[Hb|[Hb|[]]]]; rewrite Hb in Haw;
      [rewrite Hv in Haw; discriminate Haw|rewrite Hw in Haw; apply some_triple in Haw; exact (eq_sym (proj2 Haw))..]. }
  pose proof (fee_state_sample 50000000000 ltac:(lia)) as (_ & _ & H1 & H2 & H3).
  split; [exact H1|split; [exact H2|exact H3]].
Qed.

Lemma prepared_proposal_accepted_witness : exists block codes,
  prepare_proposal shell mempool (Some 101) proposer = Ok block /\
  process_proposal (with_mode Full shell) block (Some 101) proposer = Ok (Accept, codes).
Proof.
  apply (prepared_proposal_accepted (HB:=RefTx.borsh_laws) shell mempool 101 proposer None Full); [reflexivity|]. split.
  - vm_compute. split; discriminate.
  - vm_compute. split; discriminate.
  - vm_compute. discriminate.
  - reflexivity.
  - exact sample_candidates.
  - exact sample_readable.
  - split; [repeat constructor; vm_compute; discriminate|vm_compute; discriminate].
  - assert (forall tx, tx_try_from (to_bytes vext_tx) = Ok tx -> expired 101 (expiration (header tx)) = false) as H1.
    { intros tx Htx. rewrite vext_decodes in Htx. apply ok_inj in Htx as <-. reflexivity. }
    apply List.Forall_cons; [intros _; split; [vm_compute; discriminate|exact H1]|].
    assert (proposes_vext shell (to_bytes wrapper_tx) = false) as H2 by (vm_compute; reflexivity).
    repeat (apply List.Forall_cons; [intros H; rewrite H2 in H; discriminate H|]). apply List.Forall_nil.
Defined.
