(* ===== verification/BridgePool.v ===== *)
(** * The Merkle tree of the Ethereum bridge pool
    ([core/src/ledger/eth_bridge/storage/bridge_pool.rs])

    The tree of pending transfers, its root, and the membership proofs of several
    transfers at once that are checked on Ethereum. A [KeccakHash] is the integer
    of its 32 big-endian bytes, so that the order of arrays is the order of
    integers.

    The hash function, the hash of a transfer and the decoding of hexadecimal
    strings are the class [Keccak]. *)

From Stdlib Require Import ZArith Lia Ascii String.
From stdpp Require Import base numbers list gmap sets option sorting.
From S2P Require Import Prelude Uint Keys WriteLog Epoch.

Local Open Scope Z_scope.
Local Open Scope outcome_scope.

Notation KeccakHash := Z (only parsing).

Class Keccak : Type := {
  keccak_hash : bytes -> KeccakHash;
  PendingTransfer : Type;
  keccak256 : PendingTransfer -> KeccakHash;
  hexupper_decode : str -> option bytes
}.
(** Hashes are arrays of 32 bytes *)
Definition in_hash (h : Z) : Prop := 0 <= h < 256 ^ 32.
Class KeccakLaws (K : Keccak) : Prop := {
  keccak_hash_range bs : in_hash (keccak_hash bs);
  keccak256_range t : in_hash (keccak256 t);
  hexupper_decode_bytes s bs : hexupper_decode s = Some bs -> Forall is_byte bs
}.

Section tree.
Context {K : Keccak}.

Definition POOL_ROOT_PREFIX_LEAF : Z := 0.
Definition POOL_ROOT_PREFIX_NON_LEAF : Z := 255.

Inductive PoolError : Type := NotInTree | MalformedKey.

Record BridgePoolTree : Type := mkTree {
  root : KeccakHash;
  leaves : gmap KeccakHash BlockHeight
}.
Definition default_tree : BridgePoolTree := mkTree 0 ∅.

(** [hash_pair], and the 65 bytes it hashes *)
Definition pair_buffer (l r : KeccakHash) (prefix : Z) : bytes :=
  prefix :: (if l <? r then hash_bytes l ++ hash_bytes r else hash_bytes r ++ hash_bytes l).
Definition hash_pair (l r : KeccakHash) (prefix : Z) : KeccakHash := keccak_hash (pair_buffer l r prefix).

(** One pass of the [while] loop of [compute_root] over [chunks(2)] *)
Fixpoint next_level (prefix : Z) (hashes : list KeccakHash) : list KeccakHash :=
  match hashes with
  | [] => []
  | [l] => [hash_pair l 0 prefix]
  | l :: r :: rest => hash_pair l r prefix :: next_level prefix rest
  end.
Fixpoint root_loop (fuel : nat) (hashes : list KeccakHash) (prefix : Z) : list KeccakHash :=
  match fuel with
  | O => hashes
  | S fuel' =>
      if (1 <? Datatypes.length hashes)%nat
      then root_loop fuel' (next_level prefix hashes) POOL_ROOT_PREFIX_NON_LEAF
      else hashes
  end.
Definition leaf_hashes (t : BridgePoolTree) : list KeccakHash := (bt_list (leaves t)).*1.
Definition compute_root (t : BridgePoolTree) : KeccakHash :=
  let hashes := leaf_hashes t in
  default 0 (head (root_loop (Datatypes.length hashes) hashes POOL_ROOT_PREFIX_LEAF)).

(** [TryFrom<&str> for KeccakHash], and [parse_key] *)
Definition keccak_try_from (s : str) : option KeccakHash :=
  bs ← hexupper_decode s;
  if (List.length bs =? 32)%nat then Some (from_be_bytes bs) else None.
Definition parse_key (key : Key) : outcome PoolError KeccakHash :=
  match key with
  | [StringSeg s] => ok_or (keccak_try_from s) MalformedKey
  | _ => Err MalformedKey
  end.

Definition contains_key (key : Key) (t : BridgePoolTree) : outcome PoolError bool :=
  let* hash := parse_key key in Ok (bool_decide (is_Some (leaves t !! hash))).
Definition get (key : Key) (t : BridgePoolTree) : outcome PoolError BlockHeight :=
  let* hash := parse_key key in ok_or (leaves t !! hash) NotInTree.
Definition set_leaves (ls : gmap KeccakHash BlockHeight) : BridgePoolTree :=
  mkTree (compute_root (mkTree 0 ls)) ls.
Definition insert_key (key : Key) (value : BlockHeight) : st BridgePoolTree PoolError KeccakHash := fun t =>
  match parse_key key with
  | Ok hash => let t' := set_leaves (<[hash := value]> (leaves t)) in (t', Ok (root t'))
  | Err e => (t, Err e)
  | Panic => (t, Panic)
  end.
Definition delete_key (key : Key) : st BridgePoolTree PoolError unit := fun t =>
  match parse_key key with
  | Ok hash => (set_leaves (base.delete hash (leaves t)), Ok tt)
  | Err e => (t, Err e)
  | Panic => (t, Panic)
  end.

(** ** Membership proofs *)
Inductive Node : Type :=
| OnPath (h : KeccakHash)
| OffPath (h : KeccakHash).
Definition node_default : Node := OffPath 0.

Record BridgePoolProof : Type := mkProof {
  proof : list KeccakHash;
  proof_leaves : list PendingTransfer;
  flags : list bool
}.

Definition join (prefix : Z) (l r : Node) : Node * list KeccakHash * list bool :=
  match l, r with
  | OnPath l, OnPath r => (OnPath (hash_pair l r prefix), [], [true])
  | OnPath hash, OffPath sib => (OnPath (hash_pair hash sib prefix), [sib], [false])
  | OffPath sib, OnPath hash => (OnPath (hash_pair hash sib prefix), [sib], [false])
  | OffPath l, OffPath r => (OffPath (hash_pair l r prefix), [], [])
  end.
Fixpoint proof_level (prefix : Z) (nodes : list Node) : list Node * list KeccakHash * list bool :=
  let push l r acc :=
    let '(n, p, f) := join prefix l r in
    let '(ns, ps, fs) := acc in (n :: ns, p ++ ps, f ++ fs) in
  match nodes with
  | [] => ([], [], [])
  | [l] => push l node_default ([], [], [])
  | l :: r :: rest => push l r (proof_level prefix rest)
  end.
Fixpoint proof_loop (fuel : nat) (nodes : list Node) (prefix : Z) : list KeccakHash * list bool :=
  match fuel with
  | O => ([], [])
  | S fuel' =>
      if (1 <? Datatypes.length nodes)%nat
      then
        let '(nodes', p, f) := proof_level prefix nodes in
        let '(ps, fs) := proof_loop fuel' nodes' POOL_ROOT_PREFIX_NON_LEAF in
        (p ++ ps, f ++ fs)
      else ([], [])
  end.

Definition get_membership_proof (t : BridgePoolTree) (values : list PendingTransfer)
  : outcome PoolError BridgePoolProof :=
  let values := sort_by keccak256 values in
  let wanted : gset KeccakHash := list_to_set (keccak256 <$> values) in
  if forallb (fun h => bool_decide (is_Some (leaves t !! h))) (elements wanted)
  then
    let node h := if bool_decide (h ∈ wanted) then OnPath h else OffPath h in
    let nodes := node <$> leaf_hashes t in
    let '(proof_hashes, flags) := proof_loop (Datatypes.length nodes) nodes POOL_ROOT_PREFIX_LEAF in
    let proof_hashes :=
      if bool_decide (flags = []) && bool_decide (proof_hashes = []) && bool_decide (values = [])
      then [root t] else proof_hashes in
    Ok (mkProof proof_hashes values flags)
  else Err NotInTree.

(** ** [BridgePoolProof::verify] *)
Record VerifyState : Type := mkVS {
  hashes : list KeccakHash;
  hash_pos : nat;
  leaf_pos : nat;
  proof_pos : nat
}.

(** The next leaf, or else the next computed hash *)
Definition next_node (p : BridgePoolProof) (s : VerifyState) : outcome PoolError (KeccakHash * Z * VerifyState) :=
  if (leaf_pos s <? Datatypes.length (proof_leaves p))%nat then
    let* leaf := unwrap (proof_leaves p !! leaf_pos s) in
    Ok (keccak256 leaf, POOL_ROOT_PREFIX_LEAF, mkVS (hashes s) (hash_pos s) (S (leaf_pos s)) (proof_pos s))
  else
    let* h := unwrap (hashes s !! hash_pos s) in
    Ok (h, POOL_ROOT_PREFIX_NON_LEAF, mkVS (hashes s) (S (hash_pos s)) (leaf_pos s) (proof_pos s)).
Definition operands (p : BridgePoolProof) (flag : bool) (s : VerifyState)
  : outcome PoolError (KeccakHash * KeccakHash * Z * VerifyState) :=
  let* '(l, prefix, s) := next_node p s in
  if flag then let* '(r, _, s) := next_node p s in Ok (l, r, prefix, s)
  else
    let* r := unwrap (proof p !! proof_pos s) in
    Ok (l, r, prefix, mkVS (hashes s) (hash_pos s) (leaf_pos s) (S (proof_pos s))).
Definition verify_step (p : BridgePoolProof) (i : nat) (flag : bool) (s : VerifyState)
  : outcome PoolError VerifyState :=
  let* '(l, r, prefix, s) := operands p flag s in
  Ok (mkVS (<[i := hash_pair l r prefix]> (hashes s)) (hash_pos s) (leaf_pos s) (proof_pos s)).
Fixpoint verify_loop (p : BridgePoolProof) (i : nat) (fs : list bool) (s : VerifyState)
  : outcome PoolError VerifyState :=
  match fs with
  | [] => Ok s
  | flag :: fs' => let* s' := verify_step p i flag s in verify_loop p (S i) fs' s'
  end.
Definition verify (p : BridgePoolProof) (r : KeccakHash) : outcome PoolError bool :=
  if negb (Datatypes.length (proof p) + Datatypes.length (proof_leaves p) =? Datatypes.length (flags p) + 1)%nat
  then Ok false
  else if bool_decide (flags p = []) then
    match list.last (proof_leaves p) with
    | Some leaf => Ok (bool_decide (r = keccak256 leaf))
    | None =>
        match list.last (proof p) with
        | Some proof_root => Ok (bool_decide (r = proof_root))
        | None => Ok false
        end
    end
  else
    let* s := verify_loop p 0 (flags p) (mkVS (replicate (Datatypes.length (flags p)) 0) 0 0 0) in
    match list.last (hashes s) with
    | Some computed => Ok (bool_decide (computed = r))
    | None => Ok false
    end.
End tree.

(** ** Trees built by the operations *)
Section trees.
Context {K : Keccak} {HK : KeccakLaws K}.

Inductive reachable : BridgePoolTree -> Prop :=
| reachable_default : reachable default_tree
| reachable_insert key value t : reachable t -> reachable (insert_key key value t).1
| reachable_delete key t : reachable t -> reachable (delete_key key t).1.

(** The tree has the root of its leaves, and these are hashes *)
Definition tree_wf (t : BridgePoolTree) : Prop := root t = compute_root t.
Definition tree_ok (t : BridgePoolTree) : Prop := tree_wf t /\ forall h, is_Some (leaves t !! h) -> in_hash h.

Lemma parse_key_range key h : parse_key key = Ok h -> in_hash h.
Proof using HK.
  unfold parse_key. destruct key as [|[?|s] [|]]; try done. unfold keccak_try_from.
  destruct (hexupper_decode s) as [bs|] eqn:Hd; cbn [mbind option_bind]; [|done].
  destruct (Nat.eqb_spec (List.length bs) 32) as [Hl|]; [|done]. intros [= <-]. unfold in_hash.
  replace 32 with (Z.of_nat (List.length bs)) by lia. eapply from_be_bytes_range, hexupper_decode_bytes, Hd.
Qed.
Lemma set_leaves_ok ls : (forall h, is_Some (ls !! h) -> in_hash h) -> tree_ok (set_leaves ls).
Proof. done. Qed.
Lemma insert_key_ok key value t : tree_ok t -> tree_ok (insert_key key value t).1.
Proof using HK.
  intros [Hw Hl]. unfold insert_key. destruct (parse_key key) as [h| |] eqn:Hk; [|done..]. apply set_leaves_ok.
  intros h' [v [[<- _]|[_ Hv]]%lookup_insert_Some]; [by eapply parse_key_range|apply Hl; by eexists].
Qed.
Lemma delete_key_ok key t : tree_ok t -> tree_ok (delete_key key t).1.
Proof.
  intros [Hw Hl]. unfold delete_key. destruct (parse_key key) as [h| |]; [|done..]. apply set_leaves_ok.
  intros h' [v [_ Hv]%lookup_delete_Some]. apply Hl. by eexists.
Qed.
Lemma reachable_ok t : reachable t -> tree_ok t.
Proof using HK.
  induction 1; [|by apply insert_key_ok|by apply delete_key_ok]. split; [done|]. by intros h [? ?].
Qed.
End trees.

(** ** Levels of the tree *)
Section levels.
Context {K : Keccak}.

Lemma hash_pair_comm l r prefix : hash_pair l r prefix = hash_pair r l prefix.
Proof.
  unfold hash_pair, pair_buffer. destruct (Z.ltb_spec l r), (Z.ltb_spec r l); try lia; try done.
  by replace l with r by lia.
Qed.

Lemma pairs_ind {A} (P : list A -> Prop) :
  P [] -> (forall x, P [x]) -> (forall x y l, P l -> P (x :: y :: l)) -> forall l, P l.
Proof.
  intros H0 H1 H2. fix IH 1. intros [|x [|y l]]; [exact H0|apply H1|]. apply H2, IH.
Qed.

Lemma next_level_length prefix l : (2 * Datatypes.length (next_level prefix l) <= Datatypes.length l + 1)%nat /\
  (l <> [] -> next_level prefix l <> []).
Proof. induction l as [|x|x y l [IH _]] using pairs_ind; cbn; (split; [lia|done]). Qed.

(** The loop ends in one hash *)
Lemma root_loop_one fuel l prefix : l <> [] -> (Datatypes.length l <= S fuel)%nat ->
  exists r, root_loop fuel l prefix = [r].
Proof.
  revert l prefix. induction fuel as [|fuel IH]; intros l prefix Hl Hf; cbn [root_loop].
  - destruct l as [|x [|y l]]; [done|by exists x|cbn in Hf; lia].
  - destruct (Nat.ltb_spec 1 (Datatypes.length l)) as [H1|H1].
    + destruct (next_level_length prefix l) as [Hn Hne]. apply IH; [by apply Hne|lia].
    + destruct l as [|x [|y l]]; [done|by exists x|cbn in H1; lia].
Qed.

Definition value (n : Node) : KeccakHash := match n with OnPath h | OffPath h => h end.
Definition on_path (ns : list Node) : list KeccakHash :=
  omap (fun n => match n with OnPath h => Some h | OffPath _ => None end) ns.

Lemma join_value prefix l r : value (join prefix l r).1.1 = hash_pair (value l) (value r) prefix.
Proof. destruct l, r; try done. apply hash_pair_comm. Qed.
Lemma proof_level_values prefix ns : value <$> (proof_level prefix ns).1.1 = next_level prefix (value <$> ns).
Proof.
  induction ns as [|x|x y ns IH] using pairs_ind; [done|..]; cbn [proof_level next_level fmap list_fmap].
  - pose proof (join_value prefix x node_default). destruct (join prefix x node_default) as [[n p] f]. cbn in *. congruence.
  - pose proof (join_value prefix x y). destruct (join prefix x y) as [[n p] f].
    destruct (proof_level prefix ns) as [[ns' ps] fs]. cbn in *. congruence.
Qed.

(** ** A queue that reads the nodes of a proof

    [verify] reads leaves, then the hashes it has computed, in the order of the
    levels. *)
Definition pop (lq hq : list KeccakHash) : option (KeccakHash * Z * list KeccakHash * list KeccakHash) :=
  match lq, hq with
  | l :: lq', _ => Some (l, POOL_ROOT_PREFIX_LEAF, lq', hq)
  | [], h :: hq' => Some (h, POOL_ROOT_PREFIX_NON_LEAF, [], hq')
  | [], [] => None
  end.
Fixpoint qrun (lq hq pf : list KeccakHash) (fs : list bool) : option (list KeccakHash * list KeccakHash * list KeccakHash) :=
  match fs with
  | [] => Some (lq, hq, pf)
  | f :: fs' =>
      '(l, prefix, lq, hq) ← pop lq hq;
      '(r, lq, hq, pf) ← (if (f : bool) then '(h, _, lq, hq) ← pop lq hq; Some (h, lq, hq, pf)
                              else match pf with h :: pf' => Some (h, lq, hq, pf') | [] => None end);
      qrun lq (hq ++ [hash_pair l r prefix]) pf fs'
  end.

(** One level of leaves, and one of computed hashes *)
Lemma qrun_join_leaf lq hq pf fs l r n p f : join POOL_ROOT_PREFIX_LEAF l r = (n, p, f) ->
  qrun (on_path [l; r] ++ lq) hq (p ++ pf) (f ++ fs) = qrun lq (hq ++ on_path [n]) pf fs.
Proof. destruct l, r; intros [= <- <- <-]; cbn; by rewrite ?app_nil_r. Qed.
Lemma qrun_join_hash hq pf fs l r n p f : join POOL_ROOT_PREFIX_NON_LEAF l r = (n, p, f) ->
  qrun [] (on_path [l; r] ++ hq) (p ++ pf) (f ++ fs) = qrun [] (hq ++ on_path [n]) pf fs.
Proof. destruct l, r; intros [= <- <- <-]; cbn; by rewrite ?app_nil_r. Qed.

Lemma on_path_cons n ns : on_path (n :: ns) = on_path [n] ++ on_path ns.
Proof. by destruct n. Qed.
Lemma on_path_pair x y ns : on_path (x :: y :: ns) = on_path [x; y] ++ on_path ns.
Proof. by destruct x, y. Qed.
Lemma on_path_single x : on_path [x] = on_path [x; node_default].
Proof. by destruct x. Qed.

Lemma qrun_leaf_level ns : forall hq pf fs, let '(ns', p, f) := proof_level POOL_ROOT_PREFIX_LEAF ns in
  qrun (on_path ns) hq (p ++ pf) (f ++ fs) = qrun [] (hq ++ on_path ns') pf fs.
Proof.
  induction ns as [|x|x y ns IH] using pairs_ind; intros hq pf fs; cbn [proof_level]; [cbn; by rewrite app_nil_r|..].
  - destruct (join _ x node_default) as [[n p] f] eqn:Hj. rewrite on_path_single, !app_nil_r.
    rewrite <- (app_nil_r (on_path [x; node_default])). by apply qrun_join_leaf.
  - destruct (join _ x y) as [[n p] f] eqn:Hj. destruct (proof_level _ ns) as [[ns' ps] fs'].
    rewrite on_path_pair, <- !app_assoc, (qrun_join_leaf _ _ _ _ _ _ _ _ _ Hj), IH, (on_path_cons n ns'). by rewrite <- app_assoc.
Qed.
Lemma qrun_hash_level ns : forall hq pf fs, let '(ns', p, f) := proof_level POOL_ROOT_PREFIX_NON_LEAF ns in
  qrun [] (on_path ns ++ hq) (p ++ pf) (f ++ fs) = qrun [] (hq ++ on_path ns') pf fs.
Proof.
  induction ns as [|x|x y ns IH] using pairs_ind; intros hq pf fs; cbn [proof_level]; [cbn; by rewrite app_nil_r|..].
  - destruct (join _ x node_default) as [[n p] f] eqn:Hj. rewrite on_path_single, !app_nil_r. by apply qrun_join_hash.
  - destruct (join _ x y) as [[n p] f] eqn:Hj. destruct (proof_level _ ns) as [[ns' ps] fs'].
    rewrite on_path_pair, <- !app_assoc, (qrun_join_hash _ _ _ _ _ _ _ _ Hj), <- app_assoc, IH, (on_path_cons n ns').
    by rewrite <- app_assoc.
Qed.

Lemma on_path_app ns ns' : on_path (ns ++ ns') = on_path ns ++ on_path ns'.
Proof. apply omap_app. Qed.
Lemma join_on_path prefix l r : on_path [(join prefix l r).1.1] = [] <-> on_path [l; r] = [].
Proof. by destruct l, r. Qed.
Lemma proof_level_on_path prefix ns : on_path (proof_level prefix ns).1.1 = [] <-> on_path ns = [].
Proof.
  induction ns as [|x|x y ns IH] using pairs_ind; cbn [proof_level]; [done|..].
  - rewrite on_path_single, <- join_on_path with (prefix := prefix). by destruct (join prefix x node_default) as [[n p] f].
  - pose proof (join_on_path prefix x y) as Hj. destruct (join prefix x y) as [[n p] f].
    destruct (proof_level prefix ns) as [[ns' ps] fs]. cbn [fst] in *. rewrite on_path_pair, (on_path_cons n), !app_nil. tauto.
Qed.

(** A whole run over a tree *)
Lemma qrun_hash_levels fuel : forall ns, ns <> [] -> (Datatypes.length ns <= S fuel)%nat ->
  let '(p, f) := proof_loop fuel ns POOL_ROOT_PREFIX_NON_LEAF in
  exists n, qrun [] (on_path ns) p f = Some ([], on_path [n], []) /\ (on_path [n] = [] <-> on_path ns = []) /\
    root_loop fuel (value <$> ns) POOL_ROOT_PREFIX_NON_LEAF = [value n].
Proof.
  induction fuel as [|fuel IH]; intros ns Hne Hlen; cbn [proof_loop root_loop].
  { destruct ns as [|x [|y ns]]; [done| |cbn in Hlen; lia]. by exists x. }
  rewrite length_fmap. destruct (Nat.ltb_spec 1 (Datatypes.length ns)) as [H1|H1].
  2: { destruct ns as [|x [|y ns]]; [done| |cbn in H1; lia]. by exists x. }
  pose proof (qrun_hash_level ns []) as Hl. pose proof (proof_level_values POOL_ROOT_PREFIX_NON_LEAF ns) as Hv.
  pose proof (proof_level_on_path POOL_ROOT_PREFIX_NON_LEAF ns) as Ho.
  destruct (next_level_length POOL_ROOT_PREFIX_NON_LEAF (value <$> ns)) as [Hn1 Hn2]. rewrite <- Hv in Hn1, Hn2 |- *.
  destruct (proof_level POOL_ROOT_PREFIX_NON_LEAF ns) as [[ns' p1] f1]. cbn [fst] in *. rewrite !length_fmap in Hn1.
  specialize (IH ns'). destruct (proof_loop fuel ns' POOL_ROOT_PREFIX_NON_LEAF) as [p2 f2]. destruct IH as (n & Hq & Hon & Hr).
  - intros ->. apply Hn2; [by destruct ns|done].
  - lia.
  - exists n. rewrite app_nil_r in Hl. rewrite Hl. split; [exact Hq|]. split; [|done]. by rewrite Hon, Ho.
Qed.

Lemma qrun_tree ns : ns <> [] ->
  let '(p, f) := proof_loop (Datatypes.length ns) ns POOL_ROOT_PREFIX_LEAF in
  exists n, root_loop (Datatypes.length ns) (value <$> ns) POOL_ROOT_PREFIX_LEAF = [value n] /\
    (on_path [n] = [] <-> on_path ns = []) /\
    (ns = [n] /\ p = [] /\ f = [] \/ qrun (on_path ns) [] p f = Some ([], on_path [n], [])).
Proof.
  intros Hne. destruct ns as [|x ns0] eqn:Hns; [done|]. rewrite <- Hns in *. clear Hne.
  assert (Datatypes.length ns = S (Datatypes.length ns0)) as -> by (by rewrite Hns). cbn [proof_loop root_loop].
  rewrite length_fmap. destruct (Nat.ltb_spec 1 (Datatypes.length ns)) as [H1|H1].
  2: { exists x. rewrite Hns in *. destruct ns0; [|cbn in H1; lia]. split; [done|]. split; [done|]. by left. }
  pose proof (qrun_leaf_level ns []) as Hl. pose proof (proof_level_values POOL_ROOT_PREFIX_LEAF ns) as Hv.
  pose proof (proof_level_on_path POOL_ROOT_PREFIX_LEAF ns) as Ho.
  destruct (next_level_length POOL_ROOT_PREFIX_LEAF (value <$> ns)) as [Hn1 Hn2]. rewrite <- Hv in Hn1, Hn2 |- *.
  destruct (proof_level POOL_ROOT_PREFIX_LEAF ns) as [[ns' p1] f1]. cbn [fst] in *. rewrite !length_fmap in Hn1.
  pose proof (qrun_hash_levels (Datatypes.length ns0) ns') as IH.
  destruct (proof_loop (Datatypes.length ns0) ns' POOL_ROOT_PREFIX_NON_LEAF) as [p2 f2]. destruct IH as (n & Hq & Hon & Hr).
  - intros ->. apply Hn2; [by rewrite Hns|done].
  - rewrite Hns in *. cbn in *. lia.
  - exists n. split; [done|]. split; [by rewrite Hon, Ho|]. right. rewrite Hl. exact Hq.
Qed.

Lemma pop_length lq hq l pre lq' hq' : pop lq hq = Some (l, pre, lq', hq') ->
  (Datatypes.length lq + Datatypes.length hq = S (Datatypes.length lq' + Datatypes.length hq'))%nat.
Proof. destruct lq, hq; intros [= <- <- <- <-]; cbn; lia. Qed.
Lemma qrun_length fs : forall lq hq pf lq' hq' pf', qrun lq hq pf fs = Some (lq', hq', pf') ->
  (Datatypes.length lq + Datatypes.length hq + Datatypes.length pf =
   Datatypes.length fs + (Datatypes.length lq' + Datatypes.length hq' + Datatypes.length pf'))%nat.
Proof.
  induction fs as [|f fs IH]; intros lq hq pf lq' hq' pf'; cbn [qrun Datatypes.length]; [by intros [= <- <- <-]|].
  destruct (pop lq hq) as [[[[l pre] lq1] hq1]|] eqn:H1; cbn [mbind option_bind]; [|done]. apply pop_length in H1.
  destruct f.
  - destruct (pop lq1 hq1) as [[[[r pre'] lq2] hq2]|] eqn:H2; cbn [mbind option_bind]; [|done]. apply pop_length in H2.
    intros Hr%IH. rewrite length_app in Hr. cbn in Hr. lia.
  - destruct pf as [|r pf]; cbn [mbind option_bind]; [done|]. intros Hr%IH. rewrite length_app in Hr. cbn in *. lia.
Qed.

(** ** [verify] follows the queue *)
Definition at_step (p : BridgePoolProof) (i : nat) (s : VerifyState) (lq hq pf : list KeccakHash) : Prop :=
  lq = drop (leaf_pos s) (keccak256 <$> proof_leaves p) /\ hq = drop (hash_pos s) (take i (hashes s)) /\
  pf = drop (proof_pos s) (proof p) /\ (i <= Datatypes.length (hashes s))%nat /\ (hash_pos s <= i)%nat.

Lemma drop_cons_lookup {A} (l : list A) n x l' : drop n l = x :: l' -> l !! n = Some x /\ l' = drop (S n) l.
Proof.
  intros H. assert (l !! n = Some x) as Hx.
  { rewrite <- (Nat.add_0_r n), <- lookup_drop, H. done. }
  split; [done|]. rewrite (drop_S _ x) in H by done. congruence.
Qed.

Lemma next_node_pop p i s lq hq pf l pre lq' hq' : at_step p i s lq hq pf -> pop lq hq = Some (l, pre, lq', hq') ->
  exists s', next_node p s = Ok (l, pre, s') /\ at_step p i s' lq' hq' pf /\ hashes s' = hashes s.
Proof.
  intros (Hl & Hh & Hp & Hi & Hpos) Hpop. unfold next_node. destruct lq as [|x lq].
  - symmetry in Hl. apply (f_equal (@Datatypes.length _)) in Hl as Hlen. rewrite length_drop, length_fmap in Hlen. cbn in Hlen.
    destruct (Nat.ltb_spec (leaf_pos s) (Datatypes.length (proof_leaves p))); [lia|].
    destruct hq as [|h hq]; [done|]. injection Hpop as <- <- <- <-. symmetry in Hh.
    apply drop_cons_lookup in Hh as [Hx Hhq]. apply lookup_take_Some in Hx as [Hx Hlt]. rewrite Hx. cbn [unwrap out_bind].
    eexists. split; [done|]. split; [|done]. split_and!; cbn; try done.
  - injection Hpop as <- <- <- <-. symmetry in Hl. apply drop_cons_lookup in Hl as [Hx Hlq].
    rewrite list_lookup_fmap in Hx. destruct (proof_leaves p !! leaf_pos s) as [t|] eqn:Ht; [|done]. injection Hx as <-.
    apply lookup_lt_Some in Ht as Hlt. destruct (Nat.ltb_spec (leaf_pos s) (Datatypes.length (proof_leaves p))); [|lia].
    eexists. split; [done|]. split; [|done]. by split_and!.
Qed.

Lemma at_step_insert p i s lq hq pf v : at_step p i s lq hq pf -> (i < Datatypes.length (hashes s))%nat ->
  at_step p (S i) (mkVS (<[i := v]> (hashes s)) (hash_pos s) (leaf_pos s) (proof_pos s)) lq (hq ++ [v]) pf.
Proof.
  intros (-> & -> & -> & Hi & Hpos) Hlt. split_and!; cbn [hashes hash_pos leaf_pos proof_pos]; try done.
  - rewrite (take_S_r _ i v) by (by rewrite list_lookup_insert_eq). rewrite take_insert_ge by lia.
    rewrite drop_app_le by (rewrite length_take; lia). done.
  - rewrite length_insert. lia.
  - lia.
Qed.

Lemma verify_loop_qrun p fs : forall i s lq hq pf lq' hq' pf', at_step p i s lq hq pf ->
  (i + Datatypes.length fs)%nat = Datatypes.length (hashes s) -> qrun lq hq pf fs = Some (lq', hq', pf') ->
  exists s', verify_loop p i fs s = Ok s' /\ at_step p (Datatypes.length (hashes s')) s' lq' hq' pf'.
Proof.
  induction fs as [|f fs IH]; intros i s lq hq pf lq' hq' pf' Hs Hn; cbn [qrun verify_loop].
  { intros [= <- <- <-]. exists s. split; [done|]. cbn in Hn. by replace (Datatypes.length (hashes s)) with i by lia. }
  destruct (pop lq hq) as [[[[l pre] lq1] hq1]|] eqn:H1; cbn [mbind option_bind]; [|done].
  destruct (next_node_pop _ _ _ _ _ _ _ _ _ _ Hs H1) as (s1 & Hn1 & Hs1 & Hh1). unfold verify_step, operands. rewrite Hn1. cbn [out_bind].
  assert (forall s2 r lq2 hq2 pf2, at_step p i s2 lq2 hq2 pf2 -> hashes s2 = hashes s ->
    qrun lq2 (hq2 ++ [hash_pair l r pre]) pf2 fs = Some (lq', hq', pf') ->
    exists s', verify_loop p (S i) fs (mkVS (<[i := hash_pair l r pre]> (hashes s2)) (hash_pos s2) (leaf_pos s2) (proof_pos s2)) = Ok s' /\
      at_step p (Datatypes.length (hashes s')) s' lq' hq' pf') as Hgo.
  { intros s2 r lq2 hq2 pf2 Hs2 Hh2 Hq. cbn in Hn. eapply IH; [|..|exact Hq].
    - apply at_step_insert; [done|]. rewrite Hh2. lia.
    - cbn. rewrite length_insert, Hh2. lia. }
  destruct f.
  - destruct (pop lq1 hq1) as [[[[r pre'] lq2] hq2]|] eqn:H2; cbn [mbind option_bind]; [|done].
    destruct (next_node_pop _ _ _ _ _ _ _ _ _ _ Hs1 H2) as (s2 & Hn2 & Hs2 & Hh2). rewrite Hn2. cbn [out_bind].
    intros Hq. eapply Hgo; [done|by rewrite Hh2|done].
  - destruct pf as [|r pf]; cbn [mbind option_bind]; [done|]. intros Hq.
    pose proof Hs1 as (Hs1a & Hs1b & Hs1c & Hs1d & Hs1e). symmetry in Hs1c. apply drop_cons_lookup in Hs1c as [Hr Hpf].
    rewrite Hr. cbn [unwrap out_bind]. eapply (Hgo (mkVS (hashes s1) (hash_pos s1) (leaf_pos s1) (S (proof_pos s1)))); [|done|exact Hq].
    by split_and!.
Qed.

Lemma verify_qrun p h : flags p <> [] -> qrun (keccak256 <$> proof_leaves p) [] (proof p) (flags p) = Some ([], [h], []) ->
  verify p h = Ok true.
Proof.
  intros Hf Hq. pose proof (qrun_length _ _ _ _ _ _ _ Hq) as Hlen. rewrite length_fmap in Hlen. cbn in Hlen. unfold verify.
  rewrite (proj2 (Nat.eqb_eq _ _)) by lia. cbn [negb]. rewrite bool_decide_false by done.
  set (s0 := mkVS (replicate (Datatypes.length (flags p)) 0) 0 0 0).
  destruct (verify_loop_qrun p (flags p) 0 s0 (keccak256 <$> proof_leaves p) [] (proof p) [] [h] [])
    as (s' & -> & _ & Hh & _); [by split_and!; cbn; try lia|by cbn; rewrite length_replicate|done|]. cbn [out_bind].
  rewrite take_ge in Hh by done. rewrite <- (take_drop (hash_pos s') (hashes s')), <- Hh, last_snoc. by rewrite bool_decide_true.
Qed.

(** The sorted leaf hashes *)
Lemma leaf_hashes_sorted t : StronglySorted Z.le (leaf_hashes t).
Proof.
  unfold leaf_hashes, bt_list. pose proof (sort_by_sorted fst (map_to_list (leaves t))) as Hs.
  induction Hs as [|x l _ IH Hx]; cbn; constructor; [done|]. by apply Forall_fmap.
Qed.
Lemma elem_of_leaf_hashes t h : h ∈ leaf_hashes t <-> is_Some (leaves t !! h).
Proof.
  unfold leaf_hashes. rewrite list_elem_of_fmap. split.
  - intros ([k v] & -> & Hin). apply elem_of_bt_list in Hin. by eexists.
  - intros [v Hv]. exists (h, v). split; [done|]. by apply elem_of_bt_list.
Qed.
Lemma leaf_hashes_nodup t : NoDup (leaf_hashes t).
Proof. unfold leaf_hashes. rewrite bt_list_perm. apply NoDup_fst_map_to_list. Qed.

Lemma sorted_values_hashes values : StronglySorted Z.le (keccak256 <$> sort_by keccak256 values).
Proof.
  pose proof (sort_by_sorted keccak256 values) as Hs. induction Hs as [|x l _ IH Hx]; cbn; constructor; [done|].
  by apply Forall_fmap.
Qed.

Lemma on_path_filter (wanted : gset KeccakHash) l :
  on_path ((fun h => if bool_decide (h ∈ wanted) then OnPath h else OffPath h) <$> l) = filter (fun h => h ∈ wanted) l.
Proof.
  induction l as [|h l IH]; [done|]. rewrite fmap_cons, filter_cons, on_path_cons, IH.
  case_bool_decide; [rewrite decide_True by done|rewrite decide_False by done]; done.
Qed.

(** The leaves of a proof in the order of the tree *)
Lemma wanted_leaves t values : NoDup (keccak256 <$> values) -> Forall (fun v => is_Some (leaves t !! keccak256 v)) values ->
  filter (fun h => h ∈ (list_to_set (keccak256 <$> sort_by keccak256 values) : gset KeccakHash)) (leaf_hashes t) =
  keccak256 <$> sort_by keccak256 values.
Proof.
  intros Hnd Hin. assert (Permutation (sort_by keccak256 values) values) as Hp by apply sort_by_perm.
  apply (StronglySorted_unique Z.le).
  - assert (forall l, StronglySorted Z.le l -> StronglySorted Z.le (filter (fun h => h ∈ (list_to_set (keccak256 <$> sort_by keccak256 values) : gset KeccakHash)) l)) as Hf.
    { induction 1 as [|x l _ IH Hx]; [constructor|]. rewrite filter_cons. case_decide; [|done]. constructor; [done|].
      apply list.Forall_forall. intros y [_ Hy]%list_elem_of_filter. rewrite list.Forall_forall in Hx. by apply Hx. }
    apply Hf, leaf_hashes_sorted.
  - apply sorted_values_hashes.
  - apply NoDup_Permutation; [apply NoDup_filter, leaf_hashes_nodup|by rewrite Hp|].
    intros h. rewrite list_elem_of_filter, elem_of_leaf_hashes, elem_of_list_to_set. split; [by intros [? _]|].
    intros Hh. split; [done|]. rewrite Hp in Hh. apply list_elem_of_fmap in Hh as (v & -> & Hv).
    rewrite list.Forall_forall in Hin. by apply Hin.
Qed.

Lemma bt_list_empty {V} (m : gmap Z V) : bt_list m = [] <-> m = ∅.
Proof.
  split; [|by intros ->]. intros H. apply map_empty. intros k. destruct (m !! k) as [v|] eqn:Hk; [|done].
  apply elem_of_bt_list in Hk. rewrite H in Hk. by apply not_elem_of_nil in Hk.
Qed.

(** C20. Membership proofs are complete, for every tree that insertions and
    deletions can build. For transfers with different hashes
    that are all in the tree [get_membership_proof] returns a proof that holds
    exactly these transfers, in the order of their hashes, and [verify] accepts
    it for the root of the tree, without reading outside of its arrays. When a
    transfer is missing from the tree there is no proof. *)
Theorem membership_proof_verifies {HK : KeccakLaws K} t values (Ht : reachable t) (Hnd : NoDup (keccak256 <$> values)) :
  (Forall (fun v => is_Some (leaves t !! keccak256 v)) values ->
     exists p, get_membership_proof t values = Ok p /\ verify p (root t) = Ok true /\ Permutation (proof_leaves p) values) /\
  (~ Forall (fun v => is_Some (leaves t !! keccak256 v)) values -> get_membership_proof t values = Err NotInTree).
Proof.
  pose proof (proj1 (reachable_ok t Ht)) as Hwf. set (wanted := list_to_set (keccak256 <$> sort_by keccak256 values) : gset KeccakHash).
  assert (Permutation (sort_by keccak256 values) values) as Hperm by apply sort_by_perm.
  assert (forallb (fun h => bool_decide (is_Some (leaves t !! h))) (elements wanted) = true <->
    Forall (fun v => is_Some (leaves t !! keccak256 v)) values) as Hall.
  { rewrite forallb_forall. setoid_rewrite <- list_elem_of_In. setoid_rewrite elem_of_elements. unfold wanted.
    setoid_rewrite elem_of_list_to_set. setoid_rewrite bool_decide_eq_true. rewrite list.Forall_forall. setoid_rewrite Hperm.
    split; [intros H v Hv; apply H, list_elem_of_fmap; eauto|]. intros H h (v & -> & Hv)%list_elem_of_fmap. by apply H. }
  unfold get_membership_proof. fold wanted. split; intros Hin.
  2: { destruct (forallb _ _); [|done]. by destruct Hin; apply Hall. }
  rewrite (proj2 Hall Hin). pose proof (wanted_leaves t values Hnd Hin) as Hw. fold wanted in Hw.
  set (ns := (fun h => if bool_decide (h ∈ wanted) then OnPath h else OffPath h) <$> leaf_hashes t).
  assert (on_path ns = keccak256 <$> sort_by keccak256 values) as Hon by (unfold ns; by rewrite on_path_filter).
  assert (value <$> ns = leaf_hashes t) as Hval.
  { unfold ns. rewrite <- list_fmap_compose. rewrite <- (list_fmap_id (leaf_hashes t)) at 2. apply list_fmap_ext. intros ? h _. cbn. by case_bool_decide. }
  assert (Datatypes.length ns = Datatypes.length (leaf_hashes t)) as Hlen by (unfold ns; apply length_fmap).
  destruct (decide (ns = [])) as [Hns|Hns].
  { rewrite Hns in Hon, Hlen |- *. cbn in Hlen. symmetry in Hon. apply fmap_nil_inv in Hon. rewrite Hon in *. cbn.
    eexists. split; [done|]. split; [|by apply Permutation_nil_l in Hperm as ->]. unfold verify. cbn. by rewrite bool_decide_true. }
  pose proof (qrun_tree ns Hns) as Hq. destruct (proof_loop (Datatypes.length ns) ns POOL_ROOT_PREFIX_LEAF) as [pf fs].
  destruct Hq as (n & Hroot & Hn & Hq). rewrite Hval in Hroot. unfold tree_wf, compute_root in Hwf. rewrite <- Hlen, Hroot in Hwf. cbn in Hwf.
  match goal with |- context [if ?b then ?x else pf] => set (pf' := if b then x else pf) end. exists (mkProof pf' (sort_by keccak256 values) fs). split; [done|]. split; [|exact Hperm].
  destruct (decide (sort_by keccak256 values = [])) as [Hv|Hv].
  - rewrite Hv in Hon. pose proof (proj2 Hn Hon) as Hn'. assert (fs = [] /\ pf = []) as [-> ->].
    { destruct Hq as [(_ & -> & ->)|Hq]; [done|]. rewrite Hon, Hn' in Hq. destruct fs; [|done]. cbn in Hq. by injection Hq as <-. }
    unfold pf', verify. rewrite Hv. cbn. by rewrite bool_decide_true.
  - assert (exists h, n = OnPath h) as [h ->].
    { destruct n as [h|h]; [by exists h|]. destruct Hv. apply fmap_nil_inv with (f := keccak256). rewrite <- Hon. by apply Hn. }
    assert (pf' = pf) as ->. { unfold pf'. rewrite (bool_decide_false (sort_by keccak256 values = [])) by done. by rewrite andb_false_r. }
    destruct Hq as [(Hone & -> & ->)|Hq].
    + rewrite Hone in Hon. cbn in Hon. destruct (sort_by keccak256 values) as [|v [|v' vs]]; [done| |done].
      unfold verify. cbn. injection Hon as Hon. rewrite Hwf, <- Hon. by rewrite bool_decide_true.
    + rewrite Hwf. apply verify_qrun; cbn [flags proof proof_leaves value]; [|by rewrite <- Hon].
      intros ->. rewrite Hon in Hq. destruct (sort_by keccak256 values); [done|]. done.
Qed.
End levels.

(** ** Soundness of proofs *)
Section soundness.
Context {K : Keccak} {HK : KeccakLaws K}.

Lemma hash_bytes_length h : Datatypes.length (hash_bytes h) = 32%nat.
Proof. apply to_be_bytes_length. Qed.
Lemma hash_bytes_inj h h' : in_hash h -> in_hash h' -> hash_bytes h = hash_bytes h' -> h = h'.
Proof.
  intros Hh Hh' He. rewrite <- (from_to_be_bytes 32 h), <- (from_to_be_bytes 32 h') by done. by unfold hash_bytes in He; rewrite He.
Qed.
Lemma pair_buffer_inj l r p a b q : in_hash l -> in_hash r -> in_hash a -> in_hash b ->
  pair_buffer l r p = pair_buffer a b q -> p = q /\ (l = a /\ r = b \/ l = b /\ r = a).
Proof.
  intros Hl Hr Ha Hb Heq. assert (p = q) as <- by exact (f_equal (hd 0) Heq). split; [done|].
  apply (f_equal (@tl _)) in Heq. unfold pair_buffer in Heq; cbn [tl] in Heq.
  destruct (l <? r), (a <? b); apply app_inj_1 in Heq as [H1 H2]; try (by rewrite !hash_bytes_length);
    apply hash_bytes_inj in H1; try done; apply hash_bytes_inj in H2; auto.
Qed.
Lemma hash_pair_range l r p : in_hash (hash_pair l r p).
Proof. apply keccak_hash_range. Qed.

(** The buffers hashed to compute a root *)
Fixpoint level_buffers (prefix : Z) (hashes : list KeccakHash) : list bytes :=
  match hashes with
  | [] => []
  | [l] => [pair_buffer l 0 prefix]
  | l :: r :: rest => pair_buffer l r prefix :: level_buffers prefix rest
  end.
Fixpoint tree_buffers (fuel : nat) (hashes : list KeccakHash) (prefix : Z) : list bytes :=
  match fuel with
  | O => []
  | S fuel' =>
      if (1 <? Datatypes.length hashes)%nat
      then level_buffers prefix hashes ++ tree_buffers fuel' (next_level prefix hashes) POOL_ROOT_PREFIX_NON_LEAF
      else []
  end.
Definition root_buffers (t : BridgePoolTree) : list bytes :=
  tree_buffers (Datatypes.length (leaf_hashes t)) (leaf_hashes t) POOL_ROOT_PREFIX_LEAF.

(** The buffers hashed by [verify] *)
Fixpoint loop_buffers (p : BridgePoolProof) (i : nat) (fs : list bool) (s : VerifyState) : list bytes :=
  match fs with
  | [] => []
  | flag :: fs' =>
      match operands p flag s with
      | Ok (l, r, prefix, s') =>
          pair_buffer l r prefix ::
          loop_buffers p (S i) fs' (mkVS (<[i := hash_pair l r prefix]> (hashes s')) (hash_pos s') (leaf_pos s') (proof_pos s'))
      | _ => []
      end
  end.
Definition verify_buffers (p : BridgePoolProof) : list bytes :=
  loop_buffers p 0 (flags p) (mkVS (replicate (Datatypes.length (flags p)) 0) 0 0 0).

(** The same buffers, along a run of the queue *)
Fixpoint qbuffers (lq hq pf : list KeccakHash) (fs : list bool) : list bytes :=
  match fs with
  | [] => []
  | f :: fs' =>
      default []
        ('(l, prefix, lq, hq) ← pop lq hq;
         '(r, lq, hq, pf) ← (if (f : bool) then '(h, _, lq, hq) ← pop lq hq; Some (h, lq, hq, pf)
                              else match pf with h :: pf' => Some (h, lq, hq, pf') | [] => None end);
         Some (pair_buffer l r prefix :: qbuffers lq (hq ++ [hash_pair l r prefix]) pf fs'))
  end.

(** The hash function fails on the given inputs: two of the buffers have one hash *)
Definition collision (bs : list bytes) : Prop :=
  exists b1 b2, b1 ∈ bs /\ b2 ∈ bs /\ b1 <> b2 /\ keccak_hash b1 = keccak_hash b2.
(** The hash of a buffer is zero, or that of a transfer (a leaf of the tree or
    of the proof), or one of these is zero *)
Definition confusion (bs : list bytes) (hs : list KeccakHash) : Prop :=
  (exists b, b ∈ bs /\ (keccak_hash b = 0 \/ keccak_hash b ∈ hs)) \/ 0 ∈ hs.
Definition broken (bs : list bytes) (hs : list KeccakHash) : Prop := collision bs \/ confusion bs hs.

(** The levels of a tree; the prefix is the one its pairs are hashed with *)
Inductive level (l0 : list KeccakHash) : Z -> list KeccakHash -> Prop :=
| level_leaf : level l0 POOL_ROOT_PREFIX_LEAF l0
| level_up p l : level l0 p l -> (1 < Datatypes.length l)%nat -> level l0 POOL_ROOT_PREFIX_NON_LEAF (next_level p l).
Definition inner (l0 : list KeccakHash) (v : KeccakHash) : Prop :=
  exists p l, level l0 p l /\ (1 < Datatypes.length l)%nat /\ v ∈ next_level p l.

Lemma next_level_elem p l v : v ∈ next_level p l ->
  exists a b, v = hash_pair a b p /\ pair_buffer a b p ∈ level_buffers p l /\ a ∈ l /\ (b ∈ l \/ b = 0).
Proof.
  induction l as [|x|x y l IH] using pairs_ind; cbn [next_level level_buffers]; [by intros ?%not_elem_of_nil|..].
  - intros ->%list_elem_of_singleton. exists x, 0. split_and!; [done|by left|by left|by right].
  - intros [->|Hv]%elem_of_cons; [exists x, y; split_and!; [done|by left|by left|left; by right; left]|].
    destruct (IH Hv) as (a & b & -> & Hp & Ha & Hb). exists a, b. split_and!; [done|by right|by do 2 right|].
    destruct Hb as [Hb| ->]; [left; by do 2 right|by right].
Qed.

(** The buffers of all levels were hashed *)
Lemma level_tree_buffers l0 p l : level l0 p l -> exists fuel, (Datatypes.length l <= S fuel)%nat /\
  tree_buffers fuel l p ⊆ tree_buffers (Datatypes.length l0) l0 POOL_ROOT_PREFIX_LEAF.
Proof.
  induction 1 as [|p l Hl (fuel & Hf & IH) H1]; [exists (Datatypes.length l0); split; [lia|done]|].
  destruct fuel as [|fuel]; [lia|]. exists fuel. destruct (next_level_length p l) as [Hn _]. split; [lia|].
  cbn [tree_buffers] in IH. rewrite (proj2 (Nat.ltb_lt _ _)) in IH by done. intros b Hb. apply IH, elem_of_app. by right.
Qed.
Lemma level_buffers_tree l0 p l : level l0 p l -> (1 < Datatypes.length l)%nat ->
  level_buffers p l ⊆ tree_buffers (Datatypes.length l0) l0 POOL_ROOT_PREFIX_LEAF.
Proof.
  intros Hl H1. destruct (level_tree_buffers _ _ _ Hl) as (fuel & Hf & Hs). destruct fuel as [|fuel]; [lia|].
  cbn [tree_buffers] in Hs. rewrite (proj2 (Nat.ltb_lt _ _)) in Hs by done. intros b Hb. apply Hs, elem_of_app. by left.
Qed.

(** Values of a level are leaves or inner nodes *)
Lemma level_elem l0 p l x : level l0 p l -> x ∈ l -> p = POOL_ROOT_PREFIX_LEAF /\ x ∈ l0 \/ p = POOL_ROOT_PREFIX_NON_LEAF /\ inner l0 x.
Proof.
  destruct 1 as [|p l Hl H1]; intros Hx; [by left|]. right. split; [done|]. by exists p, l.
Qed.

Section tree_of.
Context (l0 : list KeccakHash) (Hr0 : Forall in_hash l0).
Context (bs : list bytes) (Hbs : tree_buffers (Datatypes.length l0) l0 POOL_ROOT_PREFIX_LEAF ⊆ bs).
Context (hs : list KeccakHash) (Hs : l0 ⊆ hs).

(** Hashes of the buffers *)
Definition computed (h : KeccakHash) : Prop := exists b, b ∈ bs /\ keccak_hash b = h.
Lemma computed_hash h : computed h -> in_hash h.
Proof using HK. intros (b & _ & <-). apply keccak_hash_range. Qed.
Lemma computed_broken h : computed h -> h = 0 \/ h ∈ hs -> broken bs hs.
Proof. intros (b & Hb & <-) H. right. left. by exists b. Qed.
Lemma computed_pair l r p : pair_buffer l r p ∈ bs -> computed (hash_pair l r p).
Proof. intros H. by exists (pair_buffer l r p). Qed.

Lemma hash_pair_inj l r p a b q : in_hash l -> in_hash r -> in_hash a -> in_hash b ->
  pair_buffer l r p ∈ bs -> pair_buffer a b q ∈ bs ->
  hash_pair l r p = hash_pair a b q -> (p = q /\ (l = a /\ r = b \/ l = b /\ r = a)) \/ collision bs.
Proof.
  intros Hl Hr Ha Hb H1 H2 He. destruct (decide (pair_buffer l r p = pair_buffer a b q)) as [Heq|Hne].
  - left. by apply pair_buffer_inj.
  - right. by exists (pair_buffer l r p), (pair_buffer a b q).
Qed.

Lemma inner_computed v : inner l0 v -> computed v.
Proof using Hbs.
  intros (p & l & Hl & H1 & (a & b & -> & Hb & _)%next_level_elem). apply computed_pair, Hbs. by apply (level_buffers_tree _ _ _ Hl H1).
Qed.
Lemma level_range p l x : level l0 p l -> x ∈ l -> in_hash x.
Proof using HK Hr0 Hbs.
  intros Hl Hx. destruct (level_elem _ _ _ _ Hl Hx) as [[_ Hx0]|[_ Hi]]; [|by apply computed_hash, inner_computed].
  rewrite list.Forall_forall in Hr0. by apply Hr0.
Qed.

(** The values that the tree has under prefix [p] *)
Definition child (p : Z) (x : KeccakHash) : Prop :=
  x = 0 \/ (p = POOL_ROOT_PREFIX_LEAF /\ x ∈ l0) \/ (p = POOL_ROOT_PREFIX_NON_LEAF /\ inner l0 x).

(** The two values under an inner node *)
Lemma inner_children v l r p : inner l0 v -> v = hash_pair l r p -> in_hash l -> in_hash r -> pair_buffer l r p ∈ bs ->
  broken bs hs \/ (child p l /\ child p r).
Proof using HK Hr0 Hbs.
  intros (q & lv & Hlv & H1 & (a & b & -> & Hbuf & Ha & Hb)%next_level_elem) Heq Hl Hr Hin.
  assert (in_hash b) as Hbr by (destruct Hb as [Hb| ->]; [by eapply level_range|unfold in_hash; lia]).
  destruct (hash_pair_inj a b q l r p) as [[<- Hlr]|Hc]; [by eapply level_range|done..| |done|done| |by left; left].
  { apply Hbs. by apply (level_buffers_tree _ _ _ Hlv H1). }
  right. assert (child q a) as Ha' by (right; by apply (level_elem l0 q lv)).
  assert (child q b) as Hb'. { destruct Hb as [Hb| ->]; [right; by apply (level_elem l0 q lv)|by left]. }
  by destruct Hlr as [[<- <-]|[<- <-]].
Qed.

(** Read backwards, a run that ends in inner nodes started from leaves of the
    tree and inner nodes *)
Definition sane (lq hq pf : list KeccakHash) : Prop :=
  Forall in_hash lq /\ lq ⊆ hs /\ Forall computed hq /\ Forall in_hash pf.
Definition genuine (lq hq : list KeccakHash) : Prop := Forall (fun h => h ∈ l0) lq /\ Forall (inner l0) hq.

Lemma pop_sane lq hq pf x pre lq1 hq1 : pop lq hq = Some (x, pre, lq1, hq1) -> sane lq hq pf ->
  in_hash x /\ sane lq1 hq1 pf.
Proof using HK.
  intros Hpop (H1 & H2 & H3 & H4). destruct lq as [|l lq]; [destruct hq as [|h hq]; [done|]|]; injection Hpop as <- <- <- <-.
  - inversion_clear H3. split; [by apply computed_hash|]. by split_and!.
  - inversion_clear H1. split; [done|]. split_and!; try done. intros y Hy. apply H2. by right.
Qed.

Lemma pop_genuine lq hq pf x pre lq1 hq1 p : pop lq hq = Some (x, pre, lq1, hq1) -> sane lq hq pf ->
  p = POOL_ROOT_PREFIX_LEAF \/ p = POOL_ROOT_PREFIX_NON_LEAF /\ lq = [] -> child p x ->
  broken bs hs \/ (genuine lq1 hq1 -> genuine lq hq).
Proof using Hs.
  intros Hpop (H1 & H2 & H3 & H4) Hp Hx. destruct lq as [|l lq]; [destruct hq as [|h hq]; [done|]|]; injection Hpop as <- <- <- <-.
  - inversion_clear H3 as [|? ? Hc _]. destruct Hx as [->|[[_ Hx]|[_ Hx]]]; [left; eapply computed_broken; eauto..|].
    right. intros [? ?]. split; [done|]. by constructor.
  - destruct Hp as [->|[_ Hp]]; [|done]. destruct Hx as [->|[[_ Hx]|[Hx _]]]; [|..|done].
    + left. right. right. apply H2. by left.
    + right. intros [? ?]. split; [by constructor|done].
Qed.

Lemma pop_prefix lq hq x pre lq1 hq1 : pop lq hq = Some (x, pre, lq1, hq1) ->
  pre = POOL_ROOT_PREFIX_LEAF \/ pre = POOL_ROOT_PREFIX_NON_LEAF /\ lq = [] /\ lq1 = [].
Proof. destruct lq, hq; intros [= <- <- <- <-]; auto. Qed.

Lemma qrun_sound fs : forall lq hq pf hq' pf', qrun lq hq pf fs = Some ([], hq', pf') ->
  Forall (inner l0) hq' -> sane lq hq pf -> qbuffers lq hq pf fs ⊆ bs -> broken bs hs \/ genuine lq hq.
Proof using HK Hr0 Hbs Hs.
  induction fs as [|f fs IH]; intros lq hq pf hq' pf' Hq Hin Hsane Hb; cbn [qrun qbuffers] in Hq, Hb.
  { injection Hq as -> -> ->. by right. }
  destruct (pop lq hq) as [[[[l pre] lq1] hq1]|] eqn:H1; cbn [mbind option_bind] in Hq, Hb; [|done].
  pose proof (pop_prefix _ _ _ _ _ _ H1) as Hpre. destruct (pop_sane _ _ _ _ _ _ _ H1 Hsane) as [Hl Hsane1].
  assert (forall r lq2 hq2 pf2, in_hash r -> sane lq2 hq2 pf2 ->
    qrun lq2 (hq2 ++ [hash_pair l r pre]) pf2 fs = Some ([], hq', pf') ->
    pair_buffer l r pre :: qbuffers lq2 (hq2 ++ [hash_pair l r pre]) pf2 fs ⊆ bs ->
    broken bs hs \/ (genuine lq2 hq2 /\ child pre l /\ child pre r)) as Hgo.
  { intros r lq2 hq2 pf2 Hr (G1 & G2 & G3 & G4) Hrun Hb2. assert (pair_buffer l r pre ∈ bs) as Hin2 by (apply Hb2; by left).
    destruct (IH _ _ _ _ _ Hrun Hin) as [?|[Ha Hi]]; [| |by left|].
    - split_and!; try done. apply Forall_app. split; [done|]. constructor; [by apply computed_pair|constructor].
    - intros b Hbin. apply Hb2. by right.
    - apply Forall_app in Hi as [Hi Hv]. inversion_clear Hv as [|? ? Hv' _].
      destruct (inner_children _ l r pre Hv' eq_refl Hl Hr Hin2) as [?|[? ?]]; [by left|]. right. by split_and!. }
  assert (pre = POOL_ROOT_PREFIX_LEAF \/ pre = POOL_ROOT_PREFIX_NON_LEAF /\ lq = []) as Hp1 by tauto.
  assert (pre = POOL_ROOT_PREFIX_LEAF \/ pre = POOL_ROOT_PREFIX_NON_LEAF /\ lq1 = []) as Hp2 by tauto.
  destruct f.
  - destruct (pop lq1 hq1) as [[[[r pre'] lq2] hq2]|] eqn:H2; cbn [mbind option_bind default] in Hq, Hb; [|done].
    destruct (pop_sane _ _ _ _ _ _ _ H2 Hsane1) as [Hr Hsane2].
    destruct (Hgo r lq2 hq2 pf Hr Hsane2 Hq Hb) as [?|(Hg & Hcl & Hcr)]; [by left|].
    destruct (pop_genuine _ _ _ _ _ _ _ _ H2 Hsane1 Hp2 Hcr) as [?|Hg1]; [by left|].
    destruct (pop_genuine _ _ _ _ _ _ _ _ H1 Hsane Hp1 Hcl) as [?|Hg2]; [by left|]. right. auto.
  - destruct pf as [|r pf]; [done|]. cbn [mbind option_bind default] in Hq, Hb. destruct Hsane1 as (G1 & G2 & G3 & G4).
    inversion_clear G4 as [|? ? Hr G4']. destruct (Hgo r lq1 hq1 pf Hr) as [?|(Hg & Hcl & _)]; [by split_and!|done|done|by left|].
    destruct (pop_genuine _ _ _ _ _ _ _ _ H1 Hsane Hp1 Hcl) as [?|Hg2]; [by left|]. right. auto.
Qed.
Lemma pop_computed lq hq x pre lq1 hq1 : pop lq hq = Some (x, pre, lq1, hq1) -> Forall computed hq -> Forall computed hq1.
Proof. destruct lq, hq; intros [= <- <- <- <-]; try done. by inversion_clear 1. Qed.
Lemma qrun_computed fs : forall lq hq pf lq' hq' pf', qrun lq hq pf fs = Some (lq', hq', pf') -> qbuffers lq hq pf fs ⊆ bs ->
  Forall computed hq -> forall h, h ∈ hq' -> computed h.
Proof.
  induction fs as [|f fs IH]; intros lq hq pf lq' hq' pf' Hq Hb Hc; cbn [qrun qbuffers] in Hq, Hb.
  { injection Hq as <- <- <-. by apply list.Forall_forall. }
  destruct (pop lq hq) as [[[[l pre] lq1] hq1]|] eqn:H1; cbn [mbind option_bind] in Hq, Hb; [|done].
  pose proof (pop_computed _ _ _ _ _ _ H1 Hc) as Hc1.
  assert (forall r lq2 hq2 pf2, qrun lq2 (hq2 ++ [hash_pair l r pre]) pf2 fs = Some (lq', hq', pf') -> Forall computed hq2 ->
    pair_buffer l r pre :: qbuffers lq2 (hq2 ++ [hash_pair l r pre]) pf2 fs ⊆ bs -> forall h, h ∈ hq' -> computed h) as Hs'.
  { intros r lq2 hq2 pf2 Hr Hc2 Hb2. eapply IH; [exact Hr|intros x Hx; apply Hb2; by right|].
    apply Forall_app. split; [done|]. constructor; [apply computed_pair, Hb2; by left|constructor]. }
  destruct f.
  - destruct (pop lq1 hq1) as [[[[r pre'] lq2] hq2]|] eqn:H2; cbn [mbind option_bind default] in Hq, Hb; [|done].
    eapply Hs'; [exact Hq|by eapply pop_computed|done].
  - destruct pf as [|r pf]; cbn [mbind option_bind default] in Hq, Hb; [done|]. by eapply Hs'.
Qed.
(** The root is not a hash of zero *)
Lemma zero_child_broken q a b l r p x : level l0 q [a; b] -> pair_buffer l r p ∈ bs -> l = 0 /\ r = x \/ l = x /\ r = 0 -> in_hash x ->
  hash_pair l r p = hash_pair a b q -> broken bs hs.
Proof using HK Hr0 Hbs Hs.
  intros Hl Hb Hlr Hx He. assert (in_hash 0) as H0 by (unfold in_hash; lia).
  assert (forall y, y ∈ [a; b] -> y = 0 -> broken bs hs) as Hnz.
  { intros y Hy ->. destruct (level_elem _ _ _ _ Hl Hy) as [[_ Hz]|[_ Hi]]; [right; right; by apply Hs|].
    eapply computed_broken; [by apply inner_computed|by left]. }
  destruct (hash_pair_inj l r p a b q) as [[_ Hab]|?]; [| |by eapply level_range; [exact Hl|set_solver]..|done| |done| |by left].
  - by destruct Hlr as [[-> ->]|[-> ->]].
  - by destruct Hlr as [[-> ->]|[-> ->]].
  - apply Hbs, (level_buffers_tree _ _ _ Hl); [cbn; lia|by left].
  - destruct Hlr as [[-> _]|[_ ->]], Hab as [[? ?]|[? ?]]; (eapply Hnz; [|symmetry; eassumption]; set_solver).
Qed.
End tree_of.

(** The root of a tree of several leaves is an inner node, and both values under
    it are in the tree *)
Lemma root_loop_inner l0 fuel : forall p l, level l0 p l -> (1 < Datatypes.length l)%nat -> (Datatypes.length l <= S fuel)%nat ->
  exists q a b, level l0 q [a; b] /\ root_loop fuel l p = [hash_pair a b q].
Proof.
  induction fuel as [|fuel IH]; intros p l Hl H1 Hf; [lia|]. cbn [root_loop]. rewrite (proj2 (Nat.ltb_lt _ _)) by done.
  destruct (next_level_length p l) as [Hn _]. destruct (decide (Datatypes.length l = 2%nat)) as [H2|H2].
  - destruct l as [|a [|b [|c l]]]; try done. exists p, a, b. split; [done|]. cbn [next_level]. by destruct fuel.
  - apply IH; [by constructor| |lia]. destruct l as [|a [|b [|c [|d l]]]]; cbn in *; try lia.
Qed.

(** ** What an accepted proof computed

    A proof whose flags ask for more nodes than it has reads entries of the array
    that are still zero, and so do all later steps. *)
Definition clean (i : nat) (s : VerifyState) : Prop :=
  Forall in_hash (hashes s) /\ forall j x, (i <= j)%nat -> hashes s !! j = Some x -> x = 0.
Definition dry (p : BridgePoolProof) (i : nat) (s : VerifyState) : Prop :=
  (Datatypes.length (proof_leaves p) <= leaf_pos s)%nat /\ (i <= hash_pos s)%nat /\ clean i s.
(** The last hash was of zero and another hash *)
Definition zero_pair (bs : list bytes) (s : VerifyState) : Prop :=
  exists x q l r, list.last (hashes s) = Some (hash_pair l r q) /\ pair_buffer l r q ∈ bs /\ (l = 0 /\ r = x \/ l = x /\ r = 0) /\ in_hash x.

Lemma zero_pair_mono bs bs' s : zero_pair bs s -> bs ⊆ bs' -> zero_pair bs' s.
Proof. intros (x & q & l & r & H1 & H2 & H3) Hb. exists x, q, l, r. auto. Qed.
Lemma clean_insert i s v hp lp pp : clean i s -> in_hash v -> clean (S i) (mkVS (<[i := v]> (hashes s)) hp lp pp).
Proof.
  intros [H1 H2] Hv. split; cbn [hashes]; [by apply Forall_insert|]. intros j x Hj. rewrite list_lookup_insert_ne by lia. apply H2. lia.
Qed.
Lemma last_insert_at {A} (l : list A) i v : S i = Datatypes.length l -> list.last (<[i := v]> l) = Some v.
Proof. intros H. rewrite last_lookup, length_insert, <- H. apply list_lookup_insert_eq. lia. Qed.

(** A node read from the array *)
Lemma next_node_dry p i s l pre s' : dry p i s -> next_node p s = Ok (l, pre, s') ->
  l = 0 /\ hashes s' = hashes s /\ leaf_pos s' = leaf_pos s /\ hash_pos s' = S (hash_pos s).
Proof.
  intros (Hl & Hh & Hc) Hn. unfold next_node in Hn. destruct (Nat.ltb_spec (leaf_pos s) (Datatypes.length (proof_leaves p))); [lia|].
  destruct (hashes s !! hash_pos s) as [x|] eqn:Hx; cbn [unwrap out_bind] in Hn; [|done]. injection Hn as <- <- <-.
  split; [|done]. eapply Hc; [|exact Hx]. done.
Qed.
Lemma next_node_range p s l pre s' : Forall in_hash (hashes s) -> next_node p s = Ok (l, pre, s') ->
  in_hash l /\ hashes s' = hashes s /\ (leaf_pos s <= leaf_pos s' /\ hash_pos s <= hash_pos s')%nat.
Proof using HK.
  intros Hr. unfold next_node. destruct (_ <? _)%nat.
  - destruct (proof_leaves p !! leaf_pos s) as [t|]; cbn [unwrap out_bind]; [|done]. intros [= <- <- <-]. cbn.
    split_and!; try done; [apply keccak256_range|lia].
  - destruct (hashes s !! hash_pos s) as [x|] eqn:Hx; cbn [unwrap out_bind]; [|done]. intros [= <- <- <-]. cbn.
    split_and!; try done; [rewrite Forall_lookup in Hr; by eapply Hr|lia].
Qed.

(** The operands of a step in the dry state *)
Lemma operands_dry p i f s l r pre s' : Forall in_hash (proof p) -> dry p i s -> operands p f s = Ok (l, r, pre, s') ->
  l = 0 /\ in_hash r /\ hashes s' = hashes s /\ (Datatypes.length (proof_leaves p) <= leaf_pos s' /\ S i <= hash_pos s')%nat.
Proof using HK.
  intros Hp Hd H. unfold operands in H. destruct (next_node p s) as [[[l0 q] s1]| |] eqn:E; cbn [out_bind] in H; [|done..].
  destruct (next_node_dry _ _ _ _ _ _ Hd E) as (-> & Hh & Hlp & Hhp). destruct Hd as (H1 & H2 & H3). destruct f.
  - destruct (next_node p s1) as [[[r0 q'] s2]| |] eqn:E2; cbn [out_bind] in H; [|done..]. injection H as <- <- <- <-.
    apply next_node_range in E2 as (Hr & Hh2 & ? & ?); [|rewrite Hh; apply H3]. split_and!; [done|done|by rewrite Hh2|lia..].
  - destruct (proof p !! proof_pos s1) as [h|] eqn:E2; cbn [unwrap out_bind] in H; [|done]. injection H as <- <- <- <-. cbn.
    split_and!; [done| |done|lia..]. rewrite Forall_lookup in Hp. by eapply Hp.
Qed.
Lemma verify_loop_dry p fs : Forall in_hash (proof p) -> forall i s s', dry p i s -> verify_loop p i fs s = Ok s' ->
  (i + Datatypes.length fs)%nat = Datatypes.length (hashes s) -> fs = [] /\ s' = s \/ zero_pair (loop_buffers p i fs s) s'.
Proof using HK.
  intros Hp. induction fs as [|f fs IH]; intros i s s' Hd Hv Hlen; cbn [verify_loop loop_buffers] in *; [injection Hv as <-; by left|].
  right. unfold verify_step in Hv. destruct (operands p f s) as [[[[l r] pre] s1]| |] eqn:E; cbn [out_bind] in Hv; [|done..].
  destruct (operands_dry _ _ _ _ _ _ _ _ Hp Hd E) as (-> & Hr & Hh & Hl1 & Hh1). destruct Hd as (H1 & H2 & H3). cbn in Hlen.
  set (s2 := mkVS _ _ _ _) in *. destruct (IH (S i) s2 s') as [[-> ->]|Hz]; [|done|unfold s2; cbn; rewrite length_insert, Hh; lia|..].
  - split_and!; cbn; [lia..|]. apply (clean_insert i s1); [unfold clean; by rewrite Hh|apply hash_pair_range].
  - exists r, pre, 0, r. split_and!; [|by left|by left|done]. apply last_insert_at. rewrite Hh. cbn in Hlen. lia.
  - eapply zero_pair_mono; [exact Hz|]. intros b Hb. by right.
Qed.

(** A loop that ends well is a run of the queue, or ends in a pair with zero *)
Lemma next_node_none p i s lq hq pf : at_step p i s lq hq pf -> clean i s -> pop lq hq = None -> dry p i s.
Proof.
  intros (Hl & Hh & Hp & Hi & Hpos) Hc Hpop. destruct lq; [|done]. destruct hq; [|done].
  apply (f_equal (@Datatypes.length _)) in Hl, Hh. rewrite length_drop, length_fmap in Hl. rewrite length_drop, length_take in Hh.
  cbn in *. split_and!; [lia..|done].
Qed.

Lemma verify_loop_inv p fs : Forall in_hash (proof p) -> forall i s lq hq pf s', at_step p i s lq hq pf -> clean i s ->
  (i + Datatypes.length fs)%nat = Datatypes.length (hashes s) -> verify_loop p i fs s = Ok s' ->
  zero_pair (loop_buffers p i fs s) s' \/
  is_Some (qrun lq hq pf fs) /\ qbuffers lq hq pf fs = loop_buffers p i fs s.
Proof using HK.
  intros Hp. induction fs as [|f fs IH]; intros i s lq hq pf s' Hs Hc Hlen Hv; [right; by split; [eexists|]|].
  destruct (pop lq hq) as [[[[l pre] lq1] hq1]|] eqn:H1.
  2: { left. pose proof (next_node_none _ _ _ _ _ _ Hs Hc H1) as Hd. by destruct (verify_loop_dry p (f :: fs) Hp i s s' Hd Hv Hlen) as [[? _]|?]. }
  cbn [verify_loop qrun qbuffers loop_buffers] in *. rewrite H1. cbn [mbind option_bind].
  destruct (next_node_pop _ _ _ _ _ _ _ _ _ _ Hs H1) as (s1 & Hn1 & Hs1 & Hh1).
  assert (in_hash l) as Hl by (eapply next_node_range; [apply Hc|exact Hn1]).
  unfold verify_step, operands in *. rewrite Hn1 in *. cbn [out_bind] in *. cbn in Hlen.
  assert (clean i s1) as Hc1 by (unfold clean; by rewrite Hh1).
  assert (forall s2 r lq2 hq2 pf2, at_step p i s2 lq2 hq2 pf2 -> hashes s2 = hashes s ->
    let s3 := mkVS (<[i := hash_pair l r pre]> (hashes s2)) (hash_pos s2) (leaf_pos s2) (proof_pos s2) in
    let qb := qbuffers lq2 (hq2 ++ [hash_pair l r pre]) pf2 fs in
    verify_loop p (S i) fs s3 = Ok s' ->
    zero_pair (pair_buffer l r pre :: loop_buffers p (S i) fs s3) s' \/
    is_Some (qrun lq2 (hq2 ++ [hash_pair l r pre]) pf2 fs) /\ pair_buffer l r pre :: qb = pair_buffer l r pre :: loop_buffers p (S i) fs s3) as Hgo.
  { intros s2 r lq2 hq2 pf2 Hs2 Hh2 s3 qb Hv2. destruct (IH (S i) s3 lq2 (hq2 ++ [hash_pair l r pre]) pf2 s') as [Hz|[? Hq]].
    - apply (at_step_insert p i s2); [done|]. rewrite Hh2. lia.
    - apply (clean_insert i s2); [unfold clean; by rewrite Hh2|apply hash_pair_range].
    - cbn. rewrite length_insert, Hh2. lia.
    - done.
    - left. eapply zero_pair_mono; [exact Hz|]. intros b Hb. by right.
    - right. split; [done|]. unfold qb. by rewrite Hq. }
  destruct f.
  - destruct (pop lq1 hq1) as [[[[r pre'] lq2] hq2]|] eqn:H2; cbn [mbind option_bind default].
    + destruct (next_node_pop _ _ _ _ _ _ _ _ _ _ Hs1 H2) as (s2 & Hn2 & Hs2 & Hh2). rewrite Hn2 in *. cbn [out_bind] in *.
      by apply (Hgo s2); [..|by rewrite Hh2, Hh1|].
    + left. pose proof (next_node_none _ _ _ _ _ _ Hs1 Hc1 H2) as Hd.
      destruct (next_node p s1) as [[[r pre'] s2]| |] eqn:E; cbn [out_bind] in *; [|done..].
      pose proof (next_node_dry _ _ _ _ _ _ Hd E) as (-> & Hh2 & Hlp & Hhp).
      destruct Hd as (D1 & D2 & D3). match type of Hv with verify_loop _ _ _ ?s0 = _ => set (s3 := s0) in * end.
      destruct (verify_loop_dry p fs Hp (S i) s3 s') as [[-> ->]|Hz]; [|done|cbn; rewrite length_insert, Hh2, Hh1; lia|..].
      * split_and!; cbn; [lia..|]. apply (clean_insert i s2); [unfold clean; by rewrite Hh2|apply hash_pair_range].
      * exists l, pre, l, 0. split_and!; [|by left|by right|done]. apply last_insert_at. rewrite Hh2, Hh1. cbn in Hlen. lia.
      * eapply zero_pair_mono; [exact Hz|]. intros b Hb. by right.
  - destruct (proof p !! proof_pos s1) as [r|] eqn:Hr; cbn [unwrap out_bind] in *; [|done].
    pose proof Hs1 as (Ha & Hb & Hpf & Hd & He). rewrite (drop_S _ _ _ Hr) in Hpf. subst pf. cbn [mbind option_bind default].
    apply (Hgo (mkVS (hashes s1) (hash_pos s1) (leaf_pos s1) (S (proof_pos s1)))); [|done|exact Hv]. by split_and!.
Qed.

Lemma qrun_last fs : forall lq hq pf lq' hq' pf', fs <> [] -> qrun lq hq pf fs = Some (lq', hq', pf') -> exists x l, hq' = l ++ [x].
Proof.
  assert (forall fs lq hq pf v lq' hq' pf', qrun lq (hq ++ [v]) pf fs = Some (lq', hq', pf') -> exists x l, hq' = l ++ [x]) as H.
  { induction fs0 as [|f fs0 IH]; intros lq hq pf v lq' hq' pf' Hq; cbn [qrun] in Hq; [injection Hq as <- <- <-; by eexists _, _|].
    destruct (pop lq (hq ++ [v])) as [[[[l pre] lq1] hq1]|]; cbn [mbind option_bind] in Hq; [|done].
    match type of Hq with (mbind _ ?m) = _ => destruct m as [[[[r lq2] hq2] pf2]|]; cbn [mbind option_bind] in Hq; [|done] end.
    by eapply IH. }
  intros lq hq pf lq' hq' pf' Hf Hq. destruct fs as [|f fs]; [done|]. cbn [qrun] in Hq.
  destruct (pop lq hq) as [[[[l pre] lq1] hq1]|]; cbn [mbind option_bind] in Hq; [|done].
  match type of Hq with (mbind _ ?m) = _ => destruct m as [[[[r lq2] hq2] pf2]|]; cbn [mbind option_bind] in Hq; [|done] end.
  by eapply H.
Qed.

(** An accepted proof with flags *)
Lemma verify_inv p h : Forall in_hash (proof p) -> flags p <> [] -> verify p h = Ok true ->
  (exists x q l r, h = hash_pair l r q /\ pair_buffer l r q ∈ verify_buffers p /\ (l = 0 /\ r = x \/ l = x /\ r = 0) /\ in_hash x) \/
  qrun (keccak256 <$> proof_leaves p) [] (proof p) (flags p) = Some ([], [h], []) /\
  qbuffers (keccak256 <$> proof_leaves p) [] (proof p) (flags p) = verify_buffers p.
Proof using HK.
  intros Hp Hf. unfold verify. destruct (Nat.eqb_spec (Datatypes.length (proof p) + Datatypes.length (proof_leaves p))
    (Datatypes.length (flags p) + 1)) as [Hlen|]; [|done]. cbn [negb]. rewrite bool_decide_false by done. unfold verify_buffers.
  set (s0 := mkVS (replicate (Datatypes.length (flags p)) 0) 0 0 0).
  assert (at_step p 0 s0 (keccak256 <$> proof_leaves p) [] (proof p)) as Hs0 by (by split_and!; cbn; try lia).
  assert (Datatypes.length (hashes s0) = Datatypes.length (flags p)) as Hl0 by apply length_replicate.
  destruct (verify_loop p 0 (flags p) s0) as [s'| |] eqn:Hv; cbn [out_bind]; [intros Hok|done..].
  destruct (verify_loop_inv p (flags p) Hp 0 s0 _ _ _ s' Hs0) as [(x & q & l & r & Hl & Hx)|[[[[lq' hq'] pf'] Hq] Hqb]]; [|by rewrite Hl0|done|..].
  - split; cbn; [apply Forall_replicate; unfold in_hash; lia|]. by intros j x _ [-> _]%lookup_replicate.
  - rewrite Hl in Hok. injection Hok as <-%bool_decide_eq_true. left. by exists x, q, l, r.
  - right. split; [|done]. destruct (verify_loop_qrun p (flags p) 0 s0 _ _ _ _ _ _ Hs0 (eq_sym Hl0) Hq) as (s2 & Hv2 & Hs2).
    rewrite Hv in Hv2. injection Hv2 as <-. apply qrun_length in Hq as Hql. rewrite length_fmap in Hql. cbn in Hql.
    destruct (qrun_last _ _ _ _ _ _ _ Hf Hq) as (x & hq & ->). rewrite length_app in Hql. cbn in Hql.
    destruct lq'; [|cbn in Hql; lia]. destruct pf'; [|cbn in Hql; lia]. destruct hq; [|cbn in Hql; lia]. cbn [app] in *.
    destruct Hs2 as (_ & Hh & _). rewrite take_ge in Hh by done. rewrite <- (take_drop (hash_pos s') (hashes s')), <- Hh, last_snoc in Hok.
    by injection Hok as <-%bool_decide_eq_true.
Qed.

(** The root of a tree, by the number of its leaves *)
Lemma root_cases t : tree_wf t ->
  (exists q a b, level (leaf_hashes t) q [a; b] /\ root t = hash_pair a b q) \/
  root t = default 0 (head (leaf_hashes t)) /\ (Datatypes.length (leaf_hashes t) <= 1)%nat.
Proof.
  intros Hwf. set (l0 := leaf_hashes t).
  assert (root t = default 0 (head (root_loop (Datatypes.length l0) l0 POOL_ROOT_PREFIX_LEAF))) as Hr by exact Hwf.
  destruct (decide (1 < Datatypes.length l0)%nat) as [H1|H1].
  - left. destruct (root_loop_inner l0 (Datatypes.length l0) POOL_ROOT_PREFIX_LEAF l0) as (q & a & b & Hl & Hlp); [constructor|done|lia|].
    exists q, a, b. split; [done|]. by rewrite Hr, Hlp.
  - right. split; [rewrite Hr|lia]. destruct (Datatypes.length l0) eqn:E; cbn [root_loop]; [done|]. by rewrite (proj2 (Nat.ltb_ge _ _)) by lia.
Qed.

(** C10. Membership proofs are sound. Let [verify] accept a proof, with hashes of
    32 bytes, for the root of a tree that insertions and deletions can build. Then all transfers of the proof are leaves
    of the tree, or the values at hand break the hash function: among the buffers
    hashed for the root and by [verify] two different ones have one hash, or one
    hashes to zero or to the hash of a transfer of the tree or the proof, or a
    transfer hashes to zero. In particular neither the flags nor the order of a
    proof, nor one that makes [verify] read hashes it has not computed yet, can
    pass off a transfer. *)
Theorem membership_proof_sound t p (Ht : reachable t) (Hproof : Forall in_hash (proof p)) (Hok : verify p (root t) = Ok true) :
  Forall (fun v => is_Some (leaves t !! keccak256 v)) (proof_leaves p) \/
  broken (root_buffers t ++ verify_buffers p) (leaf_hashes t ++ (keccak256 <$> proof_leaves p)).
Proof.
  destruct (reachable_ok t Ht) as [Hwf Hrange]. pose proof (root_cases t Hwf) as Hroot.
  assert (Forall in_hash (leaf_hashes t)) as Hleaves by (apply list.Forall_forall; intros h Hh; by apply Hrange, elem_of_leaf_hashes). set (pl := keccak256 <$> proof_leaves p).
  assert (Forall (fun h => h ∈ leaf_hashes t) pl -> Forall (fun v => is_Some (leaves t !! keccak256 v)) (proof_leaves p)) as Hfin.
  { unfold pl. rewrite Forall_fmap. intros Hv. eapply Forall_impl; [exact Hv|]. intros v Hin. by apply elem_of_leaf_hashes. }
  unfold root_buffers. set (l0 := leaf_hashes t) in *. set (tb := tree_buffers _ l0 _). set (bs := tb ++ _). set (hs := l0 ++ pl).
  assert (tb ⊆ bs) as Hbs by (intros x Hx; apply elem_of_app; by left).
  assert (l0 ⊆ hs) as Hs by (intros x Hx; apply elem_of_app; by left).
  assert (verify_buffers p ⊆ bs) as Hvb by (intros x Hx; apply elem_of_app; by right).
  assert (computed bs (root t) -> (Datatypes.length l0 <= 1)%nat -> root t = default 0 (head l0) -> broken bs hs) as Hsmall.
  { intros Hc H1 Hr. eapply computed_broken; [exact Hc|]. rewrite Hr. destruct l0 as [|x l]; [by left|right]. apply Hs. by left. }
  assert (forall q a b, level l0 q [a; b] -> root t = hash_pair a b q -> inner l0 (root t)) as Hinner.
  { intros q a b Hl ->. exists q, [a; b]. split_and!; [done|cbn; lia|by left]. }
  destruct (decide (flags p = [])) as [Hf|Hf].
  - unfold verify in Hok. rewrite Hf in Hok. cbn in Hok.
    destruct (Nat.eqb_spec (Datatypes.length (proof p) + Datatypes.length (proof_leaves p)) 1) as [H1|]; cbn in Hok; [|done].
    destruct (proof_leaves p) as [|v vs] eqn:Hvs; [by left; constructor|]. destruct vs; [|cbn in H1; lia]. cbn in Hok.
    injection Hok as Hr%bool_decide_eq_true. assert (root t ∈ hs) as Hin by (rewrite Hr; apply elem_of_app; right; by left).
    destruct Hroot as [(q & a & b & Hl & Hr0)|[Hr0 Hl1]].
    + right. eapply computed_broken; [by eapply inner_computed, Hinner|by right].
    + destruct l0 as [|x l]; cbn in Hr0; [right; right; right; by rewrite <- Hr0|].
      left. apply Hfin. unfold pl. constructor; [|constructor]. rewrite <- Hr, Hr0. by left.
  - destruct (verify_inv p (root t) Hproof Hf Hok) as [(x & q & l & r & Hr & Hb%Hvb & Hlr & Hx)|[Hq Hqb]].
    + right. destruct Hroot as [(q' & a & b & Hl & Hr0)|[Hr0 Hl1]]; [|apply Hsmall; [rewrite Hr; by apply computed_pair|done..]].
      by apply (zero_child_broken l0 Hleaves bs Hbs hs Hs q' a b l r q x); [..|rewrite <- Hr0, Hr].
    + rewrite <- Hqb in Hvb. destruct Hroot as [(q & a & b & Hl & Hr0)|[Hr0 Hl1]].
      * destruct (qrun_sound l0 Hleaves bs Hbs hs Hs _ _ _ _ _ _ Hq) as [?|[Hg _]]; [..|done|by right|left; by apply Hfin].
        -- constructor; [by eapply Hinner|constructor].
        -- split_and!; try done; [|intros y Hy; apply elem_of_app; by right]. unfold pl. apply Forall_fmap, Forall_true. intros v. apply keccak256_range.
      * right. apply Hsmall; try done. by apply (qrun_computed bs _ _ _ _ _ _ _ Hq Hvb); [constructor|left].
Qed.
End soundness.

(** ** A concrete hash function *)
Module RefPool.
Definition hex_digit (c : ascii) : option Z :=
  let n := Z.of_N (N_of_ascii c) in
  if (48 <=? n) && (n <=? 57) then Some (n - 48)
  else if (65 <=? n) && (n <=? 70) then Some (n - 55) else None.
Fixpoint hex_decode (s : str) : option bytes :=
  match s with
  | [] => Some []
  | a :: b :: s' => x ← hex_digit a; y ← hex_digit b; bs ← hex_decode s'; Some (16 * x + y :: bs)
  | _ => None
  end.
Definition poly (bs : bytes) : Z := fold_left (fun a b => (a * 1000003 + b + 1) mod 256 ^ 32) bs 7.
#[export] Instance keccak : Keccak := {|
  keccak_hash := poly;
  PendingTransfer := Z;
  keccak256 := fun t => (t + 1) mod 256 ^ 32;
  hexupper_decode := hex_decode
|}.
Lemma poly_range bs : in_hash (poly bs).
Proof.
  unfold poly. assert (forall bs a, in_hash a -> in_hash (fold_left (fun a b => (a * 1000003 + b + 1) mod 256 ^ 32) bs a)) as H.
  { induction bs0 as [|b bs0 IH]; intros a Ha; [done|]. cbn [fold_left]. apply IH. unfold in_hash. apply Z.mod_pos_bound. lia. }
  apply H. unfold in_hash. lia.
Qed.
Lemma hex_digit_range c x : hex_digit c = Some x -> 0 <= x < 16.
Proof.
  unfold hex_digit. cbv zeta. set (n := Z.of_N _). intros H.
  destruct ((48 <=? n) && (n <=? 57)) eqn:E; [injection H as <-; lia|].
  destruct ((65 <=? n) && (n <=? 70)) eqn:E'; [injection H as <-; lia|done].
Qed.
#[export] Instance keccak_laws : KeccakLaws keccak.
Proof.
  split; [apply poly_range|intros t; apply Z.mod_pos_bound; lia|].
  intros s bs. cbn. revert bs. induction s as [|x|a b s IH] using pairs_ind; intros bs; cbn [hex_decode]; [by intros [= <-]|done|].
  destruct (hex_digit a) as [x|] eqn:Ha; cbn [mbind option_bind]; [|done]. destruct (hex_digit b) as [y|] eqn:Hb; cbn [mbind option_bind]; [|done].
  destruct (hex_decode s) as [bs'|]; cbn [mbind option_bind]; [|done]. intros [= <-]. apply hex_digit_range in Ha, Hb.
  constructor; [unfold is_byte; lia|by apply IH].
Qed.

(** The key of a hash below 16 *)
Definition pool_key (d : ascii) : Key := [StringSeg (repeat "0"%char 63 ++ [d])].
Definition pool : BridgePoolTree :=
  (delete_key (pool_key "4") (insert_key (pool_key "5") 12 (insert_key (pool_key "4") 11
    (insert_key (pool_key "3") 11 (insert_key (pool_key "2") 10 default_tree).1).1).1).1).1.
Lemma pool_reachable : reachable pool.
Proof. do 2 constructor. do 3 constructor. constructor. Qed.

(** A failure of the hash function can be searched for *)
Definition brokenb (bs : list bytes) (hs : list Z) : bool :=
  existsb (fun b1 => existsb (fun b2 => negb (bool_decide (b1 = b2)) && (poly b1 =? poly b2)) bs) bs ||
  existsb (fun b => (poly b =? 0) || existsb (Z.eqb (poly b)) hs) bs || existsb (Z.eqb 0) hs.
Lemma broken_brokenb bs hs : broken bs hs -> brokenb bs hs = true.
Proof.
  unfold broken, collision, confusion, brokenb. setoid_rewrite list_elem_of_In. cbn [keccak_hash keccak].
  rewrite !orb_true_iff, !existsb_exists. setoid_rewrite orb_true_iff. setoid_rewrite existsb_exists.
  setoid_rewrite andb_true_iff. setoid_rewrite negb_true_iff. setoid_rewrite bool_decide_eq_false. setoid_rewrite Z.eqb_eq.
  intros [(b1 & b2 & H1 & H2 & H3 & H4)|[(b & Hb & [H|H])|H]].
  - left. left. exists b1. split; [done|]. by exists b2.
  - left. right. exists b. auto.
  - left. right. exists b. split; [done|]. right. by exists (poly b).
  - right. by exists 0.
Qed.
End RefPool.
Import RefPool.

Lemma membership_proof_verifies_witness : exists p,
  get_membership_proof (K := keccak) pool [4; 1] = Ok p /\ verify p (root pool) = Ok true /\ Permutation (proof_leaves p) [4; 1].
Proof.
  apply (membership_proof_verifies (K := keccak) pool [4; 1] pool_reachable); [vm_compute; repeat constructor; set_solver|].
  repeat constructor; vm_compute; by eexists.
Defined.

Lemma membership_proof_sound_witness :
  Forall (fun v => is_Some (leaves pool !! keccak256 (Keccak := keccak) v)) [1; 4].
Proof.
  pose (p := mkProof (K := keccak) [3; 0] [1; 4] [false; false; true]). destruct (membership_proof_sound pool p pool_reachable) as [H|H].
  - repeat (constructor; [unfold in_hash; lia|]). constructor.
  - vm_compute. done.
  - exact H.
  - apply broken_brokenb in H. exfalso. revert H. vm_compute. done.
Defined.
