(* ===== verification/EthBridge.v ===== *)
(** * The Ethereum bridge

    Acting on confirmed Ethereum events
    ([ethereum_bridge/src/protocol/transactions/ethereum_events/events.rs]), the
    queries it uses ([ethereum_bridge/src/storage/eth_bridge_queries.rs]), and the
    validity predicates of the bridge pool and of the bridge
    ([shared/src/ledger/native_vp/ethereum_bridge/bridge_pool_vp.rs] and
    [vp.rs]).

    Balances and supplies are the typed store of [Token]. The pending transfers
    of the pool are a map from their hashes, which stands for the values under
    the keys [get_key_from_hash]; the heights at which they were committed are
    in the Merkle tree of [BridgePool]. The sets of changed keys that the
    functions return are left out. *)

From Stdlib Require Import ZArith Lia Ascii String.
From stdpp Require Import base numbers list gmap sets option countable sorting.
From S2P Require Import Prelude Uint Int256 Dec Keys WriteLog Epoch BridgePool Token.

Local Open Scope Z_scope.
Local Open Scope outcome_scope.
Local Open Scope st_scope.

Notation EthAddress := Z (only parsing).

(** ** Transfers *)
Inductive TransferToEthereumKind : Type := KErc20 | KNut.

Record TransferToEthereum : Type := mkTransferToEth {
  kind : TransferToEthereumKind;
  asset : EthAddress;
  recipient : EthAddress;
  sender : Address;
  amount : Z
}.
Record GasFee : Type := mkGasFee {
  gas_amount : Z;
  payer : Address;
  gas_token : Address
}.
Record PendingTransfer : Type := mkPending {
  pt_transfer : TransferToEthereum;
  gas_fee : GasFee
}.
(** [ethereum_events::TransferToEthereum] *)
Record TransferToEthereumEvent : Type := mkTransferEvent {
  ev_amount : Z;
  ev_asset : EthAddress;
  ev_receiver : EthAddress;
  ev_checksum : Hash
}.
Record TransferToNamada : Type := mkToNamada {
  nam_amount : Z;
  nam_asset : EthAddress;
  nam_receiver : Address
}.
Record TransfersToNamada : Type := mkTransfersToNamada {
  nam_nonce : Z;
  nam_transfers : list TransferToNamada
}.
Inductive EthereumEvent : Type :=
| EvTransfersToNamada (nonce : Z) (transfers : list TransferToNamada)
| EvTransfersToEthereum (nonce : Z) (transfers : list TransferToEthereumEvent) (relayer : Address)
| EvValidatorSetUpdate (nonce bridge_validator_hash governance_validator_hash : Z).

Inductive BpTransferStatus : Type := Relayed | Expired.
Notation EthBridgeEvent := (KeccakHash * BpTransferStatus)%type.

#[export] Instance kind_eq_dec : EqDecision TransferToEthereumKind.
Proof. solve_decision. Defined.
#[export] Instance transfer_eq_dec : EqDecision TransferToEthereum.
Proof. solve_decision. Defined.
#[export] Instance gas_fee_eq_dec : EqDecision GasFee.
Proof. solve_decision. Defined.
#[export] Instance pending_eq_dec : EqDecision PendingTransfer.
Proof. solve_decision. Defined.
#[export] Instance status_eq_dec : EqDecision BpTransferStatus.
Proof. solve_decision. Defined.
#[export] Instance status_countable : Countable BpTransferStatus.
Proof.
  refine (inj_countable' (fun s => match s with Relayed => true | Expired => false end)
    (fun b => if b then Relayed else Expired) _). by intros [].
Defined.

Definition BRIDGE_ADDRESS : Address := Internal EthBridge.
Definition BRIDGE_POOL_ADDRESS : Address := Internal EthBridgePool.
(** [wrapped_erc20s::token] and [nut] *)
Definition erc20_token (a : EthAddress) : Address := Internal (Erc20 a).
Definition erc20_nut (a : EthAddress) : Address := Internal (Nut a).
Definition token_address (p : PendingTransfer) : Address :=
  match kind (pt_transfer p) with
  | KErc20 => erc20_token (asset (pt_transfer p))
  | KNut => erc20_nut (asset (pt_transfer p))
  end.

(** The hashes: [abi_keccak] is Keccak of the ABI encoding of the version, the
    namespace and the fields of a transfer, [appendix_checksum] is SHA-256 of the
    encoded appendix. *)
Class PoolCodec : Type := {
  abi_keccak : EthAddress -> EthAddress -> Z -> Hash -> KeccakHash;
  appendix_checksum : TransferToEthereumKind -> Address -> GasFee -> Hash;
  pool_keccak_hash : bytes -> KeccakHash;
  hex_encode : bytes -> str;
  hex_decode : str -> option bytes
}.
Section hashes.
Context {P : PoolCodec}.

(** [PendingTransfer::appendix().checksum()] *)
Definition checksum (p : PendingTransfer) : Hash :=
  appendix_checksum (kind (pt_transfer p)) (sender (pt_transfer p)) (gas_fee p).
Definition pending_keccak256 (p : PendingTransfer) : KeccakHash :=
  abi_keccak (asset (pt_transfer p)) (recipient (pt_transfer p)) (amount (pt_transfer p)) (checksum p).
Definition event_keccak256 (e : TransferToEthereumEvent) : KeccakHash :=
  abi_keccak (ev_asset e) (ev_receiver e) (ev_amount e) (ev_checksum e).
(** [From<&PendingTransfer> for TransferToEthereumEvent] *)
Definition event_of (p : PendingTransfer) : TransferToEthereumEvent :=
  mkTransferEvent (amount (pt_transfer p)) (asset (pt_transfer p)) (recipient (pt_transfer p)) (checksum p).

#[export] Instance pool_keccak : Keccak := {|
  keccak_hash := pool_keccak_hash;
  BridgePool.PendingTransfer := PendingTransfer;
  keccak256 := pending_keccak256;
  hexupper_decode := hex_decode
|}.
End hashes.
Class PoolCodecLaws (P : PoolCodec) : Prop := {
  abi_keccak_range a r m c : in_hash (abi_keccak a r m c);
  hex_decode_encode bs : Forall is_byte bs -> hex_decode (hex_encode bs) = Some bs
}.

(** ** The state *)
Record Bridge : Type := mkBridge {
  tokens : store;
  pool : gmap KeccakHash PendingTransfer;
  pool_tree : BridgePoolTree;
  (* the nonce of the last block, and the one in the write log *)
  committed_nonce : Z;
  bp_nonce : Z;
  native_token : Address;
  native_erc20 : option EthAddress;
  whitelisted : gmap EthAddress bool;
  caps : gmap EthAddress Z;
  transfers_to_namada : InnerEthEventsQueue TransfersToNamada;
  height : BlockHeight;
  min_num_of_blocks : option Z
}.
Definition set_tokens (f : store -> store) (s : Bridge) : Bridge :=
  mkBridge (f (tokens s)) (pool s) (pool_tree s) (committed_nonce s) (bp_nonce s) (native_token s) (native_erc20 s)
    (whitelisted s) (caps s) (transfers_to_namada s) (height s) (min_num_of_blocks s).
Definition set_pool (f : gmap KeccakHash PendingTransfer -> gmap KeccakHash PendingTransfer) (s : Bridge) : Bridge :=
  mkBridge (tokens s) (f (pool s)) (pool_tree s) (committed_nonce s) (bp_nonce s) (native_token s) (native_erc20 s)
    (whitelisted s) (caps s) (transfers_to_namada s) (height s) (min_num_of_blocks s).
Definition set_nonce (n : Z) (s : Bridge) : Bridge :=
  mkBridge (tokens s) (pool s) (pool_tree s) (committed_nonce s) n (native_token s) (native_erc20 s)
    (whitelisted s) (caps s) (transfers_to_namada s) (height s) (min_num_of_blocks s).
Definition set_queue (q : InnerEthEventsQueue TransfersToNamada) (s : Bridge) : Bridge :=
  mkBridge (tokens s) (pool s) (pool_tree s) (committed_nonce s) (bp_nonce s) (native_token s) (native_erc20 s)
    (whitelisted s) (caps s) q (height s) (min_num_of_blocks s).

Inductive bridge_error : Type :=
| BridgeDecode
| NotInitialized
| NotInPoolTree
| NoEpochDuration
| NoTxData
| TxDataDecode
| NotAddedToPool
| NoBalanceDelta
| AmountOverflow
| NoKeysChanged.

(** ** Queries *)
Record EthAssetMint : Type := mkMint { nut_amount : Z; erc20_amount : Z }.
Definition should_mint_nuts (m : EthAssetMint) : bool := negb (amount_is_zero (nut_amount m)).
Definition should_mint_erc20s (m : EthAssetMint) : bool := negb (amount_is_zero (erc20_amount m)).

Section bridge.
Context {U : UintOps} {C : AddressCodec} {P : PoolCodec}.
(** The order in which the pending keys, a [HashSet], are iterated *)
Context (hash_order : gset KeccakHash -> list KeccakHash).

Definition is_token_whitelisted (s : Bridge) (token : EthAddress) : bool := default false (whitelisted s !! token).
Definition get_token_cap (s : Bridge) (token : EthAddress) : option Z := caps s !! token.
(** A value that does not decode makes [expect] panic. *)
Definition get_token_supply (s : Bridge) (token : EthAddress) : outcome bridge_error (option Z) :=
  let* key := minted_balance_key (erc20_token token) in
  match decode_amount (tokens s !! key) with
  | Ok o => Ok o
  | _ => Panic
  end.

Definition get_eth_assets_to_mint (s : Bridge) (token : EthAddress) (amount_to_mint : Z)
  : outcome bridge_error EthAssetMint :=
  if negb (is_token_whitelisted s token) then Ok (mkMint amount_to_mint 0)
  else
    let* supply := get_token_supply s token in
    let supply := default 0 supply in
    let cap := default 0 (get_token_cap s token) in
    if cap <? supply then Panic
    else
      let* sum := amount_add amount_to_mint supply in
      if sum >? cap then
        let* erc20_amount := amount_sub cap supply in
        let* nut_amount := amount_sub amount_to_mint erc20_amount in
        Ok (mkMint nut_amount erc20_amount)
      else Ok (mkMint 0 amount_to_mint).

Definition lookup_transfer_to_eth (s : Bridge) (e : TransferToEthereumEvent) : option (PendingTransfer * KeccakHash) :=
  p ← pool s !! event_keccak256 e; Some (p, event_keccak256 e).

Definition validate_eth_event_nonce (s : Bridge) (event : EthereumEvent) : bool :=
  match event with
  | EvTransfersToEthereum ext_nonce _ _ => committed_nonce s =? ext_nonce
  | EvTransfersToNamada ext_nonce _ => negb (next_nonce_to_process (transfers_to_namada s) >? ext_nonce)
  | EvValidatorSetUpdate _ _ _ => true
  end.

(** ** Updates of amounts *)
Definition update_amount (key : Key) (update : Z -> outcome bridge_error Z) : st Bridge bridge_error unit :=
  let! s := st_get tokens in
  let! a := st_lift (match decode_amount (s !! key) with
                     | Ok o => Ok (default 0 o)
                     | _ => Err BridgeDecode
                     end) in
  let! a' := st_lift (update a) in
  st_mod (set_tokens <[key := VAmount a']>).
Definition spend_at (token owner : Address) (amount : Z) : st Bridge bridge_error unit :=
  let! key := st_lift (balance_key token owner) in
  update_amount key (fun balance => spend balance amount).
Definition receive_at (token owner : Address) (amount : Z) : st Bridge bridge_error unit :=
  let! key := st_lift (balance_key token owner) in
  update_amount key (fun balance => receive balance amount).
Definition spend_supply (token : Address) (amount : Z) : st Bridge bridge_error unit :=
  let! key := st_lift (minted_balance_key token) in
  update_amount key (fun supply => spend supply amount).
Definition receive_supply (token : Address) (amount : Z) : st Bridge bridge_error unit :=
  let! key := st_lift (minted_balance_key token) in
  update_amount key (fun supply => receive supply amount).

(** ** Transfers to Namada *)
Definition read_native_erc20_address : st Bridge bridge_error EthAddress :=
  let! o := st_get native_erc20 in st_lift (ok_or o NotInitialized).

Definition redeem_native_token (native_erc20 : EthAddress) (receiver : Address) (amount : Z)
  : st Bridge bridge_error unit :=
  let! native := st_get native_token in
  do! spend_at native BRIDGE_ADDRESS amount in
  do! receive_at native receiver amount in
  spend_supply (erc20_token native_erc20) amount.

Definition mint (token receiver : Address) (amount : Z) : st Bridge bridge_error unit :=
  do! receive_at token receiver amount in
  receive_supply token amount.
Definition mint_eth_assets (asset : EthAddress) (receiver : Address) (amount : Z) : st Bridge bridge_error unit :=
  let! s := st_get id in
  let! asset_count := st_lift (get_eth_assets_to_mint s asset amount) in
  do! (if should_mint_nuts asset_count
       then mint (erc20_nut asset) receiver (nut_amount asset_count) else st_ret tt) in
  if should_mint_erc20s asset_count
  then mint (erc20_token asset) receiver (erc20_amount asset_count) else st_ret tt.

Definition update_transfers_to_namada_state (transfers : list TransferToNamada) : st Bridge bridge_error unit :=
  let! wrapped_native_erc20 := read_native_erc20_address in
  st_iter (fun t =>
    if negb (nam_asset t =? wrapped_native_erc20)
    then mint_eth_assets (nam_asset t) (nam_receiver t) (nam_amount t)
    else redeem_native_token wrapped_native_erc20 (nam_receiver t) (nam_amount t)) transfers.

(** The iterator of the queue is drained and dropped before the events are
    handled. *)
Definition push_event (e : TransfersToNamada) : st Bridge bridge_error (list TransfersToNamada) := fun s =>
  let r := let* it := push_and_iter nam_nonce e (transfers_to_namada s) in
           iter_take nam_nonce (S (Datatypes.length (Epoch.inner (queue it)))) it in
  match r with
  | Ok (confirmed, it) => (set_queue (iter_drop it) s, Ok confirmed)
  | Err e => (s, Err e)
  | Panic => (s, Panic)
  end.
Definition act_on_transfers_to_namada (transfer_event : TransfersToNamada) : st Bridge bridge_error unit :=
  let! confirmed_events := push_event transfer_event in
  st_iter (fun e => update_transfers_to_namada_state (nam_transfers e)) confirmed_events.

(** ** Transfers to Ethereum *)
Definition increment_bp_nonce : st Bridge bridge_error unit :=
  let! n := st_get committed_nonce in
  if n + 1 <? 2 ^ 256 then st_mod (set_nonce (n + 1)) else st_panic.

Definition refund_transfer_fees (p : PendingTransfer) : st Bridge bridge_error unit :=
  let g := gas_fee p in
  do! receive_at (gas_token g) (payer g) (gas_amount g) in
  spend_at (gas_token g) BRIDGE_POOL_ADDRESS (gas_amount g).
Definition refund_transferred_assets (p : PendingTransfer) : st Bridge bridge_error unit :=
  let t := pt_transfer p in
  let! native_erc20_addr := read_native_erc20_address in
  let! native := st_get native_token in
  if asset t =? native_erc20_addr then
    do! spend_at native BRIDGE_ADDRESS (amount t) in
    receive_at native (sender t) (amount t)
  else
    do! spend_at (token_address p) BRIDGE_POOL_ADDRESS (amount t) in
    receive_at (token_address p) (sender t) (amount t).
Definition refund_transfer (key : KeccakHash) : st Bridge bridge_error (gset EthBridgeEvent) :=
  let! o := st_get (fun s => pool s !! key) in
  let! p := st_lift (unwrap o) in
  do! refund_transfer_fees p in
  do! refund_transferred_assets p in
  do! st_mod (set_pool (base.delete key)) in
  st_ret {[ (pending_keccak256 p, Expired) ]}.

Definition update_transferred_asset_balances (p : PendingTransfer) : st Bridge bridge_error unit :=
  let t := pt_transfer p in
  let! native_erc20_addr := read_native_erc20_address in
  let token := token_address p in
  if asset t =? native_erc20_addr then
    match kind t with
    | KNut => st_panic
    | KErc20 => receive_supply token (amount t)
    end
  else
    do! spend_at token BRIDGE_POOL_ADDRESS (amount t) in
    spend_supply token (amount t).

(** The completed transfers are removed from the pool *)
Fixpoint relay_loop (relayer : Address) (transfers : list TransferToEthereumEvent) (pending_keys : gset KeccakHash)
  (tx_events : gset EthBridgeEvent) : st Bridge bridge_error (gset KeccakHash * gset EthBridgeEvent) :=
  match transfers with
  | [] => st_ret (pending_keys, tx_events)
  | event :: rest =>
      let! o := st_get (fun s => lookup_transfer_to_eth s event) in
      let! '(p, key) := st_lift (unwrap o) in
      let g := gas_fee p in
      do! update_transferred_asset_balances p in
      do! receive_at (gas_token g) relayer (gas_amount g) in
      do! spend_at (gas_token g) BRIDGE_POOL_ADDRESS (gas_amount g) in
      do! st_mod (set_pool (base.delete key)) in
      relay_loop relayer rest (pending_keys ∖ {[key]}) ({[ (pending_keccak256 p, Relayed) ]} ∪ tx_events)
  end.

(** The height at which a pending transfer was committed, in the tree *)
Definition inserted_height (s : Bridge) (key : KeccakHash) : outcome bridge_error BlockHeight :=
  match BridgePool.get [StringSeg (hex_encode (hash_bytes key))] (pool_tree s) with
  | Ok h => Ok h
  | Err _ => Err NotInPoolTree
  | Panic => Panic
  end.
Fixpoint refund_loop (timeout_height : BlockHeight) (keys : list KeccakHash) (tx_events : gset EthBridgeEvent)
  : st Bridge bridge_error (gset EthBridgeEvent) :=
  match keys with
  | [] => st_ret tx_events
  | key :: rest =>
      let! s := st_get id in
      let! h := st_lift (inserted_height s key) in
      if h <=? timeout_height then
        let! new_tx_events := refund_transfer key in
        refund_loop timeout_height rest (new_tx_events ∪ tx_events)
      else refund_loop timeout_height rest tx_events
  end.

Definition act_on_transfers_to_eth (transfers : list TransferToEthereumEvent) (relayer : Address)
  : st Bridge bridge_error (gset EthBridgeEvent) :=
  do! increment_bp_nonce in
  let! pending_keys := st_get (fun s => dom (pool s)) in
  let! '(pending_keys, tx_events) := relay_loop relayer transfers pending_keys ∅ in
  if bool_decide (pending_keys = ∅) then st_ret tx_events
  else
    let! o := st_get min_num_of_blocks in
    let! timeout_offset := st_lift (ok_or o NoEpochDuration) in
    let! h := st_get height in
    if h >? timeout_offset
    then refund_loop (h - timeout_offset) (hash_order pending_keys) tx_events
    else st_ret tx_events.

Definition act_on (event : EthereumEvent) : st Bridge bridge_error (gset EthBridgeEvent) :=
  match event with
  | EvTransfersToNamada nonce transfers =>
      do! act_on_transfers_to_namada (mkTransfersToNamada nonce transfers) in st_ret ∅
  | EvTransfersToEthereum _ transfers relayer => act_on_transfers_to_eth transfers relayer
  | EvValidatorSetUpdate _ _ _ => st_ret ∅
  end.
End bridge.

(** ** The validity predicate of the pool *)
Inductive SignedAmount : Type := Positive (a : Z) | Negative (a : Z).
Record AmountDelta : Type := mkDelta { delta_base : Z; delta : SignedAmount }.
Record EscrowDelta : Type := mkEscrow {
  esc_token : Address;
  payer_account : Address;
  escrow_account : Address;
  expected_debit : Z;
  expected_credit : Z;
  transferred_amount : Z
}.
Record EscrowCheck : Type := mkCheck { gas_check : EscrowDelta; token_check : EscrowDelta }.

Section vp.
Context {U : UintOps} {C : AddressCodec} {P : PoolCodec}.

Definition resolve (d : AmountDelta) : outcome bridge_error Z :=
  match delta d with
  | Positive a => amount_add (delta_base d) a
  | Negative a => amount_sub (delta_base d) a
  end.

(** Keys of the pool *)
Definition get_key_from_hash (h : KeccakHash) : Key :=
  [AddressSeg BRIDGE_POOL_ADDRESS; StringSeg (hex_encode (hash_bytes h))].
Definition get_pending_key (p : PendingTransfer) : Key := get_key_from_hash (pending_keccak256 p).
(** A key without segments makes the index panic. *)
Definition is_bridge_pool_key (k : Key) : outcome bridge_error bool :=
  match k with
  | [] => Panic
  | AddressSeg a :: _ => Ok (bool_decide (a = BRIDGE_POOL_ADDRESS))
  | _ => Ok false
  end.

(** The loop over the changed keys of the pool *)
Fixpoint pool_keys_ok (pending_key : Key) (keys : list Key) : outcome bridge_error bool :=
  match keys with
  | [] => Ok true
  | k :: rest =>
      let* b := is_bridge_pool_key k in
      if b && negb (bool_decide (k = pending_key)) then Ok false else pool_keys_ok pending_key rest
  end.

(** The states before and after the transaction *)
Variables pre post : Bridge.

Definition account_balance_delta (token address : Address) : outcome bridge_error (option AmountDelta) :=
  let* account_key := balance_key token address in
  match decode_amount (tokens pre !! account_key), decode_amount (tokens post !! account_key) with
  | Ok before, Ok (Some after) =>
      let before := default 0 before in
      if before >? after then let* d := amount_sub before after in Ok (Some (mkDelta before (Negative d)))
      else let* d := amount_sub after before in Ok (Some (mkDelta before (Positive d)))
  | _, _ => Ok None
  end.

Definition check_escrowed_toks_balance (d : EscrowDelta) : outcome bridge_error (option AmountDelta) :=
  let* debit := account_balance_delta (esc_token d) (payer_account d) in
  let* credit := account_balance_delta (esc_token d) (escrow_account d) in
  match debit, credit with
  | Some (mkDelta _ (Negative debit)), Some (mkDelta _ (Positive credit) as escrow_balance) =>
      Ok (if (debit =? expected_debit d) && (credit =? expected_credit d) then Some escrow_balance else None)
  | Some (mkDelta _ (Positive _)), _ => Ok None
  | _, Some (mkDelta _ (Negative _)) => Ok None
  | None, _ | _, None => Err NoBalanceDelta
  end.
Definition check_escrowed_toks (d : EscrowDelta) : outcome bridge_error bool :=
  let* balance := check_escrowed_toks_balance d in Ok (bool_decide (is_Some balance)).

Definition is_nut (a : Address) : bool := match a with Internal (Nut _) => true | _ => false end.
Definition check_gas_escrow (wnam_address : EthAddress) (d : EscrowDelta) : outcome bridge_error bool :=
  if bool_decide (esc_token d = erc20_token wnam_address) then Ok false
  else if is_nut (esc_token d) then Ok false
  else check_escrowed_toks d.

Definition check_wnam_escrow (wnam_address : EthAddress) (p : PendingTransfer) (d : EscrowDelta)
  : outcome bridge_error bool :=
  match kind (pt_transfer p) with
  | KNut => Ok false
  | KErc20 =>
      if negb (default false (whitelisted pre !! wnam_address)) then Ok false
      else
        let* o := check_escrowed_toks_balance d in
        match o with
        | None => Ok false
        | Some balance =>
            let* escrowed_balance := resolve balance in
            let wnam_cap := default 0 (caps pre !! wnam_address) in
            Ok (negb (escrowed_balance >? wnam_cap))
        end
  end.

Definition sum_gas_and_token_amounts (p : PendingTransfer) : outcome bridge_error Z :=
  ok_or (amount_checked_add (gas_amount (gas_fee p)) (amount (pt_transfer p))) AmountOverflow.
Definition determine_escrow_checks (wnam_address : EthAddress) (p : PendingTransfer)
  : outcome bridge_error EscrowCheck :=
  let t := pt_transfer p in
  let g := gas_fee p in
  let tok_is_native_asset := asset t =? wnam_address in
  let same_token_and_gas_erc20 := bool_decide (token_address p = gas_token g) in
  let same_sender_and_fee_payer := bool_decide (payer g = sender t) in
  let gas_is_native_asset := bool_decide (gas_token g = native_token pre) in
  let gas_and_token_is_native_asset := gas_is_native_asset && tok_is_native_asset in
  let same_token_and_gas_asset := gas_and_token_is_native_asset || same_token_and_gas_erc20 in
  let same_debited_address := same_sender_and_fee_payer && same_token_and_gas_asset in
  let* '(expected_gas_debit, expected_token_debit) :=
    if same_debited_address then let* debit := sum_gas_and_token_amounts p in Ok (debit, debit)
    else Ok (gas_amount g, amount t) in
  let* '(expected_gas_credit, expected_token_credit) :=
    if same_token_and_gas_erc20 then let* credit := sum_gas_and_token_amounts p in Ok (credit, credit)
    else Ok (gas_amount g, amount t) in
  let '(token_check_addr, token_check_escrow_acc) :=
    if tok_is_native_asset then (native_token pre, BRIDGE_ADDRESS) else (token_address p, BRIDGE_POOL_ADDRESS) in
  Ok (mkCheck
    (mkEscrow (gas_token g) (payer g) BRIDGE_POOL_ADDRESS expected_gas_debit expected_gas_credit (gas_amount g))
    (mkEscrow token_check_addr (sender t) token_check_escrow_acc expected_token_debit expected_token_credit (amount t))).

(** [EscrowDelta::validate] *)
Definition escrow_validate (keys_changed : list Key) (d : EscrowDelta) : outcome bridge_error bool :=
  let* owner_key := balance_key (esc_token d) (payer_account d) in
  let* escrow_key := balance_key (esc_token d) (escrow_account d) in
  let owner_in := bool_decide (owner_key ∈ keys_changed) in
  let escrow_in := bool_decide (escrow_key ∈ keys_changed) in
  Ok (if amount_is_zero (transferred_amount d) then negb owner_in && negb escrow_in else owner_in && escrow_in).

(** [BridgePoolVp::validate_tx]; the data of the transaction is missing, does
    not decode, or is a transfer. *)
Definition pool_validate_tx (data : option (option PendingTransfer)) (keys_changed : list Key)
  : outcome bridge_error bool :=
  let* tx_data := ok_or data NoTxData in
  let* p := ok_or tx_data TxDataDecode in
  let pending_key := get_pending_key p in
  if bool_decide (is_Some (pool pre !! pending_keccak256 p)) then Ok false
  else
    let* keys_ok := pool_keys_ok pending_key keys_changed in
    if negb keys_ok then Ok false
    else
      let* pending := ok_or (pool post !! pending_keccak256 p) NotAddedToPool in
      if negb (bool_decide (pending = p)) then Ok false
      else
        let* wnam_address := ok_or (native_erc20 pre) NotInitialized in
        let* checks := determine_escrow_checks wnam_address p in
        let* gas_keys := escrow_validate keys_changed (gas_check checks) in
        let* token_keys := escrow_validate keys_changed (token_check checks) in
        if negb (gas_keys && token_keys) then Ok false
        else
          let* gas_ok := check_gas_escrow wnam_address (gas_check checks) in
          if negb gas_ok then Ok false
          else if asset (pt_transfer p) =? wnam_address
          then check_wnam_escrow wnam_address p (token_check checks)
          else check_escrowed_toks (token_check checks).

(** ** The validity predicate of the bridge *)
Definition has_eth_addr_segment (k : Key) : bool :=
  existsb (fun s => match s with AddressSeg a => bool_decide (a = BRIDGE_ADDRESS) | _ => false end) k.
Definition validate_changed_keys (nam_addr : Address) (keys_changed : list Key) : outcome bridge_error bool :=
  let relevant := filter (fun k => is_Some (is_balance_key nam_addr k) \/ has_eth_addr_segment k = true) keys_changed in
  if bool_decide (relevant = []) then Err NoKeysChanged
  else
    let* escrow_key := balance_key nam_addr BRIDGE_ADDRESS in
    Ok (bool_decide (escrow_key ∈ relevant) && forallb (fun k => bool_decide (is_Some (is_balance_key nam_addr k))) relevant).
Definition check_escrow (verifiers : gset Address) : outcome bridge_error bool :=
  let* escrow_key := balance_key (native_token pre) BRIDGE_ADDRESS in
  match decode_amount (tokens pre !! escrow_key), decode_amount (tokens post !! escrow_key) with
  | Ok (Some escrow_pre), Ok (Some escrow_post) =>
      Ok ((escrow_pre <? escrow_post) && bool_decide (BRIDGE_POOL_ADDRESS ∈ verifiers))
  | _, _ => Ok false
  end.
Definition bridge_validate_tx (keys_changed : list Key) (verifiers : gset Address) : outcome bridge_error bool :=
  let* ok := validate_changed_keys (native_token pre) keys_changed in
  if negb ok then Ok false else check_escrow verifiers.
End vp.

(** ** Credits

    What the operations do to the store, without their checks *)
Definition credit (m : store) (kd : Key * Z) : store := <[kd.1 := VAmount (amt m kd.1 + kd.2)]> m.
Definition credits (l : list (Key * Z)) (m : store) : store := foldl credit m l.
Definition at_key (k : Key) (kd : Key * Z) : Z := if decide (kd.1 = k) then kd.2 else 0.
Definition credited (l : list (Key * Z)) (k : Key) : Z := sumZ (at_key k <$> l).

Lemma amt_credit m kd k : amt (credit m kd) k = amt m k + at_key k kd.
Proof.
  unfold amt, credit, at_key. case_decide as Hk; [subst; by rewrite lookup_insert_eq|]. rewrite lookup_insert_ne by done. lia.
Qed.
Lemma amt_credits l : forall m k, amt (credits l m) k = amt m k + credited l k.
Proof.
  induction l as [|kd l IH]; intros m k; unfold credits, credited; cbn [foldl]; [rewrite fmap_nil, sumZ_nil; lia|].
  rewrite fmap_cons, sumZ_cons. fold (credits l (credit m kd)) (credited l k). rewrite IH, amt_credit. lia.
Qed.
Lemma credit_comm m kd kd' : credit (credit m kd) kd' = credit (credit m kd') kd.
Proof.
  unfold credit at 1 3. rewrite !amt_credit. unfold credit, at_key. destruct kd as [k d], kd' as [k' d']. cbn [fst snd].
  destruct (decide (k = k')) as [->|Hne].
  - rewrite !insert_insert_eq, !decide_True by done. do 2 f_equal. lia.
  - rewrite !decide_False by congruence. rewrite !Z.add_0_r. by apply insert_insert_ne.
Qed.
Lemma credits_perm l l' m : Permutation l l' -> credits l m = credits l' m.
Proof.
  intros Hp. revert m. induction Hp as [|kd l l' _ IH|kd kd' l|l1 l2 l3 _ IH1 _ IH2]; intros m; unfold credits in *; cbn [foldl]; [done|by apply IH| |by rewrite IH1].
  by rewrite credit_comm.
Qed.
Lemma credits_app l l' m : credits (l ++ l') m = credits l' (credits l m).
Proof. apply foldl_app. Qed.
Lemma credited_app l l' k : credited (l ++ l') k = credited l k + credited l' k.
Proof. unfold credited. by rewrite fmap_app, sumZ_app. Qed.
Lemma credited_cons kd l k : credited (kd :: l) k = at_key k kd + credited l k.
Proof. done. Qed.
Lemma credited_nil k : credited [] k = 0.
Proof. done. Qed.

(** Sums of a token *)
Definition of_token (t : Address) (kd : Key * Z) : Z := if decide (is_Some (is_balance_key t kd.1)) then kd.2 else 0.
Definition issued (l : list (Key * Z)) (t : Address) : Z := sumZ (of_token t <$> l).
Lemma total_credit m kd t : total (credit m kd) t = total m t + of_token t kd.
Proof.
  unfold total, credit, of_token. rewrite msum_insert. unfold mterm, bal_entry, amt. destruct kd as [k d]. cbn [fst snd].
  destruct (is_balance_key t k) as [o|] eqn:Hk.
  - rewrite decide_True by eauto. destruct (m !! k) as [v|]; cbn [from_option amount_of]; rewrite ?Hk; lia.
  - rewrite decide_False by (by intros [? ?]). destruct (m !! k) as [v|]; cbn [from_option]; rewrite ?Hk; lia.
Qed.
Lemma total_credits l t : forall m, total (credits l m) t = total m t + issued l t.
Proof.
  induction l as [|kd l IH]; intros m; unfold credits, issued; cbn [foldl]; [rewrite fmap_nil, sumZ_nil; lia|].
  rewrite fmap_cons, sumZ_cons. fold (credits l (credit m kd)) (issued l t). rewrite IH, total_credit. lia.
Qed.

(** ** The keys of credits *)
Lemma at_bkey t o t' o' d : at_key (bkey t o) (bkey t' o', d) = if decide (t' = t /\ o' = o) then d else 0.
Proof.
  unfold at_key. cbn [fst snd]. destruct (decide (bkey t' o' = bkey t o)) as [He|He]; [injection He as -> ->; by rewrite decide_True|].
  rewrite decide_False; [done|]. intros [-> ->]. done.
Qed.
Lemma at_mkey t t' d : at_key (mkey t) (mkey t', d) = if decide (t' = t) then d else 0.
Proof.
  unfold at_key. cbn [fst snd]. destruct (decide (mkey t' = mkey t)) as [He|He]; [injection He as ->; by rewrite decide_True|].
  rewrite decide_False; [done|]. intros ->. done.
Qed.
Lemma at_bkey_mkey t o t' d : at_key (bkey t o) (mkey t', d) = 0.
Proof. unfold at_key. cbn [fst snd]. by rewrite decide_False. Qed.
Lemma at_mkey_bkey t t' o d : at_key (mkey t) (bkey t' o, d) = 0.
Proof. unfold at_key. cbn [fst snd]. by rewrite decide_False. Qed.
Lemma of_bkey t t' o d : of_token t (bkey t' o, d) = if decide (t' = t) then d else 0.
Proof.
  unfold of_token. cbn [fst snd]. destruct (decide (t' = t)) as [->|Hne].
  - rewrite decide_True; [done|]. rewrite is_balance_key_bkey. eauto.
  - rewrite decide_False; [done|]. rewrite is_balance_key_other by done. by intros [? ?].
Qed.
Lemma of_mkey t t' d : of_token t (mkey t', d) = 0.
Proof. unfold of_token. cbn [fst snd]. rewrite decide_False; [done|]. rewrite is_balance_key_mkey. by intros [? ?]. Qed.
Lemma issued_cons kd l t : issued (kd :: l) t = of_token t kd + issued l t.
Proof. done. Qed.
Lemma issued_nil t : issued [] t = 0.
Proof. done. Qed.
Lemma issued_app l l' t : issued (l ++ l') t = issued l t + issued l' t.
Proof. unfold issued. by rewrite fmap_app, sumZ_app. Qed.

Definition credit_state (l : list (Key * Z)) (s : Bridge) : Bridge := set_tokens (credits l) s.

Create HintDb credits.
#[export] Hint Rewrite amt_credits total_credits credited_app credited_cons credited_nil issued_app issued_cons issued_nil
  at_bkey at_mkey at_bkey_mkey at_mkey_bkey of_bkey of_mkey : credits.
(** Compute the effect of credits, and decide which accounts are the same *)
Ltac credits_simpl := cbn [tokens credit_state set_tokens set_pool app]; autorewrite with credits.
Ltac credits_solve := credits_simpl; repeat case_decide; destruct_and?; subst; try discriminate; try tauto; try congruence; try lia.
(** The same with the wrapped tokens of different assets *)
Ltac tokens_solve := credits_solve; unfold erc20_token, erc20_nut in *; simplify_eq; try tauto.

Lemma credit_wf m k d : store_wf m -> in_u256 (amt m k + d) -> store_wf (credit m (k, d)).
Proof. intros. by apply store_wf_set. Qed.
Lemma amt_range m k : store_wf m -> amount_key k -> in_u256 (amt m k).
Proof.
  intros Hs Hk. unfold amt. destruct (m !! k) as [v|] eqn:Hv; cbn; [|by vm_compute].
  destruct (Hs _ _ Hv Hk) as (a & -> & Ha). done.
Qed.

(** ** Runs of the operations *)
Section runs.
Context {U : UintOps} {HU : UintLaws U} {C : AddressCodec} {HC : AddressCodecLaws C} {P : PoolCodec}.

Definition runs (m : st Bridge bridge_error unit) (l : list (Key * Z)) (s : Bridge) : Prop :=
  store_wf (tokens s) -> m s = (credit_state l s, Ok tt) /\ store_wf (credits l (tokens s)).

Lemma runs_seq m m' l l' s : runs m l s -> runs m' l' (credit_state l s) -> runs (do! m in m') (l ++ l') s.
Proof.
  intros H1 H2 Hs. destruct (H1 Hs) as [E1 W1]. destruct (H2 W1) as [E2 W2]. unfold st_bind. rewrite E1, E2.
  unfold credit_state, set_tokens in *. cbn [tokens] in *. rewrite !credits_app. done.
Qed.
Lemma runs_ret s : runs (st_ret tt) [] s.
Proof. intros Hs. split; [by destruct s|done]. Qed.

Lemma update_amount_runs s k f d : amount_key k -> f (amt (tokens s) k) = Ok (amt (tokens s) k + d) ->
  in_u256 (amt (tokens s) k + d) -> runs (update_amount k f) [(k, d)] s.
Proof.
  intros Hk Hf Hr Hs. split; [|by apply credit_wf]. unfold update_amount, st_bind, st_get, st_lift, st_mod.
  destruct (store_read_amount (tokens s) k Hs Hk) as (o & Ho & Hd). unfold store_read in Ho. injection Ho as ->.
  rewrite Hd. fold (amt (tokens s) k). by rewrite Hf.
Qed.
Lemma spend_at_runs s t o d : in_u256 d -> d <= amt (tokens s) (bkey t o) ->
  runs (spend_at t o d) [(bkey t o, - d)] s.
Proof.
  intros Hd Hle Hs. pose proof (amt_range _ _ Hs (amount_key_bkey t o)) as Hr. unfold spend_at, st_bind, st_lift at 1.
  rewrite balance_key_bkey. apply update_amount_runs; [apply amount_key_bkey| |unfold in_u256 in *; lia|done].
  unfold spend. rewrite uint_checked_sub_law by done. by rewrite (proj2 (Z.leb_le _ _) Hle).
Qed.
Lemma receive_at_runs s t o d : in_u256 d -> amt (tokens s) (bkey t o) + d <= MAX_VALUE ->
  runs (receive_at t o d) [(bkey t o, d)] s.
Proof.
  intros Hd Hle Hs. pose proof (amt_range _ _ Hs (amount_key_bkey t o)) as Hr. unfold receive_at, st_bind, st_lift at 1.
  rewrite balance_key_bkey. apply update_amount_runs; [apply amount_key_bkey| |unfold in_u256, MAX_VALUE in *; lia|done].
  unfold receive. rewrite uint_checked_add_law by done. by rewrite (proj2 (Z.leb_le _ _) Hle).
Qed.
Lemma spend_supply_runs s t d : in_u256 d -> d <= amt (tokens s) (mkey t) ->
  runs (spend_supply t d) [(mkey t, - d)] s.
Proof.
  intros Hd Hle Hs. pose proof (amt_range _ _ Hs (amount_key_mkey t)) as Hr. unfold spend_supply, st_bind, st_lift at 1.
  rewrite minted_key_mkey. apply update_amount_runs; [apply amount_key_mkey| |unfold in_u256 in *; lia|done].
  unfold spend. rewrite uint_checked_sub_law by done. by rewrite (proj2 (Z.leb_le _ _) Hle).
Qed.
Lemma receive_supply_runs s t d : in_u256 d -> amt (tokens s) (mkey t) + d <= MAX_VALUE ->
  runs (receive_supply t d) [(mkey t, d)] s.
Proof.
  intros Hd Hle Hs. pose proof (amt_range _ _ Hs (amount_key_mkey t)) as Hr. unfold receive_supply, st_bind, st_lift at 1.
  rewrite minted_key_mkey. apply update_amount_runs; [apply amount_key_mkey| |unfold in_u256, MAX_VALUE in *; lia|done].
  unfold receive. rewrite uint_checked_add_law by done. by rewrite (proj2 (Z.leb_le _ _) Hle).
Qed.

(** ** The escrows back the pending transfers and the wrapped native token *)
Definition native_pending (wnam : EthAddress) (p : PendingTransfer) : Z :=
  if asset (pt_transfer p) =? wnam then amount (pt_transfer p) else 0.
(** What the pool holds in escrow for a transfer *)
Definition escrow_of (wnam : EthAddress) (t : Address) (p : PendingTransfer) : Z :=
  (if decide (gas_token (gas_fee p) = t) then gas_amount (gas_fee p) else 0) +
  (if decide (asset (pt_transfer p) <> wnam /\ token_address p = t) then amount (pt_transfer p) else 0).
(** Tokens that only the bridge mints *)
Definition wrapped (wnam : EthAddress) (t : Address) : Prop :=
  match t with
  | Internal (Erc20 a) => a <> wnam
  | Internal (Nut _) => True
  | _ => False
  end.

Record transfer_ok (wnam : EthAddress) (h : KeccakHash) (p : PendingTransfer) : Prop := {
  ok_hash : pending_keccak256 p = h;
  ok_amount : in_u256 (amount (pt_transfer p));
  ok_gas : in_u256 (gas_amount (gas_fee p));
  ok_kind : asset (pt_transfer p) = wnam -> kind (pt_transfer p) = KErc20
}.
Record backed (wnam : EthAddress) (s : Bridge) : Prop := {
  bk_erc20 : native_erc20 s = Some wnam;
  bk_native : forall t, wrapped wnam t -> t <> native_token s;
  bk_nam : native_token s <> erc20_token wnam;
  bk_store : store_wf (tokens s);
  bk_transfers : map_Forall (transfer_ok wnam) (pool s);
  (* the native token in escrow covers the wrapped supply and the pool *)
  bk_escrow : amt (tokens s) (mkey (erc20_token wnam)) + msum (fun _ => native_pending wnam) (pool s) <=
    amt (tokens s) (bkey (native_token s) BRIDGE_ADDRESS);
  (* the pool holds the fees and the tokens of its transfers *)
  bk_pool t : msum (fun _ => escrow_of wnam t) (pool s) <= amt (tokens s) (bkey t BRIDGE_POOL_ADDRESS);
  (* the supply of a wrapped token is the sum of its balances *)
  bk_supply t : wrapped wnam t -> total (tokens s) t = amt (tokens s) (mkey t);
  bk_total t : total (tokens s) t <= MAX_SIGNED_VALUE
}.

Lemma amt_le_total m t o : store_wf m -> amt m (bkey t o) <= total m t.
Proof.
  intros Hs. change (amt m (bkey t o)) with (bal m t o). rewrite <- mterm_total. apply mterm_le_msum.
  intros k v Hk. unfold bal_entry. destruct (is_balance_key t k) as [o'|] eqn:Hb; [|done].
  apply is_balance_key_Some in Hb as ->. destruct (Hs _ _ Hk (amount_key_bkey t o')) as (a & -> & Ha). cbn. unfold in_u256 in Ha. lia.
Qed.
Lemma escrow_of_nonneg wnam h t p : transfer_ok wnam h p -> 0 <= escrow_of wnam t p.
Proof. intros [_ Ha Hg _]. unfold escrow_of, in_u256 in *. repeat case_decide; lia. Qed.
Lemma native_pending_nonneg wnam h p : transfer_ok wnam h p -> 0 <= native_pending wnam p.
Proof. intros [_ Ha _ _]. unfold native_pending, in_u256 in *. destruct (_ =? _); lia. Qed.

(** What the pool and the escrow hold for one transfer *)
Lemma bk_pool_one wnam s h p t : backed wnam s -> pool s !! h = Some p ->
  escrow_of wnam t p <= amt (tokens s) (bkey t BRIDGE_POOL_ADDRESS).
Proof.
  intros Hb Hp. etrans; [|apply (bk_pool wnam s Hb t)].
  pose proof (mterm_le_msum (fun _ => escrow_of wnam t) (pool s) h) as H. unfold mterm in H. rewrite Hp in H. apply H.
  intros k v Hk. eapply escrow_of_nonneg, (bk_transfers wnam s Hb), Hk.
Qed.
Lemma bk_escrow_one wnam s h p : backed wnam s -> pool s !! h = Some p ->
  amt (tokens s) (mkey (erc20_token wnam)) + native_pending wnam p <= amt (tokens s) (bkey (native_token s) BRIDGE_ADDRESS).
Proof.
  intros Hb Hp. etrans; [|apply (bk_escrow wnam s Hb)].
  pose proof (mterm_le_msum (fun _ => native_pending wnam) (pool s) h) as H. unfold mterm in H. rewrite Hp in H. apply Zplus_le_compat_l, H.
  intros k v Hk. eapply native_pending_nonneg, (bk_transfers wnam s Hb), Hk.
Qed.

(** Removing a transfer from the pool with credits that pay for it *)
Lemma backed_remove wnam s l h p : backed wnam s -> pool s !! h = Some p -> store_wf (credits l (tokens s)) ->
  credited l (mkey (erc20_token wnam)) - native_pending wnam p <= credited l (bkey (native_token s) BRIDGE_ADDRESS) ->
  (forall t, - escrow_of wnam t p <= credited l (bkey t BRIDGE_POOL_ADDRESS)) ->
  (forall t, wrapped wnam t -> issued l t = credited l (mkey t)) -> (forall t, issued l t <= 0) ->
  backed wnam (set_pool (base.delete h) (credit_state l s)).
Proof.
  intros Hb Hp Hwf H1 H2 H3 H4. destruct Hb. split; cbn [tokens pool native_erc20 native_token set_pool credit_state set_tokens]; try done.
  - by apply map_Forall_delete.
  - rewrite msum_delete, !amt_credits. unfold mterm. rewrite Hp. cbn. lia.
  - intros t. rewrite msum_delete, amt_credits. unfold mterm. rewrite Hp. cbn. specialize (H2 t). specialize (bk_pool0 t). lia.
  - intros t Ht. rewrite total_credits, amt_credits, (H3 t Ht), bk_supply0 by done. done.
  - intros t. rewrite total_credits. specialize (H4 t). specialize (bk_total0 t). lia.
Qed.

Lemma wrapped_ne wnam t : wrapped wnam t -> erc20_token wnam <> t.
Proof. by intros Hw <-. Qed.
Lemma token_address_wrapped wnam p : asset (pt_transfer p) <> wnam -> wrapped wnam (token_address p).
Proof. intros Hn. unfold token_address. by destruct (kind (pt_transfer p)). Qed.
Lemma token_address_native wnam p h : transfer_ok wnam h p -> asset (pt_transfer p) = wnam -> token_address p = erc20_token wnam.
Proof. intros Ht Hn. unfold token_address. rewrite (ok_kind _ _ _ Ht Hn). by rewrite Hn. Qed.

(** ** Relaying one transfer *)
Definition asset_credits (wnam : EthAddress) (p : PendingTransfer) : list (Key * Z) :=
  let a := amount (pt_transfer p) in
  if asset (pt_transfer p) =? wnam then [(mkey (token_address p), a)]
  else [(bkey (token_address p) BRIDGE_POOL_ADDRESS, - a); (mkey (token_address p), - a)].
Definition gas_credits (to : Address) (p : PendingTransfer) : list (Key * Z) :=
  let g := gas_fee p in [(bkey (gas_token g) to, gas_amount g); (bkey (gas_token g) BRIDGE_POOL_ADDRESS, - gas_amount g)].
Definition relay_credits (wnam : EthAddress) (relayer : Address) (p : PendingTransfer) : list (Key * Z) :=
  asset_credits wnam p ++ gas_credits relayer p.

Lemma max_signed_double : MAX_SIGNED_VALUE + MAX_SIGNED_VALUE <= MAX_VALUE.
Proof. by vm_compute. Qed.

Lemma escrow_token wnam s h p : backed wnam s -> pool s !! h = Some p -> asset (pt_transfer p) <> wnam ->
  amount (pt_transfer p) + (if decide (gas_token (gas_fee p) = token_address p) then gas_amount (gas_fee p) else 0) <=
  amt (tokens s) (bkey (token_address p) BRIDGE_POOL_ADDRESS).
Proof.
  intros Hb Hp Hn. pose proof (bk_pool_one wnam s h p (token_address p) Hb Hp) as H. unfold escrow_of in H.
  destruct (decide (asset (pt_transfer p) <> wnam /\ token_address p = token_address p)) as [_|[]]; [lia|done].
Qed.
Lemma escrow_gas wnam s h p : backed wnam s -> pool s !! h = Some p ->
  gas_amount (gas_fee p) + (if decide (asset (pt_transfer p) <> wnam /\ token_address p = gas_token (gas_fee p)) then amount (pt_transfer p) else 0) <=
  amt (tokens s) (bkey (gas_token (gas_fee p)) BRIDGE_POOL_ADDRESS).
Proof.
  intros Hb Hp. pose proof (bk_pool_one wnam s h p (gas_token (gas_fee p)) Hb Hp) as H. unfold escrow_of in H.
  destruct (decide (gas_token (gas_fee p) = gas_token (gas_fee p))) as [_|[]]; done.
Qed.

Lemma asset_runs wnam s h p : backed wnam s -> pool s !! h = Some p ->
  runs (update_transferred_asset_balances p) (asset_credits wnam p) s.
Proof using HU HC.
  intros Hb Hp Hs. pose proof (bk_transfers wnam s Hb h p Hp) as Ht. destruct (Ht) as [_ Ha Hg Hk]. unfold in_u256 in Hg.
  pose proof (bk_escrow_one wnam s h p Hb Hp) as Hesc. pose proof (escrow_token wnam s h p Hb Hp) as Hpool.
  unfold update_transferred_asset_balances, asset_credits, read_native_erc20_address.
  unfold st_bind at 1 2, st_get, st_lift. rewrite (bk_erc20 wnam s Hb). cbn [ok_or]. unfold native_pending in *.
  destruct (Z.eqb_spec (asset (pt_transfer p)) wnam) as [He|He].
  - rewrite Hk by done. apply receive_supply_runs; [done| |done]. rewrite (token_address_native wnam p h Ht He).
    pose proof (amt_range _ _ Hs (amount_key_bkey (native_token s) BRIDGE_ADDRESS)) as Hr. unfold in_u256 in Hr. lia.
  - specialize (Hpool He). assert (amount (pt_transfer p) <= amt (tokens s) (bkey (token_address p) BRIDGE_POOL_ADDRESS)) as Hle by (case_decide; lia).
    apply (runs_seq _ _ [_] [_]); [by apply spend_at_runs| |done]. apply spend_supply_runs; [done|]. credits_simpl.
    rewrite <- (bk_supply wnam s Hb) by (by apply token_address_wrapped).
    pose proof (amt_le_total (tokens s) (token_address p) BRIDGE_POOL_ADDRESS Hs). lia.
Qed.

(** Moving tokens between accounts, in both orders *)
Lemma spend_receive_runs s t a b d : in_u256 d -> d <= amt (tokens s) (bkey t a) -> total (tokens s) t <= MAX_SIGNED_VALUE ->
  runs (do! spend_at t a d in receive_at t b d) [(bkey t a, - d); (bkey t b, d)] s.
Proof using HU HC.
  intros Hd Hle Ht Hs. pose proof max_signed_double. pose proof (amt_le_total (tokens s) t a Hs). pose proof (amt_le_total (tokens s) t b Hs).
  unfold in_u256 in Hd. apply (runs_seq _ _ [_] [_]); [by apply spend_at_runs|apply receive_at_runs; [done|]|done]. credits_solve.
Qed.
Lemma receive_spend_runs s t a b d : in_u256 d -> d <= amt (tokens s) (bkey t a) -> total (tokens s) t <= MAX_SIGNED_VALUE ->
  runs (do! receive_at t b d in spend_at t a d) [(bkey t b, d); (bkey t a, - d)] s.
Proof using HU HC.
  intros Hd Hle Ht Hs. pose proof max_signed_double. pose proof (amt_le_total (tokens s) t a Hs). pose proof (amt_le_total (tokens s) t b Hs).
  unfold in_u256 in Hd. apply (runs_seq _ _ [_] [_]); [apply receive_at_runs; [done|lia]|by apply spend_at_runs; [|credits_solve]|done].
Qed.

(** A computation that continues after two or three others *)
Lemma then2 {S E} (m1 m2 : st S E unit) s s' {A} (k : st S E A) : (do! m1 in m2) s = (s', Ok tt) -> (do! m1 in do! m2 in k) s = k s'.
Proof. unfold st_bind. destruct (m1 s) as [s1 [u1| |]]; [|done..]. by intros ->. Qed.
Lemma then3 {S E} (m1 m2 m3 : st S E unit) s s' {A} (k : st S E A) :
  (do! m1 in do! m2 in m3) s = (s', Ok tt) -> (do! m1 in do! m2 in do! m3 in k) s = k s'.
Proof. unfold st_bind. destruct (m1 s) as [s1 [u1| |]]; [|done..]. destruct (m2 s1) as [s2 [u2| |]]; [|done..]. by intros ->. Qed.

(** The state after a transfer is relayed *)
Definition relayed (wnam : EthAddress) (relayer : Address) (h : KeccakHash) (p : PendingTransfer) (s : Bridge) : Bridge :=
  set_pool (base.delete h) (credit_state (relay_credits wnam relayer p) s).

Lemma relay_backed wnam relayer h p s : backed wnam s -> pool s !! h = Some p ->
  backed wnam (relayed wnam relayer h p s) /\
  runs (do! update_transferred_asset_balances p in
        do! receive_at (gas_token (gas_fee p)) relayer (gas_amount (gas_fee p)) in
        spend_at (gas_token (gas_fee p)) BRIDGE_POOL_ADDRESS (gas_amount (gas_fee p))) (relay_credits wnam relayer p) s.
Proof using HU HC.
  intros Hb Hp. pose proof (bk_transfers wnam s Hb h p Hp) as Ht. destruct (Ht) as [_ Ha Hg _]. unfold in_u256 in Ha, Hg.
  assert (runs (do! update_transferred_asset_balances p in
        do! receive_at (gas_token (gas_fee p)) relayer (gas_amount (gas_fee p)) in
        spend_at (gas_token (gas_fee p)) BRIDGE_POOL_ADDRESS (gas_amount (gas_fee p))) (relay_credits wnam relayer p) s) as Hrun.
  { apply runs_seq; [by apply (asset_runs wnam s h)|]. pose proof (escrow_gas wnam s h p Hb Hp).
    pose proof (bk_total wnam s Hb (gas_token (gas_fee p))).
    apply receive_spend_runs; [done|..]; unfold asset_credits; destruct (Z.eqb_spec (asset (pt_transfer p)) wnam); credits_solve. }
  split; [|done]. destruct (Hrun (bk_store wnam s Hb)) as [_ Hwf].
  unfold relayed. apply (backed_remove wnam s _ h p); try done; unfold relay_credits, asset_credits, gas_credits, native_pending, escrow_of;
    pose proof (token_address_native wnam p h Ht) as Htok; destruct (Z.eqb_spec (asset (pt_transfer p)) wnam) as [He|He].
  - rewrite Htok by done. pose proof (bk_nam wnam s Hb). credits_solve.
  - pose proof (token_address_wrapped wnam p He) as Hw. pose proof (bk_native wnam s Hb _ Hw). credits_solve.
  - intros t. credits_solve.
  - intros t. credits_solve.
  - intros t Hw. rewrite Htok by done. pose proof (wrapped_ne wnam t Hw). credits_solve.
  - intros t Hw. credits_solve.
  - intros t. credits_solve.
  - intros t. credits_solve.
Qed.

(** ** Refunding one transfer *)
Definition refund_credits (wnam : EthAddress) (nam : Address) (p : PendingTransfer) : list (Key * Z) :=
  let t := pt_transfer p in
  gas_credits (payer (gas_fee p)) p ++
  (if asset t =? wnam then [(bkey nam BRIDGE_ADDRESS, - amount t); (bkey nam (sender t), amount t)]
   else [(bkey (token_address p) BRIDGE_POOL_ADDRESS, - amount t); (bkey (token_address p) (sender t), amount t)]).
Definition refunded (wnam : EthAddress) (h : KeccakHash) (p : PendingTransfer) (s : Bridge) : Bridge :=
  set_pool (base.delete h) (credit_state (refund_credits wnam (native_token s) p) s).

Lemma refund_backed wnam h p s : backed wnam s -> pool s !! h = Some p ->
  backed wnam (refunded wnam h p s) /\
  runs (do! refund_transfer_fees p in refund_transferred_assets p) (refund_credits wnam (native_token s) p) s.
Proof using HU HC.
  intros Hb Hp. pose proof (bk_transfers wnam s Hb h p Hp) as Ht. destruct (Ht) as [_ Ha Hg _].
  pose proof (token_address_native wnam p h Ht) as Htok.
  assert (runs (do! refund_transfer_fees p in refund_transferred_assets p) (refund_credits wnam (native_token s) p) s) as Hrun.
  { unfold refund_credits. pose proof (bk_escrow_one wnam s h p Hb Hp) as Hesc. pose proof (escrow_token wnam s h p Hb Hp) as Htk.
    pose proof (amt_range _ (mkey (erc20_token wnam)) (bk_store wnam s Hb) (amount_key_mkey _)) as Hm. pose proof (escrow_gas wnam s h p Hb Hp).
    apply runs_seq.
    - apply receive_spend_runs; [done| |apply (bk_total wnam s Hb)]. case_decide; unfold in_u256 in *; lia.
    - intros Hs. unfold refund_transferred_assets, read_native_erc20_address. unfold st_bind at 1 2 3, st_get, st_lift.
      cbn [native_erc20 native_token credit_state set_tokens]. rewrite (bk_erc20 wnam s Hb). cbn [ok_or]. unfold native_pending in Hesc.
      unfold in_u256 in Hm, Hg. revert Hs. destruct (Z.eqb_spec (asset (pt_transfer p)) wnam) as [He|He].
      + apply spend_receive_runs; [done|..]; unfold gas_credits; [credits_solve|]. pose proof (bk_total wnam s Hb (native_token s)). credits_solve.
      + apply spend_receive_runs; [done|..]; unfold gas_credits; [specialize (Htk He); credits_solve|].
        pose proof (bk_total wnam s Hb (token_address p)). credits_solve. }
  split; [|done]. destruct (Hrun (bk_store wnam s Hb)) as [_ Hwf]. unfold in_u256 in Ha, Hg.
  unfold refunded. apply (backed_remove wnam s _ h p); try done; unfold refund_credits, gas_credits, native_pending, escrow_of;
    destruct (Z.eqb_spec (asset (pt_transfer p)) wnam) as [He|He].
  - credits_solve.
  - pose proof (token_address_wrapped wnam p He) as Hw. pose proof (bk_native wnam s Hb _ Hw). credits_solve.
  - intros t. credits_solve.
  - intros t. credits_solve.
  - intros t Hw. pose proof (bk_native wnam s Hb _ Hw). credits_solve.
  - intros t Hw. credits_solve.
  - intros t. credits_solve.
  - intros t. credits_solve.
Qed.

Lemma refund_transfer_ok wnam h p s : backed wnam s -> pool s !! h = Some p ->
  refund_transfer h s = (refunded wnam h p s, Ok {[(h, Expired)]}) /\ backed wnam (refunded wnam h p s).
Proof using HU HC.
  intros Hb Hp. destruct (refund_backed wnam h p s Hb Hp) as [Hb' Hrun]. split; [|done]. destruct (Hrun (bk_store wnam s Hb)) as [Erun _].
  unfold refund_transfer. unfold st_bind at 1 2, st_get, st_lift. rewrite Hp. cbn [unwrap]. rewrite (then2 _ _ _ _ _ Erun).
  unfold st_bind, st_mod, st_ret. by rewrite (ok_hash _ _ _ (bk_transfers wnam s Hb h p Hp)).
Qed.

(** ** The loops *)
Definition remove_all (hs : list KeccakHash) (m : gmap KeccakHash PendingTransfer) : gmap KeccakHash PendingTransfer :=
  foldl (fun m h => base.delete h m) m hs.
Lemma lookup_remove_all hs : forall m k, remove_all hs m !! k = if decide (k ∈ hs) then None else m !! k.
Proof.
  induction hs as [|h hs IH]; intros m k; unfold remove_all in *; cbn [foldl]; [by rewrite decide_False by apply not_elem_of_nil|].
  rewrite IH. destruct (decide (k ∈ hs)); [rewrite decide_True by set_solver; done|]. destruct (decide (k = h)) as [->|Hne].
  - rewrite lookup_delete_eq, decide_True by set_solver. done.
  - rewrite lookup_delete_ne, decide_False by set_solver. done.
Qed.
Definition settled (l : list (Key * Z)) (hs : list KeccakHash) (s : Bridge) : Bridge :=
  set_pool (remove_all hs) (credit_state l s).
(** The transfers of the pool with the given hashes *)
Definition pending_of (s : Bridge) (hs : list KeccakHash) : list PendingTransfer := omap (fun h => pool s !! h) hs.

Lemma settled_settled l l' hs hs' s : settled l' hs' (settled l hs s) = settled (l ++ l') (hs ++ hs') s.
Proof.
  unfold settled, set_pool, credit_state, set_tokens, remove_all. cbn. by rewrite credits_app, foldl_app.
Qed.
Lemma pending_of_settled l h hs s : h ∉ hs -> pending_of (settled l [h] s) hs = pending_of s hs.
Proof.
  intros Hh. unfold pending_of. apply list_omap_ext.
  apply Forall_Forall2_diag, list.Forall_forall. intros k Hk. cbn. rewrite lookup_delete_ne; [done|]. intros ->. done.
Qed.

Lemma relay_loop_ok wnam relayer es : forall s pk ev, backed wnam s -> NoDup (event_keccak256 <$> es) ->
  Forall (fun e => is_Some (pool s !! event_keccak256 e)) es ->
  let hs := event_keccak256 <$> es in
  let s' := settled (mjoin (relay_credits wnam relayer <$> pending_of s hs)) hs s in
  relay_loop relayer es pk ev s = (s', Ok (pk ∖ list_to_set hs, list_to_set ((fun h => (h, Relayed)) <$> hs) ∪ ev)) /\ backed wnam s'.
Proof using HU HC.
  induction es as [|e es IH]; intros s pk ev Hb Hnd Hin; cbn zeta.
  { split; [|by destruct s]. cbn. unfold st_ret. f_equal; [by destruct s|]. do 2 f_equal; set_solver. }
  rewrite fmap_cons in *. apply list.NoDup_cons in Hnd as [Hh Hnd]. inversion_clear Hin as [|? ? [p Hp] Hin'].
  set (h := event_keccak256 e) in *. destruct (relay_backed wnam relayer h p s Hb Hp) as [Hb' Hrun].
  destruct (IH (relayed wnam relayer h p s) (pk ∖ {[h]}) ({[(h, Relayed)]} ∪ ev) Hb' Hnd) as [Heq Hb''].
  { apply list.Forall_forall. intros e' He'. cbn. rewrite list.Forall_forall in Hin'. rewrite lookup_delete_ne; [by apply Hin'|].
    intros ->. apply Hh, list_elem_of_fmap. eauto. }
  assert (relayed wnam relayer h p s = settled (relay_credits wnam relayer p) [h] s) as Hrel by done. rewrite Hrel in *.
  rewrite pending_of_settled, settled_settled in Heq, Hb'' by done.
  replace (pending_of s (h :: (event_keccak256 <$> es))) with (p :: pending_of s (event_keccak256 <$> es))
    by (unfold pending_of; cbn [omap list_omap]; by rewrite Hp).
  split; [|exact Hb'']. cbn [relay_loop]. unfold st_bind at 1 2, st_get, st_lift, lookup_transfer_to_eth. fold h. rewrite Hp.
  cbn [mbind option_bind unwrap]. destruct (Hrun (bk_store wnam s Hb)) as [Erun _]. clear Hrun.
  rewrite (then3 _ _ _ _ _ _ Erun). unfold st_bind, st_mod. rewrite (ok_hash _ _ _ (bk_transfers wnam s Hb h p Hp)).
  change (set_pool (base.delete h) (credit_state (relay_credits wnam relayer p) s)) with (settled (relay_credits wnam relayer p) [h] s).
  rewrite Heq. cbn [list_to_set fmap list_fmap]. do 3 f_equal; set_solver.
Qed.


(** ** Transfers to Namada *)
(** Credits that leave the pool as it is *)
Lemma backed_credit wnam s l : backed wnam s -> store_wf (credits l (tokens s)) ->
  credited l (mkey (erc20_token wnam)) <= credited l (bkey (native_token s) BRIDGE_ADDRESS) ->
  (forall t, 0 <= credited l (bkey t BRIDGE_POOL_ADDRESS)) ->
  (forall t, wrapped wnam t -> issued l t = credited l (mkey t)) ->
  (forall t, total (tokens s) t + issued l t <= MAX_SIGNED_VALUE) -> backed wnam (credit_state l s).
Proof.
  intros Hb Hwf H1 H2 H3 H4. destruct Hb. split; cbn [tokens pool native_erc20 native_token credit_state set_tokens]; try done.
  - rewrite !amt_credits. lia.
  - intros t. rewrite amt_credits. specialize (H2 t). specialize (bk_pool0 t). lia.
  - intros t Ht. rewrite total_credits, amt_credits, (H3 t Ht), bk_supply0 by done. done.
  - intros t. rewrite total_credits. specialize (H4 t). lia.
Qed.

(** Supplies of whitelisted tokens stay below their caps *)
Definition caps_ok (wnam : EthAddress) (s : Bridge) : Prop := forall a, a <> wnam -> is_token_whitelisted s a = true ->
  amt (tokens s) (mkey (erc20_token a)) <= default 0 (caps s !! a) <= MAX_VALUE.

Definition mint_credits (asset : EthAddress) (receiver : Address) (nuts erc20s : Z) : list (Key * Z) :=
  (if negb (amount_is_zero nuts) then [(bkey (erc20_nut asset) receiver, nuts); (mkey (erc20_nut asset), nuts)] else []) ++
  (if negb (amount_is_zero erc20s) then [(bkey (erc20_token asset) receiver, erc20s); (mkey (erc20_token asset), erc20s)] else []).

Lemma max_signed_le : MAX_SIGNED_VALUE <= MAX_VALUE.
Proof. by vm_compute. Qed.
Lemma mint_runs wnam s t r d : backed wnam s -> wrapped wnam t -> in_u256 d -> total (tokens s) t + d <= MAX_SIGNED_VALUE ->
  runs (mint t r d) [(bkey t r, d); (mkey t, d)] s.
Proof using HU HC.
  intros Hb Hw Hd Ht. pose proof (amt_le_total (tokens s) t r (bk_store wnam s Hb)). pose proof max_signed_le. unfold in_u256 in Hd.
  apply (runs_seq _ _ [_] [_]); [apply receive_at_runs|apply receive_supply_runs]; try done; [lia|].
  credits_simpl. rewrite <- (bk_supply wnam s Hb) by done. lia.
Qed.
Lemma mint_backed wnam s t r d : backed wnam s -> wrapped wnam t -> in_u256 d -> total (tokens s) t + d <= MAX_SIGNED_VALUE ->
  backed wnam (credit_state [(bkey t r, d); (mkey t, d)] s).
Proof using HU HC.
  intros Hb Hw Hd Ht. destruct (mint_runs wnam s t r d Hb Hw Hd Ht (bk_store wnam s Hb)) as [_ Hwf]. unfold in_u256 in Hd.
  pose proof (wrapped_ne wnam t Hw). pose proof (bk_native wnam s Hb _ Hw). apply backed_credit; try done.
  - credits_solve.
  - intros t'. credits_solve.
  - intros t' _. credits_solve.
  - intros t'. pose proof (bk_total wnam s Hb t'). credits_solve.
Qed.

Lemma assets_to_mint wnam s a d : backed wnam s -> caps_ok wnam s -> a <> wnam -> in_u256 d ->
  total (tokens s) (erc20_token a) + d <= MAX_SIGNED_VALUE ->
  exists n e, get_eth_assets_to_mint s a d = Ok (mkMint n e) /\ n + e = d /\ 0 <= n /\ 0 <= e /\
    (is_token_whitelisted s a = true -> e = Z.min d (default 0 (caps s !! a) - amt (tokens s) (mkey (erc20_token a)))) /\
    (is_token_whitelisted s a = false -> e = 0).
Proof using HU HC.
  intros Hb Hcap Ha Hd Ht. unfold get_eth_assets_to_mint. destruct (is_token_whitelisted s a) eqn:Hw; cbn [negb].
  2: { exists d, 0. unfold in_u256 in Hd. split_and!; try done; lia. }
  specialize (Hcap a Ha Hw). unfold get_token_supply. rewrite minted_key_mkey. cbn [out_bind].
  destruct (store_read_amount (tokens s) (mkey (erc20_token a)) (bk_store wnam s Hb) (amount_key_mkey _)) as (o & Ho & Hs).
  unfold store_read in Ho. injection Ho as ->. cbn [out_bind]. fold (amt (tokens s) (mkey (erc20_token a))) in Hs. rewrite Hs. unfold get_token_cap.
  set (supply := amt (tokens s) (mkey (erc20_token a))) in *. set (cap := default 0 (caps s !! a)) in *.
  assert (in_u256 supply) as Hsup by (apply amt_range; [apply (bk_store wnam s Hb)|apply amount_key_mkey]).
  assert (supply = total (tokens s) (erc20_token a)) as Hst by (symmetry; by apply (bk_supply wnam s Hb)).
  pose proof max_signed_le. unfold in_u256 in *. rewrite (proj2 (Z.ltb_ge _ _)) by lia.
  unfold amount_add, amount_sub. rewrite uint_add_ok by (unfold in_u256; lia). cbn [out_bind].
  rewrite Z.gtb_ltb. destruct (Z.ltb_spec cap (d + supply)).
  - rewrite uint_sub_ok by (unfold in_u256; lia). cbn [out_bind]. rewrite uint_sub_ok by (unfold in_u256; lia). cbn [out_bind].
    eexists _, _. split_and!; try done; lia.
  - exists 0, d. split_and!; try done; lia.
Qed.

(** How much of a token can still be minted: nothing of a token that is not
    whitelisted, and up to the cap of one that is *)
Definition headroom (s : Bridge) (a : EthAddress) : Z :=
  if is_token_whitelisted s a then default 0 (caps s !! a) - amt (tokens s) (mkey (erc20_token a)) else 0.
Lemma assets_split wnam s a d : backed wnam s -> caps_ok wnam s -> a <> wnam -> in_u256 d ->
  total (tokens s) (erc20_token a) + d <= MAX_SIGNED_VALUE ->
  get_eth_assets_to_mint s a d = Ok (mkMint (d - Z.min d (headroom s a)) (Z.min d (headroom s a))) /\ 0 <= Z.min d (headroom s a) <= d.
Proof using HU HC.
  intros Hb Hcap Ha Hd Ht. destruct (assets_to_mint wnam s a d Hb Hcap Ha Hd Ht) as (n & e & Hm & Hs & Hn & He & Hy & Hf).
  assert (e = Z.min d (headroom s a)) as <-; [|split; [rewrite Hm; do 2 f_equal; lia|lia]].
  unfold headroom. destruct (is_token_whitelisted s a) eqn:Hw; [|rewrite Hf by done; unfold in_u256 in Hd; lia]. by apply Hy.
Qed.

(** What a receiver is owed by the transfers, and what they are in total *)
Definition received (a : EthAddress) (r : Address) (ts : list TransferToNamada) : Z :=
  sumZ ((fun t => if decide (nam_asset t = a /\ nam_receiver t = r) then nam_amount t else 0) <$> ts).
Definition incoming (a : EthAddress) (ts : list TransferToNamada) : Z :=
  sumZ ((fun t => if decide (nam_asset t = a) then nam_amount t else 0) <$> ts).

(** Credits that deliver the transfers, in sum: as tokens or as NUTs, and the
    native token out of the escrow *)
Record delivers (wnam : EthAddress) (nam : Address) (ts : list TransferToNamada) (l : list (Key * Z)) : Prop := {
  dl_assets a r : a <> wnam -> credited l (bkey (erc20_token a) r) + credited l (bkey (erc20_nut a) r) = received a r ts;
  dl_native r : credited l (bkey nam r) = received wnam r ts - (if decide (r = BRIDGE_ADDRESS) then incoming wnam ts else 0);
  dl_supply : credited l (mkey (erc20_token wnam)) = - incoming wnam ts;
  dl_wrapped a : a <> wnam -> 0 <= issued l (erc20_token a) <= incoming a ts;
  dl_nut a : a <> wnam -> 0 <= issued l (erc20_nut a) <= incoming a ts
}.
Lemma delivers_nil wnam nam : delivers wnam nam [] [].
Proof. split; intros; unfold received, incoming; credits_simpl; cbn; repeat case_decide; change (sumZ []) with 0; lia. Qed.
Lemma received_app a r ts ts' : received a r (ts ++ ts') = received a r ts + received a r ts'.
Proof. unfold received. by rewrite fmap_app, sumZ_app. Qed.
Lemma incoming_app a ts ts' : incoming a (ts ++ ts') = incoming a ts + incoming a ts'.
Proof. unfold incoming. by rewrite fmap_app, sumZ_app. Qed.
Lemma delivers_app wnam nam ts ts' l l' : delivers wnam nam ts l -> delivers wnam nam ts' l' -> delivers wnam nam (ts ++ ts') (l ++ l').
Proof.
  intros H1 H2. destruct H1, H2. split; intros; rewrite ?credited_app, ?issued_app, ?received_app, ?incoming_app.
  - specialize (dl_assets0 a r). specialize (dl_assets1 a r). lia.
  - rewrite dl_native0, dl_native1. case_decide; lia.
  - lia.
  - specialize (dl_wrapped0 a). specialize (dl_wrapped1 a). lia.
  - specialize (dl_nut0 a). specialize (dl_nut1 a). lia.
Qed.

(** The balances can hold the transfers, and the wrapped supply covers those
    of the native token *)
Record room (wnam : EthAddress) (s : Bridge) (ts : list TransferToNamada) : Prop := {
  room_amounts : Forall (fun t => in_u256 (nam_amount t)) ts;
  room_native : incoming wnam ts <= amt (tokens s) (mkey (erc20_token wnam));
  room_erc20 a : a <> wnam -> total (tokens s) (erc20_token a) + incoming a ts <= MAX_SIGNED_VALUE;
  room_nut a : a <> wnam -> total (tokens s) (erc20_nut a) + incoming a ts <= MAX_SIGNED_VALUE
}.
Lemma incoming_nonneg a ts : Forall (fun t => in_u256 (nam_amount t)) ts -> 0 <= incoming a ts.
Proof. unfold incoming, in_u256. induction 1; cbn; [done|]. rewrite sumZ_cons. case_decide; lia. Qed.
#[local] Instance incoming_perm a : Proper (Permutation ==> eq) (incoming a).
Proof. intros l l' H. unfold incoming. by rewrite H. Qed.
Lemma room_part wnam s ts ts' us : Permutation us (ts ++ ts') -> room wnam s us -> room wnam s ts.
Proof.
  intros Hp [Ha Hn He Hu]. rewrite Hp in Ha. apply Forall_app in Ha as [Ha Ha'].
  pose proof (fun a => incoming_nonneg a ts' Ha') as Hnn. rewrite Hp, incoming_app in Hn. split; [done|..].
  - specialize (Hnn wnam). lia.
  - intros a Hne. specialize (He a Hne). rewrite Hp, incoming_app in He. specialize (Hnn a). lia.
  - intros a Hne. specialize (Hu a Hne). rewrite Hp, incoming_app in Hu. specialize (Hnn a). lia.
Qed.
Lemma room_tail wnam s ts ts' l : room wnam s (ts ++ ts') -> delivers wnam (native_token s) ts l ->
  room wnam (credit_state l s) ts'.
Proof.
  intros [Ha Hn He Hu] Hd. apply Forall_app in Ha as [_ Ha']. destruct Hd.
  setoid_rewrite incoming_app in He. setoid_rewrite incoming_app in Hu. rewrite incoming_app in Hn. split; [done|..]; credits_simpl.
  - lia.
  - intros a Hne. credits_simpl. specialize (He a Hne). specialize (dl_wrapped0 a Hne). lia.
  - intros a Hne. credits_simpl. specialize (Hu a Hne). specialize (dl_nut0 a Hne). lia.
Qed.

(** One transfer: redeemed from the escrow, or minted *)
Definition deliver (wnam : EthAddress) (t : TransferToNamada) : st Bridge bridge_error unit :=
  if negb (nam_asset t =? wnam) then mint_eth_assets (nam_asset t) (nam_receiver t) (nam_amount t)
  else redeem_native_token wnam (nam_receiver t) (nam_amount t).
Definition redeem_credits (wnam : EthAddress) (nam r : Address) (d : Z) : list (Key * Z) :=
  [(bkey nam BRIDGE_ADDRESS, - d); (bkey nam r, d); (mkey (erc20_token wnam), - d)].
(** What each transfer is to deliver, in their order: the native token, or the
    token as far as it can be minted and NUTs for the rest *)
Definition delivery_of (wnam : EthAddress) (s : Bridge) (t : TransferToNamada) : list (Key * Z) :=
  if nam_asset t =? wnam then redeem_credits wnam (native_token s) (nam_receiver t) (nam_amount t)
  else
    let e := Z.min (nam_amount t) (headroom s (nam_asset t)) in
    mint_credits (nam_asset t) (nam_receiver t) (nam_amount t - e) e.
Fixpoint delivery (wnam : EthAddress) (s : Bridge) (ts : list TransferToNamada) : list (Key * Z) :=
  match ts with
  | [] => []
  | t :: ts => delivery_of wnam s t ++ delivery wnam (credit_state (delivery_of wnam s t) s) ts
  end.
Lemma credit_state_app l l' s : credit_state (l ++ l') s = credit_state l' (credit_state l s).
Proof. unfold credit_state, set_tokens. cbn. by rewrite credits_app. Qed.
Lemma delivery_app wnam ts ts' : forall s, delivery wnam s (ts ++ ts') = delivery wnam s ts ++ delivery wnam (credit_state (delivery wnam s ts) s) ts'.
Proof.
  induction ts as [|t ts IH]; intros s; cbn [delivery app]; [by destruct s|]. by rewrite IH, <- app_assoc, credit_state_app.
Qed.
Lemma delivery_queue wnam q ts : forall s, delivery wnam (set_queue q s) ts = delivery wnam s ts.
Proof. induction ts as [|t ts IH]; intros s; cbn [delivery]; [done|]. f_equal. apply (IH (credit_state (delivery_of wnam s t) s)). Qed.

Lemma redeem_runs wnam s r d : backed wnam s -> in_u256 d -> d <= amt (tokens s) (mkey (erc20_token wnam)) ->
  runs (redeem_native_token wnam r d) (redeem_credits wnam (native_token s) r d) s.
Proof using HU HC.
  intros Hb Hd Hle Hs. unfold redeem_native_token. unfold st_bind at 1, st_get.
  assert (0 <= msum (fun _ => native_pending wnam) (pool s)).
  { apply msum_nonneg. intros k v Hk. eapply native_pending_nonneg, (bk_transfers wnam s Hb), Hk. }
  pose proof (bk_escrow wnam s Hb). pose proof (bk_total wnam s Hb (native_token s)) as Ht.
  assert (d <= amt (tokens s) (bkey (native_token s) BRIDGE_ADDRESS)) as Hesc by lia.
  destruct (spend_receive_runs s (native_token s) BRIDGE_ADDRESS r d Hd Hesc Ht Hs) as [E W].
  rewrite (then2 _ _ _ _ _ E). apply (spend_supply_runs (credit_state _ s) (erc20_token wnam) d) in W; [|done|credits_solve].
  exact W.
Qed.
Lemma redeem_backed wnam s r d : backed wnam s -> in_u256 d -> d <= amt (tokens s) (mkey (erc20_token wnam)) ->
  backed wnam (credit_state (redeem_credits wnam (native_token s) r d) s).
Proof using HU HC.
  intros Hb Hd Hle. destruct (redeem_runs wnam s r d Hb Hd Hle (bk_store wnam s Hb)) as [_ Hwf].
  unfold in_u256 in Hd. apply backed_credit; try done; unfold redeem_credits.
  - credits_solve.
  - intros t. credits_solve.
  - intros t Hw. pose proof (wrapped_ne wnam t Hw). pose proof (bk_native wnam s Hb t Hw). credits_solve.
  - intros t. pose proof (bk_total wnam s Hb t). credits_solve.
Qed.
(** What one transfer brings *)
Lemma received_one a r d b r' : received a r [mkToNamada d b r'] = if decide (b = a /\ r' = r) then d else 0.
Proof. unfold received. cbn. rewrite sumZ_cons, sumZ_nil. lia. Qed.
Lemma incoming_one a d b r' : incoming a [mkToNamada d b r'] = if decide (b = a) then d else 0.
Proof. unfold incoming. cbn. rewrite sumZ_cons, sumZ_nil. lia. Qed.

Lemma redeem_delivers wnam s r d : backed wnam s ->
  delivers wnam (native_token s) [mkToNamada d wnam r] (redeem_credits wnam (native_token s) r d).
Proof.
  intros Hb. pose proof (bk_nam wnam s Hb). pose proof (bk_native wnam s Hb) as Hw.
  split; intros; unfold redeem_credits; rewrite ?received_one, ?incoming_one.
  - pose proof (Hw (erc20_token a) H0). pose proof (Hw (erc20_nut a) I). credits_solve.
  - credits_solve.
  - credits_solve.
  - pose proof (Hw (erc20_token a) H0). credits_solve.
  - pose proof (Hw (erc20_nut a) I). credits_solve.
Qed.

Lemma mint_assets_ok wnam s a r d : backed wnam s -> caps_ok wnam s -> a <> wnam -> in_u256 d ->
  total (tokens s) (erc20_token a) + d <= MAX_SIGNED_VALUE -> total (tokens s) (erc20_nut a) + d <= MAX_SIGNED_VALUE ->
  let e := Z.min d (headroom s a) in let l := mint_credits a r (d - e) e in 0 <= e <= d /\
    mint_eth_assets a r d s = (credit_state l s, Ok tt) /\ backed wnam (credit_state l s).
Proof using HU HC.
  intros Hb Hcap Ha Hd Ht Hn. destruct (assets_split wnam s a d Hb Hcap Ha Hd Ht) as [Hm He]. cbv zeta.
  set (e := Z.min d (headroom s a)) in *. set (n := d - e) in *. split; [done|]. unfold in_u256 in Hd.
  unfold mint_eth_assets. unfold st_bind at 1 2, st_get, st_lift, id. rewrite Hm. cbn [nut_amount erc20_amount should_mint_nuts should_mint_erc20s].
  unfold mint_credits, should_mint_nuts, should_mint_erc20s. cbn [nut_amount erc20_amount].
  assert (wrapped wnam (erc20_nut a)) as Hwn by done. assert (wrapped wnam (erc20_token a)) as Hwe by done.
  assert (exists s1, s1 = credit_state (if negb (amount_is_zero n) then [(bkey (erc20_nut a) r, n); (mkey (erc20_nut a), n)] else []) s /\
    backed wnam s1 /\ (if negb (amount_is_zero n) then mint (erc20_nut a) r n else st_ret tt) s = (s1, Ok tt)) as (s1 & Hs1 & Hb1 & E1).
  { destruct (negb (amount_is_zero n)); eexists; (split; [done|]).
    - split; [apply mint_backed; try done; unfold in_u256; lia|]. apply (mint_runs wnam); try done; unfold in_u256; try lia. apply (bk_store wnam s Hb).
    - destruct (runs_ret s (bk_store wnam s Hb)) as [E _]. split; [|done]. by destruct s. }
  unfold st_bind. rewrite E1. 
  assert (total (tokens s1) (erc20_token a) = total (tokens s) (erc20_token a)) as Ht1.
  { rewrite Hs1. destruct (negb (amount_is_zero n)); credits_solve. }
  destruct (negb (amount_is_zero e)).
  - split_and!; try done.
    + destruct (mint_runs wnam s1 (erc20_token a) r e Hb1 Hwe) as [E _]; [unfold in_u256; lia|lia|apply (bk_store wnam s1 Hb1)|].
      rewrite E, Hs1. unfold credit_state, set_tokens. cbn. by rewrite credits_app.
    + unfold credit_state, set_tokens. rewrite credits_app.
      pose proof (mint_backed wnam s1 (erc20_token a) r e Hb1 Hwe) as Hb2. rewrite Hs1 in Hb2, Ht1. apply Hb2; [unfold in_u256; lia|lia].
  - rewrite app_nil_r, <- Hs1. done.
Qed.

Lemma mint_delivers wnam s a r n e : backed wnam s -> a <> wnam -> 0 <= n -> 0 <= e ->
  delivers wnam (native_token s) [mkToNamada (n + e) a r] (mint_credits a r n e).
Proof.
  intros Hb Ha Hn He. pose proof (bk_native wnam s Hb (erc20_token a) Ha). pose proof (bk_native wnam s Hb (erc20_nut a) I).
  unfold mint_credits, amount_is_zero.
  split; intros; rewrite ?received_one, ?incoming_one; destruct (Z.eqb_spec n 0), (Z.eqb_spec e 0); cbn [negb]; tokens_solve.
Qed.
Lemma caps_ok_credit wnam s l : caps_ok wnam s ->
  (forall a, a <> wnam -> is_token_whitelisted s a = true -> credited l (mkey (erc20_token a)) <= 0 \/
    amt (tokens s) (mkey (erc20_token a)) + credited l (mkey (erc20_token a)) <= default 0 (caps s !! a)) -> caps_ok wnam (credit_state l s).
Proof. intros Hc Hl a Ha Hw. specialize (Hc a Ha Hw). specialize (Hl a Ha Hw). cbn [caps credit_state set_tokens]. credits_simpl. lia. Qed.

Lemma deliver_ok wnam s t : backed wnam s -> caps_ok wnam s -> room wnam s [t] ->
  let l := delivery_of wnam s t in deliver wnam t s = (credit_state l s, Ok tt) /\ backed wnam (credit_state l s) /\
    caps_ok wnam (credit_state l s) /\ delivers wnam (native_token s) [t] l.
Proof using HU HC.
  intros Hb Hc [Ha Hn He Hu]. destruct t as [d a r]. inversion_clear Ha as [|? ? Hd _]. cbn in Hd. unfold deliver, delivery_of. cbn.
  rewrite incoming_one in Hn. setoid_rewrite incoming_one in He. setoid_rewrite incoming_one in Hu.
  destruct (Z.eqb_spec a wnam) as [->|Hne]; cbn [negb].
  - rewrite decide_True in Hn by done.
    split; [by apply redeem_runs; [..|apply (bk_store wnam s Hb)]|]. split; [by apply redeem_backed|].
    split; [|by apply redeem_delivers]. apply caps_ok_credit; [done|]. intros a Ha Hw. left. unfold redeem_credits. tokens_solve.
  - specialize (He a Hne). specialize (Hu a Hne). rewrite decide_True in He, Hu by done.
    destruct (mint_assets_ok wnam s a r d Hb Hc Hne Hd He Hu) as (He0 & E & Hb').
    assert (is_token_whitelisted s a = true -> amt (tokens s) (mkey (erc20_token a)) + Z.min d (headroom s a) <= default 0 (caps s !! a)) as Hcap
      by (intros Hw; unfold headroom; rewrite Hw; lia).
    set (e := Z.min d (headroom s a)) in *. split_and!; [done|done| |].
    2: { assert (d = (d - e) + e) as Hde by lia. rewrite Hde at 1. apply mint_delivers; (done || lia). }
    apply caps_ok_credit; [done|]. intros b Hb0 Hw. unfold mint_credits, amount_is_zero. destruct (decide (a = b)) as [->|Hab].
    + right. specialize (Hcap Hw). destruct (Z.eqb_spec (d - e) 0), (Z.eqb_spec e 0); cbn [negb]; tokens_solve.
    + left. destruct (Z.eqb_spec (d - e) 0), (Z.eqb_spec e 0); cbn [negb]; tokens_solve.
Qed.

Lemma deliver_all_ok wnam ts : forall s, backed wnam s -> caps_ok wnam s -> room wnam s ts ->
  let l := delivery wnam s ts in st_iter (deliver wnam) ts s = (credit_state l s, Ok tt) /\ backed wnam (credit_state l s) /\
    caps_ok wnam (credit_state l s) /\ delivers wnam (native_token s) ts l.
Proof using HU HC.
  induction ts as [|t ts IH]; intros s Hb Hc Hr; cbn [delivery]; cbv zeta.
  { assert (credit_state [] s = s) as -> by (by destruct s). split_and!; try done. apply delivers_nil. }
  destruct (deliver_ok wnam s t Hb Hc (room_part wnam s [t] ts _ (Permutation_refl _) Hr)) as (E & Hb1 & Hc1 & Hd).
  set (l := delivery_of wnam s t) in *.
  destruct (IH (credit_state l s) Hb1 Hc1 (room_tail wnam s [t] ts l Hr Hd)) as (E' & Hb2 & Hc2 & Hd').
  rewrite credit_state_app. split_and!; [|done|done|by apply (delivers_app _ _ [t])]. cbn [st_iter]. unfold st_bind. by rewrite E, E'.
Qed.
(** ** Time-outs *)
Section timeouts.
Context {HP : PoolCodecLaws P}.

Lemma inserted_height_leaf s h b : in_hash h -> leaves (pool_tree s) !! h = Some b -> inserted_height s h = Ok b.
Proof using HP.
  intros Hh Hl. unfold inserted_height, BridgePool.get, parse_key, keccak_try_from. cbn [hexupper_decode pool_keccak].
  rewrite hex_decode_encode by (apply to_be_bytes_ok; done). cbn [mbind option_bind].
  rewrite (proj2 (Nat.eqb_eq _ _)) by apply to_be_bytes_length. cbn [ok_or out_bind].
  unfold hash_bytes. rewrite from_to_be_bytes by done. by rewrite Hl.
Qed.
Lemma inserted_height_missing s h : in_hash h -> leaves (pool_tree s) !! h = None -> inserted_height s h = Err NotInPoolTree.
Proof using HP.
  intros Hh Hl. unfold inserted_height, BridgePool.get, parse_key, keccak_try_from. cbn [hexupper_decode pool_keccak].
  rewrite hex_decode_encode by (apply to_be_bytes_ok; done). cbn [mbind option_bind].
  rewrite (proj2 (Nat.eqb_eq _ _)) by apply to_be_bytes_length. cbn [ok_or out_bind].
  unfold hash_bytes. rewrite from_to_be_bytes by done. by rewrite Hl.
Qed.
(** The transfers that were committed up to a height *)
Definition timed_out (timeout : BlockHeight) (s : Bridge) (h : KeccakHash) : bool :=
  match leaves (pool_tree s) !! h with Some b => b <=? timeout | None => false end.
Definition expired_in (timeout : BlockHeight) (s : Bridge) (ks : list KeccakHash) : list KeccakHash :=
  List.filter (timed_out timeout s) ks.

Lemma refund_loop_ok wnam timeout ks : forall s ev, backed wnam s -> NoDup ks ->
  Forall (fun k => is_Some (pool s !! k) /\ is_Some (leaves (pool_tree s) !! k)) ks ->
  let xs := expired_in timeout s ks in
  let s' := settled (mjoin (refund_credits wnam (native_token s) <$> pending_of s xs)) xs s in
  refund_loop timeout ks ev s = (s', Ok (list_to_set ((fun h => (h, Expired)) <$> xs) ∪ ev)) /\ backed wnam s'.
Proof using HU HC HP.
  induction ks as [|k ks IH]; intros s ev Hb Hnd Hin; cbn zeta.
  { split; [|by destruct s]. cbn. unfold st_ret. f_equal; [by destruct s|]. f_equal; set_solver. }
  apply list.NoDup_cons in Hnd as [Hk Hnd]. inversion_clear Hin as [|? ? [[p Hp] [b Hl]] Hin'].
  pose proof (bk_transfers wnam s Hb k p Hp) as Htr. assert (in_hash k) as Hr by (rewrite <- (ok_hash _ _ _ Htr); apply abi_keccak_range).
  cbn [refund_loop]. unfold st_bind at 1 2, st_get, st_lift. cbn [id]. rewrite (inserted_height_leaf s k b Hr Hl).
  assert (expired_in timeout s (k :: ks) = if b <=? timeout then k :: expired_in timeout s ks else expired_in timeout s ks) as ->
    by (unfold expired_in; cbn [List.filter]; unfold timed_out at 1; by rewrite Hl).
  destruct (b <=? timeout); [|by apply IH]. destruct (refund_transfer_ok wnam k p s Hb Hp) as [Ek Hb']. set (s1 := refunded wnam k p s) in *.
  unfold st_bind. rewrite Ek. destruct (IH s1 ({[(k, Expired)]} ∪ ev) Hb' Hnd) as [Heq Hb''].
  { apply list.Forall_forall. intros k' Hk'. rewrite list.Forall_forall in Hin'. cbn. rewrite lookup_delete_ne; [by apply Hin'|]. by intros ->. }
  assert (expired_in timeout s1 ks = expired_in timeout s ks) as Hx by done. rewrite Hx in *.
  assert (k ∉ expired_in timeout s ks) as Hnx by (unfold expired_in; rewrite list_elem_of_In, filter_In, <- list_elem_of_In; tauto).
  change (native_token s1) with (native_token s) in *. change s1 with (settled (refund_credits wnam (native_token s) p) [k] s) in *.
  rewrite pending_of_settled, settled_settled in Heq, Hb'' by done.
  replace (pending_of s (k :: expired_in timeout s ks)) with (p :: pending_of s (expired_in timeout s ks))
    by (unfold pending_of; cbn [omap list_omap]; by rewrite Hp).
  split; [|exact Hb'']. rewrite Heq. cbn [list_to_set fmap list_fmap]. do 2 f_equal; set_solver.
Qed.

(** A transfer that is not in the tree yet stops the loop *)
Lemma refund_loop_missing wnam timeout ks : forall s ev h, backed wnam s -> NoDup ks -> Forall (fun k => is_Some (pool s !! k)) ks ->
  h ∈ ks -> leaves (pool_tree s) !! h = None -> exists s', refund_loop timeout ks ev s = (s', Err NotInPoolTree).
Proof using HU HC HP.
  induction ks as [|k ks IH]; intros s ev h Hb Hnd Hin Hh Hl; [by apply not_elem_of_nil in Hh|].
  apply list.NoDup_cons in Hnd as [Hk Hnd]. inversion_clear Hin as [|? ? [p Hp] Hin'].
  pose proof (bk_transfers wnam s Hb k p Hp) as Htr. assert (in_hash k) as Hr by (rewrite <- (ok_hash _ _ _ Htr); apply abi_keccak_range).
  cbn [refund_loop]. unfold st_bind at 1 2, st_get, st_lift. cbn [id]. destruct (leaves (pool_tree s) !! k) as [b|] eqn:Hb0.
  2: { by rewrite inserted_height_missing by done; eexists. }
  assert (h ∈ ks) as Hh' by (apply elem_of_cons in Hh as [->|?]; [congruence|done]). rewrite (inserted_height_leaf s k b Hr Hb0).
  destruct (b <=? timeout); [|by apply (IH s ev h)]. destruct (refund_transfer_ok wnam k p s Hb Hp) as [Ek Hb']. unfold st_bind. rewrite Ek.
  apply (IH _ _ h); try done. apply list.Forall_forall. intros k' Hk'. rewrite list.Forall_forall in Hin'. cbn. rewrite lookup_delete_ne; [by apply Hin'|].
  by intros ->.
Qed.

(** The order of credits and removals does not matter *)
Lemma settled_perm l l' hs hs' s : Permutation l l' -> Permutation hs hs' -> settled l hs s = settled l' hs' s.
Proof.
  intros Hl Hh. unfold settled, set_pool, credit_state, set_tokens. cbn. rewrite (credits_perm l l') by done. f_equal.
  apply map_eq. intros k. rewrite !lookup_remove_all. destruct (decide (k ∈ hs)) as [Hk|Hk]; rewrite Hh in Hk.
  - by rewrite decide_True.
  - by rewrite decide_False.
Qed.
Lemma expired_perm timeout s ks ks' : Permutation ks ks' -> Permutation (expired_in timeout s ks) (expired_in timeout s ks').
Proof.
  induction 1 as [|x l l' _ IH|x y l|l1 l2 l3 _ IH1 _ IH2]; unfold expired_in in *; cbn [List.filter]; [done| | |by etrans].
  - destruct (timed_out timeout s x); by rewrite IH.
  - destruct (timed_out timeout s x), (timed_out timeout s y); try done. apply Permutation_swap.
Qed.
Lemma pending_of_perm s hs hs' : Permutation hs hs' -> Permutation (pending_of s hs) (pending_of s hs').
Proof. intros H. unfold pending_of. by rewrite H. Qed.

(** The transfers of an event that the pool can settle *)
Record relayable (s : Bridge) (es : list TransferToEthereumEvent) : Prop := {
  rl_nonce : committed_nonce s + 1 < 2 ^ 256;
  rl_nodup : NoDup (event_keccak256 <$> es);
  rl_pool : Forall (fun e => is_Some (pool s !! event_keccak256 e)) es;
  rl_tree h : is_Some (pool s !! h) -> is_Some (leaves (pool_tree s) !! h);
  rl_epoch : is_Some (min_num_of_blocks s)
}.
(** The transfers that time out: those that are not relayed and were committed
    long enough ago *)
Definition expired_after (s : Bridge) (es : list TransferToEthereumEvent) : list KeccakHash :=
  let offset := default 0 (min_num_of_blocks s) in
  if height s >? offset
  then expired_in (height s - offset) s (elements (dom (pool s) ∖ list_to_set (event_keccak256 <$> es)))
  else [].
Definition settle_credits (wnam : EthAddress) (relayer : Address) (s : Bridge) (es : list TransferToEthereumEvent) : list (Key * Z) :=
  mjoin (relay_credits wnam relayer <$> pending_of s (event_keccak256 <$> es)) ++
  mjoin (refund_credits wnam (native_token s) <$> pending_of s (expired_after s es)).

Lemma act_on_transfers_to_eth_ok wnam s es relayer order : backed wnam s -> relayable s es ->
  (forall X, Permutation (order X) (elements X)) ->
  let s' := settled (settle_credits wnam relayer s es) ((event_keccak256 <$> es) ++ expired_after s es) (set_nonce (committed_nonce s + 1) s) in
  act_on_transfers_to_eth order es relayer s =
    (s', Ok (list_to_set ((fun h => (h, Expired)) <$> expired_after s es) ∪ list_to_set ((fun h => (h, Relayed)) <$> (event_keccak256 <$> es)))) /\
  backed wnam s'.
Proof using HU HC HP.
  intros Hb [Hn Hnd Hin Htree [off Hoff]] Hord. cbn zeta. set (s0 := set_nonce (committed_nonce s + 1) s).
  assert (backed wnam s0) as Hb0 by (destruct Hb; by split).
  unfold act_on_transfers_to_eth, increment_bp_nonce. unfold st_bind at 1 2, st_get at 1. rewrite (proj2 (Z.ltb_lt _ _)) by done.
  unfold st_mod. unfold st_bind at 1, st_get at 1. cbn [pool set_nonce].
  destruct (relay_loop_ok wnam relayer es s0 (dom (pool s)) ∅ Hb0 Hnd Hin) as [Heq Hb1]. unfold st_bind at 1. fold s0. rewrite Heq. clear Heq.
  set (hs := event_keccak256 <$> es) in *. set (rest := dom (pool s) ∖ list_to_set hs).
  change (pending_of s0 hs) with (pending_of s hs) in *. set (l1 := mjoin (relay_credits wnam relayer <$> pending_of s hs)) in *.
  set (s1 := settled l1 hs s0) in *. rewrite union_empty_r_L.
  assert (expired_after s es = if height s >? off then expired_in (height s - off) s (elements rest) else []) as Hexp by (unfold expired_after; by rewrite Hoff).
  unfold settle_credits. rewrite Hexp. fold hs l1.
  assert (forall h, h ∈ rest -> pool s1 !! h = pool s !! h) as Hrest.
  { intros h [_ Hh]%elem_of_difference. cbn. rewrite lookup_remove_all, decide_False; [done|]. by rewrite elem_of_list_to_set in Hh. }
  case_bool_decide as Hempty.
  { rewrite Hempty, elements_empty.
    assert ((if height s >? off then expired_in (height s - off) s [] else []) = []) as -> by (by destruct (_ >? _)).
    cbn. rewrite !app_nil_r. fold s1. split; [|done]. unfold st_ret. by rewrite union_empty_l_L. }
  unfold st_bind, st_get, st_lift. cbn [min_num_of_blocks height s1 settled set_pool credit_state set_tokens set_nonce s0]. rewrite Hoff. cbn [ok_or].
  destruct (height s >? off); [|cbn; rewrite !app_nil_r, union_empty_l_L; by fold s1].
  destruct (refund_loop_ok wnam (height s - off) (order rest) s1 (list_to_set ((fun h => (h, Relayed)) <$> hs)) Hb1) as [Heq Hb2].
  - rewrite Hord. apply NoDup_elements.
  - rewrite Hord. apply list.Forall_forall. intros k Hk%elem_of_elements. rewrite Hrest by done. cbn.
    assert (is_Some (pool s !! k)) by (apply elem_of_dom; set_solver). auto.
  - assert (forall ks, expired_in (height s - off) s1 ks = expired_in (height s - off) s ks) as Hx by done. rewrite !Hx in Heq, Hb2.
    pose proof (expired_perm (height s - off) s _ _ (Hord rest)) as Hp. set (xs := expired_in (height s - off) s (order rest)) in *.
    set (ys := expired_in (height s - off) s (elements rest)) in *.
    assert (pending_of s1 xs = pending_of s xs) as Hpo.
    { unfold pending_of. apply list_omap_ext, Forall_Forall2_diag, list.Forall_forall. intros k Hk. apply Hrest.
      unfold xs, expired_in in Hk. apply list_elem_of_In, filter_In in Hk as [Hk _]. apply list_elem_of_In in Hk. rewrite Hord in Hk. by apply elem_of_elements. }
    rewrite Hpo in Heq, Hb2. change (native_token s1) with (native_token s) in *. unfold s1 in Heq at 2, Hb2.
    rewrite settled_settled in Heq, Hb2. rewrite <- (settled_perm (l1 ++ mjoin (refund_credits wnam (native_token s) <$> pending_of s xs)) _ (hs ++ xs) (hs ++ ys)).
    + split; [|done]. fold s1 in Heq. rewrite Heq. do 2 f_equal. apply set_eq. intros x. rewrite !elem_of_union, !elem_of_list_to_set. by rewrite Hp.
    + by rewrite (pending_of_perm s xs ys Hp).
    + by rewrite Hp.
Qed.

(** ** Both directions *)
Lemma credited_mjoin_le ls k : Forall (fun l => credited l k <= 0) ls -> credited (mjoin ls) k <= 0.
Proof. induction 1 as [|l ls Hl _ IH]; [done|]. change (mjoin (l :: ls)) with (l ++ mjoin ls). rewrite credited_app. lia. Qed.
Lemma settle_caps wnam relayer s es a : backed wnam s -> a <> wnam ->
  credited (settle_credits wnam relayer s es) (mkey (erc20_token a)) <= 0.
Proof.
  intros Hb Ha. unfold settle_credits. rewrite credited_app.
  assert (forall hs, Forall (fun p => exists h, transfer_ok wnam h p) (pending_of s hs)) as Hok.
  { intros hs. apply list.Forall_forall. intros p Hp. unfold pending_of in Hp. apply list_elem_of_omap in Hp as (h & _ & Hp).
    exists h. by apply (bk_transfers wnam s Hb). }
  assert (forall f, (forall h p, transfer_ok wnam h p -> credited (f p) (mkey (erc20_token a)) <= 0) ->
    forall hs, credited (mjoin (f <$> pending_of s hs)) (mkey (erc20_token a)) <= 0) as Hle.
  { intros f Hf hs. apply credited_mjoin_le, Forall_fmap. eapply Forall_impl; [apply Hok|]. intros p [h Hp]. by apply (Hf h). }
  apply (Z.add_nonpos_nonpos _ _); apply Hle; intros h p Htr;
    pose proof (token_address_native wnam p h Htr) as Htok; destruct Htr as [_ Hr _ _]; unfold in_u256 in Hr;
    unfold relay_credits, asset_credits, refund_credits, gas_credits; destruct (Z.eqb_spec (asset (pt_transfer p)) wnam) as [He|He];
    try rewrite Htok by done; tokens_solve.
Qed.

(** The transfers of a list of events *)
Definition all_transfers (l : list TransfersToNamada) : list TransferToNamada := mjoin (nam_transfers <$> l).
#[local] Instance all_transfers_perm : Proper (Permutation ==> Permutation) all_transfers.
Proof. intros l l' H. unfold all_transfers. by rewrite H. Qed.
Lemma all_transfers_app l l' : all_transfers (l ++ l') = all_transfers l ++ all_transfers l'.
Proof. unfold all_transfers. by rewrite fmap_app, join_app. Qed.

Lemma events_ok wnam l : forall s, backed wnam s -> caps_ok wnam s -> room wnam s (all_transfers l) ->
  let cs := delivery wnam s (all_transfers l) in
    st_iter (fun e => update_transfers_to_namada_state (nam_transfers e)) l s = (credit_state cs s, Ok tt) /\
    backed wnam (credit_state cs s) /\ caps_ok wnam (credit_state cs s) /\ delivers wnam (native_token s) (all_transfers l) cs.
Proof using HU HC.
  induction l as [|e l IH]; intros s Hb Hc Hr; cbv zeta.
  { change (delivery wnam s (all_transfers [])) with (@nil (Key * Z)). assert (credit_state [] s = s) as -> by (by destruct s). split_and!; try done. apply delivers_nil. }
  change (all_transfers (e :: l)) with (nam_transfers e ++ all_transfers l) in *. rewrite delivery_app.
  destruct (deliver_all_ok wnam (nam_transfers e) s Hb Hc (room_part _ _ _ _ _ (Permutation_refl _) Hr)) as (E & Hb1 & Hc1 & Hd).
  set (cs := delivery wnam s (nam_transfers e)) in *.
  destruct (IH (credit_state cs s) Hb1 Hc1 (room_tail wnam s _ _ cs Hr Hd)) as (E' & Hb2 & Hc2 & Hd').
  rewrite credit_state_app.
  split_and!; [|done|done|by apply delivers_app]. cbn [st_iter]. unfold st_bind at 1, update_transfers_to_namada_state at 1, read_native_erc20_address.
  unfold st_bind at 1 2, st_get, st_lift. rewrite (bk_erc20 wnam s Hb). cbn [ok_or]. unfold deliver in E. by rewrite E.
Qed.

(** The queue, with room for all its transfers *)
Record queue_ok (wnam : EthAddress) (s : Bridge) (e : TransfersToNamada) : Prop := {
  qu_wf : queue_wf nam_nonce (transfers_to_namada s);
  qu_new : nam_nonce e ∉ nam_nonce <$> Epoch.inner (transfers_to_namada s);
  qu_next : next_nonce_to_process (transfers_to_namada s) <= nam_nonce e;
  qu_max : Forall (fun e => nam_nonce e < 2 ^ 256 - 1) (e :: Epoch.inner (transfers_to_namada s));
  qu_room : room wnam s (all_transfers (e :: Epoch.inner (transfers_to_namada s)))
}.

Lemma push_event_ok wnam s e : queue_ok wnam s e -> exists q confirmed,
  push_event e s = (set_queue q s, Ok confirmed) /\ queue_wf nam_nonce q /\
  nam_nonce <$> confirmed = seqZ (next_nonce_to_process (transfers_to_namada s)) (Z.of_nat (Datatypes.length confirmed)) /\
  next_nonce_to_process q = next_nonce_to_process (transfers_to_namada s) + Z.of_nat (Datatypes.length confirmed) /\
  Permutation (e :: Epoch.inner (transfers_to_namada s)) (confirmed ++ Epoch.inner q) /\
  peek_event_nonce nam_nonce q <> Some (next_nonce_to_process q).
Proof.
  intros [Hwf Hnew Hnext Hmax Hroom]. unfold push_event.
  assert (forall it, push_and_iter (E:=bridge_error) nam_nonce e (transfers_to_namada s) = Ok it ->
    Datatypes.length (Epoch.inner (queue it)) = S (Datatypes.length (Epoch.inner (transfers_to_namada s)))) as Hlen.
  { intros it. unfold push_and_iter, try_push_event. destruct (_ >? _); [done|]. destruct (binary_search_by_key _ _ _) as [i|i]; [done|].
    intros [= <-]. cbn. unfold insert_at. rewrite length_app. cbn [Datatypes.length]. rewrite length_take, length_drop. lia. }
  destruct (push_step (E:=bridge_error) nam_nonce (transfers_to_namada s) e (S (S (Datatypes.length (Epoch.inner (transfers_to_namada s)))))
    Hwf Hnew Hnext Hmax) as (it & out & it' & E1 & E2 & H1 & H2 & H3 & H4 & H5).
  rewrite E1. cbn [out_bind]. rewrite (Hlen it E1), E2. exists (iter_drop it'), out. split_and!; try done. apply H5. lia.
Qed.

Lemma act_on_transfers_to_namada_ok wnam s e : backed wnam s -> caps_ok wnam s -> queue_ok wnam s e -> exists q confirmed,
  let cs := delivery wnam s (all_transfers confirmed) in
  act_on_transfers_to_namada e s = (set_queue q (credit_state cs s), Ok tt) /\
  backed wnam (set_queue q (credit_state cs s)) /\ caps_ok wnam (set_queue q (credit_state cs s)) /\
  queue_wf nam_nonce q /\ delivers wnam (native_token s) (all_transfers confirmed) cs /\
  nam_nonce <$> confirmed = seqZ (next_nonce_to_process (transfers_to_namada s)) (Z.of_nat (Datatypes.length confirmed)) /\
  Permutation (e :: Epoch.inner (transfers_to_namada s)) (confirmed ++ Epoch.inner q) /\
  next_nonce_to_process q = next_nonce_to_process (transfers_to_namada s) + Z.of_nat (Datatypes.length confirmed) /\
  peek_event_nonce nam_nonce q <> Some (next_nonce_to_process q).
Proof using HU HC.
  intros Hb Hc Hq. destruct (push_event_ok wnam s e Hq) as (q & confirmed & Ep & Hwf & Hnonces & Hnext & Hperm & Hpeek).
  assert (backed wnam (set_queue q s)) as Hb' by (destruct Hb; by split).
  assert (room wnam (set_queue q s) (all_transfers confirmed)) as Hr.
  { pose proof (all_transfers_perm _ _ Hperm) as Hp. rewrite all_transfers_app in Hp. destruct (room_part _ _ _ _ _ Hp (qu_room _ _ _ Hq)). by split. }
  destruct (events_ok wnam confirmed (set_queue q s) Hb' Hc Hr) as (E & Hb2 & Hc2 & Hd).
  rewrite delivery_queue in E, Hb2, Hc2, Hd. exists q, confirmed. split_and!; try done. unfold act_on_transfers_to_namada, st_bind. by rewrite Ep, E.
Qed.
End timeouts.

(** ** What the validity predicates accept *)
Section vps.
Context (pre post : Bridge) (Hpre : store_wf (tokens pre)) (Hpost : store_wf (tokens post)).

Lemma decode_amt m k : store_wf m -> amount_key k -> exists o, decode_amount (m !! k) = Ok o /\ default 0 o = amt m k.
Proof.
  intros Hs Hk. destruct (store_read_amount m k Hs Hk) as (o & Ho & Hd). unfold store_read in Ho. injection Ho as Ho. eauto.
Qed.
Lemma balance_delta_inv t a d : account_balance_delta pre post t a = Ok (Some d) ->
  let x := amt (tokens pre) (bkey t a) in let y := amt (tokens post) (bkey t a) in
  delta_base d = x /\ match delta d with Negative z => z = x - y /\ y < x | Positive z => z = y - x /\ x <= y end.
Proof using HU HC Hpre Hpost.
  unfold account_balance_delta. rewrite balance_key_bkey. cbn [out_bind].
  destruct (decode_amt (tokens pre) (bkey t a) Hpre (amount_key_bkey t a)) as (o & -> & Ho).
  destruct (decode_amt (tokens post) (bkey t a) Hpost (amount_key_bkey t a)) as (o' & -> & Ho').
  destruct o' as [y|]; [|done]. cbn in Ho'. cbn zeta. rewrite Ho. subst y.
  pose proof (amt_range _ _ Hpre (amount_key_bkey t a)). pose proof (amt_range _ _ Hpost (amount_key_bkey t a)).
  rewrite Z.gtb_ltb. unfold amount_sub. destruct (Z.ltb_spec (amt (tokens post) (bkey t a)) (amt (tokens pre) (bkey t a)));
    rewrite uint_sub_ok by (done || lia); cbn [out_bind]; intros [= <-]; done.
Qed.
Lemma escrow_balance_inv d b : check_escrowed_toks_balance pre post d = Ok (Some b) ->
  let at_ m a := amt (tokens m) (bkey (esc_token d) a) in
  at_ post (escrow_account d) = at_ pre (escrow_account d) + expected_credit d /\
  at_ post (payer_account d) = at_ pre (payer_account d) - expected_debit d /\ 0 < expected_debit d.
Proof using HU HC Hpre Hpost.
  unfold check_escrowed_toks_balance.
  destruct (account_balance_delta pre post (esc_token d) (payer_account d)) as [o1| |] eqn:E1; [|done..].
  destruct (account_balance_delta pre post (esc_token d) (escrow_account d)) as [o2| |] eqn:E2; [|done..]. cbn [out_bind].
  destruct o1 as [[b1 [x|x]]|]; destruct o2 as [[b2 [y|y]]|]; try done.
  apply balance_delta_inv in E1 as [_ E1]. apply balance_delta_inv in E2 as [_ E2]. cbn in E1, E2. 
  intros [= H]. destruct ((x =? expected_debit d) && (y =? expected_credit d)) eqn:Eb; [|done]. cbn zeta. lia.
Qed.
Lemma escrowed_toks_inv d : check_escrowed_toks pre post d = Ok true -> exists b, check_escrowed_toks_balance pre post d = Ok (Some b).
Proof.
  unfold check_escrowed_toks. destruct (check_escrowed_toks_balance pre post d) as [[b|]| |]; [eauto|done..].
Qed.
Lemma gas_escrow_inv wnam d : check_gas_escrow pre post wnam d = Ok true ->
  esc_token d <> erc20_token wnam /\ check_escrowed_toks pre post d = Ok true.
Proof. unfold check_gas_escrow. case_bool_decide; [done|]. destruct (is_nut _); [done|]. auto. Qed.
Lemma wnam_escrow_inv wnam p d : check_wnam_escrow pre post wnam p d = Ok true ->
  kind (pt_transfer p) = KErc20 /\ exists b, check_escrowed_toks_balance pre post d = Ok (Some b).
Proof.
  unfold check_wnam_escrow. destruct (kind (pt_transfer p)); [|done]. destruct (negb _); [done|].
  destruct (check_escrowed_toks_balance pre post d) as [[b|]| |]; [eauto|done..].
Qed.

(** The credits to the escrows that the checks ask for *)
Lemma escrow_checks_inv wnam p c : in_u256 (gas_amount (gas_fee p)) -> in_u256 (amount (pt_transfer p)) ->
  determine_escrow_checks pre wnam p = Ok c ->
  let both := if decide (token_address p = gas_token (gas_fee p)) then 1 else 0 in
  let native := asset (pt_transfer p) =? wnam in
  esc_token (gas_check c) = gas_token (gas_fee p) /\ escrow_account (gas_check c) = BRIDGE_POOL_ADDRESS /\
  expected_credit (gas_check c) = gas_amount (gas_fee p) + both * amount (pt_transfer p) /\
  esc_token (token_check c) = (if native then native_token pre else token_address p) /\
  escrow_account (token_check c) = (if native then BRIDGE_ADDRESS else BRIDGE_POOL_ADDRESS) /\
  expected_credit (token_check c) = amount (pt_transfer p) + both * gas_amount (gas_fee p).
Proof using HU.
  intros Hg Ha. unfold determine_escrow_checks.
  assert (forall x, sum_gas_and_token_amounts p = Ok x -> x = gas_amount (gas_fee p) + amount (pt_transfer p)) as Hsum.
  { intros x. unfold sum_gas_and_token_amounts, amount_checked_add. rewrite uint_checked_add_law by done.
    case_match; cbn [mbind option_bind]; [case_match|]; cbn [ok_or]; [by intros [= <-]|done|done]. }
  destruct (sum_gas_and_token_amounts p) as [x| |]; [specialize (Hsum x eq_refl); subst x|clear Hsum..];
    destruct (asset (pt_transfer p) =? wnam), (bool_decide (payer (gas_fee p) = sender (pt_transfer p))),
      (bool_decide (gas_token (gas_fee p) = native_token pre)), (decide (token_address p = gas_token (gas_fee p))) as [Hs|Hs];
    rewrite ?(bool_decide_true _ Hs), ?(bool_decide_false _ Hs); cbn [andb orb out_bind]; try done; intros Hc; injection Hc as <-;
    cbn [gas_check token_check esc_token escrow_account expected_credit]; split_and!; try done; lia.
Qed.

Lemma pool_keys_inv pk keys : pool_keys_ok pk keys = Ok true -> forall h, get_key_from_hash h ∈ keys -> get_key_from_hash h = pk.
Proof.
  induction keys as [|k keys IH]; cbn [pool_keys_ok]; intros Hok h Hh; [by apply not_elem_of_nil in Hh|].
  destruct (is_bridge_pool_key k) as [b| |] eqn:Hb; [|done..]. cbn [out_bind] in Hok.
  destruct (b && negb (bool_decide (k = pk))) eqn:E; [done|]. apply elem_of_cons in Hh as [<-|Hh]; [|by apply IH].
  cbn in Hb. rewrite bool_decide_true in Hb by done. injection Hb as <-. cbn in E. by apply negb_false_iff, bool_decide_eq_true in E.
Qed.

Record escrowed (wnam : EthAddress) (p : PendingTransfer) (keys : list Key) : Prop := {
  es_new : pool pre !! pending_keccak256 p = None;
  es_added : pool post !! pending_keccak256 p = Some p;
  es_keys h : get_key_from_hash h ∈ keys -> get_key_from_hash h = get_pending_key p;
  es_kind : asset (pt_transfer p) = wnam -> kind (pt_transfer p) = KErc20;
  es_gas : gas_token (gas_fee p) <> erc20_token wnam;
  es_native : asset (pt_transfer p) = wnam -> amt (tokens post) (bkey (native_token pre) BRIDGE_ADDRESS) =
    amt (tokens pre) (bkey (native_token pre) BRIDGE_ADDRESS) + amount (pt_transfer p);
  es_pool t : t = gas_token (gas_fee p) \/ asset (pt_transfer p) <> wnam /\ t = token_address p ->
    amt (tokens post) (bkey t BRIDGE_POOL_ADDRESS) = amt (tokens pre) (bkey t BRIDGE_POOL_ADDRESS) + escrow_of wnam t p
}.
Lemma pool_vp_inv wnam p keys : native_erc20 pre = Some wnam -> in_u256 (gas_amount (gas_fee p)) -> in_u256 (amount (pt_transfer p)) ->
  pool_validate_tx pre post (Some (Some p)) keys = Ok true -> escrowed wnam p keys.
Proof using HU HC Hpre Hpost.
  intros He Hg Ha. unfold pool_validate_tx. cbn [ok_or out_bind]. case_bool_decide as Hnew; [done|]. apply eq_None_not_Some in Hnew.
  destruct (pool_keys_ok (get_pending_key p) keys) as [[]| |] eqn:Hk; [|done..]. cbn [out_bind negb].
  destruct (pool post !! pending_keccak256 p) as [p'|] eqn:Hadd; [|done]. cbn [ok_or out_bind]. case_bool_decide as Hpp; [subst p'|done].
  cbn [negb]. rewrite He. cbn [ok_or out_bind]. destruct (determine_escrow_checks pre wnam p) as [c| |] eqn:Hc; [|done..]. cbn [out_bind].
  destruct (escrow_validate keys (gas_check c)) as [b1| |]; [|done..]. destruct (escrow_validate keys (token_check c)) as [b2| |]; [|done..].
  cbn [out_bind]. destruct (b1 && b2); cbn [negb]; [|done]. destruct (check_gas_escrow pre post wnam (gas_check c)) as [[]| |] eqn:Hgas; [|done..].
  cbn [out_bind negb]. intros Htok. apply gas_escrow_inv in Hgas as [Hne Hgas]. apply escrowed_toks_inv in Hgas as [bg Hgas].
  apply (escrow_checks_inv wnam p c Hg Ha) in Hc. cbn zeta in Hc. destruct Hc as (C1 & C2 & C3 & C4 & C5 & C6).
  apply (escrow_balance_inv) in Hgas. cbn zeta in Hgas. destruct Hgas as [Hgas _]. rewrite C1, C2, C3 in Hgas. rewrite C1 in Hne.
  assert (exists b, check_escrowed_toks_balance pre post (token_check c) = Ok (Some b) /\ (asset (pt_transfer p) = wnam -> kind (pt_transfer p) = KErc20)) as (b & Hb & Hkind).
  { destruct (Z.eqb_spec (asset (pt_transfer p)) wnam) as [Hw|Hw].
    - apply wnam_escrow_inv in Htok as [Hkd [b Hb]]. exists b. by split.
    - apply escrowed_toks_inv in Htok as [b Hb]. exists b. by split. }
  apply escrow_balance_inv in Hb. cbn zeta in Hb. destruct Hb as [Hb _]. rewrite C4, C5, C6 in Hb.
  split; try done; [by apply pool_keys_inv|..].
  - intros Hw. rewrite (proj2 (Z.eqb_eq _ _) Hw) in Hb. rewrite Hb. rewrite decide_False; [lia|]. intros Heq. apply Hne. rewrite <- Heq.
    unfold token_address. by rewrite (Hkind Hw), Hw.
  - intros t Ht. unfold escrow_of. destruct (Z.eqb_spec (asset (pt_transfer p)) wnam) as [Hw|Hw].
    + destruct Ht as [->|[? _]]; [|done]. rewrite Hgas. repeat case_decide; destruct_and?; try done; try lia.
      exfalso. apply Hne. rewrite <- H. unfold token_address. by rewrite (Hkind Hw), Hw.
    + destruct Ht as [->|[_ ->]]; rewrite ?Hgas, ?Hb; repeat case_decide; destruct_and?; try done; try lia; try congruence; tauto.
Qed.

Lemma bridge_vp_inv keys vs : bridge_validate_tx pre post keys vs = Ok true ->
  amt (tokens pre) (bkey (native_token pre) BRIDGE_ADDRESS) < amt (tokens post) (bkey (native_token pre) BRIDGE_ADDRESS).
Proof using HU HC Hpre Hpost.
  unfold bridge_validate_tx. destruct (validate_changed_keys (native_token pre) keys) as [[]| |]; [|done..]. cbn [out_bind negb].
  unfold check_escrow. rewrite balance_key_bkey. cbn [out_bind].
  destruct (decode_amt (tokens pre) (bkey (native_token pre) BRIDGE_ADDRESS) Hpre (amount_key_bkey _ _)) as (o & -> & <-).
  destruct (decode_amt (tokens post) (bkey (native_token pre) BRIDGE_ADDRESS) Hpost (amount_key_bkey _ _)) as (o' & -> & <-).
  destruct o as [x|], o' as [y|]; try done. intros [= H]. apply andb_true_iff in H as [H%Z.ltb_lt _]. done.
Qed.

Lemma get_key_inj {HP : PoolCodecLaws P} h h' : in_hash h -> in_hash h' -> get_key_from_hash h = get_key_from_hash h' -> h = h'.
Proof.
  intros Hh Hh' He. pose (f := fun k : Key => match k with [_; StringSeg x] => from_be_bytes <$> hex_decode x | _ => None end).
  assert (forall h, in_hash h -> f (get_key_from_hash h) = Some h) as Hf.
  { intros x Hx. unfold f, get_key_from_hash. rewrite hex_decode_encode by (by apply to_be_bytes_ok). cbn [fmap option_fmap option_map].
    f_equal. by apply from_to_be_bytes. }
  apply (f_equal f) in He. rewrite !Hf in He by done. by injection He.
Qed.
(** A transaction whose changes are those of its keys *)
Record tx_frame (keys : list Key) : Prop := {
  tf_nodup : NoDup keys;
  tf_tokens k : k ∉ keys -> tokens pre !! k = tokens post !! k;
  tf_pool h : pool post !! h <> pool pre !! h -> in_hash h /\ get_key_from_hash h ∈ keys;
  tf_native : native_token post = native_token pre;
  tf_erc20 : native_erc20 post = native_erc20 pre
}.

Lemma pool_after {HP : PoolCodecLaws P} wnam p keys : escrowed wnam p keys -> tx_frame keys -> pool post = <[pending_keccak256 p := p]> (pool pre).
Proof.
  intros Hes Hf. apply map_eq. intros h. destruct (decide (h = pending_keccak256 p)) as [->|Hne].
  { by rewrite lookup_insert_eq, (es_added _ _ _ Hes). }
  rewrite lookup_insert_ne by done. destruct (decide (pool post !! h = pool pre !! h)) as [|Hch]; [done|].
  destruct (tf_pool _ Hf h Hch) as [Hr Hk]. apply (es_keys _ _ _ Hes) in Hk. exfalso. apply Hne.
  apply get_key_inj; [done|apply abi_keccak_range|done].
Qed.

Lemma bk_post {HP : PoolCodecLaws P} wnam p keys vs : backed wnam pre -> tx_frame keys -> escrowed wnam p keys ->
  in_u256 (gas_amount (gas_fee p)) -> in_u256 (amount (pt_transfer p)) ->
  validate_tx (tokens pre) (tokens post) keys vs = Ok true ->
  (bkey (native_token pre) BRIDGE_ADDRESS ∈ keys -> bridge_validate_tx pre post keys vs = Ok true) ->
  (forall t, over t (fun k => amt (tokens pre) k + amt (tokens post) k) keys <= MAX_SIGNED_VALUE) ->
  (forall t, total (tokens post) t <= MAX_SIGNED_VALUE) ->
  (forall t, t <> gas_token (gas_fee p) -> asset (pt_transfer p) = wnam \/ t <> token_address p ->
    amt (tokens pre) (bkey t BRIDGE_POOL_ADDRESS) <= amt (tokens post) (bkey t BRIDGE_POOL_ADDRESS)) ->
  backed wnam post.
Proof using HU HC Hpre Hpost.
  intros Hb Hf Hes Hg Ha Hmt Hbr Hov Htot Hother. pose proof (pool_after wnam p keys Hes Hf) as Hpool.
  destruct Hf as [Hnd Htk _ Hnat Herc]. destruct Hes as [Hnew _ _ Hkind Hgas Hnative Hpl]. destruct Hb.
  assert (forall t, (forall h, t <> Internal (IbcToken h)) -> total (tokens post) t = total (tokens pre) t /\ amt (tokens post) (mkey t) = amt (tokens pre) (mkey t)) as Hcons.
  { intros t Ht. by apply (validate_tx_conserves (tokens pre) (tokens post) vs keys t). }
  assert (forall t, wrapped wnam t -> forall h, t <> Internal (IbcToken h)) as Hw by (by intros t Hw h ->).
  split; rewrite ?Hnat, ?Herc, ?Hpool; try done.
  - apply map_Forall_insert; [done|]. by split.
  - rewrite msum_insert. unfold mterm. rewrite Hnew. cbn. destruct (Hcons (erc20_token wnam)) as [_ ->]; [done|]. unfold native_pending at 2.
    destruct (Z.eqb_spec (asset (pt_transfer p)) wnam) as [Hw'|Hw']; [rewrite (Hnative Hw'); lia|].
    destruct (decide (bkey (native_token pre) BRIDGE_ADDRESS ∈ keys)) as [Hin|Hin].
    + pose proof (bridge_vp_inv keys vs (Hbr Hin)). lia.
    + unfold amt at 2. rewrite <- (Htk _ Hin). fold (amt (tokens pre) (bkey (native_token pre) BRIDGE_ADDRESS)). lia.
  - intros t. rewrite msum_insert. unfold mterm. rewrite Hnew. cbn. specialize (bk_pool0 t).
    destruct (decide (t = gas_token (gas_fee p) \/ asset (pt_transfer p) <> wnam /\ t = token_address p)) as [Ht|Ht]; [rewrite (Hpl t Ht); lia|].
    unfold escrow_of at 2. destruct (decide (asset (pt_transfer p) = wnam)) as [Hw'|Hw'].
    + specialize (Hother t ltac:(tauto) ltac:(auto)). repeat case_decide; destruct_and?; subst; try tauto; lia.
    + specialize (Hother t ltac:(tauto) ltac:(tauto)). repeat case_decide; destruct_and?; subst; try tauto; lia.
  - intros t Ht. destruct (Hcons t (Hw t Ht)) as [-> ->]. by apply bk_supply0.
Qed.
End vps.
End runs.

(** ** What the predicate of the pool does not look at *)
Section blind.
Context {U : UintOps} {C : AddressCodec} {HC : AddressCodecLaws C} {P : PoolCodec}.
Variables (pre post post' : Bridge) (t : Address).
Hypothesis Hsame : forall t' a, t' <> t -> tokens post' !! bkey t' a = tokens post !! bkey t' a.

Lemma delta_blind t' a : t' <> t -> account_balance_delta pre post' t' a = account_balance_delta pre post t' a.
Proof using HC Hsame. intros Ht. unfold account_balance_delta. rewrite balance_key_bkey. cbn [out_bind]. by rewrite Hsame. Qed.
Lemma escrow_blind d : esc_token d <> t -> check_escrowed_toks_balance pre post' d = check_escrowed_toks_balance pre post d.
Proof using HC Hsame. intros Ht. unfold check_escrowed_toks_balance. by rewrite !delta_blind. Qed.
Lemma validate_blind d keys a b : esc_token d <> t -> escrow_validate (keys ++ [bkey t a; bkey t b]) d = escrow_validate keys d.
Proof using HC.
  intros Ht. unfold escrow_validate. rewrite !balance_key_bkey. cbn [out_bind].
  assert (forall o, bool_decide (bkey (esc_token d) o ∈ keys ++ [bkey t a; bkey t b]) = bool_decide (bkey (esc_token d) o ∈ keys)) as Hk.
  { intros o. apply bool_decide_ext. rewrite elem_of_app, !elem_of_cons. split; [|auto]. intros [?|[H|[H|H]]]; [done|..].
    - by injection H.
    - by injection H.
    - by apply not_elem_of_nil in H. }
  by rewrite !Hk.
Qed.
Lemma pool_keys_blind pk keys a b : pool_keys_ok pk (keys ++ [bkey t a; bkey t b]) = pool_keys_ok pk keys.
Proof. induction keys as [|k keys IH]; [done|]. cbn [app pool_keys_ok]. by rewrite IH. Qed.
Lemma checks_tokens wnam p c : determine_escrow_checks pre wnam p = Ok c ->
  esc_token (gas_check c) = gas_token (gas_fee p) /\ (esc_token (token_check c) = native_token pre \/ esc_token (token_check c) = token_address p).
Proof.
  unfold determine_escrow_checks. destruct (sum_gas_and_token_amounts p) as [x| |]; destruct (asset (pt_transfer p) =? wnam), 
    (bool_decide (payer (gas_fee p) = sender (pt_transfer p))), (bool_decide (gas_token (gas_fee p) = native_token pre)),
    (bool_decide (token_address p = gas_token (gas_fee p))); cbn [andb orb out_bind]; try done; intros H; injection H as <-; auto.
Qed.
Lemma pool_vp_blind p keys a b : pool post' = pool post -> t <> gas_token (gas_fee p) -> t <> native_token pre -> t <> token_address p ->
  pool_validate_tx pre post' (Some (Some p)) (keys ++ [bkey t a; bkey t b]) = pool_validate_tx pre post (Some (Some p)) keys.
Proof using HC Hsame.
  intros Hpool H1 H2 H3. unfold pool_validate_tx. cbn [ok_or out_bind]. case_bool_decide; [done|]. rewrite pool_keys_blind.
  destruct (pool_keys_ok _ keys) as [[]| |]; [|done..]. cbn [out_bind negb]. rewrite Hpool. destruct (pool post !! _) as [q|]; [|done].
  cbn [ok_or out_bind]. destruct (negb _); [done|]. destruct (native_erc20 pre) as [wnam|]; [|done]. cbn [ok_or out_bind].
  destruct (determine_escrow_checks pre wnam p) as [c| |] eqn:Hc; [|done..]. cbn [out_bind]. apply checks_tokens in Hc as [Hg Ht].
  assert (esc_token (gas_check c) <> t) as Hgt by congruence. assert (esc_token (token_check c) <> t) as Htt by (destruct Ht; congruence).
  rewrite !validate_blind by done. unfold check_gas_escrow, check_wnam_escrow, check_escrowed_toks. by rewrite !escrow_blind.
Qed.
End blind.

(** ** Typing

    Amounts are 256 bits wide wherever they are stored. *)
Section typing.
Context {U : UintOps} {HU : UintLaws U} {C : AddressCodec} {HC : AddressCodecLaws C} {P : PoolCodec}.

Definition transfers_typed (ts : list TransferToNamada) : Prop := Forall (fun t => in_u256 (nam_amount t)) ts.
Definition pending_typed (p : PendingTransfer) : Prop := in_u256 (amount (pt_transfer p)) /\ in_u256 (gas_amount (gas_fee p)).
Record typed (s : Bridge) : Prop := {
  ty_store : store_wf (tokens s);
  ty_pool : map_Forall (fun _ => pending_typed) (pool s);
  ty_caps : map_Forall (fun _ => in_u256) (caps s);
  ty_queue : Forall (fun e => transfers_typed (nam_transfers e)) (Epoch.inner (transfers_to_namada s))
}.
(** A computation keeps the types, whatever it returns, never fails to decode,
    and returns a value with [Q]. *)
Definition typed_result {A} (Q : A -> Prop) (r : outcome bridge_error A) : Prop :=
  match r with Ok a => Q a | Err e => e <> BridgeDecode | Panic => True end.
Definition runs_typed {A} (Q : A -> Prop) (m : st Bridge bridge_error A) : Prop :=
  forall s, typed s -> typed (m s).1 /\ typed_result Q (m s).2.

Lemma typed_bind {A B} (Q : A -> Prop) (R : B -> Prop) m k : runs_typed Q m -> (forall a, Q a -> runs_typed R (k a)) -> runs_typed R (st_bind m k).
Proof.
  intros Hm Hk s Hs. specialize (Hm s Hs). unfold st_bind. destruct (m s) as [s1 [a| |]]; cbn in *; destruct Hm as [H1 H2]; [by apply Hk|done..].
Qed.
Lemma typed_ret {A} (Q : A -> Prop) a : Q a -> runs_typed Q (st_ret a).
Proof. by intros Ha s Hs. Qed.
Lemma typed_panic {A} (Q : A -> Prop) : runs_typed Q st_panic.
Proof. by intros s Hs. Qed.
Lemma typed_lift {A} (Q : A -> Prop) r : typed_result Q r -> runs_typed Q (st_lift r).
Proof. by intros Hr s Hs. Qed.
Lemma typed_get {A} (Q : A -> Prop) f : (forall s, typed s -> Q (f s)) -> runs_typed Q (st_get f).
Proof. intros Hf s Hs. split; [done|]. by apply Hf. Qed.
Lemma typed_mod f : (forall s, typed s -> typed (f s)) -> runs_typed (fun _ => True) (st_mod f).
Proof. intros Hf s Hs. split; [by apply Hf|done]. Qed.
Lemma typed_iter {A} (f : A -> st Bridge bridge_error unit) l : Forall (fun a => runs_typed (fun _ => True) (f a)) l -> runs_typed (fun _ => True) (st_iter f l).
Proof.
  induction 1 as [|a l Ha _ IH]; cbn [st_iter]; [by apply typed_ret|]. apply (typed_bind (fun _ => True)); [done|]. by intros.
Qed.

Lemma typed_update k (f : Z -> outcome bridge_error Z) : amount_key k -> (forall a, in_u256 a -> typed_result in_u256 (f a)) ->
  runs_typed (fun _ => True) (update_amount k f).
Proof.
  intros Hk Hf s Hs. unfold update_amount, st_bind, st_get, st_lift, st_mod.
  destruct (decode_amt (tokens s) k (ty_store s Hs) Hk) as (o & -> & ->).
  specialize (Hf (amt (tokens s) k) (amt_range _ _ (ty_store s Hs) Hk)). destruct (f (amt (tokens s) k)) as [a'| |]; cbn in *; [|done..].
  split; [|done]. destruct Hs. split; [by apply store_wf_set|done..].
Qed.
Lemma spend_typed a d : in_u256 a -> in_u256 d -> typed_result in_u256 (spend a d).
Proof. intros Ha Hd. unfold spend. rewrite uint_checked_sub_law by done. case_match; cbn; [unfold in_u256 in *; lia|done]. Qed.
Lemma receive_typed a d : in_u256 a -> in_u256 d -> typed_result in_u256 (receive a d).
Proof. intros Ha Hd. unfold receive. rewrite uint_checked_add_law by done. case_match; cbn; [unfold in_u256 in *; lia|done]. Qed.
Lemma spend_at_typed t o d : in_u256 d -> runs_typed (fun _ => True) (spend_at t o d).
Proof using HU HC.
  intros Hd. unfold spend_at. rewrite balance_key_bkey. apply (typed_bind (fun k => k = bkey t o)); [by apply typed_lift|].
  intros k ->. apply typed_update; [apply amount_key_bkey|]. intros a Ha. by apply spend_typed.
Qed.
Lemma receive_at_typed t o d : in_u256 d -> runs_typed (fun _ => True) (receive_at t o d).
Proof using HU HC.
  intros Hd. unfold receive_at. rewrite balance_key_bkey. apply (typed_bind (fun k => k = bkey t o)); [by apply typed_lift|].
  intros k ->. apply typed_update; [apply amount_key_bkey|]. intros a Ha. by apply receive_typed.
Qed.
Lemma spend_supply_typed t d : in_u256 d -> runs_typed (fun _ => True) (spend_supply t d).
Proof using HU HC.
  intros Hd. unfold spend_supply. rewrite minted_key_mkey. apply (typed_bind (fun k => k = mkey t)); [by apply typed_lift|].
  intros k ->. apply typed_update; [apply amount_key_mkey|]. intros a Ha. by apply spend_typed.
Qed.
Lemma receive_supply_typed t d : in_u256 d -> runs_typed (fun _ => True) (receive_supply t d).
Proof using HU HC.
  intros Hd. unfold receive_supply. rewrite minted_key_mkey. apply (typed_bind (fun k => k = mkey t)); [by apply typed_lift|].
  intros k ->. apply typed_update; [apply amount_key_mkey|]. intros a Ha. by apply receive_typed.
Qed.

Create HintDb typed.
Hint Resolve typed_ret typed_panic spend_at_typed receive_at_typed spend_supply_typed receive_supply_typed : typed.
(** Go through binds and conditionals whose results carry no information *)
Ltac typed_step := first [solve [eauto with typed] | apply (typed_bind (fun _ => True)); [|intros ? _] | case_match | apply typed_ret; done].

Lemma add_typed a b : in_u256 a -> in_u256 b -> typed_result in_u256 (amount_add (E:=bridge_error) a b).
Proof. intros Ha Hb. unfold amount_add, uint_add. rewrite uint_op_add_law by done. case_match; cbn; [unfold in_u256 in *; lia|done]. Qed.
Lemma sub_typed a b : in_u256 a -> in_u256 b -> typed_result in_u256 (amount_sub (E:=bridge_error) a b).
Proof. intros Ha Hb. unfold amount_sub, uint_sub. rewrite uint_op_sub_law by done. case_match; cbn; [unfold in_u256 in *; lia|done]. Qed.
Lemma typed_out_bind {A B} (Q : A -> Prop) (R : B -> Prop) r k : typed_result Q r -> (forall a, Q a -> typed_result R (k a)) -> typed_result R (out_bind r k).
Proof. intros Hr Hk. destruct r; cbn in *; [by apply Hk|done..]. Qed.

Definition mint_typed (m : EthAssetMint) : Prop := in_u256 (nut_amount m) /\ in_u256 (erc20_amount m).
Lemma assets_typed s a d : typed s -> in_u256 d -> typed_result mint_typed (get_eth_assets_to_mint s a d).
Proof using HU HC.
  intros Hs Hd. assert (in_u256 0) as H0 by (by vm_compute). unfold get_eth_assets_to_mint. destruct (negb _); [done|].
  unfold get_token_supply. rewrite minted_key_mkey. cbn [out_bind].
  destruct (decode_amt (tokens s) (mkey (erc20_token a)) (ty_store s Hs) (amount_key_mkey _)) as (o & -> & Ho). cbn [out_bind]. rewrite Ho.
  pose proof (amt_range _ _ (ty_store s Hs) (amount_key_mkey (erc20_token a))) as Hsup.
  assert (in_u256 (default 0 (get_token_cap s a))) as Hcap.
  { unfold get_token_cap. destruct (caps s !! a) as [c|] eqn:Hc; [by apply (ty_caps s Hs a)|done]. }
  case_match; [done|]. eapply typed_out_bind; [by apply add_typed|]. intros sum _. case_match; [|done].
  eapply typed_out_bind; [by apply sub_typed|]. intros e He. eapply typed_out_bind; [by apply sub_typed|]. by intros n Hn.
Qed.

Lemma set_pool_typed h s : typed s -> typed (set_pool (base.delete h) s).
Proof. intros []. split; [done|by apply map_Forall_delete|done..]. Qed.
Lemma native_erc20_typed : runs_typed (fun _ => True) read_native_erc20_address.
Proof.
  unfold read_native_erc20_address. apply (typed_bind (fun _ => True)); [by apply typed_get|]. intros [a|] _; by apply typed_lift.
Qed.
Lemma native_token_typed : runs_typed (fun _ => True) (st_get native_token).
Proof. by apply typed_get. Qed.
Lemma delete_typed h : runs_typed (fun _ => True) (st_mod (set_pool (base.delete h))).
Proof. apply typed_mod. apply set_pool_typed. Qed.
Hint Resolve native_erc20_typed native_token_typed delete_typed : typed.

Lemma mint_eth_assets_typed a r d : in_u256 d -> runs_typed (fun _ => True) (mint_eth_assets a r d).
Proof using HU HC.
  intros Hd. unfold mint_eth_assets. apply (typed_bind typed); [by apply typed_get|]. intros s Hs.
  apply (typed_bind mint_typed); [by apply typed_lift, assets_typed|]. intros m [Hn He]. unfold mint. repeat typed_step.
Qed.
Lemma redeem_native_token_typed a r d : in_u256 d -> runs_typed (fun _ => True) (redeem_native_token a r d).
Proof using HU HC. intros Hd. unfold redeem_native_token. repeat typed_step. Qed.
Lemma update_namada_typed ts : transfers_typed ts -> runs_typed (fun _ => True) (update_transfers_to_namada_state ts).
Proof using HU HC.
  intros Ht. unfold update_transfers_to_namada_state. typed_step; [typed_step|]. apply typed_iter. eapply Forall_impl; [exact Ht|].
  cbn. intros t Hd. case_match; [by apply mint_eth_assets_typed|by apply redeem_native_token_typed].
Qed.

(** The confirmed events and those that stay are those of the queue *)
Lemma iter_take_inner n : forall it out it', iter_take (E:=bridge_error) nam_nonce n it = Ok (out, it') ->
  Epoch.inner (queue it) = out ++ Epoch.inner (queue it').
Proof.
  induction n as [|n IH]; intros it out it'; cbn [iter_take]; [by intros [= <- <-]|]. unfold iter_next.
  destruct (Epoch.inner (queue it)) as [|e l] eqn:Hin; [cbn; intros [= <- <-]; by rewrite Hin|].
  destruct (nam_nonce e =? current_nonce it); [|cbn; intros [= <- <-]; by rewrite Hin]. case_match; [|done]. cbn [out_bind fst snd].
  destruct (iter_take nam_nonce n _) as [[o i]| |] eqn:E; [|done..]. cbn [out_bind fst snd]. intros [= <- <-]. apply IH in E. cbn in E. by rewrite E.
Qed.
Lemma push_inner e q it : push_and_iter (E:=bridge_error) nam_nonce e q = Ok it -> Permutation (Epoch.inner (queue it)) (e :: Epoch.inner q).
Proof.
  unfold push_and_iter, try_push_event. case_match; [done|]. destruct (binary_search_by_key _ _ _) as [i|i]; [done|]. intros [= <-]. cbn.
  unfold insert_at. rewrite <- Permutation_middle. by rewrite take_drop.
Qed.
Lemma iter_take_no_err n : forall it x, iter_take nam_nonce n it <> Err (A:=list TransfersToNamada * _) (x : bridge_error).
Proof.
  induction n as [|n IH]; intros it x; cbn [iter_take]; [done|]. unfold iter_next. destruct (Epoch.inner (queue it)) as [|e l]; [done|].
  repeat case_match; cbn; try done. specialize (IH (mkIter (current_nonce it + 1) (mkQueue (next_nonce_to_process (queue it)) l))).
  destruct (iter_take nam_nonce n _) as [[]| |]; cbn in *; congruence.
Qed.
Lemma push_event_typed e : transfers_typed (nam_transfers e) -> runs_typed (Forall (fun e => transfers_typed (nam_transfers e))) (push_event e).
Proof.
  intros He s Hs. unfold push_event. destruct (push_and_iter nam_nonce e (transfers_to_namada s)) as [it|x|] eqn:Ep; cbn [out_bind].
  - destruct (iter_take nam_nonce _ it) as [[out it']|x|] eqn:Et; cbn.
    + apply iter_take_inner in Et. apply push_inner in Ep. rewrite Et in Ep.
      assert (Forall (fun e => transfers_typed (nam_transfers e)) (out ++ Epoch.inner (queue it'))) as Hall
        by (rewrite Ep; constructor; [done|apply (ty_queue s Hs)]).
      apply Forall_app in Hall as [Hout Hin]. split; [|done]. destruct Hs. split; try done. cbn. unfold iter_drop. by case_match.
    + by apply iter_take_no_err in Et.
    + done.
  - exfalso. revert Ep. unfold push_and_iter, try_push_event. repeat case_match; done.
  - done.
Qed.
Lemma act_on_namada_typed e : transfers_typed (nam_transfers e) -> runs_typed (fun _ => True) (act_on_transfers_to_namada e).
Proof using HU HC.
  intros He. unfold act_on_transfers_to_namada. eapply typed_bind; [by apply push_event_typed|]. intros l Hl. apply typed_iter.
  eapply Forall_impl; [exact Hl|]. intros e' He'. by apply update_namada_typed.
Qed.

Lemma refund_transfer_typed h : runs_typed (fun _ => True) (refund_transfer h).
Proof using HU HC.
  unfold refund_transfer. apply (typed_bind (fun o => match o with Some p => pending_typed p | None => True end)).
  { apply typed_get. intros s Hs. destruct (pool s !! h) as [p|] eqn:Hp; [|done]. by apply (ty_pool s Hs h). }
  intros o Ho. apply (typed_bind pending_typed); [apply typed_lift; by destruct o|]. intros p [Ha Hg].
  unfold refund_transfer_fees, refund_transferred_assets. repeat typed_step.
Qed.
Lemma relay_loop_typed relayer es : forall pk ev, runs_typed (fun _ => True) (relay_loop relayer es pk ev).
Proof using HU HC.
  induction es as [|e es IH]; intros pk ev; cbn [relay_loop]; [by apply typed_ret|].
  apply (typed_bind (fun o => match o with Some (p, _) => pending_typed p | None => True end)).
  { apply typed_get. intros s Hs. unfold lookup_transfer_to_eth. destruct (pool s !! event_keccak256 e) as [p|] eqn:Hp; [|done]. by apply (ty_pool s Hs (event_keccak256 e)). }
  intros o Ho. apply (typed_bind (fun pk => pending_typed pk.1)); [apply typed_lift; by destruct o as [[p k]|]|]. intros [p k] [Ha Hg]. cbn in Ha, Hg.
  unfold update_transferred_asset_balances. repeat first [apply IH | typed_step].
Qed.
Lemma refund_loop_typed timeout ks : forall ev, runs_typed (fun _ => True) (refund_loop timeout ks ev).
Proof using HU HC.
  induction ks as [|k ks IH]; intros ev; cbn [refund_loop]; [by apply typed_ret|].
  apply (typed_bind (fun _ => True)); [by apply typed_get|]. intros s _. apply (typed_bind (fun _ => True)).
  { apply typed_lift. unfold inserted_height. by case_match. }
  intros h _. case_match; [|apply IH]. apply (typed_bind (fun _ => True)); [apply refund_transfer_typed|]. intros ? _. apply IH.
Qed.
Lemma act_on_eth_typed order es relayer : runs_typed (fun _ => True) (act_on_transfers_to_eth order es relayer).
Proof using HU HC.
  unfold act_on_transfers_to_eth, increment_bp_nonce. apply (typed_bind (fun _ => True)).
  { apply (typed_bind (fun _ => True)); [by apply typed_get|]. intros n _. case_match; [|apply typed_panic]. apply typed_mod. intros s []. by split. }
  intros _ _. apply (typed_bind (fun _ => True)); [by apply typed_get|]. intros pk _. apply (typed_bind (fun _ => True)); [apply relay_loop_typed|].
  intros [pk' ev] _. case_match; [by apply typed_ret|]. apply (typed_bind (fun _ => True)); [by apply typed_get|]. intros o _.
  apply (typed_bind (fun _ => True)); [apply typed_lift; by destruct o|]. intros off _. apply (typed_bind (fun _ => True)); [by apply typed_get|].
  intros h _. case_match; [apply refund_loop_typed|by apply typed_ret].
Qed.
End typing.

(** ** Correctness *)
(** C8. Acting on an event that the validators agreed on, in a state whose
    escrows back the wrapped native supply and the pending transfers and whose
    supplies are within their caps, leaves such a state. For transfers to
    Ethereum, when every pending transfer is in the committed tree of the pool,
    each relayed transfer is pending and listed once and the nonce can grow, it
    succeeds: the nonce is incremented, exactly the relayed transfers and those
    that timed out leave the pool, relayed tokens are burned and the fees go to
    the relayer, expired tokens and fees go back to their owners, and neither the
    state nor the events depend on the order in which the set of pending keys is
    iterated. For transfers to Namada, when the nonce is new and the balances can
    hold the transfers, it succeeds: the events confirmed so far have consecutive
    nonces, none is lost, every receiver gets the whole amount of each transfer,
    a whitelisted token up to what its cap leaves at that moment and NUTs for the
    rest, NUTs alone of a token that is not whitelisted, and the native token
    comes out of the escrow while as much of the wrapped supply is burned. *)
Theorem bridge_events_settle {U : UintOps} {HU : UintLaws U} {C : AddressCodec} {HC : AddressCodecLaws C}
  {P : PoolCodec} {HP : PoolCodecLaws P} (wnam : EthAddress) (s : Bridge) (Hb : backed wnam s) (Hc : caps_ok wnam s) :
  (forall n es relayer, relayable s es -> exists s', backed wnam s' /\ caps_ok wnam s' /\
     bp_nonce s' = committed_nonce s + 1 /\
     tokens s' = credits (settle_credits wnam relayer s es) (tokens s) /\
     (forall h, pool s' !! h = if decide (h ∈ (event_keccak256 <$> es) ++ expired_after s es) then None else pool s !! h) /\
     forall order, (forall X, Permutation (order X) (elements X)) ->
       act_on order (EvTransfersToEthereum n es relayer) s =
         (s', Ok (list_to_set ((fun h => (h, Expired)) <$> expired_after s es) ∪ list_to_set ((fun h => (h, Relayed)) <$> (event_keccak256 <$> es))))) /\
  (forall order n ts, queue_ok wnam s (mkTransfersToNamada n ts) -> exists s' confirmed, let l := delivery wnam s (all_transfers confirmed) in
     act_on order (EvTransfersToNamada n ts) s = (s', Ok ∅) /\ backed wnam s' /\ caps_ok wnam s' /\
     tokens s' = credits l (tokens s) /\ delivers wnam (native_token s) (all_transfers confirmed) l /\ pool s' = pool s /\
     nam_nonce <$> confirmed = seqZ (next_nonce_to_process (transfers_to_namada s)) (Z.of_nat (Datatypes.length confirmed)) /\
     Permutation (mkTransfersToNamada n ts :: Epoch.inner (transfers_to_namada s)) (confirmed ++ Epoch.inner (transfers_to_namada s')) /\
     next_nonce_to_process (transfers_to_namada s') = next_nonce_to_process (transfers_to_namada s) + Z.of_nat (Datatypes.length confirmed) /\
     peek_event_nonce nam_nonce (transfers_to_namada s') <> Some (next_nonce_to_process (transfers_to_namada s'))).
Proof.
  split.
  - intros n es relayer Hr. eexists. split; [apply (act_on_transfers_to_eth_ok wnam s es relayer elements Hb Hr); done|].
    split; [|split_and!; [done..|intros h; apply lookup_remove_all|]].
    + apply (caps_ok_credit wnam s); [done|]. intros a Ha _. left. by apply settle_caps.
    + intros order Ho. by apply (act_on_transfers_to_eth_ok wnam s es relayer order Hb Hr).
  - intros order n ts Hq. destruct (act_on_transfers_to_namada_ok wnam s _ Hb Hc Hq) as (q & confirmed & E & H1 & H2 & H3 & H4 & H5 & H6 & H7 & H8).
    exists (set_queue q (credit_state (delivery wnam s (all_transfers confirmed)) s)), confirmed. split_and!; try done. cbn [act_on]. unfold st_bind. by rewrite E.
Qed.

(** C9. The predicates together guard the escrows: when the predicates of the
    pool and of the tokens accept a transaction, and that of the bridge when the
    escrow of the native token changes, and the transaction takes no token out of
    the pool that is neither the token nor the fee of the transfer, then exactly
    this transfer is added to the pool, and the escrows back the new pool. *)
Theorem pool_vp_keeps_backing {U : UintOps} {HU : UintLaws U} {C : AddressCodec} {HC : AddressCodecLaws C}
  {P : PoolCodec} {HP : PoolCodecLaws P} (wnam : EthAddress) (pre post : Bridge) (p : PendingTransfer) (keys : list Key) (vs : gset Address)
  (Hb : backed wnam pre) (Hpost : store_wf (tokens post)) (Hf : tx_frame pre post keys)
  (Hg : in_u256 (gas_amount (gas_fee p))) (Ha : in_u256 (amount (pt_transfer p)))
  (Hov : forall t, over t (fun k => amt (tokens pre) k + amt (tokens post) k) keys <= MAX_SIGNED_VALUE)
  (Htot : forall t, total (tokens post) t <= MAX_SIGNED_VALUE)
  (Hpool : pool_validate_tx pre post (Some (Some p)) keys = Ok true)
  (Hmt : validate_tx (tokens pre) (tokens post) keys vs = Ok true)
  (Hbr : bkey (native_token pre) BRIDGE_ADDRESS ∈ keys -> bridge_validate_tx pre post keys vs = Ok true)
  (Hother : forall t, t <> gas_token (gas_fee p) -> asset (pt_transfer p) = wnam \/ t <> token_address p ->
    amt (tokens pre) (bkey t BRIDGE_POOL_ADDRESS) <= amt (tokens post) (bkey t BRIDGE_POOL_ADDRESS)) :
  backed wnam post /\ pool post = <[pending_keccak256 p := p]> (pool pre) /\ pool pre !! pending_keccak256 p = None.
Proof.
  pose proof (bk_store wnam pre Hb) as Hpre.
  pose proof (pool_vp_inv pre post Hpre Hpost wnam p keys (bk_erc20 wnam pre Hb) Hg Ha Hpool) as Hes.
  split; [by apply (bk_post pre post Hpre Hpost wnam p keys vs)|]. split; [by apply (pool_after pre post wnam p keys)|apply (es_new _ _ _ _ _ Hes)].
Qed.

(** The condition on the other tokens is not checked by anyone: a
    transaction that the predicate of the pool accepts is accepted as well when it
    also moves any amount of any other token from the pool to any account, and
    when that token was in escrow for pending transfers these are no longer
    backed. *)
Theorem pool_vp_misses_other_escrows {U : UintOps} {HU : UintLaws U} {C : AddressCodec} {HC : AddressCodecLaws C}
  {P : PoolCodec} (wnam : EthAddress) (pre post : Bridge) (p : PendingTransfer) (keys : list Key) (t thief : Address) (d : Z)
  (Hpool : pool_validate_tx pre post (Some (Some p)) keys = Ok true)
  (Hgas : t <> gas_token (gas_fee p)) (Hnam : t <> native_token pre) (Htok : t <> token_address p) (Hthief : thief <> BRIDGE_POOL_ADDRESS) :
  let post' := credit_state [(bkey t BRIDGE_POOL_ADDRESS, - d); (bkey t thief, d)] post in
  pool_validate_tx pre post' (Some (Some p)) (keys ++ [bkey t BRIDGE_POOL_ADDRESS; bkey t thief]) = Ok true /\
  amt (tokens post') (bkey t thief) = amt (tokens post) (bkey t thief) + d /\
  (amt (tokens post) (bkey t BRIDGE_POOL_ADDRESS) < msum (fun _ => escrow_of wnam t) (pool post) + d -> ~ backed wnam post').
Proof.
  intros post'. split_and!.
  - rewrite <- Hpool. apply (pool_vp_blind pre post post' t); try done. intros t' a Ht. unfold post'. cbn.
    rewrite !lookup_insert_ne; [done|..]; intros He; injection He; congruence.
  - unfold post'. credits_solve.
  - intros Hlt Hb. pose proof (bk_pool wnam post' Hb t) as Hp. unfold post' in Hp. revert Hp. cbn [pool credit_state set_tokens]. credits_solve.
Qed.

(** A transfer that entered the pool in the block that acts on transfers
    to Ethereum is not in the committed tree yet. Whenever the height is past the
    time-out, acting on the event then fails, whatever the order of iteration and
    whether or not the event has to do with the new transfer. *)
Theorem new_transfer_blocks_relaying {U : UintOps} {HU : UintLaws U} {C : AddressCodec} {HC : AddressCodecLaws C}
  {P : PoolCodec} {HP : PoolCodecLaws P} (wnam : EthAddress) (s : Bridge) (n off : Z) (es : list TransferToEthereumEvent) (relayer : Address)
  (h : KeccakHash) (Hb : backed wnam s) (Hn : committed_nonce s + 1 < 2 ^ 256) (Hnd : NoDup (event_keccak256 <$> es))
  (Hin : Forall (fun e => is_Some (pool s !! event_keccak256 e)) es) (Hoff : min_num_of_blocks s = Some off) (Hh : off < height s)
  (Hnew : is_Some (pool s !! h)) (Hne : h ∉ event_keccak256 <$> es) (Htree : leaves (pool_tree s) !! h = None) :
  forall order, (forall X, Permutation (order X) (elements X)) ->
  exists s', act_on order (EvTransfersToEthereum n es relayer) s = (s', Err NotInPoolTree).
Proof.
  intros order Hord. cbn [act_on]. unfold act_on_transfers_to_eth, increment_bp_nonce. unfold st_bind at 1 2, st_get at 1.
  rewrite (proj2 (Z.ltb_lt _ _)) by done. unfold st_mod. unfold st_bind at 1, st_get at 1. cbn [pool set_nonce].
  set (s0 := set_nonce (committed_nonce s + 1) s). assert (backed wnam s0) as Hb0 by (destruct Hb; by split).
  destruct (relay_loop_ok wnam relayer es s0 (dom (pool s)) ∅ Hb0 Hnd Hin) as [Heq Hb1]. unfold st_bind at 1. rewrite Heq. clear Heq.
  set (s1 := settled _ _ s0) in *. set (rest := dom (pool s) ∖ _). assert (h ∈ rest) as Hrest by (apply elem_of_difference; rewrite elem_of_dom, elem_of_list_to_set; auto).
  rewrite bool_decide_false by set_solver. unfold st_bind, st_get, st_lift. change (min_num_of_blocks s1) with (min_num_of_blocks s).
  change (height s1) with (height s). rewrite Hoff. cbn [ok_or]. rewrite Z.gtb_ltb, (proj2 (Z.ltb_lt _ _) Hh).
  eapply (refund_loop_missing wnam _ _ s1 _ h Hb1); [rewrite Hord; apply NoDup_elements| |by rewrite Hord; apply elem_of_elements|done].
  rewrite Hord. apply list.Forall_forall. intros k [Hk Hk']%elem_of_elements%elem_of_difference. rewrite elem_of_list_to_set in Hk'.
  cbn. rewrite lookup_remove_all, decide_False by done. by apply elem_of_dom.
Qed.

(** Type safety of the bridge: balances and supplies hold amounts, and all
    amounts, in the store, the pool, the caps and the queue, are 256 bits wide.
    Acting on any event with such amounts, in any such state and with any order of
    iteration, keeps this whether it returns, fails or panics, and never fails to
    decode a value. *)
Theorem act_on_type_safe {U : UintOps} {HU : UintLaws U} {C : AddressCodec} {HC : AddressCodecLaws C} {P : PoolCodec}
  (order : gset KeccakHash -> list KeccakHash) (ev : EthereumEvent) (s : Bridge) (Hs : typed s)
  (Hev : match ev with EvTransfersToNamada _ ts => transfers_typed ts | _ => True end) :
  typed (act_on order ev s).1 /\ (act_on order ev s).2 <> Err BridgeDecode.
Proof.
  assert (runs_typed (fun _ => True) (act_on order ev)) as Hrun.
  { destruct ev as [n ts|n es relayer|n b g]; cbn [act_on]; [|apply act_on_eth_typed|by apply typed_ret].
    apply (typed_bind (fun _ => True)); [by apply act_on_namada_typed|]. intros _ _. by apply typed_ret. }
  destruct (Hrun s Hs) as [H1 H2]. split; [exact H1|]. intros He. by rewrite He in H2.
Qed.

(** ** A concrete bridge *)
Module RefBridge.
Definition mix (l : list Z) : Z := foldl (fun a x => a * 1000003 + x + 1) 0 l.
#[export] Instance pool_codec : PoolCodec := {|
  abi_keccak a r m c := mix [a; r; m; c] mod 256 ^ 32;
  appendix_checksum k s g := mix [match k with KErc20 => 0 | KNut => 1 end; Zpos (encode s); gas_amount g; Zpos (encode (payer g)); Zpos (encode (gas_token g))];
  pool_keccak_hash := RefPool.poly;
  hex_encode := @b32_encode RefCodec.base32;
  hex_decode := @b32_decode RefCodec.base32
|}.
#[export] Instance pool_codec_laws : PoolCodecLaws pool_codec.
Proof.
  split; [intros; unfold in_hash; cbn [abi_keccak pool_codec]; apply Z.mod_pos_bound; done|].
  intros bs Hbs. apply (b32_decode_encode (Base32HexLaws := RefCodec.base32_laws) bs Hbs).
Qed.
#[export] Existing Instance Ref.uint_ref.
#[export] Existing Instance Ref.uint_ref_laws.
#[export] Existing Instance RefCodec.codec.
#[export] Existing Instance RefCodec.codec_laws.

Definition nam : Address := Established 1.
Definition WNAM : EthAddress := 100.
Definition user (n : Z) : Address := Established n.
(** A transfer of ten units of asset 8, and one of five native units *)
Definition erc20_transfer : PendingTransfer :=
  mkPending (mkTransferToEth KErc20 8 55 (user 2) 10) (mkGasFee 3 (user 2) nam).
Definition native_transfer : PendingTransfer :=
  mkPending (mkTransferToEth KErc20 WNAM 56 (user 3) 5) (mkGasFee 2 (user 3) nam).
Definition opening : list (Key * Z) :=
  [(bkey (erc20_token 8) BRIDGE_POOL_ADDRESS, 10); (mkey (erc20_token 8), 10);
   (bkey (erc20_token 7) (user 4), 30); (mkey (erc20_token 7), 30);
   (bkey nam BRIDGE_POOL_ADDRESS, 5); (bkey nam BRIDGE_ADDRESS, 25); (bkey nam (user 4), 50);
   (mkey (erc20_token WNAM), 20)].
Definition pool0 : gmap KeccakHash PendingTransfer :=
  <[pending_keccak256 erc20_transfer := erc20_transfer]> (<[pending_keccak256 native_transfer := native_transfer]> ∅).
Definition leaves0 : gmap KeccakHash BlockHeight :=
  <[pending_keccak256 erc20_transfer := 50]> (<[pending_keccak256 native_transfer := 51]> ∅).
Definition bridge_with (lv : gmap KeccakHash BlockHeight) : Bridge :=
  mkBridge (credits opening ∅) pool0 (mkTree 0 lv) 6 6 nam (Some WNAM) {[7 := true]} {[7 := 100]} default_queue 100 (Some 10).
Definition bridge : Bridge := bridge_with leaves0.

Lemma empty_wf : store_wf ∅.
Proof. by intros k v Hk. Qed.
Lemma total_empty t : total ∅ t = 0.
Proof. apply msum_empty. Qed.
Lemma amt_empty k : amt ∅ k = 0.
Proof. done. Qed.
Ltac store_wf_tac := unfold credits; cbn [foldl opening]; repeat (apply credit_wf; [|apply (bool_decide_unpack _); vm_compute; exact I]); try apply empty_wf.
Lemma opening_wf : store_wf (credits opening ∅).
Proof. store_wf_tac. Qed.
(** Amounts and totals of the opening balances *)
Ltac opening_solve := unfold opening; rewrite ?total_credits, ?amt_credits, ?total_empty, ?amt_empty; tokens_solve.

Lemma bridge_backed lv : backed WNAM (bridge_with lv).
Proof.
  assert (MAX_SIGNED_VALUE >= 1000) as Hmax by (by vm_compute).
  split; cbn [tokens pool native_erc20 native_token bridge_with].
  - reflexivity.
  - by intros [] Hw.
  - discriminate.
  - apply opening_wf.
  - unfold pool0. apply map_Forall_insert_2; [|apply map_Forall_insert_2; [|apply map_Forall_empty]];
      (split; [reflexivity|apply (bool_decide_unpack _); vm_compute; exact I..|reflexivity]).
  - vm_compute. discriminate.
  - intros t. unfold pool0. rewrite !msum_insert, msum_empty. unfold mterm. rewrite lookup_insert_ne, !lookup_empty by (vm_compute; discriminate).
    cbn [from_option]. unfold escrow_of. cbn [gas_fee gas_token gas_amount pt_transfer asset amount kind token_address erc20_transfer native_transfer].
    opening_solve.
  - intros t Hw. opening_solve.
  - intros t. opening_solve.
Qed.

Lemma bridge_caps lv : caps_ok WNAM (bridge_with lv).
Proof.
  intros a Ha Hw. unfold is_token_whitelisted in Hw. cbn [whitelisted caps bridge_with tokens] in *.
  destruct (decide (a = 7)) as [->|Hne]; [|by rewrite lookup_singleton_ne in Hw by done]. vm_compute. split; discriminate.
Qed.
Lemma bridge_relayable : relayable bridge [event_of erc20_transfer].
Proof.
  split; cbn [committed_nonce pool pool_tree leaves min_num_of_blocks bridge bridge_with].
  - by vm_compute.
  - apply NoDup_singleton.
  - constructor; [|constructor]. unfold pool0. eexists. apply lookup_insert_eq.
  - intros h. rewrite <- !elem_of_dom. unfold pool0, leaves0. rewrite !dom_insert_L. done.
  - eauto.
Qed.
Definition incoming_transfers : list TransferToNamada := [mkToNamada 4 7 (user 5); mkToNamada 6 WNAM (user 5)].
Lemma bridge_queue : queue_ok WNAM bridge (mkTransfersToNamada 0 incoming_transfers).
Proof.
  assert (MAX_SIGNED_VALUE >= 1000) as Hmax by (by vm_compute).
  split; cbn [transfers_to_namada bridge bridge_with Epoch.inner default_queue new_at nam_nonce next_nonce_to_process].
  - done.
  - apply not_elem_of_nil.
  - done.
  - constructor; [by vm_compute|constructor].
  - change (all_transfers _) with incoming_transfers. unfold incoming_transfers.
    assert (forall a t1 t2, incoming a [t1; t2] = incoming a [t1] + incoming a [t2]) as Hsum by (intros; apply (incoming_app a [_] [_])). split; cbn [tokens bridge bridge_with].
    + repeat (constructor; [apply (bool_decide_unpack _); vm_compute; exact I|]). constructor.
    + vm_compute. discriminate.
    + intros a Ha. rewrite Hsum, !incoming_one. opening_solve.
    + intros a Ha. rewrite Hsum, !incoming_one. opening_solve.
Qed.

(** A new transfer of four units of asset 7 *)
Definition new_transfer : PendingTransfer :=
  mkPending (mkTransferToEth KErc20 7 57 (user 4) 4) (mkGasFee 1 (user 4) nam).
Definition moves : list (Key * Z) :=
  [(bkey (erc20_token 7) (user 4), -4); (bkey (erc20_token 7) BRIDGE_POOL_ADDRESS, 4);
   (bkey nam (user 4), -1); (bkey nam BRIDGE_POOL_ADDRESS, 1)].
Definition added : Bridge := set_pool (insert (pending_keccak256 new_transfer) new_transfer) (credit_state moves bridge).
Definition added_keys : list Key := get_pending_key new_transfer :: moves.*1.
Lemma credits_other l m k : k ∉ l.*1 -> credits l m !! k = m !! k.
Proof.
  revert m. induction l as [|[k' d] l IH]; intros m Hk; [done|]. cbn in Hk. apply not_elem_of_cons in Hk as [Hk Hl].
  unfold credits. cbn [foldl]. fold (credits l (credit m (k', d))). rewrite IH by done. unfold credit. by rewrite lookup_insert_ne.
Qed.
Lemma added_wf : store_wf (tokens added).
Proof.
  cbn [tokens added set_pool credit_state set_tokens bridge bridge_with]. unfold credits at 1. cbn [foldl moves].
  repeat (apply credit_wf; [|apply (bool_decide_unpack _); vm_compute; exact I]). apply empty_wf.
Qed.
Lemma added_frame : tx_frame bridge added added_keys.
Proof.
  split.
  - apply (bool_decide_unpack _). vm_compute. exact I.
  - intros k Hk. apply not_elem_of_cons in Hk as [_ Hk]. symmetry. by apply credits_other.
  - intros h Hh. destruct (decide (h = pending_keccak256 new_transfer)) as [->|Hne]; [|by cbn in Hh; rewrite lookup_insert_ne in Hh].
    split; [apply abi_keccak_range|]. apply elem_of_cons. by left.
  - reflexivity.
  - reflexivity.
Qed.
End RefBridge.
Import RefBridge.

Lemma bridge_events_settle_witness :
  (exists s', act_on elements (EvTransfersToEthereum 6 [event_of erc20_transfer] (user 9)) bridge =
     (s', Ok {[(pending_keccak256 native_transfer, Expired); (pending_keccak256 erc20_transfer, Relayed)]}) /\ backed WNAM s') /\
  (exists s' l, act_on elements (EvTransfersToNamada 0 incoming_transfers) bridge = (s', Ok ∅) /\ backed WNAM s' /\
     tokens s' = credits l (tokens bridge) /\ credited l (bkey nam (user 5)) = 6).
Proof.
  destruct (bridge_events_settle WNAM bridge (bridge_backed _) (bridge_caps _)) as [H1 H2]. split.
  - destruct (H1 6 [event_of erc20_transfer] (user 9) bridge_relayable) as (s' & Hb & _ & _ & _ & _ & Hact).
    exists s'. split; [|exact Hb]. rewrite (Hact elements) by done. f_equal.
  - destruct (H2 elements 0 incoming_transfers bridge_queue) as (s' & confirmed & Hact & Hb & _ & Htok & Hd & _ & _ & Hp & Hn & Hpk).
    exists s', (delivery WNAM bridge (all_transfers confirmed)). split_and!; [exact Hact|exact Hb|exact Htok|]. destruct Hd as [_ Hnat _ _ _].
    assert (confirmed = [mkTransfersToNamada 0 incoming_transfers]) as ->; [|exact (Hnat (user 5))].
    symmetry in Hp. apply Permutation_singleton_r in Hp. destruct confirmed as [|e []]; [|by injection Hp as ->|done].
    exfalso. apply Hpk. cbn [app] in Hp. unfold peek_event_nonce. rewrite Hp, Hn. reflexivity.
Defined.

Lemma pool_vp_keeps_backing_witness : backed WNAM added /\ pool_validate_tx bridge added (Some (Some new_transfer)) added_keys = Ok true.
Proof.
  assert (pool_validate_tx bridge added (Some (Some new_transfer)) added_keys = Ok true) as Hacc by (by vm_compute). split; [|exact Hacc].
  assert (MAX_SIGNED_VALUE >= 1000) as Hmax by (by vm_compute).
  apply (pool_vp_keeps_backing WNAM bridge added new_transfer added_keys {[BRIDGE_POOL_ADDRESS; user 4]} (bridge_backed _) added_wf added_frame);
    [apply (bool_decide_unpack _); vm_compute; exact I..| | |exact Hacc|by vm_compute| |].
  - intros t. destruct (decide (t = erc20_token 7)) as [->|H7]; [vm_compute; discriminate|].
    destruct (decide (t = nam)) as [->|Hn]; [vm_compute; discriminate|].
    unfold over, added_keys, moves. cbn [fmap list_fmap fst]. rewrite !sumZ_cons, sumZ_nil, !is_balance_key_other by done. by vm_compute.
  - intros t. cbn [tokens added set_pool credit_state set_tokens bridge bridge_with]. unfold moves. opening_solve.
  - intros Hin. exfalso. revert Hin. apply (bool_decide_unpack _). by vm_compute.
  - intros t Ht Ht'. cbn [tokens added set_pool credit_state set_tokens bridge bridge_with]. unfold moves. opening_solve.
Defined.

(** The token predicate accepts the transaction as well. *)
Lemma pool_vp_misses_other_escrows_witness :
  let stolen := [(bkey (erc20_token 8) BRIDGE_POOL_ADDRESS, -10); (bkey (erc20_token 8) (user 4), 10)] in
  let post := credit_state stolen added in
  pool_validate_tx bridge post (Some (Some new_transfer)) (added_keys ++ stolen.*1) = Ok true /\
  validate_tx (tokens bridge) (tokens post) (added_keys ++ stolen.*1) {[BRIDGE_POOL_ADDRESS; user 4]} = Ok true /\ ~ backed WNAM post.
Proof.
  intros stolen post.
  destruct (pool_vp_misses_other_escrows WNAM bridge added new_transfer added_keys (erc20_token 8) (user 4) 10) as (H1 & _ & H3);
    [by vm_compute|discriminate..|]. split; [exact H1|]. split; [by vm_compute|]. apply H3. by vm_compute.
Defined.

Lemma new_transfer_blocks_relaying_witness :
  exists s', act_on elements (EvTransfersToEthereum 6 [event_of erc20_transfer] (user 9)) (bridge_with ∅) = (s', Err NotInPoolTree).
Proof.
  apply (new_transfer_blocks_relaying WNAM (bridge_with ∅) 6 10 [event_of erc20_transfer] (user 9) (pending_keccak256 native_transfer) (bridge_backed _)).
  - by vm_compute.
  - apply NoDup_singleton.
  - constructor; [|constructor]. unfold bridge_with, pool0. eexists. apply lookup_insert_eq.
  - reflexivity.
  - by vm_compute.
  - by vm_compute; eexists.
  - apply (bool_decide_unpack _). by vm_compute.
  - reflexivity.
  - done.
Defined.

Lemma act_on_type_safe_witness :
  typed (act_on elements (EvTransfersToNamada 0 incoming_transfers) bridge).1 /\
  (act_on elements (EvTransfersToNamada 0 incoming_transfers) bridge).2 <> Err BridgeDecode.
Proof.
  apply act_on_type_safe.
  - split; cbn [tokens pool caps transfers_to_namada bridge bridge_with].
    + apply opening_wf.
    + intros h p Hp. destruct (bk_transfers WNAM bridge (bridge_backed _) h p Hp). by split.
    + intros a c Hc. apply lookup_singleton_Some in Hc as [_ <-]. apply (bool_decide_unpack _). vm_compute. exact I.
    + constructor.
  - unfold incoming_transfers, transfers_typed. repeat (constructor; [apply (bool_decide_unpack _); vm_compute; exact I|]). constructor.
Defined.
