(* ===== verification/Bonds.v ===== *)
(** * Bonds, unbonds, withdrawals and redelegations

    The operations of [proof_of_stake/src/lib.rs] that move stake: [bond_tokens],
    [unbond_tokens], [withdraw_tokens] and [redelegate_tokens], on the storage that
    they write. Claims of rewards are in [Inflation].

    The sets and stakes of validators are those of [ValidatorSet], the choice of
    the bonds to remove is in [Unbond], the slashed amounts in [Slash], balances
    in [Token]. A lazy map under an absent key is the empty map. Log messages and
    debug assertions are left out. *)

From Stdlib Require Import ZArith Lia.
From stdpp Require Import base numbers list gmap sorting.
From S2P Require Import Prelude Uint Int256 Dec Keys Epoch Params Epoched Slash Unbond ValidatorSet Lifecycle Token.

Local Open Scope Z_scope.
Local Open Scope st_scope.

(** ** The state *)
Record Ledger : Type := mkLedger {
  (* source and validator *)
  bonds : gmap (Address * Address) (epoched Z);
  bonded : gmap Address (epoched Z);
  (* start epoch, withdrawable epoch *)
  unbonds : gmap (Address * Address) (gmap Epoch (gmap Epoch Z));
  unbonded : gmap Address (gmap Epoch (gmap Epoch Z))
}.
Record Redelegations : Type := mkRedel {
  (* delegator and destination *)
  del_bonds : gmap (Address * Address) RedelegatedUnbonds;
  del_unbonds : gmap (Address * Address) (gmap Epoch RedelegatedUnbonds);
  incoming : gmap Address (gmap Address Epoch);
  outgoing : gmap Address (gmap Address (gmap Epoch (gmap Epoch Z)));
  redel_bonded : gmap Address RedelegatedUnbonds;
  redel_unbonded : gmap Address (gmap Epoch RedelegatedUnbonds)
}.
Record Rewards : Type := mkRewards {
  rewards_products : gmap Address (gmap Epoch Z);
  last_claims : gmap (Address * Address) Epoch;
  rewards_counters : gmap (Address * Address) Z
}.
(** What the operations only read *)
Record PosInfo : Type := mkInfo {
  native_token : Address;
  validator_slashes : gmap Address (list Slash);
  last_slash_epochs : gmap Address Epoch;
  max_commission_changes : gmap Address Z
}.
Record Pos : Type := mkPos {
  sets : ValidatorSets;
  total_deltas : epoched Z;
  ledger : Ledger;
  redel : Redelegations;
  rewards : Rewards;
  balances : store;
  info : PosInfo
}.
Definition set_bonds x l := mkLedger x (bonded l) (unbonds l) (unbonded l).
Definition set_bonded x l := mkLedger (bonds l) x (unbonds l) (unbonded l).
Definition set_unbonds x l := mkLedger (bonds l) (bonded l) x (unbonded l).
Definition set_unbonded x l := mkLedger (bonds l) (bonded l) (unbonds l) x.
Definition set_del_bonds x r := mkRedel x (del_unbonds r) (incoming r) (outgoing r) (redel_bonded r) (redel_unbonded r).
Definition set_del_unbonds x r := mkRedel (del_bonds r) x (incoming r) (outgoing r) (redel_bonded r) (redel_unbonded r).
Definition set_incoming x r := mkRedel (del_bonds r) (del_unbonds r) x (outgoing r) (redel_bonded r) (redel_unbonded r).
Definition set_outgoing x r := mkRedel (del_bonds r) (del_unbonds r) (incoming r) x (redel_bonded r) (redel_unbonded r).
Definition set_redel_bonded x r := mkRedel (del_bonds r) (del_unbonds r) (incoming r) (outgoing r) x (redel_unbonded r).
Definition set_redel_unbonded x r := mkRedel (del_bonds r) (del_unbonds r) (incoming r) (outgoing r) (redel_bonded r) x.
Definition set_last_claims x r := mkRewards (rewards_products r) x (rewards_counters r).
Definition set_counters x r := mkRewards (rewards_products r) (last_claims r) x.
Definition set_sets x s := mkPos x (total_deltas s) (ledger s) (redel s) (rewards s) (balances s) (info s).
Definition set_total_deltas x s := mkPos (sets s) x (ledger s) (redel s) (rewards s) (balances s) (info s).
Definition set_ledger f s := mkPos (sets s) (total_deltas s) (f (ledger s)) (redel s) (rewards s) (balances s) (info s).
Definition set_redel f s := mkPos (sets s) (total_deltas s) (ledger s) (f (redel s)) (rewards s) (balances s) (info s).
Definition set_rewards f s := mkPos (sets s) (total_deltas s) (ledger s) (redel s) (f (rewards s)) (balances s) (info s).
Definition set_balances x s := mkPos (sets s) (total_deltas s) (ledger s) (redel s) (rewards s) x (info s).

(** ** Errors *)
Inductive PosError : Type :=
| NotAValidator (v : Address)
| SourceMustNotBeAValidator (a : Address)
| UnbondAmountGreaterThanBond (amount remaining : Z)
| ValidatorIsFrozen (v : Address)
| NoUnbondFound (source validator : Address)
| RedelegationSrcEqDest
| DelegatorIsValidator
| RedelegationNotAValidator (v : Address)
| IsChainedRedelegation
| TokenError (e : token_error).

(** ** Parts of the state *)
Section parts.
Context {S T E : Type} (get : S -> T) (put : T -> S -> S).
(** A computation on a part of the state *)
Definition zoom {A} (m : st T E A) : st S E A := fun s => let r := m (get s) in (put r.1 s, r.2).
(** A pure update of a part *)
Definition update_part (f : T -> outcome E T) : st S E unit := fun s =>
  match f (get s) with
  | Ok x => (put x s, Ok tt)
  | Err e => (s, Err e)
  | Panic => (s, Panic)
  end.
End parts.
Definition map_err {S E F A} (f : E -> F) (m : st S E A) : st S F A := fun s =>
  let r := m s in (r.1, match r.2 with Ok a => Ok a | Err e => Err (f e) | Panic => Panic end).

(** Lazy maps: [at] a key, and [update] of an amount *)
#[export] Instance epoched_empty {D} : Empty (epoched D) := empty_epoched.
Section maps.
Context {E : Type} {K : Type} `{Countable K}.
Local Open Scope outcome_scope.
Definition at_key {V} `{Empty V} (k : K) (f : V -> outcome E V) (m : gmap K V) : outcome E (gmap K V) :=
  let* v := f (default ∅ (m !! k)) in Ok (<[k := v]> m).
Definition update_amount (k : K) (f : Z -> outcome E Z) (m : gmap K Z) : outcome E (gmap K Z) :=
  let* v := f (default 0 (m !! k)) in Ok (<[k := v]> m).
End maps.

Section pos.
Context {U : UintOps} {C : AddressCodec} (params : PosParams).
Notation E := PosError.

Definition POS : Address := Internal PoS.

(** ** Handles *)
Definition bond_handle (s : Pos) (source validator : Address) : epoched Z :=
  default empty_epoched (bonds (ledger s) !! (source, validator)).
Definition bonded_handle (s : Pos) (validator : Address) : epoched Z :=
  default empty_epoched (bonded (ledger s) !! validator).
Definition write_bond (source validator : Address) (h : epoched Z) (s : Pos) : Pos :=
  set_ledger (fun l => set_bonds (<[(source, validator) := h]> (bonds l)) l) s.
Definition write_bonded (validator : Address) (h : epoched Z) (s : Pos) : Pos :=
  set_ledger (fun l => set_bonded (<[validator := h]> (bonded l)) l) s.
Definition on_bond {A} (source validator : Address) (m : st (epoched Z) E A) : st Pos E A :=
  zoom (fun s => bond_handle s source validator) (write_bond source validator) m.
Definition on_bonded {A} (validator : Address) (m : st (epoched Z) E A) : st Pos E A :=
  zoom (fun s => bonded_handle s validator) (write_bonded validator) m.

(** An update of the data of a handle *)
Definition on_data (f : gmap Epoch Z -> outcome E (gmap Epoch Z)) (h : epoched Z) : outcome E (epoched Z) :=
  (let* d := f (data h) in Ok (set_data d h))%out.
Definition on_bonded_data (validator : Address) (f : gmap Epoch Z -> outcome E (gmap Epoch Z)) : st Pos E unit :=
  update_part (fun s => bonded (ledger s)) (fun x => set_ledger (set_bonded x)) (at_key validator (on_data f)).
Definition on_unbonds (source validator : Address) (f : gmap Epoch (gmap Epoch Z) -> outcome E (gmap Epoch (gmap Epoch Z))) : st Pos E unit :=
  update_part (fun s => unbonds (ledger s)) (fun x => set_ledger (set_unbonds x)) (at_key (source, validator) f).
Definition on_unbonded (validator : Address) (f : gmap Epoch (gmap Epoch Z) -> outcome E (gmap Epoch (gmap Epoch Z))) : st Pos E unit :=
  update_part (fun s => unbonded (ledger s)) (fun x => set_ledger (set_unbonded x)) (at_key validator f).
Definition on_del_bonds (delegator validator : Address) (f : RedelegatedUnbonds -> outcome E RedelegatedUnbonds) : st Pos E unit :=
  update_part (fun s => del_bonds (redel s)) (fun x => set_redel (set_del_bonds x)) (at_key (delegator, validator) f).
Definition on_del_unbonds (delegator validator : Address) (f : gmap Epoch RedelegatedUnbonds -> outcome E (gmap Epoch RedelegatedUnbonds)) : st Pos E unit :=
  update_part (fun s => del_unbonds (redel s)) (fun x => set_redel (set_del_unbonds x)) (at_key (delegator, validator) f).
Definition on_redel_bonded (validator : Address) (f : RedelegatedUnbonds -> outcome E RedelegatedUnbonds) : st Pos E unit :=
  update_part (fun s => redel_bonded (redel s)) (fun x => set_redel (set_redel_bonded x)) (at_key validator f).
Definition on_redel_unbonded (validator : Address) (f : gmap Epoch RedelegatedUnbonds -> outcome E (gmap Epoch RedelegatedUnbonds)) : st Pos E unit :=
  update_part (fun s => redel_unbonded (redel s)) (fun x => set_redel (set_redel_unbonded x)) (at_key validator f).
Definition on_outgoing (validator : Address) (f : gmap Address (gmap Epoch (gmap Epoch Z)) -> outcome E (gmap Address (gmap Epoch (gmap Epoch Z)))) : st Pos E unit :=
  update_part (fun s => outgoing (redel s)) (fun x => set_redel (set_outgoing x)) (at_key validator f).

(** ** Queries *)
Definition is_validator (s : Pos) (a : Address) : bool := bool_decide (is_Some (max_commission_changes (info s) !! a)).
Definition find_validator_slashes (s : Pos) (v : Address) : list Slash := default [] (validator_slashes (info s) !! v).
(** What the slashing functions read *)
Definition slash_reads (s : Pos) : SlashReads := {|
  slashes_of := find_validator_slashes s;
  total_bonded v := data (bonded_handle s v);
  total_unbonded v := default ∅ (unbonded (ledger s) !! v);
  total_redelegated_bonded v := default ∅ (redel_bonded (redel s) !! v);
  total_redelegated_unbonded v := default ∅ (redel_unbonded (redel s) !! v);
  outgoing_redelegations v := default ∅ (outgoing (redel s) !! v)
|}.

Definition pos_transfer (src dest : Address) (amount : Z) : st Pos E unit :=
  let! staking_token := st_get (fun s => native_token (info s)) in
  zoom balances set_balances (map_err TokenError (transfer staking_token src dest amount)).
(** A source other than the validator must not be a validator. *)
Definition check_source (source : option Address) (validator : Address) : st Pos E unit :=
  match source with
  | Some source =>
      let! v := st_get (fun s => is_validator s source) in
      if negb (bool_decide (source = validator)) && v then st_err (SourceMustNotBeAValidator source) else st_ret tt
  | None => st_ret tt
  end.

Definition update_total_deltas (delta : Z) (current_epoch : Epoch) (offset_opt : option Z) : st Pos E unit :=
  let offset := default (pipeline_len params) offset_opt in
  let! epoch := st_lift (epoch_add current_epoch offset) in
  let! h := st_get total_deltas in
  let val := default 0 (get_delta_val h epoch) in
  let! sum := st_lift (i256_checked_add val delta) in
  let! new_val := st_lift (unwrap sum) in
  zoom total_deltas set_total_deltas (delta_set (HD:=change_delta) deltas_past params new_val current_epoch offset).
(** The validator set, unless the validator is jailed or inactive, and the
    deltas *)
Definition update_stake (validator : Address) (delta : Z) (current_epoch : Epoch) (offset_opt : option Z) : st Pos E unit :=
  do! zoom sets set_sets (change_stake params validator delta current_epoch offset_opt) in
  update_total_deltas delta current_epoch offset_opt.

(** ** Bonding *)
Definition bond_tokens (source : option Address) (validator : Address) (amount : Z) (current_epoch : Epoch)
    (offset_opt : option Z) : st Pos E unit :=
  if amount_is_zero amount then st_ret tt
  else
    do! check_source source validator in
    let source := default validator source in
    do! pos_transfer source POS amount in
    let offset := default (pipeline_len params) offset_opt in
    let! offset_epoch := st_lift (epoch_add current_epoch offset) in
    let! vs := st_get sets in
    let! state := st_lift (get_validator_state params vs validator offset_epoch) in
    if bool_decide (state = None) then st_err (NotAValidator validator)
    else
      do! on_bond source validator (delta_add_value (HD:=amount_delta) OffsetMaxU64 params amount current_epoch offset) in
      do! on_bonded validator (delta_add_value (HD:=amount_delta) OffsetMaxU64 params amount current_epoch offset) in
      let! delta := st_lift (change amount) in
      update_stake validator delta current_epoch offset_opt.

(** ** Unbonding *)
(** The epochs of the bonds that are used, fully or in part *)
Definition bond_epochs_to_unbond (res : BondsForRemovalRes) : gset Epoch :=
  match new_entry res with
  | Some (start_epoch, _) => {[start_epoch]} ∪ epochs res
  | None => epochs res
  end.
Definition unbond_value (b : gmap Epoch Z) (res : BondsForRemovalRes) (epoch : Epoch) : outcome E Z :=
  let cur_bond_value := default 0 (b !! epoch) in
  match new_entry res with
  | Some (start_epoch, new_bond_amount) =>
      if start_epoch =? epoch then amount_sub cur_bond_value new_bond_amount else Ok cur_bond_value
  | None => Ok cur_bond_value
  end.
Definition new_unbonds_map (b : gmap Epoch Z) (res : BondsForRemovalRes) : outcome E (gmap Epoch Z) :=
  (let* l := out_map (fun e => let* v := unbond_value b res e in Ok (e, v)) (sorted_epochs (bond_epochs_to_unbond res)) in
   Ok (list_to_map l))%out.
Definition modified_redelegation (b : gmap Epoch Z) (rb : RedelegatedUnbonds) (res : BondsForRemovalRes)
  : outcome E ModifiedRedelegation :=
  match new_entry res with
  | Some (bond_epoch, new_bond_amount) =>
      if contains rb bond_epoch then
        (let* d := amount_sub (default 0 (b !! bond_epoch)) new_bond_amount in
         compute_modified_redelegation (default ∅ (rb !! bond_epoch)) bond_epoch d)%out
      else Ok default_modified
  | None => Ok default_modified
  end.
(** The redelegated bonds that are left *)
Definition update_del_bonds (res : BondsForRemovalRes) (m : ModifiedRedelegation) (rb : RedelegatedUnbonds)
  : outcome E RedelegatedUnbonds :=
  let rb := filter (fun e => e.1 ∉ epochs res) rb in
  match mod_epoch m with
  | Some epoch =>
      if bool_decide (validators_to_remove m = ∅) then Ok (base.delete epoch rb)
      else at_key epoch (update_redelegated_bonds m) rb
  | None => Ok rb
  end.
(** Entries of the new redelegated unbonds: start, source validator, bond start
    and amount *)
Definition unbond_entries (m : RedelegatedUnbonds) : list (Epoch * Address * Epoch * Z) :=
  p ← bt_list m; e ← entries2 p.2; [(p.1, e.1.1, e.1.2, e.2)].

(** The rewards of the tokens that are unbonded *)
Definition unbond_rewards (products : gmap Epoch Z) (last_claim_epoch current_epoch : Epoch) (epoch_map : gmap Epoch Z)
  : outcome E Z :=
  (let* prev := epoch_prev current_epoch in
   out_fold (fun rewards e =>
     let '(start_epoch, slashed_amount) := e in
     out_fold (fun rewards ep =>
       if ep <? last_claim_epoch then Ok rewards
       else
         let* r := dec_mul_amount (default 0 (products !! ep)) slashed_amount in
         amount_add rewards r) (iter_bounds_inclusive start_epoch prev) rewards)
     (bt_list epoch_map) 0)%out.
Definition add_rewards_to_counter (source validator : Address) (new_rewards : Z) : st Pos E unit :=
  update_part (fun s => rewards_counters (rewards s)) (fun x => set_rewards (set_counters x))
    (update_amount (source, validator) (fun c => amount_add c new_rewards)).
Definition tally_rewards (source validator : Address) (current_epoch : Epoch) (epoch_map : gmap Epoch Z) : st Pos E unit :=
  if current_epoch >? 0 then
    let! s := st_get (fun s => s) in
    let last_claim_epoch := default 0 (last_claims (rewards s) !! (source, validator)) in
    let products := default ∅ (rewards_products (rewards s) !! validator) in
    let! r := st_lift (unbond_rewards products last_claim_epoch current_epoch epoch_map) in
    add_rewards_to_counter source validator r
  else st_ret tt.

(** The parts of [unbond_tokens] that write the bonds, the unbonds, the
    redelegated unbonds and the totals of the validator *)
Definition remove_bonds (source validator : Address) (res : BondsForRemovalRes) : st Pos E unit :=
  do! on_bond source validator (st_mod (fun h => set_data (remove_epochs (epochs res) (data h)) h)) in
  match new_entry res with
  | Some (bond_epoch, new_bond_amount) =>
      on_bond source validator (delta_set (HD:=amount_delta) OffsetMaxU64 params new_bond_amount bond_epoch 0)
  | None => st_ret tt
  end.
Definition add_unbonds (source validator : Address) (withdrawable_epoch : Epoch) (new_unbonds : gmap Epoch Z) : st Pos E unit :=
  st_iter (fun e : Epoch * Z => on_unbonds source validator
    (at_key e.1 (update_amount withdrawable_epoch (fun c => amount_add c e.2)))) (bt_list new_unbonds).
Definition add_del_unbonds (source validator : Address) (withdrawable_epoch : Epoch) (new : RedelegatedUnbonds) : st Pos E unit :=
  st_iter (fun '(start, src_validator, redelegation_epoch, chg) => on_del_unbonds source validator
    (at_key start (at_key withdrawable_epoch (at_key src_validator
       (update_amount redelegation_epoch (fun c => amount_add c chg)))))) (unbond_entries new).
Definition update_totals (validator : Address) (pipeline_epoch : Epoch) (new_unbonds : gmap Epoch Z) : st Pos E unit :=
  st_iter (fun e : Epoch * Z =>
    do! on_bonded_data validator (update_amount e.1 (fun c => amount_sub c e.2)) in
    on_unbonded validator (at_key pipeline_epoch (update_amount e.1 (fun c => amount_add c e.2)))) (bt_list new_unbonds).
Definition update_redel_totals (validator : Address) (pipeline_epoch : Epoch) (new : RedelegatedUnbonds) : st Pos E unit :=
  st_iter (fun '(redelegation_start, src_validator, bond_start, chg) =>
    do! on_redel_bonded validator (at_key redelegation_start (at_key src_validator
          (update_amount bond_start (fun c => amount_sub c chg)))) in
    on_redel_unbonded validator (at_key pipeline_epoch (at_key redelegation_start (at_key src_validator
          (update_amount bond_start (fun c => amount_add c chg)))))) (unbond_entries new).

Definition unbond_tokens (source : option Address) (validator : Address) (amount : Z) (current_epoch : Epoch)
    (is_redelegation : bool) : st Pos E ResultSlashing :=
  if amount_is_zero amount then st_ret (mkResultSlashing 0 ∅)
  else
    let! pipeline_epoch := st_lift (epoch_add current_epoch (pipeline_len params)) in
    let! woff := st_lift (withdrawable_epoch_offset params) in
    let! withdrawable_epoch := st_lift (epoch_add current_epoch woff) in
    do! check_source source validator in
    let! s := st_get (fun s => s) in
    do! (if is_validator s validator then st_ret tt else st_err (NotAValidator validator)) in
    let! frozen := st_lift (is_validator_frozen params (last_slash_epochs (info s) !! validator) current_epoch) in
    do! (if frozen then st_err (ValidatorIsFrozen validator) else st_ret tt) in
    let source := default validator source in
    let h := bond_handle s source validator in
    let! remaining := st_lift (get_sum (HD:=amount_delta) OffsetPipelineLen OffsetMaxU64 h pipeline_epoch params) in
    let remaining_at_pipeline := default 0 remaining in
    if amount >? remaining_at_pipeline then st_err (UnbondAmountGreaterThanBond amount remaining_at_pipeline)
    else
      let rb := default ∅ (del_bonds (redel s) !! (source, validator)) in
      let! res := st_lift (find_bonds_to_remove (data h) amount) in
      let! m := st_lift (modified_redelegation (data h) rb res) in
      let! new_unbonds := st_lift (new_unbonds_map (data h) res) in
      do! remove_bonds source validator res in
      do! (if is_redelegation then st_ret tt else add_unbonds source validator withdrawable_epoch new_unbonds) in
      let! new_redelegated_unbonds := st_lift (compute_new_redelegated_unbonds rb (epochs res) m) in
      do! on_del_bonds source validator (update_del_bonds res m) in
      do! (if is_redelegation then st_ret tt else add_del_unbonds source validator withdrawable_epoch new_redelegated_unbonds) in
      do! update_totals validator pipeline_epoch new_unbonds in
      do! update_redel_totals validator pipeline_epoch new_redelegated_unbonds in
      let! s := st_get (fun s => s) in
      let! result := st_lift (compute_amount_after_slashing_unbond (slash_reads s) params new_unbonds new_redelegated_unbonds
                                (find_validator_slashes s validator)) in
      let! c := st_lift (change (rs_sum result)) in
      do! update_stake validator (neg c) current_epoch None in
      do! tally_rewards source validator current_epoch (rs_epoch_map result) in
      st_ret result.

(** ** Withdrawing *)
(** The unbonds that can be withdrawn, in the order of their keys, with the
    redelegated tokens in them *)
Definition withdrawable (ub : gmap Epoch (gmap Epoch Z)) (dub : gmap Epoch RedelegatedUnbonds) (current_epoch : Epoch)
  : list (Epoch * Epoch * (Z * RedelegatedBondsMap)) :=
  p ← bt_list ub; e ← bt_list p.2;
  if e.1 >? current_epoch then [] else [(p.1, e.1, (e.2, default ∅ (default ∅ (dub !! p.1) !! e.1)))].
Definition unbonds_empty (ub : gmap Epoch (gmap Epoch Z)) : bool := bool_decide (entries2 ub = []).
(** Remove an entry, and the map of its start epoch when it is the last *)
Definition remove_entry {V} `{EqDecision V} (start_epoch withdraw_epoch : Epoch) (m : gmap Epoch (gmap Epoch V)) : gmap Epoch (gmap Epoch V) :=
  let inner := base.delete withdraw_epoch (default ∅ (m !! start_epoch)) in
  if bool_decide (inner = ∅) then base.delete start_epoch m else <[start_epoch := inner]> m.

Definition withdraw_tokens (source : option Address) (validator : Address) (current_epoch : Epoch) : st Pos E Z :=
  let source := default validator source in
  let! s := st_get (fun s => s) in
  let ub := default ∅ (unbonds (ledger s) !! (source, validator)) in
  let dub := default ∅ (del_unbonds (redel s) !! (source, validator)) in
  if unbonds_empty ub then st_err (NoUnbondFound source validator)
  else
    let l := withdrawable ub dub current_epoch in
    let! result := st_lift (compute_amount_after_slashing_withdraw (slash_reads s) params l (find_validator_slashes s validator)) in
    do! st_iter (fun '(start_epoch, withdraw_epoch, _) =>
          do! on_unbonds source validator (fun m => Ok (remove_entry start_epoch withdraw_epoch m)) in
          on_del_unbonds source validator (fun m => Ok (remove_entry start_epoch withdraw_epoch m))) l in
    do! pos_transfer POS source (rs_sum result) in
    st_ret (rs_sum result).

(** ** Redelegating *)
Definition redelegate_tokens (delegator src_validator dest_validator : Address) (current_epoch : Epoch) (amount : Z) : st Pos E unit :=
  if amount_is_zero amount then st_ret tt
  else if bool_decide (src_validator = dest_validator) then st_err RedelegationSrcEqDest
  else
    let! s := st_get (fun s => s) in
    if is_validator s delegator then st_err DelegatorIsValidator
    else if negb (is_validator s src_validator) then st_err (RedelegationNotAValidator src_validator)
    else if negb (is_validator s dest_validator) then st_err (RedelegationNotAValidator dest_validator)
    else
      let! pipeline_epoch := st_lift (epoch_add current_epoch (pipeline_len params)) in
      let! is_not_chained := st_lift
        match default ∅ (incoming (redel s) !! src_validator) !! delegator with
        | Some end_epoch =>
            (let* last_contrib_epoch := epoch_prev end_epoch in
             let* off := slash_processing_epoch_offset params in
             let* limit := epoch_add last_contrib_epoch off in
             Ok (limit <=? current_epoch))%out
        | None => Ok true
        end in
      if negb is_not_chained then st_err IsChainedRedelegation
      else
        let! result := unbond_tokens (Some delegator) src_validator amount current_epoch true in
        let amount_after_slashing := rs_sum result in
        do! st_iter (fun e : Epoch * Z => on_del_bonds delegator dest_validator
              (at_key pipeline_epoch (at_key src_validator (update_amount e.1 (fun c => amount_add c e.2))))) (bt_list (rs_epoch_map result)) in
        do! (if amount_is_zero amount_after_slashing then st_ret tt
             else
               do! on_bond delegator dest_validator
                     (delta_add_value (HD:=amount_delta) OffsetMaxU64 params amount_after_slashing current_epoch (pipeline_len params)) in
               on_bonded dest_validator
                 (delta_add_value (HD:=amount_delta) OffsetMaxU64 params amount_after_slashing current_epoch (pipeline_len params))) in
        do! st_iter (fun e : Epoch * Z => on_outgoing src_validator
              (at_key dest_validator (at_key e.1 (update_amount current_epoch (fun c => amount_add c e.2))))) (bt_list (rs_epoch_map result)) in
        do! st_iter (fun e : Epoch * Z => on_redel_bonded dest_validator
              (at_key pipeline_epoch (at_key src_validator (update_amount e.1 (fun c => amount_add c e.2))))) (bt_list (rs_epoch_map result)) in
        do! st_mod (fun s => set_redel (fun r => set_incoming
              (<[dest_validator := <[delegator := pipeline_epoch]> (default ∅ (incoming r !! dest_validator))]> (incoming r)) r) s) in
        let! delta := st_lift (change amount_after_slashing) in
        update_stake dest_validator delta current_epoch None.
End pos.

(** ** Cells

    What the amounts in nested lazy maps have in common: a cell for every path of
    keys, an update of one cell, and the sum of all cells *)
Class Cells (M P : Type) : Type := {
  cell : M -> P -> Z;
  tot : M -> Z;
  upd : forall E, P -> (Z -> outcome E Z) -> M -> outcome E M
}.
Arguments upd {M P _ E}.
Class CellsLaws (M P : Type) {HM : Empty M} {HC : Cells M P} {HP : EqDecision P} : Prop := {
  cell_empty p : cell (∅ : M) p = 0;
  tot_empty : tot (∅ : M) = 0;
  upd_ok E p (f : Z -> outcome E Z) (m : M) x : f (cell m p) = Ok x -> exists m', upd p f m = Ok m' /\
    (forall q, cell m' q = if decide (q = p) then x else cell m q) /\ tot m' = tot m - cell m p + x;
  upd_inv E p (f : Z -> outcome E Z) (m m' : M) : upd p f m = Ok m' -> exists x, f (cell m p) = Ok x;
  tot_nonneg (m : M) : (forall p, 0 <= cell m p) -> 0 <= tot m;
  cell_le_tot (m : M) : (forall p, 0 <= cell m p) -> forall p, cell m p <= tot m;
  tot_add (m m1 m2 : M) : (forall p, cell m p = cell m1 p + cell m2 p) -> tot m = tot m1 + tot m2
}.

(** The sum over a map of what each entry holds *)
Lemma msum_add `{Countable K} {V} `{Empty V} (f : V -> Z) (m m1 m2 : gmap K V) : f ∅ = 0 ->
  (forall k, f (default ∅ (m !! k)) = f (default ∅ (m1 !! k)) + f (default ∅ (m2 !! k))) ->
  msum (fun _ => f) m = msum (fun _ => f) m1 + msum (fun _ => f) m2.
Proof.
  intros Hf Hm. set (ks := elements (dom m ∪ dom m1 ∪ dom m2)).
  assert (forall (m' : gmap K V) k, mterm (fun _ => f) m' k = f (default ∅ (m' !! k))) as Ht.
  { intros m' k. unfold mterm. by destruct (m' !! k). }
  assert (forall m', dom m' ⊆ dom m ∪ dom m1 ∪ dom m2 -> msum (fun _ => f) m' = sumZ ((fun k => f (default ∅ (m' !! k))) <$> ks)) as Hs.
  { intros m' Hd. rewrite (msum_support _ ks); [f_equal; apply list_fmap_ext; intros; apply Ht|apply NoDup_elements|].
    intros k Hk. unfold mterm. destruct (m' !! k) eqn:Hl; [|done]. exfalso. apply Hk, elem_of_elements, Hd, elem_of_dom. eauto. }
  rewrite !Hs by set_solver. clear Hs. induction ks as [|k ks IH]; [done|]. rewrite !fmap_cons, !sumZ_cons, IH, Hm. lia.
Qed.

Section cells.
Context {K : Type} `{Countable K}.
#[export] Instance amount_cells : Cells (gmap K Z) K := {|
  cell m k := default 0 (m !! k);
  tot m := msum (fun _ a => a) m;
  upd E k f m := update_amount k f m
|}.
#[export] Instance amount_cells_laws : CellsLaws (gmap K Z) K.
Proof.
  split; cbn [cell tot upd amount_cells].
  - intros k. by rewrite lookup_empty.
  - apply msum_empty.
  - intros E k f m x Hf. unfold update_amount. rewrite Hf. cbn. eexists. split; [done|]. split.
    + intros q. case_decide as Hq; [subst; by rewrite lookup_insert_eq|by rewrite lookup_insert_ne].
    + rewrite msum_insert. unfold mterm. by destruct (m !! k).
  - intros E k f m m'. unfold update_amount. destruct (f _); [eauto|done..].
  - intros m Hm. apply msum_nonneg. intros k v Hk. specialize (Hm k). by rewrite Hk in Hm.
  - intros m Hm k. pose proof (mterm_le_msum (fun _ a => a) m k) as Hle. unfold mterm in Hle.
    destruct (m !! k) as [a|] eqn:Hk; cbn; [|apply msum_nonneg; intros k' v Hk'; specialize (Hm k'); by rewrite Hk' in Hm].
    apply Hle. intros k' v Hk'. specialize (Hm k'). by rewrite Hk' in Hm.
  - intros m m1 m2 Hm. by apply (msum_add (V:=Z) (H0:=0) (fun a => a)).
Qed.

Context {M P : Type} {HM : Empty M} {HC : Cells M P} {HP : EqDecision P} {HL : CellsLaws M P}.
#[export] Instance nested_cells : Cells (gmap K M) (K * P) := {|
  cell m p := cell (default ∅ (m !! p.1)) p.2;
  tot m := msum (fun _ m => tot m) m;
  upd E p f m := at_key p.1 (upd p.2 f) m
|}.
#[export] Instance nested_cells_laws : CellsLaws (gmap K M) (K * P).
Proof using HL.
  assert (forall (m : gmap K M), (forall p : K * P, 0 <= cell (default ∅ (m !! p.1)) p.2) ->
    forall k v, m !! k = Some v -> forall q, 0 <= cell v q) as Hin.
  { intros m Hm k v Hk q. specialize (Hm (k, q)). cbn [fst snd] in Hm. by rewrite Hk in Hm. }
  split; cbn [cell tot upd nested_cells].
  - intros p. rewrite lookup_empty. apply cell_empty.
  - apply msum_empty.
  - intros E [k p] f m x Hf. cbn [fst snd] in *. destruct (upd_ok E p f (default ∅ (m !! k)) x Hf) as (m' & Hu & Hc & Ht).
    unfold at_key. rewrite Hu. cbn [out_bind]. eexists. split; [done|]. split.
    + intros [k' q]. cbn [fst snd]. destruct (decide (k' = k)) as [->|Hk].
      * rewrite lookup_insert_eq. cbn. rewrite Hc. repeat case_decide; congruence.
      * rewrite lookup_insert_ne, decide_False by congruence. done.
    + rewrite msum_insert, Ht. unfold mterm. destruct (m !! k) as [v|]; cbn; [lia|]. rewrite tot_empty. lia.
  - intros E [k p] f m m'. cbn [fst snd]. unfold at_key. destruct (upd p f _) as [v| |] eqn:Hu; [|done..]. intros _. by eapply upd_inv.
  - intros m Hm. apply msum_nonneg. intros k v Hk. apply tot_nonneg. by apply (Hin m Hm k).
  - intros m Hm [k p]. cbn [fst snd]. pose proof (mterm_le_msum (fun _ m => tot m) m k) as Hle. unfold mterm in Hle.
    assert (forall k v, m !! k = Some v -> 0 <= tot v) as Hnn by (intros k' v Hk'; apply tot_nonneg; by apply (Hin m Hm k')).
    specialize (Hle Hnn). destruct (m !! k) as [v|] eqn:Hk; cbn in *; [|rewrite cell_empty; lia].
    pose proof (cell_le_tot v (Hin m Hm k v Hk) p). lia.
  - intros m m1 m2 Hm. apply msum_add; [apply tot_empty|]. intros k. apply tot_add. intros p. apply (Hm (k, p)).
Qed.
End cells.

(** The cells of a handle are those of its data. *)
#[export] Instance epoched_cells : Cells (epoched Z) Z := {|
  cell h e := cell (data h) e;
  tot h := tot (data h);
  upd E e f h := (let* d := update_amount e f (data h) in Ok (set_data d h))%out
|}.
#[export] Instance epoched_cells_laws : CellsLaws (epoched Z) Z.
Proof.
  split; cbn [cell tot upd epoched_cells].
  - done.
  - apply msum_empty.
  - intros E e f h x Hf. destruct (upd_ok E e f (data h) x Hf) as (d & Hu & Hc & Ht). cbn [upd amount_cells] in Hu. rewrite Hu.
    exists (set_data d h). done.
  - intros E e f h h' Hu. destruct (update_amount e f (data h)) as [d| |] eqn:Hd; [|done..]. by apply (upd_inv E e f (data h) d).
  - intros h Hh. by apply tot_nonneg.
  - intros h Hh e. by apply cell_le_tot.
  - intros h h1 h2 Hh. by apply tot_add.
Qed.

(** ** Loops of updates *)
Section folds.
Context {U : UintOps} {HU : UintLaws U} {E : Type} {M P : Type} {HM : Empty M} {HC : Cells M P} {HP : EqDecision P} {HL : CellsLaws M P}.

(** What a list of changes adds to a cell *)
Definition occ (l : list (P * Z)) (p : P) : Z := sumZ ((fun e => if decide (e.1 = p) then e.2 else 0) <$> l).
Definition cells_ok (m : M) : Prop := forall p, in_u256 (cell m p).

Lemma occ_cons p d l q : occ ((p, d) :: l) q = (if decide (p = q) then d else 0) + occ l q.
Proof. unfold occ. by rewrite fmap_cons, sumZ_cons. Qed.
Lemma occ_nonneg l q : Forall (fun e => 0 <= e.2) l -> 0 <= occ l q.
Proof. unfold occ. induction 1; rewrite ?fmap_nil, ?fmap_cons, ?sumZ_nil, ?sumZ_cons; [done|]. case_decide; lia. Qed.
Lemma sum_nonneg (l : list (P * Z)) : Forall (fun e => 0 <= e.2) l -> 0 <= sumZ l.*2.
Proof. induction 1; rewrite ?fmap_nil, ?fmap_cons, ?sumZ_nil, ?sumZ_cons; [done|]. cbn. lia. Qed.
Lemma occ_le_sum l q : Forall (fun e => 0 <= e.2) l -> occ l q <= sumZ l.*2.
Proof. unfold occ. induction 1; rewrite ?fmap_nil, ?fmap_cons, ?sumZ_nil, ?sumZ_cons; [done|]. cbn. case_decide; lia. Qed.

Lemma fold_add l : forall m, cells_ok m -> Forall (fun e => 0 <= e.2) l -> tot m + sumZ l.*2 <= MAX_VALUE ->
  exists m', out_fold (E:=E) (fun m e => upd e.1 (fun c => amount_add c e.2) m) l m = Ok m' /\
    (forall q, cell m' q = cell m q + occ l q) /\ tot m' = tot m + sumZ l.*2 /\ cells_ok m'.
Proof using HU HL.
  induction l as [|[p d] l IH]; intros m Hm Hl Ht.
  { exists m. split_and!; [done|intros q; unfold occ; cbn; rewrite sumZ_nil; lia|cbn; rewrite sumZ_nil; lia|done]. }
  inversion_clear Hl as [|? ? Hd Hl']. cbn in Hd. rewrite fmap_cons, sumZ_cons in Ht. cbn [fst snd] in Ht.
  assert (forall p, 0 <= cell m p) as Hnn by (intros q; apply Hm). pose proof (cell_le_tot m Hnn p) as Hle. pose proof (sum_nonneg l Hl').
  pose proof (Hm p) as Hp. unfold in_u256 in Hp.
  destruct (upd_ok E p (fun c => amount_add c d) m (cell m p + d)) as (m1 & Hu & Hc & Ht1).
  { unfold amount_add. apply uint_add_ok; unfold in_u256; lia. }
  destruct (IH m1) as (m' & Hf & Hc' & Ht' & Hok).
  - intros q. rewrite Hc. case_decide; [unfold in_u256; lia|apply Hm].
  - done.
  - lia.
  - exists m'. cbn [out_fold fst snd]. rewrite Hu. cbn [out_bind]. split_and!; [done| | |done].
    + intros q. rewrite Hc', Hc, occ_cons. repeat case_decide; try congruence; subst; lia.
    + rewrite fmap_cons, sumZ_cons, Ht', Ht1. cbn [fst snd]. lia.
Qed.

Lemma fold_sub l : forall m, cells_ok m -> Forall (fun e => 0 <= e.2) l -> (forall q, occ l q <= cell m q) ->
  exists m', out_fold (E:=E) (fun m e => upd e.1 (fun c => amount_sub c e.2) m) l m = Ok m' /\
    (forall q, cell m' q = cell m q - occ l q) /\ tot m' = tot m - sumZ l.*2 /\ cells_ok m'.
Proof using HU HL.
  induction l as [|[p d] l IH]; intros m Hm Hl Ht.
  { exists m. split_and!; [done|intros q; unfold occ; cbn; rewrite sumZ_nil; lia|cbn; rewrite sumZ_nil; lia|done]. }
  inversion_clear Hl as [|? ? Hd Hl']. cbn in Hd. pose proof (Ht p) as Hp. rewrite occ_cons, decide_True in Hp by done.
  pose proof (occ_nonneg l p Hl'). pose proof (Hm p) as Hr. unfold in_u256 in Hr.
  destruct (upd_ok E p (fun c => amount_sub c d) m (cell m p - d)) as (m1 & Hu & Hc & Ht1).
  { unfold amount_sub. apply uint_sub_ok; unfold in_u256; lia. }
  destruct (IH m1) as (m' & Hf & Hc' & Ht' & Hok).
  - intros q. rewrite Hc. case_decide; [unfold in_u256; lia|apply Hm].
  - done.
  - intros q. rewrite Hc. specialize (Ht q). rewrite occ_cons in Ht. repeat case_decide; try congruence; subst; lia.
  - exists m'. cbn [out_fold fst snd]. rewrite Hu. cbn [out_bind]. split_and!; [done| | |done].
    + intros q. rewrite Hc', Hc, occ_cons. repeat case_decide; try congruence; subst; lia.
    + rewrite fmap_cons, sumZ_cons, Ht', Ht1. cbn [fst snd]. lia.
Qed.

Lemma fold_add_inv l : forall m m', cells_ok m -> Forall (fun e => in_u256 e.2) l ->
  out_fold (E:=E) (fun m e => upd e.1 (fun c => amount_add c e.2) m) l m = Ok m' ->
  (forall q, cell m' q = cell m q + occ l q) /\ tot m' = tot m + sumZ l.*2 /\ cells_ok m'.
Proof using HU HL.
  induction l as [|[p d] l IH]; intros m m' Hm Hl Hf.
  { injection Hf as <-. split_and!; [intros q; unfold occ; cbn; rewrite sumZ_nil; lia|cbn; rewrite sumZ_nil; lia|done]. }
  inversion_clear Hl as [|? ? Hd Hl']. cbn [out_fold fst snd] in Hf, Hd.
  destruct (upd p (fun c => amount_add c d) m) as [m1| |] eqn:Hu; [|done..]. cbn [out_bind] in Hf.
  pose proof (upd_inv E _ _ _ _ Hu) as [x Hx]. destruct (upd_ok E p (fun c => amount_add c d) m x Hx) as (m1' & Hu' & Hc & Ht1). rewrite Hu in Hu'. injection Hu' as <-.
  apply amount_add_inv in Hx as [-> Hr]; [|apply Hm|done].
  destruct (IH m1 m') as (Hc' & Ht' & Hok); [|done..|].
  { intros q. rewrite Hc. case_decide; [done|apply Hm]. }
  split_and!; [| |done].
  - intros q. rewrite Hc', Hc, occ_cons. repeat case_decide; try congruence; subst; lia.
  - rewrite fmap_cons, sumZ_cons, Ht', Ht1. cbn [fst snd]. lia.
Qed.
Lemma fold_sub_inv l : forall m m', cells_ok m -> Forall (fun e => in_u256 e.2) l ->
  out_fold (E:=E) (fun m e => upd e.1 (fun c => amount_sub c e.2) m) l m = Ok m' ->
  (forall q, cell m' q = cell m q - occ l q) /\ tot m' = tot m - sumZ l.*2 /\ cells_ok m'.
Proof using HU HL.
  induction l as [|[p d] l IH]; intros m m' Hm Hl Hf.
  { injection Hf as <-. split_and!; [intros q; unfold occ; cbn; rewrite sumZ_nil; lia|cbn; rewrite sumZ_nil; lia|done]. }
  inversion_clear Hl as [|? ? Hd Hl']. cbn [out_fold fst snd] in Hf, Hd.
  destruct (upd p (fun c => amount_sub c d) m) as [m1| |] eqn:Hu; [|done..]. cbn [out_bind] in Hf.
  pose proof (upd_inv E _ _ _ _ Hu) as [x Hx]. destruct (upd_ok E p (fun c => amount_sub c d) m x Hx) as (m1' & Hu' & Hc & Ht1). rewrite Hu in Hu'. injection Hu' as <-.
  apply amount_sub_inv in Hx as (_ & -> & Hr); [|apply Hm|done].
  destruct (IH m1 m') as (Hc' & Ht' & Hok); [|done..|].
  { intros q. rewrite Hc. case_decide; [done|apply Hm]. }
  split_and!; [| |done].
  - intros q. rewrite Hc', Hc, occ_cons. repeat case_decide; try congruence; subst; lia.
  - rewrite fmap_cons, sumZ_cons, Ht', Ht1. cbn [fst snd]. lia.
Qed.
End folds.

(** ** Lists of changes *)
Section occs.
Context {P : Type} `{EqDecision P}.

Lemma out_fold_fmap {E A B T} (F : T -> B -> outcome E T) (g : A -> B) l : forall x,
  out_fold F (g <$> l) x = out_fold (fun t a => F t (g a)) l x.
Proof. induction l as [|a l IH]; intros x; [done|]. cbn. destruct (F x (g a)); cbn; [apply IH|done..]. Qed.
(** The changes moved to other cells *)
Definition moved {Q} (g : P -> Q) (l : list (P * Z)) : list (Q * Z) := (fun e => (g e.1, e.2)) <$> l.
Lemma moved_sum {Q} (g : P -> Q) l : sumZ (moved g l).*2 = sumZ l.*2.
Proof. unfold moved. by rewrite <- list_fmap_compose. Qed.
Lemma occ_moved {Q} `{EqDecision Q} (g : P -> Q) `{!Inj (=) (=) g} l p : occ (moved g l) (g p) = occ l p.
Proof.
  induction l as [|[q d] l IH]; [done|]. unfold moved in *. rewrite fmap_cons. cbn [fst snd]. rewrite !occ_cons, IH.
  repeat case_decide; try done; exfalso; subst; naive_solver.
Qed.
Lemma occ_moved_out {Q} `{EqDecision Q} (g : P -> Q) l q : (forall p, g p <> q) -> occ (moved g l) q = 0.
Proof.
  intros Hq. induction l as [|[p d] l IH]; [done|]. unfold moved in *. rewrite fmap_cons. cbn [fst snd]. rewrite occ_cons, IH, decide_False by done. done.
Qed.
Lemma occ_app (l k : list (P * Z)) p : occ (l ++ k) p = occ l p + occ k p.
Proof. unfold occ. by rewrite fmap_app, sumZ_app. Qed.
Lemma occ_notin (l : list (P * Z)) p : p ∉ l.*1 -> occ l p = 0.
Proof.
  induction l as [|[q d] l IH]; [done|]. cbn. rewrite not_elem_of_cons. intros [Hp Hl]. rewrite occ_cons, IH, decide_False by congruence. done.
Qed.
Lemma occ_nodup (l : list (P * Z)) p d : NoDup l.*1 -> (p, d) ∈ l -> occ l p = d.
Proof.
  induction l as [|[q x] l IH]; intros Hnd Hin; [by apply not_elem_of_nil in Hin|]. cbn in Hnd. apply list.NoDup_cons in Hnd as [Hq Hnd].
  rewrite occ_cons. apply elem_of_cons in Hin as [[= -> ->]|Hin].
  - rewrite decide_True, occ_notin by done. lia.
  - rewrite IH by done. rewrite decide_False; [lia|]. intros ->. apply Hq. by apply (list_elem_of_fmap_2 fst) in Hin.
Qed.
End occs.
Lemma occ_bt_list (m : gmap Z Z) e : occ (bt_list m) e = cell m e.
Proof.
  cbn [cell amount_cells]. destruct (m !! e) as [a|] eqn:He; cbn.
  - apply occ_nodup; [apply bt_list_nodup|]. by apply elem_of_bt_list.
  - apply occ_notin. intros ([e' a] & -> & Hin)%list_elem_of_fmap. apply elem_of_bt_list in Hin. cbn in He. congruence.
Qed.
Lemma sum_bt_list (m : gmap Z Z) : sumZ (bt_list m).*2 = tot m.
Proof. symmetry. apply bond_total_list. Qed.
Lemma bt_list_wf (m : gmap Z Z) : amounts_wf m -> Forall (fun e => in_u256 e.2) (bt_list m).
Proof. intros Hm. apply list.Forall_forall. intros [e a] Hin%elem_of_bt_list. by eapply Hm. Qed.
Lemma amounts_cells (m : gmap Z Z) : amounts_wf m -> cells_ok m.
Proof. intros Hm e. cbn. destruct (m !! e) as [a|] eqn:He; cbn; [by eapply Hm|by vm_compute]. Qed.

(** Changes of a nested map, by the changes of its entries *)
Section nested.
Context {K V P : Type} `{Countable K} `{EqDecision P} (chg : V -> list (P * Z)).
Definition nested (l : list (K * V)) : list (K * P * Z) := l ≫= fun kv => moved (pair kv.1) (chg kv.2).

Lemma occ_nested l k q c : NoDup l.*1 -> (forall v, (k, v) ∈ l -> occ (chg v) q = c) -> (k ∉ l.*1 -> c = 0) -> occ (nested l) (k, q) = c.
Proof.
  intros Hnd Hin Hout. induction l as [|[k' v] l IH].
  { rewrite Hout; [done|]. by apply not_elem_of_nil. }
  cbn in Hnd. apply list.NoDup_cons in Hnd as [Hk Hnd]. unfold nested in *. cbn [mbind list_bind fst snd]. rewrite occ_app.
  destruct (decide (k' = k)) as [->|Hne].
  - rewrite occ_moved by apply _. rewrite Hin by left. rewrite occ_notin; [lia|].
    intros ([[k1 p] d] & [= <- <-] & ([k2 v2] & Hm & Hl)%list_elem_of_bind)%list_elem_of_fmap.
    apply list_elem_of_fmap in Hm as ([p' d'] & [= -> -> ->] & _). apply Hk. by apply (list_elem_of_fmap_2 fst) in Hl.
  - rewrite occ_moved_out by congruence. rewrite IH; [done|done|intros v' Hv'; apply Hin; by right|].
    intros Hn. apply Hout. cbn. rewrite not_elem_of_cons. done.
Qed.
Lemma sum_nested l : sumZ (nested l).*2 = sumZ ((fun kv => sumZ (chg kv.2).*2) <$> l).
Proof.
  unfold nested. induction l as [|[k v] l IH]; [done|]. cbn [mbind list_bind fst snd]. by rewrite fmap_app, sumZ_app, moved_sum, IH, fmap_cons, sumZ_cons.
Qed.
Lemma nested_forall (R : Z -> Prop) l : Forall (fun kv => Forall (fun e => R e.2) (chg kv.2)) l -> Forall (fun e => R e.2) (nested l).
Proof.
  unfold nested. induction 1 as [|[k v] l Hv _ IH]; [constructor|]. cbn [mbind list_bind fst snd]. apply Forall_app. split; [|done].
  unfold moved. apply list.Forall_fmap. done.
Qed.
End nested.

(** The entries of the redelegated unbonds as changes *)
Definition entry_change (e : Epoch * Address * Epoch * Z) : Epoch * (Address * Epoch) * Z := (e.1.1.1, (e.1.1.2, e.1.2), e.2).
Definition entry_changes (m : RedelegatedUnbonds) : list (Epoch * (Address * Epoch) * Z) :=
  nested (fun rt => nested (fun b => bt_list b) (map_to_list rt)) (bt_list m).
Lemma bind_single {A B} (f : A -> B) l : (x ← l; [f x]) = f <$> l.
Proof. induction l as [|x l IH]; [done|]. cbn. by f_equal. Qed.
Lemma fmap_bind {A B B'} (g : B -> B') (f : A -> list B) l : g <$> (l ≫= f) = l ≫= fun x => g <$> f x.
Proof. induction l as [|x l IH]; [done|]. cbn [mbind list_bind]. by rewrite fmap_app, IH. Qed.
Lemma unbond_entries_changes m : entry_change <$> unbond_entries m = entry_changes m.
Proof.
  unfold unbond_entries, entry_changes, nested, entries2, moved. rewrite fmap_bind. apply list_bind_ext; [|done]. intros [e rt]. cbn [fst snd].
  rewrite bind_single, fmap_bind, !fmap_bind. apply list_bind_ext; [|done]. intros [v b]. cbn [fst snd]. rewrite bind_single, <- !list_fmap_compose.
  by apply list_fmap_ext.
Qed.
Lemma occ_entries m p : occ (entry_changes m) p = cell m p.
Proof.
  destruct p as [e [v s]]. unfold entry_changes. apply occ_nested; [apply bt_list_nodup| |].
  - intros rt Hrt%elem_of_bt_list. cbn [cell nested_cells fst snd]. rewrite Hrt. cbn [default from_option id].
    apply occ_nested; [apply NoDup_fst_map_to_list| |].
    + intros b Hb%elem_of_map_to_list. rewrite Hb. apply occ_bt_list.
    + intros Hv. destruct (rt !! v) as [b|] eqn:Hb; [|done]. exfalso. apply Hv, list_elem_of_fmap. exists (v, b). by rewrite elem_of_map_to_list.
  - intros He. cbn [cell nested_cells fst snd]. destruct (m !! e) as [rt|] eqn:Hm; [|done]. exfalso. apply He, list_elem_of_fmap. exists (e, rt). by rewrite elem_of_bt_list.
Qed.
Lemma entries_wf (m : RedelegatedUnbonds) : cells_ok m -> Forall (fun e => in_u256 e.2) (entry_changes m).
Proof.
  intros Hm. apply nested_forall, list.Forall_forall. intros [e rt] Hrt%elem_of_bt_list. apply nested_forall, list.Forall_forall.
  intros [v b] Hb%elem_of_map_to_list. apply list.Forall_forall. intros [s a] Ha%elem_of_bt_list.
  cbn [fst snd] in *. specialize (Hm (e, (v, s))). cbn in Hm. rewrite Hrt in Hm. cbn in Hm. rewrite Hb in Hm. cbn in *. by rewrite Ha in Hm.
Qed.

Lemma unbond_entries_wf (m : RedelegatedUnbonds) : cells_ok m -> Forall (fun e => in_u256 e.2) (unbond_entries m).
Proof.
  intros Hm%entries_wf. rewrite <- unbond_entries_changes in Hm.
  exact (proj1 (list.Forall_fmap entry_change (fun e => in_u256 e.2) (unbond_entries m)) Hm).
Qed.

(** ** Cleared cells *)
Lemma tot_clear {M P} {HM : Empty M} {HC : Cells M P} {HP : EqDecision P} {HL : CellsLaws M P} (m m' : M) p :
  (forall q, cell m' q = if decide (q = p) then 0 else cell m q) -> tot m' = tot m - cell m p.
Proof.
  intros Hm. destruct (upd_ok PosError p (fun _ => Ok (cell m p)) ∅ (cell m p) eq_refl) as (m0 & _ & Hc & Ht).
  rewrite tot_empty, cell_empty in Ht. pose proof (tot_add m m' m0) as Ha. rewrite Ha; [lia|]. intros q. rewrite Hm, Hc, cell_empty.
  case_decide; subst; lia.
Qed.
Lemma remove_entry_lookup {V} `{EqDecision V} a w (m : gmap Epoch (gmap Epoch V)) a' w' :
  default ∅ (remove_entry a w m !! a') !! w' = if decide (a' = a /\ w' = w) then None else default ∅ (m !! a') !! w'.
Proof.
  unfold remove_entry. destruct (decide (a' = a)) as [->|Ha].
  - assert (default ∅ ((if bool_decide (base.delete w (default ∅ (m !! a)) = ∅) then base.delete a m else <[a:=base.delete w (default ∅ (m !! a))]> m) !! a)
      = base.delete w (default ∅ (m !! a))) as ->.
    { case_bool_decide as Hd; [rewrite lookup_delete_eq; by rewrite Hd|by rewrite lookup_insert_eq]. }
    case_decide as Hw; [destruct Hw as [_ ->]; by rewrite lookup_delete_eq|rewrite lookup_delete_ne by naive_solver; done].
  - rewrite decide_False by tauto. case_bool_decide; [by rewrite lookup_delete_ne|by rewrite lookup_insert_ne].
Qed.

(** The unbonds that are withdrawn are cells of the unbonds. *)
Lemma withdrawable_in ub dub cur a w x ru : (a, w, (x, ru)) ∈ withdrawable ub dub cur ->
  w <= cur /\ default ∅ (ub !! a) !! w = Some x /\ ru = default ∅ (default ∅ (dub !! a) !! w).
Proof.
  unfold withdrawable. intros ([a' m] & Hin & Ha%elem_of_bt_list)%list_elem_of_bind. cbn [fst snd] in Hin.
  apply list_elem_of_bind in Hin as ([w' x'] & Hin & Hw%elem_of_bt_list). cbn [fst snd] in Hin. rewrite Z.gtb_ltb in Hin.
  destruct (Z.ltb_spec cur w'); [by apply not_elem_of_nil in Hin|]. apply list_elem_of_singleton in Hin as [= -> -> -> ->].
  rewrite Ha. done.
Qed.
Lemma withdrawable_nodup ub dub cur : NoDup (withdrawable ub dub cur).*1.
Proof.
  unfold withdrawable. rewrite fmap_bind. apply NoDup_bind; [| |eapply NoDup_fmap_1, bt_list_nodup].
  - intros [a1 m1] [a2 m2] [a w] H1%elem_of_bt_list H2%elem_of_bt_list. rewrite !fmap_bind.
    intros ([w1 x1] & Hw1 & _)%list_elem_of_bind ([w2 x2] & Hw2 & _)%list_elem_of_bind. cbn [fst snd] in *.
    destruct (w1 >? cur), (w2 >? cur); cbn in *; try (by apply not_elem_of_nil in Hw1); try (by apply not_elem_of_nil in Hw2).
    apply list_elem_of_singleton in Hw1 as [= -> ->], Hw2 as [= <- <-]. congruence.
  - intros [a m] Hm. rewrite fmap_bind. cbn [fst snd]. apply NoDup_bind; [| |eapply NoDup_fmap_1, bt_list_nodup].
    + intros [w1 x1] [w2 x2] [a' w] H1%elem_of_bt_list H2%elem_of_bt_list. cbn [fst snd].
      destruct (w1 >? cur), (w2 >? cur); cbn; intros Hw1 Hw2; try (by apply not_elem_of_nil in Hw1); try (by apply not_elem_of_nil in Hw2).
      apply list_elem_of_singleton in Hw1 as [= -> ->], Hw2 as [= <-]. congruence.
    + intros [w x] _. cbn [fst snd]. destruct (w >? cur); cbn; [constructor|apply NoDup_singleton].
Qed.

(** The loop that removes them *)
Section removals.
Context {K : Type} `{Countable K} (k : K).
Notation loop l m := (out_fold (E:=PosError) (fun t (x : Epoch * Epoch * (Z * RedelegatedBondsMap)) =>
  at_key k (fun m => Ok (remove_entry x.1.1 x.1.2 m)) t) l m).

Lemma remove_unbonds l : forall (m : gmap K (gmap Epoch (gmap Epoch Z))), NoDup l.*1 -> (forall a w y, (a, w, y) ∈ l -> cell m (k, (a, w)) = y.1) ->
  exists m', loop l m = Ok m' /\ tot m' = tot m - sumZ ((fun x => x.2.1) <$> l) /\ (cells_ok m -> cells_ok m').
Proof.
  induction l as [|[[a w] y] l IH]; intros m Hnd Hin; [exists m; split_and!; [done|cbn; rewrite sumZ_nil; lia|done]|].
  cbn in Hnd. apply list.NoDup_cons in Hnd as [Hne Hnd]. cbn [out_fold]. unfold at_key at 1. cbn [out_bind fst snd].
  set (m1 := <[k := _]> m). assert (forall q, cell m1 q = if decide (q = (k, (a, w))) then 0 else cell m q) as Hc.
  { intros [k' [a' w']]. cbn [cell nested_cells amount_cells fst snd]. unfold m1. destruct (decide (k' = k)) as [->|Hk].
    - rewrite lookup_insert_eq. cbn [default from_option id]. rewrite remove_entry_lookup. do 2 case_decide; try naive_solver.
    - rewrite lookup_insert_ne by done. rewrite decide_False by congruence. done. }
  destruct (IH m1 Hnd) as (m' & Hl & Ht & Hok).
  { intros a' w' y' Hin'. rewrite Hc, decide_False; [apply Hin; by right|]. intros [= -> ->]. apply Hne. by apply (list_elem_of_fmap_2 fst) in Hin'. }
  exists m'. split_and!; [done| |].
  - rewrite Ht, (tot_clear _ _ _ Hc), (Hin a w y) by left. rewrite fmap_cons, sumZ_cons. cbn [fst snd]. lia.
  - intros Hm. apply Hok. intros q. rewrite Hc. case_decide; [apply zero_u256|apply Hm].
Qed.
Lemma remove_del_unbonds l : forall (m : gmap K (gmap Epoch RedelegatedUnbonds)), exists m', loop l m = Ok m' /\ (cells_ok m -> cells_ok m').
Proof.
  induction l as [|[[a w] y] l IH]; intros m; [by exists m|]. cbn [out_fold]. unfold at_key at 1. cbn [out_bind fst snd].
  set (m1 := <[k := _]> m). destruct (IH m1) as (m' & Hl & Hok). exists m'. split; [done|]. intros Hm. apply Hok.
  intros [k' [a' [w' [v s]]]]. specialize (Hm (k', (a', (w', (v, s))))). cbn [cell nested_cells amount_cells fst snd] in *. unfold m1.
  destruct (decide (k' = k)) as [->|Hk]; [|by rewrite lookup_insert_ne].
  rewrite lookup_insert_eq. cbn [default from_option id]. rewrite remove_entry_lookup. case_decide; [apply zero_u256|done].
Qed.
End removals.

(** ** Sums over epochs *)
Lemma sum_cells_le (l : list Z) : forall (d : gmap Z Z), NoDup l -> (forall e, 0 <= cell d e) -> sumZ (cell d <$> l) <= tot d.
Proof.
  induction l as [|e l IH]; intros d Hnd Hd; [rewrite fmap_nil, sumZ_nil; by apply tot_nonneg|]. apply list.NoDup_cons in Hnd as [He Hnd].
  assert (forall e', cell (base.delete e d) e' = if decide (e' = e) then 0 else cell d e') as Hc.
  { intros e'. cbn [cell amount_cells]. case_decide; [subst; by rewrite lookup_delete_eq|by rewrite lookup_delete_ne]. }
  rewrite fmap_cons, sumZ_cons. pose proof (IH (base.delete e d) Hnd) as Hl. cbn [tot amount_cells] in *. rewrite msum_delete in Hl.
  replace (sumZ (cell (base.delete e d) <$> l)) with (sumZ (cell d <$> l)) in Hl.
  - assert (mterm (fun _ a => a) d e = cell d e) as Ht by (unfold mterm; cbn; by destruct (d !! e)).
    assert (forall e', 0 <= cell (base.delete e d) e') as Hnn by (intros e'; rewrite Hc; case_decide; [lia|apply Hd]). specialize (Hl Hnn). lia.
  - f_equal. apply list_fmap_ext. intros i e' Hi. apply list_elem_of_lookup_2 in Hi. rewrite Hc, decide_False; [done|]. by intros ->.
Qed.
Lemma get_sum_le {U : UintOps} {HU : UintLaws U} {E} fut past params (h : epoched Z) ep r : amounts_wf (data h) ->
  get_sum (HD:=amount_delta) (E:=E) fut past h ep params = Ok r -> 0 <= default 0 r <= tot (data h) /\ in_u256 (default 0 r).
Proof.
  intros Hh. unfold get_sum. pose proof (amounts_cells _ Hh) as Hc.
  destruct (last_update h); [|intros [= <-]; split; [split; [done|apply tot_nonneg; intros e; apply Hc]|apply zero_u256]].
  intros (st & _ & Hrun)%out_bind_Ok. apply out_bind_Ok in Hrun as (fu & _ & Hrun). apply out_bind_Ok in Hrun as (fe & _ & Hrun).
  set (l := iter_bounds_inclusive _ _) in Hrun. assert (NoDup l) as Hnd by apply NoDup_seqZ. clearbody l.
  assert (forall l acc r, out_fold (fun sum ep => match data h !! ep with Some delta => add_opt (HD:=amount_delta) (E:=E) sum delta | None => Ok sum end) l acc = Ok r ->
    in_u256 (default 0 acc) -> default 0 r = default 0 acc + sumZ (cell (data h) <$> l) /\ in_u256 (default 0 r)) as Hfold.
  { clear -Hh HU. induction l as [|e l IH]; intros acc r Hr Hacc; [injection Hr as <-; rewrite fmap_nil, sumZ_nil, Z.add_0_r; done|].
    cbn [out_fold] in Hr. apply out_bind_Ok in Hr as (acc1 & Hs & Hr). rewrite fmap_cons, sumZ_cons.
    change (cell (data h) e) with (default 0 (data h !! e)). destruct (data h !! e) as [a|] eqn:He; [|injection Hs as <-; apply IH in Hr as [-> ?]; [split; [cbn [from_option]; lia|done]|done]].
    pose proof (Hh _ _ He) as Ha. destruct acc as [x|]; cbn in Hs, Hacc.
    - apply out_bind_Ok in Hs as (y & Hy & [= <-]). apply amount_add_inv in Hy as [-> ?]; [|done..]. apply IH in Hr as [-> ?]; [|done]. split; [cbn [from_option]; unfold id; lia|done].
    - injection Hs as <-. apply IH in Hr as [-> ?]; [|done]. split; [cbn [from_option]; unfold id; lia|done]. }
  apply Hfold in Hrun as [-> Hr]; [|apply zero_u256]. cbn [default from_option] in *. pose proof (sum_cells_le l (data h) Hnd (fun e => proj1 (Hc e))) as Hle.
  assert (0 <= sumZ (cell (data h) <$> l)) by (apply sumZ_nonneg, list.Forall_fmap, list.Forall_forall; intros e _; apply Hc). split; [lia|done].
Qed.

(** ** Loops over parts of the state *)
Record lens {S T} (get : S -> T) (put : T -> S -> S) : Prop := {
  get_put x s : get (put x s) = x;
  put_get s : put (get s) s = s;
  put_put x y s : put x (put y s) = put x s
}.
Section part_loops.
Context {S E A : Type}.

Lemma out_fold_cons {T} (f : T -> A -> outcome E T) a l x y :
  out_fold f (a :: l) x = Ok y <-> exists z, f x a = Ok z /\ out_fold f l z = Ok y.
Proof.
  cbn [out_fold]. destruct (f x a) as [z| |]; cbn; split; try done; [eauto|intros (z' & [= <-] & ?); done|intros (? & ? & ?); done..].
Qed.
Lemma update_part_Ok {T} (get : S -> T) (put : T -> S -> S) (f : T -> outcome E T) s s' :
  update_part get put f s = (s', Ok tt) <-> exists x, f (get s) = Ok x /\ s' = put x s.
Proof.
  unfold update_part. destruct (f (get s)) as [x| |]; split; try done; [intros [= <-]; eauto|intros (x' & [= <-] & ->); done|intros (? & ? & ?); done..].
Qed.

Lemma iter_part {T} (get : S -> T) (put : T -> S -> S) (F : A -> T -> outcome E T) (HL : lens get put) l : forall s s',
  st_iter (fun a => update_part get put (F a)) l s = (s', Ok tt) <->
  exists x, out_fold (fun t a => F a t) l (get s) = Ok x /\ s' = put x s.
Proof.
  destruct HL as [Hgp Hpg Hpp]. induction l as [|a l IH]; intros s s'.
  { cbn. split; [intros [= <-]; exists (get s); by rewrite Hpg|intros (x & [= <-] & ->); by rewrite Hpg]. }
  cbn [st_iter]. rewrite st_bind_Ok. split.
  - intros (s1 & [] & Hz & Hl). apply update_part_Ok in Hz as (z & Hz & ->). apply IH in Hl as (x & Hx & ->). rewrite Hgp in Hx.
    exists x. rewrite Hpp. split; [|done]. apply out_fold_cons. eauto.
  - intros (x & Hx & ->). apply out_fold_cons in Hx as (z & Hz & Hx). exists (put z s), tt. split; [apply update_part_Ok; eauto|].
    apply IH. exists x. by rewrite Hgp, Hpp.
Qed.

Lemma iter_two {T1 T2} (get1 : S -> T1) (put1 : T1 -> S -> S) (get2 : S -> T2) (put2 : T2 -> S -> S)
  (F1 : A -> T1 -> outcome E T1) (F2 : A -> T2 -> outcome E T2) (L1 : lens get1 put1) (L2 : lens get2 put2)
  (H12 : forall x s, get1 (put2 x s) = get1 s) (H21 : forall x s, get2 (put1 x s) = get2 s)
  (Hc : forall x y s, put1 x (put2 y s) = put2 y (put1 x s)) l : forall s s',
  st_iter (fun a => st_bind (update_part get1 put1 (F1 a)) (fun _ => update_part get2 put2 (F2 a))) l s = (s', Ok tt) <->
  exists x y, out_fold (fun t a => F1 a t) l (get1 s) = Ok x /\ out_fold (fun t a => F2 a t) l (get2 s) = Ok y /\ s' = put2 y (put1 x s).
Proof.
  destruct L1 as [G1 P1 PP1], L2 as [G2 P2 PP2]. induction l as [|a l IH]; intros s s'.
  { cbn. split; [intros [= <-]; exists (get1 s), (get2 s); by rewrite P1, P2|intros (x & y & [= <-] & [= <-] & ->); by rewrite P1, P2]. }
  cbn [st_iter]. rewrite st_bind_Ok. split.
  - intros (s2 & [] & Hrun & Hl). apply st_bind_Ok in Hrun as (s1 & [] & Hz1 & Hz2).
    apply update_part_Ok in Hz1 as (z1 & Hz1 & ->). apply update_part_Ok in Hz2 as (z2 & Hz2 & ->). rewrite H21 in Hz2.
    apply IH in Hl as (x & y & Hx & Hy & ->). rewrite H12, G1 in Hx. rewrite G2 in Hy. exists x, y.
    rewrite Hc, PP2, PP1. split_and!; [apply out_fold_cons; eauto..|done].
  - intros (x & y & Hx & Hy & ->). apply out_fold_cons in Hx as (z1 & Hz1 & Hx). apply out_fold_cons in Hy as (z2 & Hz2 & Hy).
    exists (put2 z2 (put1 z1 s)), tt. split.
    + apply st_bind_Ok. exists (put1 z1 s), tt. split; apply update_part_Ok; [eauto|]. rewrite H21. eauto.
    + apply IH. exists x, y. by rewrite H12, G1, G2, Hc, PP2, PP1.
Qed.
Lemma st_iter_ext (f g : A -> st S E unit) l : (forall a s, f a s = g a s) -> forall s, st_iter f l s = st_iter g l s.
Proof.
  intros Hfg. induction l as [|a l IH]; intros s; [done|]. cbn [st_iter]. unfold st_bind. rewrite Hfg. by destruct (g a s) as [s1 [[]| |]].
Qed.
End part_loops.

(** Loops that add to cells of a part, and that move amounts from cells of a
    part to cells of another *)
Section cell_loops.
Context {U : UintOps} {HU : UintLaws U} {S E A : Type}.
Context {M P : Type} {HM : Empty M} {HC : Cells M P} {HP : EqDecision P} {HL : CellsLaws M P}.
Context {N Q : Type} {HN : Empty N} {HCN : Cells N Q} {HQ : EqDecision Q} {HLN : CellsLaws N Q}.
Context (get : S -> M) (put : M -> S -> S) (Hlens : lens get put) (path : A -> P) (val : A -> Z).

Definition changes {R} (f : A -> R) (l : list A) : list (R * Z) := (fun a => (f a, val a)) <$> l.
Lemma changes_sum {R} (f : A -> R) l : sumZ (changes f l).*2 = sumZ (val <$> l).
Proof. unfold changes. by rewrite <- list_fmap_compose. Qed.
Lemma changes_wf {R} (f : A -> R) l : Forall (fun a => in_u256 (val a)) l -> Forall (fun e => in_u256 e.2) (changes f l).
Proof. intros Hl. unfold changes. by apply list.Forall_fmap. Qed.

Lemma iter_add l s s' : cells_ok (get s) -> Forall (fun a => in_u256 (val a)) l ->
  st_iter (fun a => update_part get put (upd (E:=E) (path a) (fun c => amount_add c (val a)))) l s = (s', Ok tt) ->
  exists x, s' = put x s /\ (forall q, cell x q = cell (get s) q + occ (changes path l) q) /\ tot x = tot (get s) + sumZ (val <$> l) /\ cells_ok x.
Proof using HU HL Hlens.
  intros Hok Hl (x & Hx & ->)%(iter_part _ _ _ Hlens). exists x. split; [done|]. rewrite <- (changes_sum path).
  apply (fold_add_inv (E:=E)); [done|by apply changes_wf|]. unfold changes. by rewrite out_fold_fmap.
Qed.

Context (get2 : S -> N) (put2 : N -> S -> S) (Hlens2 : lens get2 put2) (path2 : A -> Q).
Context (H12 : forall x s, get (put2 x s) = get s) (H21 : forall x s, get2 (put x s) = get2 s) (Hc : forall x y s, put x (put2 y s) = put2 y (put x s)).
Lemma iter_move l s s' : cells_ok (get s) -> Forall (fun a => in_u256 (val a)) l ->
  st_iter (fun a => st_bind (update_part get put (upd (E:=E) (path a) (fun c => amount_sub c (val a))))
                            (fun _ => update_part get2 put2 (upd (E:=E) (path2 a) (fun c => amount_add c (val a))))) l s = (s', Ok tt) ->
  exists x y, s' = put2 y (put x s) /\ out_fold (fun t e => upd (E:=E) e.1 (fun c => amount_sub c e.2) t) (changes path l) (get s) = Ok x /\
    (forall q, cell x q = cell (get s) q - occ (changes path l) q) /\ tot x = tot (get s) - sumZ (val <$> l) /\ cells_ok x.
Proof using HU HL HLN Hlens Hlens2 H12 H21 Hc.
  intros Hok Hl (x & y & Hx & Hy & ->)%(iter_two _ _ _ _ _ _ Hlens Hlens2 H12 H21 Hc). exists x, y. split; [done|].
  rewrite <- (changes_sum path).
  assert (out_fold (fun t e => upd (E:=E) e.1 (fun c => amount_sub c e.2) t) (changes path l) (get s) = Ok x) as Hf by (unfold changes; by rewrite out_fold_fmap).
  split; [done|]. apply (fold_sub_inv (E:=E)) in Hf; [done..|by apply changes_wf].
Qed.
End cell_loops.

(** ** Handles that are never trimmed *)
Section handles.
Context {U : UintOps} {HU : UintLaws U} {E : Type} (params : PosParams).
Implicit Type h : epoched Z.

(** The amounts and the epochs of a handle are in range. *)
Record handle_ok h : Prop := {
  ho_amounts : amounts_wf (data h);
  ho_oldest o : oldest_epoch h = Some o -> 0 <= o;
  ho_epochs e : is_Some (data h !! e) -> 0 <= e <= U64_MAX
}.
Lemma sub_past_max ep : 0 <= ep <= U64_MAX -> sub_past_epochs (E:=E) OffsetMaxU64 params ep = Ok 0.
Proof.
  intros He. unfold sub_past_epochs. cbn [offset_value out_bind]. unfold sub_or_default, epoch_checked_sub.
  rewrite Z.gtb_ltb. case_match eqn:Hc; [done|]. cbn [default from_option id]. f_equal. apply Z.ltb_ge in Hc. lia.
Qed.
Lemma touch_handle ep h : data (touch ep h) = data h /\ last_update (touch ep h) = Some ep /\
  oldest_epoch (touch ep h) = Some (default ep (oldest_epoch h)).
Proof. unfold touch. cbn. destruct (oldest_epoch h) eqn:Ho; cbn; rewrite ?Ho; done. Qed.
Lemma update_data_max ep h : 0 <= ep <= U64_MAX -> (forall o, oldest_epoch h = Some o -> 0 <= o) ->
  delta_update_data (E:=E) (HD:=amount_delta) OffsetMaxU64 params ep h = (touch ep h, Ok tt).
Proof.
  intros He Ho. unfold delta_update_data. destruct (last_update h); [|done]. destruct (oldest_epoch h) as [o|] eqn:Hold; [|done].
  unfold st_bind, st_lift. rewrite sub_past_max by done. specialize (Ho o eq_refl). rewrite (proj2 (Z.ltb_ge _ _)) by lia. done.
Qed.

(** The handle after an addition or a write *)
Definition written (ep e a : Z) h : epoched Z := set_data (<[e := a]> (data h)) (touch ep h).
Lemma delta_set_max ep h a : 0 <= ep <= U64_MAX -> (forall o, oldest_epoch h = Some o -> 0 <= o) ->
  delta_set (E:=E) (HD:=amount_delta) OffsetMaxU64 params a ep 0 h = (written ep ep a h, Ok tt).
Proof.
  intros He Ho. unfold delta_set, st_bind. rewrite update_data_max by done. unfold set_at_epoch, epoch_add, u64_add, u64_checked_add.
  rewrite Z.add_0_r, (proj2 (Z.leb_le _ _)) by lia. cbn. unfold written. by rewrite (proj1 (touch_handle ep h)).
Qed.
Lemma delta_add_max ep off h a : 0 <= ep -> 0 <= off -> ep + off <= U64_MAX -> (forall o, oldest_epoch h = Some o -> 0 <= o) ->
  in_u256 (cell (data h) (ep + off)) -> in_u256 a -> cell (data h) (ep + off) + a <= MAX_VALUE ->
  delta_add_value (E:=E) (HD:=amount_delta) OffsetMaxU64 params a ep off h = (written ep (ep + off) (cell (data h) (ep + off) + a) h, Ok tt).
Proof using HU.
  intros He Hoff Hmax Ho Hc Ha Hle. unfold delta_add_value. unfold st_bind at 1. rewrite update_data_max by (done || lia).
  unfold st_bind, st_lift, st_get, epoch_add, u64_add, u64_checked_add. rewrite (proj2 (Z.leb_le _ _)) by lia. cbn [unwrap].
  unfold get_delta_val. rewrite (proj1 (touch_handle ep h)). cbn [delta_add amount_delta delta_zero]. unfold amount_add.
  fold (cell (data h) (ep + off)). rewrite uint_add_ok by done. unfold set_at_epoch, epoch_add, u64_add, u64_checked_add.
  rewrite (proj2 (Z.leb_le _ _)) by lia. cbn [unwrap]. unfold written. by rewrite (proj1 (touch_handle ep h)).
Qed.
Lemma delta_add_inv_max ep off h h' a : 0 <= ep -> 0 <= off -> ep + off <= U64_MAX -> (forall o, oldest_epoch h = Some o -> 0 <= o) ->
  in_u256 (cell (data h) (ep + off)) -> in_u256 a ->
  delta_add_value (E:=E) (HD:=amount_delta) OffsetMaxU64 params a ep off h = (h', Ok tt) ->
  cell (data h) (ep + off) + a <= MAX_VALUE /\ h' = written ep (ep + off) (cell (data h) (ep + off) + a) h.
Proof using HU.
  intros He Hoff Hmax Ho Hc Ha Hrun. destruct (Z.le_gt_cases (cell (data h) (ep + off) + a) MAX_VALUE) as [Hle|Hgt].
  - rewrite delta_add_max in Hrun by done. by injection Hrun as <-.
  - exfalso. revert Hrun. unfold delta_add_value. unfold st_bind at 1. rewrite update_data_max by (done || lia).
    unfold st_bind, st_lift, st_get, epoch_add, u64_add, u64_checked_add. rewrite (proj2 (Z.leb_le _ _)) by lia. cbn [unwrap].
    unfold get_delta_val. rewrite (proj1 (touch_handle ep h)). cbn [delta_add amount_delta delta_zero]. unfold amount_add, uint_add.
    fold (cell (data h) (ep + off)). rewrite uint_op_add_law by done. by rewrite (proj2 (Z.leb_gt _ _)).
Qed.
End handles.

(** ** What an unbonding takes from a bond *)
Section removal.
Context {U : UintOps} {HU : UintLaws U}.

Lemma unbonds_map_ok b amount res : amounts_wf b -> removal_ok b amount res -> exists nu, new_unbonds_map b res = Ok nu /\
  (forall e, cell nu e = cell b e - cell (after_removal res b) e) /\ tot nu = amount /\ amounts_wf nu /\
  (forall e, is_Some (nu !! e) <-> e ∈ used_epochs res).
Proof using HU.
  intros Hb Hr. set (val e := cell b e - cell (after_removal res b) e).
  assert (forall e, e ∈ used_epochs res -> unbond_value b res e = Ok (val e) /\ 0 <= val e <= cell b e) as Hval.
  { intros e He. pose proof (after_removal_lookup b amount res e Hr) as Hl. unfold val, unbond_value. cbn [cell amount_cells]. rewrite Hl, decide_True by done.
    pose proof (amounts_cells b Hb e) as Hbe. cbn [cell amount_cells] in Hbe. unfold in_u256 in Hbe.
    destruct (new_entry res) as [[e0 x]|] eqn:Hn; cbn [fmap option_fmap option_map fst snd].
    - destruct (removal_partial _ _ _ Hr _ _ Hn) as (_ & a & Ha & Hx). destruct (Z.eqb_spec e0 e) as [->|Hne].
      + rewrite bool_decide_true by done. rewrite Ha in *. cbn [default from_option id] in *. unfold amount_sub. 
        rewrite uint_sub_ok by (unfold in_u256; lia). split; [f_equal; lia|lia].
      + rewrite bool_decide_false by congruence. split; [f_equal; lia|lia].
    - rewrite bool_decide_false by done. split; [f_equal; lia|lia]. }
  set (l := (fun e => (e, val e)) <$> sorted_epochs (used_epochs res)).
  assert (NoDup l.*1 /\ forall e, e ∈ sorted_epochs (used_epochs res) <-> e ∈ used_epochs res) as [Hnd Hin].
  { unfold l, sorted_epochs. rewrite <- list_fmap_compose. change (fst ∘ _) with (fun e : Z => e). rewrite list_fmap_id.
    rewrite sort_by_perm. split; [apply NoDup_elements|]. intros e. rewrite sort_by_perm. apply elem_of_elements. }
  exists (list_to_map l). 
  assert (forall e, (list_to_map l : gmap Z Z) !! e = if decide (e ∈ used_epochs res) then Some (val e) else None) as Hlk.
  { intros e. case_decide as He.
    - apply elem_of_list_to_map; [done|]. apply list_elem_of_fmap. exists e. by rewrite Hin.
    - apply not_elem_of_list_to_map_1. intros ([e' a] & -> & Hx)%list_elem_of_fmap. apply list_elem_of_fmap in Hx as (e0 & [= -> ->] & Hx). by apply Hin in Hx. }
  assert (forall e, cell (list_to_map l : gmap Z Z) e = val e) as Hcell.
  { intros e. cbn [cell amount_cells]. rewrite Hlk. case_decide as He; [done|]. cbn. unfold val. cbn [cell amount_cells].
    rewrite (after_removal_lookup b amount res e Hr), decide_False by done. lia. }
  split_and!.
  - unfold new_unbonds_map. rewrite (out_map_ok _ (fun e => (e, val e))); [done|]. intros e He. apply list_elem_of_In, Hin in He.
    destruct (Hval e He) as [-> _]. done.
  - done.
  - pose proof (removal_total _ _ _ Hr) as Ht. pose proof (tot_add b (list_to_map l) (after_removal res b)) as Ha.
    cbn [tot amount_cells] in *. unfold bond_total in Ht. rewrite Ha in Ht; [lia|]. intros e. rewrite Hcell. unfold val. lia.
  - intros e a Ha. rewrite Hlk in Ha. case_decide as He; [|done]. injection Ha as <-. destruct (Hval e He) as [_ Hv].
    pose proof (amounts_cells b Hb e) as Hbe. unfold in_u256 in *. lia.
  - intros e. rewrite Hlk. case_decide; split; try done; by intros [? ?].
Qed.

(** The redelegated tokens in the bond of an epoch *)
Definition bond_redels (rb : RedelegatedUnbonds) (e : Epoch) : RedelegatedBondsMap := default ∅ (rb !! e).

Lemma update_del_bonds_ok res m rb rt' :
  (forall e, mod_epoch m = Some e -> e ∉ epochs res /\ left_redelegated (E:=PosError) m (bond_redels rb e) = Ok rt') ->
  exists rb', update_del_bonds res m rb = Ok rb' /\ forall e, bond_redels rb' e =
    if decide (mod_epoch m = Some e) then rt' else if decide (e ∈ epochs res) then ∅ else bond_redels rb e.
Proof.
  intros Hm. unfold update_del_bonds. set (rf := filter _ rb).
  assert (forall e, bond_redels rf e = if decide (e ∈ epochs res) then ∅ else bond_redels rb e) as Hf.
  { intros e. unfold bond_redels, rf. rewrite map_lookup_filter. destruct (rb !! e); simpl; repeat case_guard; case_decide; try done; exfalso; auto. }
  destruct (mod_epoch m) as [e0|] eqn:He0; [|exists rf; split; [done|]; intros e; apply Hf].
  destruct (Hm e0 eq_refl) as [Hne Hl]. unfold left_redelegated in Hl. case_bool_decide.
  - injection Hl as <-. eexists. split; [done|]. intros e. unfold bond_redels at 1. case_decide as He.
    + injection He as <-. by rewrite lookup_delete_eq.
    + rewrite lookup_delete_ne by congruence. apply Hf.
  - unfold at_key. fold (bond_redels rf e0). rewrite Hf, decide_False, Hl by done. cbn [out_bind]. eexists. split; [done|]. intros e.
    unfold bond_redels at 1. case_decide as He.
    + injection He as <-. by rewrite lookup_insert_eq.
    + rewrite lookup_insert_ne by congruence. apply Hf.
Qed.
Lemma not_contained rb e : contains rb e = false -> (forall q, cell (bond_redels rb e) q = 0) /\ tot (bond_redels rb e) = 0.
Proof.
  unfold contains. fold (bond_redels rb e). intros Hc%negb_false_iff%bool_decide_eq_true. split.
  - intros [v s]. pose proof (proj1 (put_entries (bond_redels rb e) v s)) as Hp. rewrite Hc in Hp. cbn in Hp. symmetry. exact Hp.
  - pose proof (proj2 (put_entries (bond_redels rb e) (Established 0) 0)) as [_ Hp]. rewrite Hc in Hp. symmetry. exact Hp.
Qed.

(** A division of the redelegated tokens of one bond *)
Definition shares (rt rt' ub : RedelegatedBondsMap) : Prop :=
  (forall q, cell rt' q + cell ub q = cell rt q /\ 0 <= cell rt' q /\ 0 <= cell ub q).
Lemma shares_total rt rt' ub : shares rt rt' ub -> tot rt = tot rt' + tot ub.
Proof. intros Hs. apply tot_add. intros q. destruct (Hs q). lia. Qed.

Lemma shares_kept rt : (forall q, 0 <= cell rt q) -> shares rt rt ∅.
Proof. intros Hrt q. rewrite cell_empty. specialize (Hrt q). lia. Qed.
Lemma shares_removed rb e : (forall q, 0 <= cell (bond_redels rb e) q) ->
  let ub := if contains rb e then put_all (entries2 (bond_redels rb e)) else ∅ in
  shares (bond_redels rb e) ∅ ub /\ tot ub = tot (bond_redels rb e).
Proof.
  intros Hrb. cbn zeta. destruct (contains rb e) eqn:Hc.
  - split; [|apply (put_entries (bond_redels rb e) (Established 0) 0)]. intros [v s].
    assert (cell (put_all (entries2 (bond_redels rb e))) (v, s) = cell (bond_redels rb e) (v, s)) as -> by apply (put_entries (bond_redels rb e) v s).
    rewrite cell_empty. specialize (Hrb (v, s)). lia.
  - apply not_contained in Hc as [Hc Ht]. rewrite tot_empty. split; [|done]. intros q. rewrite Hc, cell_empty. lia.
Qed.

(** The bond after the removal: fully used, used in part, not used *)
Lemma after_cases b amount res e : amounts_wf b -> removal_ok b amount res ->
  0 <= cell (after_removal res b) e <= cell b e /\
  (e ∈ epochs res -> cell (after_removal res b) e = 0) /\
  (forall x, new_entry res = Some (e, x) -> cell (after_removal res b) e = x /\ 0 < x < cell b e) /\
  (e ∉ epochs res -> fst <$> new_entry res <> Some e -> cell (after_removal res b) e = cell b e).
Proof.
  intros Hb Hr. pose proof (amounts_cells b Hb e) as Hbe. pose proof (after_removal_lookup b amount res e Hr) as Hl.
  cbn [cell amount_cells] in *. unfold in_u256 in Hbe. rewrite Hl. clear Hl. unfold used_epochs.
  destruct (new_entry res) as [[e0 x]|] eqn:Hn; [|rewrite bool_decide_false by done; cbv iota; split_and!; intros; case_decide; try done; lia].
  destruct (removal_partial _ _ _ Hr _ _ Hn) as (Hne & a & Ha & Hx). destruct (decide (e = e0)) as [->|He].
  - rewrite decide_True, bool_decide_true by set_solver. rewrite Ha in *. cbn in *.
    split_and!; [lia|lia|done|intros x' [= <-]; lia|done].
  - rewrite bool_decide_false by (cbn; congruence). cbv iota. split_and!; intros; case_decide; try congruence; try lia; set_solver.
Qed.

Context {C : AddressCodec}.
(** The part that is redelegated of a bond that is used in part *)
Lemma modified_ok b rb amount res : amounts_wf b -> removal_ok b amount res -> cells_ok rb ->
  (forall e, tot (bond_redels rb e) <= cell b e) ->
  exists m rt' ub, modified_redelegation b rb res = Ok m /\ 
    (forall e, mod_epoch m = Some e <-> (fst <$> new_entry res = Some e /\ contains rb e = true)) /\
    (forall e, mod_epoch m = Some e -> e ∉ epochs res /\ left_redelegated (E:=PosError) m (bond_redels rb e) = Ok rt' /\
       unbonded_at (E:=PosError) (bond_redels rb e) m e = Ok ub /\ shares (bond_redels rb e) rt' ub /\
       tot ub = Z.min (cell b e - cell (after_removal res b) e) (tot (bond_redels rb e))).
Proof using HU.
  intros Hb Hr Hrb Ht. unfold modified_redelegation. destruct (new_entry res) as [[e0 x]|] eqn:Hn.
  2:{ exists default_modified, ∅, ∅. split; [done|]. split; [intros e; cbn; naive_solver|done]. }
  destruct (contains rb e0) eqn:Hc.
  2:{ exists default_modified, ∅, ∅. split; [done|]. split; [intros e; cbn; split; [done|intros [[= <-] ?]; congruence]|done]. }
  destruct (after_cases b amount res e0 Hb Hr) as (_ & _ & Hx & _). destruct (Hx _ Hn) as [Hxe Hxb]. clear Hx.
  pose proof (amounts_cells b Hb e0) as Hbe. change (default 0 (b !! e0)) with (cell b e0). unfold in_u256 in Hbe. unfold amount_sub. rewrite uint_sub_ok by (unfold in_u256; lia). cbn [out_bind].
  fold (bond_redels rb e0). destruct (redelegation_split_at (E:=PosError) (bond_redels rb e0) e0 (cell b e0 - x)) as (m & ub & rt' & Hm & He & Hub & Hl & Htot & Hat).
  - intros v bs Hv s a Ha. specialize (Hrb (e0, (v, s))). cbn in Hrb. fold (bond_redels rb e0) in Hrb. rewrite Hv in Hrb. cbn in Hrb. by rewrite Ha in Hrb.
  - specialize (Ht e0). change (total2 (bond_redels rb e0)) with (tot (bond_redels rb e0)). lia.
  - lia.
  - exists m, rt', ub. rewrite He. split; [done|]. split; [intros e; cbn; naive_solver|]. intros e [= <-].
    split_and!; [by apply (removal_partial _ _ _ Hr _ _ Hn)|done|done|intros [v s]; apply Hat|]. rewrite Hxe. apply Htot.
Qed.

Lemma redelegation_phase b rb amount res : amounts_wf b -> removal_ok b amount res -> cells_ok rb ->
  (forall e, tot (bond_redels rb e) <= cell b e) ->
  exists m nru rb', modified_redelegation b rb res = Ok m /\ compute_new_redelegated_unbonds (E:=PosError) rb (epochs res) m = Ok nru /\
    update_del_bonds res m rb = Ok rb' /\ forall e, shares (bond_redels rb e) (bond_redels rb' e) (bond_redels nru e) /\
      tot (bond_redels nru e) <= cell b e - cell (after_removal res b) e /\ tot (bond_redels rb' e) <= cell (after_removal res b) e.
Proof using HU.
  intros Hb Hr Hrb Ht. destruct (modified_ok b rb amount res Hb Hr Hrb Ht) as (m & rt' & ub & Hm & Hme & Hmod).
  destruct (compute_new_ok (E:=PosError) rb (epochs res) m (fun e => if decide (mod_epoch m = Some e) then ub else put_all (entries2 (bond_redels rb e)))) as (nru & Hn & Hnl).
  { intros e _. case_decide as He; [by apply Hmod|]. unfold unbonded_at. by rewrite bool_decide_false by done. }
  destruct (update_del_bonds_ok res m rb rt') as (rb' & Hd & Hdl); [intros e He; split; by apply Hmod|].
  exists m, nru, rb'. split_and!; [done..|]. intros e. destruct (after_cases b amount res e Hb Hr) as (Hbd & Hfull & Hpart & Hkept).
  assert (forall q, 0 <= cell (bond_redels rb e) q) as Hnn by (intros q; apply (Hrb (e, q))).
  assert (bond_redels nru e = if decide (mod_epoch m = Some e) then ub else
    if decide (e ∈ epochs res) then (if contains rb e then put_all (entries2 (bond_redels rb e)) else ∅) else ∅) as ->.
  { unfold bond_redels at 1. rewrite Hnl. destruct (decide (unbonded_epochs _ _ _ _)) as [[[He|Hin] Hc]|Hno]; cbn.
    - by case_decide.
    - case_decide; [done|]. by rewrite decide_True, Hc.
    - unfold unbonded_epochs in Hno. case_decide as He; [exfalso; apply Hno; split; [by left|]; by apply Hme|].
      case_decide; [|done]. destruct (contains rb e) eqn:Hc; [|done]. exfalso. apply Hno. auto. }
  rewrite Hdl. destruct (decide (mod_epoch m = Some e)) as [He|He].
  - destruct (Hmod e He) as (_ & _ & _ & Hs & Htu). split_and!; [done|lia|]. pose proof (shares_total _ _ _ Hs). specialize (Ht e). lia.
  - case_decide as Hin.
    + destruct (shares_removed rb e Hnn) as [Hs Hu]. split; [done|]. rewrite Hu, tot_empty, Hfull by done. specialize (Ht e). lia.
    + split; [by apply shares_kept|]. rewrite tot_empty. split; [lia|]. destruct (decide (fst <$> new_entry res = Some e)) as [Hne|Hne].
      * destruct (contains rb e) eqn:Hc; [exfalso; apply He, Hme; done|]. apply not_contained in Hc as [_ ->]. lia.
      * rewrite Hkept by done. apply Ht.
Qed.

(** ** What is left after slashing *)
Lemma unbond_step_le storage params slashes nru r e a r' : (forall v, Forall slash_wf (slashes_of storage v)) -> Forall slash_wf slashes ->
  redelegated_wf (bond_redels nru e) -> tot (bond_redels nru e) <= a -> in_u256 a -> in_u256 (rs_sum r) ->
  after_slashing_unbond (E:=PosError) storage params slashes nru r (e, a) = Ok r' ->
  exists x, 0 <= x <= a /\ in_u256 (rs_sum r') /\ rs_sum r' = rs_sum r + x /\ rs_epoch_map r' = <[e := x]> (rs_epoch_map r).
Proof using HU.
  intros Hst Hs Hwf Hle Ha Hr Hrun. unfold after_slashing_unbond in Hrun.
  assert (Forall slash_wf (List.filter (fun slash => e <=? slash_epoch slash) slashes)) as Hsf
    by (apply list.Forall_forall; intros x [Hx _]%list_elem_of_In%filter_In; rewrite list.Forall_forall in Hs; by apply Hs, list_elem_of_In).
  apply out_bind_Ok in Hrun as (fr & Hf & Hrun).
  assert (in_u256 (total_redelegated fr) /\ in_u256 (total_after_slashing fr) /\ total_after_slashing fr <= total_redelegated fr /\ total_redelegated fr <= a) as (F1 & F2 & F3 & F4).
  { unfold bond_redels in *. destruct (nru !! e) as [ru|]; cbn [default from_option id] in *.
    - apply fold_redelegated_u256 in Hf as (? & ? & ? & Ht); [|done..]. split_and!; [done..|]. rewrite Ht, (proj2 (proj2 (put_entries ru (Established 0) 0))). exact Hle.
    - injection Hf as <-. unfold in_u256 in Ha. split_and!; cbn; try apply zero_u256; lia. }
  apply out_bind_Ok in Hrun as (y & Hy & Hrun). rewrite sub_or_zero_eq in Hy by done.
  apply apply_list_slashes_u256 in Hy as [Hy Hya]; [|done|unfold in_u256 in *; lia].
  apply out_bind_Ok in Hrun as (x & Hx & Hrun). apply amount_add_inv in Hx as [-> Hx]; [|done..].
  apply out_bind_Ok in Hrun as (z & Hz & [= <-]). apply amount_add_inv in Hz as [-> Hz]; [|done..]. cbn.
  exists (y + total_after_slashing fr). unfold in_u256 in *. split_and!; try done; lia.
Qed.

Lemma slashed_unbond_le storage params slashes nu nru r : (forall v, Forall slash_wf (slashes_of storage v)) -> Forall slash_wf slashes ->
  amounts_wf nu -> (forall e, redelegated_wf (bond_redels nru e)) -> (forall e, tot (bond_redels nru e) <= cell nu e) ->
  compute_amount_after_slashing_unbond (E:=PosError) storage params nu nru slashes = Ok r ->
  0 <= rs_sum r <= tot nu /\ in_u256 (rs_sum r) /\ tot (rs_epoch_map r) = rs_sum r /\ amounts_wf (rs_epoch_map r).
Proof using HU.
  intros Hst Hs Hnu Hwf Hle. unfold compute_amount_after_slashing_unbond. rewrite <- sum_bt_list.
  assert (Forall (fun p => cell nu p.1 = p.2) (bt_list nu)) as Hin.
  { apply list.Forall_forall. intros [e a] Hin%elem_of_bt_list. cbn. by rewrite Hin. }
  pose proof (bt_list_nodup nu) as Hnd. pose proof (bt_list_wf nu Hnu) as Hw. set (acc := mkResultSlashing 0 ∅).
  assert (0 <= rs_sum acc /\ in_u256 (rs_sum acc) /\ tot (rs_epoch_map acc) = rs_sum acc /\ amounts_wf (rs_epoch_map acc) /\
    (forall e, e ∈ (bt_list nu).*1 -> rs_epoch_map acc !! e = None)) as Hacc by (split_and!; cbn; try done; apply zero_u256).
  replace (sumZ _) with (rs_sum acc + sumZ (bt_list nu).*2) by (cbn; lia). clearbody acc. clear Hnu.
  induction (bt_list nu) as [|[e a] l IH] in acc, Hacc, Hin, Hnd, Hw |- *; intros Hrun; destruct Hacc as (A1 & A2 & A3 & A4 & A5).
  { injection Hrun as <-. rewrite fmap_nil, sumZ_nil. split_and!; done || lia. }
  cbn [out_fold] in Hrun. apply out_bind_Ok in Hrun as (acc1 & Hstep & Hrun). inversion_clear Hin as [|? ? He Hin'].
  inversion_clear Hw as [|? ? Ha Hw']. cbn [fst snd fmap list_fmap] in *. apply list.NoDup_cons in Hnd as [Hne Hnd].
  apply unbond_step_le in Hstep as (x & Hx & B1 & B2 & B3); [|done..|by rewrite <- He|done|done].
  rewrite sumZ_cons. apply IH in Hrun; [rewrite B2 in Hrun; destruct Hrun as ([? ?] & ?); split; [lia|done]|done..|].
  rewrite B3, B2. unfold in_u256 in *. split_and!; [lia|lia|lia| | |].
  - cbn [tot amount_cells] in *. rewrite msum_insert. unfold mterm. rewrite A5 by (left; done). cbn. lia.
  - intros e' y [[_ <-]|[_ Hy]]%lookup_insert_Some; [unfold in_u256; lia|by apply (A4 e')].
  - intros e' He'. rewrite lookup_insert_ne by (intros ->; done). apply A5. by right.
Qed.

Lemma slashed_withdraw_le storage params slashes l r : (forall v, Forall slash_wf (slashes_of storage v)) -> Forall slash_wf slashes ->
  Forall (fun e => in_u256 e.2.1 /\ redelegated_wf e.2.2) l ->
  compute_amount_after_slashing_withdraw (E:=PosError) storage params l slashes = Ok r ->
  0 <= rs_sum r <= sumZ ((fun e => e.2.1) <$> l) /\ in_u256 (rs_sum r).
Proof using HU.
  intros Hst Hs Hl. unfold compute_amount_after_slashing_withdraw. set (acc := mkResultSlashing 0 ∅).
  assert (0 <= rs_sum acc /\ in_u256 (rs_sum acc)) as Hacc by (split; cbn; try done; apply zero_u256).
  replace (sumZ _) with (rs_sum acc + sumZ ((fun e => e.2.1) <$> l)) by (cbn; lia). clearbody acc.
  induction Hl as [|[[e w] [a ru]] l [Ha Hru] Hl IH] in acc, Hacc |- *; intros Hrun; destruct Hacc as (A1 & A2).
  { injection Hrun as <-. rewrite fmap_nil, sumZ_nil. split_and!; done || lia. }
  cbn [out_fold] in Hrun. apply out_bind_Ok in Hrun as (acc1 & Hstep & Hrun). cbn [fst snd] in *. unfold after_slashing_withdraw in Hstep.
  apply out_bind_Ok in Hstep as (w1 & _ & Hstep). apply out_bind_Ok in Hstep as (en & _ & Hstep). apply out_bind_Ok in Hstep as (fr & Hf & Hstep).
  assert (forall P, Forall slash_wf (List.filter P slashes)) as Hsf
    by (intros P; apply list.Forall_forall; intros x [Hx _]%list_elem_of_In%filter_In; rewrite list.Forall_forall in Hs; by apply Hs, list_elem_of_In).
  apply fold_redelegated_u256 in Hf as (? & ? & ? & _); [|done..]. apply out_bind_Ok in Hstep as (t & Ht & Hstep).
  apply amount_sub_inv in Ht as (_ & -> & ?); [|done..]. apply out_bind_Ok in Hstep as (y & Hy & Hstep).
  apply apply_list_slashes_u256 in Hy as [? ?]; [|done..]. apply out_bind_Ok in Hstep as (x & Hx & Hstep). apply amount_add_inv in Hx as [-> ?]; [|done..].
  apply out_bind_Ok in Hstep as (z & Hz & [= <-]). apply amount_add_inv in Hz as [-> ?]; [|done..].
  apply IH in Hrun; [|cbn; unfold in_u256 in *; lia]. cbn in Hrun. rewrite fmap_cons, sumZ_cons. cbn [fst snd]. unfold in_u256 in *. lia.
Qed.
End removal.

(** Steps of a run that returns *)
Ltac st_did H s1 Hx := apply st_bind_Ok in H as (s1 & [] & Hx & H).
Ltac st_lifted H x Hx := let s1 := fresh "s" in let Hl := fresh "Hl" in
  apply st_bind_Ok in H as (s1 & x & Hl & H); unfold st_lift in Hl; injection Hl as <- Hx.
Ltac st_got H := let s1 := fresh "s" in let x := fresh "x" in let Hl := fresh "Hl" in
  apply st_bind_Ok in H as (s1 & x & Hl & H); unfold st_get in Hl; injection Hl as <- <-.

(** ** The invariant of the ledger *)
Section invariant.
Context {U : UintOps} {HU : UintLaws U} {C : AddressCodec} {HC : AddressCodecLaws C} (params : PosParams).
Notation E := PosError.

(** What is owed to bonds and unbonds *)
Definition owed (s : Pos) : Z := tot (bonds (ledger s)) + tot (unbonds (ledger s)).
(** The bonds of all sources to a validator that start at an epoch *)
Definition bonds_at (s : Pos) (v : Address) (e : Epoch) : Z :=
  msum (fun k h => if decide (k.2 = v) then cell h e else 0) (bonds (ledger s)).
Definition redelegated_at (s : Pos) (v : Address) (p : Epoch * (Address * Epoch)) : Z :=
  msum (fun k rb => if decide (k.2 = v) then cell rb p else 0) (del_bonds (redel s)).
(** One bond, and the redelegated tokens in it *)
Definition bond_of (s : Pos) (k : Address * Address) : gmap Epoch Z := data (default empty_epoched (bonds (ledger s) !! k)).
Definition redels_of (s : Pos) (k : Address * Address) : RedelegatedUnbonds := default ∅ (del_bonds (redel s) !! k).
Definition redel_of (s : Pos) (k : Address * Address) (e : Epoch) : RedelegatedBondsMap := default ∅ (redels_of s k !! e).
Definition nam_of (s : Pos) : Z := bal (balances s) (native_token (info s)) POS.

(** The oldest epochs of the totals *)
Definition oldest_ok (m : gmap Address (epoched Z)) : Prop := forall v h o, m !! v = Some h -> oldest_epoch h = Some o -> 0 <= o.
(** The invariant of the bonds, the unbonds and the totals *)
Record ledger_inv (s : Pos) : Prop := {
  li_bonds k h : bonds (ledger s) !! k = Some h -> handle_ok h;
  li_oldest : oldest_ok (bonded (ledger s));
  li_bonded_cells : cells_ok (bonded (ledger s));
  li_unbonds : cells_ok (unbonds (ledger s));
  li_del_bonds : cells_ok (del_bonds (redel s));
  li_del_unbonds : cells_ok (del_unbonds (redel s));
  li_redel_bonded_cells : cells_ok (redel_bonded (redel s));
  (* the totals of a validator are the sums over its delegators *)
  li_bonded v e : cell (bonded (ledger s)) (v, e) = bonds_at s v e;
  li_redel_bonded v p : cell (redel_bonded (redel s)) (v, p) = redelegated_at s v p;
  (* a bond covers the tokens that were redelegated to it *)
  li_covered k e : tot (redel_of s k e) <= cell (bond_of s k) e
}.
(** Slashes are recorded with rates in range. *)
Definition slashes_ok (s : Pos) : Prop := forall v, Forall slash_wf (find_validator_slashes s v).
(** The account of proof of stake holds what is owed. *)
Record pos_inv (s : Pos) : Prop := {
  pi_store : store_wf (balances s);
  pi_ledger : ledger_inv s;
  pi_slashes : slashes_ok s;
  pi_solvent : owed s <= nam_of s
}.

(** ** Parts that the operations leave alone *)
Definition same_books (s s' : Pos) : Prop :=
  ledger s' = ledger s /\ redel s' = redel s /\ balances s' = balances s /\ info s' = info s.
#[local] Instance same_books_preorder : PreOrder same_books.
Proof. split; [intros s; done|]. intros s1 s2 s3 (? & ? & ? & ?) (? & ? & ? & ?). unfold same_books. by split_and!; etransitivity. Qed.

Lemma keeps_zoom_sets {A} (m : st ValidatorSets E A) : st_keeps same_books (zoom sets set_sets m).
Proof. intros s. done. Qed.
Lemma keeps_update_stake v d cur off : st_keeps same_books (update_stake params v d cur off).
Proof.
  unfold update_stake, update_total_deltas. apply keeps_bind; [apply _|apply keeps_zoom_sets|intros _].
  repeat (apply keeps_bind; [apply _|first [apply keeps_lift; apply _|apply keeps_get; apply _]|intros ?]). intros s. done.
Qed.
Lemma keeps_tally src v cur m : st_keeps same_books (tally_rewards src v cur m).
Proof.
  unfold tally_rewards. destruct (cur >? 0); [|apply keeps_ret; apply _].
  repeat (apply keeps_bind; [apply _|first [apply keeps_lift; apply _|apply keeps_get; apply _]|intros ?]).
  intros s. unfold add_rewards_to_counter, update_part. by destruct (update_amount _ _ _).
Qed.

(** ** Handles *)
Lemma handle_empty : handle_ok empty_epoched.
Proof. split; cbn; [intros e a; by rewrite lookup_empty|done|intros e; rewrite lookup_empty; by intros []]. Qed.
Lemma handle_touch ep h : 0 <= ep -> handle_ok h -> handle_ok (touch ep h).
Proof.
  intros Hep [Ha Ho He]. destruct (touch_handle ep h) as (Hd & _ & Hold). split; rewrite ?Hd, ?Hold; [done| |done].
  intros o [= <-]. destruct (oldest_epoch h) as [o|] eqn:Hh; [by apply Ho|done].
Qed.
Lemma handle_data d h : amounts_wf d -> (forall e, is_Some (d !! e) -> 0 <= e <= U64_MAX) -> handle_ok h -> handle_ok (set_data d h).
Proof. intros Hd He [Ha Ho _]. by split. Qed.
Lemma handle_written ep e a h : 0 <= ep -> 0 <= e <= U64_MAX -> in_u256 a -> handle_ok h -> handle_ok (written ep e a h).
Proof.
  intros Hep He Ha Hh. apply handle_data; [| |by apply handle_touch].
  - intros e' x [[_ <-]|[_ Hx]]%lookup_insert_Some; [done|by eapply (ho_amounts h)].
  - intros e' [x [[<- _]|[_ Hx]]%lookup_insert_Some]; [done|]. by apply (ho_epochs h); eauto.
Qed.
Lemma handle_removed es h : handle_ok h -> handle_ok (set_data (remove_epochs es (data h)) h).
Proof.
  intros Hh. assert (forall e a, remove_epochs es (data h) !! e = Some a -> data h !! e = Some a) as Hsub.
  { intros e a. rewrite remove_epochs_lookup. by case_decide. }
  apply handle_data; [|intros e [a Ha%Hsub]; by apply (ho_epochs h); eauto|done]. intros e a Ha%Hsub. by eapply (ho_amounts h).
Qed.
Lemma bond_handle_ok s src v : ledger_inv s -> handle_ok (bond_handle s src v).
Proof. intros Hs. unfold bond_handle. destruct (bonds (ledger s) !! (src, v)) eqn:Hk; [by eapply li_bonds|apply handle_empty]. Qed.

Lemma write_bond_twice src v h h' s : write_bond src v h (write_bond src v h' s) = write_bond src v h s.
Proof. unfold write_bond, set_ledger, set_bonds. cbn. by rewrite insert_insert_eq. Qed.
Lemma read_bond src v h s : bond_handle (write_bond src v h s) src v = h.
Proof. unfold bond_handle, write_bond. cbn. by rewrite lookup_insert_eq. Qed.

Lemma remove_bonds_run src v res amount s : handle_ok (bond_handle s src v) -> removal_ok (data (bond_handle s src v)) amount res ->
  exists h', remove_bonds params src v res s = (write_bond src v h' s, Ok tt) /\ handle_ok h' /\ data h' = after_removal res (data (bond_handle s src v)).
Proof.
  intros Hh Hr. unfold remove_bonds, after_removal. set (h := bond_handle s src v) in *. set (h1 := set_data (remove_epochs (epochs res) (data h)) h).
  assert (on_bond src v (st_mod (E:=E) (fun h => set_data (remove_epochs (epochs res) (data h)) h)) s = (write_bond src v h1 s, Ok tt)) as H1 by done.
  unfold st_bind at 1. rewrite H1. pose proof (handle_removed (epochs res) h Hh) as Hh1. fold h1 in Hh1.
  destruct (new_entry res) as [[be x]|] eqn:Hn; [|by exists h1].
  destruct (removal_partial _ _ _ Hr _ _ Hn) as (_ & a & Ha & Hx). pose proof (ho_epochs h Hh be ltac:(eauto)) as Hbe. pose proof (ho_amounts h Hh be a Ha) as Hau.
  exists (written be be x h1). unfold on_bond, zoom. rewrite read_bond, delta_set_max; [|lia|apply Hh1]. cbn [fst snd]. rewrite write_bond_twice.
  split; [done|]. split; [|done]. apply handle_written; [lia|done|unfold in_u256 in *; lia|done].
Qed.

(** ** Loops *)
Lemma unbonds_lens : lens (fun s => unbonds (ledger s)) (fun x => set_ledger (set_unbonds x)).
Proof. by split; intros; destruct s as [? ? [] ? ? ? ?]. Qed.
Lemma unbonded_lens : lens (fun s => unbonded (ledger s)) (fun x => set_ledger (set_unbonded x)).
Proof. by split; intros; destruct s as [? ? [] ? ? ? ?]. Qed.
Lemma bonded_lens : lens (fun s => bonded (ledger s)) (fun x => set_ledger (set_bonded x)).
Proof. by split; intros; destruct s as [? ? [] ? ? ? ?]. Qed.
Lemma del_bonds_lens : lens (fun s => del_bonds (redel s)) (fun x => set_redel (set_del_bonds x)).
Proof. by split; intros; destruct s as [? ? ? [] ? ? ?]. Qed.
Lemma del_unbonds_lens : lens (fun s => del_unbonds (redel s)) (fun x => set_redel (set_del_unbonds x)).
Proof. by split; intros; destruct s as [? ? ? [] ? ? ?]. Qed.
Lemma outgoing_lens : lens (fun s => outgoing (redel s)) (fun x => set_redel (set_outgoing x)).
Proof. by split; intros; destruct s as [? ? ? [] ? ? ?]. Qed.
Lemma redel_bonded_lens : lens (fun s => redel_bonded (redel s)) (fun x => set_redel (set_redel_bonded x)).
Proof. by split; intros; destruct s as [? ? ? [] ? ? ?]. Qed.
Lemma redel_unbonded_lens : lens (fun s => redel_unbonded (redel s)) (fun x => set_redel (set_redel_unbonded x)).
Proof. by split; intros; destruct s as [? ? ? [] ? ? ?]. Qed.

Lemma add_unbonds_run src v w nu s s' : amounts_wf nu -> cells_ok (unbonds (ledger s)) -> add_unbonds src v w nu s = (s', Ok tt) ->
  exists x, s' = set_ledger (set_unbonds x) s /\ cells_ok x /\ tot x = tot (unbonds (ledger s)) + tot nu.
Proof using HU.
  intros Hnu Hok Hrun. rewrite <- sum_bt_list.
  destruct (iter_add _ _ unbonds_lens (fun e => ((src, v), (e.1, w))) snd (bt_list nu) s s' Hok (bt_list_wf nu Hnu) Hrun) as (x & -> & _ & Ht & Hx). eauto.
Qed.
Lemma add_del_unbonds_run src v w nru s s' : cells_ok nru -> cells_ok (del_unbonds (redel s)) -> add_del_unbonds src v w nru s = (s', Ok tt) ->
  exists x, s' = set_redel (set_del_unbonds x) s /\ cells_ok x.
Proof using HU.
  intros Hnru Hok. unfold add_del_unbonds.
  rewrite (st_iter_ext _ (fun e => update_part (fun s => del_unbonds (redel s)) (fun x => set_redel (set_del_unbonds x))
    (upd ((src, v), (e.1.1.1, (w, (e.1.1.2, e.1.2)))) (fun c => amount_add c e.2)))) by (intros [[[? ?] ?] ?] ?; reflexivity).
  intros Hrun. eapply (iter_add _ _ del_unbonds_lens (fun e : Epoch * Address * Epoch * Z => ((src, v), (e.1.1.1, (w, (e.1.1.2, e.1.2))))) snd) in Hrun
    as (x & -> & _ & _ & Hx); [eauto|done|by apply unbond_entries_wf].
Qed.

Lemma oldest_upd p (f : Z -> outcome E Z) m m' : oldest_ok m -> upd p f m = Ok m' -> oldest_ok m'.
Proof.
  destruct p as [v e]. cbn [upd nested_cells epoched_cells fst snd]. unfold at_key. intros Hm (h & Hh & [= <-])%out_bind_Ok v' h' o.
  apply out_bind_Ok in Hh as (d & _ & [= <-]). rewrite lookup_insert_Some. intros [[_ <-]|[_ Hv]]; [|by apply (Hm v')]. cbn.
  destruct (m !! v) as [h|] eqn:Hv; cbn; [by apply (Hm v)|done].
Qed.
Lemma at_validator {K P} `{EqDecision K} `{EqDecision P} (v v' : K) (l : list (P * Z)) q :
  occ (moved (pair v) l) (v', q) = if decide (v' = v) then occ l q else 0.
Proof. case_decide as Hv; [subst; apply occ_moved; apply _|apply occ_moved_out; congruence]. Qed.
Lemma update_totals_run v pe nu s s' : amounts_wf nu -> cells_ok (bonded (ledger s)) -> oldest_ok (bonded (ledger s)) -> update_totals v pe nu s = (s', Ok tt) ->
  exists x y, s' = set_ledger (set_unbonded y) (set_ledger (set_bonded x) s) /\ cells_ok x /\ oldest_ok x /\
    forall v' e, cell x (v', e) = cell (bonded (ledger s)) (v', e) - if decide (v' = v) then cell nu e else 0.
Proof using HU.
  intros Hnu Hok Ho Hrun.
  destruct (iter_move _ _ bonded_lens (fun e => (v, e.1)) snd _ _ unbonded_lens (fun e => (v, (pe, e.1))) ltac:(done) ltac:(done) ltac:(done)
    (bt_list nu) s s' Hok (bt_list_wf nu Hnu) Hrun) as (x & y & -> & Hf & Hc & _ & Hx).
  exists x, y. split_and!; [done|done| |].
  - eapply (out_fold_inv oldest_ok); [|done|exact Hf]. intros m e m' _ Hm. by apply oldest_upd.
  - intros v' e. rewrite Hc. change (changes snd _ _) with (moved (pair v) (bt_list nu)). rewrite at_validator. case_decide; [by rewrite occ_bt_list|lia].
Qed.
Lemma update_redel_totals_run v pe nru s s' : cells_ok nru -> cells_ok (redel_bonded (redel s)) -> update_redel_totals v pe nru s = (s', Ok tt) ->
  exists x y, s' = set_redel (set_redel_unbonded y) (set_redel (set_redel_bonded x) s) /\ cells_ok x /\
    forall v' p, cell x (v', p) = cell (redel_bonded (redel s)) (v', p) - if decide (v' = v) then cell nru p else 0.
Proof using HU.
  intros Hnru Hok. unfold update_redel_totals.
  rewrite (st_iter_ext _ (fun e => st_bind (update_part (fun s => redel_bonded (redel s)) (fun x => set_redel (set_redel_bonded x))
      (upd (v, (e.1.1.1, (e.1.1.2, e.1.2))) (fun c => amount_sub c e.2)))
    (fun _ => update_part (fun s => redel_unbonded (redel s)) (fun x => set_redel (set_redel_unbonded x))
      (upd (v, (pe, (e.1.1.1, (e.1.1.2, e.1.2)))) (fun c => amount_add c e.2))))) by (intros [[[? ?] ?] ?] ?; reflexivity). intros Hrun.
  destruct (iter_move _ _ redel_bonded_lens (fun e : Epoch * Address * Epoch * Z => (v, (e.1.1.1, (e.1.1.2, e.1.2)))) snd _ _ redel_unbonded_lens
    (fun e : Epoch * Address * Epoch * Z => (v, (pe, (e.1.1.1, (e.1.1.2, e.1.2))))) ltac:(done) ltac:(done) ltac:(done)
    (unbond_entries nru) s s' Hok (unbond_entries_wf nru Hnru) Hrun) as (x & y & -> & _ & Hc & _ & Hx).
  exists x, y. split_and!; [done|done|]. intros v' p. rewrite Hc.
  assert (changes snd (fun e : Epoch * Address * Epoch * Z => (v, (e.1.1.1, (e.1.1.2, e.1.2)))) (unbond_entries nru) = moved (pair v) (entry_changes nru)) as ->.
  { rewrite <- unbond_entries_changes. unfold moved, changes. by rewrite <- list_fmap_compose. }
  rewrite at_validator. case_decide; [by rewrite occ_entries|lia].
Qed.
(** ** A change of one bond *)
Lemma msum_one {K V} `{Countable K} `{Empty V} (f : K -> V -> Z) (m m' : gmap K V) k0 d : (forall k, f k ∅ = 0) ->
  (forall k, f k (default ∅ (m' !! k)) = f k (default ∅ (m !! k)) + if decide (k = k0) then d else 0) -> msum f m' = msum f m + d.
Proof.
  intros Hf Hm. assert (forall (m : gmap K V) k, mterm f m k = f k (default ∅ (m !! k))) as Ht.
  { intros m0 k. unfold mterm. destruct (m0 !! k); cbn; [done|by rewrite Hf]. }
  set (ks := elements (dom m ∪ dom m' ∪ {[k0]})). assert (NoDup ks) as Hnd by apply NoDup_elements.
  assert (forall m0, dom m0 ⊆ dom m ∪ dom m' -> msum f m0 = sumZ ((fun k => f k (default ∅ (m0 !! k))) <$> ks)) as Hs.
  { intros m0 Hd. rewrite (msum_support f ks m0 Hnd); [f_equal; apply list_fmap_ext; intros; apply Ht|].
    intros k Hk. unfold mterm. destruct (m0 !! k) eqn:Hl; [|done]. exfalso. apply Hk, elem_of_elements. apply elem_of_dom_2 in Hl. set_solver. }
  rewrite !Hs by set_solver. assert (sumZ ((fun k => if decide (k = k0) then d else 0) <$> ks) = d) as Hone.
  { transitivity (occ ((fun k => (k, d)) <$> ks) k0); [unfold occ; by rewrite <- list_fmap_compose|apply occ_nodup].
    - rewrite <- list_fmap_compose. change (fst ∘ _) with (fun k : K => k). by rewrite list_fmap_id.
    - apply list_elem_of_fmap. exists k0. split; [done|]. apply elem_of_elements. set_solver. }
  transitivity (sumZ ((fun k => f k (default ∅ (m !! k))) <$> ks) + sumZ ((fun k => if decide (k = k0) then d else 0) <$> ks)); [|lia].
  clear Hs Hone Hnd. induction ks as [|k ks IH]; [done|]. rewrite !fmap_cons, !sumZ_cons, IH, Hm. lia.
Qed.
Lemma tot_ext {M P} {HM : Empty M} {HCM : Cells M P} {HP : EqDecision P} {HL : CellsLaws M P} (m m' : M) : (forall p, cell m p = cell m' p) -> tot m = tot m'.
Proof. intros Hm. rewrite (tot_add m m' ∅), tot_empty; [lia|]. intros p. rewrite cell_empty, Hm. lia. Qed.

(** The bond of [src] to [v] changes by [db], the redelegated tokens in it by [dr]. *)
Record bond_change (s s' : Pos) (src v : Address) (db : Epoch -> Z) (dr : Epoch * (Address * Epoch) -> Z) : Prop := {
  bc_handles k h : bonds (ledger s') !! k = Some h -> handle_ok h;
  bc_bond k e : cell (bond_of s' k) e = cell (bond_of s k) e + if decide (k = (src, v)) then db e else 0;
  bc_redel k p : cell (redels_of s' k) p = cell (redels_of s k) p + if decide (k = (src, v)) then dr p else 0;
  bc_oldest : oldest_ok (bonded (ledger s'));
  bc_cells : cells_ok (bonded (ledger s')) /\ cells_ok (unbonds (ledger s')) /\ cells_ok (del_bonds (redel s')) /\
    cells_ok (del_unbonds (redel s')) /\ cells_ok (redel_bonded (redel s'));
  bc_bonded v' e : cell (bonded (ledger s')) (v', e) = cell (bonded (ledger s)) (v', e) + if decide (v' = v) then db e else 0;
  bc_redel_bonded v' p : cell (redel_bonded (redel s')) (v', p) = cell (redel_bonded (redel s)) (v', p) + if decide (v' = v) then dr p else 0;
  bc_covered e : tot (redel_of s' (src, v) e) <= cell (bond_of s' (src, v)) e
}.
Lemma bond_change_inv s s' src v db dr : ledger_inv s -> bond_change s s' src v db dr -> ledger_inv s'.
Proof.
  intros Hs [Hh Hb Hr Ho (? & ? & ? & ? & ?) Hbd Hrd Hc]. split; try done.
  - intros v' e. rewrite Hbd, (li_bonded s Hs). unfold bonds_at.
    rewrite <- (msum_one (V:=epoched Z) _ (bonds (ledger s)) (bonds (ledger s')) (src, v)); [done|intros k; by case_decide|].
    intros k. specialize (Hb k e). change (cell (default ∅ (bonds (ledger s') !! k)) e) with (cell (bond_of s' k) e).
    change (cell (default ∅ (bonds (ledger s) !! k)) e) with (cell (bond_of s k) e). rewrite Hb.
    destruct (decide (k = (src, v))) as [->|]; cbn [snd]; repeat case_decide; try congruence; lia.
  - intros v' p. rewrite Hrd, (li_redel_bonded s Hs). unfold redelegated_at.
    rewrite <- (msum_one (V:=RedelegatedUnbonds) _ (del_bonds (redel s)) (del_bonds (redel s')) (src, v)); [done|intros k; case_decide; [apply cell_empty|done]|].
    intros k. specialize (Hr k p). fold (redels_of s k) (redels_of s' k). rewrite Hr.
    destruct (decide (k = (src, v))) as [->|]; cbn [snd]; repeat case_decide; try congruence; lia.
  - intros k e. destruct (decide (k = (src, v))) as [->|Hk]; [apply Hc|]. rewrite Hb, decide_False, Z.add_0_r by done.
    rewrite (tot_ext (redel_of s' k e) (redel_of s k e)); [apply (li_covered s Hs)|]. intros q. specialize (Hr k (e, q)). rewrite decide_False, Z.add_0_r in Hr by done. exact Hr.
Qed.
(** A bond that is written *)
Lemma bond_written s s' src v h' : bonds (ledger s') = <[(src, v) := h']> (bonds (ledger s)) ->
  tot (bonds (ledger s')) = tot (bonds (ledger s)) - tot (bond_handle s src v) + tot h' /\
  (forall k, bond_of s' k = if decide (k = (src, v)) then data h' else bond_of s k).
Proof.
  intros Hd. rewrite Hd. split.
  - cbn [tot nested_cells]. rewrite msum_insert. unfold mterm, bond_handle. by destruct (bonds (ledger s) !! (src, v)).
  - intros k. unfold bond_of. rewrite Hd. case_decide; [subst; by rewrite lookup_insert_eq|by rewrite lookup_insert_ne].
Qed.

Lemma cells_insert {K M P} `{Countable K} {HM : Empty M} {HCM : Cells M P} (m : gmap K M) k x : cells_ok m -> cells_ok x -> cells_ok (<[k := x]> m).
Proof.
  intros Hm Hx [k' p]. cbn [cell nested_cells fst snd]. destruct (decide (k' = k)) as [->|Hk]; [rewrite lookup_insert_eq; apply Hx|].
  rewrite lookup_insert_ne by done. apply (Hm (k', p)).
Qed.
Lemma cells_at {K M P} `{Countable K} {HM : Empty M} {HCM : Cells M P} (m : gmap K M) k : cells_ok m -> cells_ok (default ∅ (m !! k)).
Proof. intros Hm p. apply (Hm (k, p)). Qed.
Lemma cells_redelegated (m : RedelegatedBondsMap) : cells_ok m -> redelegated_wf m.
Proof. intros Hm v b Hv s a Ha. specialize (Hm (v, s)). cbn in Hm. rewrite Hv in Hm. cbn in Hm. by rewrite Ha in Hm. Qed.

(** ** Unbonding *)
Section unbonding.
Context (s : Pos) (src v : Address) (amount : Z) (res : BondsForRemovalRes) (nu : gmap Epoch Z) (nru rb' : RedelegatedUnbonds).
Notation h := (bond_handle s src v).
Notation rb := (redels_of s (src, v)).
Context (Hs : ledger_inv s) (Hr : removal_ok (data h) amount res).
Context (Hnu : forall e, cell nu e = cell (data h) e - cell (after_removal res (data h)) e) (Htot : tot nu = amount) (Hwf : amounts_wf nu).
Context (Hsh : forall e, shares (bond_redels rb e) (bond_redels rb' e) (bond_redels nru e) /\
  tot (bond_redels nru e) <= cell (data h) e - cell (after_removal res (data h)) e /\ tot (bond_redels rb' e) <= cell (after_removal res (data h)) e).

Lemma shares_cells : cells_ok rb' /\ cells_ok nru.
Proof using Hs Hsh.
  pose proof (cells_at _ (src, v) (li_del_bonds s Hs)) as Hrb. fold rb in Hrb.
  split; intros [e q]; destruct (proj1 (Hsh e) q) as (? & ? & ?); specialize (Hrb (e, q)); unfold in_u256 in *; cbn [cell nested_cells fst snd] in *; unfold bond_redels in *; lia.
Qed.
Lemma unbond_writes isr w pe m s1 s2 s3 s4 s5 s6 : update_del_bonds res m rb = Ok rb' ->
  remove_bonds params src v res s = (s1, Ok tt) ->
  (if isr : bool then st_ret tt else add_unbonds src v w nu) s1 = (s2, Ok tt) ->
  on_del_bonds src v (update_del_bonds res m) s2 = (s3, Ok tt) ->
  (if isr then st_ret tt else add_del_unbonds src v w nru) s3 = (s4, Ok tt) ->
  update_totals v pe nu s4 = (s5, Ok tt) -> update_redel_totals v pe nru s5 = (s6, Ok tt) ->
  ledger_inv s6 /\ balances s6 = balances s /\ info s6 = info s /\ owed s6 = owed s - if isr then amount else 0.
Proof.
  intros Hud H1 H2 H3 H4 H5 H6. destruct shares_cells as [Hrb' Hnru].
  destruct (remove_bonds_run src v res amount s (bond_handle_ok s src v Hs) Hr) as (h' & Hrun & Hh' & Hd). rewrite Hrun in H1. injection H1 as <-.
  assert (exists x, s2 = set_ledger (set_unbonds x) (write_bond src v h' s) /\ cells_ok x /\ tot x = tot (unbonds (ledger s)) + if isr then 0 else amount)
    as (ub & -> & Hub & Htub).
  { destruct isr; [injection H2 as <-; exists (unbonds (ledger s)); rewrite Z.add_0_r; split_and!; [by destruct s as [? ? [] ? ? ? ?]|apply Hs|done]|].
    apply add_unbonds_run in H2 as (x & -> & ? & Hx); [|done|apply Hs]. exists x. by rewrite <- Htot. }
  apply update_part_Ok in H3 as (db & Hdb & ->). cbn in Hdb. unfold at_key in Hdb. fold rb in Hdb. change (default ∅ _) with rb in Hdb. rewrite Hud in Hdb. injection Hdb as <-.
  match type of H4 with _ ?st = _ => set (s3 := st) in H4 end.
  assert (exists x, s4 = set_redel (set_del_unbonds x) s3 /\ cells_ok x) as (dub & -> & Hdub).
  { destruct isr; [injection H4 as <-; exists (del_unbonds (redel s)); split; [by destruct s as [? ? [] [] ? ? ?]|apply Hs]|].
    by apply add_del_unbonds_run in H4; [|done|apply Hs]. }
  apply update_totals_run in H5 as (x & y & -> & Hx & Hxo & Hxc); [|done|apply Hs..].
  apply update_redel_totals_run in H6 as (z & t & -> & Hz & Hzc); [|done|apply Hs].
  match goal with |- ledger_inv ?st /\ _ => set (s6 := st) end.
  destruct (bond_written s s6 src v h' eq_refl) as [Htb Hbo].
  assert (forall k, redels_of s6 k = if decide (k = (src, v)) then rb' else redels_of s k) as Hro.
  { intros k. unfold redels_of. cbn. case_decide; [subst; by rewrite lookup_insert_eq|by rewrite lookup_insert_ne]. }
  assert (bond_change s s6 src v (fun e => - cell nu e) (fun p => - cell nru p)) as Hb.
  { split; try done.
    - intros k hk. change (bonds (ledger s6)) with (<[(src, v) := h']> (bonds (ledger s))). intros [[_ <-]|[_ Hk]]%lookup_insert_Some; [done|by apply (li_bonds s Hs k)].
    - intros k e. rewrite Hbo. case_decide as Hk; [|lia]. subst k. rewrite Hd, Hnu. change (bond_of s (src, v)) with (data h). lia.
    - intros k [e q]. rewrite Hro. case_decide as Hk; [|lia]. subst k. destruct (proj1 (Hsh e) q) as [Hq _].
      cbn [cell nested_cells fst snd] in *. unfold bond_redels in Hq. lia.
    - split_and!; [done|done|apply cells_insert; [apply Hs|done]|done|done].
    - intros v' e. change (bonded (ledger s6)) with x. rewrite Hxc. change (bonded (ledger (set_redel _ _))) with (bonded (ledger s)). case_decide; lia.
    - intros v' p. change (redel_bonded (redel s6)) with z. rewrite Hzc.
      match goal with |- context [redel_bonded (redel ?st)] => change (redel_bonded (redel st)) with (redel_bonded (redel s)) end. case_decide; lia.
    - intros e. unfold redel_of. rewrite Hro, Hbo, !decide_True, Hd by done. apply Hsh. }
  split_and!; [by eapply bond_change_inv|done|done|]. unfold owed. rewrite Htb.
  change (unbonds (ledger s6)) with ub. rewrite Htub. cbn [tot epoched_cells]. rewrite Hd.
  pose proof (removal_total _ _ _ Hr) as Ht. unfold bond_total in Ht. cbn [tot amount_cells]. rewrite Ht. destruct isr; lia.
Qed.
End unbonding.

Lemma ledger_inv_same s s' : same_books s s' -> ledger_inv s -> ledger_inv s'.
Proof. intros (Hl & Hr & _ & _) []. split; unfold bonds_at, redelegated_at, redel_of, redels_of, bond_of; rewrite ?Hl, ?Hr; done. Qed.
Lemma owed_same s s' : same_books s s' -> owed s' = owed s.
Proof. intros (Hl & _). unfold owed. by rewrite Hl. Qed.
Lemma check_source_run source v s s' : check_source source v s = (s', Ok tt) -> s' = s.
Proof.
  unfold check_source. destruct source as [a|]; [|by intros [= <-]]. unfold st_bind, st_get. destruct (_ && _); [done|]. by intros [= <-].
Qed.

Lemma unbond_run source v amount cur isr s s' r : ledger_inv s -> slashes_ok s -> in_u256 amount ->
  unbond_tokens params source v amount cur isr s = (s', Ok r) ->
  ledger_inv s' /\ balances s' = balances s /\ info s' = info s /\ (owed s' = owed s - if isr then amount else 0) /\
  0 <= rs_sum r <= amount /\ in_u256 (rs_sum r) /\ tot (rs_epoch_map r) = rs_sum r /\ amounts_wf (rs_epoch_map r).
Proof.
  intros Hs Hsl Ha. unfold unbond_tokens, amount_is_zero. destruct (Z.eqb_spec amount 0) as [->|Hz].
  { intros [= <- <-]. cbn [rs_sum rs_epoch_map]. split_and!; try done. destruct isr; lia. }
  intros Hrun. st_lifted Hrun pe Hpe. st_lifted Hrun woff Hwoff. st_lifted Hrun w Hw.
  st_did Hrun s0 Hcs. apply check_source_run in Hcs as ->. st_got Hrun.
  st_did Hrun s0 Hv. destruct (is_validator s v); [|done]. injection Hv as <-.
  st_lifted Hrun fr Hfr. st_did Hrun s0 Hv. destruct fr; [done|]. injection Hv as <-. cbv beta zeta in Hrun.
  set (src := default v source) in *. st_lifted Hrun rem Hrem. pose proof (bond_handle_ok s src v Hs) as Hh.
  apply get_sum_le in Hrem as [Hrem Hru]; [|apply Hh]. rewrite Z.gtb_ltb in Hrun. destruct (Z.ltb_spec (default 0 rem) amount); [done|].
  fold (redels_of s (src, v)) in Hrun. st_lifted Hrun res Hres. st_lifted Hrun m Hm. st_lifted Hrun nu Hnu.
  destruct (find_bonds_ok (E:=E) (data (bond_handle s src v)) amount (ho_amounts _ Hh) Ha) as (res' & Hres' & Hr).
  { change (bond_total ?d) with (tot d). unfold in_u256 in *. lia. }
  rewrite Hres in Hres'. injection Hres' as <-.
  destruct (unbonds_map_ok _ _ _ (ho_amounts _ Hh) Hr) as (nu' & Hnu' & Hcell & Htot & Hwf & _). rewrite Hnu in Hnu'. injection Hnu' as <-.
  destruct (redelegation_phase (data (bond_handle s src v)) (redels_of s (src, v)) amount res (ho_amounts _ Hh) Hr) as (m' & nru & rb' & Hm' & Hnru & Hrb' & Hsh);
    [apply (cells_at _ _ (li_del_bonds s Hs))|apply (li_covered s Hs)|]. rewrite Hm in Hm'. injection Hm' as <-.
  st_did Hrun s1 H1. st_did Hrun s2 H2. rewrite Hnru in Hrun. st_lifted Hrun nru' Hn'. subst nru'.
  st_did Hrun s3 H3. st_did Hrun s4 H4. st_did Hrun s5 H5. st_did Hrun s6 H6. st_got Hrun. st_lifted Hrun rr Hrr. st_lifted Hrun c Hc.
  st_did Hrun s7 H7. st_did Hrun s8 H8. injection Hrun as <- <-.
  destruct (unbond_writes s src v amount res nu nru rb' Hs Hr Hcell Htot Hwf Hsh isr w pe m s1 s2 s3 s4 s5 s6) as (Hinv & Hbal & Hinfo & Howed); [done..|].
  assert (same_books s6 s8) as Hsame.
  { transitivity s7; [pose proof (keeps_update_stake v (neg c) cur None s6) as Hk; by rewrite H7 in Hk|].
    pose proof (keeps_tally src v cur (rs_epoch_map rr) s7) as Hk. by rewrite H8 in Hk. }
  pose proof Hsame as (_ & _ & Hb & Hi). rewrite Hb, Hi, (owed_same _ _ Hsame).
  assert (forall v', Forall slash_wf (find_validator_slashes s6 v')) as Hsl6 by (intros v'; unfold find_validator_slashes; rewrite Hinfo; apply Hsl).
  destruct (shares_cells s src v res nru rb' Hs Hsh) as [_ Hnruok].
  apply slashed_unbond_le in Hrr as (? & ? & ? & ?); [|apply Hsl6|apply Hsl6|done|intros e; apply cells_redelegated, cells_at, Hnruok|].
  2:{ intros e. rewrite Hcell. apply Hsh. }
  rewrite Htot in *. split_and!; try done; try lia. by eapply ledger_inv_same.
Qed.

(** ** Transfers *)
Lemma bkey_owner t o o' : bkey t o = bkey t o' -> o = o'.
Proof using HC. intros Hk. pose proof (is_any_bkey t o) as H1. rewrite Hk, is_any_bkey in H1. congruence. Qed.
Lemma pos_transfer_run a b x s s' : store_wf (balances s) -> in_u256 x -> a <> b -> pos_transfer a b x s = (s', Ok tt) ->
  exists st, s' = set_balances st s /\ store_wf st /\
    (forall o, bal st (native_token (info s)) o = bal (balances s) (native_token (info s)) o + (if decide (o = b) then x else 0) - if decide (o = a) then x else 0).
Proof using HC HU.
  intros Hst Hx Hab. unfold pos_transfer, st_bind, st_get, zoom, map_err. set (t := native_token (info s)).
  destruct (decide (x = 0)) as [->|Hne].
  { cbn. intros [= <-]. exists (balances s). split_and!; [done|done|]. intros o. repeat case_decide; lia. }
  rewrite transfer_eq by done. destruct (Z.leb_spec x (bal (balances s) t a)) as [Hle|]; [|done].
  destruct (Z.leb_spec (bal (balances s) t b + x) MAX_VALUE) as [Hmax|]; [|done]. cbn [negb fst snd]. intros [= <-]. eexists. split; [done|].
  pose proof (bal_range _ t a Hst) as Ha. pose proof (bal_range _ t b Hst) as Hb. unfold in_u256 in *. split.
  - apply store_wf_set; [apply store_wf_set; [done|]|]; unfold in_u256; lia.
  - intros o. destruct (decide (o = b)) as [->|Hob].
    + rewrite bal_set_eq, decide_False by congruence. lia.
    + rewrite bal_set_ne by (intros Hk; by apply bkey_owner in Hk; congruence). destruct (decide (o = a)) as [->|Hoa]; [rewrite bal_set_eq; lia|].
      rewrite bal_set_ne by (intros Hk; by apply bkey_owner in Hk; congruence). lia.
Qed.

(** ** Bonding *)
Lemma add_bond_run src v a cur off s s1 s2 : handle_ok (bond_handle s src v) -> cells_ok (bonded (ledger s)) -> oldest_ok (bonded (ledger s)) ->
  in_u256 a -> 0 <= cur -> 0 <= off -> cur + off <= U64_MAX ->
  on_bond src v (delta_add_value (HD:=amount_delta) OffsetMaxU64 params a cur off) s = (s1, Ok tt) ->
  on_bonded v (delta_add_value (HD:=amount_delta) OffsetMaxU64 params a cur off) s1 = (s2, Ok tt) ->
  exists h' x, s2 = set_ledger (set_bonded x) (write_bond src v h' s) /\ handle_ok h' /\ cells_ok x /\ oldest_ok x /\
    (forall e, cell h' e = cell (bond_handle s src v) e + if decide (e = cur + off) then a else 0) /\ tot h' = tot (bond_handle s src v) + a /\
    (forall v' e, cell x (v', e) = cell (bonded (ledger s)) (v', e) + if decide (v' = v) then (if decide (e = cur + off) then a else 0) else 0).
Proof using HU.
  intros Hh Hbc Hbo Ha Hcur Hoff Hmax H1 H2.
  assert (forall h, cells_ok (data h) -> forall e, cell (written cur (cur + off) (cell (data h) (cur + off) + a) h) e = cell h e + if decide (e = cur + off) then a else 0) as Hw.
  { intros h _ e. cbn [cell epoched_cells amount_cells]. unfold written. cbn [data set_data]. case_decide; [subst; rewrite lookup_insert_eq; done|].
    rewrite lookup_insert_ne by done. lia. }
  unfold on_bond, zoom in H1. cbv zeta in H1. set (h := bond_handle s src v) in *. pose proof (amounts_cells _ (ho_amounts h Hh)) as Hc.
  destruct (delta_add_value _ _ _ _ _ h) as [h' r] eqn:Hadd. cbn [fst snd] in H1. injection H1 as <- ->.
  apply delta_add_inv_max in Hadd as [Hle ->]; [|done|done|done|apply Hh|apply Hc|done].
  unfold on_bonded, zoom in H2. cbv zeta in H2. change (bonded_handle (write_bond _ _ _ s) v) with (bonded_handle s v) in H2.
  set (g := bonded_handle s v) in *. assert (cells_ok (data g)) as Hgc by (apply (cells_at _ v Hbc)).
  assert (forall o, oldest_epoch g = Some o -> 0 <= o) as Hgo.
  { intros o. unfold g, bonded_handle. destruct (bonded (ledger s) !! v) as [g'|] eqn:Hv; [by apply (Hbo v)|done]. }
  destruct (delta_add_value _ _ _ _ _ g) as [g' r] eqn:Hadd. cbn [fst snd] in H2. injection H2 as <- ->.
  apply delta_add_inv_max in Hadd as [Hgle ->]; [|done|done|done|done|apply Hgc|done].
  exists (written cur (cur + off) (cell (data h) (cur + off) + a) h), (<[v := written cur (cur + off) (cell (data g) (cur + off) + a) g]> (bonded (ledger s))).
  specialize (Hc (cur + off)) as Hce. specialize (Hgc (cur + off)) as Hge. unfold in_u256 in *.
  assert (forall v' e, cell (<[v := written cur (cur + off) (cell (data g) (cur + off) + a) g]> (bonded (ledger s))) (v', e) =
    cell (bonded (ledger s)) (v', e) + if decide (v' = v) then (if decide (e = cur + off) then a else 0) else 0) as Hx.
  { intros v' e. cbn [cell nested_cells fst snd]. case_decide as Hv; [subst; rewrite lookup_insert_eq; exact (Hw g Hgc e)|]. rewrite lookup_insert_ne by done. lia. }
  split_and!; [done|apply handle_written; unfold in_u256; done || lia| | |intros e; exact (Hw h Hc e)| |done].
  - intros [v' e]. rewrite Hx. pose proof (Hbc (v', e)) as Hve. unfold in_u256 in *. repeat case_decide; try lia. subst.
    change (cell (bonded (ledger s)) (v, cur + off)) with (cell (data g) (cur + off)) in *. lia.
  - intros v' h0 o [[_ <-]|[_ Hv]]%lookup_insert_Some; [|by apply (Hbo v')]. unfold written. cbn [oldest_epoch set_data].
    destruct (touch_handle cur g) as (_ & _ & ->). intros [= <-]. destruct (oldest_epoch g) as [o|] eqn:Ho; cbn; [by apply Hgo|done].
  - cbn [tot epoched_cells amount_cells]. unfold written. cbn [data set_data]. rewrite msum_insert. unfold mterm. cbn [cell amount_cells]. destruct (data h !! (cur + off)); cbn; lia.
Qed.

(** An addition to the bond of [src] to [v], with the totals *)
Lemma bond_added s s' src v h' x db : ledger_inv s -> bonds (ledger s') = <[(src, v) := h']> (bonds (ledger s)) -> bonded (ledger s') = x ->
  unbonds (ledger s') = unbonds (ledger s) -> redel s' = redel s -> handle_ok h' -> cells_ok x -> oldest_ok x ->
  (forall e, cell h' e = cell (bond_handle s src v) e + db e) -> (forall e, 0 <= db e) ->
  (forall v' e, cell x (v', e) = cell (bonded (ledger s)) (v', e) + if decide (v' = v) then db e else 0) ->
  ledger_inv s' /\ owed s' = owed s - tot (bond_handle s src v) + tot h'.
Proof.
  intros Hs Hb Hx Hu Hr Hh Hxc Hxo Hc Hdb Hxb. destruct (bond_written s s' src v h' Hb) as [Ht Hbo]. split; [|unfold owed; rewrite Ht, Hu; lia].
  apply (bond_change_inv s s' src v db (fun _ => 0)); [done|]. split.
  - intros k h. rewrite Hb. intros [[_ <-]|[_ Hk]]%lookup_insert_Some; [done|by apply (li_bonds s Hs k)].
  - intros k e. rewrite Hbo. case_decide; [subst k; apply Hc|lia].
  - intros k p. unfold redels_of. rewrite Hr. case_decide; lia.
  - by rewrite Hx.
  - rewrite Hx, Hu, Hr. split_and!; [done|apply Hs..].
  - intros v' e. by rewrite Hx.
  - intros v' p. rewrite Hr. case_decide; lia.
  - intros e. unfold redel_of, redels_of. rewrite Hr, Hbo, decide_True by done. fold (redels_of s (src, v)) (redel_of s (src, v) e).
    pose proof (li_covered s Hs (src, v) e) as Hcov. specialize (Hc e). specialize (Hdb e). cbn [cell epoched_cells] in Hc.
    change (bond_of s (src, v)) with (data (bond_handle s src v)) in Hcov. lia.
Qed.

Lemma epoch_add_inv {F} a b c : epoch_add (E:=F) a b = Ok c -> c = a + b /\ a + b <= U64_MAX.
Proof.
  unfold epoch_add, u64_add, u64_checked_add. destruct (Z.leb_spec (a + b) U64_MAX); [|done]. cbn. by intros [= <-].
Qed.

Lemma bond_run source v amount cur off s s' : pos_inv s -> in_u256 amount -> 0 <= cur -> 0 <= default (pipeline_len params) off -> default v source <> POS ->
  bond_tokens params source v amount cur off s = (s', Ok tt) -> pos_inv s' /\ info s' = info s.
Proof.
  intros [Hst Hs Hsl Hsol] Ha Hcur Hoff Hsrc. unfold bond_tokens, amount_is_zero. destruct (Z.eqb_spec amount 0) as [->|Hz]; [by intros [= <-]|]. cbv zeta.
  intros Hrun. st_did Hrun s0 Hcs. apply check_source_run in Hcs as ->. st_did Hrun s1 Htr.
  apply pos_transfer_run in Htr as (st & -> & Hst' & Hbal); [|done..]. st_lifted Hrun oe Hoe. apply epoch_add_inv in Hoe as [-> Hmax]. st_got Hrun.
  st_lifted Hrun state Hstate. case_bool_decide; [done|]. st_did Hrun s2 H2. st_did Hrun s3 H3. st_lifted Hrun delta Hdelta.
  set (src := default v source) in *. set (off' := default (pipeline_len params) off) in *. set (s1 := set_balances st s) in *.
  assert (ledger_inv s1) as Hs1 by (destruct Hs; by split).
  destruct (add_bond_run src v amount cur off' s1 s2 s3) as (h' & x & -> & Hh' & Hx & Hxo & Hc & Ht & Hxb); [by apply bond_handle_ok|apply Hs1..|done|done|done|done|done|done|].
  match type of Hrun with _ ?t = _ => set (s3 := t) in * end.
  destruct (bond_added s1 s3 src v h' x (fun e => if decide (e = cur + off') then amount else 0)) as [Hinv Howed]; try done.
  { intros e. unfold in_u256 in Ha. case_decide; lia. }
  pose proof (keeps_update_stake v delta cur off s3) as Hsame. rewrite Hrun in Hsame. cbn [fst] in Hsame. pose proof Hsame as (_ & _ & Hb & Hi).
  split; [|by rewrite Hi]. split.
  - rewrite Hb. done.
  - by eapply ledger_inv_same.
  - intros v'. unfold find_validator_slashes. rewrite Hi. apply Hsl.
  - rewrite (owed_same _ _ Hsame), Howed. unfold nam_of. rewrite Hb, Hi. change (info s3) with (info s). change (balances s3) with st.
    rewrite Hbal, decide_True, decide_False by congruence. unfold nam_of in Hsol. change (owed s1) with (owed s). lia.
Qed.

Lemma withdraw_run source v cur s s' r : pos_inv s -> default v source <> POS ->
  withdraw_tokens params source v cur s = (s', Ok r) -> pos_inv s' /\ info s' = info s.
Proof.
  intros [Hst Hs Hsl Hsol] Hsrc. unfold withdraw_tokens. cbv zeta. set (src := default v source) in *. intros Hrun. st_got Hrun.
  destruct (unbonds_empty _); [done|]. set (ub := default ∅ (unbonds (ledger s) !! (src, v))) in *. set (dub := default ∅ (del_unbonds (redel s) !! (src, v))) in *.
  set (l := withdrawable ub dub cur) in *. st_lifted Hrun rr Hrr.
  apply slashed_withdraw_le in Hrr as [Hle Hru]; [|apply Hsl|apply Hsl|].
  2:{ apply list.Forall_forall. intros [[a w] [x ru]] Hin%withdrawable_in. destruct Hin as (_ & Hx & ->). cbn [fst snd]. split.
      - pose proof (li_unbonds s Hs ((src, v), (a, w))) as Hu. cbn [cell nested_cells amount_cells fst snd] in Hu. fold ub in Hu. by rewrite Hx in Hu.
      - apply cells_redelegated. intros q. apply (li_del_unbonds s Hs ((src, v), (a, (w, q)))). }
  st_did Hrun s1 Hl. rewrite (st_iter_ext _ (fun e : Epoch * Epoch * (Z * RedelegatedBondsMap) => st_bind
    (update_part (fun s => unbonds (ledger s)) (fun x => set_ledger (set_unbonds x)) (at_key (src, v) (fun m => Ok (remove_entry e.1.1 e.1.2 m))))
    (fun _ => update_part (fun s => del_unbonds (redel s)) (fun x => set_redel (set_del_unbonds x)) (at_key (src, v) (fun m => Ok (remove_entry e.1.1 e.1.2 m))))))
    in Hl by (intros [[? ?] ?] ?; reflexivity).
  apply (iter_two _ _ _ _ _ _ unbonds_lens del_unbonds_lens) in Hl as (x & y & Hx & Hy & ->); [|done..].
  destruct (remove_unbonds (src, v) l (unbonds (ledger s)) (withdrawable_nodup ub dub cur)) as (x' & Hx' & Htx & Hxok).
  { intros a w [z ru] Hin%withdrawable_in. destruct Hin as (_ & Hz & _). cbn [cell nested_cells amount_cells fst snd]. fold ub. by rewrite Hz. }
  rewrite Hx in Hx'. injection Hx' as <-. destruct (remove_del_unbonds (src, v) l (del_unbonds (redel s))) as (y' & Hy' & Hyok). rewrite Hy in Hy'. injection Hy' as <-.
  st_did Hrun s2 Htr. injection Hrun as <- <-. apply pos_transfer_run in Htr as (st & -> & Hst' & Hbal); [|done|done|congruence].
  split; [|done]. split.
  - done.
  - destruct Hs. split; try done; [by apply Hxok|by apply Hyok].
  - done.
  - change (tot (bonds (ledger s)) + tot x <= bal st (native_token (info s)) POS). specialize (Hbal POS).
    rewrite decide_False, decide_True in Hbal by congruence.
    change (bal st (native_token (info s)) POS = nam_of s + 0 - rs_sum rr) in Hbal. unfold owed in Hsol. rewrite Hbal, Htx. lia.
Qed.

(** ** Redelegating *)
(** The tokens that a redelegation brings to a bond *)
Definition brought (pe : Epoch) (src_v : Address) (em : gmap Epoch Z) : RedelegatedUnbonds := {[pe := {[src_v := em]}]}.
Lemma brought_occ pe src_v em p : occ (moved (fun e => (pe, (src_v, e))) (bt_list em)) p = cell (brought pe src_v em) p.
Proof.
  destruct p as [e [v q]]. unfold brought. cbn [cell nested_cells fst snd]. destruct (decide (e = pe /\ v = src_v)) as [[-> ->]|Hne].
  - rewrite lookup_singleton_eq. cbn [default from_option id]. rewrite lookup_singleton_eq.
    rewrite (occ_moved (fun e => (pe, (src_v, e)))) by (intros ? ? [=]; done). apply occ_bt_list.
  - rewrite occ_moved_out by (intros ? [=]; naive_solver). destruct (decide (e = pe)) as [->|]; [|by rewrite lookup_singleton_ne].
    rewrite lookup_singleton_eq. cbn [default from_option id]. rewrite lookup_singleton_ne by naive_solver. done.
Qed.
Lemma brought_total pe src_v em e : tot (bond_redels (brought pe src_v em) e) = if decide (e = pe) then tot em else 0.
Proof.
  unfold bond_redels, brought. case_decide as He; [subst; rewrite lookup_singleton_eq|by rewrite lookup_singleton_ne].
  cbn [default from_option id tot nested_cells]. unfold singletonM, map_singleton. rewrite msum_insert, msum_empty. unfold mterm. rewrite lookup_empty. cbn. lia.
Qed.
Lemma redel_loop {K} `{Countable K} (k : K) pe src_v em (get : Pos -> gmap K RedelegatedUnbonds) put (Hlens : lens get put) s s' : amounts_wf em -> cells_ok (get s) ->
  st_iter (fun e : Epoch * Z => update_part get put (at_key k (at_key pe (at_key src_v (update_amount e.1 (fun c => amount_add (E:=E) c e.2)))))) (bt_list em) s = (s', Ok tt) ->
  exists x, s' = put x s /\ cells_ok x /\ forall k' p, cell x (k', p) = cell (get s) (k', p) + if decide (k' = k) then cell (brought pe src_v em) p else 0.
Proof using HU.
  intros Hem Hok Hrun.
  destruct (iter_add _ _ Hlens (fun e => (k, (pe, (src_v, e.1)))) snd (bt_list em) s s' Hok (bt_list_wf em Hem) Hrun) as (x & -> & Hc & _ & Hx).
  exists x. split_and!; [done|done|]. intros k' p. rewrite Hc. 
  assert (changes snd (fun e : Epoch * Z => (k, (pe, (src_v, e.1)))) (bt_list em) = moved (pair k) (moved (fun e => (pe, (src_v, e))) (bt_list em))) as ->
    by (unfold moved, changes; by rewrite <- list_fmap_compose).
  rewrite at_validator. case_decide; [by rewrite brought_occ|done].
Qed.

(** The bond of what is left after slashing, unless nothing is left *)
Lemma redelegate_bond d v a cur s s' : handle_ok (bond_handle s d v) -> cells_ok (bonded (ledger s)) -> oldest_ok (bonded (ledger s)) ->
  (forall k h, bonds (ledger s) !! k = Some h -> handle_ok h) -> in_u256 a -> 0 <= cur -> 0 <= pipeline_len params -> cur + pipeline_len params <= U64_MAX ->
  (if amount_is_zero a then st_ret tt
   else do! on_bond d v (delta_add_value (HD:=amount_delta) OffsetMaxU64 params a cur (pipeline_len params)) in
        on_bonded v (delta_add_value (HD:=amount_delta) OffsetMaxU64 params a cur (pipeline_len params))) s = (s', Ok tt) ->
  exists b x, s' = set_ledger (set_bonded x) (set_ledger (set_bonds b) s) /\ (forall k h, b !! k = Some h -> handle_ok h) /\ cells_ok x /\ oldest_ok x /\
    tot b = tot (bonds (ledger s)) + a /\
    (forall k e, cell (data (default empty_epoched (b !! k))) e = cell (bond_of s k) e + if decide (k = (d, v)) then (if decide (e = cur + pipeline_len params) then a else 0) else 0) /\
    (forall v' e, cell x (v', e) = cell (bonded (ledger s)) (v', e) + if decide (v' = v) then (if decide (e = cur + pipeline_len params) then a else 0) else 0).
Proof.
  intros Hh Hbc Hbo Hhs Ha Hcur Hpl Hmax. unfold amount_is_zero. destruct (Z.eqb_spec a 0) as [->|Hz].
  { intros [= <-]. exists (bonds (ledger s)), (bonded (ledger s)). split_and!; try done; [by destruct s as [? ? [] ? ? ? ?]|lia| |].
    - intros k e. unfold bond_of. repeat case_decide; lia.
    - intros v' e. repeat case_decide; lia. }
  intros Hrun. st_did Hrun s1 H1.
  destruct (add_bond_run d v a cur (pipeline_len params) s s1 s') as (h' & x & -> & Hh' & Hx & Hxo & Hc & Ht & Hxb); [done..|].
  exists (<[(d, v) := h']> (bonds (ledger s))), x. split_and!; try done.
  - intros k h [[_ <-]|[_ Hk]]%lookup_insert_Some; [done|by apply (Hhs k)].
  - destruct (bond_written s (write_bond d v h' s) d v h' eq_refl) as [Htb _]. cbn [ledger bonds write_bond set_ledger set_bonds] in Htb. rewrite Htb. lia.
  - intros k e. case_decide as Hk; [subst k; rewrite lookup_insert_eq; exact (Hc e)|]. rewrite lookup_insert_ne by done. unfold bond_of. lia.
Qed.

Lemma redelegate_run d src_v dest_v cur amount s s' : pos_inv s -> in_u256 amount -> 0 <= cur -> 0 <= pipeline_len params ->
  redelegate_tokens params d src_v dest_v cur amount s = (s', Ok tt) -> pos_inv s' /\ info s' = info s.
Proof.
  intros [Hst Hs Hsl Hsol] Ha Hcur Hpl. unfold redelegate_tokens, amount_is_zero. destruct (Z.eqb_spec amount 0) as [->|Hz]; [by intros [= <-]|].
  case_bool_decide as Hne; [done|]. intros Hrun. st_got Hrun. destruct (is_validator s d); [done|]. destruct (is_validator s src_v); [|done].
  destruct (is_validator s dest_v); [|done]. cbn [negb] in Hrun. st_lifted Hrun pe Hpe. apply epoch_add_inv in Hpe as [-> Hmax]. st_lifted Hrun chained Hch.
  destruct chained; [|done]. cbn [negb] in Hrun. apply st_bind_Ok in Hrun as (s1 & r & Hub & Hrun).
  apply unbond_run in Hub as (Hs1 & Hb1 & Hi1 & Howed & Hsum & Hsu & Htem & Hem); [|done..]. cbv zeta in Hrun.
  set (pe := cur + pipeline_len params) in *. st_did Hrun s2 H2.
  apply (redel_loop (d, dest_v) pe src_v (rs_epoch_map r) _ _ del_bonds_lens) in H2 as (x1 & -> & Hx1 & Hc1); [|done|apply Hs1].
  st_did Hrun s3 H3. apply redelegate_bond in H3 as (b & x & -> & Hbh & Hx & Hxo & Htb & Hbc & Hxc); [|exact (bond_handle_ok s1 d dest_v Hs1)|apply Hs1..|done|done|done|done].
  st_did Hrun s4 H4. unfold on_outgoing in H4. apply (iter_part _ _ _ outgoing_lens) in H4 as (og & _ & ->). st_did Hrun s5 H5.
  apply (redel_loop dest_v pe src_v (rs_epoch_map r) _ _ redel_bonded_lens) in H5 as (x2 & -> & Hx2 & Hc2); [|done|apply Hs1].
  apply st_bind_Ok in Hrun as (s6 & [] & H6 & Hrun). injection H6 as <-. st_lifted Hrun delta Hdelta.
  match type of Hrun with _ ?t = _ => set (s6 := t) in * end.
  pose proof (keeps_update_stake dest_v delta cur None s6) as Hsame. rewrite Hrun in Hsame. cbn [fst] in Hsame. pose proof Hsame as (_ & _ & Hb & Hi).
  assert (bond_change s1 s6 d dest_v (fun e => if decide (e = pe) then rs_sum r else 0) (cell (brought pe src_v (rs_epoch_map r)))) as Hbch.
  { split; try done.
    - split_and!; [done|apply Hs1|done|apply Hs1|done].
    - intros e. assert (tot (redel_of s6 (d, dest_v) e) = tot (redel_of s1 (d, dest_v) e) + tot (bond_redels (brought pe src_v (rs_epoch_map r)) e)) as ->.
      { apply tot_add. intros q. specialize (Hc1 (d, dest_v) (e, q)). rewrite decide_True in Hc1 by done. exact Hc1. }
      rewrite brought_total. specialize (Hbc (d, dest_v) e). rewrite decide_True in Hbc by done.
      change (cell (bond_of s6 (d, dest_v)) e = cell (bond_of s1 (d, dest_v)) e + if decide (e = pe) then rs_sum r else 0) in Hbc. rewrite Hbc.
      pose proof (li_covered s1 Hs1 (d, dest_v) e). case_decide; lia. }
  split; [|by rewrite Hi]. split.
  - rewrite Hb. change (store_wf (balances s1)). by rewrite Hb1.
  - eapply ledger_inv_same; [done|]. by eapply bond_change_inv.
  - intros v'. unfold find_validator_slashes. rewrite Hi. change (info s6) with (info s1). rewrite Hi1. apply Hsl.
  - rewrite (owed_same _ _ Hsame). unfold nam_of. rewrite Hb, Hi. change (balances s6) with (balances s1). change (info s6) with (info s1). rewrite Hb1, Hi1.
    fold (nam_of s). change (owed s6) with (tot b + tot (unbonds (ledger s1))). rewrite Htb.
    match goal with |- context [tot (bonds (ledger ?t)) + _] => change (bonds (ledger t)) with (bonds (ledger s1)) end. unfold owed in *. lia.
Qed.
End invariant.

(** ** Sequences of operations *)
Inductive pos_op : Type :=
| OpBond (source : option Address) (validator : Address) (amount : Z) (offset : option Z)
| OpUnbond (source : option Address) (validator : Address) (amount : Z)
| OpWithdraw (source : option Address) (validator : Address)
| OpRedelegate (delegator src_validator dest_validator : Address) (amount : Z).

Section runs.
Context {U : UintOps} {C : AddressCodec} (params : PosParams).

(** A transaction that fails is dropped with its changes. *)
Definition committed {A} (m : st Pos PosError A) (s : Pos) : Pos :=
  match m s with (s', Ok _) => s' | _ => s end.
Definition apply_op (current_epoch : Epoch) (o : pos_op) (s : Pos) : Pos :=
  match o with
  | OpBond source validator amount offset => committed (bond_tokens params source validator amount current_epoch offset) s
  | OpUnbond source validator amount => committed (unbond_tokens params source validator amount current_epoch false) s
  | OpWithdraw source validator => committed (withdraw_tokens params source validator current_epoch) s
  | OpRedelegate d src_v dest_v amount => committed (redelegate_tokens params d src_v dest_v current_epoch amount) s
  end.

(** The amounts are those of the type; proof of stake does not bond itself. *)
Definition op_ok (o : pos_op) : Prop :=
  match o with
  | OpBond source validator amount offset =>
      in_u256 amount /\ 0 <= default (pipeline_len params) offset /\ default validator source <> POS
  | OpUnbond source validator amount => in_u256 amount
  | OpWithdraw source validator => default validator source <> POS
  | OpRedelegate _ _ _ amount => in_u256 amount
  end.
(** What the rest of the ledger does between operations: validator sets, slashes,
    rewards and other balances change; the books and the account of proof of
    stake are not drained. *)
Record elsewhere (s s' : Pos) : Prop := {
  ew_ledger : ledger s' = ledger s;
  ew_redel : redel s' = redel s;
  ew_token : native_token (info s') = native_token (info s);
  ew_store : store_wf (balances s');
  ew_slashes : slashes_ok s';
  ew_account : nam_of s <= nam_of s'
}.
Record no_bonds (s : Pos) : Prop := {
  nb_ledger : ledger s = mkLedger ∅ ∅ ∅ ∅;
  nb_redel : redel s = mkRedel ∅ ∅ ∅ ∅ ∅ ∅;
  nb_store : store_wf (balances s);
  nb_slashes : slashes_ok s
}.
Inductive pos_reach : Epoch -> Pos -> Prop :=
| reach_start current_epoch s : 0 <= current_epoch -> no_bonds s -> pos_reach current_epoch s
| reach_op current_epoch s o : pos_reach current_epoch s -> op_ok o -> pos_reach current_epoch (apply_op current_epoch o s)
| reach_epoch current_epoch s next : pos_reach current_epoch s -> current_epoch <= next -> pos_reach next s
| reach_elsewhere current_epoch s s' : pos_reach current_epoch s -> elsewhere s s' -> pos_reach current_epoch s'.
End runs.

Lemma committed_inv {A} (m : st Pos PosError A) s (I : Pos -> Prop) : I s -> (forall s' a, m s = (s', Ok a) -> I s') -> I (committed m s).
Proof. intros Hs Hm. unfold committed. destruct (m s) as [s' [a| |]] eqn:Hrun; [by eapply Hm|done..]. Qed.
Lemma start_inv {C : AddressCodec} {HC : AddressCodecLaws C} s : no_bonds s -> pos_inv s.
Proof.
  intros [Hl Hr Hst Hsl]. pose proof (bal_range (balances s) (native_token (info s)) POS Hst) as Hb. unfold in_u256 in Hb.
  assert (forall M P (HM : Empty M) (HCM : Cells M P) (HP : EqDecision P), CellsLaws M P -> cells_ok (∅ : M)) as He
    by (intros; intros p; rewrite cell_empty; apply zero_u256).
  split; [done| |done|unfold owed; rewrite Hl; unfold nam_of; cbn [bonds unbonds]; rewrite !tot_empty; lia].
  split; unfold oldest_ok, bonds_at, redelegated_at, redel_of, redels_of, bond_of; rewrite ?Hl, ?Hr;
    cbn [bonds bonded unbonds del_bonds del_unbonds redel_bonded]; try (by eapply He; apply _); try (intros ? ?; by rewrite lookup_empty).
  - intros v e. rewrite cell_empty, msum_empty. done.
  - intros v p. rewrite cell_empty, msum_empty. done.
Qed.
Lemma reach_inv {U : UintOps} {HU : UintLaws U} {C : AddressCodec} {HC : AddressCodecLaws C} (params : PosParams) cur s : 0 <= pipeline_len params ->
  pos_reach params cur s -> 0 <= cur /\ pos_inv s.
Proof.
  intros Hpl. induction 1 as [cur s Hcur Hs|cur s o _ [Hcur IH] Ho|cur s next _ [Hcur IH] Hn|cur s s' _ [Hcur [Hst Hs Hsl Hsol]] [El Er Et Es Esl Ea]].
  - split; [done|by apply start_inv].
  - split; [done|]. destruct o as [source v amount off|source v amount|source v|d sv dv amount]; cbn [apply_op op_ok] in *; apply committed_inv; try done; intros s' r Hrun.
    + destruct r, Ho as (Ha & Hoff & Hsrc). by apply bond_run in Hrun as [? _].
    + destruct IH as [Hst Hs Hsl Hsol]. apply unbond_run in Hrun as (Hs' & Hb & Hi & How & _); [|done..].
      split; unfold slashes_ok, find_validator_slashes, nam_of; rewrite ?Hb, ?Hi; try done. rewrite How, Z.sub_0_r. done.
    + by apply withdraw_run in Hrun as [? _].
    + destruct r. by apply redelegate_run in Hrun as [? _].
  - split; [lia|done].
  - split; [done|]. split; [done| |done|].
    + destruct Hs. split; unfold bonds_at, redelegated_at, redel_of, redels_of, bond_of; rewrite ?El, ?Er; done.
    + unfold owed in *. rewrite El. lia.
Qed.

(** C4. Proof of stake can always pay. From a ledger without bonds, after any
    sequence of bonds, unbonds, withdrawals and redelegations, failed ones
    dropped, with epochs passing and validator sets, slashes, rewards and other
    balances changing in between: the account of proof of stake holds at least
    all bonds and all unbonds that were not withdrawn; the total bonded to a
    validator at each epoch is the sum of the bonds of its delegators, and so is
    the total redelegated to it; and no bond holds more redelegated tokens than
    it has tokens. *)
Theorem pos_account_covers_bonds {U : UintOps} {HU : UintLaws U} {C : AddressCodec} {HC : AddressCodecLaws C}
    (params : PosParams) (current_epoch : Epoch) (s : Pos) :
  0 <= pipeline_len params -> pos_reach params current_epoch s ->
  tot (bonds (ledger s)) + tot (unbonds (ledger s)) <= bal (balances s) (native_token (info s)) POS /\
  (forall v e, cell (bonded (ledger s)) (v, e) = bonds_at s v e) /\
  (forall v p, cell (redel_bonded (redel s)) (v, p) = redelegated_at s v p) /\
  (forall k e, tot (redel_of s k e) <= cell (bond_of s k) e).
Proof. intros Hpl Hr. destruct (reach_inv params current_epoch s Hpl Hr) as [_ [_ [] _ Hsol]]. done. Qed.

(** ** A run

    A delegator bonds to one validator, unbonds a part, redelegates a part to
    another validator; the first validator is slashed; what was unbonded is
    withdrawn. *)
Module RefPos.
Definition v1 : Address := Established 1.
Definition v2 : Address := Established 2.
Definition delegator : Address := Established 10.
Definition nam : Address := Established 99.
Definition start : Pos := mkPos (run_ops (U:=Ref.uint_ref) one_slot (fun _ => None) 5 [OpInit v1; OpInit v2] empty_sets).1 empty_epoched
  (mkLedger ∅ ∅ ∅ ∅) (mkRedel ∅ ∅ ∅ ∅ ∅ ∅) (mkRewards ∅ ∅ ∅) {[bkey nam delegator := VAmount 100000000]}
  (mkInfo nam ∅ ∅ {[v1 := 0; v2 := 0]}).
Definition slash_v1 (s : Pos) : Pos := mkPos (sets s) (total_deltas s) (ledger s) (redel s) (rewards s) (balances s)
  (mkInfo nam {[v1 := [mkSlash 7 1 DuplicateVote (5 * 10 ^ 11)]]} ∅ {[v1 := 0; v2 := 0]}).
Notation op := (apply_op (U:=Ref.uint_ref) (C:=RefCodec.codec) one_slot).
Definition before_slash : Pos :=
  op 8 (OpRedelegate delegator v1 v2 10000000) (op 8 (OpUnbond (Some delegator) v1 20000000) (op 5 (OpBond (Some delegator) v1 60000000 None) start)).
Definition final : Pos := op 40 (OpWithdraw (Some delegator) v1) (slash_v1 before_slash).

Lemma start_ok : no_bonds start.
Proof.
  split; [reflexivity|reflexivity| |].
  - intros k v Hk _. change (({[bkey nam delegator := VAmount 100000000]} : store) !! k = Some v) in Hk. apply lookup_singleton_Some in Hk as [<- <-]. exists 100000000. split; [done|]. split; vm_compute; discriminate.
  - intros v. constructor.
Qed.
Lemma slashed_ok (s : Pos) : slashes_ok (slash_v1 s).
Proof.
  intros v. change (Forall slash_wf (default [] (({[v1 := [mkSlash 7 1 DuplicateVote (5 * 10 ^ 11)]]} : gmap Address (list Slash)) !! v))).
  destruct (decide (v = v1)) as [->|Hv]; [|rewrite lookup_singleton_ne by done; constructor].
  rewrite lookup_singleton_eq. constructor; [|constructor]. split; [split|]; vm_compute; discriminate.
Qed.
Lemma slash_elsewhere (s : Pos) : native_token (info s) = nam -> store_wf (balances s) -> elsewhere s (slash_v1 s).
Proof. intros Hn Hst. split; [done|done|done|done|apply slashed_ok|]. unfold nam_of. by rewrite Hn. Qed.
Lemma reached : pos_reach (U:=Ref.uint_ref) (C:=RefCodec.codec) one_slot 40 final.
Proof.
  assert (forall z, 0 <= z <= 1000000000 -> in_u256 z) as Hz by (intros z Hz; split; [lia|]; transitivity 1000000000; [lia|vm_compute; discriminate]).
  assert (pos_reach (U:=Ref.uint_ref) (C:=RefCodec.codec) one_slot 8 before_slash) as Hr.
  { do 2 (apply reach_op; [|apply Hz; lia]). apply (reach_epoch _ 5); [|lia]. apply reach_op; [|split_and!; [apply Hz; lia|cbn; lia|done]].
    apply reach_start; [lia|apply start_ok]. }
  pose proof (reach_inv (HU:=Ref.uint_ref_laws) (HC:=RefCodec.codec_laws) one_slot 8 before_slash ltac:(cbn; lia) Hr) as [_ Hinv].
  assert (native_token (info before_slash) = nam) as Hn by (vm_compute; reflexivity).
  apply reach_op; [|done]. apply (reach_epoch _ 8); [|lia]. apply (reach_elsewhere _ 8 before_slash); [exact Hr|].
  apply slash_elsewhere; [exact Hn|apply Hinv].
Qed.
End RefPos.

Lemma pos_account_covers_bonds_witness :
  tot (bonds (ledger RefPos.final)) = 40000000 /\ tot (unbonds (ledger RefPos.final)) = 0 /\
  bal (balances RefPos.final) (native_token (info RefPos.final)) POS = 50000000 /\
  tot (bonds (ledger RefPos.final)) + tot (unbonds (ledger RefPos.final)) <= bal (balances RefPos.final) (native_token (info RefPos.final)) POS /\
  (forall v e, cell (bonded (ledger RefPos.final)) (v, e) = bonds_at RefPos.final v e) /\
  (forall v p, cell (redel_bonded (redel RefPos.final)) (v, p) = redelegated_at RefPos.final v p) /\
  (forall k e, tot (redel_of RefPos.final k e) <= cell (bond_of RefPos.final k) e).
Proof.
  split; [vm_compute; reflexivity|]. split; [vm_compute; reflexivity|]. split; [vm_compute; reflexivity|].
  apply (pos_account_covers_bonds (HU:=Ref.uint_ref_laws) (C:=RefCodec.codec) (HC:=RefCodec.codec_laws) one_slot 40 RefPos.final).
  - vm_compute. discriminate.
  - apply RefPos.reached.
Defined.
