(* ===== verification/Inflation.v ===== *)
(** * Inflation and rewards of proof of stake

    The controller of [core/src/ledger/inflation.rs], the rewards of
    [proof_of_stake/src/rewards.rs] and the operations of
    [proof_of_stake/src/lib.rs] that pay them: the fractions of a block reward,
    the products and commissions of an epoch, the tokens that are minted, the
    amounts of bonds and what they can claim, commission rates.

    The state of [Bonds] is extended by the accumulators, the commission rates and
    the parameters of the controller. A [HashMap] that is iterated is a finite
    map; lazy maps are iterated in the order of their keys. *)

From Stdlib Require Import ZArith Lia.
From stdpp Require Import base numbers list gmap sorting.
From S2P Require Import Prelude Uint Int256 Dec Keys Epoch Params Epoched Slash Unbond ValidatorSet ValidatorSetInv Lifecycle Token Bonds.

Local Open Scope Z_scope.
Local Open Scope st_scope.

(** ** The controller *)
Record ValsToUpdate : Type := mkVals { locked_ratio : Z; inflation : Z }.
Record RewardsController : Type := mkController {
  locked_tokens : Z;
  total_tokens : Z;
  total_native_tokens : Z;
  locked_ratio_target : Z;
  locked_ratio_last : Z;
  max_reward_rate : Z;
  last_inflation_amount : Z;
  p_gain_nom : Z;
  d_gain_nom : Z;
  controller_epochs_per_year : Z
}.

(** [Result::expect] *)
Definition expect {E F A} (o : outcome F A) : outcome E A := match o with Ok a => Ok a | _ => Panic end.

Section controller.
Context {U : UintOps} {E : Type}.
Local Open Scope outcome_scope.

Definition controller_run (c : RewardsController) : outcome E ValsToUpdate :=
  let* locked := expect (dec_try_from_uint (locked_tokens c)) in
  let* total := expect (dec_try_from_uint (total_tokens c)) in
  let* total_native := expect (dec_try_from_uint (total_native_tokens c)) in
  let* epochs_py := dec_from_u64 (controller_epochs_per_year c) in
  let* locked_ratio := if dec_is_zero total then dec_one else dec_div locked total in
  let* t := dec_mul total_native (max_reward_rate c) in
  let* max_inflation := dec_div t epochs_py in
  let* p_gain := dec_mul (p_gain_nom c) max_inflation in
  let* d_gain := dec_mul (d_gain_nom c) max_inflation in
  let* error := dec_sub (locked_ratio_target c) locked_ratio in
  let* delta_error := dec_sub (locked_ratio_last c) locked_ratio in
  let* p := dec_mul p_gain error in
  let* d := dec_mul d_gain delta_error in
  let* control_val := dec_sub p d in
  let* last := expect (dec_try_from_uint (last_inflation_amount c)) in
  let* new_inflation_amount_raw := dec_add last control_val in
  let* new_inflation_amount :=
    if is_negative new_inflation_amount_raw then Ok 0
    else let* u := to_uint new_inflation_amount_raw in unwrap u in
  let* m := to_uint max_inflation in
  let* max_inflation := unwrap m in
  Ok (mkVals locked_ratio (Z.min new_inflation_amount max_inflation)).
End controller.

Lemma st_bind_run {S E A B} (m : st S E A) (k : A -> st S E B) s s1 a : m s = (s1, Ok a) -> st_bind m k s = k a s1.
Proof. intros Hm. unfold st_bind. by rewrite Hm. Qed.

(** ** The fractions of a block reward *)
Inductive RewardsError : Type :=
| InsufficientVotes (votes_needed signing_stake : Z)
| CoeffsNotSet.
Inductive InflationError : Type :=
| RewardsFailed (e : RewardsError)
| ExpectedValidatorInConsensus (v : Address) (state : option ValidatorState)
| MintFailed (e : token_error)
| AmountFailed (e : AmountParseError)
| PosFailed (e : PosError).

Record PosRewards : Type := mkPosRewards { proposer_coeff : Z; signer_coeff : Z; active_val_coeff : Z }.
Record PosRewardsCalculator : Type := mkCalculator {
  proposer_reward : Z;
  signer_reward : Z;
  signing_stake : Z;
  total_stake : Z
}.
(** 0.01 *)
Definition MIN_PROPOSER_REWARD : Z := 10000000000.

Section coeffs.
Context {U : UintOps}.
Local Open Scope outcome_scope.

Definition get_min_required_votes {E} (c : PosRewardsCalculator) : outcome E Z :=
  let* a := unwrap (amount_checked_mul (total_stake c) 2) in
  let* b := unwrap (amount_checked_add a (3 - 1)) in
  amount_div_u64 b 3.
Definition get_reward_coeffs (c : PosRewardsCalculator) : outcome RewardsError PosRewards :=
  let* votes_needed := get_min_required_votes c in
  if signing_stake c <? votes_needed then Err (InsufficientVotes votes_needed (signing_stake c))
  else
    let* extra := amount_sub (signing_stake c) votes_needed in
    let* a := dec_mul_amount (proposer_reward c) extra in
    let* num := dec_from_amount a in
    let* den := dec_from_amount (total_stake c) in
    let* q := dec_div num den in
    let* proposer_coeff := dec_add q MIN_PROPOSER_REWARD in
    let signer_coeff := signer_reward c in
    let* one := dec_one in
    let* r := dec_sub one proposer_coeff in
    let* active_val_coeff := dec_sub r signer_coeff in
    Ok (mkPosRewards proposer_coeff signer_coeff active_val_coeff).
End coeffs.

(** ** The state *)
Record RewardsState : Type := mkRewardsState {
  pos : Pos;
  total_consensus_stake : epoched Z;
  rewards_accumulator : gmap Address Z;
  commission_rates : gmap Address (epoched Z);
  epochs_per_year : Z;
  staked_ratio : Z;
  pos_inflation_amount : Z
}.
Definition set_pos x s := mkRewardsState x (total_consensus_stake s) (rewards_accumulator s) (commission_rates s)
  (epochs_per_year s) (staked_ratio s) (pos_inflation_amount s).
Definition set_consensus_stake x s := mkRewardsState (pos s) x (rewards_accumulator s) (commission_rates s)
  (epochs_per_year s) (staked_ratio s) (pos_inflation_amount s).
Definition set_accumulator x s := mkRewardsState (pos s) (total_consensus_stake s) x (commission_rates s)
  (epochs_per_year s) (staked_ratio s) (pos_inflation_amount s).
Definition set_commissions x s := mkRewardsState (pos s) (total_consensus_stake s) (rewards_accumulator s) x
  (epochs_per_year s) (staked_ratio s) (pos_inflation_amount s).
Definition set_inflation ratio amount s := mkRewardsState (pos s) (total_consensus_stake s) (rewards_accumulator s)
  (commission_rates s) (epochs_per_year s) ratio amount.
Definition GOV : Address := Internal Governance.

Section rewards.
Context {U : UintOps} {C : AddressCodec} (params : PosParams).
Notation E := InflationError.

(** ** Total stakes *)
Definition compute_total_consensus_stake {F} (s : ValidatorSets) (epoch : Epoch) : outcome F Z :=
  out_fold (fun acc (e : Z * Z * Address) => unwrap (amount_checked_add acc e.1.1)) (set_list (consensus_at s epoch)) 0.
Definition compute_and_store_total_consensus_stake (epoch : Epoch) : st RewardsState E unit :=
  let! vs := st_get (fun s => sets (pos s)) in
  let! total := st_lift (compute_total_consensus_stake vs epoch) in
  zoom total_consensus_stake set_consensus_stake (set OffsetMaxU64 params total epoch 0).
Definition get_total_consensus_stake {F} (s : RewardsState) (epoch : Epoch) : outcome F Z :=
  (let* o := get OffsetZero OffsetMaxU64 (total_consensus_stake s) epoch params in unwrap o)%out.
Definition read_total_stake {F} (s : Pos) (epoch : Epoch) : outcome F Z :=
  (let* sum := get_sum (HD:=change_delta) OffsetPipelineLen deltas_past (total_deltas s) epoch params in
   Ok (from_option from_change 0 sum))%out.
Definition commission_rate_at {F} (s : RewardsState) (v : Address) (epoch : Epoch) : outcome F Z :=
  (let* o := get OffsetPipelineLen OffsetDefaultNumPastEpochs (default empty_epoched (commission_rates s !! v)) epoch params in
   unwrap o)%out.

(** ** The rewards of a block *)
Record VoteInfo : Type := mkVote { validator_address : Address; validator_vp : Z }.

Definition log_vote (vs : ValidatorSets) (epoch : Epoch) (acc : gset Address * Z) (v : VoteInfo) : outcome E (gset Address * Z) :=
  (if validator_vp v =? 0 then Ok acc
   else
     let* state := get_validator_state params vs (validator_address v) epoch in
     if bool_decide (state <> Some Consensus) then Err (ExpectedValidatorInConsensus (validator_address v) state)
     else
       let* stake_from_deltas := read_validator_stake params vs (validator_address v) epoch in
       let* total_signing_stake := amount_add acc.2 stake_from_deltas in
       Ok ({[validator_address v]} ∪ acc.1, total_signing_stake))%out.
(** The fraction of one validator of the consensus set *)
Definition rewards_fraction (coeffs : PosRewards) (proposer_address : Address) (signer_set : gset Address)
    (signing_stake_unscaled consensus_stake_unscaled : Z) (stake : Z) (address : Address) : outcome E Z :=
  (let rewards_frac := dec_zero in
   let* stake_unscaled := dec_from_amount stake in
   let* rewards_frac := if bool_decide (address = proposer_address) then dec_add rewards_frac (proposer_coeff coeffs) else Ok rewards_frac in
   let* rewards_frac :=
     if bool_decide (address ∈ signer_set) then
       let* signing_frac := dec_div stake_unscaled signing_stake_unscaled in
       let* r := dec_mul (signer_coeff coeffs) signing_frac in
       dec_add rewards_frac r
     else Ok rewards_frac in
   let* q := dec_div stake_unscaled consensus_stake_unscaled in
   let* r := dec_mul (active_val_coeff coeffs) q in
   dec_add rewards_frac r)%out.
Definition log_block_rewards (epoch : Epoch) (proposer_address : Address) (votes : list VoteInfo) : st RewardsState E unit :=
  let! s := st_get (fun s => s) in
  let vs := sets (pos s) in
  let! total_consensus_stake := st_lift (get_total_consensus_stake s epoch) in
  let! signers := st_lift (out_fold (log_vote vs epoch) votes (∅, 0)) in
  let calculator := mkCalculator (block_proposer_reward params) (block_vote_reward params) signers.2 total_consensus_stake in
  let! coeffs := st_lift match get_reward_coeffs calculator with Ok a => Ok a | Err e => Err (RewardsFailed e) | Panic => Panic end in
  let! consensus_stake_unscaled := st_lift (dec_from_amount total_consensus_stake) in
  let! signing_stake_unscaled := st_lift (dec_from_amount signers.2) in
  let! values := st_lift (out_fold (fun (values : gmap Address Z) (e : Z * Z * Address) =>
      let stake := e.1.1 in
      if amount_is_zero stake then Ok values
      else
        (let* f := rewards_fraction coeffs proposer_address signers.1 signing_stake_unscaled consensus_stake_unscaled stake e.2 in
         Ok (<[e.2 := f]> values))%out) (set_list (consensus_at vs epoch)) ∅) in
  update_part rewards_accumulator set_accumulator (fun acc =>
    out_fold (fun acc (e : Address * Z) => update_amount e.1 (fun prev => dec_add prev e.2) acc) (map_to_list values) acc).

(** ** The rewards of an epoch *)
Record ValidatorRewards : Type := mkValRewards { product : Z; commissions : Z }.

(** The reward of one validator and how it is divided *)
Definition validator_reward (s : RewardsState) (last_epoch : Epoch) (num_blocks_in_last_epoch inflation : Z) (validator : Address) (value : Z)
  : outcome E (Z * ValidatorRewards) :=
  (let* fractional_claim := dec_div_u64 value num_blocks_in_last_epoch in
   let* reward_tokens := dec_mul_amount fractional_claim inflation in
   let* st := read_validator_stake params (sets (pos s)) validator last_epoch in
   let* stake := dec_from_amount st in
   let* commission_rate := commission_rate_at s validator last_epoch in
   let* one := dec_one in
   let* rest := dec_sub one commission_rate in
   let* r := dec_from_amount reward_tokens in
   let* p := dec_mul rest r in
   let* product := dec_div p stake in
   let* commissions := dec_mul_amount commission_rate reward_tokens in
   Ok (reward_tokens, mkValRewards product commissions))%out.
(** The rewards that are left, the new products and the sum of the accumulators *)
Definition reward_step (s : RewardsState) (last_epoch : Epoch) (num_blocks_in_last_epoch inflation : Z)
    (acc : Z * gmap Address ValidatorRewards * Z) (e : Address * Z) : outcome E (Z * gmap Address ValidatorRewards * Z) :=
  (let '(reward_tokens_remaining, new_rewards_products, accumulators_sum) := acc in
   let* accumulators_sum := dec_add accumulators_sum e.2 in
   let* r := validator_reward s last_epoch num_blocks_in_last_epoch inflation e.1 e.2 in
   let* reward_tokens_remaining := amount_sub reward_tokens_remaining r.1 in
   Ok (reward_tokens_remaining, <[e.1 := r.2]> new_rewards_products, accumulators_sum))%out.
(** The entries of the accumulators in the order of their keys *)
Definition accumulator_list (m : gmap Address Z) : list (Address * Z) :=
  (fun v => (v, default 0 (m !! v))) <$> sorted_addresses (dom m).

Definition on_pos {A} (m : st Pos PosError A) : st RewardsState E A := zoom pos set_pos (map_err PosFailed m).
Definition credit (token dest : Address) (amount : Z) : st RewardsState E unit :=
  zoom (fun s => balances (pos s)) (fun x s => set_pos (set_balances x (pos s)) s) (map_err MintFailed (credit_tokens token dest amount)).
Definition insert_product (validator : Address) (epoch : Epoch) (product : Z) : st Pos PosError unit :=
  st_mod (set_rewards (fun r => mkRewards (<[validator := <[epoch := product]> (default ∅ (rewards_products r !! validator))]> (rewards_products r))
    (last_claims r) (rewards_counters r))).

Definition update_rewards_products_and_mint_inflation (last_epoch : Epoch) (num_blocks_in_last_epoch inflation : Z)
    (staking_token : Address) : st RewardsState E unit :=
  let! s := st_get (fun s => s) in
  let! r := st_lift (out_fold (reward_step s last_epoch num_blocks_in_last_epoch inflation)
                       (accumulator_list (rewards_accumulator s)) (inflation, ∅, dec_zero)) in
  let '(reward_tokens_remaining, new_rewards_products, _) := r in
  do! st_iter (fun e : Address * ValidatorRewards =>
        do! on_pos (insert_product e.1 last_epoch (product e.2)) in
        on_pos (add_rewards_to_counter e.1 e.1 (commissions e.2))) (map_to_list new_rewards_products) in
  let! pos_reward_tokens := st_lift (amount_sub inflation reward_tokens_remaining) in
  do! credit staking_token POS pos_reward_tokens in
  do! (if reward_tokens_remaining >? 0 then credit staking_token GOV reward_tokens_remaining else st_ret tt) in
  st_mod (set_accumulator ∅).

Definition apply_inflation (last_epoch : Epoch) (num_blocks_in_last_epoch : Z) : st RewardsState E unit :=
  let! s := st_get (fun s => s) in
  let staking_token := native_token (info (pos s)) in
  let! key := st_lift (minted_balance_key staking_token) in
  let! supply := zoom (fun s => balances (pos s)) (fun x s => set_pos (set_balances x (pos s)) s) (map_err MintFailed (store_read key)) in
  let! total_tokens := st_lift (unwrap supply) in
  let! pos_locked_supply := st_lift (read_total_stake (pos s) last_epoch) in
  let! v := st_lift (controller_run (mkController pos_locked_supply total_tokens total_tokens (target_staked_ratio params)
                       (staked_ratio s) (max_inflation_rate params) (pos_inflation_amount s) (rewards_gain_p params)
                       (rewards_gain_d params) (epochs_per_year s))) in
  let! inflation := st_lift match from_uint (inflation v) 0 with Ok a => Ok a | Err e => Err (AmountFailed e) | Panic => Panic end in
  do! update_rewards_products_and_mint_inflation last_epoch num_blocks_in_last_epoch inflation staking_token in
  st_mod (set_inflation (locked_ratio v) inflation).

(** ** The shell

    The votes of a block are for the block before it: the first block of an epoch
    logs the last rewards of the epoch before, and then applies its inflation
    ([EpochInflation]). *)
Definition shell_log_block_rewards (last_block_proposer : option Address) (votes : list VoteInfo) (current_epoch : Epoch) (new_epoch : bool)
  : st RewardsState E unit :=
  match last_block_proposer with
  | Some proposer_address =>
      let! epoch := st_lift (if new_epoch then epoch_prev current_epoch else Ok current_epoch) in
      log_block_rewards epoch proposer_address votes
  | None => st_ret tt
  end.
End rewards.

(** ** The amounts of bonds and their rewards *)
Section claims.
Context {U : UintOps} {C : AddressCodec} (params : PosParams).
Notation E := PosError.
Local Open Scope outcome_scope.

(** The slashes of a validator that were processed at or before an epoch *)
Definition processed_slashes (slashes : list Slash) (start epoch : Epoch) : outcome E (list Slash) :=
  out_filter (fun slash => let* p := processed_by params (slash_epoch slash) epoch in Ok (p && (start <=? slash_epoch slash))) slashes.

(** [bond_amount]: what is added to the amounts by bonds, by unbonds, by
    redelegated bonds and by redelegated unbonds *)
Definition add_bonds_at (epoch : Epoch) (b : gmap Epoch Z) (amounts : gmap Epoch Z) : outcome E (gmap Epoch Z) :=
  out_fold (fun amounts (e : Epoch * Z) => if e.1 <=? epoch then add_to amounts e.1 e.2 else Ok amounts) (bt_list b) amounts.
Definition add_unbonds_at (epoch : Epoch) (ub : gmap Epoch (gmap Epoch Z)) (amounts : gmap Epoch Z) : outcome E (gmap Epoch Z) :=
  out_fold (fun amounts (e : Epoch * Epoch * Z) =>
    let '(start, withdrawable_epoch, delta) := e in
    let* woff := withdrawable_epoch_offset params in
    let* a := epoch_sub withdrawable_epoch woff in
    let* en := epoch_add a (pipeline_len params) in
    if (start <=? epoch) && (en >? epoch) then add_to amounts start delta else Ok amounts)
    (p ← bt_list ub; e ← bt_list p.2; [(p.1, e.1, e.2)]) amounts.
Definition add_redelegated_at (epoch : Epoch) (validator : Address) (rb : RedelegatedUnbonds) (amounts : gmap Epoch Z) : outcome E (gmap Epoch Z) :=
  out_fold (fun amounts (e : Epoch * Address * Epoch * Z) =>
    let '(en, src_validator, start, delta) := e in
    if bool_decide (src_validator = validator) && (start <=? epoch) && (en >? epoch) then add_to amounts start delta else Ok amounts)
    (unbond_entries rb) amounts.
Definition add_redelegated_unbonds_at (epoch : Epoch) (validator : Address) (rub : gmap Epoch RedelegatedUnbonds) (amounts : gmap Epoch Z)
  : outcome E (gmap Epoch Z) :=
  out_fold (fun amounts (e : Epoch * Address * Epoch * Z) =>
    let '(redelegation_epoch, src_validator, start, delta) := e in
    if bool_decide (src_validator = validator) && (redelegation_epoch >? epoch) && (start <=? epoch) then add_to amounts start delta else Ok amounts)
    (p ← bt_list rub; e ← unbond_entries p.2; [(p.1, e.1.1.2, e.1.2, e.2)]) amounts.
(** The entries of one delegator, for all destination validators *)
Definition of_delegator {V} (source : Address) (m : gmap (Address * Address) V) : list V :=
  snd <$> filter (fun e : Address * Address * V => e.1.1 = source) (map_to_list m).

Definition bond_amount (s : Pos) (source validator : Address) (epoch : Epoch) : outcome E Z :=
  let* amounts := add_bonds_at epoch (data (bond_handle s source validator)) ∅ in
  let* amounts := add_unbonds_at epoch (default ∅ (unbonds (ledger s) !! (source, validator))) amounts in
  let* amounts :=
    if bool_decide (validator = source) then Ok amounts
    else
      let* amounts := out_fold (fun amounts rb => add_redelegated_at epoch validator rb amounts) (of_delegator source (del_bonds (redel s))) amounts in
      out_fold (fun amounts rub => add_redelegated_unbonds_at epoch validator rub amounts) (of_delegator source (del_unbonds (redel s))) amounts in
  let* l := out_map (fun e : Epoch * Z =>
    let* list_slashes := processed_slashes (find_validator_slashes s validator) e.1 epoch in
    apply_list_slashes params list_slashes e.2) (bt_list amounts) in
  amount_sum l.

(** What a bond that started at [start] contributes at an epoch *)
Definition bond_after_slashes (s : Pos) (source validator : Address) (ep start : Epoch) (amount : Z) : outcome E Z :=
  let* list_slashes := processed_slashes (find_validator_slashes s validator) start ep in
  let* result_fold := fold_and_slash_redelegated_bonds (slash_reads s) params
    (default ∅ (default ∅ (del_bonds (redel s) !! (source, validator)) !! start)) start list_slashes (fun e => processed_by params e ep) in
  let* total_not_redelegated := amount_sub amount (total_redelegated result_fold) in
  let* after_not_redelegated := apply_list_slashes params list_slashes total_not_redelegated in
  amount_add after_not_redelegated (total_after_slashing result_fold).
(** The epochs at which a bond has an amount, with the amounts: the outer map is
    keyed by the epoch, the inner one by the start of the bond *)
Definition bond_amounts_for_rewards (s : Pos) (source validator : Address) (claim_start claim_end : Epoch) : outcome E (list (Epoch * Z)) :=
  let* amounts := out_fold (fun (amounts : gmap Epoch (gmap Epoch Z)) (e : Epoch * Z) =>
      out_fold (fun amounts ep => if e.1 <=? ep then at_key ep (fun m => add_to m e.1 e.2) amounts else Ok amounts)
        (iter_bounds_inclusive claim_start claim_end) amounts)
    (bt_list (data (bond_handle s source validator))) ∅ in
  out_map (fun p : Epoch * gmap Epoch Z =>
    let* l := out_map (fun e : Epoch * Z => bond_after_slashes s source validator p.1 e.1 e.2) (bt_list p.2) in
    let* sum := amount_sum l in Ok (p.1, sum)) (bt_list amounts).

Definition compute_current_rewards_from_bonds (s : Pos) (source validator : Address) (current_epoch : Epoch) : outcome E Z :=
  if current_epoch =? 0 then Ok 0
  else
    let last_claim_epoch := last_claims (rewards s) !! (source, validator) in
    if bool_decide (last_claim_epoch = Some current_epoch) then Ok 0
    else
      let claim_start := default 0 last_claim_epoch in
      let* claim_end := epoch_prev current_epoch in
      let* bond_amounts := bond_amounts_for_rewards s source validator claim_start claim_end in
      let products := default ∅ (rewards_products (rewards s) !! validator) in
      out_fold (fun reward_tokens (e : Epoch * Z) =>
        let* reward := dec_mul_amount (default 0 (products !! e.1)) e.2 in
        amount_add reward_tokens reward) bond_amounts 0.
Definition read_rewards_counter (s : Pos) (source validator : Address) : Z := default 0 (rewards_counters (rewards s) !! (source, validator)).
Definition query_reward_tokens (s : Pos) (source : option Address) (validator : Address) (current_epoch : Epoch) : outcome E Z :=
  let source := default validator source in
  let* rewards_from_bonds := compute_current_rewards_from_bonds s source validator current_epoch in
  amount_add rewards_from_bonds (read_rewards_counter s source validator).

Local Open Scope st_scope.
Definition take_rewards_from_counter (source validator : Address) : st Pos E Z :=
  let! current_rewards := st_get (fun s => read_rewards_counter s source validator) in
  do! st_mod (set_rewards (fun r => set_counters (base.delete (source, validator) (rewards_counters r)) r)) in
  st_ret current_rewards.
Definition write_last_reward_claim_epoch (source validator : Address) (epoch : Epoch) : st Pos E unit :=
  st_mod (set_rewards (fun r => set_last_claims (<[(source, validator) := epoch]> (last_claims r)) r)).
Definition claim_reward_tokens (source : option Address) (validator : Address) (current_epoch : Epoch) : st Pos E Z :=
  let source := default validator source in
  let! s := st_get (fun s => s) in
  let! reward_tokens := st_lift (compute_current_rewards_from_bonds s source validator current_epoch) in
  let! counter := take_rewards_from_counter source validator in
  let! reward_tokens := st_lift (amount_add reward_tokens counter) in
  do! write_last_reward_claim_epoch source validator current_epoch in
  do! pos_transfer POS source reward_tokens in
  st_ret reward_tokens.
End claims.

(** ** Commission rates *)
Inductive CommissionRateChangeError : Type :=
| NegativeRate (rate : Z) (v : Address)
| LargerThanOne (rate : Z) (v : Address)
| RateChangeTooLarge (change : Z) (v : Address)
| NoMaxSetInStorage (v : Address).

Section commissions.
Context {U : UintOps} (params : PosParams).
Notation E := CommissionRateChangeError.
Definition change_validator_commission_rate (validator : Address) (new_rate : Z) (current_epoch : Epoch) : st RewardsState E unit :=
  if is_negative new_rate then st_err (NegativeRate new_rate validator)
  else
    let! one := st_lift dec_one in
    if dec_gt new_rate one then st_err (LargerThanOne new_rate validator)
    else
      let! s := st_get (fun s => s) in
      match max_commission_changes (info (pos s)) !! validator with
      | None => st_err (NoMaxSetInStorage validator)
      | Some max_change =>
          let! pipeline_epoch := st_lift (epoch_add current_epoch (pipeline_len params)) in
          let! rate_at_pipeline := st_lift (commission_rate_at params s validator pipeline_epoch) in
          if new_rate =? rate_at_pipeline then st_ret tt
          else
            let! prev := st_lift (epoch_prev pipeline_epoch) in
            let! rate_before_pipeline := st_lift (commission_rate_at params s validator prev) in
            let! change_from_prev := st_lift (abs_diff new_rate rate_before_pipeline) in
            if dec_gt change_from_prev max_change then st_err (RateChangeTooLarge change_from_prev validator)
            else
              zoom (fun s => default empty_epoched (commission_rates s !! validator))
                (fun h s => set_commissions (<[validator := h]> (commission_rates s)) s)
                (set OffsetDefaultNumPastEpochs params new_rate current_epoch (pipeline_len params))
      end.
End commissions.

(** ** Decimals by value

    A decimal [srep z] stands for [z / SC]. *)
Definition AMOUNT_SCALE : Z := 10 ^ 6.
Section decimals.
Context {U : UintOps} {HU : UintLaws U} {E : Type}.

Lemma sadd a b : in_i256 a -> in_i256 b -> in_i256 (a + b) -> dec_add (E:=E) (srep a) (srep b) = Ok (srep (a + b)).
Proof using HU. intros Ha Hb Hs. unfold dec_add. rewrite i256_add_ok; rewrite ?sval_srep by done; auto using srep_wf. Qed.
Lemma ssub a b : in_i256 a -> in_i256 b -> in_i256 (a - b) -> dec_sub (E:=E) (srep a) (srep b) = Ok (srep (a - b)).
Proof using HU. intros Ha Hb Hs. unfold dec_sub. rewrite i256_sub_ok; rewrite ?sval_srep by done; auto using srep_wf. Qed.
Lemma smul a b : in_i256 a -> in_i256 b -> in_i256 (a * b) -> dec_mul (E:=E) (srep a) (srep b) = Ok (srep (Z.quot (a * b) SC)).
Proof using HU. intros Ha Hb Hs. rewrite dec_mul_eq; rewrite ?sval_srep by done; auto using srep_wf. Qed.
Lemma sdiv a b : in_i256 a -> in_i256 b -> b <> 0 -> in_i256 (Z.quot (a * SC) b) -> dec_div (E:=E) (srep a) (srep b) = Ok (srep (Z.quot (a * SC) b)).
Proof using HU.
  intros Ha Hb Hn Hq. unfold dec_div. rewrite trunc_div_eq by auto using srep_wf. rewrite !sval_srep by done. rewrite (proj2 (Z.eqb_neq b 0)) by done.
  destruct (in_i256b_spec (Z.quot (a * SC) b)); [done|done].
Qed.
Lemma sdiv_u64 a n : in_i256 a -> in_u256 n -> dec_div_u64 (E:=E) (srep a) n = Ok (srep (Z.quot a n)).
Proof using HU. intros Ha Hn. unfold dec_div_u64. rewrite i256_div_uint_eq, sval_srep by auto using srep_wf. done. Qed.
Lemma sfrom_amount a : 0 <= a -> in_i256 (a * AMOUNT_SCALE) -> dec_from_amount (E:=E) a = Ok (srep (a * AMOUNT_SCALE)).
Proof using HU.
  intros Ha Hs. unfold dec_from_amount, try_from_uint. assert (in_i256 a) as Hi by (unfold in_i256, AMOUNT_SCALE in *; lia).
  unfold in_i256 in Hi. rewrite (proj2 (Z.leb_le a _)) by lia. rewrite uint_exp10_law by (unfold POS_DECIMAL_PRECISION, NATIVE_MAX_DECIMAL_PLACES; lia).
  change (10 ^ (POS_DECIMAL_PRECISION - NATIVE_MAX_DECIMAL_PLACES)) with AMOUNT_SCALE. change (AMOUNT_SCALE <=? MAX_VALUE) with true. cbn [unwrap out_bind].
  rewrite <- (srep_pos a) at 1 by done. rewrite i256_mul_uint_ok; rewrite ?sval_srep by done; auto using srep_wf. split; vm_compute; discriminate.
Qed.
Lemma sone : dec_one (E:=E) = Ok (srep SC).
Proof using HU.
  unfold dec_one. rewrite dec_scale_ok. cbn [out_bind]. rewrite uint_mul_eq by (apply SC_u256 || apply u8_u256; lia). done.
Qed.
Lemma sneg a : in_i256 a -> is_negative (srep a) = (a <? 0).
Proof. intros Ha. rewrite is_negative_spec, sval_srep by (done || by apply srep_wf). done. Qed.
Lemma sto_uint a : 0 <= a -> in_i256 a -> to_uint (E:=E) (srep a) = Ok (Some (a / SC)).
Proof using HU.
  intros Ha Hi. unfold to_uint. rewrite sneg by done. rewrite (proj2 (Z.ltb_ge a 0)) by done. rewrite dec_scale_ok. cbn [out_bind].
  rewrite abs_spec, sval_srep by auto using srep_wf. rewrite Z.abs_eq by done.
  rewrite uint_div_eq by (apply SC_u256 || (unfold in_u256, in_i256 in *; pose proof MAX_SIGNED_le; lia)). done.
Qed.
Lemma smul_amount d x : 0 <= d -> in_i256 d -> in_u256 x -> x * d <= MAX_VALUE -> dec_mul_amount (E:=E) (srep d) x = Ok (x * d / SC).
Proof using HU.
  intros Hd Hi Hx Hm. rewrite dec_mul_amount_eq; [|split; [by apply srep_wf|by rewrite sval_srep]|done]. rewrite sval_srep by done. by rewrite (proj2 (Z.leb_le _ _)).
Qed.
Lemma sscaled a : 0 <= a -> in_i256 (a * SC) -> try_from_uint a = Some a /\ i256_mul_uint (E:=E) a SC = Ok (srep (a * SC)).
Proof using HU.
  intros Ha Hs. assert (in_i256 a) as Hi by (unfold in_i256, SC in *; lia). split.
  - unfold try_from_uint, in_i256 in *. by rewrite (proj2 (Z.leb_le a _)) by lia.
  - rewrite <- (srep_pos a) at 1 by done. rewrite i256_mul_uint_ok; rewrite ?sval_srep by done; auto using srep_wf, SC_u256.
Qed.
Lemma sfrom_u64 n : 0 <= n <= U64_MAX -> dec_from_u64 (E:=E) n = Ok (srep (n * SC)).
Proof using HU.
  intros Hn. assert (in_i256 (n * SC)) as Hs.
  { unfold in_i256. rewrite Z.abs_eq by (pose proof SC_pos; nia). transitivity (U64_MAX * SC); [unfold SC; lia|vm_compute; discriminate]. }
  destruct (sscaled n ltac:(lia) Hs) as [Ht Hm]. unfold dec_from_u64, i256_from_u64. rewrite Ht. cbn [unwrap out_bind]. rewrite dec_scale_ok. exact Hm.
Qed.
End decimals.
Lemma stry_uint {U : UintOps} {HU : UintLaws U} {E} a : 0 <= a -> in_i256 (a * SC) -> expect (E:=E) (dec_try_from_uint a) = Ok (srep (a * SC)).
Proof.
  intros Ha Hs. destruct (sscaled (E:=unit) a Ha Hs) as [Ht Hm]. unfold dec_try_from_uint. rewrite Ht. cbn [ok_or out_bind].
  pose proof (dec_scale_ok (E:=unit)) as Hd. unfold dec_scale in Hd. rewrite Hd. cbn [out_bind]. by rewrite Hm.
Qed.

(** ** The controller *)
Section controller_lemmas.
Context {U : UintOps} {HU : UintLaws U} {E : Type}.

(** The ranges of the inputs: amounts up to 10^18 whole tokens, rates up to
    one, gains up to a thousand *)
Definition MAX_TOKENS : Z := 10 ^ 24.
Record controller_ok (c : RewardsController) : Prop := {
  co_locked : 0 <= locked_tokens c <= total_tokens c;
  co_total : total_tokens c <= MAX_TOKENS;
  co_native : 0 <= total_native_tokens c <= MAX_TOKENS;
  co_target : exists t, locked_ratio_target c = srep t /\ 0 <= t <= SC;
  co_last : exists t, locked_ratio_last c = srep t /\ 0 <= t <= SC;
  co_rate : exists t, max_reward_rate c = srep t /\ 0 <= t <= SC;
  co_p : exists t, p_gain_nom c = srep t /\ 0 <= t <= 1000 * SC;
  co_d : exists t, d_gain_nom c = srep t /\ 0 <= t <= 1000 * SC;
  co_inflation : 0 <= last_inflation_amount c <= MAX_TOKENS;
  co_epochs : 0 < controller_epochs_per_year c <= U64_MAX
}.
(** What the controller computes, on values: the locked ratio, the maximal
    inflation and the control value, in units of a decimal *)
Definition ratio_value (c : RewardsController) : Z := if total_tokens c =? 0 then SC else locked_tokens c * SC / total_tokens c.
Definition cap_value (c : RewardsController) : Z := total_native_tokens c * sval (max_reward_rate c) / controller_epochs_per_year c.
Definition control_value (c : RewardsController) : Z :=
  Z.quot (sval (p_gain_nom c) * cap_value c / SC * (sval (locked_ratio_target c) - ratio_value c)) SC -
  Z.quot (sval (d_gain_nom c) * cap_value c / SC * (sval (locked_ratio_last c) - ratio_value c)) SC.

Lemma i256_bound z b : Z.abs z <= b -> b <= 10 ^ 70 -> in_i256 z.
Proof. intros Hz Hb. unfold in_i256. transitivity (10 ^ 70); [lia|vm_compute; discriminate]. Qed.

Lemma abs_mul_le a b x y : Z.abs a <= x -> Z.abs b <= y -> Z.abs (a * b) <= x * y.
Proof. intros Ha Hb. rewrite Z.abs_mul. apply Z.mul_le_mono_nonneg; lia. Qed.
Lemma abs_quot_le a k x : 0 < k -> Z.abs a <= x -> Z.abs (Z.quot a k) <= x.
Proof.
  intros Hk Ha. rewrite <- Z.quot_abs, Z.quot_div_nonneg by lia. rewrite (Z.abs_eq k) by lia.
  transitivity (Z.abs a); [|done]. apply Z.div_le_upper_bound; nia.
Qed.
Lemma div_bounds a k x : 0 < k -> 0 <= a <= x -> 0 <= a / k <= x.
Proof. intros Hk Ha. split; [apply Z.div_pos; lia|]. apply Z.div_le_upper_bound; nia. Qed.

Lemma gain_ok g cap : 0 <= g <= 1000 * SC -> 0 <= cap <= 10 ^ 36 ->
  dec_mul (E:=E) (srep g) (srep cap) = Ok (srep (g * cap / SC)) /\ 0 <= g * cap / SC <= 10 ^ 51.
Proof using HU.
  intros Hg Hc. pose proof SC_pos. assert (0 <= g * cap <= 10 ^ 51) as Hb by (unfold SC in *; nia). split; [|by apply div_bounds].
  rewrite smul; [by rewrite Z.quot_div_nonneg by lia|apply (i256_bound _ (10 ^ 15)); unfold SC in *; lia|apply (i256_bound _ (10 ^ 36)); lia|apply (i256_bound _ (10 ^ 51)); lia].
Qed.
Lemma term_ok g e : 0 <= g <= 10 ^ 51 -> Z.abs e <= SC ->
  dec_mul (E:=E) (srep g) (srep e) = Ok (srep (Z.quot (g * e) SC)) /\ Z.abs (Z.quot (g * e) SC) <= 10 ^ 63.
Proof using HU.
  intros Hg He. pose proof SC_pos. assert (Z.abs (g * e) <= 10 ^ 51 * 10 ^ 12) as Hb by (apply abs_mul_le; unfold SC in *; lia). split; [|apply abs_quot_le; [done|lia]].
  apply smul; [apply (i256_bound _ (10 ^ 51)); lia|apply (i256_bound _ SC); [done|unfold SC; lia]|apply (i256_bound _ (10 ^ 51 * 10 ^ 12)); lia].
Qed.

Lemma controller_run_ok c : controller_ok c -> controller_run (E:=E) c = Ok (mkVals (srep (ratio_value c))
  (Z.min (if last_inflation_amount c * SC + control_value c <? 0 then 0 else (last_inflation_amount c * SC + control_value c) / SC) (cap_value c / SC))).
Proof using HU.
  intros [Hl Ht Hn (target & Htg & Htg1) (last & Hla & Hla1) (rate & Hra & Hra1) (p & Hp & Hp1) (d & Hd & Hd1) Hi He].
  unfold control_value, cap_value, ratio_value, controller_run. rewrite Htg, Hla, Hra, Hp, Hd. clear Htg Hla Hra Hp Hd. pose proof SC_pos as HS.
  unfold MAX_TOKENS in *. assert (forall z b, Z.abs z <= b -> b <= 10 ^ 70 -> in_i256 z) as Hin by apply i256_bound.
  assert (forall a, 0 <= a <= 10 ^ 24 -> in_i256 (a * SC)) as Htok by (intros a Ha; apply (Hin _ (10 ^ 36)); unfold SC; lia).
  assert (forall a, 0 <= a <= 1000 * SC -> in_i256 a) as Hrat by (intros a Ha; apply (Hin _ (10 ^ 15)); unfold SC in *; lia).
  rewrite !stry_uint, sfrom_u64 by (lia || apply Htok; lia). cbn [out_bind]. rewrite !sval_srep by (apply Hrat; lia).
  set (ratio := if total_tokens c =? 0 then SC else locked_tokens c * SC / total_tokens c).
  set (cap := total_native_tokens c * rate / controller_epochs_per_year c).
  assert (0 <= ratio <= SC) as Hratio.
  { unfold ratio. destruct (Z.eqb_spec (total_tokens c) 0); [lia|]. split; [apply Z.div_pos; nia|]. apply Z.div_le_upper_bound; nia. }
  assert (0 <= cap <= 10 ^ 36) as Hcap by (apply div_bounds; [lia|unfold SC in *; nia]).
  assert ((if dec_is_zero (srep (total_tokens c * SC)) then dec_one (E:=E) else dec_div (srep (locked_tokens c * SC)) (srep (total_tokens c * SC))) = Ok (srep ratio)) as ->.
  { unfold dec_is_zero, dec_zero, ratio. rewrite srep_pos by ((apply Htok; lia) || nia). destruct (Z.eqb_spec (total_tokens c) 0) as [->|Hne]; [apply sone|].
    rewrite (proj2 (Z.eqb_neq _ _)) by lia. rewrite <- (srep_pos (total_tokens c * SC)) by ((apply Htok; lia) || nia).
    assert (Z.quot (locked_tokens c * SC * SC) (total_tokens c * SC) = locked_tokens c * SC / total_tokens c) as Hq.
    { rewrite Z.quot_div_nonneg by nia. by rewrite Z.div_mul_cancel_r by lia. }
    rewrite sdiv; rewrite ?Hq; [done|apply Htok; lia|apply Htok; lia|nia|]. 
    apply Hrat. split; [apply Z.div_pos; nia|]. transitivity SC; [apply Z.div_le_upper_bound; nia|lia]. }
  cbn [out_bind]. rewrite smul; [|apply Htok; lia|apply Hrat; lia|apply (Hin _ (10 ^ 36 * 10 ^ 12)); [apply abs_mul_le; unfold SC in *; lia|lia]].
  assert (Z.quot (total_native_tokens c * SC * rate) SC = total_native_tokens c * rate) as ->.
  { rewrite <- Z.mul_assoc, (Z.mul_comm SC), Z.mul_assoc. apply Z.quot_mul. lia. }
  cbn [out_bind]. rewrite sdiv.
  2:{ apply (Hin _ (10 ^ 24 * 10 ^ 12)); [apply abs_mul_le; unfold SC in *; lia|lia]. }
  2:{ apply (Hin _ (2 ^ 64 * 10 ^ 12)); [apply abs_mul_le; unfold SC, U64_MAX in *; lia|lia]. }
  2:{ lia. }
  all: assert (Z.quot (total_native_tokens c * rate * SC) (controller_epochs_per_year c * SC) = cap) as Hq
    by (rewrite Z.quot_div_nonneg by nia; by rewrite Z.div_mul_cancel_r by lia).
  2:{ rewrite Hq. apply (Hin _ (10 ^ 36)); lia. }
  rewrite Hq. clear Hq. cbn [out_bind]. clearbody ratio cap.
  destruct (gain_ok p cap Hp1 Hcap) as [-> Hpg], (gain_ok d cap Hd1 Hcap) as [-> Hdg]. cbn [out_bind].
  set (pg := p * cap / SC) in *. set (dg := d * cap / SC) in *. clearbody pg dg.
  rewrite !ssub by (apply (Hin _ (10 ^ 15)); unfold SC in *; lia). cbn [out_bind].
  destruct (term_ok pg (target - ratio) Hpg ltac:(lia)) as [-> Hpt], (term_ok dg (last - ratio) Hdg ltac:(lia)) as [-> Hdt]. cbn [out_bind].
  set (pt := Z.quot (pg * (target - ratio)) SC) in *. set (dt := Z.quot (dg * (last - ratio)) SC) in *. clearbody pt dt.
  rewrite ssub by (apply (Hin _ (10 ^ 64)); lia). cbn [out_bind]. set (li := last_inflation_amount c * SC).
  assert (0 <= li <= 10 ^ 36) as Hli by (unfold li, SC; lia). rewrite sadd by (apply (Hin _ (10 ^ 65)); lia). cbn [out_bind].
  rewrite sneg by (apply (Hin _ (10 ^ 65)); lia).
  rewrite (sto_uint cap) by (lia || (apply (Hin _ (10 ^ 36)); lia)).
  destruct (Z.ltb_spec (li + (pt - dt)) 0); [done|]. rewrite sto_uint by (lia || (apply (Hin _ (10 ^ 65)); lia)). done.
Qed.
End controller_lemmas.

(** ** The rewards of an epoch *)
(** What the code computes, on values: the tokens of a validator with an
    accumulated fraction [x] of [n] blocks, the product of its stake and its
    commission *)
Definition reward_of (amount n x : Z) : Z := amount * (x / n) / SC.
Definition product_of (rate stake r : Z) : Z := (SC - rate) * (r * AMOUNT_SCALE) / SC * SC / (stake * AMOUNT_SCALE).
Definition commission_of (rate r : Z) : Z := r * rate / SC.

Lemma sum_div_le k (l : list Z) : 0 < k -> sumZ ((fun x => x / k) <$> l) <= sumZ l / k.
Proof.
  intros Hk. induction l as [|x l IH]; [rewrite fmap_nil, sumZ_nil, Z.div_0_l by lia; lia|]. rewrite fmap_cons, !sumZ_cons.
  transitivity (x / k + sumZ l / k); [lia|]. apply Z.div_le_lower_bound; [done|]. pose proof (Z.mul_div_le x k Hk). pose proof (Z.mul_div_le (sumZ l) k Hk). lia.
Qed.
Lemma sum_mul a (l : list Z) : sumZ ((fun x => a * x) <$> l) = a * sumZ l.
Proof. induction l as [|x l IH]; [rewrite fmap_nil, sumZ_nil; lia|]. rewrite fmap_cons, !sumZ_cons, IH. lia. Qed.
(** Rewards of fractions that add up to at most the blocks add up to at most the
    inflation. *)
Lemma rewards_le amount n (xs : list Z) : 0 <= amount -> 0 < n -> sumZ xs <= n * SC -> sumZ (reward_of amount n <$> xs) <= amount.
Proof.
  intros Ha Hn Hs. pose proof SC_pos. change (reward_of amount n <$> xs) with ((fun x => amount * (x / n) / SC) <$> xs).
  assert ((fun x => amount * (x / n) / SC) <$> xs = (fun y => y / SC) <$> ((fun q => amount * q) <$> ((fun x => x / n) <$> xs))) as -> by (by rewrite <- !list_fmap_compose).
  etransitivity; [by apply sum_div_le|]. rewrite sum_mul. apply Z.div_le_upper_bound; [done|].
  assert (sumZ ((fun x => x / n) <$> xs) <= SC); [|nia]. etransitivity; [by apply sum_div_le|]. apply Z.div_le_upper_bound; lia.
Qed.
Lemma product_bounds rate stake r : 0 <= rate <= SC -> 0 < stake -> 0 <= r -> 0 <= product_of rate stake r /\ stake * product_of rate stake r <= (SC - rate) * r.
Proof.
  intros Hc Hst Hr. pose proof SC_pos as HS. unfold product_of, AMOUNT_SCALE. set (y := (SC - rate) * (r * 10 ^ 6) / SC).
  assert (0 <= y) by (apply Z.div_pos; nia). assert (y * SC <= (SC - rate) * (r * 10 ^ 6)) as Hy by (unfold y; rewrite Z.mul_comm; by apply Z.mul_div_le).
  split; [apply Z.div_pos; nia|]. pose proof (Z.mul_div_le (y * SC) (stake * 10 ^ 6) ltac:(lia)). nia.
Qed.
(** The claims on the parts of a stake and the commission are at most the reward. *)
Lemma claims_le rate stake r (parts : list Z) : 0 <= rate <= SC -> 0 < stake -> 0 <= r -> Forall (fun a => 0 <= a) parts -> sumZ parts <= stake ->
  sumZ ((fun a => a * product_of rate stake r / SC) <$> parts) + commission_of rate r <= r.
Proof.
  intros Hc Hst Hr Hp Hs. pose proof SC_pos as HS. destruct (product_bounds rate stake r Hc Hst Hr) as [Hq0 Hq]. set (q := product_of rate stake r) in *.
  assert ((fun a => a * q / SC) <$> parts = (fun y => y / SC) <$> ((fun a => q * a) <$> parts)) as ->
    by (rewrite <- list_fmap_compose; apply list_fmap_ext; intros i a _; cbn; f_equal; lia).
  pose proof (sum_div_le SC ((fun a => q * a) <$> parts) HS) as Hsum. rewrite sum_mul in Hsum.
  assert (q * sumZ parts / SC <= (SC - rate) * r / SC) by (apply Z.div_le_mono; [done|]; nia). unfold commission_of.
  assert ((SC - rate) * r / SC + r * rate / SC <= r); [|lia].
  assert (((SC - rate) * r + r * rate) / SC = r) as He by (replace ((SC - rate) * r + r * rate) with (r * SC) by lia; by rewrite Z.div_mul by lia).
  transitivity (((SC - rate) * r + r * rate) / SC); [|lia]. apply Z.div_le_lower_bound; [done|]. pose proof (Z.mul_div_le ((SC - rate) * r) SC HS). pose proof (Z.mul_div_le (r * rate) SC HS). lia.
Qed.

(** ** Sums over the validators of a set *)
Lemma sum_plus {A} (f g : A -> Z) l : sumZ ((fun v => f v + g v) <$> l) = sumZ (f <$> l) + sumZ (g <$> l).
Proof. induction l as [|x l IH]; [done|]. rewrite !fmap_cons, !sumZ_cons, IH. lia. Qed.
Lemma sum_mono {A} (f g : A -> Z) l : (forall v, v ∈ l -> f v <= g v) -> sumZ (f <$> l) <= sumZ (g <$> l).
Proof.
  induction l as [|x l IH]; intros Hf; [done|]. rewrite !fmap_cons, !sumZ_cons. pose proof (Hf x ltac:(set_solver)).
  pose proof (IH ltac:(set_solver)). lia.
Qed.
Lemma sum_map_nonneg {A} (f : A -> Z) l : (forall v, v ∈ l -> 0 <= f v) -> 0 <= sumZ (f <$> l).
Proof. intros Hf. apply sumZ_nonneg, Forall_fmap, list.Forall_forall. exact Hf. Qed.
Lemma sum_subset {A} (f : A -> Z) l k : base.NoDup l -> l ⊆ k -> (forall v, v ∈ k -> 0 <= f v) -> sumZ (f <$> l) <= sumZ (f <$> k).
Proof.
  intros Hnd Hlk Hf. destruct (submseteq_Permutation l k (NoDup_submseteq l k Hnd Hlk)) as [r Hr]. rewrite Hr, fmap_app, sumZ_app.
  assert (0 <= sumZ (f <$> r)); [|lia]. apply sum_map_nonneg. intros v Hv. apply Hf. rewrite Hr. set_solver.
Qed.
Lemma sum_if {A} (P : A -> Prop) `{forall v, Decision (P v)} (f : A -> Z) l :
  sumZ ((fun v => if decide (P v) then f v else 0) <$> l) = sumZ (f <$> filter P l).
Proof.
  induction l as [|x l IH]; [done|]. rewrite fmap_cons, sumZ_cons, filter_cons, IH. case_decide; [by rewrite fmap_cons, sumZ_cons|lia].
Qed.
Lemma sum_once {A} `{EqDecision A} (a : A) c l : base.NoDup l -> 0 <= c -> sumZ ((fun v => if decide (v = a) then c else 0) <$> l) <= c.
Proof.
  intros Hnd Hc. rewrite sum_if. transitivity (sumZ ((fun _ => c) <$> [a])); [|cbn; rewrite !sumZ_cons, sumZ_nil; lia].
  apply sum_subset; [by apply NoDup_filter| |done]. intros v [-> _]%list_elem_of_filter. set_solver.
Qed.
Lemma first_failing {A} (P : A -> Prop) `{forall v, Decision (P v)} l : ~ Forall P l -> exists l1 v l2, l = l1 ++ v :: l2 /\ (forall w, w ∈ l1 -> P w) /\ ~ P v.
Proof.
  induction l as [|x l IH]; intros Hl; [by destruct Hl|]. destruct (decide (P x)) as [Hx|Hx]; [|exists [], x, l; split_and!; [done|set_solver|done]].
  destruct IH as (l1 & v & l2 & -> & H1 & H2); [intros Hf; by apply Hl, Forall_cons|]. exists (x :: l1), v, l2. split_and!; [done|set_solver|done].
Qed.
(** Shares of a coefficient by stakes that add up to at most the divisor *)
Definition share (c total stake : Z) : Z := c * (stake * SC / total) / SC.
Lemma shares_le {A} c total (f : A -> Z) l : 0 <= c -> 0 < total -> (forall v, v ∈ l -> 0 <= f v) -> sumZ (f <$> l) <= total ->
  sumZ ((fun v => share c total (f v)) <$> l) <= c.
Proof.
  intros Hc Ht Hf Hs. pose proof SC_pos as HS. assert ((fun v => share c total (f v)) <$> l = (fun y => y / SC) <$> ((fun q => c * q) <$> ((fun x => x / total) <$> ((fun x => SC * x) <$> (f <$> l))))) as ->.
  { rewrite <- !list_fmap_compose. apply list_fmap_ext. intros i v _. unfold share. cbn. by rewrite (Z.mul_comm (f v)). }
  etransitivity; [by apply sum_div_le|]. rewrite sum_mul. apply Z.div_le_upper_bound; [done|]. rewrite (Z.mul_comm SC). apply Z.mul_le_mono_nonneg_l; [done|].
  etransitivity; [by apply sum_div_le|]. rewrite sum_mul. apply Z.div_le_upper_bound; [done|]. nia.
Qed.
Lemma share_bounds c total stake : 0 <= c -> 0 <= stake <= total -> 0 < total -> 0 <= share c total stake <= c.
Proof.
  intros Hc Hs Ht. pose proof SC_pos as HS. assert (0 <= stake * SC / total <= SC) as Hq by (split; [apply Z.div_pos; nia|apply Z.div_le_upper_bound; nia]).
  unfold share. split; [apply Z.div_pos; nia|apply Z.div_le_upper_bound; nia].
Qed.

(** ** The rewards of a block *)
(** What the code computes, on values: the least stake that must sign, the
    coefficient of the proposer and the fraction of a validator *)
Definition votes_needed_of (T : Z) : Z := (2 * T + 2) / 3.
Definition proposer_coeff_of (pr T S : Z) : Z := (S - votes_needed_of T) * pr / SC * SC / T + MIN_PROPOSER_REWARD.
Definition fraction_of (pc sr T S : Z) (stake : Address -> Z) (proposer : Address) (signers : gset Address) (v : Address) : Z :=
  (if decide (v = proposer) then pc else 0) + (if decide (v ∈ signers) then share sr S (stake v) else 0) + share (SC - pc - sr) T (stake v).

Lemma votes_needed_bounds T : 0 < T -> 0 < votes_needed_of T <= T /\ 3 * votes_needed_of T <= 2 * T + 2 /\ 2 * T <= 3 * votes_needed_of T.
Proof. intros HT. unfold votes_needed_of. pose proof (Z.div_mod (2 * T + 2) 3 ltac:(lia)). pose proof (Z.mod_pos_bound (2 * T + 2) 3 ltac:(lia)). lia. Qed.
Lemma proposer_coeff_bounds pr T S : 0 <= pr <= SC -> 0 < T -> votes_needed_of T <= S <= T ->
  0 <= proposer_coeff_of pr T S /\ 3 * proposer_coeff_of pr T S <= pr + 3 * MIN_PROPOSER_REWARD.
Proof.
  intros Hp HT HS. pose proof SC_pos. destruct (votes_needed_bounds T HT) as (Hn & _ & Hn2). unfold proposer_coeff_of.
  set (a := (S - votes_needed_of T) * pr / SC). assert (0 <= a) by (apply Z.div_pos; nia).
  assert (a * SC <= (S - votes_needed_of T) * pr) by (unfold a; rewrite Z.mul_comm; by apply Z.mul_div_le).
  assert (0 <= a * SC / T) by (apply Z.div_pos; nia). unfold MIN_PROPOSER_REWARD in *. split; [lia|].
  pose proof (Z.mul_div_le (a * SC) T HT). nia.
Qed.
(** The fractions of a block add up to at most one. *)
Lemma fractions_le pc sr T S stake proposer signers (ms vs : list Address) : 0 <= pc -> 0 <= sr -> pc + sr <= SC -> 0 < S -> 0 < T ->
  base.NoDup ms -> (forall v, v ∈ ms -> 0 <= stake v) -> (forall v, v ∈ vs -> 0 <= stake v) -> T = sumZ (stake <$> ms) -> S = sumZ (stake <$> vs) -> (forall v, v ∈ signers -> v ∈ vs) ->
  sumZ (fraction_of pc sr T S stake proposer signers <$> ms) <= SC.
Proof.
  intros Hpc Hsr Hsum HS HT Hnd Hst Hst' HTe HSe Hsig. change (fraction_of pc sr T S stake proposer signers <$> ms) with ((fun v =>
    ((if decide (v = proposer) then pc else 0) + (if decide (v ∈ signers) then share sr S (stake v) else 0)) + share (SC - pc - sr) T (stake v)) <$> ms).
  rewrite sum_plus, sum_plus. pose proof (sum_once proposer pc ms Hnd Hpc).
  assert (sumZ ((fun v => share (SC - pc - sr) T (stake v)) <$> ms) <= SC - pc - sr) by (apply shares_le; auto; lia).
  assert (sumZ ((fun v => if decide (v ∈ signers) then share sr S (stake v) else 0) <$> ms) <= sr); [|lia].
  rewrite sum_if. apply shares_le; auto; [intros v [_ Hv]%list_elem_of_filter; auto|]. rewrite HSe. apply sum_subset; auto; [by apply NoDup_filter|].
  intros v [Hv _]%list_elem_of_filter. auto.
Qed.

(** The consensus set of an epoch agrees with the states, the stakes and the total
    that are recorded for the epoch. *)
Definition voters (votes : list VoteInfo) : list Address := validator_address <$> filter (fun v => validator_vp v <> 0) votes.
Definition members_of (s : RewardsState) (epoch : Epoch) : list Address := (set_list (consensus_at (sets (pos s)) epoch)).*2.
Record consensus_ok {U : UintOps} (params : PosParams) (s : RewardsState) (epoch : Epoch) (kind : gmap Address ValidatorState)
    (stake : Address -> Z) (T : Z) : Prop := {
  cs_states : forall v, get_validator_state (E:=InflationError) params (sets (pos s)) v epoch = Ok (kind !! v);
  cs_stakes : forall v, read_validator_stake (E:=InflationError) params (sets (pos s)) v epoch = Ok (stake v);
  cs_range : forall v, 0 <= stake v <= MAX_TOKENS;
  cs_listed : exists P, listed Consensus kind stake P (consensus_at (sets (pos s)) epoch) /\ forall v, kind !! v = Some Consensus -> is_Some (P !! v);
  cs_computed : compute_total_consensus_stake (F:=InflationError) (sets (pos s)) epoch = Ok T;
  cs_stored : get_total_consensus_stake (F:=InflationError) params s epoch = Ok T;
  cs_total : 0 < T <= MAX_TOKENS
}.
(** The rates of a block's rewards: with the proposer's part at its largest the
    coefficients are not above one. *)
Record reward_params_ok (params : PosParams) (pr sr : Z) : Prop := {
  rp_proposer : block_proposer_reward params = srep pr;
  rp_vote : block_vote_reward params = srep sr;
  rp_range : 0 <= pr <= SC /\ 0 <= sr;
  rp_sum : pr + 3 * MIN_PROPOSER_REWARD + 3 * sr <= 3 * SC
}.

Section block_rewards.
Context {U : UintOps} {HU : UintLaws U} (params : PosParams).
Context (s : RewardsState) (epoch : Epoch) (kind : gmap Address ValidatorState) (stake : Address -> Z) (T : Z).
Context (Hc : consensus_ok params s epoch kind stake T).
Notation E := InflationError.
Notation ms := (members_of s epoch).

Lemma small_u256 z : 0 <= z <= 10 ^ 60 -> in_u256 z.
Proof. intros Hz. split; [lia|]. transitivity (10 ^ 60); [lia|vm_compute; discriminate]. Qed.

Lemma entry_stake e : e ∈ set_list (consensus_at (sets (pos s)) epoch) -> e.1.1 = stake e.2.
Proof using Hc.
  destruct (cs_listed _ _ _ _ _ _ Hc) as (P & Hl & _). destruct e as [[k p] v]. intros He%elem_of_set_list. apply Hl in He as (_ & _ & <-). done.
Qed.
Lemma members_nodup : base.NoDup ms.
Proof using Hc.
  destruct (cs_listed _ _ _ _ _ _ Hc) as (P & Hl & _). unfold members_of. apply NoDup_fmap_2_strong; [|unfold set_list; rewrite sort_le_perm; apply NoDup_map_to_list].
  intros [[k p] v] [[k' p'] v'] H1%elem_of_set_list H2%elem_of_set_list Hv. cbn in *. subst v'. apply Hl in H1 as (H1 & _ & <-), H2 as (H2 & _ & <-). congruence.
Qed.
Lemma member_iff v : v ∈ ms <-> kind !! v = Some Consensus.
Proof using Hc.
  destruct (cs_listed _ _ _ _ _ _ Hc) as (P & Hl & HP). unfold members_of. rewrite list_elem_of_fmap. split.
  - intros ([[k p] w] & -> & He%elem_of_set_list). by apply Hl in He as (_ & ? & _).
  - intros Hv. destruct (HP v Hv) as [p Hpv]. exists (stake v, p, v). split; [done|]. apply elem_of_set_list. by apply Hl.
Qed.
Lemma total_is_sum : T = sumZ (stake <$> ms).
Proof using HU Hc.
  pose proof (cs_computed _ _ _ _ _ _ Hc) as Hrun. pose proof entry_stake as He. unfold compute_total_consensus_stake in Hrun. unfold members_of.
  generalize dependent (set_list (consensus_at (sets (pos s)) epoch)). intros l Hrun He.
  cut (forall a b, in_u256 a -> out_fold (E:=E) (fun acc (e : Z * Z * Address) => unwrap (amount_checked_add acc e.1.1)) l a = Ok b -> b = a + sumZ (stake <$> l.*2)).
  { intros Hcut. rewrite (Hcut 0 T); [lia| |done]. apply small_u256. lia. }
  clear Hrun. induction l as [|e l IH]; intros a b Ha Hrun; [cbn in *; injection Hrun; rewrite sumZ_nil; lia|]. cbn [out_fold] in Hrun.
  pose proof (cs_range _ _ _ _ _ _ Hc e.2) as Hr. unfold MAX_TOKENS in Hr. rewrite (He e), amount_checked_add_eq in Hrun by (done || set_solver || (apply small_u256; lia)).
  destruct (Z.leb_spec (a + stake e.2) MAX_VALUE); [|done]. cbn [unwrap out_bind] in Hrun.
  rewrite (IH ltac:(set_solver) (a + stake e.2) b); [rewrite !fmap_cons, sumZ_cons; lia| |done]. unfold in_u256 in *. lia.
Qed.

(** *** The votes *)
Lemma voters_cons v votes : voters (v :: votes) = if decide (validator_vp v = 0) then voters votes else validator_address v :: voters votes.
Proof. unfold voters. rewrite filter_cons. repeat case_decide; done. Qed.
Lemma log_vote_ok acc v : kind !! validator_address v = Some Consensus -> 0 <= acc.2 -> acc.2 + stake (validator_address v) <= MAX_TOKENS ->
  validator_vp v <> 0 -> log_vote params (sets (pos s)) epoch acc v = Ok ({[validator_address v]} ∪ acc.1, acc.2 + stake (validator_address v)).
Proof using HU Hc.
  intros Hk Ha Hm Hv. unfold log_vote. rewrite (proj2 (Z.eqb_neq _ 0)), (cs_states _ _ _ _ _ _ Hc), Hk by done. cbn [out_bind]. rewrite bool_decide_false by auto.
  rewrite (cs_stakes _ _ _ _ _ _ Hc). cbn [out_bind]. pose proof (cs_range _ _ _ _ _ _ Hc (validator_address v)). unfold MAX_TOKENS in *.
  unfold amount_add. rewrite uint_add_ok by (apply small_u256; lia). done.
Qed.
Lemma log_votes_ok votes acc : (forall v, v ∈ voters votes -> kind !! v = Some Consensus) -> 0 <= acc.2 -> acc.2 + sumZ (stake <$> voters votes) <= MAX_TOKENS ->
  out_fold (log_vote params (sets (pos s)) epoch) votes acc = Ok (list_to_set (voters votes) ∪ acc.1, acc.2 + sumZ (stake <$> voters votes)).
Proof using HU Hc.
  revert acc. induction votes as [|v votes IH]; intros acc Hk Ha Hm.
  { cbn. rewrite sumZ_nil, Z.add_0_r. destruct acc. cbn. do 2 f_equal. set_solver. }
  rewrite voters_cons in *. cbn [out_fold]. destruct (decide (validator_vp v = 0)) as [Hv|Hv].
  { unfold log_vote at 1. rewrite Hv. cbn [Z.eqb out_bind]. auto. }
  rewrite fmap_cons, sumZ_cons in *. pose proof (sum_map_nonneg stake (voters votes) (fun v _ => proj1 (cs_range _ _ _ _ _ _ Hc v))).
  rewrite log_vote_ok by (done || lia || (apply Hk; set_solver)). cbn [out_bind]. pose proof (cs_range _ _ _ _ _ _ Hc (validator_address v)).
  rewrite IH; cbn [fst snd]; [|intros w Hw; apply Hk; set_solver|lia|lia]. do 2 f_equal; [set_solver|lia].
Qed.
(** The first voter who is not in the consensus set stops the loop. *)
Lemma log_votes_err votes l1 v l2 acc : voters votes = l1 ++ v :: l2 -> (forall w, w ∈ l1 -> kind !! w = Some Consensus) -> kind !! v <> Some Consensus ->
  0 <= acc.2 -> acc.2 + sumZ (stake <$> l1) <= MAX_TOKENS ->
  out_fold (log_vote params (sets (pos s)) epoch) votes acc = Err (ExpectedValidatorInConsensus v (kind !! v)).
Proof using HU Hc.
  revert acc l1. induction votes as [|x votes IH]; intros acc l1 Hl Hk Hv Ha Hm; [by destruct l1|].
  rewrite voters_cons in Hl. cbn [out_fold]. destruct (decide (validator_vp x = 0)) as [Hx|Hx].
  { unfold log_vote at 1. rewrite Hx. cbn [Z.eqb out_bind]. by eapply IH. }
  destruct l1 as [|w l1]; injection Hl as Hw Hl.
  - unfold log_vote at 1. rewrite (proj2 (Z.eqb_neq _ 0)), (cs_states _ _ _ _ _ _ Hc), Hw by done. cbn [out_bind]. by rewrite bool_decide_true.
  - subst w. rewrite fmap_cons, sumZ_cons in Hm. pose proof (sum_map_nonneg stake l1 (fun v _ => proj1 (cs_range _ _ _ _ _ _ Hc v))).
    rewrite log_vote_ok by (done || lia || (apply Hk; set_solver)). cbn [out_bind]. pose proof (cs_range _ _ _ _ _ _ Hc (validator_address x)).
    eapply IH; cbn [fst snd]; [done|intros w Hw; apply Hk; set_solver|done|lia|lia].
Qed.
Lemma voters_le l : base.NoDup l -> (forall v, v ∈ l -> kind !! v = Some Consensus) -> 0 <= sumZ (stake <$> l) <= T.
Proof using HU Hc.
  intros Hnd Hk. pose proof (cs_range _ _ _ _ _ _ Hc) as Hr. split; [apply sum_map_nonneg; intros v _; apply Hr|]. rewrite total_is_sum. apply sum_subset; [done| |intros v _; apply Hr].
  intros v Hv. apply member_iff. auto.
Qed.

(** *** The coefficients *)
Context (pr sr : Z) (Hp : reward_params_ok params pr sr).
Lemma coeffs_outcome S : 0 <= S <= T -> get_reward_coeffs (mkCalculator (block_proposer_reward params) (block_vote_reward params) S T) =
  if S <? votes_needed_of T then Err (InsufficientVotes (votes_needed_of T) S)
  else let pc := proposer_coeff_of pr T S in Ok (mkPosRewards (srep pc) (srep sr) (srep (SC - pc - sr))).
Proof using HU Hc Hp.
  intros HS. pose proof (cs_total _ _ _ _ _ _ Hc) as HT. destruct Hp as [Hpp Hpv [Hpr Hsr] Hsum]. unfold MAX_TOKENS in *. rewrite Hpp, Hpv. clear Hpp Hpv.
  unfold get_reward_coeffs, get_min_required_votes. cbn [total_stake signing_stake proposer_reward signer_reward].
  pose proof SC_pos as HSC. destruct (votes_needed_bounds T ltac:(lia)) as (Hn & _ & _).
  unfold amount_checked_mul. rewrite uint_checked_mul_law by (apply small_u256; lia). rewrite (proj2 (Z.leb_le (T * 2) MAX_VALUE)) by (apply (small_u256 (T * 2)); lia).
  cbn [unwrap out_bind]. rewrite amount_checked_add_eq by (apply small_u256; lia). rewrite (proj2 (Z.leb_le (T * 2 + (3 - 1)) MAX_VALUE)) by (apply (small_u256 (T * 2 + (3 - 1))); lia).
  cbn [unwrap out_bind]. unfold amount_div_u64. rewrite uint_div_eq by (apply small_u256; lia). change (3 =? 0) with false. cbv iota.
  cbn [out_bind]. replace ((T * 2 + (3 - 1)) / 3) with (votes_needed_of T) by (unfold votes_needed_of; f_equal; lia).
  destruct (Z.ltb_spec S (votes_needed_of T)) as [|Hge]; [done|]. destruct (proposer_coeff_bounds pr T S) as [Hpc0 Hpc1]; [done|lia|lia|].
  unfold amount_sub. rewrite uint_sub_ok by (lia || apply small_u256; lia). cbn [out_bind].
  assert (forall z b, Z.abs z <= b -> b <= 10 ^ 70 -> in_i256 z) as Hin by apply i256_bound.
  set (ex := S - votes_needed_of T). assert (0 <= ex * pr <= 10 ^ 36) as Hexp by (unfold ex, SC in *; nia).
  rewrite smul_amount; [|lia|apply (Hin _ SC); unfold SC in *; lia|apply small_u256; lia|apply (small_u256 (ex * pr)); lia]. cbn [out_bind].
  pose proof (div_bounds (ex * pr) SC _ HSC Hexp) as Ha. unfold proposer_coeff_of in *. fold ex. fold ex in Hpc0, Hpc1. set (a := ex * pr / SC) in *.
  rewrite !sfrom_amount by (lia || (apply (Hin _ (10 ^ 42)); unfold AMOUNT_SCALE; lia)). cbn [out_bind].
  assert (Z.quot (a * AMOUNT_SCALE * SC) (T * AMOUNT_SCALE) = a * SC / T) as Hq.
  { rewrite Z.quot_div_nonneg by (unfold AMOUNT_SCALE; nia). replace (a * AMOUNT_SCALE * SC) with (a * SC * AMOUNT_SCALE) by lia.
    apply Z.div_mul_cancel_r; [lia|unfold AMOUNT_SCALE; lia]. }
  assert (in_i256 (a * SC / T)) as Hqi by (apply (Hin _ (10 ^ 48)); [|lia]; pose proof (div_bounds (a * SC) T (10 ^ 48) ltac:(lia) ltac:(unfold SC; lia)); lia).
  rewrite sdiv; rewrite ?Hq; [|apply (Hin _ (10 ^ 42)); unfold AMOUNT_SCALE; lia|apply (Hin _ (10 ^ 42)); unfold AMOUNT_SCALE; lia|unfold AMOUNT_SCALE; lia|done].
  cbn [out_bind]. set (q := a * SC / T) in *.
  assert (in_i256 MIN_PROPOSER_REWARD) as Hmin by (apply (Hin _ SC); unfold SC, MIN_PROPOSER_REWARD; lia).
  rewrite <- (srep_pos MIN_PROPOSER_REWARD) at 1 by (done || (unfold MIN_PROPOSER_REWARD; lia)).
  rewrite sadd by (done || (apply (Hin _ (10 ^ 13)); unfold SC in *; lia)). cbn [out_bind]. rewrite sone. cbn [out_bind].
  rewrite ssub by (apply (Hin _ (10 ^ 14)); unfold SC in *; lia). cbn [out_bind]. rewrite ssub by (apply (Hin _ (10 ^ 14)); unfold SC, MIN_PROPOSER_REWARD in *; lia). done.
Qed.

(** *** The fractions *)
Lemma share_ok c total a : 0 <= c <= SC -> 0 <= a <= total -> 0 < total <= MAX_TOKENS ->
  dec_div (E:=E) (srep (a * AMOUNT_SCALE)) (srep (total * AMOUNT_SCALE)) = Ok (srep (a * SC / total)) /\
  dec_mul (E:=E) (srep c) (srep (a * SC / total)) = Ok (srep (share c total a)).
Proof using HU.
  intros Hcc Ha Ht. unfold MAX_TOKENS in *. pose proof SC_pos as HSC. assert (forall z b, Z.abs z <= b -> b <= 10 ^ 70 -> in_i256 z) as Hin by apply i256_bound.
  assert (0 <= a * SC / total <= SC) as Hq by (split; [apply Z.div_pos; nia|apply Z.div_le_upper_bound; nia]).
  assert (Z.quot (a * AMOUNT_SCALE * SC) (total * AMOUNT_SCALE) = a * SC / total) as He.
  { rewrite Z.quot_div_nonneg by (unfold AMOUNT_SCALE; nia). replace (a * AMOUNT_SCALE * SC) with (a * SC * AMOUNT_SCALE) by lia.
    apply Z.div_mul_cancel_r; [lia|unfold AMOUNT_SCALE; lia]. }
  split.
  - rewrite sdiv; rewrite ?He; [done|apply (Hin _ (10 ^ 30)); unfold AMOUNT_SCALE; lia|apply (Hin _ (10 ^ 30)); unfold AMOUNT_SCALE; lia|unfold AMOUNT_SCALE; lia|].
    apply (Hin _ SC); unfold SC in *; lia.
  - rewrite smul; [|apply (Hin _ SC); unfold SC in *; lia|apply (Hin _ SC); unfold SC in *; lia|apply (Hin _ (10 ^ 24)); unfold SC in *; nia].
    rewrite Z.quot_div_nonneg by nia. done.
Qed.
Lemma fraction_ok pc S proposer signers v : 0 <= pc -> 0 <= sr -> pc + sr <= SC -> 0 < S <= T -> stake v <= T -> (v ∈ signers -> stake v <= S) ->
  let f := fraction_of pc sr T S stake proposer signers v in
  rewards_fraction (mkPosRewards (srep pc) (srep sr) (srep (SC - pc - sr))) proposer signers (srep (S * AMOUNT_SCALE)) (srep (T * AMOUNT_SCALE)) (stake v) v = Ok f /\
  0 <= f <= 3 * SC.
Proof using HU Hc.
  intros Hpc Hsr Hsum HS HvT HvS f. pose proof (cs_range _ _ _ _ _ _ Hc v) as Hv. pose proof (cs_total _ _ _ _ _ _ Hc) as HT.
  assert (forall z b, Z.abs z <= b -> b <= 10 ^ 70 -> in_i256 z) as Hin by apply i256_bound.
  assert (forall z, 0 <= z <= 3 * SC -> in_i256 z) as Hsc by (intros z Hz; apply (Hin _ (3 * SC)); unfold SC in *; lia).
  pose proof (share_bounds (SC - pc - sr) T (stake v) ltac:(lia) ltac:(lia) ltac:(lia)) as Hact.
  destruct (share_ok (SC - pc - sr) T (stake v)) as [Hd1 Hm1]; [lia..|]. unfold rewards_fraction. cbn [proposer_coeff signer_coeff active_val_coeff].
  unfold MAX_TOKENS in *. rewrite sfrom_amount by (lia || (apply (Hin _ (10 ^ 30)); unfold AMOUNT_SCALE; lia)). cbn [out_bind].
  set (p := if decide (v = proposer) then pc else 0). assert (0 <= p <= pc) as Hp1 by (unfold p; case_decide; lia).
  assert ((if bool_decide (v = proposer) then dec_add (E:=E) dec_zero (srep pc) else Ok dec_zero) = Ok (srep p)) as ->.
  { unfold p, dec_zero. rewrite <- (srep_pos 0) by (lia || apply Hsc; unfold SC; lia). case_bool_decide; case_decide; try done.
    apply sadd; apply Hsc; unfold SC in *; lia. }
  cbn [out_bind]. set (g := if decide (v ∈ signers) then share sr S (stake v) else 0).
  assert (v ∈ signers -> 0 <= share sr S (stake v) <= sr) as Hshare by (intros Hsig; apply share_bounds; [done| |]; specialize (HvS Hsig); lia).
  assert (0 <= g <= sr) as Hg by (unfold g; case_decide; auto; lia).
  assert ((if bool_decide (v ∈ signers) then (let* signing_frac := dec_div (srep (stake v * AMOUNT_SCALE)) (srep (S * AMOUNT_SCALE)) in
    let* r := dec_mul (srep sr) signing_frac in dec_add (srep p) r)%out else Ok (E:=E) (srep p)) = Ok (srep (p + g))) as ->.
  { unfold g. case_bool_decide as Hsig; [|by rewrite decide_False, Z.add_0_r]. rewrite decide_True by done. specialize (Hshare Hsig). specialize (HvS Hsig).
    destruct (share_ok sr S (stake v)) as [-> Hm2]; [lia|lia|unfold MAX_TOKENS; lia|]. cbn [out_bind]. rewrite Hm2. cbn [out_bind]. apply sadd; apply Hsc; lia. }
  cbn [out_bind]. rewrite Hd1. cbn [out_bind]. rewrite Hm1. cbn [out_bind]. rewrite sadd by (apply Hsc; lia).
  assert (f = p + g + share (SC - pc - sr) T (stake v)) as -> by done. split; [|lia]. rewrite srep_pos; [done|lia|apply Hsc; lia].
Qed.

(** *** The accumulators *)
Lemma padd a b : 0 <= a -> 0 <= b -> a + b <= 10 ^ 70 -> dec_add (E:=E) a b = Ok (a + b).
Proof using HU.
  intros Ha Hb Hs. assert (forall z, 0 <= z <= 10 ^ 70 -> in_i256 z) as Hin by (intros z Hz; apply (i256_bound _ (10 ^ 70)); lia).
  pose proof (sadd (E:=E) a b (Hin a ltac:(lia)) (Hin b ltac:(lia)) (Hin (a + b) ltac:(lia))) as H. rewrite !srep_pos in H by (lia || (apply Hin; lia)). done.
Qed.
Lemma values_fold (g : Z -> Address -> outcome E Z) (f : Address -> Z) (l : list (Z * Z * Address)) (m : gmap Address Z) : base.NoDup l.*2 ->
  (forall e, e ∈ l -> e.1.1 = stake e.2 /\ g e.1.1 e.2 = Ok (f e.2)) ->
  exists m', out_fold (fun (values : gmap Address Z) (e : Z * Z * Address) =>
      if amount_is_zero e.1.1 then Ok values else (let* r := g e.1.1 e.2 in Ok (<[e.2 := r]> values))%out) l m = Ok m' /\
    forall v, m' !! v = if decide (v ∈ l.*2 /\ stake v <> 0) then Some (f v) else m !! v.
Proof using.
  clear Hp Hc HU. revert m. induction l as [|e l IH]; intros m Hnd Hl.
  { exists m. split; [done|]. intros v. rewrite decide_False; [done|]. set_solver. }
  rewrite fmap_cons in Hnd. apply list.NoDup_cons in Hnd as [He Hnd]. cbn [out_fold]. destruct (Hl e ltac:(set_solver)) as [Hst Hg]. rewrite Hst in *. unfold amount_is_zero at 1.
  destruct (Z.eqb_spec (stake e.2) 0) as [Hz|Hz]; cbn [out_bind].
  - destruct (IH m Hnd ltac:(set_solver)) as (m' & Hm' & Hlk). exists m'. split; [done|]. intros v. rewrite Hlk. apply decide_ext. set_solver.
  - rewrite Hg. cbn [out_bind]. destruct (IH (<[e.2 := f e.2]> m) Hnd ltac:(set_solver)) as (m' & Hm' & Hlk). exists m'. split; [done|]. intros v. rewrite Hlk.
    destruct (decide (v = e.2)) as [->|Hne].
    + rewrite decide_False, decide_True by set_solver. apply lookup_insert_eq.
    + rewrite lookup_insert_ne by done. apply decide_ext. set_solver.
Qed.
Lemma accumulate_fold (l : list (Address * Z)) (acc : gmap Address Z) B : base.NoDup l.*1 -> (forall e, e ∈ l -> 0 <= e.2) ->
  (forall v, 0 <= cell acc v) -> (forall v, cell acc v + sumZ l.*2 <= B) -> B <= 10 ^ 70 ->
  exists acc', out_fold (fun acc (e : Address * Z) => update_amount e.1 (fun prev => dec_add (E:=E) prev e.2) acc) l acc = Ok acc' /\
    (forall v, acc' !! v = if decide (v ∈ l.*1) then Some (cell acc v + sumZ (filter (fun e => e.1 = v) l).*2) else acc !! v).
Proof using HU.
  clear Hp Hc stake. revert acc B. induction l as [|[a x] l IH]; intros acc B Hnd Hl Hacc HB Hmax; [exists acc; split; [done|]; intros v; rewrite decide_False by set_solver; done|].
  rewrite fmap_cons in Hnd. apply list.NoDup_cons in Hnd as [Ha Hnd]. cbn [fst] in Ha. pose proof (Hl (a, x) ltac:(set_solver)) as Hx. cbn [snd] in Hx.
  assert (0 <= sumZ l.*2) by (apply sum_map_nonneg; intros e He; apply Hl; set_solver).
  cbn [out_fold fst snd]. unfold update_amount at 1. change (default 0 (acc !! a)) with (cell acc a).
  assert (dec_add (E:=E) (cell acc a) x = Ok (cell acc a + x)) as ->.
  { specialize (HB a). rewrite fmap_cons, sumZ_cons in HB. cbn [snd] in HB. specialize (Hacc a).
    apply padd; lia. }
  cbn [out_bind]. assert (forall v, cell (<[a := cell acc a + x]> acc) v = if decide (v = a) then cell acc a + x else cell acc v) as Hcell.
  { intros v. cbn [cell amount_cells]. case_decide; [subst; by rewrite lookup_insert_eq|by rewrite lookup_insert_ne]. }
  destruct (IH (<[a := cell acc a + x]> acc) B) as (acc' & Hrun & Hlk); [done|intros e He; apply Hl; set_solver| | |done|].
  { intros v. rewrite Hcell. case_decide; [pose proof (Hacc a); lia|done]. }
  { intros v. rewrite Hcell. specialize (HB v). rewrite fmap_cons, sumZ_cons in HB. cbn [snd] in HB. case_decide; [subst; lia|lia]. }
  exists acc'. split; [done|]. intros v. rewrite Hlk, Hcell, filter_cons. cbn [fst]. destruct (decide (v = a)) as [->|Hne].
  - rewrite (decide_False (P:=a ∈ l.*1)), (decide_True (P:=a ∈ _)), (decide_True (P:=a = a)), lookup_insert_eq by set_solver. f_equal.
    assert (filter (fun e : Address * Z => e.1 = a) l = []) as ->; [|cbn; rewrite sumZ_cons, sumZ_nil; lia].
    destruct (filter _ l) as [|e k] eqn:Hk; [done|]. assert (e ∈ filter (fun e : Address * Z => e.1 = a) l) as He by (rewrite Hk; set_solver).
    apply list_elem_of_filter in He as [He1 He2]. exfalso. apply Ha. rewrite <- He1. by apply list_elem_of_fmap_2.
  - rewrite lookup_insert_ne, (decide_False (P:=a = v)) by congruence. apply decide_ext. set_solver.
Qed.
Lemma accumulate_ok (values acc : gmap Address Z) B : (forall v, 0 <= cell values v) -> (forall v, 0 <= cell acc v) ->
  tot acc + tot values <= B -> B <= 10 ^ 70 ->
  exists acc', out_fold (fun acc (e : Address * Z) => update_amount e.1 (fun prev => dec_add (E:=E) prev e.2) acc) (map_to_list values) acc = Ok acc' /\
    (forall v, acc' !! v = match values !! v with Some x => Some (cell acc v + x) | None => acc !! v end).
Proof using HU.
  clear Hp Hc stake. intros Hv Ha HB Hmax. assert (sumZ (map_to_list values).*2 = tot values) as Hsum.
  { cbn [tot amount_cells]. unfold msum. reflexivity. }
  destruct (accumulate_fold (map_to_list values) acc B) as (acc' & Hrun & Hlk); [apply NoDup_fst_map_to_list| |done| |done|].
  { intros [a x] Hx%elem_of_map_to_list. specialize (Hv a). cbn in Hv. by rewrite Hx in Hv. }
  { intros v. rewrite Hsum. pose proof (cell_le_tot acc Ha v). lia. }
  exists acc'. split; [done|]. intros v. rewrite Hlk. destruct (values !! v) as [x|] eqn:Hx.
  - rewrite decide_True by (apply list_elem_of_fmap; exists (v, x); split; [done|]; by apply elem_of_map_to_list). do 2 f_equal.
    assert (filter (fun e : Address * Z => e.1 = v) (map_to_list values) ≡ₚ [(v, x)]) as ->; [|by cbn; rewrite sumZ_cons, sumZ_nil, Z.add_0_r].
    apply NoDup_Permutation; [apply NoDup_filter, NoDup_map_to_list|apply NoDup_singleton|]. intros [a y]. rewrite list_elem_of_filter, elem_of_map_to_list, list_elem_of_singleton.
    cbn. naive_solver.
  - rewrite decide_False; [done|]. intros ([a y] & -> & Hy%elem_of_map_to_list)%list_elem_of_fmap. cbn in *. congruence.
Qed.

(** *** A block *)
Context (proposer : Address) (votes : list VoteInfo) (Hnd : base.NoDup (voters votes)).
Notation S := (sumZ (stake <$> voters votes)).
Definition block_fraction (v : Address) : Z :=
  fraction_of (proposer_coeff_of pr T S) sr T S stake proposer (list_to_set (voters votes)) v.

Lemma log_block_outside l1 v l2 : voters votes = l1 ++ v :: l2 -> (forall w, w ∈ l1 -> kind !! w = Some Consensus) -> kind !! v <> Some Consensus ->
  log_block_rewards params epoch proposer votes s = (s, Err (ExpectedValidatorInConsensus v (kind !! v))).
Proof using HU Hc Hnd.
  intros Hl Hk Hv. unfold log_block_rewards, st_bind, st_get, st_lift. rewrite (cs_stored _ _ _ _ _ _ Hc).
  erewrite log_votes_err; [done|done|done|done|done|]. cbn [snd]. pose proof (cs_total _ _ _ _ _ _ Hc).
  destruct (voters_le l1) as [_ Hle]; [|done|lia]. rewrite Hl in Hnd. by apply NoDup_app in Hnd as (? & _).
Qed.
Section consensus_voters.
Context (Hk : forall v, v ∈ voters votes -> kind !! v = Some Consensus).
Lemma log_block_short : 3 * S < 2 * T ->
  log_block_rewards params epoch proposer votes s = (s, Err (RewardsFailed (InsufficientVotes (votes_needed_of T) S))).
Proof using HU Hc Hnd Hk Hp.
  intros Hlt. pose proof (voters_le _ Hnd Hk) as HS. pose proof (cs_total _ _ _ _ _ _ Hc) as HT. destruct (votes_needed_bounds T ltac:(lia)) as (_ & _ & Hn).
  unfold log_block_rewards, st_bind, st_get, st_lift. rewrite (cs_stored _ _ _ _ _ _ Hc). rewrite log_votes_ok by (done || (cbn [snd]; lia)). cbn [snd].
  rewrite Z.add_0_l, coeffs_outcome by done. by rewrite (proj2 (Z.ltb_lt _ _)) by lia.
Qed.
Lemma log_block_ok : 2 * T <= 3 * S -> (forall v, 0 <= cell (rewards_accumulator s) v) -> tot (rewards_accumulator s) + SC <= 10 ^ 70 ->
  exists acc', log_block_rewards params epoch proposer votes s = (set_accumulator acc' s, Ok tt) /\
    (forall v, acc' !! v = if decide (v ∈ ms /\ stake v <> 0) then Some (cell (rewards_accumulator s) v + block_fraction v) else rewards_accumulator s !! v) /\
    (forall v, v ∈ ms -> 0 <= block_fraction v) /\
    sumZ (block_fraction <$> ms) <= SC /\ tot acc' <= tot (rewards_accumulator s) + SC.
Proof using HU Hc Hnd Hk Hp.
  intros Hge Hacc Hbound. pose proof (voters_le _ Hnd Hk) as HS. pose proof (cs_total _ _ _ _ _ _ Hc) as HT. destruct (votes_needed_bounds T ltac:(lia)) as (Hn0 & Hn & _).
  assert (votes_needed_of T <= S) as HnS by lia. destruct Hp as [_ _ [Hpr Hsr] Hrates]. destruct (proposer_coeff_bounds pr T S Hpr) as [Hpc0 Hpc1]; [lia|lia|].
  assert (forall v, v ∈ ms -> stake v <= T) as HvT.
  { intros v Hv. rewrite total_is_sum. transitivity (sumZ (stake <$> [v])); [cbn; rewrite sumZ_cons, sumZ_nil; lia|]. 
    apply sum_subset; [apply NoDup_singleton|set_solver|intros w _; apply (cs_range _ _ _ _ _ _ Hc)]. }
  assert (forall v, v ∈ ms -> v ∈ (list_to_set (voters votes) : gset Address) -> stake v <= S) as HvS.
  { intros v _ Hv. transitivity (sumZ (stake <$> [v])); [cbn; rewrite sumZ_cons, sumZ_nil; lia|]. 
    apply sum_subset; [apply NoDup_singleton|set_solver|intros w _; apply (cs_range _ _ _ _ _ _ Hc)]. }
  assert (forall v, v ∈ ms -> rewards_fraction (mkPosRewards (srep (proposer_coeff_of pr T S)) (srep sr) (srep (SC - proposer_coeff_of pr T S - sr))) proposer
    (list_to_set (voters votes)) (srep (S * AMOUNT_SCALE)) (srep (T * AMOUNT_SCALE)) (stake v) v = Ok (block_fraction v) /\ 0 <= block_fraction v <= 3 * SC) as Hfrac
    by (intros v Hv; apply fraction_ok; auto; lia).
  destruct (values_fold (rewards_fraction (mkPosRewards (srep (proposer_coeff_of pr T S)) (srep sr) (srep (SC - proposer_coeff_of pr T S - sr))) proposer
    (list_to_set (voters votes)) (srep (S * AMOUNT_SCALE)) (srep (T * AMOUNT_SCALE))) block_fraction (set_list (consensus_at (sets (pos s)) epoch)) ∅) as (vals & Hvals & Hlk).
  { apply members_nodup. }
  { intros e He. pose proof (entry_stake e He) as Hes. split; [done|]. rewrite Hes. apply Hfrac. unfold members_of. by apply list_elem_of_fmap_2. }
  fold (members_of s epoch) in Hlk.
  assert (sumZ (block_fraction <$> ms) <= SC) as Hfs.
  { apply (fractions_le _ _ _ _ _ _ _ ms (voters votes)); auto; try lia; try (intros v _; apply (cs_range _ _ _ _ _ _ Hc)); [apply members_nodup|apply total_is_sum|set_solver]. }
  assert (forall v, 0 <= cell vals v) as Hvn.
  { intros v. cbn [cell amount_cells]. rewrite Hlk. case_decide as Hd; [apply Hfrac, Hd|]. by rewrite lookup_empty. }
  assert (tot vals <= SC) as Hvt.
  { cbn [tot amount_cells]. rewrite (msum_support _ ms) by (apply members_nodup || (intros v Hv; unfold mterm; rewrite Hlk, decide_False by naive_solver; done)).
    etransitivity; [|exact Hfs]. apply sum_mono. intros v Hv. unfold mterm. rewrite Hlk. case_decide; [done|]. rewrite lookup_empty. cbn. by apply Hfrac. }
  destruct (accumulate_ok vals (rewards_accumulator s) (10 ^ 70) Hvn Hacc ltac:(lia) ltac:(lia)) as (acc' & Hrun & Hacc').
  exists acc'. split_and!; [| |intros v Hv; by apply Hfrac|done|].
  - unfold log_block_rewards, st_bind, st_get, st_lift. rewrite (cs_stored _ _ _ _ _ _ Hc). rewrite log_votes_ok by (done || (cbn [snd]; lia)). cbn [fst snd].
    rewrite Z.add_0_l, coeffs_outcome by done. rewrite (proj2 (Z.ltb_ge _ _)) by lia. cbv zeta. unfold MAX_TOKENS in *.
    rewrite !sfrom_amount by (lia || (apply (i256_bound _ (10 ^ 30)); unfold AMOUNT_SCALE; lia)). rewrite union_empty_r_L, Hvals. unfold update_part. by rewrite Hrun.
  - intros v. rewrite Hacc', Hlk. case_decide; [done|]. by rewrite lookup_empty.
  - rewrite (tot_add acc' (rewards_accumulator s) vals); [lia|]. intros v. cbn [cell amount_cells]. rewrite Hacc'. destruct (vals !! v); cbn; lia.
Qed.
End consensus_voters.
End block_rewards.

Section epoch_rewards.
Context {U : UintOps} {HU : UintLaws U} (params : PosParams).
Notation E := InflationError.

Lemma validator_reward_ok s last_epoch n amount v x stake rate : 0 <= x <= n * SC -> 0 < n <= U64_MAX -> 0 <= amount <= MAX_TOKENS ->
  read_validator_stake (E:=E) params (sets (pos s)) v last_epoch = Ok stake -> 0 < stake <= MAX_TOKENS ->
  commission_rate_at (F:=E) params s v last_epoch = Ok (srep rate) -> 0 <= rate <= SC ->
  let r := reward_of amount n x in
  validator_reward params s last_epoch n amount v x = Ok (r, mkValRewards (product_of rate stake r) (commission_of rate r)) /\ 0 <= r <= amount.
Proof using HU.
  intros Hx Hn Ha Hst Hst1 Hrate Hr1. cbn zeta. pose proof SC_pos as HS. unfold MAX_TOKENS in *.
  assert (0 <= x / n <= SC) as Hq by (split; [apply Z.div_pos; lia|apply Z.div_le_upper_bound; lia]).
  assert (0 <= reward_of amount n x <= amount) as Hr.
  { unfold reward_of. split; [apply Z.div_pos; nia|]. apply Z.div_le_upper_bound; nia. }
  split; [|done]. unfold validator_reward.
  assert (forall z b, Z.abs z <= b -> b <= 10 ^ 70 -> in_i256 z) as Hin by apply i256_bound.
  assert (in_i256 x) as Hxi by (apply (Hin _ (2 ^ 64 * 10 ^ 12)); [unfold SC, U64_MAX in *; nia|lia]).
  rewrite <- (srep_pos x) at 1 by (done || lia). rewrite sdiv_u64 by (done || (unfold in_u256, U64_MAX in *; split; [lia|]; transitivity (2 ^ 64); [lia|vm_compute; discriminate])).
  rewrite Z.quot_div_nonneg by lia. cbn [out_bind].
  assert (forall z, 0 <= z <= 10 ^ 60 -> in_u256 z) as Hu by (intros z Hz; split; [lia|]; transitivity (10 ^ 60); [lia|vm_compute; discriminate]).
  rewrite smul_amount; [|lia|apply (Hin _ SC); unfold SC in *; lia|apply Hu; lia|apply (Hu (amount * (x / n))); unfold SC in *; nia].
  cbn [out_bind]. fold (reward_of amount n x). set (r := reward_of amount n x) in *. clearbody r. rewrite Hst. cbn [out_bind].
  rewrite !sfrom_amount by (lia || (apply (Hin _ (10 ^ 30)); unfold AMOUNT_SCALE; lia)). cbn [out_bind]. rewrite Hrate. cbn [out_bind]. rewrite sone. cbn [out_bind].
  rewrite ssub by (apply (Hin _ SC); unfold SC in *; lia). cbn [out_bind].
  assert (0 <= (SC - rate) * (r * AMOUNT_SCALE) <= 10 ^ 42) as Hp by (unfold SC, AMOUNT_SCALE in *; nia).
  rewrite smul; [|apply (Hin _ SC); unfold SC in *; lia|apply (Hin _ (10 ^ 30)); unfold AMOUNT_SCALE; lia|apply (Hin _ (10 ^ 42)); lia].
  rewrite Z.quot_div_nonneg by lia. cbn [out_bind]. pose proof (div_bounds _ SC _ HS Hp) as Hp1.
  set (p := (SC - rate) * (r * AMOUNT_SCALE) / SC) in *.
  assert (0 <= p * SC <= 10 ^ 54) as Hp2 by (unfold SC in *; lia). assert (0 < stake * AMOUNT_SCALE) as Hsa by (unfold AMOUNT_SCALE; lia).
  pose proof (div_bounds _ (stake * AMOUNT_SCALE) _ Hsa Hp2) as Hp3.
  rewrite sdiv; [|apply (Hin _ (10 ^ 42)); lia|apply (Hin _ (10 ^ 30)); unfold AMOUNT_SCALE; lia|lia|rewrite Z.quot_div_nonneg by lia; apply (Hin _ (10 ^ 54)); lia].
  rewrite Z.quot_div_nonneg by lia. cbn [out_bind].
  rewrite smul_amount; [|lia|apply (Hin _ SC); unfold SC in *; lia|apply Hu; lia|apply (Hu (r * rate)); unfold SC in *; nia]. cbn [out_bind].
  rewrite srep_pos by (lia || (apply (Hin _ (10 ^ 54)); lia)). done.
Qed.

(** What is known of an epoch when its inflation is applied *)
Record epoch_ok (s : RewardsState) (last_epoch : Epoch) (n amount : Z) (stake rate : Address -> Z) : Prop := {
  eo_blocks : 0 < n <= U64_MAX;
  eo_amount : 0 <= amount <= MAX_TOKENS;
  eo_fractions : forall v, 0 <= cell (rewards_accumulator s) v;
  eo_sum : tot (rewards_accumulator s) <= n * SC;
  eo_stakes : forall v, v ∈ dom (rewards_accumulator s) -> read_validator_stake (E:=E) params (sets (pos s)) v last_epoch = Ok (stake v) /\ 0 < stake v <= MAX_TOKENS;
  eo_rates : forall v, v ∈ dom (rewards_accumulator s) -> commission_rate_at (F:=E) params s v last_epoch = Ok (srep (rate v)) /\ 0 <= rate v <= SC
}.
Definition reward_at (s : RewardsState) (n amount : Z) (v : Address) : Z := reward_of amount n (cell (rewards_accumulator s) v).
Definition rewards_total (s : RewardsState) (n amount : Z) : Z := sumZ (reward_at s n amount <$> elements (dom (rewards_accumulator s))).
Definition rewards_entry (s : RewardsState) (n amount : Z) (stake rate : Address -> Z) (v : Address) : ValidatorRewards :=
  let r := reward_at s n amount v in mkValRewards (product_of (rate v) (stake v) r) (commission_of (rate v) r).

Section distribution.
Context (s : RewardsState) (last_epoch : Epoch) (n amount : Z) (stake rate : Address -> Z).
Context (Hs : epoch_ok s last_epoch n amount stake rate).
Notation acc := (rewards_accumulator s).

Lemma reward_at_ok v : v ∈ dom acc -> validator_reward params s last_epoch n amount v (cell acc v) = Ok (reward_at s n amount v, rewards_entry s n amount stake rate v) /\
  0 <= reward_at s n amount v <= amount.
Proof using HU Hs.
  intros Hv. destruct Hs as [Hn Ha Hf Hsum Hst Hra]. destruct (Hst v Hv) as [Hst1 Hst2], (Hra v Hv) as [Hra1 Hra2]. pose proof (cell_le_tot acc Hf v).
  apply (validator_reward_ok s last_epoch n amount v (cell acc v) (stake v) (rate v)); auto. specialize (Hf v). lia.
Qed.
Lemma reward_steps_ok l rem m a : base.NoDup l -> (forall v, v ∈ l -> v ∈ dom acc) -> 0 <= rem - sumZ (reward_at s n amount <$> l) -> rem <= amount ->
  0 <= a -> a + sumZ (cell acc <$> l) <= 10 ^ 70 ->
  exists m', out_fold (reward_step params s last_epoch n amount) ((fun v => (v, default 0 (acc !! v))) <$> l) (rem, m, a) =
      Ok (rem - sumZ (reward_at s n amount <$> l), m', a + sumZ (cell acc <$> l)) /\
    forall v, m' !! v = if decide (v ∈ l) then Some (rewards_entry s n amount stake rate v) else m !! v.
Proof using HU Hs.
  revert rem m a. induction l as [|v l IH]; intros rem m a Hnd Hl Hrem Hle Ha Hsum.
  { exists m. rewrite !fmap_nil, sumZ_nil, Z.sub_0_r, Z.add_0_r. split; [done|]. intros v. by rewrite decide_False by set_solver. }
  apply list.NoDup_cons in Hnd as [Hv Hnd]. rewrite !fmap_cons, !sumZ_cons in *. cbn [out_fold].
  destruct (reward_at_ok v) as [Hrun Hr]; [set_solver|]. pose proof (eo_fractions _ _ _ _ _ _ Hs) as Hf. pose proof (eo_amount _ _ _ _ _ _ Hs) as Hamt.
  assert (0 <= sumZ (cell acc <$> l)) by (apply sum_map_nonneg; intros; apply Hf). pose proof (Hf v) as Hfv.
  assert (0 <= sumZ (reward_at s n amount <$> l)) by (apply sum_map_nonneg; intros w Hw; apply reward_at_ok; set_solver).
  unfold reward_step at 1. cbn [fst snd]. change (default 0 (acc !! v)) with (cell acc v). rewrite padd by lia. cbn [out_bind]. rewrite Hrun. cbn [out_bind fst snd].
  unfold MAX_TOKENS in *. unfold amount_sub. rewrite uint_sub_ok by (lia || (apply small_u256; lia)). cbn [out_bind].
  destruct (IH (rem - reward_at s n amount v) (<[v := rewards_entry s n amount stake rate v]> m) (a + cell acc v)) as (m' & Hm & Hlk); [done|set_solver|lia..|].
  exists m'. rewrite Hm. split; [f_equal; f_equal; [f_equal; lia|lia]|]. intros w. rewrite Hlk. destruct (decide (w = v)) as [->|Hne].
  - rewrite decide_False, decide_True by set_solver. apply lookup_insert_eq.
  - rewrite lookup_insert_ne by done. apply decide_ext. set_solver.
Qed.
Lemma acc_elements : tot acc = sumZ (cell acc <$> elements (dom acc)).
Proof using.
  clear Hs. cbn [tot amount_cells]. rewrite (msum_support _ (elements (dom acc))).
  - reflexivity.
  - apply NoDup_elements.
  - intros v Hv. unfold mterm. destruct (acc !! v) eqn:Hx; [|done]. exfalso. apply Hv, elem_of_elements, elem_of_dom. eauto.
Qed.
Lemma rewards_total_bounds : 0 <= rewards_total s n amount <= amount.
Proof using HU Hs.
  unfold rewards_total. split; [apply sum_map_nonneg; intros v Hv%elem_of_elements; by apply reward_at_ok|].
  change (reward_at s n amount <$> elements (dom acc)) with ((reward_of amount n ∘ cell acc) <$> elements (dom acc)).
  rewrite list_fmap_compose. destruct Hs. apply rewards_le; [lia|lia|]. by rewrite <- acc_elements.
Qed.
Context {C : AddressCodec} {HC : AddressCodecLaws C}.
Lemma reward_fold_ok : exists m, out_fold (reward_step params s last_epoch n amount) (accumulator_list acc) (amount, ∅, dec_zero) =
    Ok (amount - rewards_total s n amount, m, tot acc) /\
  forall v, m !! v = if decide (v ∈ dom acc) then Some (rewards_entry s n amount stake rate v) else None.
Proof using HU Hs.
  pose proof rewards_total_bounds as Hb. unfold rewards_total in Hb. assert (sorted_addresses (dom acc) ≡ₚ elements (dom acc)) as Hperm by (unfold sorted_addresses; apply sort_le_perm).
  assert (tot acc <= 10 ^ 70) as Ht. { destruct Hs as [Hn _ _ Hsum _ _]. transitivity (U64_MAX * SC); [unfold SC in *; lia|vm_compute; discriminate]. }
  destruct (reward_steps_ok (sorted_addresses (dom acc)) amount ∅ dec_zero) as (m & Hrun & Hlk).
  - rewrite Hperm. apply NoDup_elements.
  - intros v. rewrite Hperm. by intros ?%elem_of_elements.
  - rewrite Hperm. lia.
  - done.
  - unfold dec_zero. lia.
  - rewrite Hperm, <- acc_elements. unfold dec_zero. lia.
  - exists m. unfold accumulator_list. rewrite Hrun. assert (forall f : Address -> Z, sumZ (f <$> sorted_addresses (dom acc)) = sumZ (f <$> elements (dom acc))) as Hsame
      by (intros f; by rewrite Hperm).
    rewrite !Hsame, <- acc_elements. split; [done|]. intros v. rewrite Hlk, lookup_empty. apply decide_ext. by rewrite Hperm, elem_of_elements.
Qed.

(** *** The products and the counters *)
Lemma store_rewards_ok (l : list (Address * ValidatorRewards)) (s1 : RewardsState) : base.NoDup l.*1 -> 
  (forall e, e ∈ l -> in_u256 (commissions e.2) /\ in_u256 (cell (rewards_counters (rewards (pos s1))) (e.1, e.1)) /\
    cell (rewards_counters (rewards (pos s1))) (e.1, e.1) + commissions e.2 <= MAX_VALUE) ->
  exists P' C', st_iter (fun e : Address * ValidatorRewards =>
        do! on_pos (insert_product e.1 last_epoch (product e.2)) in
        on_pos (add_rewards_to_counter e.1 e.1 (commissions e.2))) l s1 =
      (set_pos (set_rewards (fun r => mkRewards P' (last_claims r) C') (pos s1)) s1, Ok tt) /\
    (forall v ep, default ∅ (P' !! v) !! ep = match (list_to_map l : gmap Address ValidatorRewards) !! v with
       | Some e => if decide (ep = last_epoch) then Some (product e) else default ∅ (rewards_products (rewards (pos s1)) !! v) !! ep
       | None => default ∅ (rewards_products (rewards (pos s1)) !! v) !! ep end) /\
    (forall k, cell C' k = cell (rewards_counters (rewards (pos s1))) k +
       match (list_to_map l : gmap Address ValidatorRewards) !! k.1 with Some e => if decide (k.2 = k.1) then commissions e else 0 | None => 0 end).
Proof using HU.
  clear Hs HC C stake rate. revert s1. induction l as [|[v e] l IH]; intros s1 Hnd Hl.
  { exists (rewards_products (rewards (pos s1))), (rewards_counters (rewards (pos s1))). split_and!.
    - cbn [st_iter]. unfold st_ret. f_equal. destruct s1 as [[? ? ? ? [? ? ?] ? ?] ? ? ? ? ? ?]. done.
    - intros v ep. cbn [list_to_map foldr]. by rewrite lookup_empty.
    - intros k. cbn [list_to_map foldr]. rewrite lookup_empty. lia. }
  rewrite fmap_cons in Hnd. apply list.NoDup_cons in Hnd as [Hv Hnd]. cbn [fst] in Hv. destruct (Hl (v, e) ltac:(set_solver)) as (Hc1 & Hc2 & Hc3). cbn [fst snd] in *.
  set (P1 := <[v := <[last_epoch := product e]> (default ∅ (rewards_products (rewards (pos s1)) !! v))]> (rewards_products (rewards (pos s1)))).
  set (C1 := <[(v, v) := cell (rewards_counters (rewards (pos s1))) (v, v) + commissions e]> (rewards_counters (rewards (pos s1)))).
  set (s2 := set_pos (set_rewards (fun r => mkRewards P1 (last_claims r) C1) (pos s1)) s1).
  assert ((do! on_pos (insert_product v last_epoch (product e)) in on_pos (add_rewards_to_counter v v (commissions e))) s1 = (s2, Ok tt)) as Hstep.
  { unfold st_bind, on_pos, zoom, map_err, insert_product, st_mod, add_rewards_to_counter, update_part, update_amount. cbn [fst snd pos set_pos rewards set_rewards rewards_counters].
    change (default 0 (rewards_counters (rewards (pos s1)) !! (v, v))) with (cell (rewards_counters (rewards (pos s1))) (v, v)). unfold amount_add. rewrite uint_add_ok by done. done. }
  assert (forall w, w <> v -> cell C1 (w, w) = cell (rewards_counters (rewards (pos s1))) (w, w)) as HC1.
  { intros w Hw. unfold C1. cbn [cell amount_cells]. by rewrite lookup_insert_ne by congruence. }
  destruct (IH s2 Hnd) as (P' & C' & Hrun & HP & HCn).
  { intros [w x] Hw. cbn [fst snd]. change (rewards_counters (rewards (pos s2))) with C1. rewrite HC1; [by apply (Hl (w, x)); set_solver|]. intros ->. apply Hv. by apply (list_elem_of_fmap_2 fst l (v, x)). }
  exists P', C'. split_and!.
  - cbn [st_iter]. unfold st_bind at 1. cbn [fst snd]. rewrite Hstep. exact Hrun.
  - intros w ep. rewrite HP. change (rewards_products (rewards (pos s2))) with P1. cbn [list_to_map foldr fst snd]. destruct (decide (w = v)) as [->|Hne].
    + rewrite not_elem_of_list_to_map_1, lookup_insert_eq by done. unfold P1. rewrite lookup_insert_eq. cbn [default from_option id].
      case_decide; [subst; by rewrite lookup_insert_eq|by rewrite lookup_insert_ne].
    + unfold P1. rewrite !(lookup_insert_ne _ v w) by done. done.
  - intros [w w']. rewrite HCn. change (rewards_counters (rewards (pos s2))) with C1. cbn [list_to_map foldr fst snd]. destruct (decide (w = v)) as [->|Hne].
    + rewrite not_elem_of_list_to_map_1, lookup_insert_eq by done. unfold C1. cbn [cell amount_cells]. case_decide; [subst; rewrite lookup_insert_eq; cbn; lia|rewrite lookup_insert_ne by congruence; lia].
    + rewrite lookup_insert_ne by done. unfold C1. cbn [cell amount_cells]. rewrite lookup_insert_ne by congruence. done.
Qed.

(** *** Minting *)
Lemma credit_ok t dest x (s1 : RewardsState) : store_wf (balances (pos s1)) -> 0 <= x ->
  bal (balances (pos s1)) t dest + x <= MAX_VALUE -> minted (balances (pos s1)) t + x <= MAX_VALUE ->
  exists st, credit t dest x s1 = (set_pos (set_balances st (pos s1)) s1, Ok tt) /\ store_wf st /\
    (forall t', minted st t' = minted (balances (pos s1)) t' + if decide (t' = t) then x else 0) /\
    (forall t' o, bal st t' o = bal (balances (pos s1)) t' o + if decide (t' = t /\ o = dest) then x else 0) /\
    st !! mkey t = Some (VAmount (minted st t)) /\ (forall k, k <> bkey t dest -> k <> mkey t -> st !! k = balances (pos s1) !! k).
Proof using HU HC.
  clear Hs stake rate. intros Hst Hx Hb Hm. pose proof (bal_range _ t dest Hst) as Hbr. pose proof (minted_range _ t Hst) as Hmr. unfold in_u256 in *.
  unfold credit, zoom, map_err. rewrite credit_tokens_eq by (done || (split; lia)). rewrite (proj2 (Z.leb_le (bal _ _ _ + x) _)), (proj2 (Z.leb_le (minted _ _ + x) _)) by done.
  cbn [negb fst snd]. eexists. split; [done|]. split_and!.
  - apply store_wf_set; [apply store_wf_set; [done|]|]; unfold in_u256; lia.
  - intros t'. destruct (decide (t' = t)) as [->|Hne]; [by rewrite minted_set_eq|]. rewrite !minted_set_ne by (done || (intros Hk; injection Hk; congruence)). lia.
  - intros t' o. rewrite bal_set_ne by done. destruct (decide (t' = t /\ o = dest)) as [[-> ->]|Hne]; [by rewrite bal_set_eq|].
    rewrite bal_set_ne by (intros Hk; injection Hk; naive_solver). lia.
  - rewrite minted_set_eq. apply lookup_insert_eq.
  - intros k Hk1 Hk2. by rewrite !lookup_insert_ne.
Qed.

(** What the inflation of an epoch leaves behind *)
Record distributed (s' : RewardsState) (token : Address) : Prop := {
  di_minted : forall t, minted (balances (pos s')) t = minted (balances (pos s)) t + if decide (t = token) then amount else 0;
  di_balances : forall t o, bal (balances (pos s')) t o = bal (balances (pos s)) t o +
    (if decide (t = token /\ o = POS) then rewards_total s n amount else 0) + (if decide (t = token /\ o = GOV) then amount - rewards_total s n amount else 0);
  di_products : forall v ep, default ∅ (rewards_products (rewards (pos s')) !! v) !! ep =
    if decide (v ∈ dom acc /\ ep = last_epoch) then Some (product (rewards_entry s n amount stake rate v)) else default ∅ (rewards_products (rewards (pos s)) !! v) !! ep;
  di_counters : forall v w, cell (rewards_counters (rewards (pos s'))) (v, w) = cell (rewards_counters (rewards (pos s))) (v, w) +
    if decide (v ∈ dom acc /\ w = v) then commissions (rewards_entry s n amount stake rate v) else 0;
  di_cleared : rewards_accumulator s' = ∅;
  di_store : store_wf (balances (pos s'));
  di_supply : balances (pos s') !! mkey token = Some (VAmount (minted (balances (pos s')) token));
  di_frame : forall k, k <> bkey token POS -> k <> bkey token GOV -> k <> mkey token -> balances (pos s') !! k = balances (pos s) !! k;
  di_rest : exists P' C' st, pos s' = set_balances st (set_rewards (fun r => mkRewards P' (last_claims r) C') (pos s)) /\
    total_consensus_stake s' = total_consensus_stake s /\ commission_rates s' = commission_rates s /\ epochs_per_year s' = epochs_per_year s
}.
(** The room that the new tokens need *)
Record room (token : Address) : Prop := {
  rm_store : store_wf (balances (pos s));
  rm_minted : minted (balances (pos s)) token + amount <= MAX_VALUE;
  rm_pos : bal (balances (pos s)) token POS + amount <= MAX_VALUE;
  rm_gov : bal (balances (pos s)) token GOV + amount <= MAX_VALUE;
  rm_counters : forall v, 0 <= cell (rewards_counters (rewards (pos s))) (v, v) /\ cell (rewards_counters (rewards (pos s))) (v, v) + amount <= MAX_VALUE
}.
Lemma commission_bounds v : v ∈ dom acc -> 0 <= commissions (rewards_entry s n amount stake rate v) <= amount.
Proof using HU Hs.
  intros Hv. destruct (reward_at_ok v Hv) as [_ Hr]. destruct (eo_rates _ _ _ _ _ _ Hs v Hv) as [_ Hra]. cbn [commissions rewards_entry]. unfold commission_of. pose proof SC_pos.
  split; [apply Z.div_pos; nia|]. apply Z.div_le_upper_bound; nia.
Qed.
Lemma update_rewards_ok token : room token ->
  exists s', update_rewards_products_and_mint_inflation params last_epoch n amount token s = (s', Ok tt) /\ distributed s' token /\
    staked_ratio s' = staked_ratio s /\ pos_inflation_amount s' = pos_inflation_amount s.
Proof using HU HC Hs.
  intros [Hwf Hrm Hrp Hrg Hrc]. destruct reward_fold_ok as (m & Hfold & Hm). pose proof rewards_total_bounds as HR. pose proof (eo_amount _ _ _ _ _ _ Hs) as Ha. unfold MAX_TOKENS in Ha.
  destruct (store_rewards_ok (map_to_list m) s) as (P' & C' & Hstore & HP & HCn); [apply NoDup_fst_map_to_list| |].
  { intros [v e] He%elem_of_map_to_list. cbn [fst snd]. rewrite Hm in He. case_decide as Hd; [|done]. injection He as <-. pose proof (commission_bounds v Hd). pose proof (Hrc v).
    unfold in_u256. lia. }
  rewrite list_to_map_to_list in HP, HCn. set (R := rewards_total s n amount) in *.
  set (s1 := set_pos (set_rewards (fun r => mkRewards P' (last_claims r) C') (pos s)) s) in *.
  destruct (credit_ok token POS R s1) as (st1 & Hc1 & Hwf1 & Hm1 & Hb1 & Hk1 & Hf1); [done|lia|change (bal (balances (pos s)) token POS + R <= MAX_VALUE); lia|change (minted (balances (pos s)) token + R <= MAX_VALUE); lia|]. set (s2 := set_pos (set_balances st1 (pos s1)) s1) in *.
  assert (exists st2, (if amount - R >? 0 then credit token GOV (amount - R) else st_ret tt) s2 = (set_pos (set_balances st2 (pos s2)) s2, Ok tt) /\ store_wf st2 /\
    (forall t', minted st2 t' = minted st1 t' + if decide (t' = token) then amount - R else 0) /\
    (forall t' o, bal st2 t' o = bal st1 t' o + if decide (t' = token /\ o = GOV) then amount - R else 0) /\
    st2 !! mkey token = Some (VAmount (minted st2 token)) /\ (forall k, k <> bkey token GOV -> k <> mkey token -> st2 !! k = st1 !! k)) as (st2 & Hc2 & Hwf2 & Hm2 & Hb2 & Hk2 & Hf2).
  { rewrite Z.gtb_ltb. destruct (Z.ltb_spec 0 (amount - R)) as [Hpos|Hz].
    - apply (credit_ok token GOV (amount - R) s2); [done|lia| |].
      + change (bal st1 token GOV + (amount - R) <= MAX_VALUE). rewrite Hb1, decide_False by (intros [_ ?]; done). change (balances (pos s1)) with (balances (pos s)). lia.
      + change (minted st1 token + (amount - R) <= MAX_VALUE). rewrite Hm1, decide_True by done. change (balances (pos s1)) with (balances (pos s)). lia.
    - exists st1. split_and!; [done|done| | |done|done]; intros; case_decide; lia. }
  exists (set_accumulator ∅ (set_pos (set_balances st2 (pos s2)) s2)). split; [|split; [|done]].
  - unfold update_rewards_products_and_mint_inflation. rewrite (st_bind_run _ _ s s s) by done. erewrite (st_bind_run _ _ s s) by (unfold st_lift; by rewrite Hfold).
    cbv iota. erewrite st_bind_run by exact Hstore. unfold st_bind, st_lift.
    unfold amount_sub. rewrite uint_sub_ok by (lia || (apply small_u256; lia)). replace (amount - (amount - R)) with R by lia. fold s2. rewrite Hc1. rewrite Hc2. done.
  - split; try done.
    + intros t. change (minted st2 t = minted (balances (pos s)) t + if decide (t = token) then amount else 0). rewrite Hm2, Hm1. change (balances (pos s1)) with (balances (pos s)). case_decide; lia.
    + intros t o. change (bal st2 t o = bal (balances (pos s)) t o + (if decide (t = token /\ o = POS) then R else 0) + (if decide (t = token /\ o = GOV) then amount - R else 0)).
      rewrite Hb2, Hb1. done.
    + intros v ep. change (default ∅ (P' !! v) !! ep = if decide (v ∈ dom acc /\ ep = last_epoch) then Some (product (rewards_entry s n amount stake rate v)) else default ∅ (rewards_products (rewards (pos s)) !! v) !! ep).
      rewrite HP, Hm. repeat case_decide; naive_solver.
    + intros v w. change (cell C' (v, w) = cell (rewards_counters (rewards (pos s))) (v, w) + if decide (v ∈ dom acc /\ w = v) then commissions (rewards_entry s n amount stake rate v) else 0).
      rewrite HCn, Hm. cbn [fst snd]. repeat case_decide; naive_solver.
    + intros k Hp Hg Hm'. change (st2 !! k = balances (pos s1) !! k). by rewrite Hf2, Hf1.
    + exists P', C', st2. done.
Qed.

(** The claims on the parts of the stake of a validator *)
Lemma claims_ok v (parts : list Z) : v ∈ dom acc -> Forall (fun a => 0 <= a) parts -> sumZ parts <= stake v ->
  exists claims, out_map (dec_mul_amount (E:=E) (product (rewards_entry s n amount stake rate v))) parts = Ok claims /\
    sumZ claims + commissions (rewards_entry s n amount stake rate v) <= reward_at s n amount v.
Proof using HU Hs.
  clear HC C. intros Hv Hp Hsum. destruct (reward_at_ok v Hv) as [_ Hr]. destruct (eo_rates _ _ _ _ _ _ Hs v Hv) as [_ Hra]. destruct (eo_stakes _ _ _ _ _ _ Hs v Hv) as [_ Hst].
  pose proof (eo_amount _ _ _ _ _ _ Hs) as Ha. destruct (product_bounds (rate v) (stake v) (reward_at s n amount v) Hra ltac:(lia) ltac:(lia)) as [Hq0 Hq1].
  cbn [product commissions rewards_entry]. set (q := product_of (rate v) (stake v) (reward_at s n amount v)) in *. unfold MAX_TOKENS in *.
  assert (stake v * q <= 10 ^ 36) as Hq2 by (unfold SC in *; nia). assert (q <= 10 ^ 36) by nia.
  exists ((fun a => a * q / SC) <$> parts). split; [|apply claims_le; auto; lia].
  apply out_map_ok. intros a Hin. assert (0 <= a) as Ha0 by (eapply list.Forall_forall in Hp; [exact Hp|by apply list_elem_of_In]).
  assert (a <= stake v) as Hav.
  { etransitivity; [|exact Hsum]. apply list_elem_of_In, list_elem_of_split in Hin as (l1 & l2 & ->). apply Forall_app in Hp as [H1 H2%Forall_cons]. destruct H2 as [_ H2].
    rewrite sumZ_app, sumZ_cons. pose proof (sumZ_nonneg l1 H1). pose proof (sumZ_nonneg l2 H2). lia. }
  rewrite <- (srep_pos q) at 1 by (lia || (apply (i256_bound _ (10 ^ 36)); lia)). apply smul_amount; [lia|apply (i256_bound _ (10 ^ 36)); lia|apply small_u256; lia|].
  apply (small_u256 (a * q)). nia.
Qed.
End distribution.

(** *** The inflation of an epoch *)
Context {C : AddressCodec} {HC : AddressCodecLaws C}.
Definition controller_of (s : RewardsState) (supply locked : Z) : RewardsController :=
  mkController locked supply supply (target_staked_ratio params) (staked_ratio s) (max_inflation_rate params) (pos_inflation_amount s) (rewards_gain_p params)
    (rewards_gain_d params) (epochs_per_year s).
Record inflation_ok (s : RewardsState) (last_epoch : Epoch) (supply locked : Z) : Prop := {
  io_supply : balances (pos s) !! mkey (native_token (info (pos s))) = Some (VAmount supply);
  io_locked : read_total_stake (F:=E) params (pos s) last_epoch = Ok locked;
  io_controller : controller_ok (controller_of s supply locked)
}.
Lemma controller_bounds {F} c : controller_ok c -> exists v, controller_run (E:=F) c = Ok v /\ locked_ratio v = srep (ratio_value c) /\ 0 <= inflation v /\
  inflation v * SC * controller_epochs_per_year c <= total_native_tokens c * sval (max_reward_rate c) /\ inflation v <= MAX_TOKENS.
Proof using HU.
  clear HC C. intros Hc. rewrite (controller_run_ok c Hc). eexists. split; [done|]. cbn [locked_ratio inflation]. split; [done|]. pose proof SC_pos as HS.
  pose proof (co_epochs c Hc) as He. pose proof (co_native c Hc) as Hn. destruct (co_rate c Hc) as (rate & Hr & Hr1).
  assert (sval (max_reward_rate c) = rate) as Hrate by (rewrite Hr; apply sval_srep, (i256_bound _ SC); unfold SC in *; lia).
  assert (0 <= cap_value c) as Hcap by (unfold cap_value; rewrite Hrate; apply Z.div_pos; nia).
  assert (0 <= cap_value c / SC) as Hcs by (by apply Z.div_pos). set (x := Z.min _ _).
  assert (0 <= x) as Hx0. { unfold x. destruct (Z.ltb_spec (last_inflation_amount c * SC + control_value c) 0); [lia|]. assert (0 <= (last_inflation_amount c * SC + control_value c) / SC) by (by apply Z.div_pos). lia. }
  assert (x <= cap_value c / SC) as Hx by (unfold x; lia). clearbody x.
  assert (cap_value c / SC * SC <= cap_value c) as H1 by (rewrite Z.mul_comm; by apply Z.mul_div_le).
  assert (cap_value c * controller_epochs_per_year c <= total_native_tokens c * sval (max_reward_rate c)) as H2 by (unfold cap_value; rewrite Z.mul_comm; apply Z.mul_div_le; lia).
  assert (x * SC <= cap_value c) as H3 by (apply (Z.mul_le_mono_nonneg_r _ _ SC) in Hx; lia).
  split_and!; [done|apply (Z.mul_le_mono_nonneg_r _ _ (controller_epochs_per_year c)) in H3; lia|].
  rewrite Hrate in H2. assert (cap_value c <= MAX_TOKENS * SC) by nia. nia.
Qed.
(** The whole of [apply_inflation] *)
Lemma apply_inflation_ok s last_epoch n supply locked stake rate : inflation_ok s last_epoch supply locked -> room s MAX_TOKENS (native_token (info (pos s))) ->
  (forall amount, 0 <= amount <= MAX_TOKENS -> epoch_ok s last_epoch n amount stake rate) ->
  exists s' amount, apply_inflation params last_epoch n s = (s', Ok tt) /\ pos_inflation_amount s' = amount /\
    staked_ratio s' = srep (ratio_value (controller_of s supply locked)) /\ 0 <= amount <= MAX_TOKENS /\
    amount * SC * epochs_per_year s <= supply * sval (max_inflation_rate params) /\
    distributed s last_epoch n amount stake rate s' (native_token (info (pos s))).
Proof using HU HC.
  intros [Hsup Hlock Hcon] Hroom Hep. set (t := native_token (info (pos s))) in *. destruct (controller_bounds (F:=E) _ Hcon) as (v & Hrun & Hratio & Hi0 & Hcap & Hmax).
  destruct (update_rewards_ok s last_epoch n (inflation v) stake rate (Hep _ (conj Hi0 Hmax)) t) as (s' & Hupd & Hd & _).
  { destruct Hroom as [H1 H2 H3 H4 H5]. split; [done|lia..|]. intros w. specialize (H5 w). lia. }
  exists (set_inflation (locked_ratio v) (inflation v) s'), (inflation v). split_and!; try done.
  - unfold apply_inflation. rewrite (st_bind_run _ _ s s s) by done. cbv zeta. fold t.
    erewrite (st_bind_run _ _ s s) by (unfold st_lift; by rewrite minted_key_mkey).
    assert (zoom (fun s => balances (pos s)) (fun x s => set_pos (set_balances x (pos s)) s) (map_err MintFailed (store_read (mkey t))) s = (s, Ok (Some supply))) as Hread.
    { unfold zoom, map_err, store_read, st_bind, st_get, st_lift. cbn [fst snd]. rewrite Hsup. cbn. destruct s as [[? ? ? ? ? ? ?] ? ? ? ? ? ?]. done. }
    rewrite (st_bind_run _ _ _ _ _ Hread). rewrite (st_bind_run _ _ s s supply) by done. erewrite (st_bind_run _ _ s s) by (unfold st_lift; by rewrite Hlock).
    fold (controller_of s supply locked). erewrite (st_bind_run _ _ s s) by (unfold st_lift; by rewrite Hrun).
    rewrite (st_bind_run _ _ s s (inflation v)) by done. erewrite st_bind_run by exact Hupd. done.
  - destruct Hd as [H1 H2 H3 H4 H5 H6 H7 H8 H9]. split; done.
Qed.

(** *** The blocks of an epoch

    The heights from the first block of an epoch, with the rewards that are logged
    at each block and what other code does between them *)
Inductive epoch_blocks (epoch : Epoch) (first : Z) (kind : gmap Address ValidatorState) (stake : Address -> Z) (T : Z) : Z -> RewardsState -> Prop :=
| eb_first s : rewards_accumulator s = ∅ -> epoch_blocks epoch first kind stake T first s
| eb_other h s s' : epoch_blocks epoch first kind stake T h s -> rewards_accumulator s' = rewards_accumulator s -> epoch_blocks epoch first kind stake T h s'
| eb_no_votes h s : epoch_blocks epoch first kind stake T h s -> epoch_blocks epoch first kind stake T (h + 1) s
| eb_block h s s' proposer votes current_epoch new_epoch : epoch_blocks epoch first kind stake T h s -> consensus_ok params s epoch kind stake T ->
    base.NoDup (voters votes) -> current_epoch = (if new_epoch : bool then epoch + 1 else epoch) ->
    shell_log_block_rewards params proposer votes current_epoch new_epoch s = (s', Ok tt) -> epoch_blocks epoch first kind stake T (h + 1) s'.
Lemma epoch_blocks_inv epoch first kind stake T pr sr h s : reward_params_ok params pr sr -> 0 <= epoch < U64_MAX -> 0 <= first -> h <= U64_MAX -> epoch_blocks epoch first kind stake T h s ->
  first <= h /\ (forall v, 0 <= cell (rewards_accumulator s) v) /\ tot (rewards_accumulator s) <= (h - first) * SC /\
  forall v, v ∈ dom (rewards_accumulator s) -> 0 < stake v <= MAX_TOKENS.
Proof using HU.
  clear HC C. intros Hp Hep Hf Hh Hrun. pose proof SC_pos. induction Hrun as [s Hs|h s s' _ IH Hs|h s _ IH|h s s' proposer votes cur ne _ IH Hc Hnd Hcur Hlog].
  - rewrite Hs. split_and!; [lia|intros v; by rewrite cell_empty|rewrite tot_empty; lia|set_solver].
  - rewrite Hs. auto.
  - destruct IH as (H1 & H2 & H3 & H4); [lia|]. split_and!; auto; nia.
  - destruct IH as (H1 & H2 & H3 & H4); [lia|]. destruct proposer as [p|]; [|injection Hlog as <-; split_and!; auto; nia].
    unfold shell_log_block_rewards in Hlog. rewrite (st_bind_run _ _ s s epoch) in Hlog.
    2:{ unfold st_lift. destruct ne; subst cur; [|done]. unfold epoch_prev. rewrite u64_sub_ok by lia. by rewrite Z.add_simpl_r. }
    assert (tot (rewards_accumulator s) + SC <= 10 ^ 70) as Hb.
    { transitivity (U64_MAX * SC); [nia|vm_compute; discriminate]. }
    destruct (decide (Forall (fun v => kind !! v = Some Consensus) (voters votes))) as [Hk|Hk].
    + rewrite list.Forall_forall in Hk. destruct (Z.lt_ge_cases (3 * sumZ (stake <$> voters votes)) (2 * T)) as [Hlt|Hge].
      { erewrite log_block_short in Hlog by eauto. done. }
      destruct (log_block_ok params s epoch kind stake T Hc pr sr Hp p votes Hnd Hk Hge H2 Hb) as (acc' & Hrun' & Hacc & Hfr & _ & Htot).
      rewrite Hrun' in Hlog. injection Hlog as <-. cbn [rewards_accumulator set_accumulator]. split_and!; [lia| |nia|].
      * intros v. cbn [cell amount_cells]. rewrite Hacc. case_decide as Hd; [|apply H2]. cbn [default from_option id]. pose proof (Hfr v (proj1 Hd)). pose proof (H2 v). lia.
      * intros v Hv%elem_of_dom. rewrite Hacc in Hv. case_decide as Hd; [|by apply H4, elem_of_dom]. pose proof (cs_range _ _ _ _ _ _ Hc v). lia.
    + destruct (first_failing _ _ Hk) as (l1 & v & l2 & Hl & Hl1 & Hv). by erewrite log_block_outside in Hlog by eauto.
Qed.
End epoch_rewards.

(** ** An epoch of two validators and two blocks *)
Module RefRewards.
Definition v1 : Address := Established 1.
Definition v2 : Address := Established 2.
Definition nam : Address := Established 99.
Definition params : PosParams := mkPosParams
  (mkOwned 2 2 21 (10 ^ 12) (125 * 10 ^ 9) (10 ^ 11) (10 ^ 11) (6667 * 10 ^ 8) (10 ^ 9) (10 ^ 9) 1 1000000 10000 (9 * 10 ^ 11) (25 * 10 ^ 10) (25 * 10 ^ 10)) 27.
Definition at1 {D} (d : D) : epoched D := mkEpoched (Some 1) (Some 0) {[1 := d]}.
Definition base_sets : ValidatorSets := mkSets (at1 {[(6000000, 0) := v1; (3000000, 1) := v2]}) empty_epoched (at1 {[v1 := 0; v2 := 1]}) (at1 {[v1; v2]})
  {[v1 := at1 Consensus; v2 := at1 Consensus]} {[v1 := at1 6000000; v2 := at1 3000000]}.
Definition base : RewardsState := mkRewardsState
  (mkPos base_sets (at1 9000000) (mkLedger ∅ ∅ ∅ ∅) (mkRedel ∅ ∅ ∅ ∅ ∅ ∅) (mkRewards ∅ ∅ ∅)
    {[mkey nam := VAmount (10 ^ 13)]} (mkInfo nam ∅ ∅ ∅))
  (at1 9000000) ∅ {[v1 := at1 (10 ^ 11); v2 := at1 (5 * 10 ^ 10)]} 365 (66 * 10 ^ 10) 1000000.
Definition stake (v : Address) : Z := if decide (v = v1) then 6000000 else if decide (v = v2) then 3000000 else 0.
Definition rate (v : Address) : Z := if decide (v = v1) then 10 ^ 11 else 5 * 10 ^ 10.
Definition kind : gmap Address ValidatorState := {[v1 := Consensus; v2 := Consensus]}.
Definition votes : list VoteInfo := [mkVote v1 6].
Definition one_block : gmap Address Z := {[v1 := 693333333332; v2 := 306666666666]}.
Definition two_blocks : gmap Address Z := {[v1 := 1386666666664; v2 := 613333333332]}.
Definition final : RewardsState := set_accumulator two_blocks base.

Lemma base_consensus acc : consensus_ok (U:=Ref.uint_ref) params (set_accumulator acc base) 1 kind stake 9000000.
Proof.
  assert (forall v, v = v1 \/ v = v2 \/ (v <> v1 /\ v <> v2)) as Hv by (intros v; destruct (decide (v = v1)), (decide (v = v2)); auto).
  split.
  - intros v. change (get_validator_state (E:=InflationError) params base_sets v 1 = Ok (kind !! v)). destruct (Hv v) as [->|[->|[H1 H2]]]; [vm_compute; reflexivity..|].
    unfold get_validator_state, state_handle, kind. cbn [validator_states base_sets]. rewrite !lookup_insert_ne, !lookup_singleton_ne by congruence. done.
  - intros v. change (read_validator_stake (U:=Ref.uint_ref) (E:=InflationError) params base_sets v 1 = Ok (stake v)). destruct (Hv v) as [->|[->|[H1 H2]]]; [vm_compute; reflexivity..|].
    unfold read_validator_stake, deltas_handle, stake. cbn [validator_deltas base_sets]. rewrite !lookup_insert_ne, !lookup_singleton_ne, !decide_False by congruence. done.
  - intros v. unfold stake, MAX_TOKENS. repeat case_decide; lia.
  - exists {[v1 := 0; v2 := 1]}. split.
    + intros k p v. change (({[(6000000, 0) := v1; (3000000, 1) := v2]} : gmap (Z * Z) Address) !! (k, p) = Some v <-> ({[v1 := 0; v2 := 1]} : gmap Address Z) !! v = Some p /\ kind !! v = Some Consensus /\ stake v = k).
      unfold kind, stake. split.
      * intros Hl. apply lookup_insert_Some in Hl as [[[= <- <-] <-]|[_ [[= <- <-] <-]%lookup_singleton_Some]]; split_and!; vm_compute; reflexivity.
      * intros (Hp & _ & <-). apply lookup_insert_Some in Hp as [[<- <-]|[Hne [<- <-]%lookup_singleton_Some]]; vm_compute; reflexivity.
    + intros v Hk. unfold kind in Hk. apply lookup_insert_Some in Hk as [[<- _]|[_ [<- _]%lookup_singleton_Some]]; vm_compute; eauto.
  - vm_compute. reflexivity.
  - vm_compute. reflexivity.
  - unfold MAX_TOKENS. lia.
Qed.
Lemma params_rewards : reward_params_ok params (125 * 10 ^ 9) (10 ^ 11).
Proof. split; [reflexivity|reflexivity|unfold SC; lia|unfold SC, MIN_PROPOSER_REWARD; lia]. Qed.
Lemma votes_nodup : base.NoDup (voters votes).
Proof. apply (bool_decide_unpack _). vm_compute. exact I. Qed.
Notation log_block := (shell_log_block_rewards (U:=Ref.uint_ref) params (Some v2) votes).
Lemma first_block : log_block 1 false (set_accumulator ∅ base) = (set_accumulator one_block base, Ok tt).
Proof. vm_compute. reflexivity. Qed.
Lemma second_block : log_block 2 true (set_accumulator one_block base) = (set_accumulator two_blocks base, Ok tt).
Proof. vm_compute. reflexivity. Qed.
Lemma blocks : epoch_blocks (U:=Ref.uint_ref) params 1 10 kind stake 9000000 12 final.
Proof.
  apply (eb_block _ _ _ _ _ _ 11 (set_accumulator one_block base) final (Some v2) votes 2 true); [|apply base_consensus|apply votes_nodup|done|exact second_block].
  apply (eb_block _ _ _ _ _ _ 10 (set_accumulator ∅ base) (set_accumulator one_block base) (Some v2) votes 1 false); [|apply base_consensus|apply votes_nodup|done|exact first_block].
  by apply eb_first.
Qed.
Lemma logged v : v ∈ dom (rewards_accumulator final) -> v = v1 \/ v = v2.
Proof.
  change (rewards_accumulator final) with two_blocks. unfold two_blocks. rewrite dom_insert, dom_singleton. set_solver.
Qed.
Lemma final_inflation : inflation_ok (U:=Ref.uint_ref) params final 1 (10 ^ 13) 9000000.
Proof.
  split; [vm_compute; reflexivity|vm_compute; reflexivity|].
  split; cbn [controller_of locked_tokens total_tokens total_native_tokens last_inflation_amount controller_epochs_per_year locked_ratio_target locked_ratio_last max_reward_rate p_gain_nom d_gain_nom];
    change (pos_inflation_amount final) with 1000000; change (epochs_per_year final) with 365; unfold MAX_TOKENS; try lia.
  - exists (6667 * 10 ^ 8). split; [reflexivity|unfold SC; lia].
  - exists (66 * 10 ^ 10). split; [reflexivity|unfold SC; lia].
  - exists (10 ^ 11). split; [reflexivity|unfold SC; lia].
  - exists (25 * 10 ^ 10). split; [reflexivity|unfold SC; lia].
  - exists (25 * 10 ^ 10). split; [reflexivity|unfold SC; lia].
  - vm_compute. split; [reflexivity|discriminate].
Qed.
Lemma final_room : room final MAX_TOKENS (native_token (info (pos final))).
Proof.
  split.
  - intros k v Hk _. change (({[mkey nam := VAmount (10 ^ 13)]} : store) !! k = Some v) in Hk. apply lookup_singleton_Some in Hk as [<- <-]. exists (10 ^ 13). split; [done|]. apply small_u256. lia.
  - vm_compute. discriminate.
  - vm_compute. discriminate.
  - vm_compute. discriminate.
  - intros v. change (cell (rewards_counters (rewards (pos final))) (v, v)) with (default 0 ((∅ : gmap (Address * Address) Z) !! (v, v))). rewrite lookup_empty. vm_compute. split; discriminate.
Qed.
End RefRewards.


(** C17. The rewards of a block whose votes are of different validators, when the
    consensus set agrees with the recorded states and stakes. A vote of a validator
    who is not in the consensus set, and votes with less than two thirds of the
    stake, are errors that change nothing. Otherwise every member of the set with
    stake gets its fraction, for proposing, for signing and for its stake, added to
    its accumulator; the fractions are not negative and add up to at most one. *)
Theorem block_rewards_outcomes {U : UintOps} {HU : UintLaws U} (params : PosParams) (s : RewardsState) (epoch : Epoch) (kind : gmap Address ValidatorState)
    (stake : Address -> Z) (T pr sr : Z) (proposer : Address) (votes : list VoteInfo) :
  consensus_ok params s epoch kind stake T -> reward_params_ok params pr sr -> base.NoDup (voters votes) ->
  (forall v, 0 <= cell (rewards_accumulator s) v) -> tot (rewards_accumulator s) <= U64_MAX * SC ->
  let S := sumZ (stake <$> voters votes) in
  let f := block_fraction stake T pr sr proposer votes in
  (exists l1 v l2, voters votes = l1 ++ v :: l2 /\ (forall w, w ∈ l1 -> kind !! w = Some Consensus) /\ kind !! v <> Some Consensus /\
    log_block_rewards params epoch proposer votes s = (s, Err (ExpectedValidatorInConsensus v (kind !! v)))) \/
  (forall v, v ∈ voters votes -> kind !! v = Some Consensus) /\
    ((3 * S < 2 * T /\ log_block_rewards params epoch proposer votes s = (s, Err (RewardsFailed (InsufficientVotes (votes_needed_of T) S)))) \/
     (2 * T <= 3 * S /\ exists acc, log_block_rewards params epoch proposer votes s = (set_accumulator acc s, Ok tt) /\
       (forall v, acc !! v = if decide (v ∈ members_of s epoch /\ stake v <> 0) then Some (cell (rewards_accumulator s) v + f v) else rewards_accumulator s !! v) /\
       (forall v, v ∈ members_of s epoch -> 0 <= f v) /\ sumZ (f <$> members_of s epoch) <= SC)).
Proof.
  intros Hc Hp Hnd Hacc Htot S f. destruct (decide (Forall (fun v => kind !! v = Some Consensus) (voters votes))) as [Hk|Hk].
  - right. rewrite list.Forall_forall in Hk. split; [done|]. destruct (Z.lt_ge_cases (3 * S) (2 * T)) as [Hlt|Hge]; [left; split; [done|by eapply log_block_short]|].
    right. split; [done|]. destruct (log_block_ok params s epoch kind stake T Hc pr sr Hp proposer votes Hnd Hk Hge Hacc) as (acc & H1 & H2 & H3 & H4 & _); [|by exists acc].
    etransitivity; [apply Z.add_le_mono_r; exact Htot|]. vm_compute. discriminate.
  - left. destruct (first_failing _ _ Hk) as (l1 & v & l2 & Hl & Hl1 & Hv). exists l1, v, l2. split_and!; [done..|]. by eapply log_block_outside.
Qed.

Lemma block_rewards_outcomes_witness :
  exists acc, log_block_rewards (U:=Ref.uint_ref) RefRewards.params 1 RefRewards.v2 RefRewards.votes RefRewards.base = (set_accumulator acc RefRewards.base, Ok tt) /\
    0 <= default 0 (acc !! RefRewards.v1).
Proof.
  destruct (block_rewards_outcomes (HU:=Ref.uint_ref_laws) RefRewards.params (set_accumulator ∅ RefRewards.base) 1 RefRewards.kind RefRewards.stake 9000000 (125 * 10 ^ 9) (10 ^ 11)
    RefRewards.v2 RefRewards.votes (RefRewards.base_consensus ∅) RefRewards.params_rewards RefRewards.votes_nodup) as [(l1 & v & l2 & Hl & _ & Hv & _)|[_ [[Hlt _]|[_ (acc & Hrun & Hacc & _)]]]].
  - intros v. apply Z.eq_le_incl. symmetry. apply (cell_empty (M:=gmap Address Z)).
  - vm_compute. discriminate.
  - exfalso. apply Hv. assert (v ∈ voters RefRewards.votes) as Hin by (rewrite Hl; set_solver). apply list_elem_of_singleton in Hin as ->. vm_compute. reflexivity.
  - exfalso. vm_compute in Hlt. discriminate.
  - exists acc. split; [exact Hrun|]. rewrite Hacc. vm_compute. discriminate.
Defined.
