(* ===== verification/Governance.v ===== *)
(** * Governance and public goods funding

    The keys and the data of governance ([core/src/ledger/governance/]), its
    storage operations ([core/src/ledger/storage_api/governance.rs], [pgf.rs]), the
    tally of votes ([core/src/ledger/governance/utils.rs]), the inflation of public
    goods funding ([core/src/ledger/pgf/inflation.rs]) and the execution of
    proposals by the shell ([apps/src/lib/node/ledger/shell/governance.rs],
    [apps/src/lib/node/ledger/mod.rs]).

    The storage holds typed values under keys, in three layers: the database, the
    log of the block and the log of the running transaction. A value that is read
    at another type is a decoding error. Running the code of a proposal is a
    parameter. A [HashSet] is iterated in the order of a list. *)

From Stdlib Require Import ZArith Lia Ascii String.
From stdpp Require Import base numbers list gmap sorting option.
From S2P Require Import Prelude Uint Int256 Dec Keys WriteLog GovTypes Token Epoch Params Epoched Slash Unbond ValidatorSet WlStorage Lifecycle Bonds Inflation.

Local Open Scope Z_scope.

(** ** Numbers in keys: [u64::to_string] and [str::parse] *)
Definition digit (d : Z) : ascii := ascii_of_N (Z.to_N (48 + d)).
Fixpoint digits (fuel : nat) (n : Z) : str :=
  match fuel with
  | O => []
  | S fuel => if n <? 10 then [digit n] else digits fuel (n / 10) ++ [digit (n `mod` 10)]
  end.
(** 20 digits are enough for 64 bits. *)
Definition u64_to_string (n : Z) : str := digits 20 n.
Definition digit_of (c : ascii) : option Z :=
  let d := Z.of_N (N_of_ascii c) - 48 in if (0 <=? d) && (d <=? 9) then Some d else None.
Fixpoint parse_digits (s : str) (acc : Z) : option Z :=
  match s with
  | [] => Some acc
  | c :: s => d ← digit_of c; m ← u64_checked_mul acc 10; a ← u64_checked_add m d; parse_digits s a
  end.
Definition u64_parse (s : str) : option Z :=
  match s with
  | [] => None
  | c :: rest => if bool_decide (c = "+"%char) then match rest with [] => None | _ => parse_digits rest 0 end else parse_digits s 0
  end.

(** ** Keys ([core/src/ledger/governance/storage/keys.rs]) *)
Definition k_proposal : str := lit "proposal".
Definition k_vote : str := lit "vote".
Definition k_author : str := lit "author".
Definition k_proposal_type : str := lit "proposal_type".
Definition k_content : str := lit "content".
Definition k_start_epoch : str := lit "start_epoch".
Definition k_end_epoch : str := lit "end_epoch".
Definition k_grace_epoch : str := lit "grace_epoch".
Definition k_funds : str := lit "funds".
Definition k_proposal_code : str := lit "proposal_code".
Definition k_committing_epoch : str := lit "committing_epoch".
Definition k_min_fund : str := lit "min_fund".
Definition k_max_code_size : str := lit "max_code_size".
Definition k_min_period : str := lit "min_period".
Definition k_max_period : str := lit "max_period".
Definition k_max_content : str := lit "max_content".
Definition k_min_grace_epoch : str := lit "min_grace_epoch".
Definition k_counter : str := lit "counter".
Definition k_pending : str := lit "pending".
Definition k_result : str := lit "result".

Definition str_is (a b : str) : bool := bool_decide (a = b).
Definition is_gov (a : Address) : bool := bool_decide (a = GOV).

(** The first segment is indexed: an empty key is a panic. *)
Definition is_governance_key {E} (key : Key) : outcome E bool :=
  match key with
  | [] => Panic
  | AddressSeg addr :: _ => Ok (is_gov addr)
  | _ => Ok false
  end.
Definition is_vote_key (key : Key) : bool :=
  match key with
  | [AddressSeg addr; StringSeg prefix; StringSeg id; StringSeg vote; AddressSeg _; AddressSeg _] =>
      is_gov addr && str_is prefix k_proposal && str_is vote k_vote && bool_decide (is_Some (u64_parse id))
  | _ => false
  end.
(** What the keys of the fields of a proposal have in common *)
Definition is_field_key (field : str) (key : Key) : bool :=
  match key with
  | [AddressSeg addr; StringSeg prefix; StringSeg id; StringSeg f] =>
      is_gov addr && str_is prefix k_proposal && str_is f field && bool_decide (is_Some (u64_parse id))
  | _ => false
  end.
Definition is_author_key : Key -> bool := is_field_key k_author.
Definition is_proposal_code_key : Key -> bool := is_field_key k_proposal_code.
Definition is_grace_epoch_key : Key -> bool := is_field_key k_grace_epoch.
Definition is_content_key : Key -> bool := is_field_key k_content.
(** [is_balance_key] of the governance keys *)
Definition is_funds_key : Key -> bool := is_field_key k_funds.
Definition is_start_epoch_key : Key -> bool := is_field_key k_start_epoch.
Definition is_end_epoch_key : Key -> bool := is_field_key k_end_epoch.
Definition is_proposal_type_key : Key -> bool := is_field_key k_proposal_type.
(** What the keys of the parameters have in common *)
Definition is_single_key (name : str) (key : Key) : bool :=
  match key with
  | [AddressSeg addr; StringSeg n] => is_gov addr && str_is n name
  | _ => false
  end.
Definition is_counter_key : Key -> bool := is_single_key k_counter.
Definition is_min_proposal_fund_key : Key -> bool := is_single_key k_min_fund.
Definition is_max_content_size_key : Key -> bool := is_single_key k_max_content.
Definition is_max_proposal_code_size_key : Key -> bool := is_single_key k_max_code_size.
Definition is_min_proposal_voting_period_key : Key -> bool := is_single_key k_min_period.
Definition is_max_proposal_period_key : Key -> bool := is_single_key k_max_period.
Definition is_min_grace_epoch_key : Key -> bool := is_single_key k_min_grace_epoch.
Definition is_commit_proposal_key (key : Key) : bool :=
  match key with
  | [AddressSeg addr; StringSeg prefix; StringSeg epoch_prefix; StringSeg _; StringSeg _] =>
      is_gov addr && str_is prefix k_proposal && str_is epoch_prefix k_committing_epoch
  | _ => false
  end.
Definition is_parameter_key (key : Key) : bool :=
  is_min_proposal_fund_key key || is_max_content_size_key key || is_max_proposal_code_size_key key ||
  is_min_proposal_voting_period_key key || is_max_proposal_period_key key || is_min_grace_epoch_key key.

(** A segment that is pushed is a string without separator: see [push_segment]. *)
Definition gov_prefix : Key := [AddressSeg GOV].
Definition proposal_prefix : Key := gov_prefix ++ [StringSeg k_proposal].
Definition single_key (name : str) : Key := gov_prefix ++ [StringSeg name].
Definition get_min_proposal_fund_key : Key := single_key k_min_fund.
Definition get_max_proposal_code_size_key : Key := single_key k_max_code_size.
Definition get_min_proposal_voting_period_key : Key := single_key k_min_period.
Definition get_max_proposal_period_key : Key := single_key k_max_period.
Definition get_max_proposal_content_key : Key := single_key k_max_content.
Definition get_min_proposal_grace_epoch_key : Key := single_key k_min_grace_epoch.
Definition get_counter_key : Key := single_key k_counter.
Definition field_key (field : str) (id : Z) : Key := proposal_prefix ++ [StringSeg (u64_to_string id); StringSeg field].
Definition get_content_key : Z -> Key := field_key k_content.
Definition get_author_key : Z -> Key := field_key k_author.
Definition get_proposal_type_key : Z -> Key := field_key k_proposal_type.
Definition get_voting_start_epoch_key : Z -> Key := field_key k_start_epoch.
Definition get_voting_end_epoch_key : Z -> Key := field_key k_end_epoch.
Definition get_funds_key : Z -> Key := field_key k_funds.
Definition get_grace_epoch_key : Z -> Key := field_key k_grace_epoch.
Definition get_proposal_code_key : Z -> Key := field_key k_proposal_code.
Definition get_proposal_result_key : Z -> Key := field_key k_result.
Definition get_commiting_proposals_prefix (epoch : Z) : Key := proposal_prefix ++ [StringSeg k_committing_epoch; StringSeg (u64_to_string epoch)].
Definition get_committing_proposals_key (id epoch : Z) : Key := get_commiting_proposals_prefix epoch ++ [StringSeg (u64_to_string id)].
Definition get_proposal_vote_prefix_key (id : Z) : Key := proposal_prefix ++ [StringSeg (u64_to_string id); StringSeg k_vote].
Definition get_vote_proposal_key (id : Z) (voter_address delegation_address : Address) : Key :=
  get_proposal_vote_prefix_key id ++ [AddressSeg delegation_address; AddressSeg voter_address].
Definition get_proposal_execution_key (id : Z) : Key := gov_prefix ++ [StringSeg k_pending; StringSeg (u64_to_string id)].

Definition number_at (i : nat) (key : Key) : option Z :=
  match key !! i with
  | Some (StringSeg s) => u64_parse s
  | _ => None
  end.
Definition address_at (i : nat) (key : Key) : option Address :=
  match key !! i with
  | Some (AddressSeg a) => Some a
  | _ => None
  end.
Definition get_proposal_id : Key -> option Z := number_at 2.
Definition get_commit_proposal_epoch : Key -> option Z := number_at 3.
Definition get_commit_proposal_id : Key -> option Z := number_at 4.
Definition get_vote_delegation_address : Key -> option Address := address_at 4.
Definition get_voter_address : Key -> option Address := address_at 5.

(** *** Public goods funding ([core/src/ledger/pgf/storage/keys.rs]) *)
Definition PGF : Address := Internal Pgf.
Definition k_stewards : str := lit "stewards".
Definition k_fundings : str := lit "fundings".
Definition k_pgf_inflation_rate : str := lit "pgf_inflation_rate".
Definition k_steward_inflation_rate : str := lit "steward_inflation_rate".
(** [lazy_map::DATA_SUBKEY] *)
Definition k_data : str := lit "data".
Definition is_pgf (a : Address) : bool := bool_decide (a = PGF).
(** The key of an entry of a lazy map under a prefix *)
Definition stewards_key_prefix : Key := [AddressSeg PGF; StringSeg k_stewards].
Definition fundings_key_prefix : Key := [AddressSeg PGF; StringSeg k_fundings].
Definition entry_key (prefix : Key) (a : Address) : Key := prefix ++ [StringSeg k_data; AddressSeg a].
Definition is_stewards_key (key : Key) : option Address :=
  match key with
  | [AddressSeg pgf; StringSeg prefix; StringSeg data; AddressSeg steward] =>
      if is_pgf pgf && str_is prefix k_stewards && str_is data k_data then Some steward else None
  | _ => None
  end.
Definition is_fundings_key (key : Key) : bool :=
  match key with
  | [AddressSeg pgf; StringSeg prefix; StringSeg data; AddressSeg _] => is_pgf pgf && str_is prefix k_fundings && str_is data k_data
  | _ => false
  end.
Definition is_pgf_key {E} (key : Key) : outcome E bool :=
  match key with
  | [] => Panic
  | AddressSeg addr :: _ => Ok (is_pgf addr)
  | _ => Ok false
  end.
Definition is_pgf_inflation_rate_key (key : Key) : bool :=
  match key with [AddressSeg addr; StringSeg prefix] => is_pgf addr && str_is prefix k_pgf_inflation_rate | _ => false end.
Definition is_steward_inflation_rate_key (key : Key) : bool :=
  match key with [AddressSeg addr; StringSeg prefix] => is_pgf addr && str_is prefix k_steward_inflation_rate | _ => false end.
Definition get_pgf_inflation_rate_key : Key := [AddressSeg PGF; StringSeg k_pgf_inflation_rate].
Definition get_steward_inflation_rate_key : Key := [AddressSeg PGF; StringSeg k_steward_inflation_rate].

(** ** The tally ([core/src/ledger/governance/utils.rs]) *)
Record Vote : Type := mkGovVote { vote_validator : Address; vote_delegator : Address; vote_data : StorageProposalVote }.
Definition vote_is_validator (v : Vote) : bool := bool_decide (vote_validator v = vote_delegator v).

Inductive TallyType : Type := TwoThirds | OneHalfOverOneThird | LessOneHalfOverOneThirdNay.
Definition tally_type_from (proposal_type : ProposalType) (is_steward : bool) : TallyType :=
  match proposal_type, is_steward with
  | DefaultProposal _, _ => TwoThirds
  | PGFSteward _, _ => OneHalfOverOneThird
  | PGFPayment _, true => LessOneHalfOverOneThirdNay
  | PGFPayment _, false => OneHalfOverOneThird
  end.

(** [OfflineVote], by its side *)
Inductive OfflineSide : Type := OfflineYay | OfflineNay | OfflineAbstain.
#[export] Instance OfflineSide_eq_dec : EqDecision OfflineSide.
Proof. solve_decision. Defined.
Inductive TallyVote : Type := OnChain (v : StorageProposalVote) | Offline (v : OfflineSide).
Definition tv_is_yay (v : TallyVote) : bool := match v with OnChain v => is_yay v | Offline v => bool_decide (v = OfflineYay) end.
Definition tv_is_nay (v : TallyVote) : bool := match v with OnChain v => is_nay v | Offline v => bool_decide (v = OfflineNay) end.
Definition tv_is_abstain (v : TallyVote) : bool := match v with OnChain v => is_abstain v | Offline v => bool_decide (v = OfflineAbstain) end.
(** [None] for votes of different variants *)
Definition tv_is_same_side (v w : TallyVote) : option bool :=
  match v, w with
  | OnChain v, OnChain w => Some (is_same_side v w)
  | Offline v, Offline w => Some (bool_decide (v = w))
  | _, _ => None
  end.

Record ProposalVotes : Type := mkVotes {
  validators_vote : gmap Address TallyVote;
  validator_voting_power : gmap Address Z;
  delegators_vote : gmap Address TallyVote;
  delegator_voting_power : gmap Address (gmap Address Z)
}.
(** The three sums *)
Record Tally : Type := mkTally { yay : Z; nay : Z; abstain : Z }.

Section tally.
Context {U : UintOps} {E : Type}.
Local Open Scope outcome_scope.

Definition tally_result_new (tally_type : TallyType) (t : Tally) (total : Z) : outcome E TallyResult :=
  let* passed :=
    match tally_type with
    | TwoThirds => let* m := amount_mul total 2 in let* q := amount_div_u64 m 3 in Ok (q <=? yay t)
    | OneHalfOverOneThird =>
        let* a := amount_add (yay t) (nay t) in let* b := amount_add a (abstain t) in
        let* q := amount_div_u64 total 3 in
        Ok ((q <=? b) && (nay t <=? yay t))
    | LessOneHalfOverOneThirdNay =>
        let* a := amount_add (yay t) (nay t) in let* b := amount_add a (abstain t) in
        let* q := amount_div_u64 total 3 in
        Ok ((b <? q) || (nay t <? yay t))
    end in
  Ok (if passed : bool then Passed else Rejected).
Definition two_thirds_nay_over_two_thirds_total (r : ProposalResult) : outcome E bool :=
  let* a := amount_add (total_yay_power r) (total_nay_power r) in let* b := amount_add a (total_abstain_power r) in
  let* m := amount_mul (total_voting_power r) 2 in let* q := amount_div_u64 m 3 in
  let* c := amount_add (total_nay_power r) (total_yay_power r) in let* d := amount_mul c 2 in let* e := amount_div_u64 d 3 in
  Ok ((q <=? b) && (e <=? total_nay_power r)).

Definition add_yay (t : Tally) (p : Z) : outcome E Tally := let* x := amount_add (yay t) p in Ok (mkTally x (nay t) (abstain t)).
Definition add_nay (t : Tally) (p : Z) : outcome E Tally := let* x := amount_add (nay t) p in Ok (mkTally (yay t) x (abstain t)).
Definition add_abstain (t : Tally) (p : Z) : outcome E Tally := let* x := amount_add (abstain t) p in Ok (mkTally (yay t) (nay t) x).
Definition sub_yay (t : Tally) (p : Z) : outcome E Tally := let* x := amount_sub (yay t) p in Ok (mkTally x (nay t) (abstain t)).
Definition sub_nay (t : Tally) (p : Z) : outcome E Tally := let* x := amount_sub (nay t) p in Ok (mkTally (yay t) x (abstain t)).
Definition sub_abstain (t : Tally) (p : Z) : outcome E Tally := let* x := amount_sub (abstain t) p in Ok (mkTally (yay t) (nay t) x).
Definition count (v : TallyVote) (p : Z) (t : Tally) : outcome E Tally :=
  if tv_is_yay v then add_yay t p else if tv_is_nay v then add_nay t p else if tv_is_abstain v then add_abstain t p else Ok t.

Definition tally_validator (votes : ProposalVotes) (t : Tally) (e : Address * Z) : outcome E Tally :=
  match validators_vote votes !! e.1 with
  | Some vote => count vote e.2 t
  | None => Ok t
  end.
(** One delegation of a delegator; [None] when the proposal is forced to fail *)
Definition tally_delegation (votes : ProposalVotes) (delegator_vote : TallyVote) (acc : option Tally) (e : Address * Z) : outcome E (option Tally) :=
  match acc with
  | None => Ok None
  | Some t =>
      let '(validator, voting_power) := e in
      match validators_vote votes !! validator with
      | Some validator_vote =>
          match tv_is_same_side validator_vote delegator_vote with
          | None => Ok None
          | Some true => Ok (Some t)
          | Some false =>
              let* t :=
                if tv_is_yay delegator_vote then
                  let* t := add_yay t voting_power in
                  if tv_is_nay validator_vote then sub_nay t voting_power
                  else if tv_is_abstain validator_vote then sub_abstain t voting_power else Ok t
                else if tv_is_nay delegator_vote then
                  let* t := add_nay t voting_power in
                  if tv_is_yay validator_vote then sub_yay t voting_power
                  else if tv_is_abstain validator_vote then sub_abstain t voting_power else Ok t
                else if tv_is_abstain delegator_vote then
                  let* t := add_abstain t voting_power in
                  if tv_is_yay validator_vote then sub_yay t voting_power
                  else if tv_is_nay validator_vote then sub_nay t voting_power else Ok t
                else Ok t in
              Ok (Some t)
          end
      | None => let* t := count delegator_vote voting_power t in Ok (Some t)
      end
  end.
Definition tally_delegator (votes : ProposalVotes) (acc : option Tally) (e : Address * list (Address * Z)) : outcome E (option Tally) :=
  match delegators_vote votes !! e.1 with
  | Some delegator_vote => out_fold (tally_delegation votes delegator_vote) e.2 acc
  | None => Ok acc
  end.

(** [compute_proposal_result], with the hash maps in the order of two lists *)
Definition compute_proposal_result (votes : ProposalVotes) (validators : list (Address * Z)) (delegators : list (Address * list (Address * Z)))
    (total : Z) (tally_at : TallyType) : outcome E ProposalResult :=
  let* t := out_fold (tally_validator votes) validators (mkTally 0 0 0) in
  let* o := out_fold (tally_delegator votes) delegators (Some t) in
  match o with
  | None => Ok (mkResult Rejected 0 0 0 0)
  | Some t =>
      let* r := tally_result_new tally_at t total in
      Ok (mkResult r total (yay t) (nay t) (abstain t))
  end.
(** The enumerations of the maps *)
Definition validator_order (votes : ProposalVotes) (l : list (Address * Z)) : Prop := l ≡ₚ map_to_list (validator_voting_power votes).
Definition delegator_order (votes : ProposalVotes) (l : list (Address * list (Address * Z))) : Prop :=
  exists l', l' ≡ₚ map_to_list (delegator_voting_power votes) /\ Forall2 (fun e e' => e.1 = e'.1 /\ e.2 ≡ₚ map_to_list e'.2) l l'.
Definition some_delegator_order (votes : ProposalVotes) : list (Address * list (Address * Z)) :=
  (fun e => (e.1, map_to_list e.2)) <$> map_to_list (delegator_voting_power votes).

(** [StorageProposal::can_be_voted] and [get_status], on the epochs of the vote *)
Definition can_be_voted (voting_start_epoch voting_end_epoch current_epoch : Epoch) (is_validator : bool) : outcome E bool :=
  if is_validator then
    if voting_start_epoch <=? current_epoch then
      let* a := u64_mul current_epoch 3 in let* b := u64_mul voting_end_epoch 2 in let* c := epoch_add voting_start_epoch b in Ok (a <=? c)
    else Ok false
  else Ok ((voting_start_epoch <=? current_epoch) && (current_epoch <=? voting_end_epoch)).
Inductive ProposalStatus : Type := Pending | OnGoing | Ended.
Definition get_status (voting_start_epoch voting_end_epoch current_epoch : Epoch) : ProposalStatus :=
  if current_epoch <? voting_start_epoch then Pending
  else if (voting_start_epoch <=? current_epoch) && (current_epoch <=? voting_end_epoch) then OnGoing
  else Ended.
Definition is_valid_validator_voting_period (current_epoch voting_start_epoch voting_end_epoch : Epoch) : outcome E bool :=
  if voting_end_epoch <=? voting_start_epoch then Ok false
  else
    let* duration := epoch_sub voting_end_epoch voting_start_epoch in
    let* two_third_duration := u64_mul (duration / 3) 2 in
    let* limit := epoch_add voting_start_epoch two_third_duration in
    Ok (current_epoch <=? limit).
End tally.

(** ** The storage: a database, the log of the block and the log of a transaction *)
Notation log := (gmap Key (option value)).
Record Layers : Type := mkLayers { db : store; block_log : log; tx_log : log }.
Definition overlay (l : log) (m : store) : store := merge (fun o v => match o with Some w => w | None => v end) l m.
(** What is read *)
Definition view (s : Layers) : store := overlay (tx_log s) (overlay (block_log s) (db s)).
Definition set_block_log (l : log) (s : Layers) : Layers := mkLayers (db s) l (tx_log s).
(** [StorageWrite] of [WlStorage] writes to the log of the block. *)
Definition put (k : Key) (o : option value) (s : Layers) : Layers := set_block_log (<[k := o]> (block_log s)) s.
(** [Storage::delete] of the database itself *)
Definition storage_delete (k : Key) (s : Layers) : Layers := mkLayers (base.delete k (db s)) (block_log s) (tx_log s).
Definition layers_commit_tx (s : Layers) : Layers := mkLayers (db s) (tx_log s ∪ block_log s) ∅.
Definition layers_drop_tx (s : Layers) : Layers := mkLayers (db s) (block_log s) ∅.
Definition layers_commit_block (s : Layers) : Layers := mkLayers (overlay (block_log s) (db s)) ∅ (tx_log s).

Inductive GovError : Type :=
| GovDecode
| MissingProposalCode
| GovToken (e : token_error).

Record InitProposalData : Type := mkInitProposal {
  init_id : option Z;
  init_author : Address;
  init_type : ProposalType;
  init_start : Epoch;
  init_end : Epoch;
  init_grace : Epoch
}.
Record VoteProposalData : Type := mkVoteProposal { vp_id : Z; vp_vote : StorageProposalVote; vp_voter : Address; vp_delegations : list Address }.
Record GovernanceParameters : Type := mkGovParams {
  min_proposal_fund : Z;
  max_proposal_code_size : Z;
  min_proposal_voting_period : Z;
  gov_max_proposal_period : Z;
  max_proposal_content_size : Z;
  min_proposal_grace_epochs : Z
}.

(** Decoding *)
Definition as_u64 (v : value) : option Z := match v with VU64 n => Some n | _ => None end.
Definition as_amount (v : value) : option Z := match v with VAmount a => Some a | _ => None end.
Definition as_address (v : value) : option Address := match v with VAddress a => Some a | _ => None end.
Definition as_dec (v : value) : option Z := match v with VDec d => Some d | _ => None end.
Definition as_type (v : value) : option ProposalType := match v with VGov (GType p) => Some p | _ => None end.
Definition as_vote (v : value) : option StorageProposalVote := match v with VGov (GVote v) => Some v | _ => None end.
Definition as_steward (v : value) : option StewardDetail := match v with VGov (GSteward d) => Some d | _ => None end.
Definition as_funding (v : value) : option StoragePgfFunding := match v with VGov (GFunding f) => Some f | _ => None end.
(** [StorageRead::read], on what is stored *)
Definition read_value {E A} (err : E) (dec : value -> option A) (m : store) (k : Key) : outcome E (option A) :=
  match m !! k with
  | None => Ok None
  | Some v => match dec v with Some a => Ok (Some a) | None => Err err end
  end.

Section handlers.
Context {U : UintOps} {C : AddressCodec} (native_token : Address).
Notation E := GovError.
Local Open Scope st_scope.

Definition gread {A} (dec : value -> option A) (k : Key) : st Layers E (option A) := fun s => (s, read_value GovDecode dec (view s) k).
Definition gwrite (k : Key) (v : value) : st Layers E unit := st_mod (put k (Some v)).
Definition gdelete (k : Key) : st Layers E unit := st_mod (put k None).
(** An operation on tokens that writes the given keys when it succeeds *)
Definition on_tokens (keys : list Key) (m : st store token_error unit) : st Layers E unit := fun s =>
  let r := m (view s) in
  match r.2 with
  | Ok _ => (foldl (fun s k => put k (r.1 !! k) s) s keys, Ok tt)
  | Err e => (s, Err (GovToken e))
  | Panic => (s, Panic)
  end.
Definition gov_transfer (token src dest : Address) (amount : Z) : st Layers E unit :=
  on_tokens (if amount_is_zero amount then [] else [bkey token src; bkey token dest]) (transfer token src dest amount).
Definition gov_burn (token src : Address) (amount : Z) : st Layers E unit := on_tokens [bkey token src; mkey token] (burn token src amount).
Definition gov_credit (token dest : Address) (amount : Z) : st Layers E unit := on_tokens [bkey token dest; mkey token] (credit_tokens token dest amount).

(** *** [core/src/ledger/storage_api/governance.rs] *)
Definition init_proposal (data : InitProposalData) (content : list Z) (code : option (list Z)) : st Layers E unit :=
  let! proposal_id :=
    match init_id data with
    | Some id => st_ret id
    | None => let! o := gread as_u64 get_counter_key in st_lift (unwrap o)
    end in
  do! gwrite (get_content_key proposal_id) (VBytes content) in
  do! gwrite (get_author_key proposal_id) (VAddress (init_author data)) in
  do! match init_type data with
      | DefaultProposal (Some _) =>
          do! gwrite (get_proposal_type_key proposal_id) (VGov (GType (DefaultProposal None))) in
          let! proposal_code := st_lift (ok_or code MissingProposalCode) in
          gwrite (get_proposal_code_key proposal_id) (VBytes proposal_code)
      | t => gwrite (get_proposal_type_key proposal_id) (VGov (GType t))
      end in
  do! gwrite (get_voting_start_epoch_key proposal_id) (VU64 (init_start data)) in
  do! gwrite (get_voting_end_epoch_key proposal_id) (VU64 (init_end data)) in
  do! gwrite (get_grace_epoch_key proposal_id) (VU64 (init_grace data)) in
  do! match init_type data with
      | DefaultProposal (Some _) =>
          let! proposal_code := st_lift (ok_or code MissingProposalCode) in
          gwrite (get_proposal_code_key proposal_id) (VBytes proposal_code)
      | _ => st_ret tt
      end in
  let! next := st_lift (u64_add proposal_id 1) in
  do! gwrite get_counter_key (VU64 next) in
  let! o := gread as_amount get_min_proposal_fund_key in
  let! min_proposal_funds := st_lift (unwrap o) in
  do! gwrite (get_funds_key proposal_id) (VAmount min_proposal_funds) in
  do! gwrite (get_committing_proposals_key proposal_id (init_grace data)) VUnit in
  gov_transfer native_token (init_author data) GOV min_proposal_funds.
Definition vote_proposal (data : VoteProposalData) : st Layers E unit :=
  st_iter (fun delegation => gwrite (get_vote_proposal_key (vp_id data) (vp_voter data) delegation) (VGov (GVote (vp_vote data)))) (vp_delegations data).
(** The votes in the order of their keys; values that are not votes are left out. *)
Definition get_proposal_votes (m : store) (proposal_id : Z) : list Vote :=
  let prefix := get_proposal_vote_prefix_key proposal_id in
  omap (fun e : str * (Key * value) =>
    let '(vote_key, v) := e.2 in
    match as_vote v, get_voter_address vote_key, get_vote_delegation_address vote_key with
    | Some vote, Some delegator_address, Some validator_address => Some (mkGovVote validator_address delegator_address vote)
    | _, _, _ => None
    end)
    (sorted_entries ((fun e => (key_to_string e.1, e)) <$> filter (fun e : Key * value => bool_decide (prefix `prefix_of` e.1)) (map_to_list m))).
(** [u64::try_from_slice]: eight little-endian bytes *)
Definition u64_try_from_slice (bs : list Z) : option Z := if bool_decide (List.length bs = 8%nat) then Some (from_be_bytes (rev bs)) else None.
Definition is_proposal_accepted (m : store) (tx_data : list Z) : bool :=
  match u64_try_from_slice tx_data with
  | Some id => bool_decide (is_Some (m !! get_proposal_execution_key id))
  | None => false
  end.
Definition get_parameters (m : store) : outcome E GovernanceParameters :=
  (let force {A} (dec : value -> option A) k := let* o := read_value GovDecode dec m k in unwrap o in
   let* max_proposal_code_size := force as_u64 get_max_proposal_code_size_key in
   let* max_proposal_content_size := force as_u64 get_max_proposal_content_key in
   let* min_proposal_fund := force as_amount get_min_proposal_fund_key in
   let* min_proposal_grace_epochs := force as_u64 get_min_proposal_grace_epoch_key in
   let* min_proposal_voting_period := force as_u64 get_min_proposal_voting_period_key in
   let* max_proposal_period := force as_u64 get_max_proposal_period_key in
   Ok (mkGovParams min_proposal_fund max_proposal_code_size min_proposal_voting_period max_proposal_period
         max_proposal_content_size min_proposal_grace_epochs))%out.
(** [GovernanceParameters::init_storage] *)
Definition gov_init_storage (p : GovernanceParameters) : st Layers E unit :=
  do! gwrite get_min_proposal_fund_key (VAmount (min_proposal_fund p)) in
  do! gwrite get_max_proposal_code_size_key (VU64 (max_proposal_code_size p)) in
  do! gwrite get_min_proposal_voting_period_key (VU64 (min_proposal_voting_period p)) in
  do! gwrite get_max_proposal_period_key (VU64 (gov_max_proposal_period p)) in
  do! gwrite get_max_proposal_content_key (VU64 (max_proposal_content_size p)) in
  do! gwrite get_min_proposal_grace_epoch_key (VU64 (min_proposal_grace_epochs p)) in
  gwrite get_counter_key (VU64 0).

(** *** [core/src/ledger/storage_api/pgf.rs] *)
Definition steward_key (a : Address) : Key := entry_key stewards_key_prefix a.
Definition funding_key (a : Address) : Key := entry_key fundings_key_prefix a.
(** The entries of a lazy map, in the order of their keys; values that do not
    decode are left out. *)
Definition entries {A} (dec : value -> option A) (pick : Key -> bool) (m : store) : list A :=
  omap (fun e : str * (Key * value) => dec e.2.2)
    (sorted_entries ((fun e => (key_to_string e.1, e)) <$> filter (fun e : Key * value => pick e.1) (map_to_list m))).
Definition get_stewards (m : store) : list StewardDetail := entries as_steward (fun k => bool_decide (is_Some (is_stewards_key k))) m.
Definition get_payments (m : store) : list StoragePgfFunding := entries as_funding is_fundings_key m.
Definition get_steward (m : store) (a : Address) : outcome E (option StewardDetail) := read_value GovDecode as_steward m (steward_key a).
Definition is_steward (m : store) (a : Address) : bool := bool_decide (is_Some (m !! steward_key a)).
(** [LazyMap::insert] and [LazyMap::remove] *)
Definition insert_entry {A} (dec : value -> option A) (k : Key) (v : value) : st Layers E unit := let! _ := gread dec k in gwrite k v.
Definition remove_entry {A} (dec : value -> option A) (k : Key) : st Layers E unit :=
  let! o := gread dec k in match o with Some _ => gdelete k | None => st_ret tt end.
Definition insert_steward (d : StewardDetail) : st Layers E unit := insert_entry as_steward (steward_key (steward_address d)) (VGov (GSteward d)).
Definition remove_steward (a : Address) : st Layers E unit := remove_entry as_steward (steward_key a).
Definition update_commission (address : Address) (distribution : gmap Address Z) : st Layers E unit :=
  insert_steward (mkSteward address distribution).
Definition insert_funding (f : StoragePgfFunding) : st Layers E unit := insert_entry as_funding (funding_key (target (detail f))) (VGov (GFunding f)).
Definition remove_funding (a : Address) : st Layers E unit := remove_entry as_funding (funding_key a).
(** [StewardDetail::base] *)
Definition steward_base (a : Address) : outcome E StewardDetail :=
  (let* one := dec_one in Ok (mkSteward a {[a := one]}))%out.
(** The percentages in the order of the hash map *)
Fixpoint valid_percentages (l : list Z) (one sum : Z) : outcome E bool :=
  match l with
  | [] => Ok (negb (dec_gt sum one))
  | p :: l =>
      (if dec_gt dec_zero p || dec_gt p one then Ok false
       else let* sum := dec_add sum p in valid_percentages l one sum)%out
  end.
Definition is_valid_reward_distribution (d : StewardDetail) : outcome E bool :=
  (let* one := dec_one in valid_percentages (map_to_list (reward_distribution d)).*2 one dec_zero)%out.

(** *** [core/src/ledger/pgf/parameters.rs] *)
Record PgfParameters : Type := mkPgfParams { pgf_stewards : list Address; pgf_inflation_rate : Z; stewards_inflation_rate : Z }.
Definition pgf_init_storage (p : PgfParameters) : st Layers E unit :=
  do! st_iter (fun steward => let! d := st_lift (steward_base steward) in insert_steward d) (pgf_stewards p) in
  do! gwrite get_pgf_inflation_rate_key (VDec (pgf_inflation_rate p)) in
  gwrite get_steward_inflation_rate_key (VDec (stewards_inflation_rate p)).
Definition get_max_proposal_period (m : store) : outcome E Z :=
  (let* o := read_value GovDecode as_u64 m get_max_proposal_period_key in unwrap o)%out.

(** *** [core/src/ledger/pgf/inflation.rs] *)
(** [is_ok] of a result *)
Definition attempt (m : st Layers E unit) : st Layers E unit := fun s =>
  let r := m s in (r.1, match r.2 with Panic => Panic | _ => Ok tt end).
(** [sort_by] on the ids; the sort is stable *)
Definition by_id (a b : StoragePgfFunding) : bool := funding_id a <=? funding_id b.
Definition apply_pgf_inflation (epochs_per_year : Z) : st Layers E unit :=
  let! o := gread as_dec get_pgf_inflation_rate_key in
  let! pgf_inflation_rate := st_lift (unwrap o) in
  let! o := gread as_dec get_steward_inflation_rate_key in
  let! stewards_inflation_rate := st_lift (unwrap o) in
  let! o := gread as_amount (mkey native_token) in
  let! total_tokens := st_lift (unwrap o) in
  let! epochs := st_lift (dec_from_u64 epochs_per_year) in
  let! pgf_pd_rate := st_lift (dec_div pgf_inflation_rate epochs) in
  let! total := st_lift (dec_from_amount total_tokens) in
  let! pgf_inflation := st_lift (dec_mul total pgf_pd_rate) in
  let! pgf_inflation_amount := st_lift (amount_from_dec pgf_inflation) in
  do! gov_credit native_token PGF pgf_inflation_amount in
  let! m := st_get view in
  do! st_iter (fun funding => attempt (gov_transfer native_token PGF (target (detail funding)) (target_amount (detail funding))))
        (sort_le by_id (get_payments m)) in
  let! m := st_get view in
  let stewards := get_stewards m in
  let! pgf_stewards_pd_rate := st_lift (dec_div stewards_inflation_rate epochs) in
  let! pgf_steward_inflation := st_lift (dec_mul total pgf_stewards_pd_rate) in
  st_iter (fun steward => st_iter (fun e : Address * Z =>
      let! o := st_lift (dec_checked_mul pgf_steward_inflation e.2) in
      let pgf_steward_reward := default 0 o in
      let! reward_amount := st_lift (amount_from_dec pgf_steward_reward) in
      attempt (gov_credit native_token e.1 reward_amount)) (map_to_list (reward_distribution steward))) stewards.

(** ** Execution of proposals ([apps/src/lib/node/ledger/shell/governance.rs]) *)
(** [ProposalEvent], with its attributes as numbers *)
Record ProposalEvent : Type := mkEvent { ev_result : TallyResult; ev_id : Z; ev_has_proposal_code : Z; ev_proposal_code_exit_status : Z }.
Definition proposal_event_new (tally : TallyResult) (id : Z) (has_proposal_code proposal_code_exit_status : bool) : ProposalEvent :=
  mkEvent tally id (Z.b2z (negb has_proposal_code)) (Z.b2z (negb proposal_code_exit_status)).
Record ProposalsResult : Type := mkProposals { passed : list Z; rejected : list Z; events : list ProposalEvent }.

Context (params : PosParams) (pos : Pos).
(** [protocol::dispatch_tx] of the transaction of a proposal: the log of the
    transaction, and whether it was accepted; [None] is an error. *)
Context (dispatch_tx : Z -> list Z -> Layers -> log * option bool).
(** The Borsh encoding of a value *)
Context (value_bytes : value -> list Z).

(** [unwrap_or_default] of a result *)
Definition or_default {F} (o : outcome F Z) : outcome E Z := match o with Ok a => Ok a | Err _ => Ok 0 | Panic => Panic end.
Definition add_vote (epoch : Epoch) (votes : ProposalVotes) (vote : Vote) : outcome E ProposalVotes :=
  (if vote_is_validator vote then
     let* validator_stake := or_default (read_total_stake (F:=E) params pos epoch) in
     Ok (mkVotes (<[vote_validator vote := OnChain (vote_data vote)]> (validators_vote votes))
           (<[vote_validator vote := validator_stake]> (validator_voting_power votes)) (delegators_vote votes) (delegator_voting_power votes))
   else
     let* delegator_stake := or_default (bond_amount params pos (vote_delegator vote) (vote_validator vote) epoch) in
     Ok (mkVotes (validators_vote votes) (validator_voting_power votes)
           (<[vote_delegator vote := OnChain (vote_data vote)]> (delegators_vote votes))
           (<[vote_delegator vote := <[vote_validator vote := delegator_stake]> (default ∅ (delegator_voting_power votes !! vote_delegator vote))]>
              (delegator_voting_power votes))))%out.
Definition compute_proposal_votes (m : store) (proposal_id : Z) (epoch : Epoch) : outcome E ProposalVotes :=
  out_fold (add_vote epoch) (get_proposal_votes m proposal_id) (mkVotes ∅ ∅ ∅ ∅).

Definition execute_default_proposal (id : Z) (proposal_code : option (list Z)) : st Layers E bool :=
  match proposal_code with
  | Some code =>
      let pending_execution_key := get_proposal_execution_key id in
      do! gwrite pending_execution_key VUnit in
      fun s =>
        let '(l, tx_result) := dispatch_tx id code s in
        let s := storage_delete pending_execution_key (mkLayers (db s) (block_log s) l) in
        match tx_result with
        | Some true => (layers_commit_tx s, Ok true)
        | Some false => (s, Ok false)
        | None => (layers_drop_tx s, Ok false)
        end
  | None => st_ret true
  end.
Definition execute_pgf_steward_proposal (stewards : list (AddRemove Address)) : st Layers E bool :=
  do! st_iter (fun action =>
        match action with
        | Add address => let! d := st_lift (steward_base address) in insert_steward d
        | Remove address => remove_steward address
        end) stewards in
  st_ret true.
Definition execute_pgf_payment_proposal (token : Address) (payments : list PGFAction) (proposal_id : Z) : st Layers E bool :=
  do! st_iter (fun payment =>
        match payment with
        | Continuous (Add t) => insert_funding (mkFunding t proposal_id)
        | Continuous (Remove t) => remove_funding (target t)
        | Retro t => attempt (gov_transfer token PGF (target t) (target_amount t))
        end) payments in
  st_ret true.

(** [force_read]: an absent value is a panic *)
Definition force_read {A} (dec : value -> option A) (k : Key) : st Layers E A := let! o := gread dec k in st_lift (unwrap o).
(** [read_bytes]: the bytes of any value *)
Definition as_bytes (v : value) : option (list Z) := Some (value_bytes v).
(** What happens to an accepted proposal: the event and the author's address *)
Definition execute_passed (id : Z) (proposal_type : ProposalType) : st Layers E (ProposalEvent * option Address) :=
  let! event :=
    match proposal_type with
    | DefaultProposal _ =>
        let! proposal_code := gread as_bytes (get_proposal_code_key id) in
        let! r := execute_default_proposal id proposal_code in
        st_ret (proposal_event_new Passed id (bool_decide (is_Some proposal_code)) r)
    | PGFSteward stewards => let! r := execute_pgf_steward_proposal stewards in st_ret (proposal_event_new Passed id false r)
    | PGFPayment payments => let! r := execute_pgf_payment_proposal native_token payments id in st_ret (proposal_event_new Passed id false r)
    end in
  let! author := gread as_address (get_author_key id) in
  st_ret (event, author).
Definition execute_rejected (id : Z) (proposal_type : ProposalType) (proposal_author : Address) (r : ProposalResult) : st Layers E (ProposalEvent * option Address) :=
  do! match proposal_type with
      | PGFPayment _ => let! b := st_lift (two_thirds_nay_over_two_thirds_total r) in if b : bool then remove_steward proposal_author else st_ret tt
      | _ => st_ret tt
      end in
  st_ret (proposal_event_new Rejected id false false, None).
Definition execute_proposal (id : Z) : st Layers E (TallyResult * ProposalEvent) :=
  let! funds := force_read as_amount (get_funds_key id) in
  let! proposal_end_epoch := force_read as_u64 (get_voting_end_epoch_key id) in
  let! proposal_type := force_read as_type (get_proposal_type_key id) in
  let! proposal_author := force_read as_address (get_author_key id) in
  let! steward := st_get (fun s => is_steward (view s) proposal_author) in
  let! total_voting_power := st_lift (read_total_stake params pos proposal_end_epoch) in
  let tally_type := tally_type_from proposal_type steward in
  let! m := st_get view in
  let! votes := st_lift (compute_proposal_votes m id proposal_end_epoch) in
  let! proposal_result := st_lift (compute_proposal_result votes (map_to_list (validator_voting_power votes)) (some_delegator_order votes) total_voting_power tally_type) in
  do! gwrite (get_proposal_result_key id) (VGov (GResult proposal_result)) in
  let! r :=
    match tally_result proposal_result with
    | Passed => execute_passed id proposal_type
    | Rejected => execute_rejected id proposal_type proposal_author proposal_result
    end in
  do! match r.2 with
      | Some address => gov_transfer native_token GOV address funds
      | None => gov_burn native_token GOV funds
      end in
  st_ret (tally_result proposal_result, r.1).
(** The ids in the order of the hash set *)
Fixpoint execute_governance_proposals (ids : list Z) (acc : ProposalsResult) : st Layers E ProposalsResult :=
  match ids with
  | [] => st_ret acc
  | id :: ids =>
      let! r := execute_proposal id in
      execute_governance_proposals ids
        match r.1 with
        | Passed => mkProposals (passed acc ++ [id]) (rejected acc) (events acc ++ [r.2])
        | Rejected => mkProposals (passed acc) (rejected acc ++ [id]) (events acc ++ [r.2])
        end
  end.

(** [load_proposals]: the ids under the committing keys of an epoch, from the
    database *)
Definition load_proposals (m : store) (last_epoch : Epoch) : outcome E (list Z) :=
  out_fold (fun ids (e : Key * value) =>
    (let* epoch := unwrap (get_commit_proposal_epoch e.1) in
     if epoch =? last_epoch then Ok (match get_commit_proposal_id e.1 with Some id => ids ++ [id] | None => ids end)
     else Ok ids)%out)
    (filter (fun e : Key * value => bool_decide (get_commiting_proposals_prefix last_epoch `prefix_of` e.1)) (map_to_list m)) [].
End handlers.

(** ** Numbers and keys *)
Lemma digit_of_digit d : 0 <= d <= 9 -> digit_of (digit d) = Some d.
Proof.
  intros Hd. unfold digit_of, digit. rewrite N_ascii_embedding by lia. rewrite Z2N.id by lia. replace (48 + d - 48) with d by lia.
  rewrite (proj2 (Z.leb_le 0 d)), (proj2 (Z.leb_le d 9)) by lia. done.
Qed.
Lemma parse_digits_app a b acc : parse_digits (a ++ b) acc = parse_digits a acc ≫= parse_digits b.
Proof. revert acc. induction a as [|c a IH]; intros acc; [done|]. cbn [app parse_digits]. destruct (digit_of c); [|done]. cbn. destruct (u64_checked_mul acc 10); [|done]. cbn. destruct (u64_checked_add _ _); [|done]. cbn. apply IH. Qed.
Lemma parse_digits_digits fuel n : 0 <= n <= U64_MAX -> n < 10 ^ Z.of_nat fuel -> (0 < fuel)%nat -> parse_digits (digits fuel n) 0 = Some n.
Proof.
  revert n. induction fuel as [|fuel IH]; intros n Hn Hlt Hf; [lia|]. cbn [digits].
  assert (forall d a m, 0 <= d <= 9 -> m = a * 10 -> 0 <= a -> m + d <= U64_MAX -> parse_digits [digit d] a = Some (m + d)) as Hone.
  { intros d a m Hd -> Ha Hm. cbn [parse_digits]. rewrite digit_of_digit by done. cbn. unfold u64_checked_mul, u64_checked_add.
    rewrite (proj2 (Z.leb_le _ _)) by (unfold U64_MAX in *; lia). cbn. by rewrite (proj2 (Z.leb_le _ _)) by (unfold U64_MAX in *; lia). }
  destruct (Z.ltb_spec n 10) as [Hs|Hs].
  - rewrite (Hone n 0 0) by lia. done.
  - pose proof (Z.div_mod n 10 ltac:(lia)). pose proof (Z.mod_pos_bound n 10 ltac:(lia)). assert (0 <= n / 10) by (apply Z.div_pos; lia).
    assert (fuel <> O) as Hne by (intros ->; cbn in Hlt; lia).
    assert (n / 10 < 10 ^ Z.of_nat fuel). { apply Z.div_lt_upper_bound; [lia|]. rewrite Nat2Z.inj_succ, Z.pow_succ_r in Hlt by lia. lia. }
    rewrite parse_digits_app, IH by lia. cbn [mbind option_bind]. rewrite (Hone _ _ (n / 10 * 10)) by lia. f_equal. lia.
Qed.
Lemma digits_are_digits fuel n : 0 <= n -> Forall (fun c => is_Some (digit_of c)) (digits fuel n).
Proof.
  revert n. induction fuel as [|fuel IH]; intros n Hn; [constructor|]. cbn [digits]. destruct (Z.ltb_spec n 10).
  - constructor; [|constructor]. rewrite digit_of_digit by lia. eauto.
  - apply Forall_app. split; [apply IH, Z.div_pos; lia|]. constructor; [|constructor]. pose proof (Z.mod_pos_bound n 10 ltac:(lia)). rewrite digit_of_digit by lia. eauto.
Qed.
(** Printing and parsing a number is the identity. *)
Lemma u64_parse_to_string n : 0 <= n <= U64_MAX -> u64_parse (u64_to_string n) = Some n.
Proof.
  intros Hn. assert (parse_digits (u64_to_string n) 0 = Some n) as Hp by (apply parse_digits_digits; [done|unfold U64_MAX in *; cbn; lia|lia]).
  pose proof (digits_are_digits 20 n ltac:(lia)) as Hd. unfold u64_parse. fold (u64_to_string n) in Hd. destruct (u64_to_string n) as [|c s] eqn:Hs; [|].
  - exfalso. unfold u64_to_string in Hs. cbn [digits] in Hs. destruct (n <? 10); [done|]. by apply app_nil in Hs as [_ ?].
  - apply list.Forall_cons in Hd as [[d Hc] _]. rewrite bool_decide_false; [done|]. intros ->. vm_compute in Hc. done.
Qed.
Lemma number_no_sep n : 0 <= n -> KEY_SEGMENT_SEPARATOR ∉ u64_to_string n.
Proof.
  intros Hn Hin. pose proof (digits_are_digits 20 n Hn) as Hd. rewrite list.Forall_forall in Hd. destruct (Hd _ Hin) as [d Hc]. vm_compute in Hc. done.
Qed.
Lemma get_proposal_id_field f id : 0 <= id <= U64_MAX -> get_proposal_id (field_key f id) = Some id.
Proof. intros Hid. unfold get_proposal_id, number_at, field_key. cbn. by apply u64_parse_to_string. Qed.
Lemma is_field_key_field f g id : 0 <= id <= U64_MAX -> is_field_key f (field_key g id) = str_is g f.
Proof.
  intros Hid. unfold is_field_key, field_key, proposal_prefix, gov_prefix. cbn [app]. unfold is_gov, str_is. rewrite !bool_decide_true by done. cbn [andb].
  rewrite (bool_decide_true (is_Some _)); [by rewrite andb_true_r|]. rewrite u64_parse_to_string by done. eauto.
Qed.
(** Pushing the segments of a key never fails. *)
Lemma push_segment {C : AddressCodec} {HC : AddressCodecLaws C} {E} k n : 0 <= n -> push_expect (E:=E) k (u64_to_string n) = Ok (k ++ [StringSeg (u64_to_string n)]).
Proof.
  intros Hn. apply push_expect_lit. split; [by apply number_no_sep|]. pose proof (digits_are_digits 20 n Hn) as Hd. fold (u64_to_string n) in Hd.
  destruct (u64_to_string n) as [|c s]; [done|]. apply list.Forall_cons in Hd as [[d Hc] _]. intros [= ->]. vm_compute in Hc. done.
Qed.

(** ** The tally *)
(** The sides of a vote *)
Inductive side : Type := SYay | SNay | SAbstain.
#[export] Instance side_eq_dec : EqDecision side.
Proof. solve_decision. Defined.
Definition side_of (v : StorageProposalVote) : side := match v with Yay _ => SYay | Nay => SNay | Abstain => SAbstain end.
Definition power (s : side) (t : Tally) : Z := match s with SYay => yay t | SNay => nay t | SAbstain => abstain t end.
Definition move (s : side) (x : Z) (t : Tally) : Tally :=
  match s with
  | SYay => mkTally (yay t + x) (nay t) (abstain t)
  | SNay => mkTally (yay t) (nay t + x) (abstain t)
  | SAbstain => mkTally (yay t) (nay t) (abstain t + x)
  end.
Definition all_power (t : Tally) : Z := yay t + nay t + abstain t.
Definition on_side (s : side) (o : option TallyVote) : bool :=
  match o with Some (OnChain v) => bool_decide (side_of v = s) | _ => false end.
Definition if_side (s : side) (o : option TallyVote) (x : Z) : Z := if on_side s o then x else 0.
(** All votes are votes of the chain. *)
Definition on_chain (m : gmap Address TallyVote) : Prop := forall a v, m !! a = Some v -> exists w, v = OnChain w.

(** What the votes give to a side: the power of its validators, and every
    delegation whose delegator voted moved from the side of its validator to the
    side of the delegator *)
Definition validators_power (votes : ProposalVotes) (l : list (Address * Z)) (s : side) : Z :=
  sumZ ((fun e => if_side s (validators_vote votes !! e.1) e.2) <$> l).
Definition given (votes : ProposalVotes) (s : side) (d : Address) (e : Address * Z) : Z := if_side s (delegators_vote votes !! d) e.2.
Definition taken (votes : ProposalVotes) (s : side) (d : Address) (e : Address * Z) : Z :=
  if bool_decide (is_Some (delegators_vote votes !! d)) then if_side s (validators_vote votes !! e.1) e.2 else 0.
Definition over (f : Address -> Address * Z -> Z) (l : list (Address * list (Address * Z))) : Z :=
  sumZ ((fun e => sumZ (f e.1 <$> e.2)) <$> l).
Definition counted (votes : ProposalVotes) (vl : list (Address * Z)) (dl : list (Address * list (Address * Z))) (s : side) : Z :=
  validators_power votes vl s + over (given votes s) dl - over (taken votes s) dl.

Section tally_lemmas.
Context {U : UintOps} {HU : UintLaws U} {E : Type}.

Lemma power_move s r x t : power s (move r x t) = power s t + if decide (s = r) then x else 0.
Proof. destruct s, r; cbn [power move yay nay abstain]; rewrite ?Z.add_0_r; done. Qed.
Lemma all_power_move r x t : all_power (move r x t) = all_power t + x.
Proof. unfold all_power. destruct r; cbn; lia. Qed.
Definition tally_ok (B : Z) (t : Tally) : Prop := (forall s, 0 <= power s t) /\ all_power t <= B.
Lemma tally_power_le B t s : tally_ok B t -> power s t <= B.
Proof. intros [H0 HB]. unfold all_power in HB. pose proof (H0 SYay). pose proof (H0 SNay). pose proof (H0 SAbstain). destruct s; cbn in *; lia. Qed.

Lemma count_ok B v x t : B <= MAX_VALUE -> tally_ok B t -> 0 <= x -> all_power t + x <= B ->
  count (E:=E) (OnChain v) x t = Ok (move (side_of v) x t) /\ tally_ok B (move (side_of v) x t).
Proof using HU.
  intros HB Ht Hx Hsum. pose proof (tally_power_le _ _ (side_of v) Ht) as Hp. destruct Ht as [H0 Ha]. pose proof (H0 SYay) as H1. pose proof (H0 SNay) as H2. pose proof (H0 SAbstain) as H3.
  cbn in H1, H2, H3. unfold all_power in *. split.
  - unfold count, add_yay, add_nay, add_abstain, amount_add. destruct v; cbn [tv_is_yay tv_is_nay tv_is_abstain is_yay is_nay is_abstain side_of move];
      rewrite uint_add_ok by (unfold in_u256; lia); done.
  - split; [intros s; rewrite power_move; pose proof (H0 s); case_decide; lia|]. fold (all_power (move (side_of v) x t)). rewrite all_power_move. unfold all_power. lia.
Qed.
Lemma tally_validators_ok votes B l t : B <= MAX_VALUE -> on_chain (validators_vote votes) -> (forall e, e ∈ l -> 0 <= e.2) -> tally_ok B t -> all_power t + sumZ l.*2 <= B ->
  exists t', out_fold (E:=E) (tally_validator votes) l t = Ok t' /\ tally_ok B t' /\ (forall s, power s t' = power s t + validators_power votes l s) /\
    all_power t' <= all_power t + sumZ l.*2.
Proof using HU.
  intros HB Hon. revert t. induction l as [|[v x] l IH]; intros t Hl Ht Hsum.
  { exists t. split; [done|]. split; [done|]. unfold validators_power. cbn. rewrite !sumZ_nil. split; [intros; lia|lia]. }
  cbn [out_fold]. rewrite !fmap_cons, !sumZ_cons in *. cbn [snd] in *. pose proof (Hl (v, x) ltac:(set_solver)) as Hx. cbn in Hx.
  assert (0 <= sumZ l.*2) by (apply sum_map_nonneg; intros e He; apply Hl; set_solver).
  unfold tally_validator at 1. cbn [fst snd]. unfold validators_power. setoid_rewrite fmap_cons. setoid_rewrite sumZ_cons. cbn [fst snd]. unfold if_side at 1.
  destruct (validators_vote votes !! v) as [w|] eqn:Hv; cbn [out_bind].
  - destruct (Hon v w Hv) as [w' ->]. destruct (count_ok B w' x t) as [-> Ht1]; [done|done|done|lia|]. cbn [out_bind].
    destruct (IH (move (side_of w') x t)) as (t' & Hrun & Ht' & Hpow & Hall); [set_solver|done|rewrite all_power_move; lia|].
    exists t'. split; [done|]. split; [done|]. rewrite all_power_move in Hall. split; [|lia]. intros s. rewrite Hpow, power_move. unfold validators_power. cbn [on_side].
    case_bool_decide; case_decide; try congruence; lia.
  - destruct (IH t) as (t' & Hrun & Ht' & Hpow & Hall); [set_solver|done|lia|]. exists t'. split; [done|]. split; [done|]. split; [|lia]. intros s. rewrite Hpow. unfold validators_power. cbn. lia.
Qed.
Lemma same_side v w : is_same_side v w = bool_decide (side_of v = side_of w).
Proof. by destruct v, w. Qed.
(** One delegation: its power moves from the side of the validator to the side of
    the delegator. [r] is what the following delegations still take. *)
Lemma tally_delegation_ok votes B u v x t (r : side -> Z) : B <= MAX_VALUE -> on_chain (validators_vote votes) -> 0 <= x -> tally_ok B t -> all_power t + x <= B ->
  (forall s, 0 <= r s) -> (forall s, if_side s (validators_vote votes !! v) x + r s <= power s t) ->
  exists t', tally_delegation (E:=E) votes (OnChain u) (Some t) (v, x) = Ok (Some t') /\ tally_ok B t' /\ all_power t' <= all_power t + x /\
    (forall s, power s t' = power s t + (if decide (s = side_of u) then x else 0) - if_side s (validators_vote votes !! v) x) /\ (forall s, r s <= power s t').
Proof using HU.
  intros HB Hon Hx Ht Hsum Hr Hcov. cbn [tally_delegation]. destruct (validators_vote votes !! v) as [w|] eqn:Hv.
  - destruct (Hon v w Hv) as [w' ->]. cbn [tv_is_same_side]. rewrite same_side. unfold if_side in *. cbn [on_side] in *. destruct (decide (side_of w' = side_of u)) as [He|Hne].
    + rewrite bool_decide_true by done. exists t. split; [done|]. split; [done|]. split; [lia|]. split.
      * intros s. rewrite He. case_bool_decide; case_decide; try congruence; lia.
      * intros s. specialize (Hcov s). case_bool_decide; lia.
    + rewrite bool_decide_false by done. set (t1 := move (side_of u) x t). set (t' := move (side_of w') (- x) t1).
      assert (x + r (side_of w') <= power (side_of w') t) as Hw by (specialize (Hcov (side_of w')); by rewrite bool_decide_true in Hcov).
      assert (forall s, power s t' = power s t + (if decide (s = side_of u) then x else 0) - if bool_decide (side_of w' = s) then x else 0) as Hpow.
      { intros s. unfold t', t1. rewrite !power_move. case_bool_decide; repeat case_decide; try congruence; lia. }
      assert (all_power t' = all_power t) as Hall by (unfold t', t1; rewrite !all_power_move; lia).
      pose proof (fun s => tally_power_le B t s Ht) as Hle. destruct Ht as [H0 Ha]. pose proof (Hr (side_of w')) as Hrw. exists t'. split_and!.
      * pose proof (H0 SYay) as A1. pose proof (H0 SNay) as A2. pose proof (H0 SAbstain) as A3. unfold t', t1, all_power, add_yay, add_nay, add_abstain, sub_yay, sub_nay, sub_abstain, amount_add, amount_sub in *.
        destruct u, w'; try done; cbn in A1, A2, A3, Hw, Hrw; cbn [tv_is_yay tv_is_nay tv_is_abstain is_yay is_nay is_abstain side_of move];
          rewrite uint_add_ok by (unfold in_u256; lia); cbn [out_bind yay nay abstain]; rewrite uint_sub_ok by (unfold in_u256; lia); cbn [out_bind]; done.
      * split; [|lia]. intros s. rewrite Hpow. pose proof (H0 s). specialize (Hcov s). pose proof (Hr s). case_bool_decide; case_decide; try congruence; lia.
      * lia.
      * done.
      * intros s. rewrite Hpow. pose proof (H0 s). specialize (Hcov s). case_bool_decide; case_decide; try congruence; lia.
  - destruct (count_ok B u x t) as [-> Ht1]; [done|done|done|done|]. cbn [out_bind]. exists (move (side_of u) x t). split; [done|]. split; [done|]. rewrite all_power_move. split; [lia|]. unfold if_side in *. cbn [on_side] in *. split.
    + intros s. rewrite power_move. lia.
    + intros s. rewrite power_move. specialize (Hcov s). case_decide; lia.
Qed.
Lemma tally_delegations_ok votes B d u l t (r : side -> Z) : B <= MAX_VALUE -> on_chain (validators_vote votes) -> delegators_vote votes !! d = Some (OnChain u) ->
  (forall e, e ∈ l -> 0 <= e.2) -> tally_ok B t -> all_power t + sumZ l.*2 <= B -> (forall s, 0 <= r s) -> (forall s, sumZ (taken votes s d <$> l) + r s <= power s t) ->
  exists t', out_fold (E:=E) (tally_delegation votes (OnChain u)) l (Some t) = Ok (Some t') /\ tally_ok B t' /\ all_power t' <= all_power t + sumZ l.*2 /\
    (forall s, power s t' = power s t + sumZ (given votes s d <$> l) - sumZ (taken votes s d <$> l)) /\ (forall s, r s <= power s t').
Proof using HU.
  intros HB Hon Hd. revert t. induction l as [|[v x] l IH]; intros t Hl Ht Hsum Hr Hcov.
  { exists t. split; [done|]. split; [done|]. rewrite !fmap_nil, !sumZ_nil in *. split; [lia|]. split; [|intros s; specialize (Hcov s); rewrite fmap_nil, sumZ_nil in Hcov; lia].
    intros s. rewrite !fmap_nil, !sumZ_nil. lia. }
  rewrite fmap_cons, sumZ_cons in *. cbn [snd] in *. pose proof (Hl (v, x) ltac:(set_solver)) as Hx. cbn in Hx.
  assert (0 <= sumZ l.*2) by (apply sum_map_nonneg; intros e He; apply Hl; set_solver).
  assert (forall s, 0 <= sumZ (taken votes s d <$> l)) as Htk.
  { intros s. apply sum_map_nonneg. intros e He. unfold taken, if_side. specialize (Hl e ltac:(set_solver)). case_bool_decide; [|lia]. destruct (on_side _ _); lia. }
  assert (forall s, taken votes s d (v, x) = if_side s (validators_vote votes !! v) x) as Htv.
  { intros s. unfold taken. cbn [fst snd]. rewrite bool_decide_true; [done|]. rewrite Hd. eauto. }
  assert (forall s, given votes s d (v, x) = if decide (s = side_of u) then x else 0) as Hgv.
  { intros s. unfold given, if_side. rewrite Hd. cbn [on_side snd]. case_bool_decide; case_decide; congruence. }
  destruct (tally_delegation_ok votes B u v x t (fun s => sumZ (taken votes s d <$> l) + r s)) as (t1 & Hrun1 & Ht1 & Hall1 & Hpow1 & Hr1); [done|done|done|done|lia| | |].
  { intros s. pose proof (Htk s). specialize (Hr s). lia. }
  { intros s. specialize (Hcov s). rewrite fmap_cons, sumZ_cons, Htv in Hcov. lia. }
  destruct (IH t1) as (t' & Hrun & Ht' & Hall & Hpow & Hr'); [intros e He; apply Hl; set_solver|done|lia|done|done|].
  exists t'. cbn [out_fold]. rewrite Hrun1. cbn [out_bind]. split; [done|]. split; [done|]. split; [lia|]. split; [|done].
  intros s. rewrite Hpow, Hpow1, !fmap_cons, !sumZ_cons, Htv, Hgv. lia.
Qed.
Lemma tally_delegators_ok votes B l t : B <= MAX_VALUE -> on_chain (validators_vote votes) -> on_chain (delegators_vote votes) ->
  (forall e x, e ∈ l -> x ∈ e.2 -> 0 <= x.2) -> tally_ok B t -> all_power t + over (fun _ e => e.2) l <= B -> (forall s, over (taken votes s) l <= power s t) ->
  exists t', out_fold (E:=E) (tally_delegator votes) l (Some t) = Ok (Some t') /\ tally_ok B t' /\
    (forall s, power s t' = power s t + over (given votes s) l - over (taken votes s) l).
Proof using HU.
  intros HB Hon Hdn. revert t. induction l as [|[d k] l IH]; intros t Hl Ht Hsum Hcov.
  { exists t. split; [done|]. split; [done|]. intros s. unfold over. rewrite !fmap_nil, !sumZ_nil. lia. }
  unfold over in Hsum, Hcov. rewrite fmap_cons, sumZ_cons in Hsum. fold (over (fun _ e => e.2) l) in Hsum. cbn [fst snd] in Hsum.
  change (sumZ ((fun e : Address * Z => e.2) <$> k)) with (sumZ k.*2) in Hsum.
  assert (forall s, sumZ (taken votes s d <$> k) + over (taken votes s) l <= power s t) as Hcov' by (intros s; specialize (Hcov s); by rewrite fmap_cons, sumZ_cons in Hcov).
  assert (forall s, 0 <= over (taken votes s) l) as Hnn.
  { intros s. apply sum_map_nonneg. intros e He. apply sum_map_nonneg. intros x Hx. unfold taken, if_side. specialize (Hl e x ltac:(set_solver) Hx). case_bool_decide; [|lia]. destruct (on_side _ _); lia. }
  assert (0 <= sumZ k.*2) by (apply sum_map_nonneg; intros x Hx; apply (Hl (d, k)); set_solver).
  assert (0 <= over (fun _ e => e.2) l) by (apply sum_map_nonneg; intros e He; apply sum_map_nonneg; intros x Hx; apply (Hl e); set_solver).
  cbn [out_fold]. unfold tally_delegator at 1. cbn [fst snd].
  destruct (delegators_vote votes !! d) as [u|] eqn:Hd.
  - destruct (Hdn d u Hd) as [u' ->]. destruct (tally_delegations_ok votes B d u' k t (fun s => over (taken votes s) l)) as (t1 & Hrun1 & Ht1 & Hall1 & Hpow1 & Hr1); auto.
    { intros x Hx. apply (Hl (d, k)); set_solver. }
    { lia. }
    rewrite Hrun1. cbn [out_bind]. destruct (IH t1) as (t' & Hrun & Ht' & Hpow); auto; [intros e x He; apply Hl; set_solver|lia|].
    exists t'. split; [done|]. split; [done|]. intros s. rewrite Hpow, Hpow1. unfold over. rewrite !fmap_cons, !sumZ_cons. cbn [fst snd]. lia.
  - cbn [out_bind]. assert (forall s, sumZ (given votes s d <$> k) = 0 /\ sumZ (taken votes s d <$> k) = 0) as Hz.
    { intros s. unfold given, taken. rewrite Hd, bool_decide_false by (intros [? ?]; done). unfold if_side. cbn [on_side].
      clear. induction k as [|e k [IH1 IH2]]; [done|]. rewrite !fmap_cons, !sumZ_cons. lia. }
    destruct (IH t) as (t' & Hrun & Ht' & Hpow); auto; [intros e x He; apply Hl; set_solver|lia|intros s; specialize (Hcov' s); destruct (Hz s); lia|].
    exists t'. split; [done|]. split; [done|]. intros s. rewrite Hpow. unfold over. rewrite !fmap_cons, !sumZ_cons. cbn [fst snd]. destruct (Hz s). lia.
Qed.
End tally_lemmas.

(** The sums do not depend on the orders of the maps. *)
Lemma validators_power_order votes l s : validator_order votes l -> validators_power votes l s = validators_power votes (map_to_list (validator_voting_power votes)) s.
Proof. intros Hl. unfold validators_power. by rewrite Hl. Qed.
Lemma over_order f votes l : delegator_order votes l -> over f l = over f (some_delegator_order votes).
Proof.
  intros (l' & Hp & Hf). transitivity (sumZ ((fun e : Address * gmap Address Z => sumZ (f e.1 <$> map_to_list e.2)) <$> l')).
  - unfold over. induction Hf as [|e e' l l' [H1 H2] Hf IH] in Hp |- *; [done|]. rewrite !fmap_cons, !sumZ_cons, H1, H2. f_equal. clear -Hf. induction Hf as [|a a' l l' [H1 H2] Hf IH]; [done|]. rewrite !fmap_cons, !sumZ_cons, H1, H2. by f_equal.
  - rewrite Hp. unfold over, some_delegator_order. by rewrite <- list_fmap_compose.
Qed.
Lemma delegator_order_elem votes l e x : delegator_order votes l -> e ∈ l -> x ∈ e.2 -> exists m, delegator_voting_power votes !! e.1 = Some m /\ m !! x.1 = Some x.2.
Proof.
  intros (l' & Hp & Hf) He Hx. apply list_elem_of_lookup in He as [i Hi]. destruct (Forall2_lookup_l _ _ _ _ _ Hf Hi) as ([d m] & Hi' & H1 & H2). cbn in *.
  exists m. split; [|rewrite H2 in Hx; destruct x; by apply elem_of_map_to_list in Hx]. rewrite H1. apply elem_of_map_to_list. rewrite <- Hp. by eapply list_elem_of_lookup_2.
Qed.

(** What the code decides, on values *)
Definition verdict (tally_at : TallyType) (c : side -> Z) (total : Z) : bool :=
  let cast := c SYay + c SNay + c SAbstain in
  match tally_at with
  | TwoThirds => total * 2 / 3 <=? c SYay
  | OneHalfOverOneThird => (total / 3 <=? cast) && (c SNay <=? c SYay)
  | LessOneHalfOverOneThirdNay => (cast <? total / 3) || (c SNay <? c SYay)
  end.
(** The power of those who took part: the validators who voted, and the
    delegators who voted with validators who did not *)
Definition not_voted (votes : ProposalVotes) (d : Address) (e : Address * Z) : Z :=
  if bool_decide (is_Some (delegators_vote votes !! d) /\ validators_vote votes !! e.1 = None) then e.2 else 0.
Definition voted_power (votes : ProposalVotes) : Z :=
  sumZ ((fun e => if bool_decide (is_Some (validators_vote votes !! e.1)) then e.2 else 0) <$> map_to_list (validator_voting_power votes)) +
  over (not_voted votes) (some_delegator_order votes).
Definition counted_all (votes : ProposalVotes) : side -> Z := counted votes (map_to_list (validator_voting_power votes)) (some_delegator_order votes).
Record votes_ok (votes : ProposalVotes) : Prop := {
  vo_validators : on_chain (validators_vote votes);
  vo_delegators : on_chain (delegators_vote votes);
  vo_powers : forall v x, validator_voting_power votes !! v = Some x -> 0 <= x;
  vo_delegations : forall d m v x, delegator_voting_power votes !! d = Some m -> m !! v = Some x -> 0 <= x;
  (* what delegators can take from the validators of a side is theirs *)
  vo_covered : forall s, over (taken votes s) (some_delegator_order votes) <= validators_power votes (map_to_list (validator_voting_power votes)) s;
  vo_fits : sumZ (map_to_list (validator_voting_power votes)).*2 + over (fun _ e => e.2) (some_delegator_order votes) <= MAX_VALUE
}.
Section tally_result.
Context {U : UintOps} {HU : UintLaws U} {E : Type}.
Lemma tally_result_ok tt t total : (forall s, 0 <= power s t) -> all_power t <= MAX_VALUE -> 0 <= total -> total * 2 <= MAX_VALUE ->
  tally_result_new (E:=E) tt t total = Ok (if verdict tt (fun s => power s t) total then Passed else Rejected).
Proof using HU.
  intros H0 Ha Ht HT. pose proof (H0 SYay) as H1. pose proof (H0 SNay) as H2. pose proof (H0 SAbstain) as H3. cbn in H1, H2, H3. unfold all_power in Ha.
  assert (forall z, 0 <= z <= MAX_VALUE -> in_u256 z) as Hin by done. unfold tally_result_new, verdict, amount_mul, amount_div_u64, amount_add. cbn [power].
  destruct tt.
  - rewrite uint_mul_eq by (apply Hin; lia || (apply Hin; vm_compute; split; discriminate)). rewrite (proj2 (Z.leb_le _ _)) by lia. cbn [out_bind].
    rewrite uint_div_eq by (apply Hin; lia || (apply Hin; vm_compute; split; discriminate)). done.
  - rewrite !uint_add_ok by (apply Hin; lia || lia). cbn [out_bind]. rewrite !uint_add_ok by (apply Hin; lia || lia). cbn [out_bind].
    rewrite uint_div_eq by (apply Hin; lia || (apply Hin; vm_compute; split; discriminate)). done.
  - rewrite !uint_add_ok by (apply Hin; lia || lia). cbn [out_bind]. rewrite !uint_add_ok by (apply Hin; lia || lia). cbn [out_bind].
    rewrite uint_div_eq by (apply Hin; lia || (apply Hin; vm_compute; split; discriminate)). done.
Qed.
Lemma compute_result_ok votes vl dl total tt : votes_ok votes -> validator_order votes vl -> delegator_order votes dl -> 0 <= total -> total * 2 <= MAX_VALUE ->
  compute_proposal_result (E:=E) votes vl dl total tt =
    Ok (mkResult (if verdict tt (counted_all votes) total then Passed else Rejected) total (counted_all votes SYay) (counted_all votes SNay) (counted_all votes SAbstain)).
Proof using HU.
  intros [Hv Hd Hvp Hdp Hcov Hfit] Hvl Hdl Ht HT. set (B := sumZ vl.*2 + over (fun _ e => e.2) dl).
  assert (B <= MAX_VALUE) as HB by (unfold B; rewrite (over_order _ votes dl Hdl); rewrite Hvl; done).
  assert (forall e, e ∈ vl -> 0 <= e.2) as Hvn by (intros [v x] He; rewrite Hvl in He; apply elem_of_map_to_list in He; by eapply Hvp).
  assert (forall e x, e ∈ dl -> x ∈ e.2 -> 0 <= x.2) as Hdn by (intros e x He Hx; destruct (delegator_order_elem votes dl e x Hdl He Hx) as (m & H1 & H2); by eapply Hdp).
  assert (0 <= over (fun _ e => e.2) dl) by (apply sum_map_nonneg; intros e He; apply sum_map_nonneg; intros x Hx; by eapply Hdn).
  assert (0 <= sumZ vl.*2) by (by apply sum_map_nonneg).
  destruct (tally_validators_ok (E:=E) votes B vl (mkTally 0 0 0)) as (t1 & Hrun1 & Ht1 & Hpow1 & Hall1); auto.
  { split; [intros []; cbn; lia|unfold all_power; cbn; lia]. }
  { unfold all_power. cbn. lia. }
  assert (forall s, power s t1 = validators_power votes vl s) as Hpow1' by (intros s; rewrite Hpow1; destruct s; cbn; lia).
  destruct (tally_delegators_ok (E:=E) votes B dl t1) as (t & Hrun & Ht2 & Hpow); auto.
  { unfold B. unfold all_power at 2 in Hall1. cbn in Hall1. lia. }
  { intros s. rewrite (over_order _ votes dl Hdl), Hpow1', (validators_power_order votes vl s Hvl). apply Hcov. }
  assert (forall s, power s t = counted_all votes s) as Hfin.
  { intros s. rewrite Hpow, Hpow1'. unfold counted_all, counted. rewrite !(over_order _ votes dl Hdl), (validators_power_order votes vl s Hvl). done. }
  unfold compute_proposal_result. rewrite Hrun1. cbn [out_bind]. rewrite Hrun. cbn [out_bind]. rewrite tally_result_ok; [|apply Ht2|destruct Ht2; lia|done|done].
  cbn [out_bind]. rewrite <- (Hfin SYay), <- (Hfin SNay), <- (Hfin SAbstain). unfold verdict. cbn [power]. rewrite <- (Hfin SYay), <- (Hfin SNay), <- (Hfin SAbstain). done.
Qed.
End tally_result.

Lemma over_plus f g l : over (fun d e => f d e + g d e) l = over f l + over g l.
Proof. unfold over. rewrite <- sum_plus. f_equal. apply list_fmap_ext. intros i e _. by rewrite <- sum_plus. Qed.
Lemma over_ext f g l : (forall d e, f d e = g d e) -> over f l = over g l.
Proof. intros Hfg. unfold over. f_equal. apply list_fmap_ext. intros i e _. f_equal. apply list_fmap_ext. intros j x _. apply Hfg. Qed.
(** Everything that is counted is counted once. *)
Lemma counted_total votes : votes_ok votes -> counted_all votes SYay + counted_all votes SNay + counted_all votes SAbstain = voted_power votes.
Proof.
  intros Hv. unfold counted_all, counted, voted_power. set (dl := some_delegator_order votes). set (vl := map_to_list _).
  assert (forall o x, (forall v, o = Some v -> exists w, v = OnChain w) -> if_side SYay o x + if_side SNay o x + if_side SAbstain o x = if bool_decide (is_Some o) then x else 0) as Hside.
  { intros o x Ho. destruct o as [v|]; [|done]. destruct (Ho v eq_refl) as [w ->]. rewrite bool_decide_true by eauto. unfold if_side. cbn [on_side]. destruct w; cbn [side_of]; repeat case_bool_decide; try congruence; lia. }
  assert (validators_power votes vl SYay + validators_power votes vl SNay + validators_power votes vl SAbstain =
    sumZ ((fun e => if bool_decide (is_Some (validators_vote votes !! e.1)) then e.2 else 0) <$> vl)) as Hvs.
  { unfold validators_power. rewrite <- !sum_plus. f_equal. apply list_fmap_ext. intros i e _. apply Hside. intros v Hl. by eapply (vo_validators _ Hv). }
  assert (over (given votes SYay) dl + over (given votes SNay) dl + over (given votes SAbstain) dl =
    over (not_voted votes) dl + (over (taken votes SYay) dl + over (taken votes SNay) dl + over (taken votes SAbstain) dl)) as Hds; [|lia].
  rewrite <- !over_plus. apply over_ext. intros d e. unfold given, taken, not_voted.
  rewrite Hside by (intros v Hl; by eapply (vo_delegators _ Hv)). repeat case_bool_decide; rewrite ?Hside by (intros v Hl; by eapply (vo_validators _ Hv)); try case_bool_decide; try lia; exfalso;
    destruct (validators_vote votes !! e.1) eqn:?; naive_solver.
Qed.

(** ** Theorems *)
Section tally_theorems.
Context {U : UintOps} {HU : UintLaws U} {E : Type}.
(** C13. The tally of a proposal is right and does not depend on the orders of the
    hash maps: a side gets the power of the validators that voted for it, with
    every delegation of a delegator that voted moved to the side of the delegator;
    no unit of power is lost or counted twice, so the three sums add up to the
    power of those who took part; and the proposal passes exactly when the
    thresholds of its kind hold of these sums. *)
Theorem tally_counts_once votes vl dl total tt : votes_ok votes -> validator_order votes vl -> delegator_order votes dl -> 0 <= total -> total * 2 <= MAX_VALUE ->
  compute_proposal_result (E:=E) votes vl dl total tt =
    Ok (mkResult (if verdict tt (counted_all votes) total then Passed else Rejected) total (counted_all votes SYay) (counted_all votes SNay) (counted_all votes SAbstain)) /\
  counted_all votes SYay + counted_all votes SNay + counted_all votes SAbstain = voted_power votes.
Proof using HU. intros Hv Hvl Hdl Ht HT. split; [by apply compute_result_ok|by apply counted_total]. Qed.
End tally_theorems.

(** When the predicate lets a validator vote, the client does; not the other way
    round, since the predicate rounds the duration down. *)
Lemma voting_periods_agree {E} (start end_ current : Z) : 0 <= start <= current -> end_ * 3 <= U64_MAX ->
  is_valid_validator_voting_period (E:=E) current start end_ = Ok true -> can_be_voted (E:=E) start end_ current true = Ok true.
Proof.
  intros Hs Hm. unfold is_valid_validator_voting_period. destruct (Z.leb_spec end_ start); [done|]. unfold epoch_sub. rewrite u64_sub_ok by lia. cbn [out_bind].
  pose proof (Z.div_mod (end_ - start) 3 ltac:(lia)) as Hd. pose proof (Z.mod_pos_bound (end_ - start) 3 ltac:(lia)) as Hb.
  unfold u64_mul, u64_checked_mul. rewrite (proj2 (Z.leb_le _ _)) by lia. cbn [unwrap out_bind]. unfold epoch_add. rewrite u64_add_ok by lia. cbn [out_bind]. intros [= Hc%Z.leb_le].
  unfold can_be_voted, u64_mul, u64_checked_mul, epoch_add. rewrite (proj2 (Z.leb_le start current)), !(proj2 (Z.leb_le _ U64_MAX)) by lia. cbn [unwrap out_bind].
  rewrite u64_add_ok by lia. cbn [out_bind]. by rewrite (proj2 (Z.leb_le _ _)) by lia.
Qed.
Lemma voting_periods_differ : is_valid_validator_voting_period (E:=GovError) 3 0 5 = Ok false /\ can_be_voted (E:=GovError) 0 5 3 true = Ok true.
Proof. by vm_compute. Qed.

(** *** The votes that the node counts *)
Section counting.
Context {U : UintOps} {HU : UintLaws U} {C : AddressCodec} (params : PosParams) (pos : Pos).
Definition cast_votes (m : gmap Address TallyVote) (l : list Vote) : gmap Address TallyVote :=
  foldl (fun m v => <[vote_validator v := OnChain (vote_data v)]> m) m l.
(** The votes of validators *)
Definition validators_only (T : Z) (votes : ProposalVotes) : Prop :=
  delegators_vote votes = ∅ /\ delegator_voting_power votes = ∅ /\ validator_voting_power votes = (fun _ => T) <$> validators_vote votes.
Lemma add_votes_validators T epoch l votes : read_total_stake (F:=GovError) params pos epoch = Ok T -> (forall v, v ∈ l -> vote_is_validator v) -> validators_only T votes ->
  exists votes', out_fold (add_vote params pos epoch) l votes = Ok votes' /\ validators_only T votes' /\
    validators_vote votes' = cast_votes (validators_vote votes) l.
Proof.
  intros HT. revert votes. induction l as [|v l IH]; intros votes Hl Hv; [by exists votes|]. destruct Hv as (H1 & H2 & H3).
  cbn [out_fold]. unfold add_vote at 1. assert (vote_is_validator v = true) as -> by (apply Is_true_true, Hl; set_solver). rewrite HT. cbn [or_default out_bind].
  edestruct IH as (votes' & Hrun & Hvo & Hf); [set_solver| |exists votes'; split; [exact Hrun|]; split; [exact Hvo|exact Hf]].
  split; [done|]. split; [done|]. cbn. by rewrite H3, fmap_insert.
Qed.
Lemma cast_votes_keep (l : list Vote) m a w : m !! a = Some w -> a ∉ vote_validator <$> l ->
  cast_votes m l !! a = Some w.
Proof.
  revert m. induction l as [|v l IH]; intros m Hm Ha; [done|]. cbn. rewrite fmap_cons, not_elem_of_cons in Ha. destruct Ha. apply IH; [|done]. by rewrite lookup_insert_ne.
Qed.
Lemma cast_votes_lookup (l : list Vote) m v : base.NoDup (vote_validator <$> l) -> v ∈ l ->
  cast_votes m l !! vote_validator v = Some (OnChain (vote_data v)).
Proof.
  revert m. induction l as [|w l IH]; intros m Hnd Hv; [set_solver|]. rewrite fmap_cons, list.NoDup_cons in Hnd. destruct Hnd as [Hn Hnd]. cbn.
  apply elem_of_cons in Hv as [->|Hv]; [|by apply IH]. apply cast_votes_keep; [by rewrite lookup_insert_eq|done].
Qed.
Lemma cast_votes_on_chain (l : list Vote) m : on_chain m -> on_chain (cast_votes m l).
Proof.
  revert m. induction l as [|v l IH]; intros m Hm; [done|]. cbn. apply IH. intros a w [[_ <-]|[_ Hw]]%lookup_insert_Some; eauto.
Qed.
Lemma cast_votes_size (l : list Vote) m : (size (cast_votes m l) <= size m + List.length l)%nat.
Proof.
  revert m. induction l as [|v l IH]; intros m; cbn; [lia|]. etransitivity; [apply IH|]. rewrite map_size_insert. destruct (m !! vote_validator v); cbn [id]; lia.
Qed.
Lemma validators_only_ok T votes : 0 <= T -> T * Z.of_nat (size (validators_vote votes)) <= MAX_VALUE -> validators_only T votes -> on_chain (validators_vote votes) -> votes_ok votes.
Proof.
  intros HT Hfit (H1 & H2 & H3) Hon. assert (some_delegator_order votes = []) as Hnil by (unfold some_delegator_order; by rewrite H2, map_to_list_empty).
  assert (forall v x, validator_voting_power votes !! v = Some x -> x = T) as HvT by (intros v x; rewrite H3, lookup_fmap; intros (? & _ & ->)%fmap_Some; done).
  assert (forall l : list (Address * Z), (forall e, e ∈ l -> e.2 = T) -> sumZ l.*2 = T * Z.of_nat (List.length l)) as Hsum.
  { clear. induction l as [|e l IH]; intros Hl; [by rewrite fmap_nil, sumZ_nil, Z.mul_0_r|]. rewrite fmap_cons, sumZ_cons, IH, (Hl e) by set_solver. cbn [List.length]. lia. }
  assert (forall e, e ∈ map_to_list (validator_voting_power votes) -> e.2 = T) as Hel by (intros [v x] He%elem_of_map_to_list; by eapply HvT).
  split; [done| | | | |].
  - rewrite H1. intros a v. by rewrite lookup_empty.
  - intros v x Hx. by rewrite (HvT _ _ Hx).
  - intros d m v x. by rewrite H2, lookup_empty.
  - intros s. rewrite Hnil. unfold over. rewrite fmap_nil, sumZ_nil. apply sum_map_nonneg. intros e He. unfold if_side. rewrite (Hel e He). destruct (on_side _ _); lia.
  - rewrite Hnil. unfold over. rewrite fmap_nil, sumZ_nil, Hsum, length_map_to_list, H3, map_size_fmap by done. lia.
Qed.
Lemma one_yay_counted T votes v d : 0 <= T -> validators_only T votes -> validators_vote votes !! v = Some (OnChain (Yay d)) -> T <= counted_all votes SYay.
Proof.
  intros HT (H1 & H2 & H3) Hv. unfold counted_all, counted, some_delegator_order. rewrite H2, map_to_list_empty, fmap_nil. unfold over. rewrite !fmap_nil, sumZ_nil. unfold validators_power.
  assert (validator_voting_power votes !! v = Some T) as Hp by (by rewrite H3, lookup_fmap, Hv).
  pose proof (sum_subset (fun e => if_side SYay (validators_vote votes !! e.1) e.2) [(v, T)] (map_to_list (validator_voting_power votes))) as Hs.
  rewrite fmap_cons, fmap_nil, sumZ_cons, sumZ_nil in Hs. cbn [fst snd] in Hs. rewrite Hv in Hs. change (if_side SYay (Some (OnChain (Yay d))) T) with T in Hs.
  assert (T + 0 <= sumZ ((fun e => if_side SYay (validators_vote votes !! e.1) e.2) <$> map_to_list (validator_voting_power votes))); [|lia].
  apply Hs; [apply NoDup_singleton| |].
  - intros e ->%list_elem_of_singleton. by apply elem_of_map_to_list.
  - intros [w x] He%elem_of_map_to_list. rewrite H3, lookup_fmap in He. apply fmap_Some in He as (? & _ & ->). unfold if_side. cbn [snd]. destruct (on_side _ _); lia.
Qed.
(** C39. The node counts the votes of validators wrongly: the power of every
    validator that votes is the total stake of the chain. When only validators
    vote, the vote of one of them makes a default proposal pass, whatever its own
    stake is and however many of the others vote against. *)
Theorem one_validator_passes_proposals m id epoch T v d :
  let votes := get_proposal_votes m id in
  read_total_stake (F:=GovError) params pos epoch = Ok T -> 0 <= T -> T * Z.of_nat (List.length votes) <= MAX_VALUE -> T * 2 <= MAX_VALUE ->
  (forall w, w ∈ votes -> vote_is_validator w) -> base.NoDup (vote_validator <$> votes) -> mkGovVote v v (Yay d) ∈ votes ->
  exists pv, compute_proposal_votes params pos m id epoch = Ok pv /\ forall vl dl, validator_order pv vl -> delegator_order pv dl ->
    exists r, compute_proposal_result (E:=GovError) pv vl dl T TwoThirds = Ok r /\ tally_result r = Passed.
Proof using HU.
  intros votes HT H0 Hfit H2 Hval Hnd Hv. destruct (add_votes_validators T epoch votes (mkVotes ∅ ∅ ∅ ∅)) as (pv & Hrun & Hvo & Hcast); [done|done|by repeat split|].
  exists pv. split; [exact Hrun|]. cbn in Hcast. intros vl dl Hvl Hdl. pose proof (cast_votes_lookup votes ∅ _ Hnd Hv) as Hyay. rewrite <- Hcast in Hyay. cbn in Hyay.
  assert (votes_ok pv) as Hok.
  { apply (validators_only_ok T); [done| |done|rewrite Hcast; apply cast_votes_on_chain; intros a w; by rewrite lookup_empty].
    rewrite Hcast. pose proof (cast_votes_size votes ∅) as Hs. rewrite map_size_empty in Hs. nia. }
  rewrite (compute_result_ok pv vl dl T TwoThirds) by done. eexists. split; [done|]. cbn [tally_result verdict]. pose proof (one_yay_counted T pv v d H0 Hvo Hyay).
  rewrite (proj2 (Z.leb_le _ _)); [done|]. etransitivity; [|done]. apply Z.div_le_upper_bound; lia.
Qed.
End counting.

(** *** The execution of the code of a proposal *)
Lemma overlay_lookup l m k : overlay l m !! k = default (m !! k) (l !! k).
Proof. unfold overlay. rewrite lookup_merge. by destruct (l !! k), (m !! k). Qed.
(** The bytes of a [u64] in the data of a transaction *)
Definition u64_bytes (n : Z) : list Z := rev (to_be_bytes 8 n).
Lemma u64_try_from_slice_bytes n : 0 <= n <= U64_MAX -> u64_try_from_slice (u64_bytes n) = Some n.
Proof.
  intros Hn. unfold u64_try_from_slice, u64_bytes. rewrite length_rev, to_be_bytes_length, bool_decide_true by done. rewrite rev_involutive, from_to_be_bytes; [done|].
  unfold U64_MAX in Hn. cbn. lia.
Qed.
Section execution.
Context {U : UintOps} {C : AddressCodec} (dispatch_tx : Z -> list Z -> Layers -> log * option bool).
(** The key that marks a proposal as being executed is written to the log of
    the block and deleted from the database, where it is not: after the block it
    is in the database. A transaction that carries the id of a proposal whose code
    ran once, accepted or not, counts as accepted by governance from then on. *)
Theorem execution_key_persists id code s : 0 <= id <= U64_MAX -> (forall s, (dispatch_tx id code s).1 !! get_proposal_execution_key id = None) ->
  exists s' r, execute_default_proposal dispatch_tx id (Some code) s = (s', Ok r) /\ is_proposal_accepted (db (layers_commit_block s')) (u64_bytes id) = true.
Proof.
  intros Hid Hl. set (s1 := put (get_proposal_execution_key id) (Some VUnit) s). specialize (Hl s1).
  unfold execute_default_proposal, gwrite, st_bind, st_mod. fold s1. destruct (dispatch_tx id code s1) as [l o] eqn:Hd. cbn [fst] in Hl.
  assert (block_log s1 !! get_proposal_execution_key id = Some (Some VUnit)) as Hb by apply lookup_insert_eq.
  unfold is_proposal_accepted. rewrite u64_try_from_slice_bytes by done.
  destruct o as [[]|]; eexists _, _; (split; [reflexivity|]); cbn [db layers_commit_block layers_commit_tx layers_drop_tx storage_delete block_log tx_log];
    rewrite overlay_lookup, ?lookup_union, ?Hl, Hb; apply bool_decide_true; exists VUnit; reflexivity.
Qed.
(** The writes of the code of a proposal that the predicates rejected are not
    dropped: they stay in the log of the transaction, where the rest of the block
    reads them, and the next transaction that is accepted commits them to the
    block and to the database. *)
Theorem rejected_code_takes_effect id code s l : dispatch_tx id code (put (get_proposal_execution_key id) (Some VUnit) s) = (l, Some false) ->
  exists s', execute_default_proposal dispatch_tx id (Some code) s = (s', Ok false) /\
    forall k o, l !! k = Some o -> view s' !! k = o /\ db (layers_commit_block (layers_commit_tx s')) !! k = o.
Proof.
  intros Hd. unfold execute_default_proposal, gwrite, st_bind, st_mod. rewrite Hd. eexists. split; [reflexivity|]. intros k o Hk.
  unfold view. cbn [db layers_commit_block layers_commit_tx storage_delete block_log tx_log]. rewrite !overlay_lookup, lookup_union, Hk. cbn. by rewrite union_Some_l.
Qed.
End execution.

(** *** What is written is read *)
Lemma view_db m : view (mkLayers m ∅ ∅) = m.
Proof. apply map_eq. intros k. unfold view. cbn [db block_log tx_log]. by rewrite !overlay_lookup, lookup_empty. Qed.
Lemma view_put s k v : tx_log s = ∅ -> view (put k (Some v) s) = <[k := v]> (view s).
Proof.
  intros Ht. apply map_eq. intros k'. unfold view, put, set_block_log. cbn [db block_log tx_log]. rewrite Ht, !overlay_lookup, lookup_empty. cbn.
  destruct (decide (k = k')) as [->|Hne]; [by rewrite !lookup_insert_eq|by rewrite !lookup_insert_ne, !overlay_lookup, lookup_empty by done].
Qed.
Lemma view_delete s k : tx_log s = ∅ -> view (put k None s) = base.delete k (view s).
Proof.
  intros Ht. apply map_eq. intros k'. unfold view, put, set_block_log. cbn [db block_log tx_log]. rewrite Ht, !overlay_lookup, lookup_empty. cbn.
  destruct (decide (k = k')) as [->|Hne]; [by rewrite lookup_insert_eq, lookup_delete_eq|by rewrite lookup_insert_ne, lookup_delete_ne, !overlay_lookup, lookup_empty by done].
Qed.
Lemma store_wf_other m k v : store_wf m -> is_any_token_balance_key k = None -> is_any_minted_balance_key k = None -> store_wf (<[k := v]> m).
Proof.
  intros Hm H1 H2 k' v' [[<- _]|[_ Hk]]%lookup_insert_Some Ha; [by destruct Ha|by eapply Hm].
Qed.
Lemma bal_other m k v t o : k <> bkey t o -> bal (<[k := v]> m) t o = bal m t o.
Proof. intros Hk. unfold bal. by rewrite lookup_insert_ne. Qed.

(** Runs of writes on the view *)
Definition at_view (s : Layers) (m : store) : Prop := tx_log s = ∅ /\ view s = m.
Lemma write_step {A} k v (K : unit -> st Layers GovError A) s m (Q : Layers * outcome GovError A -> Prop) : at_view s m -> (forall s', at_view s' (<[k := v]> m) -> Q (K tt s')) -> Q (st_bind (gwrite k v) K s).
Proof. intros [Ht <-] HQ. apply HQ. split; [done|by apply view_put]. Qed.
Lemma st_bind_assoc {S E A B D} (m : st S E A) (k : A -> st S E B) (h : B -> st S E D) s : st_bind (st_bind m k) h s = st_bind m (fun a => st_bind (k a) h) s.
Proof. unfold st_bind. by destruct (m s) as [s' [a| |]]. Qed.

(** *** The end of a proposal *)
Section settlement.
Context {U : UintOps} {HU : UintLaws U} {C : AddressCodec} {HC : AddressCodecLaws C}.
Context (native_token : Address) (params : PosParams) (pos : Pos) (dispatch_tx : Z -> list Z -> Layers -> log * option bool) (value_bytes : value -> list Z).
Lemma gov_transfer_run s m a b f : at_view s m -> store_wf m -> in_u256 f -> 0 < f -> a <> b -> f <= bal m native_token a -> bal m native_token b + f <= MAX_VALUE ->
  exists s', gov_transfer native_token a b f s = (s', Ok tt) /\
    at_view s' (<[bkey native_token b := VAmount (bal m native_token b + f)]> (<[bkey native_token a := VAmount (bal m native_token a - f)]> m)).
Proof using HU HC.
  intros [Ht Hv] Hwf Hf H0 Ha Hb Hg. unfold gov_transfer, on_tokens, amount_is_zero. rewrite Hv, (proj2 (Z.eqb_neq f 0)) by lia. rewrite transfer_eq by (done || lia).
  rewrite (proj2 (Z.leb_le _ _) Hb), (proj2 (Z.leb_le _ _) Hg). cbn [negb fst snd foldl]. rewrite lookup_insert_eq, lookup_insert_ne, lookup_insert_eq by (intros [= ?]; done).
  eexists. split; [done|]. split; [done|]. rewrite !view_put by done. by rewrite Hv.
Qed.
(** A proposal whose vote has the result [r] *)
Record tallied (s : Layers) (id f : Z) (t : ProposalType) (a : Address) (r : ProposalResult) : Prop := {
  ta_log : tx_log s = ∅;
  ta_wf : store_wf (view s);
  ta_funds : view s !! get_funds_key id = Some (VAmount f) /\ 0 < f /\ in_u256 f;
  ta_type : view s !! get_proposal_type_key id = Some (VGov (GType t));
  ta_author : view s !! get_author_key id = Some (VAddress a);
  ta_result : exists end_ total votes, view s !! get_voting_end_epoch_key id = Some (VU64 end_) /\ read_total_stake (F:=GovError) params pos end_ = Ok total /\
    compute_proposal_votes params pos (view s) id end_ = Ok votes /\
    compute_proposal_result (E:=GovError) votes (map_to_list (validator_voting_power votes)) (some_delegator_order votes) total (tally_type_from t (is_steward (view s) a)) = Ok r
}.
Notation execute := (execute_proposal native_token params pos dispatch_tx value_bytes).
Lemma execute_tallied s id f t a r : tallied s id f t a r ->
  execute id s = (let! r' := match tally_result r with
                             | Passed => execute_passed native_token dispatch_tx value_bytes id t
                             | Rejected => execute_rejected id t a r
                             end in
                  do! match r'.2 with
                      | Some address => gov_transfer native_token GOV address f
                      | None => gov_burn native_token GOV f
                      end in
                  st_ret (tally_result r, r'.1))%st (put (get_proposal_result_key id) (Some (VGov (GResult r))) s).
Proof.
  intros [Ht Hwf (Hf & _) Hty Ha (e & total & votes & He & Htot & Hvotes & Hres)]. unfold execute_proposal.
  assert (forall A (dec : value -> option A) k v x, view s !! k = Some v -> dec v = Some x -> force_read dec k s = (s, Ok x)) as Hread.
  { intros A dec k v x Hk Hd. unfold force_read, st_bind, gread, read_value. by rewrite Hk, Hd. }
  rewrite (st_bind_run _ _ _ _ _ (Hread _ as_amount _ _ f Hf eq_refl)), (st_bind_run _ _ _ _ _ (Hread _ as_u64 _ _ e He eq_refl)),
    (st_bind_run _ _ _ _ _ (Hread _ as_type _ _ t Hty eq_refl)), (st_bind_run _ _ _ _ _ (Hread _ as_address _ _ a Ha eq_refl)).
  erewrite st_bind_run by reflexivity. erewrite st_bind_run by (unfold st_lift; rewrite Htot; reflexivity). erewrite st_bind_run by reflexivity.
  erewrite st_bind_run by (unfold st_lift; rewrite Hvotes; reflexivity). erewrite st_bind_run by (unfold st_lift; rewrite Hres; reflexivity).
  by erewrite st_bind_run by reflexivity.
Qed.
(** A rejected proposal that is not about payments burns its deposit, and the
    recorded supply of the native token with it: the supply becomes what is recorded
    as minted of a token that has the address of governance, which is nothing. *)
Theorem rejected_proposal_erases_supply s id f t a r : tallied s id f t a r -> tally_result r = Rejected -> match t with PGFPayment _ => False | _ => True end ->
  f <= bal (view s) native_token GOV -> view s !! mkey GOV = None ->
  exists s' e, execute id s = (s', Ok (Rejected, e)) /\ bal (view s') native_token GOV = bal (view s) native_token GOV - f /\ minted (view s') native_token = 0 /\
    view s' !! get_proposal_result_key id = Some (VGov (GResult r)).
Proof using HU HC.
  intros Hta Hr Htype Hbal Hm. rewrite (execute_tallied _ _ _ _ _ _ Hta), Hr. destruct Hta as [Ht Hwf (_ & H0 & Hf) _ _ _].
  set (s1 := put _ _ s). assert (view s1 = <[get_proposal_result_key id := VGov (GResult r)]> (view s)) as Hv1 by (by apply view_put).
  assert (store_wf (view s1)) as Hwf1 by (rewrite Hv1; by apply store_wf_other).
  assert (bal (view s1) native_token GOV = bal (view s) native_token GOV) as Hb1 by (rewrite Hv1; by apply bal_other).
  assert (minted (view s1) GOV = 0) as Hm1 by (unfold minted; by rewrite Hv1, lookup_insert_ne, Hm by done).
  erewrite st_bind_run by (unfold execute_rejected; destruct t; [reflexivity|reflexivity|done]). cbn [snd fst].
  unfold gov_burn, on_tokens, st_bind. rewrite burn_eq by done. rewrite Hb1, Hm1, Z.min_l by lia. rewrite Z.max_l by lia. cbn [fst snd foldl].
  rewrite (lookup_insert_ne _ (mkey native_token) (bkey native_token GOV)), !lookup_insert_eq by done. eexists _, _. split; [reflexivity|]. rewrite !view_put by done. unfold bal at 1, minted.
  rewrite (lookup_insert_ne _ (mkey native_token) (bkey native_token GOV)), !lookup_insert_eq by done. split; [done|]. split; [done|]. rewrite !lookup_insert_ne by done. by rewrite Hv1, lookup_insert_eq.
Qed.
(** The stewards after some actions: the last action on an address decides. *)
Definition steward_action (m : store) (act : AddRemove Address) : store :=
  match act with
  | Add a => <[steward_key a := VGov (GSteward (mkSteward a {[a := srep SC]}))]> m
  | Remove a => base.delete (steward_key a) m
  end.
Definition last_action (x : Address) (l : list (AddRemove Address)) (before : bool) : bool :=
  foldl (fun b act => match act with Add a => bool_decide (a = x) || b | Remove a => negb (bool_decide (a = x)) && b end) before l.
Definition stewards_typed (m : store) : Prop := forall x v, m !! steward_key x = Some v -> exists d, v = VGov (GSteward d).
Lemma steward_key_inj a b : steward_key a = steward_key b -> a = b.
Proof. by intros [= ->]. Qed.
Lemma steward_action_step m act : stewards_typed m -> stewards_typed (steward_action m act) /\ (forall x, is_steward (steward_action m act) x = last_action x [act] (is_steward m x)) /\
  (forall t o, bal (steward_action m act) t o = bal m t o) /\ (store_wf m -> store_wf (steward_action m act)) /\ (forall id, steward_action m act !! get_author_key id = m !! get_author_key id).
Proof.
  intros Hm. destruct act as [a|a]; cbn [steward_action last_action foldl].
  - split_and!; [|intros x; unfold is_steward|intros; by apply bal_other|intros; by apply store_wf_other|intros; by rewrite lookup_insert_ne].
    + intros x v [[_ <-]|[_ Hx]]%lookup_insert_Some; eauto.
    + destruct (decide (a = x)) as [->|Hne]; [rewrite lookup_insert_eq, !bool_decide_true by eauto; done|]. rewrite lookup_insert_ne by (by intros ?%steward_key_inj). by rewrite (bool_decide_false (a = x)).
  - split_and!; [|intros x; unfold is_steward|intros; unfold bal; by rewrite lookup_delete_ne|intros Hwf k v [_ Hk]%lookup_delete_Some; by apply Hwf|intros; by rewrite lookup_delete_ne].
    + intros x v [_ Hx]%lookup_delete_Some; eauto.
    + destruct (decide (a = x)) as [->|Hne]; [rewrite lookup_delete_eq, (bool_decide_true (x = x)) by done; done|]. rewrite lookup_delete_ne by (by intros ?%steward_key_inj). by rewrite (bool_decide_false (a = x)).
Qed.
Lemma stewards_run l s m : at_view s m -> stewards_typed m -> exists s', execute_pgf_steward_proposal l s = (s', Ok true) /\ at_view s' (foldl steward_action m l).
Proof using HU.
  unfold execute_pgf_steward_proposal. revert s m. induction l as [|act l IH]; intros s m Hv Hm; [by exists s|].
  destruct (steward_action_step m act Hm) as (Hm' & _). cbn [st_iter foldl].
  assert (exists s1, (match act with Add address => let! d := st_lift (steward_base address) in insert_steward d | Remove address => remove_steward address end)%st s = (s1, Ok tt) /\ at_view s1 (steward_action m act)) as (s2 & Hrun & Hv2).
  { destruct Hv as [Ht Hv]. destruct act as [a|a]; cbn [steward_action].
    - unfold steward_base. rewrite sone. cbn [out_bind]. exists (put (steward_key a) (Some (VGov (GSteward (mkSteward a {[a := srep SC]})))) s).
      split; [|split; [done|rewrite view_put by done; by rewrite Hv]]. unfold st_bind, st_lift, insert_steward, insert_entry, gread, st_bind, read_value. rewrite Hv. cbn [steward_address].
      destruct (m !! steward_key a) as [v|] eqn:Hk; [|done]. destruct (Hm _ _ Hk) as [d ->]. done.
    - unfold remove_steward, remove_entry, st_bind, gread, read_value. rewrite Hv. destruct (m !! steward_key a) as [v|] eqn:Hk; [|exists s; split; [done|split; [done|by rewrite delete_id]]].
      destruct (Hm _ _ Hk) as [d ->]. eexists. split; [done|]. split; [done|]. rewrite view_delete by done. by rewrite Hv. }
  rewrite st_bind_assoc. erewrite st_bind_run by exact Hrun. by apply IH.
Qed.
Lemma stewards_after l m : stewards_typed m -> store_wf m -> store_wf (foldl steward_action m l) /\ (forall x, is_steward (foldl steward_action m l) x = last_action x l (is_steward m x)) /\
  (forall t o, bal (foldl steward_action m l) t o = bal m t o) /\ (forall id, foldl steward_action m l !! get_author_key id = m !! get_author_key id).
Proof.
  revert m. induction l as [|act l IH]; intros m Hm Hwf; [done|]. destruct (steward_action_step m act Hm) as (Hm' & Hs & Hb & Hw & Hau). destruct (IH _ Hm' (Hw Hwf)) as (H1 & H2 & H3 & H4). cbn [foldl].
  split_and!; [done| | |].
  - intros x. rewrite H2, Hs. done.
  - intros. by rewrite H3, Hb.
  - intros. by rewrite H4, Hau.
Qed.
Lemma foldl_result l m id : foldl steward_action m l !! get_proposal_result_key id = m !! get_proposal_result_key id.
Proof. revert m. induction l as [|[a|a] l IH]; intros m; cbn [foldl]; [done|..]; rewrite IH; cbn [steward_action]; [by rewrite lookup_insert_ne|by rewrite lookup_delete_ne]. Qed.
(** C25. A proposal on stewards that passed is carried out: an address is a steward
    when the last action on it adds it, is none when the last action removes it, and
    is otherwise what it was; the result is recorded, and the deposit goes from
    governance back to the author. *)
Theorem steward_proposal_executed s id f l a r : tallied s id f (PGFSteward l) a r -> tally_result r = Passed -> stewards_typed (view s) -> a <> GOV ->
  f <= bal (view s) native_token GOV -> bal (view s) native_token a + f <= MAX_VALUE ->
  exists s' e, execute id s = (s', Ok (Passed, e)) /\ view s' !! get_proposal_result_key id = Some (VGov (GResult r)) /\
    (forall x, is_steward (view s') x = last_action x l (is_steward (view s) x)) /\
    bal (view s') native_token GOV = bal (view s) native_token GOV - f /\ bal (view s') native_token a = bal (view s) native_token a + f.
Proof using HU HC.
  intros Hta Hr Hst Hne Hbal Hmax. rewrite (execute_tallied _ _ _ _ _ _ Hta), Hr. destruct Hta as [Ht Hwf (_ & H0 & Hf) _ Ha _].
  set (s1 := put _ _ s). set (m1 := <[get_proposal_result_key id := VGov (GResult r)]> (view s)). assert (at_view s1 m1) as Hv1 by (split; [done|by apply view_put]).
  assert (stewards_typed m1) as Hst1 by (intros x v [[? _]|[_ Hx]]%lookup_insert_Some; [done|by eapply Hst]).
  assert (store_wf m1) as Hwf1 by (by apply store_wf_other).
  destruct (stewards_run l s1 m1 Hv1 Hst1) as (s2 & Hrun & [Ht2 Hv2]). destruct (stewards_after l m1 Hst1 Hwf1) as (Hwf2 & Hs2 & Hb2 & Ha2).
  unfold execute_passed. rewrite !st_bind_assoc. erewrite st_bind_run by exact Hrun. erewrite st_bind_run by reflexivity. rewrite st_bind_assoc.
  erewrite st_bind_run by (unfold gread, read_value; rewrite Hv2, Ha2; unfold m1; rewrite lookup_insert_ne, Ha by done; reflexivity). erewrite st_bind_run by reflexivity. cbn [fst snd].
  assert (forall o, bal (foldl steward_action m1 l) native_token o = bal (view s) native_token o) as Hb by (intros o; rewrite Hb2; by apply bal_other).
  destruct (gov_transfer_run s2 (foldl steward_action m1 l) GOV a f) as (s3 & Htr & [_ Hv3]); [done|done|done|done|done|by rewrite Hb|by rewrite Hb|].
  erewrite st_bind_run by exact Htr. eexists _, _. split; [reflexivity|]. rewrite Hv3. split_and!.
  - rewrite !lookup_insert_ne by done. rewrite foldl_result. apply lookup_insert_eq.
  - intros x. unfold is_steward at 1. rewrite !lookup_insert_ne by done. fold (is_steward (foldl steward_action m1 l) x). rewrite Hs2. unfold m1, is_steward. by rewrite lookup_insert_ne.
  - unfold bal at 1. rewrite lookup_insert_ne, lookup_insert_eq by (intros [= ?]; done). cbn. by rewrite Hb.
  - unfold bal at 1. rewrite lookup_insert_eq. cbn. by rewrite Hb.
Qed.
End settlement.

(** ** Instances *)
Module RefGov.
Definition v1 : Address := RefRewards.v1.
Definition v2 : Address := RefRewards.v2.
Definition v3 : Address := Established 3.
Definition d1 : Address := Established 10.
Definition d2 : Address := Established 11.
(** A validator for, one against, a delegator of the first against, and a
    delegator that abstains with a validator that did not vote *)
Definition votes : ProposalVotes := mkVotes {[v1 := OnChain (Yay VoteDefault); v2 := OnChain Nay]} {[v1 := 100; v2 := 50]}
  {[d1 := OnChain Nay; d2 := OnChain Abstain]} {[d1 := {[v1 := 30]}; d2 := {[v3 := 7]}]}.
Lemma votes_fine : votes_ok votes.
Proof.
  split.
  - unfold votes. cbn [validators_vote validator_voting_power delegators_vote]. intros a v Hl. apply lookup_insert_Some in Hl as [[_ <-]|[_ [_ <-]%lookup_singleton_Some]]; eauto.
  - unfold votes. cbn [validators_vote validator_voting_power delegators_vote]. intros a v Hl. apply lookup_insert_Some in Hl as [[_ <-]|[_ [_ <-]%lookup_singleton_Some]]; eauto.
  - unfold votes. cbn [validators_vote validator_voting_power delegators_vote]. intros a v Hl. apply lookup_insert_Some in Hl as [[_ <-]|[_ [_ <-]%lookup_singleton_Some]]; lia.
  - unfold votes. cbn [delegator_voting_power]. intros d m v x Hl Hm. apply lookup_insert_Some in Hl as [[_ <-]|[_ [_ <-]%lookup_singleton_Some]]; apply lookup_singleton_Some in Hm as [_ <-]; lia.
  - intros []; vm_compute; discriminate.
  - vm_compute. discriminate.
Qed.
(** The stakes are 6000000 and 3000000. *)
Definition cast : store := {[get_vote_proposal_key 3 v1 v1 := VGov (GVote Nay); get_vote_proposal_key 3 v2 v2 := VGov (GVote (Yay VoteDefault))]}.
Definition for_v2 : list Vote := [mkGovVote v1 v1 Nay; mkGovVote v2 v2 (Yay VoteDefault)].
Lemma cast_votes_of : get_proposal_votes (C:=RefCodec.codec) cast 3 = for_v2.
Proof. vm_compute. reflexivity. Qed.
(** Proposal 3 of [d1] to become a steward, with and without a vote *)
Definition gov_store (votes : store) : store :=
  <[get_funds_key 3 := VAmount 500]> (<[get_proposal_type_key 3 := VGov (GType (PGFSteward [Add d1]))]> (<[get_author_key 3 := VAddress d1]> (<[get_voting_end_epoch_key 3 := VU64 1]>
  (<[bkey RefRewards.nam GOV := VAmount 500]> (<[mkey RefRewards.nam := VAmount (10 ^ 13)]> votes))))).
Definition yays : store := {[get_vote_proposal_key 3 v1 v1 := VGov (GVote (Yay VotePGFSteward))]}.
Lemma votes_wf (m : store) : (forall k v, m !! k = Some v -> exists id voter delegation, k = get_vote_proposal_key id voter delegation) -> store_wf (gov_store m).
Proof.
  intros Hm. unfold gov_store. do 4 (apply store_wf_other; [|reflexivity|reflexivity]). do 2 (apply store_wf_set; [|vm_compute; split; discriminate]).
  intros k v Hk [Ha|Ha]; destruct (Hm _ _ Hk) as (id & voter & delegation & ->); by destruct Ha.
Qed.
Lemma tallied_at m r : store_wf (gov_store m) ->
  (exists votes, compute_proposal_votes (U:=Ref.uint_ref) (C:=RefCodec.codec) RefRewards.params (Inflation.pos RefRewards.base) (gov_store m) 3 1 = Ok votes /\
    compute_proposal_result (U:=Ref.uint_ref) (E:=GovError) votes (map_to_list (validator_voting_power votes)) (some_delegator_order votes) 9000000 (tally_type_from (PGFSteward [Add d1]) (is_steward (gov_store m) d1)) = Ok r) ->
  tallied (U:=Ref.uint_ref) (C:=RefCodec.codec) RefRewards.params (Inflation.pos RefRewards.base) (mkLayers (gov_store m) ∅ ∅) 3 500 (PGFSteward [Add d1]) d1 r.
Proof.
  intros Hwf (votes & Hvotes & Hr). split; rewrite ?view_db; [done|done| | | |].
  - split; [apply lookup_insert_eq|]. split; [lia|vm_compute; split; discriminate].
  - unfold gov_store. by rewrite lookup_insert_ne, lookup_insert_eq by done.
  - unfold gov_store. by rewrite !lookup_insert_ne, lookup_insert_eq by done.
  - exists 1, 9000000, votes. split; [unfold gov_store; by rewrite !lookup_insert_ne, lookup_insert_eq by done|]. split; [vm_compute; reflexivity|]. split; [exact Hvotes|exact Hr].
Qed.
Definition rejected_result : ProposalResult := mkResult Rejected 9000000 0 0 0.
Definition passed_result : ProposalResult := mkResult Passed 9000000 9000000 0 0.
Lemma rejected_tallied : tallied (U:=Ref.uint_ref) (C:=RefCodec.codec) RefRewards.params (Inflation.pos RefRewards.base) (mkLayers (gov_store ∅) ∅ ∅) 3 500 (PGFSteward [Add d1]) d1 rejected_result.
Proof.
  apply tallied_at; [apply votes_wf; intros k v Hk; by rewrite lookup_empty in Hk|]. eexists. split; [vm_compute; reflexivity|vm_compute; reflexivity].
Qed.
Lemma passed_tallied : tallied (U:=Ref.uint_ref) (C:=RefCodec.codec) RefRewards.params (Inflation.pos RefRewards.base) (mkLayers (gov_store yays) ∅ ∅) 3 500 (PGFSteward [Add d1]) d1 passed_result.
Proof.
  apply tallied_at; [apply votes_wf; unfold yays; intros k v [<- _]%lookup_singleton_Some; by exists 3, v1, v1|]. eexists. split; [vm_compute; reflexivity|vm_compute; reflexivity].
Qed.
End RefGov.

Lemma tally_counts_once_witness :
  voted_power RefGov.votes = 157 /\
  compute_proposal_result (U:=Ref.uint_ref) (E:=GovError) RefGov.votes (map_to_list (validator_voting_power RefGov.votes)) (some_delegator_order RefGov.votes) 200 OneHalfOverOneThird =
    Ok (mkResult Rejected 200 70 80 7).
Proof.
  split; [vm_compute; reflexivity|].
  destruct (tally_counts_once (HU:=Ref.uint_ref_laws) (E:=GovError) RefGov.votes (map_to_list (validator_voting_power RefGov.votes)) (some_delegator_order RefGov.votes) 200 OneHalfOverOneThird) as [H1 H2].
  - apply RefGov.votes_fine.
  - unfold validator_order. reflexivity.
  - exists (map_to_list (delegator_voting_power RefGov.votes)). split; [reflexivity|]. apply Forall2_fmap_l, Forall_Forall2_diag, Forall_true. intros e. split; reflexivity.
  - lia.
  - vm_compute. discriminate.
  - exact H1.
Defined.
Lemma one_validator_passes_proposals_witness :
  read_validator_stake (U:=Ref.uint_ref) (E:=GovError) RefRewards.params (sets (pos RefRewards.base)) RefGov.v2 1 = Ok 3000000 /\
  exists pv, compute_proposal_votes (U:=Ref.uint_ref) (C:=RefCodec.codec) RefRewards.params (pos RefRewards.base) RefGov.cast 3 1 = Ok pv /\
    forall vl dl, validator_order pv vl -> delegator_order pv dl ->
      exists r, compute_proposal_result (U:=Ref.uint_ref) (E:=GovError) pv vl dl 9000000 TwoThirds = Ok r /\ tally_result r = Passed.
Proof.
  split; [vm_compute; reflexivity|].
  apply (one_validator_passes_proposals (HU:=Ref.uint_ref_laws) (C:=RefCodec.codec) RefRewards.params (pos RefRewards.base) RefGov.cast 3 1 9000000 RefGov.v2 VoteDefault); rewrite ?RefGov.cast_votes_of.
  - vm_compute. reflexivity.
  - lia.
  - vm_compute. discriminate.
  - vm_compute. discriminate.
  - intros w Hw. unfold RefGov.for_v2 in Hw. repeat (apply elem_of_cons in Hw as [->|Hw]; [vm_compute; exact I|]). by apply not_elem_of_nil in Hw.
  - apply (bool_decide_unpack _). vm_compute. exact I.
  - unfold RefGov.for_v2. set_solver.
Defined.
(** A transaction that writes to a key of its own, and is rejected *)
Definition rejected_tx (id : Z) (code : list Z) (s : Layers) : log * option bool := ({[bkey RefGov.v1 RefGov.v2 := Some (VAmount 5)]}, Some false).
Lemma execution_key_persists_witness :
  exists s' r, execute_default_proposal rejected_tx 3 (Some []) (mkLayers ∅ ∅ ∅) = (s', Ok r) /\ is_proposal_accepted (db (layers_commit_block s')) (u64_bytes 3) = true.
Proof.
  apply (execution_key_persists rejected_tx 3 [] (mkLayers ∅ ∅ ∅)).
  - vm_compute. split; discriminate.
  - intros s. vm_compute. reflexivity.
Defined.
Lemma rejected_code_takes_effect_witness :
  exists s', execute_default_proposal rejected_tx 3 (Some []) (mkLayers ∅ ∅ ∅) = (s', Ok false) /\
    forall k o, ({[bkey RefGov.v1 RefGov.v2 := Some (VAmount 5)]} : log) !! k = Some o -> view s' !! k = o /\ db (layers_commit_block (layers_commit_tx s')) !! k = o.
Proof. apply (rejected_code_takes_effect rejected_tx 3 [] (mkLayers ∅ ∅ ∅)). reflexivity. Defined.
Lemma rejected_proposal_erases_supply_witness :
  minted (RefGov.gov_store ∅) RefRewards.nam = 10 ^ 13 /\
  exists s' e, execute_proposal (U:=Ref.uint_ref) (C:=RefCodec.codec) RefRewards.nam RefRewards.params (Inflation.pos RefRewards.base) rejected_tx (fun _ => []) 3 (mkLayers (RefGov.gov_store ∅) ∅ ∅) = (s', Ok (Rejected, e)) /\
    bal (view s') RefRewards.nam GOV = bal (view (mkLayers (RefGov.gov_store ∅) ∅ ∅)) RefRewards.nam GOV - 500 /\ minted (view s') RefRewards.nam = 0 /\
    view s' !! get_proposal_result_key 3 = Some (VGov (GResult RefGov.rejected_result)).
Proof.
  split; [vm_compute; reflexivity|].
  apply (rejected_proposal_erases_supply (HU:=Ref.uint_ref_laws) (HC:=RefCodec.codec_laws) RefRewards.nam RefRewards.params (Inflation.pos RefRewards.base) rejected_tx (fun _ => [])
    (mkLayers (RefGov.gov_store ∅) ∅ ∅) 3 500 (PGFSteward [Add RefGov.d1]) RefGov.d1 RefGov.rejected_result).
  - apply RefGov.rejected_tallied.
  - reflexivity.
  - exact I.
  - vm_compute. discriminate.
  - vm_compute. reflexivity.
Defined.
Lemma steward_proposal_executed_witness :
  exists s' e, execute_proposal (U:=Ref.uint_ref) (C:=RefCodec.codec) RefRewards.nam RefRewards.params (Inflation.pos RefRewards.base) rejected_tx (fun _ => []) 3 (mkLayers (RefGov.gov_store RefGov.yays) ∅ ∅) = (s', Ok (Passed, e)) /\
    is_steward (view s') RefGov.d1 = true /\ bal (view s') RefRewards.nam RefGov.d1 = 500.
Proof.
  destruct (steward_proposal_executed (HU:=Ref.uint_ref_laws) (HC:=RefCodec.codec_laws) RefRewards.nam RefRewards.params (Inflation.pos RefRewards.base) rejected_tx (fun _ => [])
    (mkLayers (RefGov.gov_store RefGov.yays) ∅ ∅) 3 500 [Add RefGov.d1] RefGov.d1 RefGov.passed_result) as (s' & e & Hrun & _ & Hs & _ & Hb).
  - apply RefGov.passed_tallied.
  - reflexivity.
  - rewrite view_db. intros x v Hx. unfold RefGov.gov_store, RefGov.yays in Hx. rewrite !lookup_insert_ne in Hx by done. by apply lookup_singleton_Some in Hx as [? _].
  - discriminate.
  - vm_compute. discriminate.
  - vm_compute. discriminate.
  - exists s', e. split; [exact Hrun|]. split; [rewrite Hs; vm_compute; reflexivity|]. rewrite Hb. vm_compute. reflexivity.
Defined.
