(* ===== verification/EpochInflation.v ===== *)
(** * The inflation of an epoch ([Shell::apply_inflation], apps/src/lib/node/ledger/shell/finalize_block.rs)

    In the first block of an epoch the shell applies the inflation of proof of
    stake ([Inflation]) and then that of public goods funding ([Governance]) to the
    same storage. *)

From Stdlib Require Import ZArith Lia.
From stdpp Require Import base numbers list gmap sorting option.
From S2P Require Import Prelude Uint Int256 Dec Keys GovTypes Token Epoch Params Epoched ValidatorSet WlStorage Lifecycle Bonds Inflation Governance.

Local Open Scope Z_scope.
Local Open Scope st_scope.

Inductive ShellInflationError : Type := PosInflationFailed (e : InflationError) | PgfInflationFailed (e : GovError).

Section shell.
Context {U : UintOps} {C : AddressCodec} (params : PosParams).

(** The layers of the storage over what is stored: a run leaves its view. *)
Definition on_layers {E A} (m : st Layers E A) : st store E A := fun st =>
  let r := m (mkLayers st ∅ ∅) in (view r.1, r.2).

Definition shell_apply_inflation (first_block_heights : list Z) (height : Z) (current_epoch : Epoch) : st RewardsState ShellInflationError unit :=
  let! last_epoch := st_lift (epoch_prev current_epoch) in
  let! first_block_of_last_epoch := st_lift (unwrap (first_block_heights !! Z.to_nat last_epoch)) in
  let! num_blocks_in_last_epoch := st_lift (u64_sub height first_block_of_last_epoch) in
  do! map_err PosInflationFailed (apply_inflation params last_epoch num_blocks_in_last_epoch) in
  let! s := st_get (fun s => s) in
  zoom (fun s => balances (pos s)) (fun x s => set_pos (set_balances x (pos s)) s)
    (map_err PgfInflationFailed (on_layers (apply_pgf_inflation (native_token (info (pos s))) (epochs_per_year s)))).
End shell.

(** ** Amounts *)
(** What is minted for public goods funding, and for a part [f] of the reward of
    a steward, from a supply [S], a yearly rate and the number of epochs of a
    year. The amount is taken from a decimal of whole tokens. *)
Definition per_epoch (supply rate epochs : Z) : Z := supply * AMOUNT_SCALE * (rate / epochs) / SC.
Definition pgf_amount (supply rate epochs : Z) : Z := per_epoch supply rate epochs / SC.
Definition steward_amount (supply rate epochs f : Z) : Z := per_epoch supply rate epochs * f / SC / SC.
Definition steward_rewards (supply rate epochs : Z) (stewards : list StewardDetail) : list (Address * Z) :=
  stewards ≫= (fun d => (fun e : Address * Z => (e.1, steward_amount supply rate epochs (sval e.2))) <$> map_to_list (reward_distribution d)).

Section amounts.
Context {U : UintOps} {HU : UintLaws U} {E : Type}.

Lemma samount a : 0 <= a -> in_i256 a -> amount_from_dec (E:=E) (srep a) = Ok (a / SC).
Proof using HU.
  intros Ha Hi. unfold amount_from_dec. rewrite sneg by done. rewrite (proj2 (Z.ltb_ge a 0)) by done. cbn [negb]. rewrite dec_scale_ok. cbn [out_bind].
  rewrite abs_spec, sval_srep by auto using srep_wf. rewrite Z.abs_eq by done.
  rewrite uint_div_eq by (apply SC_u256 || (unfold in_u256, in_i256 in *; pose proof MAX_SIGNED_le; lia)). done.
Qed.
Lemma schecked_mul a b : in_i256 a -> in_i256 b -> in_i256 (a * b) -> dec_checked_mul (E:=E) (srep a) (srep b) = Ok (Some (srep (Z.quot (a * b) SC))).
Proof using HU.
  intros Ha Hb Hs. rewrite dec_checked_mul_eq by auto using srep_wf. rewrite !sval_srep by done. by destruct (in_i256b_spec (a * b)).
Qed.

Lemma per_epoch_bounds supply rate epochs : 0 <= supply <= MAX_TOKENS -> 0 <= rate <= SC -> 0 < epochs ->
  0 <= supply * AMOUNT_SCALE * (rate / epochs) <= 10 ^ 42 /\ 0 <= per_epoch supply rate epochs <= 10 ^ 42 /\
  per_epoch supply rate epochs * SC * epochs <= supply * AMOUNT_SCALE * rate.
Proof.
  intros Hs Hr He. pose proof SC_pos. unfold MAX_TOKENS, AMOUNT_SCALE in *. assert (0 <= rate / epochs <= SC) as Hq by (apply div_bounds; lia).
  assert (epochs * (rate / epochs) <= rate) as Hm by (by apply Z.mul_div_le).
  assert (0 <= supply * 10 ^ 6 * (rate / epochs) <= 10 ^ 42) as Hb by (unfold SC in *; nia). split; [done|].
  unfold per_epoch, AMOUNT_SCALE. split; [by apply div_bounds|].
  pose proof (Z.mul_div_le (supply * 10 ^ 6 * (rate / epochs)) SC ltac:(lia)) as Hd. set (x := supply * 10 ^ 6 * (rate / epochs) / SC) in *. nia.
Qed.

(** The decimals of a rate *)
Lemma rate_run supply rate epochs : 0 <= supply <= MAX_TOKENS -> 0 <= rate <= SC -> 0 < epochs <= U64_MAX ->
  dec_div (E:=E) (srep rate) (srep (epochs * SC)) = Ok (srep (rate / epochs)) /\
  dec_from_amount (E:=E) supply = Ok (srep (supply * AMOUNT_SCALE)) /\
  dec_mul (E:=E) (srep (supply * AMOUNT_SCALE)) (srep (rate / epochs)) = Ok (srep (per_epoch supply rate epochs)).
Proof using HU.
  intros Hs Hr He. pose proof SC_pos as HS. destruct (per_epoch_bounds supply rate epochs Hs Hr ltac:(lia)) as (Hb & _).
  assert (in_i256 rate) as Hir by (apply (i256_bound _ (10 ^ 12)); unfold SC in *; lia).
  assert (in_i256 (epochs * SC)) as Hie by (apply (i256_bound _ (10 ^ 40)); unfold SC, U64_MAX in *; lia).
  assert (0 <= rate / epochs <= SC) as Hq by (apply div_bounds; lia).
  assert (in_i256 (rate / epochs)) as Hiq by (apply (i256_bound _ (10 ^ 12)); unfold SC in *; lia).
  assert (in_i256 (supply * AMOUNT_SCALE)) as His by (apply (i256_bound _ (10 ^ 30)); unfold MAX_TOKENS, AMOUNT_SCALE in *; lia).
  assert (Z.quot (rate * SC) (epochs * SC) = rate / epochs) as Hd by (rewrite Z.quot_mul_cancel_r by lia; apply Z.quot_div_nonneg; lia).
  split_and!.
  - rewrite sdiv; rewrite ?Hd; try done. lia.
  - apply sfrom_amount; [lia|done].
  - rewrite smul; [|done|done|apply (i256_bound _ (10 ^ 42)); lia]. by rewrite Z.quot_div_nonneg by lia.
Qed.
Lemma steward_amount_run supply rate epochs f : 0 <= supply <= MAX_TOKENS -> 0 <= rate <= SC -> 0 < epochs <= U64_MAX -> 0 <= f <= SC ->
  (let* o := dec_checked_mul (E:=E) (srep (per_epoch supply rate epochs)) (srep f) in amount_from_dec (default 0 o))%out = Ok (steward_amount supply rate epochs f) /\
  0 <= steward_amount supply rate epochs f.
Proof using HU.
  intros Hs Hr He Hf. pose proof SC_pos as HS. destruct (per_epoch_bounds supply rate epochs Hs Hr ltac:(lia)) as (_ & Hp & _). unfold steward_amount.
  assert (0 <= per_epoch supply rate epochs * f <= 10 ^ 54) as Hb by (unfold SC in *; nia).
  assert (0 <= per_epoch supply rate epochs * f / SC <= 10 ^ 54) as Hd by (by apply div_bounds).
  split; [|apply Z.div_pos; lia].
  rewrite schecked_mul; [|apply (i256_bound _ (10 ^ 42)); lia|apply (i256_bound _ (10 ^ 12)); unfold SC in *; lia|apply (i256_bound _ (10 ^ 54)); lia].
  cbn [out_bind default from_option id]. rewrite Z.quot_div_nonneg by lia. apply samount; [lia|apply (i256_bound _ (10 ^ 54)); lia].
Qed.
End amounts.

(** ** The accounts of a token *)
(** A funding is paid when the account of public goods funding covers it. *)
Definition paid (b : Address -> Z) (f : StoragePgfFunding) : Address -> Z := fun o =>
  if target_amount (detail f) <=? b PGF
  then b o - (if decide (o = PGF) then target_amount (detail f) else 0) + (if decide (o = target (detail f)) then target_amount (detail f) else 0)
  else b o.
Definition rewarded (o : Address) (l : list (Address * Z)) : Z := sumZ ((fun e : Address * Z => if decide (e.1 = o) then e.2 else 0) <$> l).
(** Only balances and the supply of the token have changed. *)
Definition same_but (token : Address) (m m' : store) : Prop := forall k, (forall o, k <> bkey token o) -> k <> mkey token -> m' !! k = m !! k.
(** [m'] has the balances [b], and [x] more tokens than [m]. *)
Record accounts (token : Address) (m m' : store) (b : Address -> Z) (x : Z) : Prop := {
  ac_wf : store_wf m';
  ac_minted : minted m' token = minted m token + x;
  ac_total : total m' token = total m token + x;
  ac_balances : forall o, bal m' token o = b o;
  ac_frame : same_but token m m'
}.

Lemma bal_le_total m t o : store_wf m -> bal m t o <= total m t.
Proof.
  intros Hs. rewrite <- mterm_total. apply mterm_le_msum.
  intros k v Hk. unfold bal_entry. destruct (is_balance_key t k) as [o'|] eqn:Hb; [|done].
  apply is_balance_key_Some in Hb as ->. destruct (Hs _ _ Hk (amount_key_bkey t o')) as (a & -> & Ha). cbn. unfold in_u256 in Ha. lia.
Qed.
Lemma accounts_ext token m m' b b' x : accounts token m m' b x -> (forall o, b o = b' o) -> accounts token m m' b' x.
Proof. intros [H1 H2 H3 H4 H5] Hb. split; [done..| |done]. intros o. by rewrite H4. Qed.
Lemma rewarded_app o l k : rewarded o (l ++ k) = rewarded o l + rewarded o k.
Proof. unfold rewarded. by rewrite fmap_app, sumZ_app. Qed.
#[export] Instance rewarded_perm o : Proper (Permutation ==> eq) (rewarded o).
Proof. intros l k Hl. unfold rewarded. by rewrite Hl. Qed.

Section pgf.
Context {U : UintOps} {HU : UintLaws U} {C : AddressCodec} {HC : AddressCodecLaws C} (token : Address).

(** Entries of a lazy map whose keys keep their values *)
Lemma entries_perm {A} (dec : value -> option A) pick m : entries dec pick m ≡ₚ omap (fun e : Key * value => dec e.2) (filter (fun e : Key * value => pick e.1) (map_to_list m)).
Proof using Type.
  unfold entries, sorted_entries. rewrite sort_le_perm. apply reflexive_eq.
  induction (filter _ _) as [|e l IH]; [done|]. cbn. by rewrite IH.
Qed.
Lemma entries_same {A} (dec : value -> option A) (pick : Key -> bool) m m' : (forall k, pick k -> m' !! k = m !! k) -> entries dec pick m' ≡ₚ entries dec pick m.
Proof using Type.
  intros Hk. rewrite !entries_perm. apply omap_Permutation, NoDup_Permutation; [apply list.NoDup_filter, NoDup_map_to_list..|].
  intros [k v]. rewrite !list_elem_of_filter, !elem_of_map_to_list. cbn [fst]. split; intros [Hp Hl]; (split; [done|]); [rewrite <- Hk|rewrite Hk]; done.
Qed.
Lemma payments_same m m' : same_but token m m' -> get_payments m' ≡ₚ get_payments m.
Proof using Type. intros Hm. apply entries_same. intros k Hk. apply Hm; [intros o ->|intros ->]; done. Qed.
Lemma stewards_same m m' : same_but token m m' -> get_stewards m' ≡ₚ get_stewards m.
Proof using Type. intros Hm. apply entries_same. intros k Hk%bool_decide_unpack. apply Hm; [intros o ->|intros ->]; by destruct Hk. Qed.

Lemma gov_credit_step m0 s m b x dest a : at_view s m -> accounts token m0 m b x -> total m0 token <= minted m0 token -> 0 <= a -> minted m0 token + x + a <= MAX_VALUE ->
  exists s' m', gov_credit token dest a s = (s', Ok tt) /\ at_view s' m' /\ accounts token m0 m' (fun o => b o + if decide (o = dest) then a else 0) (x + a).
Proof using HU HC.
  intros [Ht Hv] [Hwf Hm Htot Hb Hf] Hle Ha Hroom. pose proof (bal_le_total m token dest Hwf) as Hbt. pose proof (bal_range m token dest Hwf) as Hbr. pose proof (minted_range m token Hwf) as Hmr.
  unfold in_u256 in Hbr, Hmr. assert (in_u256 a) as Hau by (unfold in_u256; lia).
  set (m' := <[mkey token := VAmount (minted m token + a)]> (<[bkey token dest := VAmount (bal m token dest + a)]> m)).
  assert (mkey token <> bkey token dest) as Hne by done. eexists _, m'. split; [|split; [split|split]].
  - unfold gov_credit, on_tokens. rewrite Hv, credit_tokens_eq by done. rewrite (proj2 (Z.leb_le (bal _ _ _ + a) _)), (proj2 (Z.leb_le (minted _ _ + a) _)) by lia. done.
  - done.
  - cbn [foldl fst snd negb]. rewrite lookup_insert_eq, lookup_insert_ne, lookup_insert_eq by done. rewrite !view_put by done. by rewrite Hv.
  - apply store_wf_set; [apply store_wf_set; [done|]|]; unfold in_u256; lia.
  - unfold m'. rewrite minted_set_eq. lia.
  - unfold m'. rewrite total_set_other, total_set_bal by done. lia.
  - intros o. unfold m'. rewrite bal_set_ne by done. rewrite <- Hb. destruct (decide (o = dest)) as [->|Hod]; [by rewrite bal_set_eq|]. rewrite bal_set_ne by (intros [=]; congruence). lia.
  - intros k Hk1 Hk2. unfold m'. rewrite !lookup_insert_ne by (done || by apply not_eq_sym). by apply Hf.
Qed.
Lemma funding_step m0 s m b x f : at_view s m -> accounts token m0 m b x -> total m0 token + x <= MAX_VALUE -> target (detail f) <> PGF -> in_u256 (target_amount (detail f)) ->
  exists s' m', attempt (gov_transfer token PGF (target (detail f)) (target_amount (detail f))) s = (s', Ok tt) /\ at_view s' m' /\ accounts token m0 m' (paid b f) x.
Proof using HU HC.
  intros [Ht Hv] Hac Hroom Htg Hin. set (a := target_amount (detail f)) in *. pose proof Hac as [Hwf Hm Htot Hb Hf]. unfold attempt.
  destruct (decide (a = 0)) as [H0|H0].
  { exists s, m. split_and!; [by rewrite H0|done..|]. apply (accounts_ext _ _ _ _ _ _ Hac). intros o. unfold paid. fold a. rewrite H0. destruct (_ <=? _); repeat case_decide; lia. }
  destruct (Z.leb_spec a (b PGF)) as [Hle|Hgt].
  - pose proof (bal_le_total _ token (target (detail f)) Hwf) as Hbt. pose proof (bal_le_total (<[bkey token PGF := VAmount (bal m token PGF - a)]> m) token (target (detail f))) as Hbt'.
    pose proof (bal_range m token PGF Hwf) as Hr1. pose proof (bal_range m token (target (detail f)) Hwf) as Hr2. unfold in_u256 in Hin, Hr1, Hr2. rewrite <- Hb in Hle.
    rewrite total_set_bal, bal_set_ne in Hbt' by (intros [=]; congruence). specialize (Hbt' ltac:(apply store_wf_set; [done|unfold in_u256; lia])).
    destruct (gov_transfer_run token s m PGF (target (detail f)) a) as (s' & Hrun & Hav); [done|done|done|lia|done|done|lia|]. rewrite Hrun. eexists s', _. split; [done|]. split; [exact Hav|]. split.
    + apply store_wf_set; [apply store_wf_set; [done|]|]; unfold in_u256; lia.
    + by rewrite !minted_set_ne by done.
    + rewrite total_set_bal, total_set_bal, (bal_set_ne m) by (intros [=]; congruence). lia.
    + intros o. unfold paid. fold a. rewrite <- !Hb. rewrite (proj2 (Z.leb_le _ _) Hle). destruct (decide (o = target (detail f))) as [->|Ho]; [rewrite bal_set_eq, decide_False by done; lia|].
      rewrite bal_set_ne by (intros [=]; congruence). destruct (decide (o = PGF)) as [->|Ho']; [rewrite bal_set_eq; lia|]. rewrite bal_set_ne by (intros [=]; congruence). lia.
    + intros k Hk1 Hk2. rewrite !lookup_insert_ne by by apply not_eq_sym. by apply Hf.
  - exists s, m. split_and!; [|done..|].
    + unfold gov_transfer, on_tokens, amount_is_zero. rewrite Hv, (proj2 (Z.eqb_neq a 0)), transfer_eq by done. rewrite Hb, (proj2 (Z.leb_gt _ _) Hgt). done.
    + apply (accounts_ext _ _ _ _ _ _ Hac). intros o. unfold paid. fold a. by rewrite (proj2 (Z.leb_gt _ _) Hgt).
Qed.
Definition funding_ok (f : StoragePgfFunding) : Prop := target (detail f) <> PGF /\ in_u256 (target_amount (detail f)).
Lemma fundings_run m0 fs x : total m0 token + x <= MAX_VALUE -> Forall funding_ok fs -> forall s m b, at_view s m -> accounts token m0 m b x ->
  exists s' m', st_iter (fun f => attempt (gov_transfer token PGF (target (detail f)) (target_amount (detail f)))) fs s = (s', Ok tt) /\ at_view s' m' /\
    accounts token m0 m' (foldl paid b fs) x.
Proof using HU HC.
  intros Hroom. induction 1 as [|f fs [Hf1 Hf2] _ IH]; intros s m b Hv Hac; [by exists s, m|].
  destruct (funding_step m0 s m b x f Hv Hac Hroom Hf1 Hf2) as (s1 & m1 & Hrun & Hv1 & Hac1). destruct (IH s1 m1 _ Hv1 Hac1) as (s2 & m2 & Hrun2 & Hv2 & Hac2).
  exists s2, m2. split; [|done]. cbn [st_iter]. erewrite st_bind_run by exact Hrun. exact Hrun2.
Qed.

(** The rewards of stewards, for the supply [supply] and the yearly rate [rate] *)
Context (supply rate epochs : Z) (Hsupply : 0 <= supply <= MAX_TOKENS) (Hrate : 0 <= rate <= SC) (Hepochs : 0 < epochs <= U64_MAX).
Notation reward := (steward_amount supply rate epochs).
Notation rewards_of := (steward_rewards supply rate epochs).
Definition fraction_ok (z : Z) : Prop := exists f, z = srep f /\ 0 <= f <= SC.
Definition pay_steward (e : Address * Z) : st Layers GovError unit :=
  let! o := st_lift (dec_checked_mul (srep (per_epoch supply rate epochs)) e.2) in
  let! reward_amount := st_lift (amount_from_dec (default 0 o)) in
  attempt (gov_credit token e.1 reward_amount).
Definition entry_reward (e : Address * Z) : Address * Z := (e.1, reward (sval e.2)).

Lemma fraction_sval z : fraction_ok z -> z = srep (sval z) /\ 0 <= sval z <= SC.
Proof using HU. intros (f & -> & Hf). rewrite sval_srep by (apply (i256_bound _ (10 ^ 12)); unfold SC in *; lia). done. Qed.
Lemma pay_steward_run m0 s m b x e : at_view s m -> accounts token m0 m b x -> total m0 token <= minted m0 token -> fraction_ok e.2 ->
  minted m0 token + x + reward (sval e.2) <= MAX_VALUE ->
  exists s' m', pay_steward e s = (s', Ok tt) /\ at_view s' m' /\
    accounts token m0 m' (fun o => b o + rewarded o [entry_reward e]) (x + reward (sval e.2)) /\ 0 <= reward (sval e.2).
Proof using HU HC Hsupply Hrate Hepochs.
  intros Hv Hac Hle [He Hf]%fraction_sval Hroom. destruct (steward_amount_run (E:=GovError) supply rate epochs (sval e.2) Hsupply Hrate Hepochs Hf) as [Hrun H0].
  apply out_bind_Ok in Hrun as (o & Hmul & Hamt). destruct (gov_credit_step m0 s m b x e.1 (reward (sval e.2)) Hv Hac Hle H0 Hroom) as (s' & m' & Hcr & Hv' & Hac').
  exists s', m'. split; [|split_and!; [done| |done]].
  - unfold pay_steward. erewrite st_bind_run by (unfold st_lift; rewrite He, Hmul; reflexivity). erewrite st_bind_run by (unfold st_lift; rewrite Hamt; reflexivity). unfold attempt. by rewrite Hcr.
  - apply (accounts_ext _ _ _ _ _ _ Hac'). intros o'. unfold rewarded, entry_reward. cbn. rewrite sumZ_cons, sumZ_nil. repeat case_decide; congruence || lia.
Qed.
Lemma pay_stewards_run m0 l : total m0 token <= minted m0 token -> Forall (fun e : Address * Z => fraction_ok e.2) l ->
  forall s m b x, at_view s m -> accounts token m0 m b x -> minted m0 token + x + sumZ (entry_reward <$> l).*2 <= MAX_VALUE ->
  exists s' m', st_iter pay_steward l s = (s', Ok tt) /\ at_view s' m' /\ accounts token m0 m' (fun o => b o + rewarded o (entry_reward <$> l)) (x + sumZ (entry_reward <$> l).*2) /\
    0 <= sumZ (entry_reward <$> l).*2.
Proof using HU HC Hsupply Hrate Hepochs.
  intros Hle. induction 1 as [|e l He Hl IH]; intros s m b x Hv Hac Hroom.
  - exists s, m. cbn. rewrite sumZ_nil, Z.add_0_r. split_and!; try done. apply (accounts_ext _ _ _ _ _ _ Hac). intros o. unfold rewarded. cbn. rewrite sumZ_nil. lia.
  - rewrite !fmap_cons, sumZ_cons in *. cbn [entry_reward snd] in *.
    assert (0 <= sumZ (entry_reward <$> l).*2) as Hpos.
    { apply sumZ_nonneg. rewrite <- list_fmap_compose. apply Forall_fmap. eapply list.Forall_impl; [exact Hl|]. intros e' [_ Hf]%fraction_sval. by apply (steward_amount_run (E:=GovError)). }
    destruct (pay_steward_run m0 s m b x e Hv Hac Hle He ltac:(lia)) as (s1 & m1 & Hrun & Hv1 & Hac1 & H0).
    destruct (IH s1 m1 _ _ Hv1 Hac1 ltac:(lia)) as (s2 & m2 & Hrun2 & Hv2 & Hac2 & _). exists s2, m2. split_and!; [|done| |lia].
    + cbn [st_iter]. erewrite st_bind_run by exact Hrun. exact Hrun2.
    + rewrite Z.add_assoc. apply (accounts_ext _ _ _ _ _ _ Hac2). intros o. change (entry_reward e :: (entry_reward <$> l)) with ([entry_reward e] ++ (entry_reward <$> l)). rewrite rewarded_app. lia.
Qed.
End pgf.

(** ** Public goods funding *)
Lemma st_iter_bind {S E A B} (f : B -> st S E unit) (g : A -> list B) l s : st_iter (fun a => st_iter f (g a)) l s = st_iter f (l ≫= g) s.
Proof.
  revert s. induction l as [|a l IH]; intros s; [done|]. cbn [mbind list_bind]. rewrite st_iter_app. cbn [st_iter]. unfold st_bind. destruct (st_iter f (g a) s) as [s' [[]| |]]; [apply IH|done..].
Qed.
Lemma by_id_sorted l : StronglySorted by_id (sort_le by_id l).
Proof.
  apply sort_le_sorted; unfold by_id.
  - intros x y. destruct (Z.leb_spec (funding_id x) (funding_id y)), (Z.leb_spec (funding_id y) (funding_id x)); done || lia.
  - intros x y z. rewrite !Is_true_true, !Z.leb_le. lia.
Qed.
Lemma st_bind_ext {S E A B} (m : st S E A) (k k' : A -> st S E B) s : (forall a s', k a s' = k' a s') -> st_bind m k s = st_bind m k' s.
Proof. intros Hk. unfold st_bind. by destruct (m s) as [s' [a| |]]. Qed.
Definition recipients (stewards : list StewardDetail) : list (Address * Z) := stewards ≫= (fun d => map_to_list (reward_distribution d)).
Lemma steward_rewards_eq supply rate epochs l : steward_rewards supply rate epochs l = entry_reward supply rate epochs <$> recipients l.
Proof.
  unfold recipients, steward_rewards. induction l as [|d l IH]; [done|]. cbn [mbind list_bind]. by rewrite IH, fmap_app.
Qed.
#[export] Instance recipients_perm : Proper (Permutation ==> Permutation) recipients.
Proof. intros l k Hl. unfold recipients. by apply bind_Permutation. Qed.

Section apply_pgf.
Context {U : UintOps} {HU : UintLaws U} {C : AddressCodec} {HC : AddressCodecLaws C} (token : Address).

(** What is stored for public goods funding: the rates, fundings to other
    accounts, the parts of the stewards; and the balances of the token are backed
    by its supply. *)
Record pgf_ok (m : store) (rate steward_rate : Z) : Prop := {
  pg_rate : m !! get_pgf_inflation_rate_key = Some (VDec (srep rate)) /\ 0 <= rate <= SC;
  pg_steward_rate : m !! get_steward_inflation_rate_key = Some (VDec (srep steward_rate)) /\ 0 <= steward_rate <= SC;
  pg_backed : total m token <= minted m token;
  pg_fundings : Forall funding_ok (get_payments m);
  pg_fractions : Forall (fun e : Address * Z => fraction_ok e.2) (recipients (get_stewards m));
  pg_recipients : Z.of_nat (List.length (recipients (get_stewards m))) <= U64_MAX
}.
Lemma pgf_ok_same m m' rate steward_rate : pgf_ok m rate steward_rate -> same_but token m m' -> total m' token - total m token <= minted m' token - minted m token -> pgf_ok m' rate steward_rate.
Proof using Type.
  intros [Hr Hs Hb Hf Hd Hn] Hm Ht. pose proof (stewards_same token m m' Hm) as Hst. pose proof (payments_same token m m' Hm) as Hpa. split.
  - by rewrite Hm.
  - by rewrite Hm.
  - lia.
  - by rewrite Hpa.
  - by rewrite Hst.
  - by rewrite Hst.
Qed.

(** The balances after public goods funding has been paid out *)
Record pgf_paid (m m' : store) (amount : Z) (rewards : list (Address * Z)) : Prop := {
  pp_wf : store_wf m';
  pp_minted : minted m' token = minted m token + amount + sumZ rewards.*2;
  pp_total : total m' token = total m token + amount + sumZ rewards.*2;
  pp_balances : exists fundings, fundings ≡ₚ get_payments m /\ StronglySorted by_id fundings /\
    forall o, bal m' token o = foldl paid (fun o => bal m token o + if decide (o = PGF) then amount else 0) fundings o + rewarded o rewards;
  pp_frame : same_but token m m'
}.

Lemma rewards_bound supply rate epochs l : 0 <= supply <= MAX_TOKENS -> 0 <= rate <= SC -> 0 < epochs -> Forall (fun e : Address * Z => fraction_ok e.2) l ->
  sumZ (entry_reward supply rate epochs <$> l).*2 <= Z.of_nat (List.length l) * 10 ^ 42.
Proof using HU.
  intros Hs Hr He. pose proof SC_pos as HS. destruct (per_epoch_bounds supply rate epochs Hs Hr He) as (_ & Hp & _).
  induction 1 as [|e l [_ Hf]%fraction_sval _ IH]; [done|]. rewrite !fmap_cons, sumZ_cons. cbn [entry_reward snd List.length].
  assert (steward_amount supply rate epochs (sval e.2) <= 10 ^ 42); [|lia].
  unfold steward_amount. transitivity (per_epoch supply rate epochs * sval e.2 / SC); [apply Z.div_le_upper_bound; [lia|]|apply Z.div_le_upper_bound; [lia|nia]].
  assert (0 <= per_epoch supply rate epochs * sval e.2 / SC) by (apply Z.div_pos; nia). unfold SC in *. nia.
Qed.

(** The amounts that the two rates give *)
Lemma apply_pgf_unfold m s0 supply rate steward_rate epochs : pgf_ok m rate steward_rate -> at_view s0 m -> m !! mkey token = Some (VAmount supply) -> 0 <= supply <= MAX_TOKENS -> 0 < epochs <= U64_MAX ->
  apply_pgf_inflation token epochs s0 =
  (do! gov_credit token PGF (pgf_amount supply rate epochs) in
   let! m := st_get view in
   do! st_iter (fun f => attempt (gov_transfer token PGF (target (detail f)) (target_amount (detail f)))) (sort_le by_id (get_payments m)) in
   let! m := st_get view in
   st_iter (pay_steward token supply steward_rate epochs) (recipients (get_stewards m))) s0.
Proof using HU.
  intros [[Hr1 Hr2] [Hq1 Hq2] _ _ _ _] [_ Hv] Hm Hs He.
  destruct (rate_run (E:=GovError) supply rate epochs Hs Hr2 He) as (Hd1 & Hd2 & Hd3). destruct (rate_run (E:=GovError) supply steward_rate epochs Hs Hq2 He) as (Hd4 & _ & Hd6).
  destruct (per_epoch_bounds supply rate epochs Hs Hr2 ltac:(lia)) as (_ & Hp & _). unfold apply_pgf_inflation.
  assert (forall {A} (dec : value -> option A) k v x, m !! k = Some v -> dec v = Some x -> gread dec k s0 = (s0, Ok (Some x))) as Hread.
  { intros A dec k v x Hk Hx. unfold gread, read_value. by rewrite Hv, Hk, Hx. }
  rewrite (st_bind_run _ _ _ _ _ (Hread _ as_dec _ _ _ Hr1 eq_refl)), (st_bind_run _ _ s0 s0 (srep rate)) by done.
  rewrite (st_bind_run _ _ _ _ _ (Hread _ as_dec _ _ _ Hq1 eq_refl)), (st_bind_run _ _ s0 s0 (srep steward_rate)) by done.
  rewrite (st_bind_run _ _ _ _ _ (Hread _ as_amount _ _ _ Hm eq_refl)), (st_bind_run _ _ s0 s0 supply) by done.
  rewrite (st_bind_run _ _ s0 s0 (srep (epochs * SC))) by (unfold st_lift; rewrite sfrom_u64; done || lia).
  rewrite (st_bind_run _ _ s0 s0 (srep (rate / epochs))) by (unfold st_lift; by rewrite Hd1).
  rewrite (st_bind_run _ _ s0 s0 (srep (supply * AMOUNT_SCALE))) by (unfold st_lift; by rewrite Hd2).
  rewrite (st_bind_run _ _ s0 s0 (srep (per_epoch supply rate epochs))) by (unfold st_lift; by rewrite Hd3).
  rewrite (st_bind_run _ _ s0 s0 (pgf_amount supply rate epochs)) by (unfold st_lift; rewrite samount; [done|lia|apply (i256_bound _ (10 ^ 42)); lia]).
  apply st_bind_ext. intros _ s1. apply st_bind_ext. intros m1 s1'. apply st_bind_ext. intros _ s2'. apply st_bind_ext. intros m2 s2.
  rewrite (st_bind_run _ _ s2 s2 (srep (steward_rate / epochs))) by (unfold st_lift; by rewrite Hd4).
  rewrite (st_bind_run _ _ s2 s2 (srep (per_epoch supply steward_rate epochs))) by (unfold st_lift; by rewrite Hd6).
  apply st_iter_bind.
Qed.
Lemma apply_pgf_ok m supply rate steward_rate epochs : pgf_ok m rate steward_rate -> store_wf m -> m !! mkey token = Some (VAmount supply) -> 0 <= supply <= MAX_TOKENS -> 0 < epochs <= U64_MAX ->
  exists m', on_layers (apply_pgf_inflation token epochs) m = (m', Ok tt) /\
    pgf_paid m m' (pgf_amount supply rate epochs) (steward_rewards supply steward_rate epochs (get_stewards m)).
Proof using HU HC.
  intros Hok Hwf Hm Hs He. pose proof Hok as [[_ Hr2] [_ Hq2] Hback Hfund Hfrac Hrec]. set (a := pgf_amount supply rate epochs). pose proof SC_pos as HS.
  destruct (per_epoch_bounds supply rate epochs Hs Hr2 ltac:(lia)) as (_ & Hp & _).
  assert (0 <= a <= 10 ^ 42) as Ha by (by apply div_bounds). assert (minted m token = supply) as Hmint by (unfold minted; by rewrite Hm).
  pose proof (rewards_bound supply steward_rate epochs _ Hs Hq2 ltac:(lia) Hfrac) as Hrb.
  assert (forall x, 0 <= x <= 10 ^ 62 -> x <= MAX_VALUE) as Hbig by (intros x Hx; etransitivity; [apply Hx|by vm_compute]).
  assert (at_view (mkLayers m ∅ ∅) m) as Hv0 by (split; [done|apply view_db]).
  assert (accounts token m m (fun o => bal m token o) 0) as Hac0 by (split; rewrite ?Z.add_0_r; done).
  destruct (gov_credit_step token m _ m _ 0 PGF a Hv0 Hac0 Hback (proj1 Ha)) as (s1 & m1 & Hrun1 & Hv1 & Hac1); [apply Hbig; unfold MAX_TOKENS in *; lia|].
  pose proof (payments_same token m m1 (ac_frame _ _ _ _ _ Hac1)) as Hpay. set (fs := sort_le by_id (get_payments m1)).
  assert (fs ≡ₚ get_payments m) as Hfs by (unfold fs; by rewrite sort_le_perm, Hpay).
  destruct (fundings_run token m fs (0 + a)) with (s := s1) (m := m1) (b := fun o => bal m token o + if decide (o = PGF) then a else 0) as (s2 & m2 & Hrun2 & Hv2 & Hac2);
    [transitivity (supply + a); [lia|apply Hbig; unfold MAX_TOKENS in *; lia]|by rewrite Hfs|done..|].
  pose proof (recipients_perm _ _ (stewards_same token m m2 (ac_frame _ _ _ _ _ Hac2))) as Hrp.
  destruct (pay_stewards_run token supply steward_rate epochs Hs Hq2 He m (recipients (get_stewards m2)) Hback) with (s := s2) (m := m2) (b := foldl paid (fun o => bal m token o + if decide (o = PGF) then a else 0) fs) (x := 0 + a)
    as (s3 & m3 & Hrun3 & Hv3 & Hac3 & Hpos); [by rewrite Hrp|done..| |].
  { rewrite Hrp. etransitivity; [|apply (Hbig (10 ^ 62)); lia]. unfold MAX_TOKENS, U64_MAX in *. lia. }
  exists m3. split.
  - unfold on_layers. rewrite (apply_pgf_unfold m _ supply rate steward_rate) by done. rewrite (st_bind_run _ _ _ _ _ Hrun1), (st_bind_run _ _ s1 s1 m1) by (unfold st_get; by rewrite (proj2 Hv1)).
    rewrite (st_bind_run _ _ _ _ _ Hrun2), (st_bind_run _ _ s2 s2 m2) by (unfold st_get; by rewrite (proj2 Hv2)). rewrite Hrun3. cbn [fst snd]. by rewrite (proj2 Hv3).
  - destruct Hac3 as [H1 H2 H3 H4 H5]. rewrite Hrp in H2, H3. rewrite steward_rewards_eq. split; [done|lia|lia| |done].
    exists fs. split; [done|]. split; [by apply by_id_sorted|]. intros o. rewrite H4. f_equal. by rewrite Hrp.
Qed.
End apply_pgf.

(** ** Both inflations *)
Lemma distributed_total s epoch n amount stake rate s' nam : distributed s epoch n amount stake rate s' nam -> total (balances (pos s')) nam = total (balances (pos s)) nam + amount.
Proof.
  intros [_ Hb _ _ _ _ _ Hf _]. assert (POS <> GOV) as Hne by done.
  pose proof (total_diff (balances (pos s)) (balances (pos s')) nam [bkey nam POS; bkey nam GOV; mkey nam]) as Ht.
  unfold Token.over in Ht. rewrite !fmap_cons, fmap_nil in Ht. rewrite !is_balance_key_bkey, is_balance_key_mkey, !sumZ_cons, sumZ_nil in Ht. unfold Token.diff in Ht.
  pose proof (Hb nam POS) as H1. pose proof (Hb nam GOV) as H2. unfold bal in H1, H2. unfold amt in Ht. rewrite H1, H2 in Ht.
  rewrite (decide_True (P := nam = nam /\ POS = POS)), (decide_False (P := nam = nam /\ POS = GOV)), (decide_False (P := nam = nam /\ GOV = POS)), (decide_True (P := nam = nam /\ GOV = GOV)) in Ht by naive_solver.
  rewrite <- (Z.sub_add (total (balances (pos s)) nam) (total (balances (pos s')) nam)), Ht; [lia| |].
  - repeat constructor; set_solver.
  - intros k Hk. symmetry. apply Hf; set_solver.
Qed.
Lemma distributed_frame s epoch n amount stake rate s' nam : distributed s epoch n amount stake rate s' nam -> same_but nam (balances (pos s)) (balances (pos s')).
Proof. intros Hd k Hk1 Hk2. by apply (di_frame _ _ _ _ _ _ _ _ Hd). Qed.
Lemma inflation_le_supply amount supply epochs rate : 0 <= supply -> 0 <= amount -> 0 < epochs -> 0 <= rate <= SC -> amount * SC * epochs <= supply * rate -> amount <= supply.
Proof. intros Hs Ha He Hr Hle. pose proof SC_pos. assert (amount * SC <= amount * SC * epochs) by nia. nia. Qed.
(** A millionth of the yearly rate, over the epochs of a year *)
Lemma pgf_amount_cap supply rate epochs : 0 <= supply <= MAX_TOKENS -> 0 <= rate <= SC -> 0 < epochs ->
  0 <= pgf_amount supply rate epochs /\ pgf_amount supply rate epochs * 10 ^ 6 * SC * epochs <= supply * rate.
Proof.
  intros Hs Hr He. pose proof SC_pos as HS. destruct (per_epoch_bounds supply rate epochs Hs Hr He) as (_ & Hp & Hcap).
  pose proof (Z.mul_div_le (per_epoch supply rate epochs) SC ltac:(lia)) as Hd. fold (pgf_amount supply rate epochs) in Hd.
  assert (0 <= pgf_amount supply rate epochs) as H0 by (apply Z.div_pos; lia). split; [done|]. set (x := pgf_amount supply rate epochs) in *. set (y := per_epoch supply rate epochs) in *.
  assert (SC * x * (SC * epochs) <= y * (SC * epochs)) by (apply Z.mul_le_mono_nonneg_r; lia). unfold AMOUNT_SCALE, SC in *. nia.
Qed.

(** ** A concrete epoch *)
Module RefEpoch.
Import RefRewards.
Definition fund (a : Address) (x id : Z) : value := VGov (GFunding (mkFunding (mkTarget a x) id)).
Definition steward : StewardDetail := mkSteward v1 {[v1 := 4 * 10 ^ 11; v2 := 6 * 10 ^ 11]}.
Definition stored : store :=
  {[mkey nam := VAmount (10 ^ 13); bkey nam v1 := VAmount (10 ^ 12);
    get_pgf_inflation_rate_key := VDec (10 ^ 11); get_steward_inflation_rate_key := VDec (10 ^ 10);
    steward_key v1 := VGov (GSteward steward);
    funding_key v1 := fund v1 (10 ^ 6) 3; funding_key v2 := fund v2 2000 7]}.
Definition last_block : RewardsState := set_pos (set_balances stored (pos final)) final.

Lemma stored_wf : store_wf stored.
Proof.
  change (map_Forall (fun k v => amount_key k -> exists a, v = VAmount a /\ in_u256 a) stored).
  repeat (apply map_Forall_insert_2); try apply map_Forall_empty;
    first [intros _; eexists; (split; [reflexivity|apply small_u256; lia])|intros [Hk|Hk]; by destruct Hk].
Qed.
Lemma stored_total : total stored nam = 10 ^ 12 /\ minted stored nam = 10 ^ 13.
Proof. vm_compute. auto. Qed.
Lemma stored_pgf : pgf_ok (C:=RefCodec.codec) nam stored (10 ^ 11) (10 ^ 10).
Proof.
  destruct stored_total as [Ht Hm]. split.
  - split; [reflexivity|unfold SC; lia].
  - split; [reflexivity|unfold SC; lia].
  - rewrite Ht, Hm. lia.
  - assert (get_payments (C:=RefCodec.codec) stored = [mkFunding (mkTarget v1 (10 ^ 6)) 3; mkFunding (mkTarget v2 2000) 7]) as -> by (vm_compute; reflexivity).
    repeat constructor; (discriminate || (apply small_u256; cbn; lia)).
  - assert (recipients (get_stewards (C:=RefCodec.codec) stored) = [(v2, 6 * 10 ^ 11); (v1, 4 * 10 ^ 11)]) as -> by (vm_compute; reflexivity).
    apply Forall_cons; [exists (6 * 10 ^ 11)|apply Forall_cons; [exists (4 * 10 ^ 11)|apply Forall_nil]]; (split; [reflexivity|unfold SC; lia]).
  - vm_compute. discriminate.
Qed.
Lemma last_inflation : inflation_ok (U:=Ref.uint_ref) params last_block 1 (10 ^ 13) 9000000.
Proof. destruct final_inflation as [_ H2 H3]. split; [vm_compute; reflexivity|exact H2|exact H3]. Qed.
Lemma last_room : room last_block MAX_TOKENS nam.
Proof.
  split; [exact stored_wf|vm_compute; discriminate..|exact (rm_counters _ _ _ final_room)].
Qed.
Lemma last_blocks : epoch_blocks (U:=Ref.uint_ref) params 1 10 kind stake 9000000 12 last_block.
Proof. by apply (eb_other _ _ _ _ _ _ _ final); [apply blocks|]. Qed.
End RefEpoch.

(** C5. From the first block of an epoch to the first block of the next one: when
    at each block at most one set of rewards was logged, the two inflations that
    are then applied return. The inflation of proof of stake, which ends in [s1],
    mints at most the maximal rate of the supply over the epochs of a year, and
    mints it in full: the rewards of the validators to the account of proof of
    stake, the rest to governance. Every validator with an accumulator gets its
    product for the epoch and its commission in its counter, nobody else gets
    anything; the accumulators are cleared. And what was minted is enough: whatever
    the parts in which a validator's stake is held, the claims on them and the
    commission are at most the validator's reward, and the rewards add up to what
    the account of proof of stake got. The inflation of public goods funding then
    changes nothing but balances and the supply of the native token, and makes no
    token but what it mints: its own amount, out of which the fundings are paid in
    the order of their ids, each in full or, when the account does not cover it,
    not at all; and the rewards of the stewards, a part of a rate each. The amount
    is at most a millionth of the yearly rate of the supply over the epochs of a
    year: the conversion of decimals of whole tokens to amounts loses the
    factor. This is for amounts and rates within their bounds, a supply that covers
    the balances, stewards whose parts are between zero and one, and fundings that
    go to other accounts than the one they are paid from, to which a transfer would
    mint. *)
Theorem epoch_inflation_distributed {U : UintOps} {HU : UintLaws U} {C : AddressCodec} {HC : AddressCodecLaws C} (params : PosParams) (s : RewardsState)
    (epoch : Epoch) (kind : gmap Address ValidatorState) (stake rate : Address -> Z) (T pr sr supply locked height : Z) (first_block_heights : list Z) (first pgf_rate steward_rate : Z) :
  reward_params_ok params pr sr -> 0 <= epoch < U64_MAX -> first_block_heights !! Z.to_nat epoch = Some first -> 0 <= first < height -> height <= U64_MAX ->
  epoch_blocks params epoch first kind stake T height s ->
  (forall v, v ∈ dom (rewards_accumulator s) -> read_validator_stake (E:=InflationError) params (sets (pos s)) v epoch = Ok (stake v)) ->
  (forall v, v ∈ dom (rewards_accumulator s) -> commission_rate_at (F:=InflationError) params s v epoch = Ok (srep (rate v)) /\ 0 <= rate v <= SC) ->
  inflation_ok params s epoch supply locked -> room s MAX_TOKENS (native_token (info (pos s))) ->
  2 * supply <= MAX_TOKENS -> pgf_ok (native_token (info (pos s))) (balances (pos s)) pgf_rate steward_rate ->
  let nam := native_token (info (pos s)) in
  let n := height - first in
  exists s1 amount m', shell_apply_inflation params first_block_heights height (epoch + 1) s = (set_pos (set_balances m' (pos s1)) s1, Ok tt) /\
    pos_inflation_amount s1 = amount /\ 0 <= amount /\ amount * SC * epochs_per_year s <= supply * sval (max_inflation_rate params) /\
    distributed s epoch n amount stake rate s1 nam /\
    0 <= rewards_total s n amount <= amount /\
    (forall v (parts : list Z), v ∈ dom (rewards_accumulator s) -> Forall (fun a => 0 <= a) parts -> sumZ parts <= stake v ->
      exists claims, out_map (dec_mul_amount (E:=InflationError) (product (rewards_entry s n amount stake rate v))) parts = Ok claims /\
        sumZ claims + commissions (rewards_entry s n amount stake rate v) <= reward_at s n amount v) /\
    let pgf := pgf_amount (supply + amount) pgf_rate (epochs_per_year s) in
    pgf_paid nam (balances (pos s1)) m' pgf (steward_rewards (supply + amount) steward_rate (epochs_per_year s) (get_stewards (balances (pos s1)))) /\
    get_stewards (balances (pos s1)) ≡ₚ get_stewards (balances (pos s)) /\ get_payments (balances (pos s1)) ≡ₚ get_payments (balances (pos s)) /\
    0 <= pgf /\ pgf * 10 ^ 6 * SC * epochs_per_year s <= (supply + amount) * pgf_rate.
Proof.
  intros Hp Hep Hfirst Hh Hmax Hblocks Hst Hra Hinf Hroom Hsup Hpgf nam n.
  destruct (epoch_blocks_inv params _ _ _ _ _ pr sr height s Hp Hep (proj1 Hh) Hmax Hblocks) as (_ & Hf & Hsum & Hpos).
  assert (forall amount, 0 <= amount <= MAX_TOKENS -> epoch_ok params s epoch (height - first) amount stake rate) as Heo.
  { intros amount Ha. split; [lia|done|done|done| |done]. intros v Hv. split; auto. }
  destruct (apply_inflation_ok params s epoch (height - first) supply locked stake rate Hinf Hroom Heo) as (s1 & amount & Hrun & Hamt & _ & Hrange & Hcap & Hd). fold nam in Hd, Hpgf.
  pose proof Hinf as [Hmint _ Hcon]. pose proof (co_native _ Hcon) as Hs0. pose proof (co_epochs _ Hcon) as He. destruct (co_rate _ Hcon) as (r & Hr1 & Hr2).
  cbn [controller_of total_native_tokens controller_epochs_per_year max_reward_rate] in Hs0, He, Hr1.
  assert (sval (max_inflation_rate params) = r) as Hsv by (rewrite Hr1; apply sval_srep, (i256_bound _ (10 ^ 12)); unfold SC in *; lia).
  assert (amount <= supply) as Hle by (rewrite Hsv in Hcap; apply (inflation_le_supply amount supply (epochs_per_year s) r); (done || lia)).
  pose proof (distributed_frame _ _ _ _ _ _ _ _ Hd) as Hframe. pose proof (distributed_total _ _ _ _ _ _ _ _ Hd) as Htot. pose proof (di_minted _ _ _ _ _ _ _ _ Hd nam) as Hm1. rewrite decide_True in Hm1 by done.
  assert (minted (balances (pos s1)) nam = supply + amount) as Hm1' by (rewrite Hm1; unfold minted, nam; by rewrite Hmint).
  assert (native_token (info (pos s1)) = nam /\ epochs_per_year s1 = epochs_per_year s) as [Hn1 He1] by (destruct (di_rest _ _ _ _ _ _ _ _ Hd) as (P' & C' & st & -> & _ & _ & ->); done).
  destruct (apply_pgf_ok nam (balances (pos s1)) (supply + amount) pgf_rate steward_rate (epochs_per_year s)) as (m' & Hrun' & Hpaid);
    [eapply pgf_ok_same; [exact Hpgf|done|lia]|by eapply di_store|rewrite <- Hm1'; by eapply di_supply|lia|done|].
  exists s1, amount, m'. split_and!; try done; try lia.
  - unfold shell_apply_inflation. rewrite (st_bind_run _ _ s s epoch) by (unfold st_lift, epoch_prev; rewrite u64_sub_ok by lia; by rewrite Z.add_simpl_r).
    rewrite (st_bind_run _ _ s s first) by (unfold st_lift; by rewrite Hfirst). rewrite (st_bind_run _ _ s s (height - first)) by (unfold st_lift; rewrite u64_sub_ok by lia; done).
    rewrite (st_bind_run _ _ s s1 tt) by (unfold map_err; by rewrite Hrun). rewrite (st_bind_run _ _ s1 s1 s1) by done.
    unfold zoom, map_err. rewrite Hn1, He1, Hrun'. done.
  - by eapply rewards_total_bounds, Heo.
  - by eapply rewards_total_bounds, Heo.
  - intros v parts. by eapply claims_ok, Heo.
  - cbv zeta. split_and!; [done|by eapply stewards_same|by eapply payments_same|..];
      apply (pgf_amount_cap (supply + amount) pgf_rate (epochs_per_year s) ltac:(lia) (proj2 (pg_rate _ _ _ _ Hpgf)) (proj1 He)).
Qed.
Lemma epoch_inflation_distributed_witness :
  exists s1 amount m', shell_apply_inflation (U:=Ref.uint_ref) (C:=RefCodec.codec) RefRewards.params [0; 10] 12 2 RefEpoch.last_block = (set_pos (set_balances m' (pos s1)) s1, Ok tt) /\
    0 <= amount /\ distributed RefEpoch.last_block 1 2 amount RefRewards.stake RefRewards.rate s1 RefRewards.nam /\
    total m' RefRewards.nam - total (balances (pos s1)) RefRewards.nam = minted m' RefRewards.nam - minted (balances (pos s1)) RefRewards.nam.
Proof.
  destruct (epoch_inflation_distributed (HU:=Ref.uint_ref_laws) (HC:=RefCodec.codec_laws) RefRewards.params RefEpoch.last_block 1 RefRewards.kind RefRewards.stake RefRewards.rate
    9000000 (125 * 10 ^ 9) (10 ^ 11) (10 ^ 13) 9000000 12 [0; 10] 10 (10 ^ 11) (10 ^ 10)) as (s1 & amount & m' & H1 & _ & H2 & _ & H3 & _ & _ & H4 & _).
  - apply RefRewards.params_rewards.
  - split; [lia|vm_compute; reflexivity].
  - reflexivity.
  - lia.
  - vm_compute. discriminate.
  - apply RefEpoch.last_blocks.
  - intros v _. apply (RefRewards.base_consensus RefRewards.two_blocks).
  - intros v Hv. apply RefRewards.logged in Hv as [-> | ->]; (split; [vm_compute; reflexivity|vm_compute; split; discriminate]).
  - apply RefEpoch.last_inflation.
  - apply RefEpoch.last_room.
  - unfold MAX_TOKENS. lia.
  - apply RefEpoch.stored_pgf.
  - exists s1, amount, m'. split; [exact H1|]. split; [exact H2|]. split; [exact H3|].
    destruct H4 as [_ Hm Ht _ _]. change (native_token (info (pos RefEpoch.last_block))) with RefRewards.nam in Hm, Ht. lia.
Defined.
