(* ===== verification/GovernanceVp.v ===== *)
(** * The validity predicates of governance and of public goods funding

    [shared/src/ledger/governance/mod.rs] and [shared/src/ledger/pgf/mod.rs]: what
    a transaction may change of the proposals, the votes, the parameters and the
    stewards. The predicates read the state before and after the transaction
    ([pre] and [post]), the proof-of-stake state before it, the epoch of the block,
    the changed keys in the order of their set and the addresses whose predicates
    accept the transaction. Arguments of a log line are evaluated when the log
    level is enabled ([info_log]). *)

From Stdlib Require Import ZArith Lia Ascii String.
From stdpp Require Import base numbers list gmap sorting option.
From S2P Require Import Prelude Uint Int256 Dec Keys WriteLog GovTypes Token Epoch Params Epoched Slash Unbond ValidatorSet WlStorage Lifecycle Bonds Inflation Governance.

Local Open Scope Z_scope.

Inductive GovVpError : Type :=
| GovVpDecode
| EmptyProposalField (k : Key)
| InvalidVoteKey (k : Key)
| InvalidVoteType.

Inductive KeyType : Type :=
| COUNTER | VOTE | CONTENT | PROPOSAL_CODE | TYPE | PROPOSAL_COMMIT | GRACE_EPOCH | START_EPOCH | END_EPOCH
| FUNDS | BALANCE | AUTHOR | PARAMETER | UNKNOWN_GOVERNANCE | UNKNOWN.
Inductive PgfKeyType : Type := STEWARDS | FUNDINGS | PGF_INFLATION_RATE | STEWARD_INFLATION_RATE | UNKNOWN_PGF | PGF_UNKNOWN.
Definition MAX_PGF_ACTIONS : nat := 20.
Definition added_steward (a : AddRemove Address) : option Address := match a with Add a => Some a | Remove _ => None end.

(** [namada_proof_of_stake::is_delegator] at an epoch: the keys of the bonds of
    the address *)
Definition is_delegator_at (s : Pos) (a : Address) (epoch : Epoch) : bool :=
  existsb (fun e : (Address * Address) * epoched Z =>
      bool_decide (e.1.1 = a) && negb (bool_decide (e.1.1 = e.1.2)) && existsb (fun b : Epoch * Z => b.1 <=? epoch) (map_to_list (data e.2)))
    (map_to_list (bonds (ledger s))).
(** [account::exists] *)
Definition account_exists (m : store) (owner : Address) : bool :=
  match owner with
  | Established _ => bool_decide (is_Some (m !! validity_predicate owner))
  | Implicit _ => true
  | Internal _ => false
  end.

Section predicates.
Context {U : UintOps} (pre post : store) (pos_pre : Pos) (native_token : Address) (current_epoch : Epoch) (verifiers : gset Address).
(** The data of the transaction, and the Borsh encoding of a value *)
Context (tx_data : option (list Z)) (value_bytes : value -> list Z) (info_log : bool).
Notation E := GovVpError.
Local Open Scope outcome_scope.

Definition has (m : store) (k : Key) : bool := bool_decide (is_Some (m !! k)).
Definition force {A} (dec : value -> option A) (m : store) (k : Key) : outcome E A :=
  let* o := read_value GovVpDecode dec m k in
  ok_or o (EmptyProposalField k).
(** [read_bytes_post(..).unwrap_or_default().len()] *)
Definition post_len (k : Key) : Z := Z.of_nat (List.length (from_option value_bytes [] (post !! k))).

Definition key_type (key : Key) : outcome E KeyType :=
  if is_vote_key key then Ok VOTE
  else if is_content_key key then Ok CONTENT
  else if is_proposal_type_key key then Ok TYPE
  else if is_proposal_code_key key then Ok PROPOSAL_CODE
  else if is_grace_epoch_key key then Ok GRACE_EPOCH
  else if is_start_epoch_key key then Ok START_EPOCH
  else if is_commit_proposal_key key then Ok PROPOSAL_COMMIT
  else if is_end_epoch_key key then Ok END_EPOCH
  else if is_funds_key key then Ok FUNDS
  else if is_author_key key then Ok AUTHOR
  else if is_counter_key key then Ok COUNTER
  else if is_parameter_key key then Ok PARAMETER
  else match is_balance_key native_token key with
       | Some _ => Ok BALANCE
       | None => let* b := is_governance_key key in Ok (if b : bool then UNKNOWN_GOVERNANCE else UNKNOWN)
       end.

Definition mandatory_keys (counter : Z) : list Key :=
  [get_counter_key; get_content_key counter; get_author_key counter; get_proposal_type_key counter; get_funds_key counter;
   get_voting_start_epoch_key counter; get_voting_end_epoch_key counter; get_grace_epoch_key counter].
(** [is_superset]; the loop stops at the first counter whose keys are missing *)
Definition is_valid_key_set (keys : list Key) : outcome E (bool * Z) :=
  let* pre_counter := force as_u64 pre get_counter_key in
  let* post_counter := force as_u64 post get_counter_key in
  if post_counter <? pre_counter then Ok (false, 0)
  else if forallb (fun counter => forallb (fun k => bool_decide (k ∈ keys)) (mandatory_keys counter)) (seqZ pre_counter (post_counter - pre_counter))
  then Ok (true, post_counter - pre_counter)
  else Ok (false, 0).

Definition vp_is_validator (address delegation_address : Address) : bool :=
  bool_decide (address = delegation_address) && is_validator pos_pre address && bool_decide (address ∈ verifiers).
Definition vp_is_delegator (epoch : Epoch) (address delegation_address : Address) : bool :=
  negb (bool_decide (address = delegation_address)) && bool_decide (address ∈ verifiers) && is_delegator_at pos_pre address epoch.
Definition is_valid_voting_window (start_epoch end_epoch : Epoch) (is_validator : bool) : outcome E bool :=
  if is_validator then is_valid_validator_voting_period current_epoch start_epoch end_epoch
  else Ok ((start_epoch <=? current_epoch) && (current_epoch <=? end_epoch)).
Definition is_valid_vote_key (proposal_id : Z) (key : Key) : outcome E bool :=
  let* pre_counter := force as_u64 pre get_counter_key in
  let* pre_voting_start_epoch := force as_u64 pre (get_voting_start_epoch_key proposal_id) in
  let* pre_voting_end_epoch := force as_u64 pre (get_voting_end_epoch_key proposal_id) in
  let* proposal_type := force as_type pre (get_proposal_type_key proposal_id) in
  let* vote := force as_vote post key in
  match get_voter_address key, get_vote_delegation_address key with
  | Some voter_address, Some delegation_address =>
      if pre_counter <=? proposal_id then Ok false
      else
        let* window := is_valid_voting_window pre_voting_start_epoch pre_voting_end_epoch false in
        if negb window then Ok false
        else if negb (is_compatible vote proposal_type) then Err InvalidVoteType
        else if vp_is_validator voter_address delegation_address
        then is_valid_validator_voting_period current_epoch pre_voting_start_epoch pre_voting_end_epoch
        else Ok (vp_is_delegator pre_voting_start_epoch voter_address delegation_address)
  | _, _ => Err (InvalidVoteKey key)
  end.
Definition is_valid_content_key (proposal_id : Z) : outcome E bool :=
  let content_key := get_content_key proposal_id in
  if has pre content_key then Ok false
  else
    let* max_content_length := force as_u64 pre get_max_proposal_content_key in
    Ok (post_len content_key <=? max_content_length).
Definition is_valid_proposal_type (proposal_id : Z) : outcome E bool :=
  let* proposal_type := force as_type post (get_proposal_type_key proposal_id) in
  match proposal_type with
  | PGFSteward stewards =>
      match omap added_steward stewards with
      | [] => Ok (List.length stewards <? MAX_PGF_ACTIONS)%nat
      | [address] =>
          let* author := force as_address post (get_author_key proposal_id) in
          Ok ((List.length stewards <? MAX_PGF_ACTIONS)%nat && bool_decide (address = author))
      | _ => Ok false
      end
  | PGFPayment payments => Ok (negb (MAX_PGF_ACTIONS <? List.length payments)%nat)
  | DefaultProposal _ => Ok true
  end.
Definition is_valid_proposal_code (proposal_id : Z) : outcome E bool :=
  let* proposal_type := force as_type post (get_proposal_type_key proposal_id) in
  if negb (is_default proposal_type) then Ok false
  else
    let code_key := get_proposal_code_key proposal_id in
    if has pre code_key then Ok false
    else
      let* max_proposal_length := force as_u64 pre get_max_proposal_code_size_key in
      Ok (post_len code_key <=? max_proposal_length).
(** A log line that prints the difference of two epochs *)
Definition log_difference (a b : Epoch) : outcome E unit :=
  if info_log then let* _ := epoch_sub a b in Ok tt else Ok tt.
Definition is_valid_grace_epoch (proposal_id : Z) : outcome E bool :=
  let grace_epoch_key := get_grace_epoch_key proposal_id in
  if has pre grace_epoch_key then Ok false
  else
    let* start_epoch := force as_u64 post (get_voting_start_epoch_key proposal_id) in
    let* end_epoch := force as_u64 post (get_voting_end_epoch_key proposal_id) in
    let* grace_epoch := force as_u64 post grace_epoch_key in
    let* min_grace_epoch := force as_u64 pre get_min_proposal_grace_epoch_key in
    let* max_proposal_period := force as_u64 pre get_max_proposal_period_key in
    let has_post_committing_epoch := has post (get_committing_proposals_key proposal_id grace_epoch) in
    let* is_valid_grace_epoch :=
      if end_epoch <? grace_epoch then let* d := epoch_sub grace_epoch end_epoch in Ok (min_grace_epoch <=? d) else Ok false in
    let* _ := if is_valid_grace_epoch : bool then Ok tt else log_difference grace_epoch end_epoch in
    let* is_valid_max_proposal_period :=
      if start_epoch <? grace_epoch then let* d := u64_sub grace_epoch start_epoch in Ok (d <=? max_proposal_period) else Ok false in
    let* _ := if is_valid_max_proposal_period : bool then Ok tt else log_difference grace_epoch start_epoch in
    Ok (has_post_committing_epoch && is_valid_grace_epoch && is_valid_max_proposal_period).
(** [(end_epoch - start_epoch) % min_period == 0 && (end_epoch - start_epoch).0 >= min_period];
    a remainder by zero is a panic *)
Definition whole_periods (start_epoch end_epoch min_period : Z) : outcome E bool :=
  let* d := epoch_sub end_epoch start_epoch in
  if min_period =? 0 then Panic else Ok ((d `mod` min_period =? 0) && (min_period <=? d)).
Definition is_valid_start_epoch (proposal_id : Z) : outcome E bool :=
  let start_epoch_key := get_voting_start_epoch_key proposal_id in
  let end_epoch_key := get_voting_end_epoch_key proposal_id in
  if has pre start_epoch_key || has pre end_epoch_key then Ok false
  else
    let* start_epoch := force as_u64 post start_epoch_key in
    let* end_epoch := force as_u64 post end_epoch_key in
    let* min_period := force as_u64 pre get_min_proposal_voting_period_key in
    if (end_epoch <=? start_epoch) || (start_epoch <=? current_epoch) then Ok false
    else whole_periods start_epoch end_epoch min_period.
Definition is_valid_end_epoch (proposal_id : Z) : outcome E bool :=
  let start_epoch_key := get_voting_start_epoch_key proposal_id in
  let end_epoch_key := get_voting_end_epoch_key proposal_id in
  if has pre start_epoch_key || has pre end_epoch_key then Ok false
  else
    let* start_epoch := force as_u64 post start_epoch_key in
    let* end_epoch := force as_u64 post end_epoch_key in
    let* min_period := force as_u64 pre get_min_proposal_voting_period_key in
    let* max_period := force as_u64 pre get_max_proposal_period_key in
    if (end_epoch <=? start_epoch) || (start_epoch <=? current_epoch) then Ok false
    else
      let* whole := whole_periods start_epoch end_epoch min_period in
      if whole : bool then let* d := epoch_sub end_epoch start_epoch in Ok (d <=? max_period) else Ok false.
Definition is_valid_funds (proposal_id : Z) : outcome E bool :=
  let balance_key := bkey native_token GOV in
  let* min_funds_parameter := force as_amount pre get_min_proposal_fund_key in
  let* pre_balance := read_value GovVpDecode as_amount pre balance_key in
  let* post_balance := force as_amount post balance_key in
  let* post_funds := force as_amount post (get_funds_key proposal_id) in
  match pre_balance with
  | Some pre_balance =>
      if min_funds_parameter <=? post_funds then let* d := amount_sub post_balance pre_balance in Ok (d =? post_funds) else Ok false
  | None => Ok ((min_funds_parameter <=? post_funds) && (post_balance =? post_funds))
  end.
Definition is_valid_balance : outcome E bool :=
  let balance_key := bkey native_token GOV in
  let* pre_balance := read_value GovVpDecode as_amount pre balance_key in
  let* min_funds_parameter := force as_amount pre get_min_proposal_fund_key in
  let* post_balance := force as_amount post balance_key in
  match pre_balance with
  | Some pre_balance =>
      if pre_balance <? post_balance then let* d := amount_sub post_balance pre_balance in Ok (min_funds_parameter <=? d) else Ok false
  | None => Ok (min_funds_parameter <=? post_balance)
  end.
Definition is_valid_author (proposal_id : Z) : outcome E bool :=
  let author_key := get_author_key proposal_id in
  if has pre author_key then Ok false
  else
    let* author := force as_address post author_key in
    Ok (account_exists pre author && bool_decide (author ∈ verifiers)).
Definition is_valid_counter (set_count : Z) : outcome E bool :=
  let* pre_counter := force as_u64 pre get_counter_key in
  let* post_counter := force as_u64 post get_counter_key in
  let* c := u64_add pre_counter set_count in
  Ok (c =? post_counter).
Definition is_valid_proposal_commit : outcome E bool :=
  let* pre_counter := force as_u64 pre get_counter_key in
  let* post_counter := force as_u64 post get_counter_key in
  Ok (pre_counter <? post_counter).
Definition is_valid_parameter : outcome E bool :=
  match tx_data with
  | Some data => Ok (is_proposal_accepted pre data)
  | None => Ok true
  end.

Definition check_key (set_count : Z) (key : Key) : outcome E bool :=
  let* t := key_type key in
  match t, get_proposal_id key with
  | VOTE, Some id => is_valid_vote_key id key
  | CONTENT, Some id => is_valid_content_key id
  | TYPE, Some id => is_valid_proposal_type id
  | PROPOSAL_CODE, Some id => is_valid_proposal_code id
  | GRACE_EPOCH, Some id => is_valid_grace_epoch id
  | START_EPOCH, Some id => is_valid_start_epoch id
  | END_EPOCH, Some id => is_valid_end_epoch id
  | FUNDS, Some id => is_valid_funds id
  | AUTHOR, Some id => is_valid_author id
  | COUNTER, _ => is_valid_counter set_count
  | PROPOSAL_COMMIT, _ => is_valid_proposal_commit
  | PARAMETER, _ => is_valid_parameter
  | BALANCE, _ => is_valid_balance
  | UNKNOWN_GOVERNANCE, _ => Ok false
  | UNKNOWN, _ => Ok true
  | _, _ => Ok false
  end.
(** [all] with [unwrap_or(false)] *)
Fixpoint all_keys {F} (check : Key -> outcome F bool) (keys : list Key) : outcome F bool :=
  match keys with
  | [] => Ok true
  | key :: keys => match check key with Ok true => all_keys check keys | Panic => Panic | _ => Ok false end
  end.
Definition gov_validate_tx (keys_changed : list Key) : outcome E bool :=
  let* r := is_valid_key_set keys_changed in
  if negb r.1 then Ok false else all_keys (check_key r.2) keys_changed.

(** ** Public goods funding *)
Definition pgf_key_type (key : Key) : outcome E PgfKeyType :=
  match is_stewards_key key with
  | Some _ => Ok STEWARDS
  | None =>
      if is_fundings_key key then Ok FUNDINGS
      else if is_pgf_inflation_rate_key key then Ok PGF_INFLATION_RATE
      else if is_steward_inflation_rate_key key then Ok STEWARD_INFLATION_RATE
      else let* b := is_pgf_key key in Ok (if b : bool then UNKNOWN_PGF else PGF_UNKNOWN)
  end.
(** [LazyMap::len]: the keys under the prefix of the data *)
Definition stewards_len (m : store) : Z :=
  Z.of_nat (List.length (filter (fun e : Key * value => bool_decide (stewards_key_prefix ++ [StringSeg k_data] `prefix_of` e.1)) (map_to_list m))).
Definition is_valid_steward_change (key : Key) : outcome E bool :=
  if stewards_len pre <? stewards_len post then Ok false
  else
    match is_stewards_key key with
    | Some address =>
        match read_value GovVpDecode as_steward post (steward_key address) with
        | Ok (Some steward) =>
            match is_valid_reward_distribution steward with
            | Ok b => Ok (b && bool_decide (address ∈ verifiers))
            | _ => Panic
            end
        | _ => Ok (bool_decide (address ∈ verifiers))
        end
    | None => Ok false
    end.
Definition pgf_check_key (key : Key) : outcome E bool :=
  let* t := pgf_key_type key in
  match t with
  | STEWARDS => is_valid_steward_change key
  | FUNDINGS => Ok false
  | PGF_INFLATION_RATE | STEWARD_INFLATION_RATE => is_valid_parameter
  | UNKNOWN_PGF => Ok false
  | PGF_UNKNOWN => Ok true
  end.
Definition pgf_validate_tx (keys_changed : list Key) : outcome E bool := all_keys pgf_check_key keys_changed.
End predicates.

(** ** Lemmas *)
(** The widths of the stored numbers *)
Definition value_range (v : value) : Prop := match v with VU64 n => 0 <= n <= U64_MAX | VAmount a => in_u256 a | _ => True end.
Definition store_ranges (m : store) : Prop := forall k v, m !! k = Some v -> value_range v.
Definition u64_at (m : store) (k : Key) (n : Z) : Prop := m !! k = Some (VU64 n).

Lemma force_inv {A} (dec : value -> option A) m k a : force dec m k = Ok a -> exists v, m !! k = Some v /\ dec v = Some a.
Proof.
  unfold force, read_value. destruct (m !! k) as [v|] eqn:Hk; cbn; [|done]. destruct (dec v) as [b|] eqn:Hd; cbn; [|done]. intros [= <-]. eauto.
Qed.
Lemma force_u64 m k n : force as_u64 m k = Ok n <-> u64_at m k n.
Proof.
  split; [intros (v & Hk & Hd)%force_inv; destruct v; try done; injection Hd as <-; done|]. unfold force, read_value. by intros ->.
Qed.
Lemma force_amount m k n : force as_amount m k = Ok n <-> m !! k = Some (VAmount n).
Proof.
  split; [intros (v & Hk & Hd)%force_inv; destruct v; try done; injection Hd as <-; done|]. unfold force, read_value. by intros ->.
Qed.
Lemma force_address m k a : force as_address m k = Ok a <-> m !! k = Some (VAddress a).
Proof.
  split; [intros (v & Hk & Hd)%force_inv; destruct v; try done; injection Hd as <-; done|]. unfold force, read_value. by intros ->.
Qed.
Lemma force_type m k t : force as_type m k = Ok t <-> m !! k = Some (VGov (GType t)).
Proof.
  split; [|unfold force, read_value; by intros ->]. intros (v & Hk & Hd)%force_inv. destruct v as [| | | | | | |g|]; try done. destruct g; try done. injection Hd as <-. done.
Qed.
Lemma force_vote m k t : force as_vote m k = Ok t <-> m !! k = Some (VGov (GVote t)).
Proof.
  split; [|unfold force, read_value; by intros ->]. intros (v & Hk & Hd)%force_inv. destruct v as [| | | | | | |g|]; try done. destruct g; try done. injection Hd as <-. done.
Qed.
Lemma has_true m k v : m !! k = Some v -> has m k = true.
Proof. intros Hk. unfold has. rewrite Hk. by apply bool_decide_true; eauto. Qed.
Lemma epoch_sub_inv {F} a b c : epoch_sub (E:=F) a b = Ok c -> c = a - b /\ b <= a.
Proof. unfold epoch_sub, u64_sub, u64_checked_sub. destruct (Z.leb_spec b a); cbn; [|done]. by intros [= <-]. Qed.
Lemma all_keys_true {F} (check : Key -> outcome F bool) keys : all_keys check keys = Ok true -> forall k, k ∈ keys -> check k = Ok true.
Proof.
  induction keys as [|k keys IH]; cbn; [set_solver|]. destruct (check k) as [[]| |] eqn:Hk; try done. intros Hall k' [->|Hk']%elem_of_cons; [done|by apply IH].
Qed.
Lemma all_keys_ok {F} (check : Key -> outcome F bool) keys : (forall k, k ∈ keys -> check k = Ok true) -> all_keys check keys = Ok true.
Proof. induction keys as [|k keys IH]; cbn; intros Hk; [done|]. rewrite Hk by set_solver. apply IH. intros k' Hk'. apply Hk. set_solver. Qed.

(** One step of a run of a predicate that succeeds *)
Ltac vp_step H :=
  lazymatch type of H with
  | out_bind _ _ = Ok _ => let x := fresh "x" in let Hx := fresh "Hx" in apply out_bind_Ok in H as (x & Hx & H); rewrite ?force_u64, ?force_amount, ?force_address, ?force_type, ?force_vote in Hx
  | (if ?b then Ok false else _) = Ok true => destruct b eqn:?; [done|]
  | (if ?b then _ else Ok false) = Ok true => destruct b eqn:?; [|done]
  | Ok _ = Ok true => injection H as H
  end.
Ltac vp_inv H := repeat vp_step H.

Section soundness.
Context {U : UintOps} {HU : UintLaws U} (pre post : store) (pos_pre : Pos) (native_token : Address) (current_epoch : Epoch) (verifiers : gset Address).
Context (tx_data : option (list Z)) (value_bytes : value -> list Z) (info_log : bool).
Notation validate := (gov_validate_tx pre post pos_pre native_token current_epoch verifiers tx_data value_bytes info_log).
Notation check := (check_key pre post pos_pre native_token current_epoch verifiers tx_data value_bytes info_log).

(** *** The kinds of the keys *)
Definition field_types : list (str * KeyType) :=
  [(k_content, CONTENT); (k_proposal_type, TYPE); (k_proposal_code, PROPOSAL_CODE); (k_grace_epoch, GRACE_EPOCH); (k_start_epoch, START_EPOCH);
   (k_end_epoch, END_EPOCH); (k_funds, FUNDS); (k_author, AUTHOR)].
Lemma field_key_type f t id : (f, t) ∈ field_types -> 0 <= id <= U64_MAX -> key_type native_token (field_key f id) = Ok t.
Proof.
  intros Hf Hid. unfold key_type, is_content_key, is_proposal_type_key, is_proposal_code_key, is_grace_epoch_key, is_start_epoch_key, is_end_epoch_key, is_funds_key, is_author_key.
  rewrite !is_field_key_field by done. unfold field_types in Hf. repeat (apply elem_of_cons in Hf as [[= -> ->]|Hf]; [reflexivity|]). by apply not_elem_of_nil in Hf.
Qed.
Lemma vote_key_type id voter delegation : 0 <= id <= U64_MAX -> key_type native_token (get_vote_proposal_key id voter delegation) = Ok VOTE.
Proof.
  intros Hid. unfold key_type, get_vote_proposal_key, get_proposal_vote_prefix_key, proposal_prefix, gov_prefix, is_vote_key. cbn [app]. unfold is_gov, str_is. rewrite !(bool_decide_true (_ = _)) by done.
  cbn [andb]. rewrite u64_parse_to_string by done. by rewrite bool_decide_true by eauto.
Qed.
Lemma vote_key_id id voter delegation : 0 <= id <= U64_MAX -> get_proposal_id (get_vote_proposal_key id voter delegation) = Some id.
Proof. intros Hid. unfold get_proposal_id, number_at, get_vote_proposal_key, get_proposal_vote_prefix_key, proposal_prefix, gov_prefix. cbn [app lookup list_lookup]. by apply u64_parse_to_string. Qed.
Lemma param_key_type name : name ∈ [k_min_fund; k_max_content; k_max_code_size; k_min_period; k_max_period; k_min_grace_epoch] -> key_type native_token (single_key name) = Ok PARAMETER.
Proof. intros Hn. repeat (apply elem_of_cons in Hn as [->|Hn]; [reflexivity|]). by apply not_elem_of_nil in Hn. Qed.

(** What the predicate has checked *)
Lemma validate_inv keys : validate keys = Ok true -> exists n n', u64_at pre get_counter_key n /\ u64_at post get_counter_key n' /\ n <= n' /\
  (forall id k, n <= id < n' -> k ∈ mandatory_keys id -> k ∈ keys) /\ (forall k, k ∈ keys -> check (n' - n) k = Ok true).
Proof.
  unfold gov_validate_tx. intros Hrun. apply out_bind_Ok in Hrun as ([b c] & Hset & Hrun). cbn [fst snd] in Hrun. destruct b; [|done]. cbn [negb] in Hrun.
  unfold is_valid_key_set in Hset. apply out_bind_Ok in Hset as (n & Hn & Hset). apply out_bind_Ok in Hset as (n' & Hn' & Hset). rewrite force_u64 in Hn, Hn'.
  destruct (Z.ltb_spec n' n); [done|]. destruct (forallb _ _) eqn:Hall in Hset; [|done]. injection Hset as <-.
  exists n, n'. split_and!; [done|done|lia| |by apply all_keys_true].
  intros id k Hid Hk. rewrite forallb_forall in Hall. specialize (Hall id). rewrite <- list_elem_of_In, elem_of_seqZ in Hall. specialize (Hall ltac:(lia)).
  rewrite forallb_forall in Hall. specialize (Hall k). rewrite <- list_elem_of_In in Hall. by apply (bool_decide_eq_true_1 _), Hall.
Qed.
Lemma check_field f t n id : (f, t) ∈ field_types -> 0 <= id <= U64_MAX -> check n (field_key f id) = Ok true ->
  match t with
  | CONTENT => is_valid_content_key pre post value_bytes id
  | TYPE => is_valid_proposal_type post id
  | PROPOSAL_CODE => is_valid_proposal_code pre post value_bytes id
  | GRACE_EPOCH => is_valid_grace_epoch pre post info_log id
  | START_EPOCH => is_valid_start_epoch pre post current_epoch id
  | END_EPOCH => is_valid_end_epoch pre post current_epoch id
  | FUNDS => is_valid_funds pre post native_token id
  | AUTHOR => is_valid_author pre post verifiers id
  | _ => Ok true
  end = Ok true.
Proof.
  intros Hf Hid. unfold check_key. rewrite (field_key_type f t id Hf Hid), get_proposal_id_field by done. cbn [out_bind]. by destruct t.
Qed.

(** *** What is checked of a new proposal *)
Definition type_allowed (author : Address) (t : ProposalType) : Prop :=
  match t with
  | PGFSteward l => (List.length l < MAX_PGF_ACTIONS)%nat /\ (omap added_steward l = [] \/ omap added_steward l = [author])
  | PGFPayment l => (List.length l <= MAX_PGF_ACTIONS)%nat
  | DefaultProposal _ => True
  end.
Record proposal_checked (id start end_ grace funds : Z) (author : Address) : Prop := {
  pc_author : post !! get_author_key id = Some (VAddress author) /\ account_exists pre author = true /\ author ∈ verifiers;
  pc_epochs : u64_at post (get_voting_start_epoch_key id) start /\ u64_at post (get_voting_end_epoch_key id) end_ /\ u64_at post (get_grace_epoch_key id) grace;
  pc_order : current_epoch < start < end_ /\ end_ < grace;
  pc_period : exists min max, u64_at pre get_min_proposal_voting_period_key min /\ u64_at pre get_max_proposal_period_key max /\
    (min | end_ - start) /\ min <= end_ - start <= max /\ grace - start <= max;
  pc_grace : exists min, u64_at pre get_min_proposal_grace_epoch_key min /\ min <= grace - end_ /\ is_Some (post !! get_committing_proposals_key id grace);
  pc_funds : post !! get_funds_key id = Some (VAmount funds) /\ bal post native_token GOV = bal pre native_token GOV + funds /\
    exists min, pre !! get_min_proposal_fund_key = Some (VAmount min) /\ min <= funds;
  pc_content : exists max, u64_at pre get_max_proposal_content_key max /\ post_len post value_bytes (get_content_key id) <= max;
  pc_type : exists t, post !! get_proposal_type_key id = Some (VGov (GType t)) /\ type_allowed author t /\
    forall v, post !! get_proposal_code_key id = Some v -> post !! get_proposal_code_key id <> pre !! get_proposal_code_key id ->
      is_default t = true /\ exists max, u64_at pre get_max_proposal_code_size_key max /\ post_len post value_bytes (get_proposal_code_key id) <= max
}.
Lemma end_epoch_checked id : is_valid_end_epoch pre post current_epoch id = Ok true -> exists start end_ min max,
  u64_at post (get_voting_start_epoch_key id) start /\ u64_at post (get_voting_end_epoch_key id) end_ /\ current_epoch < start < end_ /\
  u64_at pre get_min_proposal_voting_period_key min /\ u64_at pre get_max_proposal_period_key max /\ (min | end_ - start) /\ min <= end_ - start <= max.
Proof.
  intros H. unfold is_valid_end_epoch in H. vp_inv H. exists x, x0, x1, x2. unfold whole_periods in Hx3. apply out_bind_Ok in Hx3 as (d & Hd & Hw). apply epoch_sub_inv in Hd as [-> ?], Hx4 as [-> ?].
  destruct (Z.eqb_spec x1 0); [done|]. injection Hw as Hw. apply andb_true_iff in Hw as [Hm Hle]. apply orb_false_iff in Heqb0 as [Ho1 Ho2].
  split_and!; try done; try lia. apply Z.mod_divide; lia.
Qed.
Lemma grace_epoch_checked id : is_valid_grace_epoch pre post info_log id = Ok true -> exists start end_ grace min max,
  u64_at post (get_voting_start_epoch_key id) start /\ u64_at post (get_voting_end_epoch_key id) end_ /\ u64_at post (get_grace_epoch_key id) grace /\
  u64_at pre get_min_proposal_grace_epoch_key min /\ u64_at pre get_max_proposal_period_key max /\
  end_ < grace /\ min <= grace - end_ /\ grace - start <= max /\ is_Some (post !! get_committing_proposals_key id grace).
Proof.
  intros H. unfold is_valid_grace_epoch in H. vp_inv H. apply andb_true_iff in H as [[H4 ->]%andb_true_iff ->]. exists x, x0, x1, x2, x3. clear Hx5 Hx7.
  destruct (Z.ltb_spec x0 x1); [|done]. destruct (Z.ltb_spec x x1); [|done]. vp_inv Hx4. vp_inv Hx6. apply epoch_sub_inv in Hx5 as [-> ?], Hx7 as [-> ?]. 
  split_and!; try done; try lia. by apply bool_decide_eq_true_1 in H4.
Qed.
Lemma bal_amount m a : m !! bkey native_token GOV = Some (VAmount a) -> bal m native_token GOV = a.
Proof. unfold bal. by intros ->. Qed.
Lemma funds_checked id : store_ranges pre -> store_ranges post -> is_valid_funds pre post native_token id = Ok true ->
  exists funds min, post !! get_funds_key id = Some (VAmount funds) /\ bal post native_token GOV = bal pre native_token GOV + funds /\ pre !! get_min_proposal_fund_key = Some (VAmount min) /\ min <= funds.
Proof using HU.
  intros Hpre Hpost H. unfold is_valid_funds in H. vp_inv H. exists x2, x. rewrite (bal_amount post x1) by done. unfold read_value in Hx0. unfold bal at 1.
  destruct (pre !! bkey native_token GOV) as [v|] eqn:Hb.
  - destruct v as [a| | | | | | | |]; try done. injection Hx0 as <-. destruct (Z.leb_spec x x2); [|done]. vp_inv H. apply amount_sub_inv in Hx0 as (? & -> & _); [|by eapply (Hpost _ (VAmount _))|by eapply (Hpre _ (VAmount _))].
    split_and!; try done; cbn; lia.
  - injection Hx0 as <-. vp_inv H. apply andb_true_iff in H as [? ?]. split_and!; try done; cbn; lia.
Qed.
Lemma balance_checked : store_ranges pre -> store_ranges post -> is_valid_balance pre post native_token = Ok true ->
  exists min, pre !! get_min_proposal_fund_key = Some (VAmount min) /\ bal pre native_token GOV + min <= bal post native_token GOV.
Proof using HU.
  intros Hpre Hpost H. unfold is_valid_balance in H. vp_inv H. exists x0. split; [done|]. rewrite (bal_amount post x1) by done. unfold read_value in Hx. unfold bal.
  destruct (pre !! bkey native_token GOV) as [v|] eqn:Hb.
  - destruct v as [a| | | | | | | |]; try done. injection Hx as <-. destruct (Z.ltb_spec a x1); [|done]. vp_inv H. apply amount_sub_inv in Hx as (? & -> & _); [|by eapply (Hpost _ (VAmount _))|by eapply (Hpre _ (VAmount _))].
    cbn. lia.
  - injection Hx as <-. vp_inv H. cbn. lia.
Qed.

(** *** The state that the predicate protects *)
Definition protected_fields : list (str * KeyType) :=
  [(k_content, CONTENT); (k_author, AUTHOR); (k_start_epoch, START_EPOCH); (k_end_epoch, END_EPOCH); (k_grace_epoch, GRACE_EPOCH); (k_proposal_code, PROPOSAL_CODE)].
Lemma protected_field f t n id v : (f, t) ∈ protected_fields -> 0 <= id <= U64_MAX -> pre !! field_key f id = Some v -> check n (field_key f id) <> Ok true.
Proof.
  intros Hf Hid Hv%has_true Hc. apply (check_field f t) in Hc; [|revert Hf; unfold protected_fields, field_types; clear; set_solver|done].
  unfold protected_fields in Hf. repeat (apply elem_of_cons in Hf as [[= -> ->]|Hf]); [..|by apply not_elem_of_nil in Hf];
    unfold is_valid_content_key, is_valid_author, is_valid_start_epoch, is_valid_end_epoch, is_valid_grace_epoch, is_valid_proposal_code, get_content_key, get_author_key,
      get_voting_start_epoch_key, get_voting_end_epoch_key, get_grace_epoch_key, get_proposal_code_key in Hc; rewrite ?Hv, ?orb_true_r in Hc; try done.
  vp_inv Hc. congruence.
Qed.
Lemma type_checked id author : post !! get_author_key id = Some (VAddress author) -> is_valid_proposal_type post id = Ok true ->
  exists t, post !! get_proposal_type_key id = Some (VGov (GType t)) /\ type_allowed author t.
Proof.
  intros Ha H. unfold is_valid_proposal_type in H. apply out_bind_Ok in H as (t & Ht & H). rewrite force_type in Ht. exists t. split; [done|].
  destruct t as [|l|l]; cbn; [done| |injection H as H; apply negb_true_iff, Nat.ltb_ge in H; done].
  destruct (omap added_steward l) as [|a [|]] eqn:Ho; [|vp_inv H|done].
  - injection H as H%Nat.ltb_lt. auto.
  - apply andb_true_iff in H as [H%Nat.ltb_lt ->%bool_decide_eq_true_1]. rewrite Ha in Hx. simplify_eq. auto.
Qed.
Lemma code_checked id t : post !! get_proposal_type_key id = Some (VGov (GType t)) -> is_valid_proposal_code pre post value_bytes id = Ok true ->
  is_default t = true /\ exists max, u64_at pre get_max_proposal_code_size_key max /\ post_len post value_bytes (get_proposal_code_key id) <= max.
Proof.
  intros Ht H. unfold is_valid_proposal_code in H. vp_inv H. rewrite Ht in Hx. simplify_eq. split; [by apply negb_false_iff|].
  exists x0. split; [done|lia].
Qed.
Lemma new_proposal_checked n n' id : store_ranges pre -> store_ranges post -> u64_at pre get_counter_key n -> u64_at post get_counter_key n' -> n <= id < n' ->
  (forall k, k ∈ mandatory_keys id \/ post !! k <> pre !! k -> check (n' - n) k = Ok true) -> exists start end_ grace funds author, proposal_checked id start end_ grace funds author.
Proof using HU.
  intros Hpre Hpost Hn Hn' Hid Hc. assert (0 <= id <= U64_MAX) as Hr by (pose proof (Hpre _ _ Hn); pose proof (Hpost _ _ Hn'); cbn in *; lia).
  assert (forall f t, (f, t) ∈ field_types -> field_key f id ∈ mandatory_keys id -> _) as Hfield by (intros f t Hf Hm; exact (check_field f t _ id Hf Hr (Hc _ (or_introl Hm)))).
  pose proof (Hfield k_end_epoch END_EPOCH ltac:(unfold field_types; set_solver) ltac:(unfold mandatory_keys; set_solver)) as (start & end_ & min & max & Hs & He & Ho & Hmin & Hmax & Hdiv & Hper)%end_epoch_checked.
  pose proof (Hfield k_grace_epoch GRACE_EPOCH ltac:(unfold field_types; set_solver) ltac:(unfold mandatory_keys; set_solver)) as (start' & end' & grace & ming & max' & Hs' & He' & Hg & Hming & Hmax' & Heg & Hgm & Hgx & Hcom)%grace_epoch_checked.
  pose proof (Hfield k_funds FUNDS ltac:(unfold field_types; set_solver) ltac:(unfold mandatory_keys; set_solver)) as Hfd. apply funds_checked in Hfd as (funds & minf & Hf & Hb & Hmf & Hle); [|done..].
  pose proof (Hfield k_author AUTHOR ltac:(unfold field_types; set_solver) ltac:(unfold mandatory_keys; set_solver)) as Ha. cbn in Ha.
  pose proof (Hfield k_content CONTENT ltac:(unfold field_types; set_solver) ltac:(unfold mandatory_keys; set_solver)) as Hct. cbn in Hct.
  unfold u64_at in *. simplify_eq. unfold is_valid_author in Ha. vp_inv Ha. apply andb_true_iff in Ha as [Hex Hver%bool_decide_eq_true_1]. unfold is_valid_content_key in Hct. vp_inv Hct.
  pose proof (Hfield k_proposal_type TYPE ltac:(unfold field_types; set_solver) ltac:(unfold mandatory_keys; set_solver)) as Hty. cbn in Hty. apply (type_checked id x) in Hty as (t & Ht & Hal); [|done].
  exists start, end_, grace, funds, x. split; unfold u64_at; [done|done|lia| | |eauto| |].
  - exists min, max. done.
  - exists ming. done.
  - exists x0. split; [done|lia].
  - exists t. split_and!; [done..|]. intros v _ Hne. apply (code_checked id t Ht).
    apply (check_field k_proposal_code PROPOSAL_CODE (n' - n) id); [clear; unfold field_types; set_solver|done|]. apply Hc. by right.
Qed.
(** C7. A transaction that the governance predicate accepts does not lower the
    counter of proposals. Every proposal that is there keeps its content, author,
    epochs and code; its type and its recorded funds are not protected. Every new
    proposal has an author that exists and has authorized the transaction, voting
    epochs in the future that span whole periods within the bounds, a grace epoch
    late enough and within the maximum, under which it is registered to be
    executed, a content within its size, a type within the limits on stewards and
    payments (at most one steward added, the author), a newly written code only
    for a default proposal and within its size, and recorded funds of at least
    the minimum that equal the whole growth of the balance of governance; several
    proposals created by one transaction share that growth. The balance of
    governance does not fall, and the parameters change only with an accepted
    proposal or without transaction data. *)
Theorem governance_vp_protects_proposals keys : store_ranges pre -> store_ranges post -> (forall k, k ∉ keys -> post !! k = pre !! k) -> validate keys = Ok true ->
  exists n n', u64_at pre get_counter_key n /\ u64_at post get_counter_key n' /\ n <= n' /\
    (forall f id v, f ∈ protected_fields.*1 -> 0 <= id <= U64_MAX -> pre !! field_key f id = Some v -> post !! field_key f id = Some v) /\
    (forall id, n <= id < n' -> exists start end_ grace funds author, proposal_checked id start end_ grace funds author) /\
    bal pre native_token GOV <= bal post native_token GOV /\
    (forall name data, name ∈ [k_min_fund; k_max_content; k_max_code_size; k_min_period; k_max_period; k_min_grace_epoch] ->
      tx_data = Some data -> is_proposal_accepted pre data = false -> post !! single_key name = pre !! single_key name).
Proof using HU.
  intros Hpre Hpost Hch Hrun. destruct (validate_inv keys Hrun) as (n & n' & Hn & Hn' & Hle & Hmand & Hc). exists n, n'. split_and!; [done|done|done| | | |].
  - intros f id v ([f' t] & -> & Hf)%list_elem_of_fmap Hid Hv. destruct (decide (field_key f' id ∈ keys)) as [Hk|Hk]; [|by rewrite Hch]. by destruct (protected_field f' t (n' - n) id v Hf Hid Hv); apply Hc.
  - intros id Hid. apply (new_proposal_checked n n'); [done..|]. intros k [Hk|Hk]; apply Hc; [by apply (Hmand id)|]. destruct (decide (k ∈ keys)); [done|by destruct Hk; apply Hch].
  - destruct (decide (bkey native_token GOV ∈ keys)) as [Hk|Hk]; [|unfold bal; by rewrite Hch]. specialize (Hc _ Hk).
    unfold check_key, key_type in Hc. rewrite is_balance_key_bkey in Hc. cbn in Hc. apply balance_checked in Hc as (min & Hmin & Hb); [|done..]. destruct (Hpre _ _ Hmin). lia.
  - intros name data Hname -> Hacc. apply Hch. intros Hk. specialize (Hc _ Hk). unfold check_key in Hc. rewrite param_key_type in Hc by done. cbn in Hc. by rewrite Hacc in Hc.
Qed.

(** *** Votes *)
Lemma voting_period_inv (start end_ : Epoch) : is_valid_validator_voting_period (E:=GovVpError) current_epoch start end_ = Ok true ->
  start < end_ /\ current_epoch <= start + (end_ - start) / 3 * 2.
Proof.
  unfold is_valid_validator_voting_period. destruct (Z.leb_spec end_ start); [done|]. intros Hp. vp_inv Hp. apply epoch_sub_inv in Hx as [-> ?].
  unfold u64_mul, u64_checked_mul in Hx0. case_match; [|done]. injection Hx0 as <-. apply epoch_add_inv in Hx1 as [-> _]. lia.
Qed.
(** C18. A vote that the governance predicate accepts is for a proposal that was
    there before the transaction, in its voting window, of a kind that fits the
    proposal, and authorized by the voter, who is the validator in the first two
    thirds of the window, or has had a delegation since the start of the vote. *)
Theorem governance_vp_votes keys id voter delegation : validate keys = Ok true -> 0 <= id <= U64_MAX -> get_vote_proposal_key id voter delegation ∈ keys ->
  voter ∈ verifiers /\ exists n start end_ type vote,
    u64_at pre get_counter_key n /\ u64_at pre (get_voting_start_epoch_key id) start /\ u64_at pre (get_voting_end_epoch_key id) end_ /\
    pre !! get_proposal_type_key id = Some (VGov (GType type)) /\ post !! get_vote_proposal_key id voter delegation = Some (VGov (GVote vote)) /\
    id < n /\ start <= current_epoch <= end_ /\ is_compatible vote type = true /\
    (voter = delegation /\ is_validator pos_pre voter = true /\ current_epoch <= start + (end_ - start) / 3 * 2 \/
     voter <> delegation /\ is_delegator_at pos_pre voter start = true).
Proof.
  intros Hrun Hid Hk. destruct (validate_inv keys Hrun) as (n & n' & Hn & _ & _ & _ & Hc). specialize (Hc _ Hk). unfold check_key in Hc.
  rewrite vote_key_type, vote_key_id in Hc by done. cbn [out_bind] in Hc. unfold is_valid_vote_key in Hc. vp_inv Hc.
  change (get_voter_address (get_vote_proposal_key id voter delegation)) with (Some voter) in Hc. change (get_vote_delegation_address (get_vote_proposal_key id voter delegation)) with (Some delegation) in Hc.
  cbv beta iota in Hc. vp_inv Hc. cbn [is_valid_voting_window] in Hx4. injection Hx4 as <-. apply negb_false_iff, andb_true_iff in Heqb0 as [? ?].
  destruct (is_compatible x3 x2) eqn:Hcomp; [|done]. cbn [negb] in Hc. unfold vp_is_validator, vp_is_delegator in Hc.
  destruct (_ && _ && _) eqn:Hv in Hc.
  - apply andb_true_iff in Hv as [[->%bool_decide_eq_true_1 Hval]%andb_true_iff Hver%bool_decide_eq_true_1]. apply voting_period_inv in Hc as [? ?].
    split; [done|]. exists x, x0, x1, x2, x3. split_and!; try done; try lia. left. done.
  - injection Hc as Hc. apply andb_true_iff in Hc as [[Hne%negb_true_iff%bool_decide_eq_false_1 Hver%bool_decide_eq_true_1]%andb_true_iff Hdel].
    split; [done|]. exists x, x0, x1, x2, x3. split_and!; try done; try lia. right. done.
Qed.

(** *** What the predicate misses *)
Lemma key_set_same n keys : u64_at pre get_counter_key n -> u64_at post get_counter_key n -> is_valid_key_set pre post keys = Ok (true, 0).
Proof.
  intros Hn Hn'. unfold is_valid_key_set. rewrite (proj2 (force_u64 _ _ n) Hn), (proj2 (force_u64 _ _ n) Hn'). cbn [out_bind]. rewrite Z.ltb_irrefl, Z.sub_diag. reflexivity.
Qed.
(** The type of a proposal is not protected: a transaction without any
    authorization may replace the type of a proposal, before, during and after the
    vote, by a default proposal or by up to twenty payments to any address. *)
Theorem proposal_type_unprotected id n t : 0 <= id <= U64_MAX -> u64_at pre get_counter_key n ->
  post = <[get_proposal_type_key id := VGov (GType t)]> pre -> match t with PGFSteward _ => False | PGFPayment l => (List.length l <= 20)%nat | DefaultProposal _ => True end ->
  validate [get_proposal_type_key id] = Ok true.
Proof.
  intros Hid Hn Hp Ht. assert (u64_at post get_counter_key n) as Hn' by (unfold u64_at; rewrite Hp, lookup_insert_ne by done; done).
  unfold gov_validate_tx. rewrite (key_set_same n) by done. cbn [out_bind negb fst snd].
  apply all_keys_ok. intros k ->%list_elem_of_singleton. unfold check_key. unfold get_proposal_type_key at 1. rewrite (field_key_type k_proposal_type TYPE) by (done || (clear; unfold field_types; set_solver)).
  unfold get_proposal_type_key. rewrite get_proposal_id_field by done. cbn [out_bind]. unfold is_valid_proposal_type. rewrite (proj2 (force_type _ _ t)) by (rewrite Hp; apply lookup_insert_eq).
  cbn [out_bind]. destruct t as [|l|l]; [done|done|]. unfold MAX_PGF_ACTIONS. by rewrite (proj2 (Nat.ltb_ge _ _) Ht).
Qed.

(** The predicate stops the node on a proposal whose grace epoch is before
    the end of the vote: the line that logs the refusal subtracts the epochs, and
    the subtraction overflows. The transaction needs no authorization, no deposit
    and no proposal: it writes the three epochs under a fresh id. *)
Theorem grace_epoch_stops_node id n start end_ grace min max min_grace : info_log = true -> 0 <= id <= U64_MAX ->
  u64_at pre get_counter_key n -> u64_at pre get_min_proposal_voting_period_key min -> u64_at pre get_max_proposal_period_key max -> u64_at pre get_min_proposal_grace_epoch_key min_grace ->
  pre !! get_voting_start_epoch_key id = None -> pre !! get_voting_end_epoch_key id = None -> pre !! get_grace_epoch_key id = None ->
  post = <[get_voting_end_epoch_key id := VU64 end_]> (<[get_grace_epoch_key id := VU64 grace]> (<[get_voting_start_epoch_key id := VU64 start]> pre)) ->
  0 < min -> current_epoch < start < end_ -> (min | end_ - start) -> min <= end_ - start <= max -> grace < end_ ->
  validate [get_voting_end_epoch_key id; get_grace_epoch_key id; get_voting_start_epoch_key id] = Panic.
Proof.
  intros Hlog Hid Hn Hmin Hmax Hming Hs He Hg Hp H0 Ho Hdiv Hper Hlt. assert (u64_at post get_counter_key n) as Hn' by (unfold u64_at; by rewrite Hp, !lookup_insert_ne).
  assert (u64_at post (get_voting_end_epoch_key id) end_) as He' by (unfold u64_at; by rewrite Hp, lookup_insert_eq).
  assert (u64_at post (get_grace_epoch_key id) grace) as Hg' by (unfold u64_at; by rewrite Hp, lookup_insert_ne, lookup_insert_eq by done).
  assert (u64_at post (get_voting_start_epoch_key id) start) as Hs' by (unfold u64_at; by rewrite Hp, !lookup_insert_ne, lookup_insert_eq by done).
  unfold gov_validate_tx. rewrite (key_set_same n) by done. cbn [out_bind negb fst snd all_keys].
  assert (check 0 (get_voting_end_epoch_key id) = Ok true) as ->.
  { unfold check_key, get_voting_end_epoch_key. rewrite (field_key_type k_end_epoch END_EPOCH), get_proposal_id_field by (done || (clear; unfold field_types; set_solver)). cbn [out_bind].
    unfold is_valid_end_epoch, has. rewrite Hs, He. cbn [bool_decide]. rewrite (proj2 (force_u64 _ _ _) Hs'), (proj2 (force_u64 _ _ _) He'), (proj2 (force_u64 _ _ _) Hmin), (proj2 (force_u64 _ _ _) Hmax).
    cbn [out_bind bool_decide orb]. rewrite (proj2 (Z.leb_gt _ _)), (proj2 (Z.leb_gt _ _)) by lia. cbn [orb]. unfold whole_periods, epoch_sub. rewrite u64_sub_ok by lia. cbn [out_bind].
    rewrite (proj2 (Z.eqb_neq _ _)) by lia. apply Z.mod_divide in Hdiv; [|lia]. rewrite Hdiv. rewrite (proj2 (Z.leb_le min _)) by lia. cbn. by rewrite (proj2 (Z.leb_le _ _)) by lia. }
  assert (check 0 (get_grace_epoch_key id) = Panic) as ->; [|done].
  unfold check_key, get_grace_epoch_key. rewrite (field_key_type k_grace_epoch GRACE_EPOCH), get_proposal_id_field by (done || (clear; unfold field_types; set_solver)). cbn [out_bind].
  unfold is_valid_grace_epoch, has. rewrite Hg. cbn [bool_decide]. rewrite (proj2 (force_u64 _ _ _) Hs'), (proj2 (force_u64 _ _ _) He'), (proj2 (force_u64 _ _ _) Hg'), (proj2 (force_u64 _ _ _) Hming), (proj2 (force_u64 _ _ _) Hmax).
  cbn [out_bind]. rewrite (proj2 (Z.ltb_ge _ _)) by lia. cbn [out_bind]. unfold log_difference. rewrite Hlog. unfold epoch_sub, u64_sub, u64_checked_sub. by rewrite (proj2 (Z.leb_gt _ _)) by lia.
Qed.
End soundness.

(** *** Proposals that are loaded for execution *)
Lemma commit_epoch e k : 0 <= e <= U64_MAX -> get_commiting_proposals_prefix e `prefix_of` k -> get_commit_proposal_epoch k = Some e.
Proof. intros He [rest ->]. unfold get_commit_proposal_epoch, number_at, get_commiting_proposals_prefix. cbn [app proposal_prefix gov_prefix lookup list_lookup]. by apply u64_parse_to_string. Qed.
Lemma load_proposals_ok m e : 0 <= e <= U64_MAX -> load_proposals m e =
  Ok (omap (fun kv : Key * value => get_commit_proposal_id kv.1) (filter (fun kv : Key * value => bool_decide (get_commiting_proposals_prefix e `prefix_of` kv.1)) (map_to_list m))).
Proof.
  intros He. unfold load_proposals. set (l := filter _ _). assert (forall kv, kv ∈ l -> get_commit_proposal_epoch kv.1 = Some e) as Hl.
  { intros kv [Hp _]%list_elem_of_filter. apply bool_decide_unpack in Hp. by apply commit_epoch. }
  clearbody l. match goal with |- out_fold ?f l [] = Ok (omap ?g l) => assert (forall acc, out_fold f l acc = Ok (acc ++ omap g l)) as Hf; [|exact (Hf [])] end.
  induction l as [|kv l IH]; intros acc; cbn [out_fold]; [by rewrite app_nil_r|]. rewrite Hl by set_solver. cbn [unwrap out_bind]. rewrite Z.eqb_refl. cbn [out_bind].
  rewrite IH by (intros ? ?; apply Hl; set_solver). cbn [omap list_omap]. destruct (get_commit_proposal_id kv.1); [by rewrite <- app_assoc|done].
Qed.
Lemma commit_key_loaded m e id v : 0 <= e <= U64_MAX -> 0 <= id <= U64_MAX -> m !! get_committing_proposals_key id e = Some v -> exists ids, load_proposals m e = Ok ids /\ id ∈ ids.
Proof.
  intros He Hid Hm. rewrite load_proposals_ok by done. eexists. split; [done|]. apply list_elem_of_omap. exists (get_committing_proposals_key id e, v). split.
  - apply list_elem_of_filter. split; [|by apply elem_of_map_to_list]. apply bool_decide_pack. by eexists.
  - unfold get_commit_proposal_id, number_at, get_committing_proposals_key, get_commiting_proposals_prefix. cbn [fst app proposal_prefix gov_prefix lookup list_lookup]. by apply u64_parse_to_string.
Qed.
Lemma missing_proposal_panics {U : UintOps} {C : AddressCodec} native params pos dispatch bytes id s : view s !! get_funds_key id = None ->
  execute_proposal native params pos dispatch bytes id s = (s, Panic).
Proof. intros Hf. unfold execute_proposal, force_read, st_bind, gread, st_lift, read_value. by rewrite Hf. Qed.

Lemma out_bind_mono {F A B} (m : outcome F A) (k k' : A -> outcome F B) (b : B) : (forall a, k a = Ok b -> k' a = Ok b) -> out_bind m k = Ok b -> out_bind m k' = Ok b.
Proof. intros Hk. destruct m; cbn; auto. Qed.
Section stray_commit.
Context {U : UintOps} (pre post : store) (pos_pre : Pos) (native_token : Address) (current_epoch : Epoch) (verifiers : gset Address).
Context (tx_data : option (list Z)) (value_bytes : value -> list Z) (info_log : bool) (id e : Z).
Notation validate p := (gov_validate_tx pre p pos_pre native_token current_epoch verifiers tx_data value_bytes info_log).
Notation check p := (check_key pre p pos_pre native_token current_epoch verifiers tx_data value_bytes info_log).
Notation commit := (get_committing_proposals_key id e).
Notation post' := (<[commit := VUnit]> post).

Lemma force_other {A} (dec : value -> option A) k : k <> commit -> force dec post' k = force dec post k.
Proof. intros Hk. unfold force, read_value. by rewrite lookup_insert_ne. Qed.
Lemma field_not_commit f i : field_key f i <> commit.
Proof. done. Qed.
Lemma vote_not_commit k : key_type native_token k = Ok VOTE -> k <> commit.
Proof. intros Hk ->. unfold key_type, is_content_key, is_proposal_type_key, is_proposal_code_key, is_grace_epoch_key, is_start_epoch_key, is_end_epoch_key, is_funds_key, is_author_key in Hk. cbn in Hk. done. Qed.
Lemma check_more n k : check post n k = Ok true -> check post' n k = Ok true.
Proof.
  unfold check_key. destruct (key_type native_token k) as [t| |] eqn:Hk; [|done..]. cbn [out_bind]. destruct t, (get_proposal_id k) as [i|]; try done;
    unfold is_valid_counter, is_valid_vote_key, is_valid_content_key, is_valid_proposal_code, is_valid_proposal_type, is_valid_proposal_commit, is_valid_start_epoch, is_valid_end_epoch,
      is_valid_funds, is_valid_balance, is_valid_author, post_len; rewrite ?force_other by (apply field_not_commit || done || by apply vote_not_commit); rewrite ?lookup_insert_ne by done; try done.
  unfold is_valid_grace_epoch. destruct (has pre _); [done|]. rewrite !force_other by done. repeat (apply out_bind_mono; intros ?). intros [= Hb]. f_equal. apply andb_true_iff in Hb as [[Hb ->]%andb_true_iff ->].
    rewrite !andb_true_r. apply bool_decide_eq_true_1 in Hb as [v Hv]. unfold has. apply bool_decide_true. destruct (decide (get_committing_proposals_key i a1 = commit)) as [->|Hne]; [rewrite lookup_insert_eq|rewrite lookup_insert_ne by done]; eauto.
Qed.
(** C40. The registration of proposals for execution is not checked: with any
    accepted transaction that creates a proposal, a proposal id that does not exist
    can be registered for an epoch of choice. The predicate still accepts, the node
    loads the id in that epoch, and its execution panics, as it does again after
    every restart. *)
Theorem stray_commit_stops_chain keys n n' native params pos dispatch s {C : AddressCodec} :
  0 <= id <= U64_MAX -> 0 <= e <= U64_MAX -> validate post keys = Ok true -> u64_at pre get_counter_key n -> u64_at post get_counter_key n' -> n < n' ->
  view s = post' -> post !! get_funds_key id = None ->
  validate post' (keys ++ [commit]) = Ok true /\ (exists ids, load_proposals post' e = Ok ids /\ id ∈ ids) /\
  execute_proposal native params pos dispatch value_bytes id s = (s, Panic).
Proof.
  intros Hid He Hrun Hn Hn' Hlt Hs Hf. split_and!.
  - revert Hrun. unfold gov_validate_tx, is_valid_key_set. rewrite force_other by done. rewrite (proj2 (force_u64 _ _ n) Hn), (proj2 (force_u64 _ _ n') Hn'). cbn [out_bind].
    destruct (Z.ltb_spec n' n); [done|]. destruct (forallb _ _) eqn:Hall; [|done]. cbn [negb fst snd].
    rewrite (proj2 (forallb_forall _ _)).
    + cbn [fst snd negb out_bind]. intros Hkeys. apply all_keys_ok. intros k [Hk|Hk]%elem_of_app; [by apply check_more, (all_keys_true _ keys)|]. apply list_elem_of_singleton in Hk as ->.
      unfold check_key. change (key_type native_token commit) with (Ok (E:=GovVpError) PROPOSAL_COMMIT). cbn [out_bind]. unfold is_valid_proposal_commit. rewrite force_other by done.
      rewrite (proj2 (force_u64 _ _ n) Hn), (proj2 (force_u64 _ _ n') Hn'). cbn [out_bind]. rewrite (proj2 (Z.ltb_lt _ _) Hlt). by destruct (get_proposal_id commit).
    + intros c Hc. rewrite forallb_forall in Hall. specialize (Hall c Hc). rewrite forallb_forall in Hall |- *. intros k Hk. specialize (Hall k Hk). apply bool_decide_eq_true_1 in Hall. apply bool_decide_true. set_solver.
  - apply (commit_key_loaded _ e id VUnit); [done..|]. apply lookup_insert_eq.
  - apply missing_proposal_panics. by rewrite Hs, lookup_insert_ne.
Qed.
End stray_commit.

(** *** Public goods funding *)
Section pgf_soundness.
Context {U : UintOps} (pre post : store) (verifiers : gset Address) (tx_data : option (list Z)).
Notation validate := (pgf_validate_tx pre post verifiers tx_data).
Lemma pgf_unknown k : is_pgf_key (E:=GovVpError) k = Ok true -> is_stewards_key k = None -> is_pgf_inflation_rate_key k = false -> is_steward_inflation_rate_key k = false ->
  pgf_check_key pre post verifiers tx_data k = Ok false.
Proof.
  intros Hk Hs H1 H2. unfold pgf_check_key, pgf_key_type. rewrite Hs, H1, H2, Hk. by destruct (is_fundings_key k).
Qed.
Lemma steward_key_is a : is_stewards_key (steward_key a) = Some a.
Proof. reflexivity. Qed.
(** C26. A transaction that the predicate of public goods funding accepts leaves
    the fundings and every key of the account that is not of a steward or a rate as
    they are. It changes the entry of a steward only with the authorization of that
    address; the new entry, when it decodes, has a valid distribution of rewards;
    and the number of stewards is then not larger than before, which does not keep
    one steward from being replaced by another. The inflation rates change only with an accepted proposal
    or without transaction data. *)
Theorem pgf_vp_sound keys : (forall k, k ∉ keys -> post !! k = pre !! k) -> validate keys = Ok true ->
  (forall k, is_pgf_key (E:=GovVpError) k = Ok true -> is_stewards_key k = None -> is_pgf_inflation_rate_key k = false -> is_steward_inflation_rate_key k = false -> post !! k = pre !! k) /\
  (forall a, post !! steward_key a <> pre !! steward_key a ->
    a ∈ verifiers /\ stewards_len post <= stewards_len pre /\
    forall d, post !! steward_key a = Some (VGov (GSteward d)) -> is_valid_reward_distribution d = Ok true) /\
  (forall k data, k = get_pgf_inflation_rate_key \/ k = get_steward_inflation_rate_key -> tx_data = Some data -> is_proposal_accepted pre data = false -> post !! k = pre !! k).
Proof.
  intros Hch Hrun. pose proof (all_keys_true _ _ Hrun) as Hc. split_and!.
  - intros k Hk Hs H1 H2. apply Hch. intros Hin. specialize (Hc _ Hin). by rewrite pgf_unknown in Hc.
  - intros a Ha. assert (steward_key a ∈ keys) as Hin by (destruct (decide (steward_key a ∈ keys)); [done|by destruct Ha; apply Hch]). specialize (Hc _ Hin).
    change (is_valid_steward_change pre post verifiers (steward_key a) = Ok true) in Hc. unfold is_valid_steward_change in Hc. rewrite steward_key_is in Hc.
    destruct (Z.ltb_spec (stewards_len pre) (stewards_len post)); [done|]. unfold read_value in Hc. destruct (post !! steward_key a) as [v|] eqn:Hv; cycle 1.
    { injection Hc as Hc%bool_decide_eq_true_1. split; [done|]. split; [lia|done]. }
    destruct (as_steward v) as [d|] eqn:Hd; cycle 1.
    { injection Hc as Hc%bool_decide_eq_true_1. split; [done|]. split; [lia|]. intros d [= ->]. done. }
    destruct (is_valid_reward_distribution d) as [b| |] eqn:Hb; [|done..]. injection Hc as [-> Hc%bool_decide_eq_true_1]%andb_true_iff. split; [done|]. split; [lia|]. intros d' [= ->]. cbn in Hd. by injection Hd as <-.
  - intros k data Hk -> Hacc. apply Hch. intros Hin. specialize (Hc _ Hin). assert (is_valid_parameter pre (Some data) = Ok true) as Hv by (by destruct Hk as [-> | ->]).
    unfold is_valid_parameter in Hv. congruence.
Qed.
Lemma stewards_len_insert m a v : m !! steward_key a = None -> stewards_len (<[steward_key a := v]> m) = stewards_len m + 1.
Proof.
  intros Hm. unfold stewards_len. rewrite (map_to_list_insert m) by done. rewrite filter_cons_True by (apply bool_decide_pack; by eexists). cbn [List.length]. lia.
Qed.
Lemma stewards_len_delete m a v : m !! steward_key a = Some v -> stewards_len (base.delete (steward_key a) m) = stewards_len m - 1.
Proof. intros Hm. rewrite <- (insert_delete_id m (steward_key a) v Hm) at 2. rewrite stewards_len_insert by apply lookup_delete_eq. lia. Qed.
(** A steward can hand the office over: a transaction that both authorize,
    without a proposal, removes the steward and makes the other one a steward, who
    was not voted for. *)
Theorem stewards_replaced_without_vote a b v d : a <> b -> a ∈ verifiers -> b ∈ verifiers -> pre !! steward_key a = Some v -> pre !! steward_key b = None ->
  is_valid_reward_distribution d = Ok true -> post = <[steward_key b := VGov (GSteward d)]> (base.delete (steward_key a) pre) ->
  is_steward pre b = false /\ is_steward post b = true /\ forall keys, keys ≡ₚ [steward_key a; steward_key b] -> validate keys = Ok true.
Proof.
  intros Hab Ha Hb Hv Hn Hd Hp. assert (steward_key a <> steward_key b) as Hne by congruence. split; [unfold is_steward; by rewrite Hn|]. split.
  { unfold is_steward. rewrite Hp, lookup_insert_eq. by apply bool_decide_true; eauto. }
  assert (stewards_len post = stewards_len pre) as Hlen by (rewrite Hp, stewards_len_insert by (by rewrite lookup_delete_ne); rewrite (stewards_len_delete _ _ v) by done; lia).
  intros keys Hk. apply all_keys_ok. intros k Hin. rewrite Hk in Hin.
  assert (forall c, c ∈ verifiers -> (c = a \/ c = b) -> is_valid_steward_change pre post verifiers (steward_key c) = Ok true) as Hc; [|apply elem_of_cons in Hin as [->|Hin%list_elem_of_singleton]; [by apply Hc; auto|subst k; by apply Hc; auto]].
  intros c Hc Hcc. unfold is_valid_steward_change. rewrite Hlen, Z.ltb_irrefl, steward_key_is. unfold read_value. rewrite Hp. destruct Hcc as [-> | ->].
  - rewrite lookup_insert_ne, lookup_delete_eq by done. by rewrite bool_decide_true.
  - rewrite lookup_insert_eq. cbn [as_steward]. rewrite Hd. by rewrite bool_decide_true.
Qed.
End pgf_soundness.

(** ** A proposal that is created as the code does is accepted *)
Section init_accepted.
Context {U : UintOps} {HU : UintLaws U} {C : AddressCodec} {HC : AddressCodecLaws C}.
Context (native_token : Address) (data : InitProposalData) (content : list Z) (code : option (list Z)).
Notation author := (init_author data).
Definition with_code (n : Z) (m : store) : store :=
  match init_type data with DefaultProposal (Some _) => <[get_proposal_code_key n := VBytes (default [] code)]> m | _ => m end.
Definition stored_type : ProposalType := match init_type data with DefaultProposal (Some _) => DefaultProposal None | t => t end.
Definition fields (n f : Z) (m : store) : store :=
  <[get_committing_proposals_key n (init_grace data) := VUnit]> (<[get_funds_key n := VAmount f]> (<[get_counter_key := VU64 (n + 1)]>
  (with_code n (<[get_grace_epoch_key n := VU64 (init_grace data)]> (<[get_voting_end_epoch_key n := VU64 (init_end data)]> (<[get_voting_start_epoch_key n := VU64 (init_start data)]>
  (with_code n (<[get_proposal_type_key n := VGov (GType stored_type)]> (<[get_author_key n := VAddress author]> (<[get_content_key n := VBytes content]> m)))))))))).
Definition deposited (f : Z) (m : store) : store :=
  <[bkey native_token GOV := VAmount (bal m native_token GOV + f)]> (<[bkey native_token author := VAmount (bal m native_token author - f)]> m).
Lemma fields_wf n f m : store_wf m -> store_wf (fields n f m).
Proof.
  intros Hm. unfold fields, with_code. destruct (init_type data) as [[]| |]; repeat (apply store_wf_other; [|reflexivity|reflexivity]); exact Hm.
Qed.
Lemma fields_bal n f m o : bal (fields n f m) native_token o = bal m native_token o.
Proof. unfold fields, with_code. destruct (init_type data) as [[]| |]; repeat (rewrite bal_other by done); done. Qed.
Definition code_given : Prop := match init_type data with DefaultProposal (Some _) => is_Some code | _ => True end.
Lemma type_step {A} n (K : unit -> st Layers GovError A) s m (Q : Layers * outcome GovError A -> Prop) : at_view s m -> code_given ->
  (forall s', at_view s' (with_code n (<[get_proposal_type_key n := VGov (GType stored_type)]> m)) -> Q (K tt s')) ->
  Q (st_bind (match init_type data with
      | DefaultProposal (Some _) =>
          do! gwrite (get_proposal_type_key n) (VGov (GType (DefaultProposal None))) in
          let! proposal_code := st_lift (ok_or code MissingProposalCode) in
          gwrite (get_proposal_code_key n) (VBytes proposal_code)
      | t => gwrite (get_proposal_type_key n) (VGov (GType t))
      end)%st K s).
Proof.
  unfold with_code, stored_type, code_given. intros Hv Hc HQ. destruct (init_type data) as [[h|]|l|l]; [|by apply (write_step _ _ _ _ _ _ Hv HQ)..].
  destruct Hc as [c ->]. rewrite st_bind_assoc. apply (write_step _ _ _ _ _ _ Hv). clear s Hv. intros s Hv. apply (write_step _ _ _ _ _ _ Hv HQ).
Qed.
Lemma code_step {A} n (K : unit -> st Layers GovError A) s m (Q : Layers * outcome GovError A -> Prop) : at_view s m -> code_given ->
  (forall s', at_view s' (with_code n m) -> Q (K tt s')) ->
  Q (st_bind (match init_type data with
      | DefaultProposal (Some _) =>
          let! proposal_code := st_lift (ok_or code MissingProposalCode) in
          gwrite (get_proposal_code_key n) (VBytes proposal_code)
      | _ => st_ret tt
      end)%st K s).
Proof.
  unfold with_code, code_given. intros Hv Hc HQ. destruct (init_type data) as [[h|]|l|l]; [|by apply HQ..]. destruct Hc as [c ->]. apply (write_step _ _ _ _ _ _ Hv HQ).
Qed.
Lemma init_proposal_run s n f : tx_log s = ∅ -> store_wf (view s) -> u64_at (view s) get_counter_key n -> n < U64_MAX -> view s !! get_min_proposal_fund_key = Some (VAmount f) ->
  init_id data = None -> code_given -> 0 < f -> author <> GOV -> f <= bal (view s) native_token author -> bal (view s) native_token GOV + f <= MAX_VALUE ->
  exists s', init_proposal native_token data content code s = (s', Ok tt) /\ view s' = deposited f (fields n f (view s)).
Proof using HU HC.
  intros Ht Hwf Hn Hmax Hf Hid Hcode H0 Ha Hbal Hgov. unfold init_proposal. rewrite Hid.
  set (Q := fun r : Layers * outcome GovError unit => exists s', r = (s', Ok tt) /\ view s' = deposited f (fields n f (view s))). match goal with |- exists s', ?r = _ /\ _ => change (Q r) end.
  erewrite st_bind_run; [|unfold st_bind, gread, read_value, st_lift; rewrite Hn; reflexivity].
  assert (at_view s (view s)) as Hv by done. remember (view s) as m eqn:Hm. clear Hm Ht.
  assert (in_u256 f) as Hf256 by (pose proof (bal_range m native_token GOV Hwf) as HG; unfold in_u256 in *; lia).
  apply (write_step _ _ _ _ _ _ Hv). clear s Hv. intros s Hv. apply (write_step _ _ _ _ _ _ Hv). clear s Hv. intros s Hv. apply (type_step _ _ _ _ _ Hv Hcode). clear s Hv. intros s Hv.
  do 3 (apply (write_step _ _ _ _ _ _ Hv); clear s Hv; intros s Hv). apply (code_step _ _ _ _ _ Hv Hcode). clear s Hv. intros s Hv.
  erewrite st_bind_run; [|unfold st_lift; rewrite u64_add_ok by lia; reflexivity]. apply (write_step _ _ _ _ _ _ Hv). clear s Hv. intros s Hv.
  assert (gread as_amount get_min_proposal_fund_key s = (s, Ok (Some f))) as Hread.
  { destruct Hv as [_ Hv]. unfold gread, read_value. rewrite Hv. unfold with_code. destruct (init_type data) as [[]| |]; by rewrite !lookup_insert_ne, Hf by done. }
  erewrite st_bind_run by exact Hread. clear Hread. erewrite st_bind_run; [|reflexivity].
  do 2 (apply (write_step _ _ _ _ _ _ Hv); clear s Hv; intros s Hv). destruct (gov_transfer_run native_token _ _ author GOV f Hv) as (s' & Hrun & [_ Hv']);
    [by apply (fields_wf n f m)|done|done|done|by rewrite (fields_bal n f m)|by rewrite (fields_bal n f m)|]. by exists s'.
Qed.

Context (pos_pre : Pos) (current_epoch : Epoch) (verifiers : gset Address) (tx_data : option (list Z)) (value_bytes : value -> list Z) (info_log : bool).
Context (value_bytes_bytes : forall b, value_bytes (VBytes b) = b).
(** A proposal that fits the parameters *)
Record creation_ok (s : Layers) (n : Z) (p : GovernanceParameters) : Prop := {
  co_log : tx_log s = ∅;
  co_wf : store_wf (view s);
  co_params : get_parameters (view s) = Ok p;
  co_counter : u64_at (view s) get_counter_key n /\ 0 <= n < U64_MAX;
  co_fresh : forall f, f ∈ protected_fields.*1 -> view s !! field_key f n = None;
  co_id : init_id data = None;
  co_author : account_exists (view s) author = true /\ author ∈ verifiers;
  co_funds : 0 < min_proposal_fund p <= bal (view s) native_token author /\ bal (view s) native_token GOV + min_proposal_fund p <= MAX_VALUE;
  co_order : current_epoch < init_start data < init_end data /\ init_end data < init_grace data;
  co_period : 0 < min_proposal_voting_period p /\ (min_proposal_voting_period p | init_end data - init_start data) /\
    min_proposal_voting_period p <= init_end data - init_start data /\ init_grace data - init_start data <= gov_max_proposal_period p;
  co_grace : min_proposal_grace_epochs p <= init_grace data - init_end data;
  co_content : Z.of_nat (List.length content) <= max_proposal_content_size p;
  co_code : code_given;
  co_type : match init_type data with
            | DefaultProposal (Some _) => Z.of_nat (List.length (default [] code)) <= max_proposal_code_size p
            | DefaultProposal None => True
            | PGFSteward l => (List.length l < 20)%nat /\ (omap added_steward l = [] \/ omap added_steward l = [author])
            | PGFPayment l => (List.length l <= 20)%nat
            end
}.
(** The keys that the creation writes *)
Definition changed_keys (n : Z) : list Key :=
  mandatory_keys n ++ (match init_type data with DefaultProposal (Some _) => [get_proposal_code_key n] | _ => [] end) ++
  [get_committing_proposals_key n (init_grace data); bkey native_token author; bkey native_token GOV].
Lemma with_code_ne n m k : k <> get_proposal_code_key n -> with_code n m !! k = m !! k.
Proof. intros Hk. unfold with_code. destruct (init_type data) as [[]| |]; try done. by rewrite lookup_insert_ne. Qed.
Lemma parameters_inv m p : get_parameters m = Ok p ->
  u64_at m get_max_proposal_code_size_key (max_proposal_code_size p) /\ u64_at m get_max_proposal_content_key (max_proposal_content_size p) /\
  m !! get_min_proposal_fund_key = Some (VAmount (min_proposal_fund p)) /\ u64_at m get_min_proposal_grace_epoch_key (min_proposal_grace_epochs p) /\
  u64_at m get_min_proposal_voting_period_key (min_proposal_voting_period p) /\ u64_at m get_max_proposal_period_key (gov_max_proposal_period p).
Proof.
  assert (forall A (dec : value -> option A) k a, (let* o := read_value GovDecode dec m k in unwrap o)%out = Ok (E:=GovError) a -> exists v, m !! k = Some v /\ dec v = Some a) as Hforce.
  { intros A dec k a. unfold read_value. destruct (m !! k) as [v|]; cbn; [|done]. destruct (dec v) eqn:Hd; cbn; [|done]. intros [= <-]. eauto. }
  assert (forall k n, (let* o := read_value GovDecode as_u64 m k in unwrap o)%out = Ok (E:=GovError) n -> u64_at m k n) as Hu.
  { intros k n (v & Hv & Hd)%Hforce. destruct v; try done. by injection Hd as <-. }
  intros H. unfold get_parameters in H. do 6 (apply out_bind_Ok in H as (? & ? & H)). injection H as <-. cbn.
  split_and!; try (by apply Hu). match goal with Ha : context [as_amount] |- _ => apply Hforce in Ha as (v & Hv & Hd) end. destruct v; try done. by injection Hd as <-.
Qed.

Section accepted.
Context (s : Layers) (n : Z) (p : GovernanceParameters) (Hok : creation_ok s n p).
Notation m := (view s).
Notation f := (min_proposal_fund p).
Notation post := (deposited f (fields n f m)).
Notation check := (check_key m post pos_pre native_token current_epoch verifiers tx_data value_bytes info_log 1).
Ltac look := unfold deposited, fields; repeat first [rewrite lookup_insert_eq | rewrite lookup_insert_ne by done | rewrite with_code_ne by done]; try reflexivity.
Lemma post_counter : u64_at post get_counter_key (n + 1).
Proof. unfold u64_at. look. Qed.
Lemma post_epochs : u64_at post (get_voting_start_epoch_key n) (init_start data) /\ u64_at post (get_voting_end_epoch_key n) (init_end data) /\ u64_at post (get_grace_epoch_key n) (init_grace data).
Proof. unfold u64_at. split_and!; look. Qed.
Lemma post_author : post !! get_author_key n = Some (VAddress author).
Proof. look. Qed.
Lemma post_type : post !! get_proposal_type_key n = Some (VGov (GType stored_type)).
Proof. look. Qed.
Lemma post_content : post !! get_content_key n = Some (VBytes content).
Proof. look. Qed.
Lemma post_funds : post !! get_funds_key n = Some (VAmount f).
Proof. look. Qed.
Lemma post_commit : has post (get_committing_proposals_key n (init_grace data)) = true.
Proof. apply (has_true _ _ VUnit). look. Qed.
Lemma post_balance : post !! bkey native_token GOV = Some (VAmount (bal m native_token GOV + f)).
Proof. unfold deposited. by rewrite lookup_insert_eq, fields_bal. Qed.
Lemma fresh_field g : g ∈ protected_fields.*1 -> has m (field_key g n) = false.
Proof using Hok. intros Hg. unfold has. rewrite (co_fresh _ _ _ Hok g Hg). done. Qed.
Lemma creation_balance : (exists a, read_value GovVpDecode as_amount m (bkey native_token GOV) = Ok (Some a) /\ bal m native_token GOV = a) \/
  read_value GovVpDecode as_amount m (bkey native_token GOV) = Ok None /\ bal m native_token GOV = 0.
Proof using Hok.
  unfold read_value, bal. destruct (m !! bkey native_token GOV) as [v|] eqn:Hv; [|by right]. destruct (co_wf _ _ _ Hok _ _ Hv (amount_key_bkey _ _)) as (a & -> & _). left. by exists a.
Qed.
Lemma balances_accepted : is_valid_balance m post native_token = Ok true /\ is_valid_funds m post native_token n = Ok true.
Proof using Hok HU.
  destruct (parameters_inv _ _ (co_params _ _ _ Hok)) as (_ & _ & Hf & _). destruct (co_funds _ _ _ Hok) as [[H0 _] Hmax].
  pose proof (bal_range m native_token GOV (co_wf _ _ _ Hok)) as Hb. unfold in_u256 in Hb.
  assert (amount_sub (E:=GovVpError) (bal m native_token GOV + f) (bal m native_token GOV) = Ok f) as Hsub by (unfold amount_sub; rewrite uint_sub_ok by (unfold in_u256; lia); f_equal; lia).
  unfold is_valid_balance, is_valid_funds. rewrite (proj2 (force_amount _ _ _) Hf), (proj2 (force_amount _ _ _) post_balance), (proj2 (force_amount _ _ _) post_funds).
  destruct creation_balance as [(a & -> & Ha)|[-> Ha]]; cbn [out_bind].
  - rewrite <- Ha, (proj2 (Z.ltb_lt _ _)), Z.leb_refl, Hsub by lia. cbn [out_bind]. by rewrite Z.leb_refl, Z.eqb_refl.
  - rewrite Ha. by rewrite !Z.add_0_l, Z.leb_refl, Z.eqb_refl.
Qed.
Lemma epochs_accepted : is_valid_start_epoch m post current_epoch n = Ok true /\ is_valid_end_epoch m post current_epoch n = Ok true /\ is_valid_grace_epoch m post info_log n = Ok true.
Proof using Hok.
  destruct (parameters_inv _ _ (co_params _ _ _ Hok)) as (_ & _ & _ & Hg & Hp & Hx). destruct post_epochs as (Hs & He & Hgr).
  destruct (co_order _ _ _ Hok) as [Ho1 Ho2]. destruct (co_period _ _ _ Hok) as (H0 & Hdiv & Hmin & Hmax). pose proof (co_grace _ _ _ Hok) as Hgrace.
  assert (whole_periods (init_start data) (init_end data) (min_proposal_voting_period p) = Ok true) as Hw.
  { unfold whole_periods, epoch_sub. rewrite u64_sub_ok by lia. cbn [out_bind]. rewrite (proj2 (Z.eqb_neq _ _)) by lia. apply Z.mod_divide in Hdiv; [|lia]. by rewrite Hdiv, (proj2 (Z.leb_le _ _) Hmin). }
  unfold is_valid_start_epoch, is_valid_end_epoch, is_valid_grace_epoch, get_voting_start_epoch_key, get_voting_end_epoch_key, get_grace_epoch_key in *.
  rewrite !fresh_field by (clear; unfold protected_fields; set_solver). cbn [orb].
  rewrite (proj2 (force_u64 _ _ _) Hs), (proj2 (force_u64 _ _ _) He), (proj2 (force_u64 _ _ _) Hgr), (proj2 (force_u64 _ _ _) Hp), (proj2 (force_u64 _ _ _) Hx), (proj2 (force_u64 _ _ _) Hg). cbn [out_bind].
  rewrite !(proj2 (Z.leb_gt _ _)) by lia. cbn [orb]. rewrite Hw. cbn [out_bind]. unfold epoch_sub. rewrite !u64_sub_ok, !(proj2 (Z.ltb_lt _ _)) by lia. cbn [out_bind].
  rewrite post_commit, !(proj2 (Z.leb_le _ _)) by lia. done.
Qed.
Lemma type_accepted : is_valid_proposal_type post n = Ok true.
Proof using Hok.
  unfold is_valid_proposal_type. rewrite (proj2 (force_type _ _ _) post_type), (proj2 (force_address _ _ _) post_author). cbn [out_bind]. pose proof (co_type _ _ _ Hok) as Ht. unfold stored_type, MAX_PGF_ACTIONS.
  destruct (init_type data) as [[]|l|l]; [done|done| |by rewrite (proj2 (Nat.ltb_ge _ _) Ht)]. destruct Ht as [Hl [-> | ->]]; cbn [out_bind]; rewrite (proj2 (Nat.ltb_lt _ _) Hl); [done|]. by rewrite bool_decide_true.
Qed.
Lemma content_accepted : is_valid_content_key m post value_bytes n = Ok true.
Proof using Hok value_bytes_bytes.
  destruct (parameters_inv _ _ (co_params _ _ _ Hok)) as (_ & Hp & _). unfold is_valid_content_key, post_len. unfold get_content_key at 1. rewrite fresh_field by (clear; unfold protected_fields; set_solver).
  rewrite (proj2 (force_u64 _ _ _) Hp), post_content. cbn [out_bind from_option]. rewrite value_bytes_bytes. by rewrite (proj2 (Z.leb_le _ _) (co_content _ _ _ Hok)).
Qed.
Lemma author_accepted : is_valid_author m post verifiers n = Ok true.
Proof using Hok.
  destruct (co_author _ _ _ Hok) as [Hex Hv]. unfold is_valid_author. unfold get_author_key at 1. rewrite fresh_field by (clear; unfold protected_fields; set_solver).
  rewrite (proj2 (force_address _ _ _) post_author). cbn [out_bind]. by rewrite Hex, bool_decide_true.
Qed.
Lemma code_accepted h : init_type data = DefaultProposal (Some h) -> is_valid_proposal_code m post value_bytes n = Ok true.
Proof using Hok value_bytes_bytes.
  intros Ht. destruct (parameters_inv _ _ (co_params _ _ _ Hok)) as (Hp & _). unfold is_valid_proposal_code, post_len. rewrite (proj2 (force_type _ _ _) post_type). cbn [out_bind].
  assert (stored_type = DefaultProposal None) as -> by (unfold stored_type; by rewrite Ht). cbn [is_default negb]. unfold get_proposal_code_key at 1. rewrite fresh_field by (clear; unfold protected_fields; set_solver).
  rewrite (proj2 (force_u64 _ _ _) Hp). cbn [out_bind]. pose proof (co_type _ _ _ Hok) as Hc. rewrite Ht in Hc.
  assert (post !! get_proposal_code_key n = Some (VBytes (default [] code))) as -> by (unfold deposited, fields; do 5 rewrite lookup_insert_ne by done; unfold with_code at 1; rewrite Ht; by rewrite lookup_insert_eq).
  cbn [from_option]. rewrite value_bytes_bytes. by rewrite (proj2 (Z.leb_le _ _) Hc).
Qed.
Lemma counter_accepted : is_valid_counter m post 1 = Ok true /\ is_valid_proposal_commit m post = Ok true.
Proof using Hok.
  destruct (co_counter _ _ _ Hok) as [Hn Hr]. unfold is_valid_counter, is_valid_proposal_commit. rewrite (proj2 (force_u64 _ _ _) Hn), (proj2 (force_u64 _ _ _) post_counter). cbn [out_bind].
  rewrite u64_add_ok by lia. cbn [out_bind]. rewrite Z.eqb_refl. by rewrite (proj2 (Z.ltb_lt _ _)) by lia.
Qed.
Lemma check_named g t : (g, t) ∈ field_types -> check (field_key g n) =
  match t with
  | CONTENT => is_valid_content_key m post value_bytes n
  | TYPE => is_valid_proposal_type post n
  | PROPOSAL_CODE => is_valid_proposal_code m post value_bytes n
  | GRACE_EPOCH => is_valid_grace_epoch m post info_log n
  | START_EPOCH => is_valid_start_epoch m post current_epoch n
  | END_EPOCH => is_valid_end_epoch m post current_epoch n
  | FUNDS => is_valid_funds m post native_token n
  | AUTHOR => is_valid_author m post verifiers n
  | _ => Ok true
  end.
Proof using Hok.
  intros Hg. destruct (co_counter _ _ _ Hok) as [_ Hr]. unfold check_key. rewrite (field_key_type native_token g t n Hg), get_proposal_id_field by lia. cbn [out_bind].
  unfold field_types in Hg. repeat (apply elem_of_cons in Hg as [[= -> ->]|Hg]; [reflexivity|]). by apply not_elem_of_nil in Hg.
Qed.
Lemma check_balance o : check (bkey native_token o) = is_valid_balance m post native_token.
Proof. unfold check_key, key_type. rewrite is_balance_key_bkey. reflexivity. Qed.
Ltac named g t :=
  match goal with
  | Hk : ?k ∈ _ :: _, Hfield : forall g t, _ -> ?k = _ -> _ |- _ =>
      apply elem_of_cons in Hk as [Hk|Hk]; [apply (Hfield g t); [clear; unfold field_types; set_solver|exact Hk|done]|]
  end.
Lemma changed_accepted k : k ∈ changed_keys n -> check k = Ok true.
Proof using Hok value_bytes_bytes HU.
  destruct balances_accepted as [Hbal Hfunds]. destruct epochs_accepted as (Hst & Hen & Hgr). destruct counter_accepted as [Hc Hcom]. pose proof type_accepted as Hty. pose proof content_accepted as Hct. pose proof author_accepted as Hau.
  assert (forall g t, (g, t) ∈ field_types -> k = field_key g n -> t <> PROPOSAL_CODE -> check k = Ok true) as Hfield.
  { intros g t Hg -> Hne. rewrite (check_named g t Hg). by destruct t. }
  unfold changed_keys, mandatory_keys. rewrite !elem_of_app. intros [Hk|[Hk|Hk]].
  - apply elem_of_cons in Hk as [->|Hk]; [exact Hc|].
    named k_content CONTENT. named k_author AUTHOR. named k_proposal_type TYPE. named k_funds FUNDS. named k_start_epoch START_EPOCH. named k_end_epoch END_EPOCH. named k_grace_epoch GRACE_EPOCH.
    by apply not_elem_of_nil in Hk.
  - destruct (init_type data) as [[h|]| |] eqn:Ht; [|by apply not_elem_of_nil in Hk..]. apply list_elem_of_singleton in Hk as ->. unfold get_proposal_code_key.
    rewrite (check_named k_proposal_code PROPOSAL_CODE) by (clear; unfold field_types; set_solver). by apply (code_accepted h).
  - apply elem_of_cons in Hk as [->|Hk]; [change (check (get_committing_proposals_key n (init_grace data))) with (out_bind (Ok (E:=GovVpError) tt) (fun _ => is_valid_proposal_commit m post)); exact Hcom|].
    apply elem_of_cons in Hk as [->|Hk%list_elem_of_singleton]; [|subst k]; by rewrite check_balance.
Qed.
End accepted.

(** C12. The code that creates proposals and the predicate agree: when a proposal
    fits the parameters, its author exists, has authorized the transaction and
    holds the deposit, [init_proposal] succeeds and the predicate accepts what it
    wrote, in any order of the keys. The proposal gets the value of the counter as
    its id, and only the length of the vote has to be a multiple of the minimal
    period, where the documentation asks for the counter plus one and for a first
    epoch that is such a multiple. *)
Theorem created_proposal_accepted s n p : creation_ok s n p ->
  exists s', init_proposal native_token data content code s = (s', Ok tt) /\
    forall keys, keys ≡ₚ changed_keys n -> gov_validate_tx (view s) (view s') pos_pre native_token current_epoch verifiers tx_data value_bytes info_log keys = Ok true.
Proof using HU HC value_bytes_bytes.
  intros Hok. destruct (co_counter _ _ _ Hok) as [Hn Hr]. destruct (co_funds _ _ _ Hok) as [[H0 Hb] Hmax]. destruct (parameters_inv _ _ (co_params _ _ _ Hok)) as (_ & _ & Hf & _).
  assert (author <> GOV) as Ha by (intros Ha; destruct (co_author _ _ _ Hok) as [Hex _]; by rewrite Ha in Hex).
  destruct (init_proposal_run s n (min_proposal_fund p)) as (s' & Hrun & Hv); [by destruct Hok..|done|lia|done|by destruct Hok|by destruct Hok|lia|done|done|done|].
  exists s'. split; [done|]. intros keys Hk. rewrite Hv. unfold gov_validate_tx, is_valid_key_set. rewrite (proj2 (force_u64 _ _ _) Hn), (proj2 (force_u64 _ _ _) (post_counter s n p)). cbn [out_bind].
  rewrite (proj2 (Z.ltb_ge _ _)) by lia. replace (n + 1 - n) with 1 by lia. change (seqZ n 1) with [0 + n]. rewrite Z.add_0_l. cbn [forallb]. rewrite andb_true_r.
  rewrite (proj2 (forallb_forall _ _)).
  - cbn [out_bind fst snd negb]. apply all_keys_ok. intros k Hin. rewrite Hk in Hin. by apply changed_accepted.
  - intros k Hin%list_elem_of_In. apply bool_decide_true. rewrite Hk. unfold changed_keys. rewrite elem_of_app. by left.
Qed.
End init_accepted.

(** ** Instances *)
Module RefGovVp.
Definition nam : Address := RefRewards.nam.
Definition alice : Address := Implicit 7.
Definition bob : Address := Implicit 8.
Definition bytes_of (v : value) : list Z := match v with VBytes b => b | _ => [] end.
Definition base : store :=
  <[get_counter_key := VU64 0]> (<[get_min_proposal_fund_key := VAmount 500]> (<[get_max_proposal_code_size_key := VU64 100]> (<[get_min_proposal_voting_period_key := VU64 3]>
  (<[get_max_proposal_period_key := VU64 27]> (<[get_max_proposal_content_key := VU64 10]> (<[get_min_proposal_grace_epoch_key := VU64 6]>
  (<[steward_key alice := VGov (GSteward (mkSteward alice ∅))]> {[bkey nam alice := VAmount 800]}))))))).
Definition gov_params : GovernanceParameters := mkGovParams 500 100 3 27 10 6.
Definition proposal : InitProposalData := mkInitProposal None alice (DefaultProposal (Some 5)) 12 18 24.
Definition content : list Z := [1; 2].
Definition code : option (list Z) := Some [3; 4; 5].
Definition created : store := deposited nam proposal 500 (fields proposal content code 0 500 base).
Definition keys : list Key := changed_keys nam proposal 0.
Definition staked : Pos := mkPos (sets (pos RefRewards.base)) (total_deltas (pos RefRewards.base)) (mkLedger {[(bob, RefGov.v1) := RefRewards.at1 40]} ∅ ∅ ∅)
  (redel (pos RefRewards.base)) (rewards (pos RefRewards.base)) (balances (pos RefRewards.base)) (info (pos RefRewards.base)).
Notation vp pre post epoch verifiers := (gov_validate_tx (U:=Ref.uint_ref) pre post staked nam epoch verifiers (Some []) bytes_of true).
Lemma base_wf : store_wf base.
Proof.
  unfold base. repeat (apply store_wf_other; [|reflexivity|reflexivity]).
  intros k v [<- <-]%lookup_singleton_Some _. exists 800. split; [done|vm_compute; split; discriminate].
Qed.
Lemma base_ranges : store_ranges base.
Proof.
  intros k v Hk. unfold base in Hk. repeat (apply lookup_insert_Some in Hk as [[_ <-]|[_ Hk]]; [vm_compute; try split; discriminate|]).
  apply lookup_singleton_Some in Hk as [_ <-]. vm_compute. split; discriminate.
Qed.
Lemma created_ranges : store_ranges created.
Proof.
  intros k v Hk. unfold created, deposited, fields, with_code, stored_type in Hk. cbn [init_type proposal] in Hk.
  repeat (apply lookup_insert_Some in Hk as [[_ <-]|[_ Hk]]; [first [exact I|vm_compute; split; discriminate]|]). by apply (base_ranges k).
Qed.
Lemma created_elsewhere k : k ∉ keys -> created !! k = base !! k.
Proof.
  intros Hk. unfold keys, changed_keys, mandatory_keys in Hk. cbn [init_type proposal app init_author] in Hk. unfold created, deposited, fields, with_code. cbn [init_type proposal init_author].
  repeat rewrite lookup_insert_ne by (intros <-; apply Hk; set_solver). done.
Qed.
Lemma created_valid : vp base created 10 {[alice]} keys = Ok true.
Proof. vm_compute. reflexivity. Qed.
Lemma creation : creation_ok nam proposal content code 10 {[alice]} (mkLayers base ∅ ∅) 0 gov_params.
Proof.
  split; rewrite ?view_db.
  - reflexivity.
  - apply base_wf.
  - vm_compute. reflexivity.
  - split; [vm_compute; reflexivity|vm_compute; split; [discriminate|reflexivity]].
  - intros f Hf. change (f ∈ [k_content; k_author; k_start_epoch; k_end_epoch; k_grace_epoch; k_proposal_code]) in Hf.
    repeat (apply elem_of_cons in Hf as [->|Hf]; [vm_compute; reflexivity|]). exfalso. exact (not_elem_of_nil _ Hf).
  - reflexivity.
  - split; [reflexivity|]. by apply elem_of_singleton.
  - split; [split|]; vm_compute; [reflexivity|discriminate|discriminate].
  - vm_compute. auto.
  - split; [vm_compute; reflexivity|]. split; [by exists 2|]. vm_compute. split; discriminate.
  - vm_compute. discriminate.
  - vm_compute. discriminate.
  - by eexists.
  - vm_compute. discriminate.
Qed.
(** The vote of a delegator *)
Definition vote_key : Key := get_vote_proposal_key 0 bob RefGov.v1.
Definition voted : store := <[vote_key := VGov (GVote Nay)]> created.
Lemma voted_valid : vp created voted 16 {[bob]} [vote_key] = Ok true.
Proof. vm_compute. reflexivity. Qed.
End RefGovVp.

Lemma governance_vp_protects_proposals_witness :
  exists n n', u64_at RefGovVp.base get_counter_key n /\ u64_at RefGovVp.created get_counter_key n' /\ n <= n' /\
    (forall f id v, f ∈ protected_fields.*1 -> 0 <= id <= U64_MAX -> RefGovVp.base !! field_key f id = Some v -> RefGovVp.created !! field_key f id = Some v) /\
    (forall id, n <= id < n' -> exists start end_ grace funds author,
      proposal_checked RefGovVp.base RefGovVp.created RefGovVp.nam 10 {[RefGovVp.alice]} RefGovVp.bytes_of id start end_ grace funds author) /\
    bal RefGovVp.base RefGovVp.nam GOV <= bal RefGovVp.created RefGovVp.nam GOV /\
    (forall name data, name ∈ [k_min_fund; k_max_content; k_max_code_size; k_min_period; k_max_period; k_min_grace_epoch] ->
      Some [] = Some data -> is_proposal_accepted RefGovVp.base data = false -> RefGovVp.created !! single_key name = RefGovVp.base !! single_key name).
Proof.
  apply (governance_vp_protects_proposals (HU:=Ref.uint_ref_laws) RefGovVp.base RefGovVp.created RefGovVp.staked RefGovVp.nam 10 {[RefGovVp.alice]} (Some []) RefGovVp.bytes_of true RefGovVp.keys).
  - apply RefGovVp.base_ranges.
  - apply RefGovVp.created_ranges.
  - apply RefGovVp.created_elsewhere.
  - apply RefGovVp.created_valid.
Defined.
Lemma governance_vp_votes_witness : RefGovVp.bob ∈ ({[RefGovVp.bob]} : gset Address) /\
  RefGovVp.voted !! get_vote_proposal_key 0 RefGovVp.bob RefGov.v1 = Some (VGov (GVote Nay)).
Proof.
  destruct (governance_vp_votes (U:=Ref.uint_ref) RefGovVp.created RefGovVp.voted RefGovVp.staked RefGovVp.nam 16 {[RefGovVp.bob]} (Some []) RefGovVp.bytes_of true [RefGovVp.vote_key] 0 RefGovVp.bob RefGov.v1) as [Hv _].
  - apply RefGovVp.voted_valid.
  - vm_compute. split; discriminate.
  - apply list_elem_of_here.
  - split; [exact Hv|]. vm_compute. reflexivity.
Defined.
(** The payments are to the one who changes the type. *)
Lemma proposal_type_unprotected_witness :
  gov_validate_tx (U:=Ref.uint_ref) RefGovVp.created
    (<[get_proposal_type_key 0 := VGov (GType (PGFPayment [Retro (mkTarget RefGovVp.bob 1000)]))]> RefGovVp.created)
    RefGovVp.staked RefGovVp.nam 23 ∅ (Some []) RefGovVp.bytes_of true [get_proposal_type_key 0] = Ok true.
Proof.
  apply (proposal_type_unprotected RefGovVp.created _ RefGovVp.staked RefGovVp.nam 23 ∅ (Some []) RefGovVp.bytes_of true 0 1 (PGFPayment [Retro (mkTarget RefGovVp.bob 1000)])).
  - vm_compute. split; discriminate.
  - vm_compute. reflexivity.
  - reflexivity.
  - cbn. lia.
Defined.
Lemma grace_epoch_stops_node_witness :
  gov_validate_tx (U:=Ref.uint_ref) RefGovVp.base
    (<[get_voting_end_epoch_key 9 := VU64 18]> (<[get_grace_epoch_key 9 := VU64 17]> (<[get_voting_start_epoch_key 9 := VU64 12]> RefGovVp.base)))
    RefGovVp.staked RefGovVp.nam 10 ∅ (Some []) RefGovVp.bytes_of true [get_voting_end_epoch_key 9; get_grace_epoch_key 9; get_voting_start_epoch_key 9] = Panic.
Proof.
  apply (grace_epoch_stops_node RefGovVp.base _ RefGovVp.staked RefGovVp.nam 10 ∅ (Some []) RefGovVp.bytes_of true 9 0 12 18 17 3 27 6).
  - reflexivity.
  - vm_compute. split; discriminate.
  - vm_compute. reflexivity.
  - vm_compute. reflexivity.
  - vm_compute. reflexivity.
  - vm_compute. reflexivity.
  - vm_compute. reflexivity.
  - vm_compute. reflexivity.
  - vm_compute. reflexivity.
  - reflexivity.
  - reflexivity.
  - lia.
  - by exists 2.
  - lia.
  - lia.
Defined.
Lemma stray_commit_stops_chain_witness :
  let post' := <[get_committing_proposals_key 77 40 := VUnit]> RefGovVp.created in
  gov_validate_tx (U:=Ref.uint_ref) RefGovVp.base post' RefGovVp.staked RefGovVp.nam 10 {[RefGovVp.alice]} (Some []) RefGovVp.bytes_of true (RefGovVp.keys ++ [get_committing_proposals_key 77 40]) = Ok true /\
  (exists ids, load_proposals post' 40 = Ok ids /\ 77 ∈ ids) /\
  execute_proposal (U:=Ref.uint_ref) (C:=RefCodec.codec) RefGovVp.nam RefRewards.params RefGovVp.staked rejected_tx RefGovVp.bytes_of 77 (mkLayers post' ∅ ∅) = (mkLayers post' ∅ ∅, Panic).
Proof.
  apply (stray_commit_stops_chain (C:=RefCodec.codec) RefGovVp.base RefGovVp.created RefGovVp.staked RefGovVp.nam 10 {[RefGovVp.alice]} (Some []) RefGovVp.bytes_of true 77 40 RefGovVp.keys 0 1
    RefGovVp.nam RefRewards.params RefGovVp.staked rejected_tx (mkLayers _ ∅ ∅)).
  - vm_compute. split; discriminate.
  - vm_compute. split; discriminate.
  - apply RefGovVp.created_valid.
  - vm_compute. reflexivity.
  - vm_compute. reflexivity.
  - reflexivity.
  - apply view_db.
  - vm_compute. reflexivity.
Defined.
Lemma created_proposal_accepted_witness :
  exists s', init_proposal (U:=Ref.uint_ref) (C:=RefCodec.codec) RefGovVp.nam RefGovVp.proposal RefGovVp.content RefGovVp.code (mkLayers RefGovVp.base ∅ ∅) = (s', Ok tt) /\
    forall keys, keys ≡ₚ changed_keys RefGovVp.nam RefGovVp.proposal 0 ->
      gov_validate_tx (U:=Ref.uint_ref) (view (mkLayers RefGovVp.base ∅ ∅)) (view s') RefGovVp.staked RefGovVp.nam 10 {[RefGovVp.alice]} (Some []) RefGovVp.bytes_of true keys = Ok true.
Proof.
  apply (created_proposal_accepted (HU:=Ref.uint_ref_laws) (HC:=RefCodec.codec_laws) RefGovVp.nam RefGovVp.proposal RefGovVp.content RefGovVp.code RefGovVp.staked 10 {[RefGovVp.alice]} (Some []) RefGovVp.bytes_of true
    (fun b => eq_refl) (mkLayers RefGovVp.base ∅ ∅) 0 RefGovVp.gov_params).
  apply RefGovVp.creation.
Defined.
(** A steward changes the distribution; the office is handed over. *)
Definition half_share : StewardDetail := mkSteward RefGovVp.alice {[RefGovVp.alice := 5 * 10 ^ 11]}.
Lemma pgf_vp_sound_witness : RefGovVp.alice ∈ ({[RefGovVp.alice]} : gset Address) /\ is_valid_reward_distribution (U:=Ref.uint_ref) half_share = Ok true.
Proof.
  destruct (pgf_vp_sound (U:=Ref.uint_ref) RefGovVp.base (<[steward_key RefGovVp.alice := VGov (GSteward half_share)]> RefGovVp.base) {[RefGovVp.alice]} (Some []) [steward_key RefGovVp.alice]) as (_ & Hs & _).
  - intros k Hk. by rewrite lookup_insert_ne by (intros <-; apply Hk, list_elem_of_here).
  - vm_compute. reflexivity.
  - destruct (Hs RefGovVp.alice) as (Hv & _ & Hd); [vm_compute; discriminate|]. split; [exact Hv|]. apply Hd. apply lookup_insert_eq.
Defined.
Lemma stewards_replaced_without_vote_witness :
  let post := <[steward_key RefGovVp.bob := VGov (GSteward (mkSteward RefGovVp.bob ∅))]> (base.delete (steward_key RefGovVp.alice) RefGovVp.base) in
  is_steward RefGovVp.base RefGovVp.bob = false /\ is_steward post RefGovVp.bob = true /\
  forall keys, keys ≡ₚ [steward_key RefGovVp.alice; steward_key RefGovVp.bob] ->
    pgf_validate_tx (U:=Ref.uint_ref) RefGovVp.base post {[RefGovVp.alice; RefGovVp.bob]} (Some []) keys = Ok true.
Proof.
  apply (stewards_replaced_without_vote (U:=Ref.uint_ref) RefGovVp.base _ {[RefGovVp.alice; RefGovVp.bob]} (Some []) RefGovVp.alice RefGovVp.bob
    (VGov (GSteward (mkSteward RefGovVp.alice ∅))) (mkSteward RefGovVp.bob ∅)).
  - discriminate.
  - set_solver.
  - set_solver.
  - vm_compute. reflexivity.
  - vm_compute. reflexivity.
  - vm_compute. reflexivity.
  - reflexivity.
Defined.
